(* ===== verification/_CoqProject ===== *)
-Q . S2P
Prelude.v
GoStd.v
GoMatch.v
GoTime.v
AppTypes.v
Glob.v
Windows.v
Project.v
ProjectRules.v
ProjectTokens.v
ProjectTokensProofs.v
ProjectExamples.v
Consistent.v
Sharding.v
ShardHash.v
ShardCache.v
ShardMapping.v
Kube.v
Calls.v
ClusterCache.v
ClusterCacheProofs.v
Hierarchy.v
HierarchyGraph.v
HierarchyProofs.v
ClusterExamples.v
SyncCommon.v
Tracking.v
TrackingProofs.v
LiveState.v
LiveStateProofs.v
AppRefresh.v
AppRefreshProofs.v
SyncTask.v
Health.v
AppDeletion.v
AppDeletionProofs.v
AppDeletionEnds.v
Reconcile.v
SyncState.v
SyncRun.v
SyncTrace.v
SyncPlan.v
SyncOp.v
SyncOpts.v
SyncOpTrace.v
SyncOrder.v
SyncStep.v
SyncExamples.v
Rollout.v
RolloutStatus.v
RolloutProofs.v
RolloutExamples.v
AppSetSelector.v
AppSetTypes.v
AppSetGenerators.v
AppSetGeneratorsProofs.v
AppSetRendering.v
AppSetConditions.v
AppSetController.v
AppSetControllerProofs.v
AppSetOutcomes.v
AppSetEvents.v
AppSetExamples.v
AppOperation.v
AppOperationProofs.v
AutoSync.v
AutoSyncProofs.v
Session.v
SessionProofs.v
SessionTokens.v
SessionTokensProofs.v
SessionExamples.v
Rbac.v
RbacPolicies.v
RbacProofs.v
RepoLock.v
HideSecrets.v
