(* ===== verification/Prelude.v ===== *)
(** * Verification of a GitOps continuous-delivery system

    The program brings a Kubernetes cluster to the state described in git.  Verified
    here are its core, the GitOps engine under [src/gitops-engine/pkg] (the
    comparison of desired and live objects, the planning and execution of a sync
    operation with hooks, phases, waves and pruning, and the health assessment
    that drives its progress), and the controllers around it that decide when an
    application is synced, by which replica, in which order and how often.

    ** The parts and how they interact

    - [sync/reconcile.go] pairs desired and live objects ([Reconcile]);
    - [sync/sync_context.go] owns a sync operation.  [NewSyncContext] builds a
      context from the pairs and a list of options; each call of [Sync] makes
      one step: it plans tasks ([getSyncTasks]), validates them with a dry run
      the first time, refreshes running tasks from the health of their live
      objects, and then waits, starts failure hooks, runs the next wave
      ([runTasks]) or ends the operation; [Terminate] stops running hooks;
      [GetState] reports phase and results, from which the next context is
      resumed ([WithInitialState]);
    - [sync/sync_task.go] and [sync_tasks.go] are the tasks and their order;
    - [sync/common], [sync/hook], [sync/resource], [sync/syncwaves],
      [sync/ignore] and [sync_phase.go] read hooks, waves and options from
      annotations;
    - [health] assesses live objects;
    - [utils/kube] provides resource keys, kinds, images and API discovery.

    Around the engine, the controller asks before a sync whether the project of
    the application permits it:
    - [src/pkg/apis/application/v1alpha1/types.go] has the sync windows, and
      [syncWindowPreventsSync] of [src/controller/sync.go] is the check;
    - [app_project_types.go] beside it has the destination rules, roles and
      tokens of a project, and its validation; the project server
      ([src/server/project/project.go]) creates and deletes tokens, updates projects and
    creates existing ones anew ([CreateProject]);
    - [src/util/glob] matches the patterns of both, through a cache.

    The application controller ([src/controller/appcontroller.go]) drives the
    engine: [processRequestedAppOperation] starts, resumes, retries, terminates
    and completes the operation of an application, which clients request
    ([SetAppOperation], [src/util/cd/cd.go]) and terminate ([TerminateOperation],
    [src/server/application/application.go]); [autoSync] requests one itself when
    the policy of the application asks for it and the windows allow it.

    For each cluster the controller keeps a cluster cache ([cluster.go],
    [resource.go] and [references.go] of [src/gitops-engine/pkg/cache]): events and
    listings of the API server update resources, their inferred owners and two
    indexes, a synchronisation loads all of them anew without calling the handlers
    ([sync]), and [IterateHierarchyV2] walks from resources to what they own.  The live
    state cache ([src/controller/cache/cache.go]) gives it its handlers: it notes the
    application of a resource, finds the application of a change through the owners, and
    tells the controller ([handleObjectUpdated]), which queues a request to refresh with a
    level of comparison.  A worker takes the requests ([processAppRefreshQueueItem]):
    it decides whether to refresh ([needRefreshAppStatus]), compares, calls [autoSync],
    and stores conditions, finalizers and status.  An application that is being deleted
    gets passes of [finalizeApplicationDeletion] instead ([hook.go] and [sort_delete.go]
    beside it): hooks, then its resources wave by wave, then hooks again, each stage
    behind a finalizer.

    Several replicas of the controller share the clusters
    ([src/controller/sharding]): [sharding.go] has the distribution functions and
    the shard mapping that replicas lease their shard from, [consistent] the hash
    ring of one of the functions, [cache.go] the inventory each replica keeps.

    Users log in with a password or a token ([src/util/session],
    [src/server/session]): the session manager throttles failed logins, renews and
    checks tokens against accounts, projects and the revoked tokens that the
    replicas of the API server share.

    A resource carries the name of its application and installation in a label or
    an annotation ([src/util/cd/resource_tracking.go], [src/util/kube]), which the
    controllers read to tell their resources from others.

    Application sets make applications ([src/applicationset]).  Generators give sets of
    parameters: lists, the secrets of clusters, the decisions about clusters that other
    resources hold in their status ([duck_type.go]), and the combinations matrix and merge,
    which may be nested twice ([generators]); the template of the set is rendered with each
    ([controllers/template]).  A pass of the controller ([applicationset_controller.go])
    generates and validates the applications, creates, updates and deletes those of the
    cluster as the policy allows, and stores conditions and health; changed sets,
    applications and cluster secrets queue it ([clustereventhandler.go]).  A set may roll
    changes out in steps ([progressivesync]): a pass then updates the status of every
    application, promotes those whose step may start, and requests their syncs;
    deletion goes through the steps in reverse.

    Every request of a user is checked against policies ([src/util/rbac],
    [src/server/rbacpolicy]): texts of the server, of its administrator and of the project
    of the request, which the enforcer loads into the casbin library, keeps in a cache, and
    asks as the user, the groups of the user and the default role.

    Manifests are made by the repository server from a checked-out repository, whose
    directory its requests share through a lock ([src/reposerver/repository/lock.go]).
    Before objects are compared for a user, shown or logged, the controller and the API
    server replace the values of secrets ([HideSecretData] of
    [src/gitops-engine/pkg/diff/diff.go]).

    ** Files

    - [Prelude]: machine integers with wrap-around, boolean reflection
      ([breflect]), list lemmas, the state monad [ST], its loops, and the
      [keeps] rules that reduce a property of a handler to its primitives.
    - [GoStd]: what is used of Go's language and library: maps with an
      unspecified iteration order, [sort.Sort], goroutine scheduling (class
      [GoRuntime], with a reference instance), [strings], [strconv.Atoi].
    - [GoTime]: instants, durations, [time.ParseDuration].
    - [Glob]: pattern matching behind an LRU cache (interfaces [GlobLib], [LRU]).
    - [Windows]: sync windows (interfaces [Cron], [CronLaws], [Host]).
    - [AppTypes]: applications and clusters, as far as several parts read them.
    - [GoMatch]: [filepath.Match].
    - [Project]: destinations, namespaces, roles, groups and tokens.
    - [ProjectRules]: permitted kinds, [ValidateProject]; [ProjectTokens]:
      normalization of tokens, the handlers of the project server and their
      interleaving ([server_step]); [ProjectTokensProofs], [ProjectExamples].
    - [Consistent]: the hash ring (interface of the b-tree and the hash).
    - [Sharding], [ShardHash]: the distribution functions; [ShardCache]: the cache
      of the controller; [ShardMapping]: the leases of dynamic distribution.
    - [Session]: limits, failed logins, interleaved logins ([login_step]);
      [SessionTokens]: revoked tokens ([storage_step]) and [Parse] (the JWT
      library and the settings are the record [services]); [SessionProofs],
      [SessionTokensProofs], [SessionExamples].
    - [Rbac]: policies, their lines, the enforcer, claims (interface [Casbin], with what
      it documents in [CasbinLaws]); [RbacPolicies]: what a policy text says once it is
      loaded; [RbacProofs]: requests in any state ([rbac_run]), rights of a project,
      concrete configurations.
    - [Kube]: objects, keys, errors, API discovery.
    - [Calls]: programs that log their calls ([D]), and two calculi for them: what a
      program answers ([wp]), and what every call of it satisfies ([safe]).
    - [Tracking]: tracking labels and annotations; [TrackingProofs].
    - [ClusterCache]: the cluster cache, with resources in a store (interface
      [CacheLib]: the handler and what is read of objects); [ClusterCacheProofs]: its
      invariant and what it holds.  [Hierarchy]: the graph of a namespace and the
      walk; [HierarchyGraph], [HierarchyProofs]; [ClusterExamples].
    - [LiveState]: the handlers of the live state cache; [LiveStateProofs].
    - [AppRefresh]: requests, queues, the handler of changes, a turn of the worker,
      conditions; [AppRefreshProofs] (the steps of the queues are [step], a change from
      its event to the queue is [live_change_reaches_application]).
    - [AppDeletion]: a pass of the deletion, as a program of [Calls];
      [AppDeletionProofs]: the stages; [AppDeletionEnds]: progress.
    - [SyncCommon]: constants, annotations, hooks, waves, phases; [Module Helm]
      is the package [hook/helm].
    - [SyncTask]: the task record, its methods, [Less], [Sort], [adjustDeps].
    - [Health]: the statuses and every built-in health check.
    - [Reconcile]: [splitHooks], [dedupLiveResources], [Reconcile].
    - [SyncState]: the fields of [syncContext] (read-only: [settings]; mutable:
      [sc_state]), the calls to the cluster and the operations on one task.
    - [SyncRun]: [stateSync] and [runTasks].
    - [SyncTrace]: relations closed under the primitives ([RunClosed]), hence
      kept by every handler; instances for the calls made and for the results.
    - [SyncPlan]: [getSyncTasks]; reversal of prune waves.
    - [SyncOp]: [Sync], [Terminate], [GetState]; [SyncOpts]: options and
      constructor.
    - [SyncOpTrace]: closure of whole steps; sequences of steps ([op_step]).
    - [SyncOrder]: the plan has no duplicates and is sorted; prune last.
    - [SyncStep]: the decisions of a step.
    - [SyncExamples]: concrete runs and the behaviours found.
    - [Rollout]: steps, validation issues, which steps may sync; [RolloutStatus]:
      the state machine of statuses, promotion, triggered syncs, reverse deletion
      (interfaces [Dependencies], [IntStr] with their laws; the controller is the
      instance); [RolloutProofs], [RolloutExamples].
    - [AppSetSelector]: label selectors.  [AppSetTypes]: applications and sets as this
      controller reads them, generators at their three levels, normalization of
      specifications.  [AppSetGenerators]: [Transform], the generators (record
      [Generator], what is not read here is the class [AppSetLibs]), their nesting
      ([GetGenerators]), templates ([GenerateApplications]); results may be errors or panics
      ([res]).  [AppSetGeneratorsProofs]: the combinations; [AppSetRendering]: generation.
    - [AppSetConditions]: conditions, health and resources of a set.  [AppSetController]: a
      pass as a program of [Calls] (class [ControllerLibs]; the answers are [set_env]).
      [AppSetControllerProofs]: its calls, through [safe]; [AppSetOutcomes]: what one pass
      leaves for the next.  [AppSetEvents]: what queues a set.
      [AppSetExamples].
    - [AppOperation]: operations, retries and the merge patch that stores them;
      [AppOperationProofs].
    - [AutoSync]: automated sync (interface [Backoffs]); [AutoSyncProofs].
    - [RepoLock]: the lock of a checked-out repository; requests are threads, and what
      happens to a directory is a log that has to follow [spec_run].
    - [HideSecrets]: secrets as they are shown (classes [SecretValues], [SecretCodec]).

    ** How code is modelled

    A task is a mutable Go object shared by several slices: tasks live in a
    store indexed by location, and a slice is a list of locations.  Live
    objects carry an identity ([ptr]); editing one (removal of a finalizer)
    reaches every task and resource that points to it.  The API server,
    [kubectl] and the wave hook are an oracle ([Cluster.api]) that answers a
    request as any function of the whole history of calls, so theorems hold for
    every behaviour of the cluster over time; the calls made are the field
    [trace].  Iteration order of maps, the algorithm of [sort.Sort] and the
    order in which goroutines take effect are fields of [GoRuntime] with their
    documented laws; the body of a goroutine takes effect as a whole.  Waves
    are 64-bit integers and their arithmetic wraps.

    Resources of the cluster cache are mutable too (an inferred owner is added to a
    cached resource), so they are in a store and the maps hold locations.  The action
    of the hierarchy walk is a predicate, and the calls made to it are recorded.  A turn of
    the refresh worker is a function of the answers it meets ([refresh_env]); its result
    says what it compared, synced and stored.  A pass of the deletion, or over an application
    set, logs its calls, and the answer to a call is any function of the calls so far
    ([deletion_env], [set_env]).  The goroutines that work on the applications of a set run
    one after the other, as with the default limit of one.

    An application, an application set and the shard mapping are stored in the
    API server: a handler is a function from what is stored (and the times, errors
    and answers it meets, which are arguments) to what is stored afterwards, and
    several handlers interleave as the steps of a relation.  What other clients do
    during a handler is a function of its environment.

    ** What the theorems show

    - Order: [Sort] is correct ([Sort_correct]), plans are duplicate-free and
      sorted ([getSyncTasks_sorted]), prune waves are reversed
      ([prune_waves_reversed]) and prune-last tasks come last
      ([prune_last_is_last]).
    - Progress and outcome: only the smallest (phase, wave) is applied
      ([run_next_wave_discipline]); a step waits when it must
      ([sync_step_waits]); success is reported only when finished
      ([sync_continue_succeeded]); failure hooks ([executeSyncFailPhase_outcome]);
      the phase after a step ([Sync_phase]); termination leaves no hook running
      ([terminated_hooks_idle]).
    - Safety of calls: validation precedes changes ([Sync_invalid_readonly]),
      dry runs, pruning and termination ([Sync_calls], [runTasks_dry_readonly],
      [runTasks_targets], [Terminate_calls]).
    - Results over whole operations ([operation_results], [resume_roundtrip],
      [resourceResultKey_inj]).
    - Matching ([Reconcile_correct], [dedupLiveResources_correct]), annotations
      and phases ([annotation_values], [syncPhases_correct]), health
      ([deployment_healthy_iff] and others), concurrency of results
      ([Wait_order_independent]).
    - Sync windows: the decision of the controller implements a policy stated
      over the windows in the way ([syncWindowPreventsSync_correct]); when a
      window is open ([window_open_iff]); manual and automated syncs
      ([manual_sync_at_least_automatic]); edited windows never make the decision
      fail ([edited_windows_decide]).
    - Projects: destination rules ([IsDestinationPermitted_correct]), validation
      ([ValidateProject_correct]), tokens ([RemoveJWTToken_correct],
      [NormalizeJWTTokens_correct], [createToken_correct]), which stay deleted in
      every interleaving of requests ([deleted_token_stays_deleted]); the glob cache
      is invisible ([glob_cache_transparent]).
    - Operations: retries are bounded and completion is final
      ([operation_retries_bounded]), a failing operation ends after its retries
      ([failing_operation_ends]), retries keep their time ([retry_waits]) and
      terminated operations are not retried ([terminated_not_retried]).
    - Automated sync: what it may start ([auto_sync_guarded]), that it does not
      sync a failed revision again ([auto_sync_gives_up]) and does sync a new one
      ([auto_sync_new_revision]).
    - Sharding: the cache is up to date ([shards_up_to_date]), each cluster is
      managed once ([managed_exactly_once]), leases exclude each other
      ([lease_exclusive], [mapping_well_formed]) and are given
      ([every_controller_gets_a_shard]); loads are bounded
      ([consistent_hashing_bounded], [round_robin_balanced]), the ring is consistent
      ([Add_consistent]) and its search ends ([GetLeast_terminates]).
    - Progressive sync: the order of steps ([rollout_order]), the limit of a step
      ([max_update_respected]), progress ([rollout_progresses]), what a Healthy
      status means ([healthy_was_observed]), deletion ([reverse_deletion_order]),
      selection ([buildAppDependencyList_correct]).
    - Application sets: what a pass may call ([reconcile_calls_justified]); the matrix is a
      product ([matrix_is_product]) and the merge a left join ([merge_is_left_join]); panics
      of nested generators come from those that ask other servers and from unreadable
      decisions about clusters ([panics_have_a_cause]); each selected set of
      parameters gives one application ([GenerateApplications_complete]), which stays in its
      namespace and project ([generated_applications_confined]); a pass leaves nothing for
      the next ([CreateOrUpdate_settles]) and serves every application
      ([every_application_served]); conditions and health agree ([conditions_consistent]);
      a set that depends on the secrets of clusters is queued when they change, unless it
      takes decisions from other resources ([unqueued_set_ignores_clusters]); selectors mean what they say
      ([LabelSelectorAsSelector_correct]).
    - Sessions: failed logins in a window are bounded in every interleaving
      ([brute_force_bounded]), accepted tokens are valid ([Parse_accepts]), revoked
      tokens stay revoked ([revocation_sticks]), deleted ones are rejected
      ([deleted_project_token_rejected]).
    - Access control: the cache of the enforcer is invisible and a request is granted as
      the policies in force say ([Enforce_correct]); a project's policy gives rights to those
      who hold its roles only ([project_rights_confined]) and is read back as the project
      states it ([project_policies_loaded]).
    - Shared directories: the uses of a directory exclude each other
      ([uses_are_exclusive]) and calls return ([every_call_returns]), unless requests hold
      one directory and wait for another ([references_deadlock]).
    - Secrets: what is shown tells nothing about values but which of them agree
      ([secrets_not_seen]), and shows that ([values_hidden]).
    - Cluster cache: its indexes agree with the resources and its handlers hear of
      all that changes between synchronisations ([cache_indexes_agree]), it refines the map that the events spell
      out ([cache_follows_events]), a listing replaces its API
      ([listing_replaces_the_api]).  The hierarchy walk ends ([IterateHierarchyV2_ends])
      and misses nothing that it can reach ([IterateHierarchyV2_misses_nothing]); the graph
      does not depend on the order of maps ([buildGraph_same_every_refresh]).
    - Refresh: the application of a resource is found ([getApp_finds_owner]), exactly
      the applications concerned hear of a change ([on_resource_updated_correct]), and the
      change reaches the queue ([live_change_reaches_application]); no request is lost or
      weakened ([requests_are_served]); a turn does what its level allows
      ([refresh_does_what_the_level_allows]), after which nothing is left to do
      ([refresh_settles]), conditions included ([SetConditions_settles]).
    - Deletion: a pass follows the stages and deletes only what it should
      ([deletion_follows_stages]), the passes end ([deletion_ends]), an unknown destination
      does not hold the application back ([unknown_destination_releases]).
    - Resource tracking: ids are read as written ([tracking_id_roundtrip]), the
      metadata of one installation is not seen by another ([SetAppInstance_owned]),
      cut labels are short enough ([TruncateLabel_ok]).
    - Found behaviours: [dry_run_deletes_hook], [Less_overflow_cycle],
      [namespace_hook_not_seen], [suspended_job_message_lost],
      [never_firing_window_open], [name_deny_ignores_namespace],
      [slash_namespace_panics], [update_app_leaves_shards_stale],
      [point_names_collide], [default_mapping_panics],
      [unselected_app_holds_back], [revision_not_recorded],
      [failing_sync_clobbers_terminate], [announced_retry_is_early],
      [results_stay_stored], [operation_without_sync_is_stored],
      [deleted_token_of_the_same_second], [cache_of_one_never_counts],
      [cache_of_two_draws_for_ever], [many_replicas_no_limit],
      [slow_revocation_is_lost], [token_with_bar_is_forgotten],
      [custom_label_stays], [validation_is_not_stable], [unanchored_action],
      [long_lifetime_wraps], [time_as_id_collides], [claim_of_another_set],
      [endpoints_missed_across_namespaces], [refused_root_still_descends],
      [circle_hides_owner], [orphan_compared], [second_condition_restless],
      [metadata_due_again], [grace_shared], [cleanup_leaves_hook],
      [foreign_hook_counts_as_run], [different_keys_do_not_merge], [empty_element],
      [finalizers_grow], [create_only_patches], [stale_list_deletes],
      [group_undoes_denial], [default_denial_not_final], [unreadable_policy_panics],
      [unreadable_scopes], [failed_checkout_is_not_cleaned],
      [unreadable_configuration_shown], [desired_configuration_shown], [undecided_panics],
      [own_values_panic], [decisions_not_queued], [upsert_brings_back],
      [synchronisation_is_silent].

    ** Bounds and fuel

    Retries ([Cluster.retries]) and polls ([Cluster.crd_polls]) are arbitrary
    numbers; every definition is total and the theorems quantify over them.
    The loop of [ParseDuration] has the length of its text as fuel, which is
    enough ([duration_loop_fuel]).  Theorems about the order assume waves within
    61 bits, so that differences and the extra prune-last wave do not overflow;
    [Less_overflow_cycle] shows why a bound is needed.  The sync-window theorems
    about a whole decision assume that the readings of the clock in it do not
    straddle an instant at which a window opens or closes ([steady]).  The search
    of the hash ring has the number of points as fuel, one turn, which is enough
    ([GetLeast_terminates]).  The hierarchy walk has one more than the number of cached
    resources as fuel: each level of its recursion marks a resource it had not marked
    ([IterateHierarchyV2_ends]); the search for an application has two more than those of
    the namespace, as a branch visits each at most once ([getApp_total]).  Three
    computations in double precision are
    modelled by integers: the bound of a load, exact below 2^51, the wait before a
    retry, exact below 2^53 nanoseconds, and the end of a failure window, exact for
    windows below 2^22 seconds.  [brute_force_bounded] assumes a cache of at least
    two entries and a counter that does not overflow; [cache_of_one_never_counts]
    shows what happens without.  A line of a policy is read with its length as fuel: each
    field takes its comma.

    ** Not modelled

    Logging, tracing and metrics.  The conversion of manifests into typed API structs, JSON
    decoding, structured-merge and strategic patches, template engines and the replacement
    of texts by reflection: libraries, which are parameters.  Of the cluster cache, its
    watches, permissions and pages, whose code is requests and goroutines around the
    handlers modelled here (a synchronisation is given what it listed); the settings of the live state cache.  Of a refresh, the
    comparison itself, which asks the repository server and the diffing library, the
    resource tree and the patch of the status.  Of application sets, the generators that
    ask repositories, providers and plugins (one may panic, and its answers are given), and
    their webhooks.  Diffing
    (but for secrets) and the kubectl wrapper, which call libraries of Kubernetes; the
    repository server (but for its lock), the hydrator and the commit server, which run git and tools that make manifests; the
    rest of the API server, the command line, notifications and generated clients.  Of access
    control, the casbin library, the informer of the config map and the words of a refusal. *)

From stdpp Require Export base tactics option sorting gmap strings pretty numbers list.

(** ** Machine integers

    Go's [int] is 64 bits wide on every platform the program is built for;
    arithmetic wraps around. *)

Definition wrap64 (z : Z) : Z := ((z + 2 ^ 63) mod 2 ^ 64 - 2 ^ 63)%Z.
Definition int_min : Z := (- 2 ^ 63)%Z.
Definition int_max : Z := (2 ^ 63 - 1)%Z.
Definition in_int64 (z : Z) : Prop := (int_min ≤ z ≤ int_max)%Z.

#[export] Instance in_int64_dec z : Decision (in_int64 z).
Proof. unfold in_int64. apply _. Defined.

(** [int32], the width of replica counts in the Kubernetes API *)
Definition wrap32 (z : Z) : Z := ((z + 2 ^ 31) mod 2 ^ 32 - 2 ^ 31)%Z.

Declare Scope go_scope.
Delimit Scope go_scope with go.
Notation "a -! b" := (wrap64 (a - b)) (at level 50, left associativity) : go_scope.
Notation "a +! b" := (wrap64 (a + b)) (at level 50, left associativity) : go_scope.

Lemma wrap64_id z : in_int64 z → wrap64 z = z.
Proof.
  unfold in_int64, wrap64, int_min, int_max. intros [??].
  rewrite Z.mod_small; lia.
Qed.

Lemma wrap64_range z : in_int64 (wrap64 z).
Proof.
  unfold in_int64, wrap64, int_min, int_max.
  pose proof (Z.mod_pos_bound (z + 2 ^ 63) (2 ^ 64) ltac:(lia)). lia.
Qed.

(** ** Boolean reflection *)

Create Rewrite HintDb go_bool.
#[export] Hint Rewrite andb_true_iff orb_true_iff andb_false_iff orb_false_iff
  negb_true_iff negb_false_iff Z.ltb_lt Z.ltb_ge Z.eqb_eq Z.eqb_neq
  Z.leb_le Z.leb_gt Nat.eqb_eq Nat.eqb_neq Nat.ltb_lt Nat.ltb_ge
  bool_decide_eq_true bool_decide_eq_false : go_bool.

(** Turns boolean tests of the code into the propositions they decide. *)
Ltac breflect := autorewrite with go_bool in *.

(** Case analysis on the scrutinee of the first [match] or [if] found. *)
Ltac case_head :=
  match goal with
  | |- context [match ?x with _ => _ end] => destruct x eqn:?
  | H : context [match ?x with _ => _ end] |- _ => destruct x eqn:?
  end.

(** Membership in explicit lists. *)
Ltac elem_list := rewrite ?elem_of_app, ?elem_of_cons; naive_solver.

(** ** Lists *)

(** Moving an element to position [i] of [l], as in-place shifting does. *)
Lemma lookup_insert_at {A} (l : list A) i x j :
  i ≤ length l →
  (take i l ++ x :: drop i l) !! j =
    if decide (j < i) then l !! j else if decide (j = i) then Some x else l !! (j - 1).
Proof.
  intros Hi. repeat case_decide.
  - rewrite lookup_app_l by (rewrite length_take; lia). by rewrite lookup_take_lt.
  - subst. rewrite lookup_app_r by (rewrite length_take; lia).
    rewrite length_take. replace (i - i `min` length l) with 0 by lia. done.
  - rewrite lookup_app_r by (rewrite length_take; lia). rewrite length_take.
    replace (j - i `min` length l) with (S (j - i - 1)) by lia. simpl.
    rewrite lookup_drop. f_equal. lia.
Qed.

Lemma StronglySorted_dup {A} (R : relation A) `{!Reflexive R} l1 x l2 :
  StronglySorted R (l1 ++ x :: l2) → StronglySorted R (l1 ++ x :: x :: l2).
Proof.
  rewrite !StronglySorted_app. intros (H1&H2&H3). apply StronglySorted_inv in H3 as [H3 H4].
  split_and!; [|done|by repeat constructor].
  intros a b Ha Hb. apply H1; [done|]. revert Hb. rewrite !elem_of_cons. tauto.
Qed.

Lemma StronglySorted_remove {A} (R : relation A) l1 x l2 :
  StronglySorted R (l1 ++ x :: l2) → StronglySorted R (l1 ++ l2).
Proof.
  rewrite !StronglySorted_app. intros (H1&H2&H3). apply StronglySorted_inv in H3 as [H3 _].
  split_and!; [|done|done]. intros a b Ha Hb. apply H1; [done|by right].
Qed.

Lemma StronglySorted_lookup_lt {A} (R : relation A) l i j x y :
  StronglySorted R l → l !! i = Some x → l !! j = Some y → i < j → R x y.
Proof.
  intros Hs. revert i j. induction Hs as [|z l Hs IH Hz]; intros [|i] [|j] Hi Hj Hij; simplify_eq/=; try lia.
  - rewrite Forall_forall in Hz. by eapply Hz, list_elem_of_lookup_2.
  - eapply IH; [done..|lia].
Qed.

(** A stricter test that rejects some element [x] keeps fewer elements. *)
Lemma filter_length_lt {A} (f g : A → bool) (l : list A) x :
  (∀ y, f y = true → g y = true) → x ∈ l → g x = true → f x = false →
  length (List.filter f l) < length (List.filter g l).
Proof.
  intros Hfg Hx Hg Hf. assert (∀ k, length (List.filter f k) ≤ length (List.filter g k)) as Hle.
  { induction k as [|y k IH]; simpl; [done|]. destruct (f y) eqn:E; [rewrite (Hfg _ E); simpl; lia|].
    destruct (g y); simpl; lia. }
  induction l as [|y l IH]; [by apply elem_of_nil in Hx|]. simpl.
  apply elem_of_cons in Hx as [->|Hx].
  - rewrite Hf, Hg. simpl. specialize (Hle l). lia.
  - specialize (IH Hx). destruct (f y) eqn:E; [rewrite (Hfg _ E); simpl; lia|].
    destruct (g y); simpl; lia.
Qed.

Lemma find_ext {A} (f g : A → bool) l : (∀ x, f x = g x) → List.find f l = List.find g l.
Proof. intros H. induction l as [|a l IH]; simpl; [done|]. by rewrite H, IH. Qed.

(** [a] occurs before [b]. *)
Definition precedes {A} (a b : A) (l : list A) : Prop := [a; b] `sublist_of` l.

Lemma precedes_lookup {A} (a b : A) l :
  precedes a b l ↔ ∃ i j : nat, i < j ∧ l !! i = Some a ∧ l !! j = Some b.
Proof.
  unfold precedes. rewrite sublist_cons_l. split.
  - intros (k1&k2&->&[j Hj]%singleton_sublist_l%list_elem_of_lookup_1).
    exists (length k1), (length k1 + S j). split_and!; [lia| |].
    + by rewrite list_lookup_middle.
    + rewrite lookup_app_r by lia. by replace (length k1 + S j - length k1) with (S j) by lia.
  - intros (i&j&Hij&Hi&Hj). exists (take i l), (drop (S i) l). split; [by rewrite take_drop_middle|].
    apply singleton_sublist_l, list_elem_of_lookup. exists (j - S i).
    rewrite lookup_drop. by replace (S i + (j - S i)) with j by lia.
Qed.

Lemma filter_all {A} (P : A → Prop) `{!∀ x, Decision (P x)} l : Forall P l → filter P l = l.
Proof. induction 1 as [|x l Hx _ IH]; [done|]. by rewrite filter_cons_True, IH. Qed.

Lemma filter_none {A} (P : A → Prop) `{!∀ x, Decision (P x)} l : Forall (λ x, ¬ P x) l → filter P l = [].
Proof. induction 1 as [|x l Hx _ IH]; [done|]. by rewrite filter_cons_False. Qed.

Lemma NoDup_fmap_eq {A B} (f : A → B) l x y : NoDup (f <$> l) → x ∈ l → y ∈ l → f x = f y → x = y.
Proof.
  intros Hnd [i Hi]%list_elem_of_lookup [j Hj]%list_elem_of_lookup Heq. assert (i = j) as <-; [|congruence].
  eapply NoDup_lookup; [exact Hnd|rewrite list_lookup_fmap, Hi; done|]. by rewrite list_lookup_fmap, Hj, Heq.
Qed.

Lemma sublist_filter_mono {A} (P : A → Prop) `{!∀ x, Decision (P x)} (l k : list A) :
  l `sublist_of` k → filter P l `sublist_of` filter P k.
Proof.
  induction 1 as [|x l k Hlk IH|x l k Hlk IH]; [done|..]; rewrite ?filter_cons.
  - case_decide; [by apply sublist_skip|done].
  - case_decide; [by apply sublist_cons|done].
Qed.

Lemma precedes_filter {A} (P : A → Prop) `{!∀ x, Decision (P x)} a b (l : list A) :
  P a → P b → precedes a b (filter P l) ↔ precedes a b l.
Proof.
  intros Ha Hb. unfold precedes. split; intros Hs.
  - etransitivity; [exact Hs|apply sublist_filter].
  - apply (sublist_filter_mono P) in Hs. rewrite !filter_cons in Hs.
    by rewrite !decide_True, filter_nil in Hs.
Qed.

(** ** A state monad

    Stateful code is translated to functions [S → A * S]; [x ← m; k] is
    stdpp's notation for sequencing. *)

Definition ST (S A : Type) : Type := S → A * S.

#[export] Instance st_ret {S} : MRet (ST S) := λ A a s, (a, s).
#[export] Instance st_bind {S} : MBind (ST S) :=
  λ A B f m s, let '(a, s') := m s in f a s'.

Definition st_get {S} : ST S S := λ s, (s, s).
Definition st_put {S} (s' : S) : ST S unit := λ _, (tt, s').
Definition st_modify {S} (f : S → S) : ST S unit := λ s, (tt, f s).

Lemma st_bind_eval {S A B} (m : ST S A) (f : A → ST S B) s : (m ≫= f) s = f (m s).1 (m s).2.
Proof. unfold mbind, st_bind. by destruct (m s). Qed.

(** A [for _, x := range l] loop whose body has no early exit. *)
Fixpoint st_for {S A} (l : list A) (body : A → ST S unit) : ST S unit :=
  match l with
  | [] => mret tt
  | x :: r => body x ;; st_for r body
  end.

(** Runs the body on every element and collects the results in order. *)
Fixpoint st_map {S A B} (l : list A) (body : A → ST S B) : ST S (list B) :=
  match l with
  | [] => mret []
  | x :: r => y ← body x; ys ← st_map r body; mret (y :: ys)
  end.

(** A loop that carries an accumulator. *)
Fixpoint st_fold {S A B} (l : list A) (acc : B) (body : B → A → ST S B) : ST S B :=
  match l with
  | [] => mret acc
  | x :: r => acc' ← body acc x; st_fold r acc' body
  end.

(** ** Reasoning about programs of the monad

    [keeps R m]: every run of [m] relates its initial and final states by [R].
    For a preorder [R] the rules below follow the syntax of programs, so a
    property of a whole handler reduces to the primitive operations it uses. *)

Section keeps.
Context {S : Type}.

Definition keeps {A} (R : relation S) (m : ST S A) : Prop := ∀ s, R s (m s).2.

(** Weakest-precondition style triple over the result and final state. *)
Definition triple {A} (P : S → Prop) (m : ST S A) (Q : A → S → Prop) : Prop :=
  ∀ s, P s → Q (m s).1 (m s).2.

Context (R : relation S) `{!PreOrder R}.

Lemma keeps_ret {A} (a : A) : keeps R (mret a).
Proof. intros s. reflexivity. Qed.

Lemma keeps_get : keeps R st_get.
Proof. intros s. reflexivity. Qed.

Lemma keeps_bind {A B} (m : ST S A) (f : A → ST S B) :
  keeps R m → (∀ a, keeps R (f a)) → keeps R (m ≫= f).
Proof.
  intros Hm Hf s. unfold mbind, st_bind. specialize (Hm s).
  destruct (m s) as [a s']; simpl in *. transitivity s'; [done|apply Hf].
Qed.

Lemma keeps_for {A} (l : list A) (body : A → ST S unit) :
  (∀ x, x ∈ l → keeps R (body x)) → keeps R (st_for l body).
Proof.
  induction l as [|x l IH]; intros Hb; simpl; [apply keeps_ret|].
  apply keeps_bind; [apply Hb; set_solver|]. intros _. apply IH. set_solver.
Qed.

Lemma keeps_map {A B} (l : list A) (body : A → ST S B) :
  (∀ x, x ∈ l → keeps R (body x)) → keeps R (st_map l body).
Proof.
  induction l as [|x l IH]; intros Hb; simpl; [apply keeps_ret|].
  apply keeps_bind; [apply Hb; set_solver|]. intros y.
  apply keeps_bind; [apply IH; set_solver|]. intros ys. apply keeps_ret.
Qed.

Lemma keeps_fold {A B} (l : list A) (acc : B) (body : B → A → ST S B) :
  (∀ a x, x ∈ l → keeps R (body a x)) → keeps R (st_fold l acc body).
Proof.
  revert acc; induction l as [|x l IH]; intros acc Hb; simpl; [apply keeps_ret|].
  apply keeps_bind; [apply Hb; set_solver|]. intros a. apply IH. set_solver.
Qed.

Lemma keeps_if {A} (b : bool) (m1 m2 : ST S A) :
  (b = true → keeps R m1) → (b = false → keeps R m2) → keeps R (if b then m1 else m2).
Proof. destruct b; auto. Qed.
End keeps.

Create HintDb keeps.
#[export] Hint Resolve keeps_ret keeps_get : keeps.

(** Walks through a program: sequencing, branching, loops, then the
    operations registered in the [keeps] database. *)
Ltac keeps_step :=
  match goal with
  | |- keeps _ (_ ≫= _) => apply keeps_bind; [apply _| |intros ?]
  | |- keeps _ (st_for _ _) => apply keeps_for; [apply _|intros ? ?]
  | |- keeps _ (st_map _ _) => apply keeps_map; [apply _|intros ? ?]
  | |- keeps _ (st_fold _ _ _) => apply keeps_fold; [apply _|intros ? ? ?]
  | |- keeps _ (mret _) => apply keeps_ret; apply _
  | |- keeps _ st_get => apply keeps_get; apply _
  | |- keeps _ (match ?x with _ => _ end) => destruct x eqn:?
  | |- keeps _ (let _ := _ in _) => cbv zeta
  end.
Ltac keeps_go := repeat (first [progress (eauto with keeps) | keeps_step]).
