(* ===== verification/GoStd.v ===== *)
(** * The parts of the Go language and standard library the program uses

    Strings are byte strings ([String.string], one [ascii] per byte).  The file
    defines the functions of [strings], [strconv] and [sort] the modelled code
    calls, and the class [GoRuntime] of the choices Go leaves to the runtime:
    the order of a [range] over a map, the result of the unstable [sort.Sort]
    and the order in which goroutines of one group run. *)

From S2P Require Import Prelude.
From Stdlib Require Import Ascii.

(** ** Ordering by a boolean [Less] *)

(** [Less] behaves as a strict weak order on the elements of [l]: what
    [sort.Interface] requires of its [Less] method. *)
Record strict_weak_on {A} (less : A → A → bool) (l : list A) : Prop := {
  sw_irrefl : ∀ a, a ∈ l → less a a = false;
  sw_asym : ∀ a b, a ∈ l → b ∈ l → less a b = true → less b a = false;
  sw_cotrans : ∀ a b c, a ∈ l → b ∈ l → c ∈ l →
    less a c = true → less a b = true ∨ less b c = true;
}.

(** A list in which no element is [less] than one before it. *)
Definition sorted_by {A} (less : A → A → bool) (l : list A) : Prop :=
  StronglySorted (λ a b, less b a = false) l.

Lemma strict_weak_perm {A} (less : A → A → bool) l l' :
  l ≡ₚ l' → strict_weak_on less l → strict_weak_on less l'.
Proof.
  intros Hp [H1 H2 H3]. split.
  - intros a Ha. apply H1. by rewrite Hp.
  - intros a b Ha Hb. apply H2; by rewrite Hp.
  - intros a b c Ha Hb Hc. apply H3; by rewrite Hp.
Qed.

Lemma strict_weak_sublist {A} (less : A → A → bool) l l' :
  l' ⊆ l → strict_weak_on less l → strict_weak_on less l'.
Proof. intros Hs [H1 H2 H3]; split; intros; [apply H1|apply H2|eapply H3]; auto. Qed.

(** ** The runtime *)

Class GoRuntime : Type := {
  (** [for k, v := range m]: each entry once, in some order. *)
  go_range {K V} `{Countable K} : gmap K V → list (K * V);
  go_range_perm {K V} `{Countable K} (m : gmap K V) : go_range m ≡ₚ map_to_list m;
  (** [sort.Sort]: not stable; sorted when [less] is a strict weak order. *)
  go_sort {A} : (A → A → bool) → list A → list A;
  go_sort_perm {A} (less : A → A → bool) l : go_sort less l ≡ₚ l;
  go_sort_sorted {A} (less : A → A → bool) l :
    strict_weak_on less l → sorted_by less (go_sort less l);
  (** Goroutines started by one loop, in the order they take effect. *)
  go_sched {A} : list A → list A;
  go_sched_perm {A} (l : list A) : go_sched l ≡ₚ l;
}.

(** *** A reference runtime

    Insertion sort, which is what [sort.Sort] runs on slices of at most twelve
    elements; maps in the order of their canonical listing; goroutines in the
    order they are started. *)

(** One pass of the insertion loop: [rl] is the sorted prefix, reversed. *)
Fixpoint ins_rev {A} (less : A → A → bool) (x : A) (rl : list A) : list A :=
  match rl with
  | [] => [x]
  | y :: r => if less x y then y :: ins_rev less x r else x :: y :: r
  end.

Definition insertion_sort {A} (less : A → A → bool) (l : list A) : list A :=
  reverse (foldl (λ rl x, ins_rev less x rl) [] l).

Lemma ins_rev_perm {A} (less : A → A → bool) x rl : ins_rev less x rl ≡ₚ x :: rl.
Proof.
  induction rl as [|y r IH]; simpl; [done|]. case_match; [|done].
  rewrite IH. apply Permutation_swap.
Qed.

Lemma foldl_ins_perm {A} (less : A → A → bool) l rl :
  foldl (λ rl x, ins_rev less x rl) rl l ≡ₚ l ++ rl.
Proof.
  revert rl; induction l as [|x l IH]; intros rl; simpl; [done|].
  rewrite IH, ins_rev_perm. by rewrite Permutation_middle.
Qed.

Lemma insertion_sort_perm {A} (less : A → A → bool) l : insertion_sort less l ≡ₚ l.
Proof. unfold insertion_sort. rewrite reverse_Permutation, foldl_ins_perm. by rewrite app_nil_r. Qed.

(** Reversed prefixes are sorted downwards. *)
Definition sorted_down {A} (less : A → A → bool) (l : list A) : Prop :=
  StronglySorted (λ a b, less a b = false) l.

Lemma ins_rev_sorted {A} (less : A → A → bool) x rl :
  strict_weak_on less (x :: rl) → sorted_down less rl → sorted_down less (ins_rev less x rl).
Proof.
  unfold sorted_down. induction rl as [|y r IH]; intros Hsw Hs; simpl.
  - repeat constructor.
  - apply StronglySorted_inv in Hs as [Hr Hy]. destruct (less x y) eqn:E.
    + constructor.
      * apply IH; [|done]. eapply strict_weak_sublist; [|done]. intros z. elem_list.
      * rewrite ins_rev_perm. constructor; [|done].
        eapply sw_asym; [done|elem_list..|done].
    + constructor; [by constructor|]. constructor; [done|].
      rewrite Forall_forall in Hy |- *. intros z Hz. specialize (Hy z Hz).
      destruct (less x z) eqn:E2; [|done].
      assert (less x y = true ∨ less y z = true) as [?|?]; [|congruence..].
      eapply sw_cotrans; [exact Hsw|elem_list..|done].
Qed.

Lemma foldl_ins_sorted {A} (less : A → A → bool) l rl :
  strict_weak_on less (l ++ rl) → sorted_down less rl →
  sorted_down less (foldl (λ rl x, ins_rev less x rl) rl l).
Proof.
  revert rl; induction l as [|x l IH]; intros rl Hsw Hs; simpl; [done|].
  apply IH.
  - eapply strict_weak_perm; [|exact Hsw]. simpl. rewrite ins_rev_perm.
    apply Permutation_middle.
  - apply ins_rev_sorted; [|done]. eapply strict_weak_sublist; [|exact Hsw]. intros z. elem_list.
Qed.

Lemma StronglySorted_reverse {A} (P : relation A) l :
  StronglySorted P l → StronglySorted (λ a b, P b a) (reverse l).
Proof.
  induction 1 as [|x l Hl IH Hx]; [constructor|].
  rewrite reverse_cons. apply StronglySorted_app_2; [|done|repeat constructor].
  intros a b Ha Hb. rewrite elem_of_reverse in Ha.
  apply list_elem_of_singleton in Hb as ->. rewrite Forall_forall in Hx. by apply Hx.
Qed.

Lemma insertion_sort_sorted {A} (less : A → A → bool) l :
  strict_weak_on less l → sorted_by less (insertion_sort less l).
Proof.
  intros Hsw. unfold sorted_by, insertion_sort.
  apply (StronglySorted_reverse (λ a b, less a b = false)).
  apply foldl_ins_sorted; [by rewrite app_nil_r|constructor].
Qed.

Definition reference_runtime : GoRuntime := {|
  go_range := λ K V _ _ m, map_to_list m;
  go_range_perm := λ K V _ _ m, reflexivity _;
  go_sort := @insertion_sort;
  go_sort_perm := @insertion_sort_perm;
  go_sort_sorted := @insertion_sort_sorted;
  go_sched := λ A l, l;
  go_sched_perm := λ A l, reflexivity _;
|}.

(** ** Iterating over a map *)

Lemma elem_of_go_range `{GoRuntime} {K V} `{Countable K} (m : gmap K V) k v :
  (k, v) ∈ go_range m ↔ m !! k = Some v.
Proof. rewrite go_range_perm. apply elem_of_map_to_list. Qed.

Lemma go_range_NoDup_fst `{GoRuntime} {K V} `{Countable K} (m : gmap K V) :
  NoDup (go_range m).*1.
Proof. rewrite go_range_perm. apply NoDup_fst_map_to_list. Qed.

Lemma length_go_range `{GoRuntime} {K V} `{Countable K} (m : gmap K V) :
  length (go_range m) = size m.
Proof. rewrite go_range_perm. apply length_map_to_list. Qed.

(** The order [<] of Go strings: bytewise lexicographic. *)
Fixpoint string_lt (a b : string) : bool :=
  match a, b with
  | _, EmptyString => false
  | EmptyString, String _ _ => true
  | String x a', String y b' =>
      if Nat.ltb (nat_of_ascii x) (nat_of_ascii y) then true
      else if Nat.ltb (nat_of_ascii y) (nat_of_ascii x) then false
      else string_lt a' b'
  end.

Lemma string_lt_irrefl a : string_lt a a = false.
Proof. induction a; simpl; [done|]. by rewrite !Nat.ltb_irrefl. Qed.

Lemma string_lt_asym a b : string_lt a b = true → string_lt b a = false.
Proof.
  revert b; induction a as [|x a IH]; intros [|y b]; simpl; [done..|].
  destruct (Nat.ltb_spec (nat_of_ascii x) (nat_of_ascii y)),
    (Nat.ltb_spec (nat_of_ascii y) (nat_of_ascii x)); auto; lia.
Qed.

Lemma string_lt_cotrans a b c :
  string_lt a c = true → string_lt a b = true ∨ string_lt b c = true.
Proof.
  revert b c; induction a as [|x a IH]; intros [|y b] [|z c]; simpl; auto.
  destruct (Nat.ltb_spec (nat_of_ascii x) (nat_of_ascii z)),
    (Nat.ltb_spec (nat_of_ascii z) (nat_of_ascii x)),
    (Nat.ltb_spec (nat_of_ascii x) (nat_of_ascii y)),
    (Nat.ltb_spec (nat_of_ascii y) (nat_of_ascii x)),
    (Nat.ltb_spec (nat_of_ascii y) (nat_of_ascii z)),
    (Nat.ltb_spec (nat_of_ascii z) (nat_of_ascii y)); auto; try lia.
Qed.

(** [sort.Ints] and [sort.Strings]: the order is total, so the result does not
    depend on the algorithm. *)
Definition sort_Ints : list Z → list Z := insertion_sort Z.ltb.
Definition sort_Strings : list string → list string := insertion_sort string_lt.

Lemma sort_Ints_perm l : sort_Ints l ≡ₚ l.
Proof. apply insertion_sort_perm. Qed.

Lemma sort_Ints_sorted l : StronglySorted Z.le (sort_Ints l).
Proof.
  assert (sorted_by Z.ltb (sort_Ints l)) as Hs.
  { apply insertion_sort_sorted. split; intros; breflect; lia. }
  unfold sorted_by in Hs. induction Hs as [|x l' Hl IH Hx]; constructor; [done|].
  eapply Forall_impl; [done|]. intros y; simpl. intros. breflect. lia.
Qed.

(** ** Package [strings] *)

Local Open Scope string_scope.
Local Open Scope list_scope.

Fixpoint string_rev_app (s acc : string) : string :=
  match s with "" => acc | String c r => string_rev_app r (String c acc) end.

Definition string_rev (s : string) : string := string_rev_app s "".

(** [strings.CutPrefix]: the rest of [s] after [pre]. *)
Fixpoint CutPrefix (pre s : string) : option string :=
  match pre, s with
  | "", _ => Some s
  | String a p, String b r => if Ascii.eqb a b then CutPrefix p r else None
  | String _ _, "" => None
  end.

Definition HasPrefix (s pre : string) : bool :=
  if CutPrefix pre s is Some _ then true else false.

Definition HasSuffix (s suf : string) : bool := HasPrefix (string_rev s) (string_rev suf).

(** [strings.Split] with a one-byte separator: the empty string splits into
    one empty field. *)
Fixpoint Split_aux (sep : ascii) (s cur : string) : list string :=
  match s with
  | "" => [string_rev cur]
  | String c r =>
      if Ascii.eqb c sep then string_rev cur :: Split_aux sep r ""
      else Split_aux sep r (String c cur)
  end.

Definition Split (s : string) (sep : ascii) : list string := Split_aux sep s "".

(** [strings.Join] *)
Fixpoint Join (l : list string) (sep : string) : string :=
  match l with
  | [] => ""
  | [x] => x
  | x :: r => x +:+ sep +:+ Join r sep
  end.

(** The UTF-8 encodings of the code points [unicode.IsSpace] accepts. *)
Definition byte (n : nat) : ascii := Ascii.ascii_of_nat n.

Definition bytes (l : list nat) : string := foldr (λ n s, String (byte n) s) "" l.

Definition space_encodings : list string :=
  bytes <$>
    ([[9]; [10]; [11]; [12]; [13]; [32]; [194; 133]; [194; 160]; [225; 154; 128]] ++
     ((λ n, [226; 128; 128 + n]) <$> seq 0 11) ++
     [[226; 128; 168]; [226; 128; 169]; [226; 128; 175]; [226; 129; 159]; [227; 128; 128]]).

(** The rest of [s] after one of [encs], if it starts with one. *)
Fixpoint cut_any (encs : list string) (s : string) : option string :=
  match encs with
  | [] => None
  | e :: r => match CutPrefix e s with Some t => Some t | None => cut_any r s end
  end.

(** Drops leading spaces; [fuel] bounds the number of dropped code points by
    the length of the string. *)
Fixpoint trim_left_fuel (fuel : nat) (encs : list string) (s : string) : string :=
  match fuel with
  | O => s
  | S f => match cut_any encs s with Some t => trim_left_fuel f encs t | None => s end
  end.

Definition trim_left (encs : list string) (s : string) : string :=
  trim_left_fuel (String.length s) encs s.

(** [strings.TrimSpace] *)
Definition TrimSpace (s : string) : string :=
  string_rev (trim_left (string_rev <$> space_encodings) (string_rev (trim_left space_encodings s))).

(** ASCII case mapping: [strings.ToLower] on ASCII text. *)
Definition ascii_lower (c : ascii) : ascii :=
  let n := Ascii.nat_of_ascii c in
  if Nat.leb 65 n && Nat.leb n 90 then byte (n + 32) else c.

Fixpoint ToLower (s : string) : string :=
  match s with "" => "" | String c r => String (ascii_lower c) (ToLower r) end.

(** [strings.EqualFold] on ASCII text *)
Definition EqualFold (a b : string) : bool := String.eqb (ToLower a) (ToLower b).

(** ** Package [strconv] *)

Definition digit_val (c : ascii) : option Z :=
  let n := Ascii.nat_of_ascii c in
  if Nat.leb 48 n && Nat.leb n 57 then Some (Z.of_nat (n - 48)) else None.

Fixpoint parse_digits (acc : Z) (s : string) : option Z :=
  match s with
  | "" => Some acc
  | String c r => d ← digit_val c; parse_digits (10 * acc + d)%Z r
  end.

(** The sign and the digits of a number's text *)
Definition split_sign (s : string) : bool * string :=
  match s with
  | String c r =>
      if Ascii.eqb c "-" then (true, r)
      else if Ascii.eqb c "+" then (false, r) else (false, s)
  | "" => (false, s)
  end.

(** [strconv.Atoi]: an optional sign and at least one decimal digit, the value
    in the range of [int]; [None] stands for the error. *)
Definition Atoi (s : string) : option Z :=
  let '(neg, ds) := split_sign s in
  match ds with
  | "" => None
  | _ =>
      v ← parse_digits 0 ds;
      let v := if neg : bool then (- v)%Z else v in
      if bool_decide (in_int64 v) then Some v else None
  end.

(** [%q] of a string without characters that need escaping *)
Definition quote (s : string) : string := bytes [34] +:+ s +:+ bytes [34].

Example Split_ex : Split "a,,b" "," = ["a"; ""; "b"].
Proof. reflexivity. Qed.
Example TrimSpace_ex : TrimSpace (" " +:+ bytes [194; 160] +:+ "a b" +:+ bytes [10]) = "a b".
Proof. reflexivity. Qed.
Example Atoi_ex : (Atoi "-12", Atoi "+7", Atoi "1_0", Atoi "", Atoi "9223372036854775808") =
  (Some (-12)%Z, Some 7%Z, None, None, None).
Proof. vm_compute. reflexivity. Qed.

(** *** Facts *)

Lemma Atoi_range s z : Atoi s = Some z → in_int64 z.
Proof.
  unfold Atoi. destruct (split_sign s) as [neg ds]. destruct ds as [|c ds]; [done|].
  destruct (parse_digits _ _) as [v|]; simpl; [|done].
  case_bool_decide; intros; by simplify_eq.
Qed.

(** *** [strconv.Itoa] of a natural number, [pretty], and its inverse *)

Lemma digit_val_char x : (x < 10)%N → digit_val (pretty_N_char x) = Some (Z.of_N x).
Proof.
  intros Hx. assert (x = 0 ∨ x = 1 ∨ x = 2 ∨ x = 3 ∨ x = 4 ∨ x = 5 ∨ x = 6 ∨ x = 7 ∨ x = 8 ∨ x = 9)%N
    as Hc by lia.
  by destruct_or! Hc; subst.
Qed.

(** Reading the digits of [x] in front of [s] *)
Lemma parse_digits_go x s : parse_digits 0 (pretty_N_go x s) = parse_digits (Z.of_N x) s.
Proof.
  revert s; induction (N.lt_wf_0 x) as [x _ IH]; intros s.
  assert (x = 0 ∨ 0 < x)%N as [->|Hx] by lia; [by rewrite pretty_N_go_0|].
  rewrite pretty_N_go_step, IH by (done || by apply N.div_lt). cbn [parse_digits].
  rewrite digit_val_char by (by apply N.mod_lt). cbn [mbind option_bind].
  f_equal. pose proof (N.div_mod x 10 ltac:(done)). lia.
Qed.

Lemma parse_digits_Itoa (n : nat) s :
  parse_digits 0 (pretty n +:+ s) = parse_digits (Z.of_nat n) s.
Proof.
  unfold pretty, pretty_nat, pretty, pretty_N. case_decide as Hn.
  { assert (n = 0) as -> by lia. done. }
  assert (∀ x a b, pretty_N_go x a +:+ b = pretty_N_go x (a +:+ b)) as Happ.
  { clear. intros x; induction (N.lt_wf_0 x) as [x _ IH]; intros a b.
    assert (x = 0 ∨ 0 < x)%N as [->|Hx] by lia; [by rewrite !pretty_N_go_0|].
    rewrite !(pretty_N_go_step x) by done. rewrite IH by (by apply N.div_lt). done. }
  rewrite Happ, parse_digits_go. simpl. f_equal. lia.
Qed.

(** The digits of a number and nothing else *)
Lemma Itoa_head (n : nat) : ∃ c r d, pretty n = String c r ∧ digit_val c = Some d.
Proof.
  unfold pretty, pretty_nat, pretty, pretty_N. case_decide as Hn; [by eexists "0"%char, _, _|].
  assert (∀ x s, (∃ c r d, s = String c r ∧ digit_val c = Some d) →
    ∃ c r d, pretty_N_go x s = String c r ∧ digit_val c = Some d) as Hgo.
  { clear. intros x; induction (N.lt_wf_0 x) as [x _ IH]; intros s Hs.
    assert (x = 0 ∨ 0 < x)%N as [->|Hx] by lia; [by rewrite pretty_N_go_0|].
    rewrite pretty_N_go_step by done. apply IH; [by apply N.div_lt|].
    eexists _, _, _. split; [done|]. by apply digit_val_char, N.mod_lt. }
  rewrite pretty_N_go_step by lia. apply Hgo.
  eexists _, _, _. split; [done|]. by apply digit_val_char, N.mod_lt.
Qed.

Lemma Atoi_Itoa (n : nat) : in_int64 (Z.of_nat n) → Atoi (pretty n) = Some (Z.of_nat n).
Proof.
  intros Hn. pose proof (parse_digits_Itoa n "") as Hp.
  assert (∀ t : string, t +:+ "" = t) as Ha.
  { induction t as [|c t IH]; [done|]. by change (String c (t +:+ "") = String c t); rewrite IH. }
  rewrite Ha in Hp. cbn [parse_digits] in Hp.
  destruct (Itoa_head n) as (c&r&d&Hs&Hd). unfold Atoi, split_sign. rewrite Hs in *.
  destruct (Ascii.eqb_spec c "-") as [->|_]; [done|].
  destruct (Ascii.eqb_spec c "+") as [->|_]; [done|].
  rewrite Hp. cbn [mbind option_bind]. by rewrite bool_decide_eq_true_2.
Qed.

(** Each digit read multiplies what was read before. *)
Lemma parse_digits_lower a s v :
  (0 ≤ a)%Z → parse_digits a s = Some v → (a ≤ v)%Z ∧ (s ≠ "" → (10 * a ≤ v)%Z).
Proof.
  revert a; induction s as [|c s IH]; intros a Ha; simpl; [intros [= ->]; split; [lia|done]|].
  destruct (digit_val c) as [d|] eqn:Hd; [|done]. cbn [mbind option_bind]. intros Hv.
  assert (0 ≤ d)%Z. { unfold digit_val in Hd. case_match; simplify_eq. lia. }
  apply IH in Hv as [Hv _]; [|lia]. split; [lia|]. lia.
Qed.

(** A longer number followed by digits is not a shorter one followed by zero. *)
Lemma Itoa_app_inj (m n i : nat) : n < m → pretty m +:+ pretty i ≠ pretty n +:+ "0".
Proof.
  intros Hlt Heq. assert (parse_digits 0 (pretty m +:+ pretty i) = parse_digits 0 (pretty n +:+ "0")) as H
    by by rewrite Heq.
  rewrite !parse_digits_Itoa in H.
  change (parse_digits (Z.of_nat n) "0") with (Some (10 * Z.of_nat n + 0)%Z) in H.
  apply parse_digits_lower in H as [_ H]; [|lia].
  destruct (Itoa_head i) as (c&r&d&Hi&_). rewrite Hi in H. specialize (H ltac:(done)). lia.
Qed.

(** *** [Split] and what it splits *)

Lemma string_app_assoc (a b c : string) : a +:+ (b +:+ c) = (a +:+ b) +:+ c.
Proof. induction a as [|x a IH]; [done|]. exact (f_equal (String x) IH). Qed.

Lemma string_app_empty_r (a : string) : a +:+ "" = a.
Proof. induction a as [|x a IH]; [done|]. exact (f_equal (String x) IH). Qed.

Lemma string_length_app (a b : string) : String.length (a +:+ b) = (String.length a + String.length b)%nat.
Proof. induction a as [|x a IH]; [done|]. exact (f_equal S IH). Qed.

(** The characters of a string *)
Fixpoint has_char (c : ascii) (s : string) : bool :=
  match s with "" => false | String d r => Ascii.eqb d c || has_char c r end.

Lemma has_char_app c a b : has_char c (a +:+ b) = has_char c a || has_char c b.
Proof. induction a as [|d a IH]; [done|]. simpl. by rewrite IH, orb_assoc. Qed.

Lemma string_rev_app_spec s acc : string_rev_app s acc = string_rev s +:+ acc.
Proof.
  unfold string_rev. revert acc. induction s as [|c s IH]; intros acc; [done|]. simpl.
  rewrite (IH (String c acc)), (IH (String c "")). by rewrite <-string_app_assoc.
Qed.

Lemma string_rev_cons c s : string_rev (String c s) = string_rev s +:+ String c "".
Proof. unfold string_rev at 1. simpl. apply string_rev_app_spec. Qed.

Lemma Split_aux_plain c s cur :
  has_char c s = false → Split_aux c s cur = [string_rev cur +:+ s].
Proof.
  revert cur. induction s as [|d s IH]; intros cur; simpl; [by rewrite string_app_empty_r|].
  intros [Hd Hs]%orb_false_iff. rewrite Hd, IH by done. by rewrite string_rev_cons, <-string_app_assoc.
Qed.

Lemma Split_aux_cut c a b cur :
  has_char c a = false → Split_aux c (a +:+ String c b) cur = (string_rev cur +:+ a) :: Split_aux c b "".
Proof.
  revert cur. induction a as [|d a IH]; intros cur; simpl.
  { intros _. by rewrite Ascii.eqb_refl, string_app_empty_r. }
  intros [Hd Ha]%orb_false_iff. rewrite Hd, IH by done. by rewrite string_rev_cons, <-string_app_assoc.
Qed.

Lemma Split_two a b c :
  has_char c a = false → has_char c b = false → Split (a +:+ String c b) c = [a; b].
Proof. intros Ha Hb. unfold Split. by rewrite Split_aux_cut, Split_aux_plain. Qed.

Lemma Split_slash a b :
  has_char "/" a = false → has_char "/" b = false → Split (a +:+ "/" +:+ b) "/" = [a; b].
Proof. apply Split_two. Qed.

(** And back: the fields joined are the string. *)
Lemma Split_aux_join c s cur x l :
  Split_aux c s cur = x :: l →
  (l = [] ∧ x = string_rev cur +:+ s) ∨
  (∃ r, Split_aux c r "" = l ∧ x +:+ String c r = string_rev cur +:+ s).
Proof.
  revert cur. induction s as [|d s IH]; intros cur; cbn [Split_aux].
  { intros [= <- <-]. left. by rewrite string_app_empty_r. }
  destruct (Ascii.eqb_spec d c) as [->|Hne].
  - intros [= <- <-]. right. by exists s.
  - intros [[-> ->]|(r & Hr & Hx)]%IH; [left|right].
    + by rewrite string_rev_cons, <-string_app_assoc.
    + exists r. split; [done|]. by rewrite Hx, string_rev_cons, <-string_app_assoc.
Qed.

Lemma Split_aux_ne c s cur : Split_aux c s cur ≠ [].
Proof. revert cur. induction s as [|d s IH]; intros cur; [done|]. simpl. by destruct (Ascii.eqb d c). Qed.

Lemma Split_two_inv s c a b : Split s c = [a; b] → s = a +:+ String c b.
Proof.
  intros [[? _]|(r & Hr & Hx)]%Split_aux_join; [done|]. change (a +:+ String c r = s) in Hx. rewrite <-Hx.
  apply Split_aux_join in Hr as [[_ Hb]|(r' & Hr' & _)]; [by rewrite Hb|].
  by apply Split_aux_ne in Hr'.
Qed.
