(* ===== verification/GoMatch.v ===== *)
(** * Package [path/filepath] and searches in strings

    [filepath.Match] as the library implements it, on text of one-byte
    characters: a pattern is a sequence of chunks between stars, and each chunk
    is matched at the leftmost position where it fits.  [None] is
    [ErrBadPattern]. *)

From S2P Require Import Prelude GoStd.
From Stdlib Require Import Ascii.
Local Open Scope string_scope.
Local Open Scope list_scope.
Local Open Scope nat_scope.

(** [strings.Contains] *)
Fixpoint Contains (s sub : string) : bool :=
  HasPrefix s sub || match s with "" => false | String _ r => Contains r sub end.

Fixpoint forall_chars (f : ascii → bool) (s : string) : bool :=
  match s with "" => true | String c r => f c && forall_chars f r end.

(** [strings.ContainsAny] *)
Definition ContainsAny (s chars : string) : bool :=
  negb (forall_chars (λ c, forall_chars (λ d, negb (Ascii.eqb c d)) chars) s).

Definition backslash : ascii := byte 92.

(** ** Chunks *)

(** The stars at the start of a pattern *)
Fixpoint drop_stars (pattern : string) : bool * string :=
  match pattern with
  | String "*" r => (true, (drop_stars r).2)
  | _ => (false, pattern)
  end.

(** The end of the chunk is the next star outside of a class. *)
Fixpoint chunk_end (inrange : bool) (pattern : string) : string * string :=
  match pattern with
  | "" => ("", "")
  | String c r =>
      if Ascii.eqb c "*" && negb inrange then ("", pattern)
      else if Ascii.eqb c backslash then
        match r with
        | String d r' => let '(ch, rest) := chunk_end inrange r' in (String c (String d ch), rest)
        | "" => (String c "", "")
        end
      else
        let '(ch, rest) := chunk_end (if Ascii.eqb c "[" then true else if Ascii.eqb c "]" then false else inrange) r in
        (String c ch, rest)
  end.

Definition scanChunk (pattern : string) : bool * string * string :=
  let '(star, p) := drop_stars pattern in
  let '(chunk, rest) := chunk_end false p in
  (star, chunk, rest).

(** A character of a class, perhaps escaped; a class is never the end of a chunk. *)
Definition getEsc (chunk : string) : option (ascii * string) :=
  let plain (s : string) :=
    match s with
    | String c (String d r) => Some (c, String d r)
    | _ => None
    end in
  match chunk with
  | "" => None
  | String c r =>
      if Ascii.eqb c "-" || Ascii.eqb c "]" then None
      else if Ascii.eqb c backslash then plain r else plain chunk
  end.

Definition in_range (lo hi r : ascii) : bool :=
  Nat.leb (nat_of_ascii lo) (nat_of_ascii r) && Nat.leb (nat_of_ascii r) (nat_of_ascii hi).

(** The ranges of a class; [r] is [None] when the match has failed already. *)
Fixpoint class_ranges (fuel : nat) (chunk : string) (r : option ascii) (first matched : bool)
    : option (bool * string) :=
  match fuel with
  | O => None
  | S fuel =>
      match chunk with
      | String "]" rest => if negb first then Some (matched, rest) else None
      | _ =>
          x ← getEsc chunk;
          let '(lo, chunk) := x in
          y ← (match chunk with String "-" rest => getEsc rest | _ => Some (lo, chunk) end);
          let '(hi, chunk) := y in
          class_ranges fuel chunk r false (matched || match r with Some c => in_range lo hi c | None => false end)
      end
  end.

(** [matchChunk]; the text is [None] after the match has failed, when only the
    syntax of the rest is checked.  The answer: an error, a failure, or the rest of
    the text. *)
Fixpoint matchChunk (fuel : nat) (chunk : string) (s : option string) : option (option string) :=
  match fuel with
  | O => None
  | S fuel =>
      match chunk with
      | "" => Some s
      | String c r =>
          let s := match s with Some "" => None | _ => s end in
          if Ascii.eqb c "[" then
            let '(c0, s') := match s with Some (String x t) => (Some x, Some t) | _ => (None, None) end in
            let '(negated, r) := match r with String "^" r' => (true, r') | _ => (false, r) end in
            x ← class_ranges (S (String.length r)) r c0 true false;
            let '(matched, r) := x in
            matchChunk fuel r (if Bool.eqb matched negated then None else s')
          else if Ascii.eqb c "?" then
            matchChunk fuel r (match s with Some (String x t) => if Ascii.eqb x "/" then None else Some t | _ => None end)
          else
            match (if Ascii.eqb c backslash then r else chunk) with
            | "" => None
            | String d r' =>
                matchChunk fuel r' (match s with Some (String x t) => if Ascii.eqb d x then Some t else None | _ => None end)
            end
      end
  end.

Definition match_chunk (chunk s : string) : option (option string) :=
  matchChunk (S (String.length chunk)) chunk (Some s).

(** ** Patterns *)

(** A star before the chunk: the first later position at which it matches, up to the
    end of the text if it is the last *)
Fixpoint star_search (chunk : string) (last : bool) (s : string) : option (option string) :=
  match s with
  | "" => Some None
  | String c r =>
      if Ascii.eqb c "/" then Some None
      else
        match match_chunk chunk r with
        | None => None
        | Some (Some t) =>
            if last && negb (String.eqb t "") then star_search chunk last r else Some (Some t)
        | Some None => star_search chunk last r
        end
  end.

(** The syntax of the chunks that are left *)
Fixpoint rest_ok (fuel : nat) (pattern : string) : option bool :=
  match fuel with
  | O => None
  | S fuel =>
      match pattern with
      | "" => Some false
      | _ =>
          let '(_, chunk, rest) := scanChunk pattern in
          _ ← match_chunk chunk "";
          rest_ok fuel rest
      end
  end.

Fixpoint Match_fuel (fuel : nat) (pattern name : string) : option bool :=
  match fuel with
  | O => None
  | S fuel =>
      match pattern with
      | "" => Some (String.eqb name "")
      | _ =>
          let '(star, chunk, rest) := scanChunk pattern in
          if star && String.eqb chunk "" then Some (negb (Contains name "/"))
          else
            r ← match_chunk chunk name;
            let last := String.eqb rest "" in
            match r with
            | Some t =>
                if String.eqb t "" || negb last then Match_fuel fuel rest t
                else if star then
                  q ← star_search chunk last name;
                  match q with Some t => Match_fuel fuel rest t | None => rest_ok (S (String.length rest)) rest end
                else rest_ok (S (String.length rest)) rest
            | None =>
                if star then
                  q ← star_search chunk last name;
                  match q with Some t => Match_fuel fuel rest t | None => rest_ok (S (String.length rest)) rest end
                else rest_ok (S (String.length rest)) rest
            end
      end
  end.

(** [filepath.Match] *)
Definition filepath_Match (pattern name : string) : option bool :=
  Match_fuel (S (String.length pattern)) pattern name.

Example Match_ex :
  (λ '(p, s), filepath_Match p s) <$>
    [("*", "Deployment"); ("*.example.com", "a.example.com"); ("Dep*ent", "Deployment"); ("D?g", "Dog");
     ("[A-C]*", "Bar"); ("[^A-C]*", "Bar"); ("*", "a/b"); ("[", "a"); ("", ""); ("a*b*c", "axbybzc"); ("a\*", "a*")]
  = [Some true; Some true; Some true; Some true; Some true; Some false; Some false; None; Some true; Some true;
     Some true].
Proof. vm_compute. reflexivity. Qed.

(** *** Facts *)

Lemma Match_star name : filepath_Match "*" name = Some (negb (Contains name "/")).
Proof. reflexivity. Qed.

(** A text without special characters matches itself only. *)
Definition plain_char (c : ascii) : bool :=
  negb (existsb (Ascii.eqb c) ["*"%char; "?"%char; "["%char; "]"%char; backslash]).

Lemma plain_char_spec c : plain_char c = true →
  Ascii.eqb c "*" = false ∧ Ascii.eqb c "?" = false ∧ Ascii.eqb c "[" = false ∧
  Ascii.eqb c "]" = false ∧ Ascii.eqb c backslash = false.
Proof.
  unfold plain_char. cbn [existsb]. intros H%negb_true_iff.
  rewrite !orb_false_iff in H. tauto.
Qed.

Lemma chunk_end_plain p : forall_chars plain_char p = true → chunk_end false p = (p, "").
Proof.
  induction p as [|c p IH]; [done|]. intros [Hc Hp]%andb_true_iff.
  apply plain_char_spec in Hc as (H1&_&H3&H4&H5). cbn [chunk_end]. by rewrite H1, H5, H3, H4, IH.
Qed.

Lemma matchChunk_plain fuel p s :
  forall_chars plain_char p = true → String.length p < fuel →
  matchChunk fuel p s = Some (match s with Some s => CutPrefix p s | None => None end).
Proof.
  revert fuel s. induction p as [|c p IH]; intros [|fuel] s Hp Hlen; simpl in Hlen; try lia.
  { by destruct s. }
  cbn [forall_chars] in Hp. apply andb_true_iff in Hp as [Hc Hp].
  apply plain_char_spec in Hc as (_&H2&H3&_&H5).
  cbn [matchChunk]. rewrite H3, H2, H5, IH by (done || lia). destruct s as [[|x t]|]; [done| |done].
  cbn [CutPrefix]. by destruct (Ascii.eqb c x).
Qed.

Lemma CutPrefix_all p s : CutPrefix p s = Some "" ↔ s = p.
Proof.
  revert s. induction p as [|c p IH]; intros [|d s]; simpl; try (split; congruence).
  destruct (Ascii.eqb_spec c d) as [->|]; [rewrite IH|]; split; congruence.
Qed.

Lemma Match_plain p s : forall_chars plain_char p = true → filepath_Match p s = Some (String.eqb s p).
Proof.
  intros Hp. unfold filepath_Match. destruct p as [|c p]; [done|].
  cbn [Match_fuel]. assert (scanChunk (String c p) = (false, String c p, "")) as ->.
  { unfold scanChunk. assert (drop_stars (String c p) = (false, String c p)) as ->.
    { apply andb_true_iff in Hp as [(H&_)%plain_char_spec _]. cbn [drop_stars].
      destruct c as [[] [] [] [] [] [] [] []]; done. }
    by rewrite chunk_end_plain. }
  cbn [andb]. unfold match_chunk. rewrite matchChunk_plain by (done || lia). cbn [mbind option_bind].
  pose proof (CutPrefix_all (String c p) s) as H.
  destruct (CutPrefix (String c p) s) as [t|] eqn:E.
  - change (String.eqb "" "") with true. cbn [negb]. rewrite orb_false_r.
    destruct (String.eqb_spec t "") as [->|Hne].
    + assert (s = String c p) as -> by by apply H. rewrite String.eqb_refl. done.
    + destruct (String.eqb_spec s (String c p)) as [->|]; [|done]. destruct H as [_ H]. specialize (H eq_refl). congruence.
  - destruct (String.eqb_spec s (String c p)) as [->|]; [|done]. destruct H as [_ H]. by specialize (H eq_refl).
Qed.

(** A text contains a character. *)
Lemma Contains_char c s : Contains s (String c "") = has_char c s.
Proof.
  induction s as [|d s IH]; [done|]. cbn [Contains has_char]. rewrite IH. f_equal.
  unfold HasPrefix. cbn [CutPrefix]. rewrite (Ascii.eqb_sym d c). by destruct (Ascii.eqb c d).
Qed.
