(* ===== verification/GoTime.v ===== *)
(** * Instants, durations and [time.ParseDuration]

    An instant ([time.Time]) is its distance in nanoseconds from the zero time
    of Go, so that [IsZero] is the test for [0]; instants are unbounded, since
    [time.Time] covers billions of years.  A duration ([time.Duration]) is a
    64-bit number of nanoseconds whose arithmetic wraps around.

    [ParseDuration] is the parser of the standard library; the fractional part
    of a number is scaled in double precision as there, with the software floats
    of [SpecFloat]. *)

From S2P Require Import Prelude GoStd.
From Stdlib Require Import Ascii SpecFloat.
Local Open Scope string_scope.
Local Open Scope list_scope.

(** [Time.IsZero] and [Time.Before] *)
Definition time_IsZero (t : Z) : bool := Z.eqb t 0.
Definition time_Before (t u : Z) : bool := Z.ltb t u.

(** [time.Second] *)
Definition Second : Z := 1000000000.
Definition Minute : Z := 60 * Second.
Definition Hour : Z := 60 * Minute.

Definition two63 : Z := 9223372036854775808.

(** ** Double precision *)

Definition f64_of_Z (z : Z) : spec_float := binary_normalize 53 1024 z 0 false.

(** [uint64(x)] of a finite non-negative float *)
Definition f64_trunc (x : spec_float) : Z :=
  match x with
  | S754_finite false m e => if Z.leb 0 e then (Zpos m * 2 ^ e)%Z else (Zpos m / 2 ^ (- e))%Z
  | _ => 0%Z
  end.

(** [uint64(float64(f) * (float64(unit) / scale))] *)
Definition scale_fraction (f unit scale : Z) : Z :=
  f64_trunc (SFmul 53 1024 (f64_of_Z f) (SFdiv 53 1024 (f64_of_Z unit) (f64_of_Z scale))).

(** ** The scanner *)

(** [leadingInt]: the digits at the front of [s]; [None] on overflow *)
Fixpoint leadingInt (x : Z) (s : string) : option (Z * string) :=
  match s with
  | "" => Some (x, "")
  | String c r =>
      match digit_val c with
      | None => Some (x, s)
      | Some d =>
          if Z.ltb (two63 / 10) x then None
          else
            let x' := (x * 10 + d)%Z in
            if Z.ltb two63 x' then None else leadingInt x' r
      end
  end.

(** [leadingFraction]: digits beyond the precision of [uint64] are skipped.
    The scale is the power of ten of the digits used. *)
Fixpoint leadingFraction (x scale : Z) (overflow : bool) (s : string) : Z * Z * string :=
  match s with
  | "" => (x, scale, "")
  | String c r =>
      match digit_val c with
      | None => (x, scale, s)
      | Some d =>
          if overflow then leadingFraction x scale true r
          else if Z.ltb ((two63 - 1) / 10) x then leadingFraction x scale true r
          else
            let y := (x * 10 + d)%Z in
            if Z.ltb two63 y then leadingFraction x scale true r
            else leadingFraction y (scale * 10) false r
      end
  end.

(** A digit or the decimal point *)
Definition starts_number (c : ascii) : bool :=
  Ascii.eqb c "." || (if digit_val c is Some _ then true else false).

(** The characters up to the next number *)
Fixpoint take_unit (s : string) : string * string :=
  match s with
  | "" => ("", "")
  | String c r =>
      if starts_number c then ("", s)
      else let '(u, rest) := take_unit r in (String c u, rest)
  end.

Definition unitMap (u : string) : option Z :=
  if String.eqb u "ns" then Some 1%Z
  else if String.eqb u "us" || String.eqb u (bytes [194; 181] +:+ "s") || String.eqb u (bytes [206; 188] +:+ "s")
  then Some 1000%Z
  else if String.eqb u "ms" then Some 1000000%Z
  else if String.eqb u "s" then Some Second
  else if String.eqb u "m" then Some Minute
  else if String.eqb u "h" then Some Hour
  else None.

(** Whether the scanner consumed something *)
Definition consumed (before after : string) : bool :=
  negb (Nat.eqb (String.length before) (String.length after)).

(** One number with its unit: its value and the rest of the text *)
Definition duration_part (s : string) : option (Z * string) :=
  match s with
  | "" => None
  | String c _ =>
      if negb (starts_number c) then None
      else
        '(v, s1) ← leadingInt 0 s;
        let pre := consumed s s1 in
        let '(f, scale, s2, post) :=
          match s1 with
          | String c1 r =>
              if Ascii.eqb c1 "." then
                let '(f, scale, s2) := leadingFraction 0 1 false r in (f, scale, s2, consumed r s2)
              else (0%Z, 1%Z, s1, false)
          | "" => (0%Z, 1%Z, s1, false)
          end in
        if negb pre && negb post then None
        else
          let '(u, s3) := take_unit s2 in
          if String.eqb u "" then None
          else
            unit ← unitMap u;
            if Z.ltb (two63 / unit) v then None
            else
              let v1 := (v * unit)%Z in
              let v2 := if Z.ltb 0 f then (v1 + scale_fraction f unit scale)%Z else v1 in
              if Z.ltb 0 f && Z.ltb two63 v2 then None else Some (v2, s3)
  end.

(** The loop of [ParseDuration]; every pass consumes a character, so the length
    of the text bounds the number of passes.  The sum is a [uint64]. *)
Fixpoint duration_loop (fuel : nat) (d : Z) (s : string) : option Z :=
  match s with
  | "" => Some d
  | _ =>
      match fuel with
      | O => None
      | S fuel' =>
          '(v, rest) ← duration_part s;
          let d' := ((d + v) mod 2 ^ 64)%Z in
          if Z.ltb two63 d' then None else duration_loop fuel' d' rest
      end
  end.

(** [time.ParseDuration]; [None] is any of its errors. *)
Definition ParseDuration (s : string) : option Z :=
  let '(neg, s) := split_sign s in
  if String.eqb s "0" then Some 0%Z
  else if String.eqb s "" then None
  else
    d ← duration_loop (String.length s) 0 s;
    if neg : bool then Some (wrap64 (- wrap64 d))
    else if Z.ltb (two63 - 1) d then None else Some d.

Example ParseDuration_ex :
  (ParseDuration "1h30m", ParseDuration "-1.5h", ParseDuration "0", ParseDuration ".5s",
   ParseDuration "1.0000000001h") =
  (Some 5400000000000%Z, Some (-5400000000000)%Z, Some 0%Z, Some 500000000%Z, Some 3600000000360%Z).
Proof. vm_compute. reflexivity. Qed.

Example ParseDuration_errors :
  (ParseDuration "", ParseDuration "1", ParseDuration "h", ParseDuration "1x", ParseDuration ".h",
   ParseDuration "9223372036854775808ns", ParseDuration "-9223372036854775808ns") =
  (None, None, None, None, None, None, Some int_min).
Proof. vm_compute. reflexivity. Qed.

(** ** The fuel is enough *)

Local Open Scope nat_scope.

Lemma leadingInt_length x s v r :
  leadingInt x s = Some (v, r) → String.length r ≤ String.length s.
Proof.
  revert x; induction s as [|c s IH]; intros x; simpl; [by intros [= <- <-]|].
  destruct (digit_val c); [|by intros [= <- <-]].
  repeat case_match; try done. intros ?%IH. lia.
Qed.

Lemma leadingFraction_length x scale o s :
  String.length (leadingFraction x scale o s).2 ≤ String.length s.
Proof.
  revert x scale o; induction s as [|c s IH]; intros x scale o; simpl; [done|].
  destruct (digit_val c); [|done].
  repeat case_match; (etransitivity; [apply IH|lia]).
Qed.

Lemma take_unit_length s :
  String.length (take_unit s).1 + String.length (take_unit s).2 = String.length s.
Proof.
  induction s as [|c s IH]; simpl; [done|]. destruct (starts_number c); [done|].
  destruct (take_unit s); simpl in *. lia.
Qed.

Lemma duration_part_shorter s v r :
  duration_part s = Some (v, r) → String.length r < String.length s.
Proof.
  unfold duration_part. destruct s as [|c s]; [done|].
  destruct (negb (starts_number c)); [done|].
  destruct (leadingInt 0 (String c s)) as [[v0 s1]|] eqn:E1; [|done].
  apply leadingInt_length in E1. cbn [mbind option_bind].
  set (rest := match s1 with String c1 r1 => _ | "" => _ end).
  assert (String.length rest.1.2 ≤ String.length s1) as Hrest.
  { unfold rest. destruct s1 as [|c1 r1]; [done|]. destruct (Ascii.eqb c1 "."); [|done].
    pose proof (leadingFraction_length 0 1 false r1).
    destruct (leadingFraction 0 1 false r1) as [[f sc] s2]; simpl in *. lia. }
  clearbody rest. destruct rest as [[[f sc] s2] post]; simpl in Hrest.
  destruct (negb _ && negb _); [done|].
  pose proof (take_unit_length s2) as Hu. destruct (take_unit s2) as [u s3]; simpl in Hu.
  destruct u as [|cu u]; [done|]. cbn [String.eqb].
  destruct (unitMap _); [|done]. cbn [mbind option_bind]. 
  repeat case_match; intros; simplify_eq/=; lia.
Qed.

(** More fuel than the length of the text changes nothing. *)
Lemma duration_loop_fuel n m d s :
  String.length s ≤ n → String.length s ≤ m → duration_loop n d s = duration_loop m d s.
Proof.
  revert m d s; induction n as [|n IH]; intros [|m] d [|c s] Hn Hm; simpl in Hn, Hm; try done; try lia.
  cbn [duration_loop]. destruct (duration_part (String c s)) as [[v r]|] eqn:E; [|done]. cbn [mbind option_bind].
  case_match; [done|]. apply duration_part_shorter in E. simpl in E. apply IH; lia.
Qed.


Lemma duration_loop_range n d s d' :
  (0 ≤ d ≤ two63)%Z → duration_loop n d s = Some d' → (0 ≤ d' ≤ two63)%Z.
Proof.
  revert d s; induction n as [|n IH]; intros d [|c s] Hd; cbn [duration_loop];
    try (intros; simplify_eq; done).
  destruct (duration_part (String c s)) as [[v r]|]; [|done]. cbn [mbind option_bind].
  case_match eqn:E; [done|]. apply IH. breflect.
  pose proof (Z.mod_pos_bound (d + v) (2 ^ 64) ltac:(lia)). lia.
Qed.

(** A parsed duration is a [time.Duration]. *)
Lemma ParseDuration_range s d : ParseDuration s = Some d → in_int64 d.
Proof.
  unfold ParseDuration. destruct (split_sign s) as [neg r].
  destruct (String.eqb r "0"); [by intros [= <-]|].
  destruct (String.eqb r ""); [done|].
  destruct (duration_loop _ _ _) as [d'|] eqn:E; [|done]. cbn [mbind option_bind].
  apply duration_loop_range in E; [|unfold two63; lia].
  destruct neg; [intros [= <-]; apply wrap64_range|].
  case_match eqn:E2; [done|]. intros [= <-]. breflect.
  unfold in_int64, int_min, int_max, two63 in *. lia.
Qed.
