(* ===== verification/AppTypes.v ===== *)
(** * Applications and clusters (src/pkg/apis/application/v1alpha1/types.go)

    The fields of the API types that several components of the controller read. *)

From S2P Require Import Prelude.

Record ApplicationDestination := { Server : string; Namespace : string; DestName : string }.

Record OperationState := { Automated : bool; StartedAt : Z }.

Record Application := {
  AppName : string;
  Destination : ApplicationDestination;
  app_OperationState : option OperationState;
}.

(** A cluster is used through a pointer, [ClusterPtr] being its address; [Shard]
    is a pointer to an [int64]. *)
Record Cluster := {
  ClusterPtr : positive;
  ClusterID : string;
  ClusterServer : string;
  ClusterName : string;
  ClusterShard : option Z;
  ClusterAnnotations : gmap string string;
}.
