(* ===== verification/Glob.v ===== *)
(** * Glob matching with a bounded cache (src/util/glob)

    [glob.Match] compiles a pattern once and keeps the compiled form in a
    bounded least-recently-used cache.  The pattern compiler
    ([github.com/gobwas/glob]), the cache ([groupcache/lru]) and the regular
    expression engine are libraries: [GlobLib] and [LRU] state what the code
    relies on.  The code serialises accesses to the cache with a mutex and
    compilations of one key with [singleflight], so a call behaves like one of
    the sequential calls below.

    Separators are given as the string [string(separators)], the form the cache
    key has. *)

From S2P Require Import Prelude GoStd.
Local Open Scope string_scope.
Local Open Scope list_scope.

(** The pattern compiler; [None] is a compilation error. *)
Class GlobLib : Type := {
  glob_t : Type;
  glob_compile : string → string → option glob_t;
  glob_match : glob_t → string → bool;
  (** [regexp2.Compile] and [MatchString]; [None] is the error of either. *)
  regex_t : Type;
  regex_compile : string → option regex_t;
  regex_matchString : regex_t → string → option bool;
}.

(** [lru.Cache]: [Get] may reorder entries, [Add] may evict any of them. *)
Class LRU (K V : Type) `{Countable K} : Type := {
  lru_t : Type;
  lru_New : Z → lru_t;
  lru_Get : K → lru_t → option V * lru_t;
  lru_Add : K → V → lru_t → lru_t;
  lru_contents : lru_t → gmap K V;
  lru_New_empty n : lru_contents (lru_New n) = ∅;
  lru_Get_result k c : (lru_Get k c).1 = lru_contents c !! k;
  lru_Get_contents k c : lru_contents (lru_Get k c).2 = lru_contents c;
  lru_Add_contents k v c : lru_contents (lru_Add k v c) ⊆ <[k:=v]> (lru_contents c);
}.

(** ** The code *)

Record globCacheKey := { Pattern : string; Separators : string }.

#[export] Instance globCacheKey_eq_dec : EqDecision globCacheKey.
Proof. solve_decision. Defined.
#[export] Instance globCacheKey_countable : Countable globCacheKey.
Proof.
  refine (inj_countable' (λ k, (Pattern k, Separators k))
    (λ p, {| Pattern := p.1; Separators := p.2 |}) _). by intros [].
Defined.

Definition DefaultGlobCacheSize : Z := 10000.

Section glob.
Context `{GL : GlobLib} `{LR : !LRU globCacheKey glob_t}.

(** [SetCacheSize], also what [init] does with the default size *)
Definition SetCacheSize (maxEntries : Z) : lru_t := lru_New maxEntries.
Definition init_cache : lru_t := SetCacheSize DefaultGlobCacheSize.

Definition cacheKey (pattern separators : string) : globCacheKey :=
  {| Pattern := pattern; Separators := separators |}.

Definition getOrCompile (pattern : string) (compiler : string → string → option glob_t)
    (separators : string) : ST lru_t (option glob_t) :=
  let key := cacheKey pattern separators in
  cached ← lru_Get key;
  match cached with
  | Some g => mret (Some g)
  | None =>
      match compiler pattern separators with
      | None => mret None
      | Some compiled => st_modify (lru_Add key compiled) ;; mret (Some compiled)
      end
  end.

(** [Match]: a pattern that does not compile matches nothing. *)
Definition Match_cached (pattern text separators : string) : ST lru_t bool :=
  compiled ← getOrCompile pattern glob_compile separators;
  mret (match compiled with None => false | Some g => glob_match g text end).

(** [MatchWithError]: [None] is the compilation error. *)
Definition MatchWithError_cached (pattern text separators : string) : ST lru_t (option bool) :=
  compiled ← getOrCompile pattern glob_compile separators;
  mret (match compiled with None => None | Some g => Some (glob_match g text) end).

(** ** The function the cache computes *)

(** [glob.Match] without the cache *)
Definition glob_Match (pattern text separators : string) : bool :=
  match glob_compile pattern separators with None => false | Some g => glob_match g text end.

(** Every cached entry is the compiled form of its key. *)
Definition cache_ok (c : lru_t) : Prop :=
  ∀ k g, lru_contents c !! k = Some g → glob_compile (Pattern k) (Separators k) = Some g.

Lemma cache_ok_New n : cache_ok (SetCacheSize n).
Proof. intros k g. unfold SetCacheSize. by rewrite lru_New_empty. Qed.

Lemma cache_ok_Add p s g c :
  cache_ok c → glob_compile p s = Some g → cache_ok (lru_Add (cacheKey p s) g c).
Proof.
  intros Hc Hg k g' Hk. eapply lookup_weaken in Hk; [|apply lru_Add_contents].
  apply lookup_insert_Some in Hk as [[<- <-]|[_ Hk]]; [done|by apply Hc].
Qed.

Lemma getOrCompile_spec p s c :
  cache_ok c →
  (getOrCompile p glob_compile s c).1 = glob_compile p s ∧
  cache_ok (getOrCompile p glob_compile s c).2.
Proof.
  intros Hc. unfold getOrCompile. rewrite st_bind_eval.
  set (r := lru_Get (cacheKey p s) c).
  assert (cache_ok r.2) as Hr2.
  { unfold cache_ok, r. by rewrite lru_Get_contents. }
  destruct r.1 as [g|] eqn:Hr; simpl.
  - unfold r in Hr. rewrite lru_Get_result in Hr. apply Hc in Hr. done.
  - destruct (glob_compile p s) as [g|] eqn:Hg; [|done]. split; [done|]. by apply cache_ok_Add.
Qed.

Lemma Match_cached_spec p t s c :
  cache_ok c →
  (Match_cached p t s c).1 = glob_Match p t s ∧ cache_ok (Match_cached p t s c).2.
Proof.
  intros Hc. destruct (getOrCompile_spec p s c Hc) as [H1 H2].
  unfold Match_cached, glob_Match. rewrite st_bind_eval, H1. done.
Qed.

(** The glob cache is invisible: from a fresh cache of any size, any
    sequence of [Match] calls returns what compiling each pattern anew returns,
    whatever the cache evicts in between. *)
Theorem glob_cache_transparent (size : Z) (calls : list (string * string * string)) :
  (st_map calls (λ '(p, t, s), Match_cached p t s) (SetCacheSize size)).1 =
  (λ '(p, t, s), glob_Match p t s) <$> calls.
Proof.
  generalize (cache_ok_New size). generalize (SetCacheSize size).
  induction calls as [|[[p t] s] l IH]; intros c Hc; [done|].
  destruct (Match_cached_spec p t s c Hc) as [H1 H2]. simpl.
  rewrite !st_bind_eval. cbn [fst snd mret st_ret]. by rewrite H1, IH.
Qed.

(** ** [MatchStringInList] *)

Definition EXACT : string := "exact".
Definition GLOB : string := "glob".
Definition REGEXP : string := "regexp".

(** [regex.Match]: a pattern that does not compile, or whose evaluation fails,
    matches nothing. *)
Definition regex_Match (pattern text : string) : bool :=
  match regex_compile pattern with
  | None => false
  | Some compiledRegex =>
      match regex_matchString compiledRegex text with None => false | Some regexMatch => regexMatch end
  end.

(** [ll[1:len(ll)-1]] of a string that has prefix and suffix ["/"]; Go panics
    on the one-byte string ["/"], whose bounds are [1:0]. *)
Definition unwrap_slashes (ll : string) : option string :=
  if Nat.leb 2 (String.length ll) then Some (String.substring 1 (String.length ll - 2) ll) else None.

(** [None] is the panic of the slice expression. *)
Fixpoint MatchStringInList (list : list string) (item patternMatch : string) : option bool :=
  match list with
  | [] => Some false
  | ll :: rest =>
      wrapped ← (if String.eqb patternMatch REGEXP && HasPrefix ll "/" && HasSuffix ll "/"
                 then (λ re, regex_Match re item) <$> unwrap_slashes ll
                 else Some false);
      if wrapped : bool then Some true
      else if (String.eqb patternMatch REGEXP || String.eqb patternMatch GLOB) && glob_Match ll item ""
      then Some true
      else if String.eqb patternMatch EXACT && String.eqb item ll then Some true
      else MatchStringInList rest item patternMatch
  end.

Lemma MatchStringInList_exact l item :
  MatchStringInList l item EXACT = Some (bool_decide (item ∈ l)).
Proof.
  induction l as [|ll l IH]; simpl; [done|].
  destruct (String.eqb_spec item ll) as [->|Hne].
  - f_equal. symmetry. apply bool_decide_eq_true. by left.
  - rewrite IH. f_equal. apply bool_decide_ext. rewrite elem_of_cons. naive_solver.
Qed.

(** A namespace list whose item is the single byte ["/"] panics in regular
    expression mode. *)
Lemma MatchStringInList_slash_panics l item : MatchStringInList ("/" :: l) item REGEXP = None.
Proof. done. Qed.
End glob.

(** ** A cache and a matcher that satisfy the interfaces *)

(** Entries from the most to the least recently used *)
Record lru_list (K V : Type) := { lru_max : Z; lru_entries : list (K * V) }.
Arguments lru_max {K V}. Arguments lru_entries {K V}.

Section lru_list.
Context {K V : Type} `{Countable K}.

Definition lru_without (k : K) (l : list (K * V)) : list (K * V) := filter (λ e, e.1 ≠ k) l.

Definition lru_list_get (k : K) (c : lru_list K V) : option V * lru_list K V :=
  match (list_to_map (lru_entries c) : gmap K V) !! k with
  | Some v => (Some v, {| lru_max := lru_max c; lru_entries := (k, v) :: lru_without k (lru_entries c) |})
  | None => (None, c)
  end.

Definition lru_list_add (k : K) (v : V) (c : lru_list K V) : lru_list K V :=
  let l := (k, v) :: lru_without k (lru_entries c) in
  {| lru_max := lru_max c;
     lru_entries := if Z.eqb (lru_max c) 0 then l else take (Z.to_nat (lru_max c)) l |}.

Lemma lru_without_map k (l : list (K * V)) :
  (list_to_map (lru_without k l) : gmap K V) = delete k (list_to_map l).
Proof.
  unfold lru_without. induction l as [|[k' v'] l IH]; [symmetry; apply delete_empty|].
  rewrite filter_cons. case_decide; simpl in *.
  - rewrite IH, delete_insert_ne by done. done.
  - destruct (decide (k' = k)) as [->|]; [|done]. by rewrite delete_insert_eq, IH.
Qed.

Lemma list_to_map_take n (l : list (K * V)) :
  (list_to_map (take n l) : gmap K V) ⊆ list_to_map l.
Proof.
  revert n; induction l as [|[k v] l IH]; intros [|n]; simpl; [done..|apply map_empty_subseteq|].
  by apply insert_mono.
Qed.

#[export] Program Instance lru_list_LRU : LRU K V := {|
  lru_t := lru_list K V;
  lru_New n := {| lru_max := n; lru_entries := [] |};
  lru_Get := lru_list_get;
  lru_Add := lru_list_add;
  lru_contents c := list_to_map (lru_entries c);
|}.
Next Obligation. done. Qed.
Next Obligation. intros k c. unfold lru_list_get. by destruct (_ !! k). Qed.
Next Obligation.
  intros k c. unfold lru_list_get. destruct (_ !! k) as [v|] eqn:E; [|done]. simpl.
  rewrite lru_without_map, insert_delete_eq. by apply insert_id.
Qed.
Next Obligation.
  intros k v c. unfold lru_list_add. simpl.
  assert ((list_to_map ((k, v) :: lru_without k (lru_entries c)) : gmap K V) =
    <[k:=v]> (list_to_map (lru_entries c))) as Heq.
  { simpl. by rewrite lru_without_map, insert_delete_eq. }
  case_match; [by rewrite Heq|]. rewrite <-Heq. apply list_to_map_take.
Qed.
End lru_list.

(** A cache of one entry, exact patterns: the second pattern evicts the first. *)
Definition exact_globs : GlobLib :=
  {| glob_t := string; glob_compile p _ := Some p; glob_match := String.eqb;
     regex_t := unit; regex_compile _ := None; regex_matchString _ _ := None |}.

Lemma glob_cache_witness :
  (st_map [("a", "a", ""); ("b", "a", "/"); ("a", "a", "")]
    (λ '(p, t, s), Match_cached (GL := exact_globs) (LR := lru_list_LRU) p t s)
    (SetCacheSize (GL := exact_globs) (LR := lru_list_LRU) 1)).1 = [true; false; true].
Proof. exact (glob_cache_transparent (GL := exact_globs) (LR := lru_list_LRU) 1 _). Defined.
