(* ===== verification/Windows.v ===== *)
(** * Sync windows (src/pkg/apis/application/v1alpha1/types.go)

    A project restricts when its applications may be synced by windows: a cron
    schedule says when a window opens and a duration how long it stays open.
    An open deny window blocks syncs; an allow window blocks them while it is
    closed, unless another allow window is open.

    The cron parser ([github.com/robfig/cron/v3]) is the interface [Cron], the
    time zone database and the clock of the machine the interface [Host].  The
    code reads the clock several times in one decision, so its functions run in
    a state monad whose state counts the readings.  Log output is left out. *)

From S2P Require Import Prelude GoStd GoTime AppTypes Glob.
Local Open Scope string_scope.
Local Open Scope list_scope.
Local Open Scope nat_scope.

(** ** Interfaces *)

(** [cron_Parse] is [Parser.Parse] of the five-field parser and [None] its
    error; [cron_Next s t] the next activation after the UTC instant [t], or the
    zero time when the library finds none. *)
Class Cron : Type := {
  schedule_t : Type;
  cron_Parse : string → option schedule_t;
  cron_Next : schedule_t → Z → Z;
}.

(** What the library documents of [Next]: the first activation strictly after
    the given time, or the zero time; the latter for a schedule no instant
    satisfies. *)
Class CronLaws `(Cron) : Type := {
  fires : schedule_t → Z → Prop;
  cron_Next_first s t : cron_Next s t ≠ 0%Z →
    (t < cron_Next s t)%Z ∧ fires s (cron_Next s t) ∧
    ∀ u, (t < u < cron_Next s t)%Z → ¬ fires s u;
  cron_Next_never s t : (∀ u, ¬ fires s u) → cron_Next s t = 0%Z;
}.

(** A location gives the offset from UTC in seconds at an instant; [clock i] is
    the [i]-th reading of the clock. *)
Class Host : Type := {
  LoadLocation : string → option (Z → Z);
  clock : nat → Z;
}.

(** ** Data *)

Record SyncWindow := {
  Kind : string;
  Schedule : string;
  Duration : string;
  Applications : list string;
  Namespaces : list string;
  Clusters : list string;
  ManualSync : bool;
  TimeZone : string;
  UseAndOperator : bool;
  Description : string;
  SyncOverrun : bool;
}.

(** [*SyncWindows]: a pointer that may be nil *)
Definition SyncWindows : Type := option (list SyncWindow).

Inductive window_error :=
  | ErrSchedule (schedule : string)
  | ErrDuration (duration : string)
  | ErrInvalidWindows (e : window_error)
  | ErrKind (kind : string)
  | ErrDescriptionLength
  | ErrCreateRequires
  | ErrUpdateRequires
  | ErrWindowNotFound (id : Z).

(** ** Operations *)

Section windows.
Context `{CR : Cron} `{HO : Host} `{GL : GlobLib}.

(** [time.Now] *)
Definition Now : ST nat Z := λ i, (clock i, S i).

Definition HasWindows (w : SyncWindows) : bool :=
  match w with None => false | Some l => Nat.ltb 0 (length l) end.

(** A nil pointer for an empty result, as the functions below return it *)
Definition nil_if_empty (l : list SyncWindow) : SyncWindows :=
  match l with [] => None | _ => Some l end.

Definition scheduleOffsetByTimeZone (w : SyncWindow) : ST nat Z :=
  loc ← (match LoadLocation (TimeZone w) with
         | Some loc => mret loc
         | None => _ ← Now; mret (λ _, 0%Z)
         end);
  now ← Now;
  mret (wrap64 (loc now * Second)).

(** [SyncWindow.active]; the loops of [SyncWindows.active] and
    [inactiveAllows] have the same body. *)
Definition SyncWindow_active (currentTime : Z) (w : SyncWindow) : ST nat (window_error + bool) :=
  match cron_Parse (Schedule w) with
  | None => mret (inl (ErrSchedule (Schedule w)))
  | Some schedule =>
      match ParseDuration (Duration w) with
      | None => mret (inl (ErrDuration (Duration w)))
      | Some duration =>
          timeZoneOffsetDuration ← scheduleOffsetByTimeZone w;
          let nextWindow := cron_Next schedule (currentTime + wrap64 (timeZoneOffsetDuration - duration))%Z in
          mret (inr (time_Before nextWindow (currentTime + timeZoneOffsetDuration)%Z))
      end
  end.

(** [SyncWindow.Active] *)
Definition SyncWindow_Active (w : SyncWindow) : ST nat (window_error + bool) :=
  now ← Now; SyncWindow_active now w.

(** The loop of [SyncWindows.active] *)
Fixpoint active_loop (currentTime : Z) (l active : list SyncWindow)
    : ST nat (window_error + list SyncWindow) :=
  match l with
  | [] => mret (inr active)
  | w :: rest =>
      r ← SyncWindow_active currentTime w;
      match r with
      | inl e => mret (inl e)
      | inr opened => active_loop currentTime rest (if opened : bool then active ++ [w] else active)
      end
  end.

Definition active_at (w : SyncWindows) (currentTime : Z) : ST nat (window_error + SyncWindows) :=
  match w with
  | Some l =>
      if HasWindows w then
        r ← active_loop currentTime l [];
        mret (match r with inl e => inl e | inr active => inr (nil_if_empty active) end)
      else mret (inr None)
  | None => mret (inr None)
  end.

(** [SyncWindows.Active] *)
Definition Active (w : SyncWindows) : ST nat (window_error + SyncWindows) :=
  now ← Now; active_at w now.

(** The loop of [inactiveAllows], which skips windows that are not allow windows *)
Fixpoint inactive_loop (currentTime : Z) (l inactive : list SyncWindow)
    : ST nat (window_error + list SyncWindow) :=
  match l with
  | [] => mret (inr inactive)
  | w :: rest =>
      if negb (String.eqb (Kind w) "allow") then inactive_loop currentTime rest inactive
      else
        r ← SyncWindow_active currentTime w;
        match r with
        | inl e => mret (inl e)
        | inr opened =>
            inactive_loop currentTime rest (if negb opened then inactive ++ [w] else inactive)
        end
  end.

Definition inactiveAllows_at (w : SyncWindows) (currentTime : Z)
    : ST nat (window_error + SyncWindows) :=
  match w with
  | Some l =>
      if HasWindows w then
        r ← inactive_loop currentTime l [];
        mret (match r with inl e => inl e | inr inactive => inr (nil_if_empty inactive) end)
      else mret (inr None)
  | None => mret (inr None)
  end.

(** [SyncWindows.InactiveAllows] *)
Definition InactiveAllows (w : SyncWindows) : ST nat (window_error + SyncWindows) :=
  now ← Now; inactiveAllows_at w now.

Definition elements (w : SyncWindows) : list SyncWindow := default [] w.

(** Whether a deny window is found, and whether all of them enable manual syncs *)
Definition hasDeny (w : SyncWindows) : bool * bool :=
  if negb (HasWindows w) then (false, false)
  else
    foldl (λ '(denyFound, manualEnabled) a,
      if String.eqb (Kind a) "deny" then
        (true, if negb denyFound then ManualSync a
               else if manualEnabled : bool then ManualSync a else manualEnabled)
      else (denyFound, manualEnabled)) (false, false) (elements w).

Definition hasAllow (w : SyncWindows) : bool :=
  if negb (HasWindows w) then false
  else existsb (λ a, String.eqb (Kind a) "allow") (elements w).

Definition manualEnabled (w : SyncWindows) : bool :=
  if negb (HasWindows w) then false else forallb ManualSync (elements w).

(** The loop of [denyAllowsOverrun] and [inactiveAllowsAllowOverrun]: false at
    the first window of the kind without overrun, else whether one was seen *)
Fixpoint overrun_loop (kind : string) (seen : bool) (l : list SyncWindow) : bool :=
  match l with
  | [] => seen
  | s :: rest =>
      if String.eqb (Kind s) kind then
        if negb (SyncOverrun s) then false else overrun_loop kind true rest
      else overrun_loop kind seen rest
  end.

Definition denyAllowsOverrun (w : SyncWindows) : bool :=
  if negb (HasWindows w) then false else overrun_loop "deny" false (elements w).

Definition inactiveAllowsAllowOverrun (w : SyncWindows) : bool :=
  if negb (HasWindows w) then false else overrun_loop "allow" false (elements w).

Definition canSyncAtTime (w : SyncWindows) (isManual : bool) (checkTime : Z)
    : ST nat (window_error + bool) :=
  if negb (HasWindows w) then mret (inr true)
  else
    a ← active_at w checkTime;
    match a with
    | inl e => mret (inl (ErrInvalidWindows e))
    | inr active =>
        let '(hasActiveDeny, manual) := hasDeny active in
        if hasActiveDeny then mret (inr (if isManual && manual then true else false))
        else if hasAllow active then mret (inr true)
        else
          ia ← inactiveAllows_at w checkTime;
          match ia with
          | inl e => mret (inl (ErrInvalidWindows e))
          | inr inactiveAllows =>
              if HasWindows inactiveAllows then
                mret (inr (if isManual && manualEnabled inactiveAllows then true else false))
              else mret (inr true)
          end
    end.

(** The overrun check of [CanSync]: the operation has a start time, the windows
    in the way let it overrun, and a sync was allowed when it started. *)
Definition overrun_check (w : SyncWindows) (isManual : bool) (operationStartTime : option Z)
    (overrun : bool) : ST nat (window_error + bool) :=
  match operationStartTime with
  | Some start =>
      if negb (time_IsZero start) && overrun then
        r ← canSyncAtTime w isManual start;
        mret (match r with
              | inl e => inl e
              | inr wasAllowed => inr (if wasAllowed : bool then true else false)
              end)
      else mret (inr false)
  | None => mret (inr false)
  end.

Definition CanSync (w : SyncWindows) (isManual : bool) (operationStartTime : option Z)
    : ST nat (window_error + bool) :=
  if negb (HasWindows w) then mret (inr true)
  else
    a ← Active w;
    match a with
    | inl e => mret (inl (ErrInvalidWindows e))
    | inr active =>
        let '(hasActiveDeny, manual) := hasDeny active in
        if hasActiveDeny then
          if isManual && manual then mret (inr true)
          else overrun_check w isManual operationStartTime (denyAllowsOverrun active)
        else if hasAllow active then mret (inr true)
        else
          ia ← InactiveAllows w;
          match ia with
          | inl e => mret (inl (ErrInvalidWindows e))
          | inr inactiveAllows =>
              if HasWindows inactiveAllows then
                if isManual && manualEnabled inactiveAllows then mret (inr true)
                else overrun_check w isManual operationStartTime
                       (inactiveAllowsAllowOverrun inactiveAllows)
              else mret (inr true)
          end
    end.

(** *** Selecting the windows of an application *)

Definition isDenyPattern (pattern : string) : bool := HasPrefix pattern "!".

Definition globMatch (pattern val : string) (allowNegation : bool) (separators : string) : bool :=
  if allowNegation && isDenyPattern pattern then
    negb (glob_Match (String.substring 1 (String.length pattern - 1) pattern) val separators)
  else if String.eqb pattern "*" then true
  else glob_Match pattern val separators.

Definition nonempty (l : list string) : bool := Nat.ltb 0 (length l).

(** The three selectors of a window *)
Definition application_selected (app : Application) (window : SyncWindow) : bool :=
  existsb (λ a, globMatch a (AppName app) false "") (Applications window).

Definition cluster_selected (app : Application) (window : SyncWindow) : bool :=
  let dst := Destination app in
  existsb (λ c,
    let dstNameMatched := negb (String.eqb (DestName dst) "") && globMatch c (DestName dst) false "" in
    let dstServerMatched := negb (String.eqb (Server dst) "") && globMatch c (Server dst) false "" in
    dstNameMatched || dstServerMatched) (Clusters window).

Definition namespace_selected (app : Application) (window : SyncWindow) : bool :=
  existsb (λ n, globMatch n (Namespace (Destination app)) false "") (Namespaces window).

(** The body of the loop of [Matches] for one window: whether it is kept *)
Definition window_matches (app : Application) (window : SyncWindow) : bool :=
  let '(matched, isSet) :=
    if nonempty (Applications window) then (application_selected app window, true) else (false, false) in
  if UseAndOperator window && negb matched && isSet then false
  else if negb (UseAndOperator window) && matched then true
  else
    let '(matched, isSet) :=
      if nonempty (Clusters window) then (cluster_selected app window, true) else (matched, isSet) in
    if isSet && UseAndOperator window && negb matched then false
    else if negb (UseAndOperator window) && matched then true
    else if nonempty (Namespaces window) then namespace_selected app window
    else matched.

Definition Matches (w : SyncWindows) (app : Application) : SyncWindows :=
  match w with
  | Some l => if HasWindows w then nil_if_empty (List.filter (window_matches app) l) else None
  | None => None
  end.

(** [syncWindowPreventsSync] of the controller: an error prevents the sync. *)
Definition syncWindowPreventsSync (app : Application) (projWindows : list SyncWindow)
    : ST nat (bool * option window_error) :=
  let window := Matches (Some projWindows) app in
  let isManual :=
    match app_OperationState app with Some st => negb (Automated st) | None => false end in
  let operationStartTime :=
    match app_OperationState app with
    | Some st => if time_IsZero (StartedAt st) then None else Some (StartedAt st)
    | None => None
    end in
  r ← CanSync window isManual operationStartTime;
  mret (match r with
        | inl err => (true, Some err)
        | inr canSync => (negb canSync, None)
        end).

(** *** Editing the windows of a project *)

Definition with_TimeZone (w : SyncWindow) (tz : string) : SyncWindow :=
  {| Kind := Kind w; Schedule := Schedule w; Duration := Duration w;
     Applications := Applications w; Namespaces := Namespaces w; Clusters := Clusters w;
     ManualSync := ManualSync w; TimeZone := tz; UseAndOperator := UseAndOperator w;
     Description := Description w; SyncOverrun := SyncOverrun w |}.

(** [Validate] also fills in the time zone, through its pointer receiver. *)
Definition Validate (w : SyncWindow) : SyncWindow * option window_error :=
  let w := if String.eqb (TimeZone w) "" then with_TimeZone w "UTC" else w in
  let w := match LoadLocation (TimeZone w) with None => with_TimeZone w "UTC" | Some _ => w end in
  if negb (String.eqb (Kind w) "allow") && negb (String.eqb (Kind w) "deny") then (w, Some (ErrKind (Kind w)))
  else if cron_Parse (Schedule w) is None then (w, Some (ErrSchedule (Schedule w)))
  else if ParseDuration (Duration w) is None then (w, Some (ErrDuration (Duration w)))
  else if Nat.ltb 255 (String.length (Description w)) then (w, Some ErrDescriptionLength)
  else (w, None).

Definition AddWindow (windows : list SyncWindow) (knd sch dur : string) (app ns cl : list string)
    (ms : bool) (timeZone : string) (andOperator : bool) (description : string) (syncOverrun : bool)
    : list SyncWindow * option window_error :=
  if String.eqb knd "" || String.eqb sch "" || String.eqb dur "" then (windows, Some ErrCreateRequires)
  else
    let window :=
      {| Kind := knd; Schedule := sch; Duration := dur;
         Applications := if nonempty app then app else [];
         Namespaces := if nonempty ns then ns else [];
         Clusters := if nonempty cl then cl else [];
         ManualSync := ms; TimeZone := timeZone; UseAndOperator := andOperator;
         Description := description; SyncOverrun := syncOverrun |} in
    match Validate window with
    | (_, Some err) => (windows, Some err)
    | (window, None) => (windows ++ [window], None)
    end.

Definition DeleteWindow (windows : list SyncWindow) (id : Z) : list SyncWindow * option window_error :=
  if Z.leb 0 id && Z.ltb id (Z.of_nat (length windows)) then
    (take (Z.to_nat id) windows ++ drop (S (Z.to_nat id)) windows, None)
  else (windows, Some (ErrWindowNotFound id)).

Definition Update (w : SyncWindow) (s d : string) (a n c : list string) (tz description : string)
    : SyncWindow * option window_error :=
  if String.eqb s "" && String.eqb d "" && negb (nonempty a) && negb (nonempty n) && negb (nonempty c)
     && String.eqb description "" then (w, Some ErrUpdateRequires)
  else
    ({| Kind := Kind w;
        Schedule := if negb (String.eqb s "") then s else Schedule w;
        Duration := if negb (String.eqb d "") then d else Duration w;
        Applications := if nonempty a then a else Applications w;
        Namespaces := if nonempty n then n else Namespaces w;
        Clusters := if nonempty c then c else Clusters w;
        ManualSync := ManualSync w;
        TimeZone := if String.eqb tz "" then "UTC" else tz;
        UseAndOperator := UseAndOperator w;
        Description := if negb (String.eqb description "") then description else Description w;
        SyncOverrun := SyncOverrun w |}, None).

(** ** When a window is open *)

(** The offset of the window's time zone at the instant [z] *)
Definition offset_at (w : SyncWindow) (z : Z) : Z :=
  match LoadLocation (TimeZone w) with Some loc => wrap64 (loc z * Second) | None => 0 end.

(** The test of [SyncWindow_active] at time [t], the offset taken at [z];
    [inl] for a window that does not parse *)
Definition open_at (z t : Z) (w : SyncWindow) : window_error + bool :=
  match cron_Parse (Schedule w) with
  | None => inl (ErrSchedule (Schedule w))
  | Some sch =>
      match ParseDuration (Duration w) with
      | None => inl (ErrDuration (Duration w))
      | Some d =>
          inr (time_Before (cron_Next sch (t + wrap64 (offset_at w z - d))) (t + offset_at w z))
      end
  end.

Definition is_open (z t : Z) (w : SyncWindow) : bool :=
  match open_at z t w with inr b => b | inl _ => false end.

(** The error of the first window that does not parse *)
Fixpoint first_error (l : list SyncWindow) : option window_error :=
  match l with
  | [] => None
  | w :: r => match open_at 0 0 w with inl e => Some e | inr _ => first_error r end
  end.

(** The clock advances, but not past an instant at which a window of [ws] opens
    or closes or its zone changes its offset. *)
Definition steady (now : Z) (ws : list SyncWindow) : Prop :=
  ∀ i w, w ∈ ws →
    offset_at w (clock i) = offset_at w now ∧ is_open now (clock i) w = is_open now now w.

(** ** What the windows promise *)

Definition is_kind (k : string) (w : SyncWindow) : bool := String.eqb (Kind w) k.

(** The windows in the way of a sync at time [t]: the open deny windows, and
    without them the allow windows if all of them are closed *)
Definition blockers (now : Z) (ws : list SyncWindow) (t : Z) : list SyncWindow :=
  let denies := List.filter (is_kind "deny") (List.filter (is_open now t) ws) in
  let allows := List.filter (is_kind "allow") ws in
  match denies with
  | _ :: _ => denies
  | [] => if existsb (is_open now t) allows then [] else allows
  end.

(** A sync is allowed at time [t] if every window in the way lets it pass, which
    a window does for a manual sync when it enables them. *)
Definition allowed_at (now : Z) (ws : list SyncWindow) (isManual : bool) (t : Z) : bool :=
  forallb (λ w, isManual && ManualSync w) (blockers now ws t).

(** Allowed now, or started when it was allowed and every window in the way
    lets it overrun *)
Definition may_sync (now : Z) (ws : list SyncWindow) (isManual : bool) (start : option Z) : bool :=
  allowed_at now ws isManual now ||
  match start with
  | Some t =>
      negb (time_IsZero t) && forallb SyncOverrun (blockers now ws now) && allowed_at now ws isManual t
  | None => false
  end.

(** ** Evaluating the loops *)

Lemma forallb_and_const {A} (b : bool) (f : A → bool) l :
  l ≠ [] → forallb (λ x, b && f x) l = b && forallb f l.
Proof.
  induction l as [|x [|y l] IH]; intros Hl; [done| |].
  - simpl. by destruct b, (f x).
  - cbn [forallb] in *. rewrite IH by done. destruct b, (f x); done.
Qed.

Definition offset_steady (now : Z) (w : SyncWindow) : Prop :=
  ∀ i, offset_at w (clock i) = offset_at w now.

Lemma scheduleOffset_eval now w i :
  offset_steady now w → (scheduleOffsetByTimeZone w i).1 = offset_at w now.
Proof.
  intros Hs. rewrite <-(Hs i). unfold scheduleOffsetByTimeZone, offset_at.
  by destruct (LoadLocation (TimeZone w)).
Qed.

Lemma SyncWindow_active_eval now t w i :
  offset_steady now w → (SyncWindow_active t w i).1 = open_at now t w.
Proof.
  intros Hs. unfold SyncWindow_active, open_at.
  destruct (cron_Parse _); [|done]. destruct (ParseDuration _); [|done].
  by rewrite st_bind_eval, (scheduleOffset_eval now) by done.
Qed.

(** Whether a window parses does not depend on the time. *)
Lemma open_at_error z t z' t' w e : open_at z t w = inl e → open_at z' t' w = inl e.
Proof. unfold open_at. by repeat case_match. Qed.

Lemma open_at_ok z t z' t' w b : open_at z t w = inr b → ∃ b', open_at z' t' w = inr b'.
Proof. unfold open_at. repeat case_match; naive_solver. Qed.

Lemma is_open_eq z t w b : open_at z t w = inr b → is_open z t w = b.
Proof. unfold is_open. by intros ->. Qed.

Lemma first_error_cons z t w l :
  first_error (w :: l) = match open_at z t w with inl e => Some e | inr _ => first_error l end.
Proof.
  simpl. destruct (open_at 0 0 w) as [e|b] eqn:E.
  - by rewrite (open_at_error _ _ z t _ _ E).
  - by destruct (open_at_ok _ _ z t _ _ E) as [b' ->].
Qed.

Lemma active_loop_eval now t l acc i :
  (∀ w, w ∈ l → offset_steady now w) →
  (active_loop t l acc i).1 =
    match first_error l with
    | Some e => inl e
    | None => inr (acc ++ List.filter (is_open now t) l)
    end.
Proof.
  revert acc i; induction l as [|w l IH]; intros acc i Hs.
  { simpl. by rewrite app_nil_r. }
  cbn [active_loop]. rewrite st_bind_eval, (SyncWindow_active_eval now) by (apply Hs; left).
  rewrite (first_error_cons now t). cbn [List.filter].
  destruct (open_at now t w) as [e|b] eqn:E; [done|].
  rewrite IH by (intros; apply Hs; by right). rewrite (is_open_eq _ _ _ _ E).
  destruct (first_error l); [done|]. destruct b; [|done]. by rewrite <-(assoc_L app).
Qed.

Lemma inactive_loop_eval now t l acc i :
  (∀ w, w ∈ l → offset_steady now w) → first_error l = None →
  (inactive_loop t l acc i).1 =
    inr (acc ++ List.filter (λ w, is_kind "allow" w && negb (is_open now t w)) l).
Proof.
  revert acc i; induction l as [|w l IH]; intros acc i Hs He.
  { simpl. by rewrite app_nil_r. }
  rewrite (first_error_cons now t) in He.
  destruct (open_at now t w) as [e|b] eqn:E; [done|].
  assert (∀ w', w' ∈ l → offset_steady now w') as Hs' by (intros; apply Hs; by right).
  cbn [inactive_loop List.filter]. unfold is_kind at 1.
  destruct (String.eqb (Kind w) "allow"); cbn [negb andb]; [|by apply IH].
  rewrite st_bind_eval, (SyncWindow_active_eval now), E by (apply Hs; left).
  rewrite IH by done. rewrite (is_open_eq _ _ _ _ E).
  destruct b; cbn [negb]; [done|]. by rewrite <-(assoc_L app).
Qed.

Lemma HasWindows_nil_if_empty l : HasWindows (nil_if_empty l) = negb (bool_decide (l = [])).
Proof. by destruct l. Qed.

Lemma active_at_eval now t l i :
  (∀ w, w ∈ l → offset_steady now w) →
  (active_at (Some l) t i).1 =
    match first_error l with
    | Some e => inl e
    | None => inr (nil_if_empty (List.filter (is_open now t) l))
    end.
Proof.
  intros Hs. destruct l as [|w l]; [done|]. unfold active_at. cbn [HasWindows length Nat.ltb Nat.leb].
  rewrite st_bind_eval, (active_loop_eval now) by done.
  destruct (first_error (w :: l)); done.
Qed.

Lemma inactiveAllows_at_eval now t l i :
  (∀ w, w ∈ l → offset_steady now w) → first_error l = None →
  (inactiveAllows_at (Some l) t i).1 =
    inr (nil_if_empty (List.filter (λ w, is_kind "allow" w && negb (is_open now t w)) l)).
Proof.
  intros Hs He. destruct l as [|w l]; [done|]. unfold inactiveAllows_at.
  cbn [HasWindows length Nat.ltb Nat.leb].
  by rewrite st_bind_eval, (inactive_loop_eval now) by done.
Qed.

Lemma hasDeny_eval l :
  hasDeny (nil_if_empty l) =
    match List.filter (is_kind "deny") l with
    | [] => (false, false)
    | ds => (true, forallb ManualSync ds)
    end.
Proof.
  unfold hasDeny. rewrite HasWindows_nil_if_empty.
  assert (elements (nil_if_empty l) = l) as -> by (by destruct l).
  set (f := λ '(d, m) a, _).
  assert (∀ k m, foldl f (true, m) k = (true, m && forallb ManualSync (List.filter (is_kind "deny") k))) as Ht.
  { clear. induction k as [|a k IH]; intros m; simpl; [by rewrite andb_true_r|].
    change (is_kind "deny" a) with (String.eqb (Kind a) "deny").
    destruct (String.eqb (Kind a) "deny"); rewrite IH; [|done]. simpl. by destruct m. }
  rewrite negb_involutive. case_bool_decide as Hl; [by subst|].
  clear Hl. induction l as [|a l IH]; [done|]. cbn [foldl List.filter].
  change (is_kind "deny" a) with (String.eqb (Kind a) "deny"). unfold f at 2.
  destruct (String.eqb (Kind a) "deny"); [by rewrite Ht|apply IH].
Qed.

Lemma hasAllow_eval l : hasAllow (nil_if_empty l) = existsb (is_kind "allow") l.
Proof. by destruct l. Qed.

Lemma manualEnabled_eval l : l ≠ [] → manualEnabled (nil_if_empty l) = forallb ManualSync l.
Proof. by destruct l. Qed.

Lemma overrun_loop_eval k seen l :
  overrun_loop k seen l =
    forallb SyncOverrun (List.filter (is_kind k) l) &&
    (seen || negb (bool_decide (List.filter (is_kind k) l = []))).
Proof.
  revert seen; induction l as [|a l IH]; intros seen; simpl; [by rewrite orb_false_r|].
  change (is_kind k a) with (String.eqb (Kind a) k). destruct (String.eqb (Kind a) k); [|apply IH].
  simpl. destruct (SyncOverrun a); simpl; [|done]. rewrite IH. by rewrite orb_true_r.
Qed.

Lemma overrun_eval k l :
  List.filter (is_kind k) l ≠ [] →
  (if negb (HasWindows (nil_if_empty l)) then false else overrun_loop k false (elements (nil_if_empty l))) =
  forallb SyncOverrun (List.filter (is_kind k) l).
Proof.
  intros Hne. rewrite HasWindows_nil_if_empty, negb_involutive.
  case_bool_decide as Hl; [by subst|].
  assert (elements (nil_if_empty l) = l) as -> by (by destruct l).
  rewrite overrun_loop_eval. rewrite bool_decide_eq_false_2 by done. by rewrite andb_true_r.
Qed.

(** An open allow window, found among the open windows or the allow windows *)
Lemma existsb_filter_swap {A} (f g : A → bool) l :
  existsb f (List.filter g l) = existsb g (List.filter f l).
Proof.
  induction l as [|a l IH]; simpl; [done|].
  destruct (g a) eqn:Hg, (f a) eqn:Hf; simpl; rewrite ?Hf, ?Hg, ?IH; done.
Qed.

Lemma filter_none_open now t l :
  existsb (is_open now t) (List.filter (is_kind "allow") l) = false →
  List.filter (λ w, is_kind "allow" w && negb (is_open now t w)) l = List.filter (is_kind "allow") l.
Proof.
  induction l as [|a l IH]; simpl; [done|]. destruct (is_kind "allow" a); simpl; [|done].
  intros [-> ?]%orb_false_iff. simpl. by rewrite IH.
Qed.

Lemma allow_kind_filter l :
  List.filter (is_kind "allow") (List.filter (is_kind "allow") l) = List.filter (is_kind "allow") l.
Proof. induction l as [|a l IH]; simpl; [done|]. destruct (is_kind "allow" a) eqn:E; simpl; by rewrite ?E, IH. Qed.

(** [canSyncAtTime] decides [allowed_at]. *)
Lemma canSyncAtTime_eval now l m t i :
  (∀ w, w ∈ l → offset_steady now w) →
  (canSyncAtTime (Some l) m t i).1 =
    match first_error l with
    | Some e => inl (ErrInvalidWindows e)
    | None => inr (allowed_at now l m t)
    end.
Proof.
  intros Hs. destruct l as [|w0 l0]; [done|]. set (l := w0 :: l0) in *.
  unfold canSyncAtTime. replace (HasWindows (Some l)) with true by done. cbn [negb].
  rewrite st_bind_eval, (active_at_eval now) by done.
  destruct (first_error l) as [e|] eqn:He; [done|]. clearbody l. clear w0 l0.
  rewrite hasDeny_eval. unfold allowed_at, blockers.
  destruct (List.filter (is_kind "deny") _) as [|d ds]; cbn [negb].
  2:{ rewrite forallb_and_const by done. by destruct m, (forallb _ _). }
  rewrite hasAllow_eval, existsb_filter_swap.
  destruct (existsb _ _) eqn:Ha; [done|].
  rewrite st_bind_eval, (inactiveAllows_at_eval now), filter_none_open, HasWindows_nil_if_empty by done.
  case_bool_decide as Hn; cbn [negb]; [by rewrite Hn|].
  rewrite manualEnabled_eval, forallb_and_const by done. by destruct m, (forallb _ _).
Qed.

Lemma overrun_check_eval now l m start o i :
  (∀ w, w ∈ l → offset_steady now w) → first_error l = None →
  (overrun_check (Some l) m start o i).1 =
    inr (match start with
         | Some t => negb (time_IsZero t) && o && allowed_at now l m t
         | None => false
         end).
Proof.
  intros Hs He. unfold overrun_check. destruct start as [t|]; [|done].
  destruct (negb (time_IsZero t) && o); [|done].
  rewrite st_bind_eval, (canSyncAtTime_eval now), He by done. by destruct (allowed_at now l m t).
Qed.

Lemma steady_offset now l : steady now l → ∀ w, w ∈ l → offset_steady now w.
Proof. intros Hs w Hw i. by apply Hs. Qed.

Lemma filter_steady now l i :
  steady now l → List.filter (is_open now (clock i)) l = List.filter (is_open now now) l.
Proof.
  intros Hs. induction l as [|a l IH]; simpl; [done|].
  destruct (Hs i a) as [_ ->]; [by left|]. rewrite IH; [done|]. intros j w Hw. apply Hs. by right.
Qed.

Lemma filter_inactive_steady now l i :
  steady now l →
  List.filter (λ w, is_kind "allow" w && negb (is_open now (clock i) w)) l =
  List.filter (λ w, is_kind "allow" w && negb (is_open now now w)) l.
Proof.
  intros Hs. induction l as [|a l IH]; simpl; [done|].
  destruct (Hs i a) as [_ ->]; [by left|]. rewrite IH; [done|]. intros j w Hw. apply Hs. by right.
Qed.

(** [CanSync] decides [may_sync]. *)
Lemma CanSync_eval now l m start i :
  steady now l →
  (CanSync (Some l) m start i).1 =
    match first_error l with
    | Some e => inl (ErrInvalidWindows e)
    | None => inr (may_sync now l m start)
    end.
Proof.
  intros Hst. pose proof (steady_offset _ _ Hst) as Hs.
  destruct l as [|w0 l0]; [by destruct start|]. set (l := w0 :: l0) in *.
  unfold CanSync. replace (HasWindows (Some l)) with true by done. cbn [negb].
  rewrite st_bind_eval. unfold Active. rewrite st_bind_eval, (active_at_eval now) by done.
  cbn [Now fst]. rewrite (filter_steady now) by done.
  destruct (first_error l) as [e|] eqn:He; [done|]. clearbody l. clear w0 l0.
  rewrite hasDeny_eval. unfold may_sync. unfold allowed_at at 1.
  destruct (List.filter (is_kind "deny") (List.filter (is_open now now) l)) as [|d ds] eqn:Hd.
  - rewrite hasAllow_eval, existsb_filter_swap.
    assert (blockers now l now = if existsb (is_open now now) (List.filter (is_kind "allow") l)
      then [] else List.filter (is_kind "allow") l) as -> by (unfold blockers; by rewrite Hd).
    destruct (existsb _ _) eqn:Ha; [done|].
    rewrite st_bind_eval. unfold InactiveAllows.
    rewrite st_bind_eval, (inactiveAllows_at_eval now) by done. cbn [Now fst].
    rewrite (filter_inactive_steady now), filter_none_open, HasWindows_nil_if_empty by done.
    case_bool_decide as Hn; cbn [negb]; [by rewrite Hn|].
    rewrite manualEnabled_eval, forallb_and_const by done.
    destruct (m && forallb ManualSync _); [done|]. rewrite (overrun_check_eval now) by done.
    unfold inactiveAllowsAllowOverrun. rewrite overrun_eval; rewrite allow_kind_filter; done.
  - assert (blockers now l now = d :: ds) as -> by (unfold blockers; by rewrite Hd).
    rewrite forallb_and_const by done. destruct (m && forallb ManualSync _); [done|].
    rewrite (overrun_check_eval now) by done. unfold denyAllowsOverrun.
    by rewrite overrun_eval, Hd by (rewrite Hd; done).
Qed.

(** ** Which windows apply to an application *)

(** Any selector for an OR window; for an AND window every configured selector,
    of which there must be one *)
Definition window_applies (app : Application) (w : SyncWindow) : bool :=
  if UseAndOperator w then
    (nonempty (Applications w) || nonempty (Clusters w) || nonempty (Namespaces w)) &&
    (negb (nonempty (Applications w)) || application_selected app w) &&
    (negb (nonempty (Clusters w)) || cluster_selected app w) &&
    (negb (nonempty (Namespaces w)) || namespace_selected app w)
  else application_selected app w || cluster_selected app w || namespace_selected app w.

Lemma window_matches_applies app w : window_matches app w = window_applies app w.
Proof.
  unfold window_matches, window_applies, application_selected, cluster_selected, namespace_selected.
  destruct (Applications w) as [|a la], (Clusters w) as [|c lc], (Namespaces w) as [|n ln], (UseAndOperator w);
    cbn [nonempty length Nat.ltb Nat.leb];
    repeat match goal with |- context [existsb ?f (?x :: ?l)] => destruct (existsb f (x :: l)) end; done.
Qed.

Lemma Matches_eval ws app :
  Matches (Some ws) app = nil_if_empty (List.filter (window_applies app) ws).
Proof.
  destruct ws as [|w ws]; [done|]. unfold Matches. cbn [HasWindows length Nat.ltb Nat.leb].
  f_equal. apply filter_ext. intros. apply window_matches_applies.
Qed.

(** The sync windows of a project guard the syncs of an application as they
    promise.  *)
Definition app_isManual (app : Application) : bool :=
  match app_OperationState app with Some st => negb (Automated st) | None => false end.

Definition app_start (app : Application) : option Z := StartedAt <$> app_OperationState app.

(** C37. While the clock does not pass an instant at which a window opens,
    closes or its zone changes, the controller's check computes the policy of
    the windows that apply to the application: a window that does not parse
    prevents the sync with its error; otherwise the sync proceeds exactly when
    every window in the way lets a manual sync pass, or the operation started at
    a time it was allowed and every window in the way lets it overrun. *)
Theorem syncWindowPreventsSync_correct now app ws i :
  let ms := List.filter (window_applies app) ws in
  steady now ms →
  (syncWindowPreventsSync app ws i).1 =
    match first_error ms with
    | Some e => (true, Some (ErrInvalidWindows e))
    | None => (negb (may_sync now ms (app_isManual app) (app_start app)), None)
    end.
Proof.
  intros ms Hs. unfold syncWindowPreventsSync. rewrite st_bind_eval, Matches_eval. fold ms.
  assert (∀ m start, (CanSync (nil_if_empty ms) m start i).1 = (CanSync (Some ms) m start i).1) as ->
    by (by destruct ms).
  rewrite (CanSync_eval now) by done. destruct (first_error ms); [done|].
  cbn [mret st_ret fst]. unfold app_isManual, app_start.
  destruct (app_OperationState app) as [st|]; [|done]. unfold may_sync. cbn [fmap option_fmap option_map].
  destruct (time_IsZero (StartedAt st)) eqn:E; [done|]. by rewrite E.
Qed.

(** A manual sync is never held back where an automated one would go
    through, at any two moments of the same decision. *)
Theorem manual_sync_at_least_automatic now ws start i j :
  steady now ws →
  (CanSync (Some ws) false start i).1 = inr true →
  (CanSync (Some ws) true start j).1 = inr true.
Proof.
  intros Hs. rewrite !(CanSync_eval now) by done. destruct (first_error ws); [done|].
  assert (∀ t, allowed_at now ws false t = true → allowed_at now ws true t = true) as Hmono.
  { intros t. unfold allowed_at. by destruct (blockers now ws t); simpl. }
  intros [= H]. f_equal. revert H. unfold may_sync. rewrite !orb_true_iff. intros [H|H]; [auto|].
  right. destruct start as [t|]; [|done]. rewrite !andb_true_iff in *. naive_solver.
Qed.

(** ** The times a window is open *)

Lemma SyncWindow_active_reading t w i :
  (SyncWindow_active t w i).1 = open_at (clock i) t w.
Proof.
  unfold SyncWindow_active, open_at, scheduleOffsetByTimeZone, offset_at.
  by repeat case_match.
Qed.

Section laws.
Context `{CL : !CronLaws CR}.

(** A window is open at [t] exactly when, in its time zone, its schedule
    fired within the duration before [t] (both ends excluded), or the schedule
    has no activation the cron library can find. *)
Theorem window_open_iff t w i sch d :
  let off := offset_at w (clock i) in
  cron_Parse (Schedule w) = Some sch → ParseDuration (Duration w) = Some d →
  in_int64 (off - d) → (0 < t + off)%Z →
  (SyncWindow_active t w i).1 = inr true ↔
    (∃ u, fires sch u ∧ (t + off - d < u < t + off)%Z) ∨ cron_Next sch (t + off - d) = 0%Z.
Proof.
  intros off Hsch Hd Hin Hpos. rewrite SyncWindow_active_reading. unfold open_at.
  rewrite Hsch, Hd. fold off. rewrite wrap64_id by done.
  replace (t + (off - d))%Z with (t + off - d)%Z by lia. unfold time_Before.
  split.
  - intros [= H%Z.ltb_lt]. destruct (decide (cron_Next sch (t + off - d) = 0%Z)) as [|Hn]; [by right|left].
    destruct (cron_Next_first _ _ Hn) as (?&?&_). eauto with lia.
  - intros [(u&Hu&Hr)|H0]; f_equal; apply Z.ltb_lt; [|lia].
    destruct (decide (cron_Next sch (t + off - d) = 0%Z)) as [|Hn]; [lia|].
    destruct (cron_Next_first _ _ Hn) as (?&?&Hleast).
    destruct (Z.lt_ge_cases (cron_Next sch (t + off - d)) (t + off)); [done|].
    exfalso. apply (Hleast u); [lia|done].
Qed.

(** A window whose schedule never fires, such as one for the thirtieth of
    February, is open all the time: a deny window of that schedule blocks every
    sync, although it should never start. *)
Theorem never_firing_window_open t w i sch d :
  cron_Parse (Schedule w) = Some sch → ParseDuration (Duration w) = Some d →
  (∀ u, ¬ fires sch u) → (0 < t + offset_at w (clock i))%Z →
  (SyncWindow_active t w i).1 = inr true.
Proof.
  intros Hsch Hd Hnever Hpos. rewrite SyncWindow_active_reading. unfold open_at.
  rewrite Hsch, Hd, cron_Next_never by done. unfold time_Before. f_equal. by apply Z.ltb_lt.
Qed.
End laws.

(** ** Edited windows *)

(** The window lists a project reaches from an empty one by the operations that
    succeed or fail *)
Inductive edited : list SyncWindow → Prop :=
  | edited_nil : edited []
  | edited_add ws knd sch dur app ns cl ms tz andOp descr overrun :
      edited ws → edited (AddWindow ws knd sch dur app ns cl ms tz andOp descr overrun).1
  | edited_delete ws id : edited ws → edited (DeleteWindow ws id).1.

(** What [Validate] establishes *)
Definition window_valid (w : SyncWindow) : Prop :=
  (Kind w = "allow" ∨ Kind w = "deny") ∧ is_Some (cron_Parse (Schedule w)) ∧
  is_Some (ParseDuration (Duration w)) ∧ String.length (Description w) ≤ 255.

Lemma Validate_ok w w' : Validate w = (w', None) → window_valid w'.
Proof.
  unfold Validate. set (w1 := if String.eqb (TimeZone w) "" then _ else _).
  set (w2 := match LoadLocation (TimeZone w1) with Some _ => _ | None => _ end). clearbody w2.
  destruct (negb (String.eqb (Kind w2) "allow") && _) eqn:Hk; [done|].
  destruct (cron_Parse (Schedule w2)) eqn:Hc; [|done].
  destruct (ParseDuration (Duration w2)) eqn:Hd; [|done].
  destruct (Nat.ltb 255 _) eqn:Hl; [done|]. intros [= <-]. unfold window_valid. rewrite Hc, Hd.
  apply Nat.ltb_ge in Hl. apply andb_false_iff in Hk. rewrite !negb_false_iff, !String.eqb_eq in Hk.
  eauto.
Qed.

Lemma AddWindow_cases ws knd sch dur app ns cl ms tz andOp descr overrun :
  let r := AddWindow ws knd sch dur app ns cl ms tz andOp descr overrun in
  (r.1 = ws ∧ r.2 ≠ None) ∨ (∃ w, r = (ws ++ [w], None) ∧ window_valid w).
Proof.
  cbv zeta. unfold AddWindow. case_match; [by left|]. cbv zeta.
  destruct (Validate _) as [w [e|]] eqn:E; [by left|]. right. exists w. split; [done|].
  by eapply Validate_ok.
Qed.

Lemma edited_valid ws : edited ws → Forall window_valid ws.
Proof.
  induction 1 as [|ws knd sch dur app ns cl ms tz andOp descr overrun _ IH|ws id _ IH]; [constructor|..].
  - destruct (AddWindow_cases ws knd sch dur app ns cl ms tz andOp descr overrun) as [[-> _]|(w&->&Hw)];
      [done|]. apply Forall_app; split; [done|by constructor].
  - unfold DeleteWindow. case_match; [|done]. apply Forall_app.
    split; [by apply Forall_take|by apply Forall_drop].
Qed.

Lemma window_valid_open z t w : window_valid w → ∃ b, open_at z t w = inr b.
Proof. intros (_&[sch Hs]&[d Hd]&_). unfold open_at. rewrite Hs, Hd. eauto. Qed.

Lemma active_loop_valid t l acc i :
  Forall window_valid l → ∃ r, (active_loop t l acc i).1 = inr r.
Proof.
  revert acc i; induction l as [|w l IH]; intros acc i; [by eexists|].
  intros [Hw Hl]%Forall_cons. cbn [active_loop]. rewrite st_bind_eval, SyncWindow_active_reading.
  destruct (window_valid_open (clock i) t w Hw) as [b ->]. by apply IH.
Qed.

Lemma inactive_loop_valid t l acc i :
  Forall window_valid l → ∃ r, (inactive_loop t l acc i).1 = inr r.
Proof.
  revert acc i; induction l as [|w l IH]; intros acc i; [by eexists|].
  intros [Hw Hl]%Forall_cons. cbn [inactive_loop]. case_match; [by apply IH|].
  rewrite st_bind_eval, SyncWindow_active_reading.
  destruct (window_valid_open (clock i) t w Hw) as [b ->]. by apply IH.
Qed.

Lemma active_at_valid l t i : Forall window_valid l → ∃ r, (active_at (Some l) t i).1 = inr r.
Proof.
  intros Hl. unfold active_at. case_match; [|by eexists]. rewrite st_bind_eval.
  destruct (active_loop_valid t l [] i Hl) as [r ->]. by eexists.
Qed.

Lemma inactiveAllows_at_valid l t i :
  Forall window_valid l → ∃ r, (inactiveAllows_at (Some l) t i).1 = inr r.
Proof.
  intros Hl. unfold inactiveAllows_at. case_match; [|by eexists]. rewrite st_bind_eval.
  destruct (inactive_loop_valid t l [] i Hl) as [r ->]. by eexists.
Qed.

Lemma canSyncAtTime_valid l m t i :
  Forall window_valid l → ∃ b, (canSyncAtTime (Some l) m t i).1 = inr b.
Proof.
  intros Hl. unfold canSyncAtTime. case_match; [by eexists|]. rewrite st_bind_eval.
  destruct (active_at_valid l t i Hl) as [a ->]. destruct (hasDeny a) as [[] man]; [by eexists|].
  case_match; [by eexists|]. rewrite st_bind_eval.
  destruct (inactiveAllows_at_valid l t (active_at (Some l) t i).2 Hl) as [ia ->].
  case_match; by eexists.
Qed.

Lemma overrun_check_valid l m start o i :
  Forall window_valid l → ∃ b, (overrun_check (Some l) m start o i).1 = inr b.
Proof.
  intros Hl. unfold overrun_check. destruct start as [t|]; [|by eexists].
  case_match; [|by eexists]. rewrite st_bind_eval.
  destruct (canSyncAtTime_valid l m t i Hl) as [b ->]. by eexists.
Qed.

(** Windows entered through [AddWindow] and [DeleteWindow] never make a sync
    decision fail, whatever the clock does: [CanSync] always answers. *)
Theorem edited_windows_decide ws isManual start i :
  edited ws → ∃ b, (CanSync (Some ws) isManual start i).1 = inr b.
Proof.
  intros Hl%edited_valid. unfold CanSync. case_match; [by eexists|].
  rewrite st_bind_eval. unfold Active at 1. rewrite st_bind_eval.
  destruct (active_at_valid ws (Now i).1 (Now i).2 Hl) as [a ->].
  destruct (hasDeny a) as [[] man].
  - case_match; [by eexists|]. by apply overrun_check_valid.
  - case_match; [by eexists|]. rewrite st_bind_eval. set (j := (Active (Some ws) i).2).
    unfold InactiveAllows at 1. rewrite st_bind_eval.
    destruct (inactiveAllows_at_valid ws (Now j).1 (Now j).2 Hl) as [ia ->].
    case_match; [|by eexists]. case_match; [by eexists|]. by apply overrun_check_valid.
Qed.

(** Deleting the window just added restores the list. *)
Lemma AddWindow_DeleteWindow ws knd sch dur app ns cl ms tz andOp descr overrun ws' :
  AddWindow ws knd sch dur app ns cl ms tz andOp descr overrun = (ws', None) →
  DeleteWindow ws' (Z.of_nat (length ws)) = (ws, None).
Proof.
  intros H. destruct (AddWindow_cases ws knd sch dur app ns cl ms tz andOp descr overrun)
    as [[_ Hn]|(w&Hr&_)]; rewrite H in *; [done|]. injection Hr as ->.
  unfold DeleteWindow. rewrite length_app, Nat2Z.id. simpl.
  rewrite (proj2 (Z.leb_le 0 _)), (proj2 (Z.ltb_lt _ _)) by lia. simpl.
  rewrite take_app_length, drop_ge, app_nil_r by (rewrite length_app; simpl; lia). done.
Qed.
End windows.

(** ** A nightly deny window

    A cron library that knows two schedules, a machine whose clock runs for a
    while from eleven in the evening of the first of January 2024, and a glob
    library for patterns without wildcards. *)
Module Sample.

Local Open Scope Z_scope.

(** Period and phase of the activations; [None] never fires. *)
Definition schedule : Type := option (positive * Z).

Definition next (s : schedule) (t : Z) : Z :=
  match s with Some (p, a) => a + ((t - a) / Zpos p + 1) * Zpos p | None => 0 end.

Definition nightly : schedule := Some (86400000000000%positive, 22 * Hour).

Definition parse (s : string) : option schedule :=
  if String.eqb s "0 22 * * *" then Some nightly
  else if String.eqb s "0 0 30 2 *" then Some None else None.

#[export] Instance cron : Cron :=
  {| schedule_t := schedule; cron_Parse := parse; cron_Next := next |}.

Definition activation (s : schedule) (t : Z) : Prop :=
  match s with Some (p, a) => (t - a) mod Zpos p = 0 | None => False end.

Lemma next_first (p : positive) a t :
  let n := a + ((t - a) / Zpos p + 1) * Zpos p in
  t < n ∧ (n - a) mod Zpos p = 0 ∧ ∀ u, t < u < n → (u - a) mod Zpos p ≠ 0.
Proof.
  intros n. pose proof (Z.div_mod (t - a) (Zpos p) ltac:(lia)).
  pose proof (Z.mod_pos_bound (t - a) (Zpos p) ltac:(lia)).
  split_and!; unfold n.
  - nia.
  - replace (a + ((t - a) / Zpos p + 1) * Zpos p - a) with (((t - a) / Zpos p + 1) * Zpos p) by lia.
    by apply Z_mod_mult.
  - intros u Hu Hm. apply Z.mod_divide in Hm as [q Hq]; [|lia].
    assert ((t - a) / Zpos p < q) by (apply Z.div_lt_upper_bound; lia). nia.
Qed.

#[export] Program Instance cron_laws : CronLaws cron := {| fires := activation |}.
Next Obligation. intros [[p a]|] t Hn; [apply (next_first p a t)|done]. Qed.
Next Obligation.
  intros [[p a]|] t Hn; [|done]. destruct (Hn a). simpl. by rewrite Z.sub_diag.
Qed.

Definition eleven_pm : Z := 738885 * 24 * Hour + 23 * Hour.

Definition locations (s : string) : option (Z → Z) :=
  if String.eqb s "" || String.eqb s "UTC" then Some (λ _, 0)
  else if String.eqb s "Europe/Berlin" then Some (λ _, 3600) else None.

#[export] Instance host : Host :=
  {| LoadLocation := locations; clock i := eleven_pm + 1000 * Z.of_nat (min i 16) |}.

#[export] Instance globs : GlobLib :=
  {| glob_t := string; glob_compile p _ := Some p; glob_match := String.eqb;
     regex_t := unit; regex_compile _ := None; regex_matchString _ _ := None |}.

(** Denies from ten to midnight, lets running syncs finish *)
Definition deny : SyncWindow :=
  {| Kind := "deny"; Schedule := "0 22 * * *"; Duration := "2h"; Applications := ["*"]; Namespaces := [];
     Clusters := []; ManualSync := true; TimeZone := "UTC"; UseAndOperator := false; Description := "";
     SyncOverrun := true |}.

(** A deny window for the thirtieth of February *)
Definition february : SyncWindow :=
  {| Kind := "deny"; Schedule := "0 0 30 2 *"; Duration := "1h"; Applications := ["*"]; Namespaces := [];
     Clusters := []; ManualSync := false; TimeZone := "UTC"; UseAndOperator := false; Description := "";
     SyncOverrun := false |}.

Definition app (start : Z) : Application :=
  {| AppName := "guestbook";
     Destination := {| Server := "https://cluster"; Namespace := "default"; DestName := "" |};
     app_OperationState := Some {| Automated := true; StartedAt := start |} |}.

(** Every reading of the clock is one of the first seventeen. *)
Definition steadyb (now : Z) (ws : list SyncWindow) : bool :=
  forallb (λ k, forallb (λ w,
    Z.eqb (offset_at w (clock k)) (offset_at w now) &&
    Bool.eqb (is_open now (clock k) w) (is_open now now w)) ws) (seq 0 17).

Lemma steadyb_sound now ws : steadyb now ws = true → steady now ws.
Proof.
  unfold steadyb. rewrite forallb_forall. intros H i w Hw.
  specialize (H (min i 16)). rewrite forallb_forall in H.
  assert (clock i = clock (min i 16)) as ->.
  { simpl. by rewrite <-Nat.min_assoc. }
  apply list_elem_of_In in Hw. specialize (H ltac:(apply in_seq; lia) w Hw).
  apply andb_true_iff in H as [?%Z.eqb_eq ?%Bool.eqb_prop]. done.
Qed.

(** Started at nine, the automated sync may finish; started at eleven it is
    held back. *)
Lemma syncWindowPreventsSync_witness :
  (syncWindowPreventsSync (app (eleven_pm - 2 * Hour)) [deny] 0%nat).1 = (false, None) ∧
  (syncWindowPreventsSync (app eleven_pm) [deny] 0%nat).1 = (true, None).
Proof.
  split.
  - rewrite (syncWindowPreventsSync_correct eleven_pm);
      [vm_compute; reflexivity|apply steadyb_sound; vm_compute; reflexivity].
  - rewrite (syncWindowPreventsSync_correct eleven_pm);
      [vm_compute; reflexivity|apply steadyb_sound; vm_compute; reflexivity].
Defined.

Lemma manual_sync_witness :
  (CanSync (Some [deny]) true (Some (eleven_pm - 2 * Hour)) 3%nat).1 = inr true.
Proof.
  apply (manual_sync_at_least_automatic eleven_pm [deny] (Some (eleven_pm - 2 * Hour)) 0%nat 3%nat).
  - apply steadyb_sound. vm_compute. reflexivity.
  - vm_compute. reflexivity.
Defined.

Lemma window_open_witness :
  (SyncWindow_active eleven_pm deny 0%nat).1 = inr true.
Proof.
  apply (window_open_iff (CR:=cron) (HO:=host) eleven_pm deny 0%nat nightly (2 * Hour)).
  - reflexivity.
  - vm_compute. reflexivity.
  - vm_compute. split; discriminate.
  - vm_compute. reflexivity.
  - left. exists (eleven_pm - Hour). split; [vm_compute; reflexivity|vm_compute; split; reflexivity].
Defined.

Lemma never_firing_witness :
  (SyncWindow_active eleven_pm february 0%nat).1 = inr true.
Proof.
  apply (never_firing_window_open (CR:=cron) (HO:=host) eleven_pm february 0%nat None Hour).
  - reflexivity.
  - vm_compute. reflexivity.
  - intros u Hu. exact Hu.
  - vm_compute. reflexivity.
Defined.

Lemma edited_windows_witness :
  ∃ b, (CanSync (Some (AddWindow [] "deny" "0 22 * * *" "2h" ["*"] [] [] true "" false "" true).1)
          false None 5%nat).1 = inr b.
Proof. apply (edited_windows_decide _ false None 5%nat). apply edited_add, edited_nil. Defined.
End Sample.
