(* ===== verification/Project.v ===== *)
(** * Projects (src/pkg/apis/application/v1alpha1/app_project_types.go)

    The destination and namespace rules of a project, its roles with their
    groups, and the tokens of its roles, which are kept both in the role (spec)
    and in a map by role name (status).  Methods with a value receiver that
    write through the slices and the map of the project change the caller's
    project, so they return the new project here. *)

From S2P Require Import Prelude GoStd AppTypes Glob Windows.
From Stdlib Require Import Ascii.
Local Open Scope string_scope.
Local Open Scope list_scope.
Local Open Scope nat_scope.

(** ** Data *)

Record JWTToken := { IssuedAt : Z; ExpiresAt : Z; ID : string }.

Record ProjectRole := {
  RoleName : string;
  RoleDescription : string;
  Policies : list string;
  JWTTokens : list JWTToken;
  Groups : list string;
}.

(** [metav1.GroupKind], and the same with a pattern for names *)
Record GroupKind := { GKGroup : string; GKKind : string }.
Record ClusterResourceRestrictionItem := { ItemGroup : string; ItemKind : string; ItemName : string }.

Record ApplicationDestinationServiceAccount := {
  AccountServer : string;
  AccountNamespace : string;
  DefaultServiceAccount : string;
}.

(** Whether the whitelist of namespaced kinds is nil makes a difference. *)
Record AppProject := {
  ProjName : string;
  Destinations : list ApplicationDestination;
  PermitOnlyProjectScopedClusters : bool;
  SourceNamespaces : list string;
  SourceRepos : list string;
  ClusterResourceWhitelist : list ClusterResourceRestrictionItem;
  ClusterResourceBlacklist : list ClusterResourceRestrictionItem;
  NamespaceResourceWhitelist : option (list GroupKind);
  NamespaceResourceBlacklist : list GroupKind;
  ProjSyncWindows : SyncWindows;
  DestinationServiceAccounts : list ApplicationDestinationServiceAccount;
  Roles : list ProjectRole;
  JWTTokensByRole : gmap string (list JWTToken);
}.

Inductive project_error :=
  | ErrRoleNotFound (role : string)
  | ErrTokenNotFound (role : string) (issuedAt : Z)
  | ErrTokenIDUsed (id : string)
  | ErrProjectClusters.

Definition set_Roles (p : AppProject) (rs : list ProjectRole) : AppProject :=
  {| ProjName := ProjName p; Destinations := Destinations p;
     PermitOnlyProjectScopedClusters := PermitOnlyProjectScopedClusters p;
     SourceNamespaces := SourceNamespaces p; SourceRepos := SourceRepos p;
     ClusterResourceWhitelist := ClusterResourceWhitelist p; ClusterResourceBlacklist := ClusterResourceBlacklist p;
     NamespaceResourceWhitelist := NamespaceResourceWhitelist p;
     NamespaceResourceBlacklist := NamespaceResourceBlacklist p; ProjSyncWindows := ProjSyncWindows p;
     DestinationServiceAccounts := DestinationServiceAccounts p;
     Roles := rs; JWTTokensByRole := JWTTokensByRole p |}.

Definition set_JWTTokensByRole (p : AppProject) (m : gmap string (list JWTToken)) : AppProject :=
  {| ProjName := ProjName p; Destinations := Destinations p;
     PermitOnlyProjectScopedClusters := PermitOnlyProjectScopedClusters p;
     SourceNamespaces := SourceNamespaces p; SourceRepos := SourceRepos p;
     ClusterResourceWhitelist := ClusterResourceWhitelist p; ClusterResourceBlacklist := ClusterResourceBlacklist p;
     NamespaceResourceWhitelist := NamespaceResourceWhitelist p;
     NamespaceResourceBlacklist := NamespaceResourceBlacklist p; ProjSyncWindows := ProjSyncWindows p;
     DestinationServiceAccounts := DestinationServiceAccounts p;
     Roles := Roles p; JWTTokensByRole := m |}.

Definition set_Groups (r : ProjectRole) (gs : list string) : ProjectRole :=
  {| RoleName := RoleName r; RoleDescription := RoleDescription r; Policies := Policies r;
     JWTTokens := JWTTokens r; Groups := gs |}.

Definition set_JWTTokens (r : ProjectRole) (ts : list JWTToken) : ProjectRole :=
  {| RoleName := RoleName r; RoleDescription := RoleDescription r; Policies := Policies r;
     JWTTokens := ts; Groups := Groups r |}.

(** ** Destinations *)

Section destinations.
Context `{GL : GlobLib}.

(** The tests of one destination rule *)
Definition name_matched (item dst : ApplicationDestination) : bool :=
  negb (String.eqb (DestName dst) "") && globMatch (DestName item) (DestName dst) true "".
Definition server_matched (item dst : ApplicationDestination) : bool :=
  negb (String.eqb (Server dst) "") && globMatch (Server item) (Server dst) true "".
Definition ns_matched (item dst : ApplicationDestination) : bool :=
  globMatch (Namespace item) (Namespace dst) true "".

(** The loop of [isDestinationMatched]; [&&] binds tighter than [||]. *)
Fixpoint destination_loop (dst : ApplicationDestination) (anyDestinationMatched : bool)
    (items : list ApplicationDestination) : bool :=
  match items with
  | [] => anyDestinationMatched
  | item :: rest =>
      let dstNameMatched := name_matched item dst in
      let dstServerMatched := server_matched item dst in
      let dstNamespaceMatched := ns_matched item dst in
      let matched := (dstServerMatched || dstNameMatched) && dstNamespaceMatched in
      if matched then destination_loop dst true rest
      else if (negb dstNameMatched && isDenyPattern (DestName item))
              || (negb dstServerMatched && isDenyPattern (Server item)) && dstNamespaceMatched then false
      else if negb dstNamespaceMatched && isDenyPattern (Namespace item) && dstServerMatched then false
      else destination_loop dst anyDestinationMatched rest
  end.

Definition isDestinationMatched (proj : AppProject) (dst : ApplicationDestination) : bool :=
  destination_loop dst false (Destinations proj).

(** [projectClusters] looks up the clusters of a project; [None] is its error. *)
Definition IsDestinationPermitted (proj : AppProject) (destCluster : option Cluster)
    (destNamespace : string) (projectClusters : string → option (list Cluster))
    : project_error + bool :=
  match destCluster with
  | None => inr false
  | Some c =>
      let dst := {| Server := ClusterServer c; Namespace := destNamespace; DestName := ClusterName c |} in
      let destinationMatched := isDestinationMatched proj dst in
      if destinationMatched && PermitOnlyProjectScopedClusters proj then
        match projectClusters (ProjName proj) with
        | None => inl ErrProjectClusters
        | Some clusters =>
            inr (existsb (λ cl, String.eqb (ClusterName cl) (DestName dst)
                             || String.eqb (ClusterServer cl) (Server dst)) clusters)
        end
      else inr destinationMatched
  end.

(** [IsAppNamespacePermitted]; [None] is the panic of [MatchStringInList]. *)
Definition IsAppNamespacePermitted (proj : AppProject) (appNamespace controllerNs : string) : option bool :=
  if String.eqb appNamespace "" || String.eqb appNamespace controllerNs then Some true
  else MatchStringInList (SourceNamespaces proj) appNamespace REGEXP.

(** *** What the rules promise *)

(** A rule permits a destination when its cluster, by server or by name, and
    its namespace match. *)
Definition rule_permits (dst item : ApplicationDestination) : bool :=
  (server_matched item dst || name_matched item dst) && ns_matched item dst.

(** A rule that does not permit a destination rejects it by a deny pattern for
    its name, by one for its server in a matching namespace, or by one for its
    namespace on a matching server. *)
Definition rule_rejects (dst item : ApplicationDestination) : bool :=
  negb (rule_permits dst item) &&
  (isDenyPattern (DestName item) && negb (name_matched item dst)
   || isDenyPattern (Server item) && negb (server_matched item dst) && ns_matched item dst
   || isDenyPattern (Namespace item) && negb (ns_matched item dst) && server_matched item dst).

Lemma destination_loop_eval dst any items :
  destination_loop dst any items =
    (any || existsb (rule_permits dst) items) && negb (existsb (rule_rejects dst) items).
Proof.
  revert any; induction items as [|item items IH]; intros any; [by destruct any|].
  cbn [destination_loop existsb]. rewrite !IH.
  generalize (existsb (rule_permits dst) items), (existsb (rule_rejects dst) items). intros b1 b2.
  unfold rule_rejects, rule_permits.
  destruct (server_matched item dst), (name_matched item dst), (ns_matched item dst),
    (isDenyPattern (DestName item)), (isDenyPattern (Server item)), (isDenyPattern (Namespace item)),
    any, b1, b2; done.
Qed.

Lemma existsb_perm {A} (f : A → bool) l l' : l ≡ₚ l' → existsb f l = existsb f l'.
Proof.
  induction 1 as [|x l l' _ IH|x y l|l1 l2 l3 _ IH1 _ IH2]; simpl; [done|by rewrite IH| |congruence].
  by destruct (f x), (f y).
Qed.

(** A destination is permitted exactly when the cluster is known, some rule
    permits it, no rule rejects it and, where the project asks for it, it is one
    of the project's clusters; the order of the rules does not matter. *)
Theorem IsDestinationPermitted_correct proj rules c ns clusters cls :
  Destinations proj ≡ₚ rules → clusters (ProjName proj) = Some cls →
  let dst := {| Server := ClusterServer c; Namespace := ns; DestName := ClusterName c |} in
  IsDestinationPermitted proj None ns clusters = inr false ∧
  (IsDestinationPermitted proj (Some c) ns clusters = inr true ↔
    (∃ r, r ∈ rules ∧ rule_permits dst r = true) ∧
    (∀ r, r ∈ rules → rule_rejects dst r = false) ∧
    (PermitOnlyProjectScopedClusters proj = true →
      ∃ cl, cl ∈ cls ∧ (ClusterName cl = ClusterName c ∨ ClusterServer cl = ClusterServer c))).
Proof.
  intros Hp Hc dst. split; [done|]. unfold IsDestinationPermitted, isDestinationMatched. fold dst.
  rewrite destination_loop_eval, orb_false_l, Hc.
  rewrite (existsb_perm (rule_permits dst) _ _ Hp), (existsb_perm (rule_rejects dst) _ _ Hp).
  assert (existsb (rule_permits dst) rules = true ↔ ∃ r, r ∈ rules ∧ rule_permits dst r = true) as <-.
  { rewrite existsb_exists. by setoid_rewrite list_elem_of_In. }
  assert (existsb (rule_rejects dst) rules = false ↔ ∀ r, r ∈ rules → rule_rejects dst r = false) as <-.
  { rewrite <-not_true_iff_false, existsb_exists. setoid_rewrite list_elem_of_In.
    setoid_rewrite <-not_true_iff_false. naive_solver. }
  assert (existsb (λ cl, String.eqb (ClusterName cl) (DestName dst)
      || String.eqb (ClusterServer cl) (Server dst)) cls = true ↔
    ∃ cl, cl ∈ cls ∧ (ClusterName cl = ClusterName c ∨ ClusterServer cl = ClusterServer c)) as <-.
  { rewrite existsb_exists. setoid_rewrite list_elem_of_In.
    by setoid_rewrite orb_true_iff; setoid_rewrite String.eqb_eq. }
  destruct (existsb (rule_permits dst) rules), (existsb (rule_rejects dst) rules),
    (PermitOnlyProjectScopedClusters proj), (existsb _ cls); simpl; intuition congruence.
Qed.
End destinations.

(** ** Roles and groups *)

Definition GetRoleByName (proj : AppProject) (name : string) : project_error + (ProjectRole * nat) :=
  match list_find (λ role, name = RoleName role) (Roles proj) with
  | Some (i, role) => inr (role, i)
  | None => inl (ErrRoleNotFound name)
  end.

Definition RoleGroupExists (role : ProjectRole) : bool := negb (Nat.eqb (length (Groups role)) 0).

Definition AddGroupToRole (proj : AppProject) (roleName group : string)
    : AppProject * (project_error + bool) :=
  match GetRoleByName proj roleName with
  | inl err => (proj, inl err)
  | inr (role, roleIndex) =>
      if bool_decide (group ∈ Groups role) then (proj, inr false)
      else (set_Roles proj (<[roleIndex := set_Groups role (Groups role ++ [group])]> (Roles proj)), inr true)
  end.

Definition RemoveGroupFromRole (proj : AppProject) (roleName group : string)
    : AppProject * (project_error + bool) :=
  match GetRoleByName proj roleName with
  | inl err => (proj, inl err)
  | inr (role, roleIndex) =>
      match list_find (λ roleGroup, group = roleGroup) (Groups role) with
      | Some (i, _) =>
          (set_Roles proj (<[roleIndex := set_Groups role (take i (Groups role) ++ drop (S i) (Groups role))]>
             (Roles proj)), inr true)
      | None => (proj, inr false)
      end
  end.

(** *** Policies *)

(** [strings.Trim(s, " ")] *)
Definition Trim_spaces (s : string) : string :=
  string_rev (trim_left [" "] (string_rev (trim_left [" "] s))).

Definition normalizePolicy (policy : string) : string :=
  foldl (λ normalizedPolicy component,
    if String.eqb normalizedPolicy "" then component
    else normalizedPolicy +:+ ", " +:+ Trim_spaces component) "" (Split policy ","%char).

Definition NormalizePolicies (proj : AppProject) : AppProject :=
  set_Roles proj ((λ role,
    {| RoleName := RoleName role; RoleDescription := RoleDescription role;
       Policies := normalizePolicy <$> Policies role;
       JWTTokens := JWTTokens role; Groups := Groups role |}) <$> Roles proj).

Definition ProjectPoliciesString (proj : AppProject) : string :=
  Join (role ← Roles proj;
    ("p, proj:" +:+ ProjName proj +:+ ":" +:+ RoleName role +:+ ", projects, get, " +:+ ProjName proj +:+ ", allow")
    :: Policies role ++
    ((λ groupName, "g, " +:+ groupName +:+ ", proj:" +:+ ProjName proj +:+ ":" +:+ RoleName role) <$> Groups role))
    (bytes [10]).

(** *** The subject of a token of a role (src/server/rbacpolicy) *)

Definition GetProjectRoleFromSubject (subject : string) : option (string * string) :=
  match Split subject ":"%char with
  | [p; name; role] => if String.eqb p "proj" then Some (name, role) else None
  | _ => None
  end.

(** ** Tokens *)

(** The search of [GetJWTToken] and [GetJWTTokenFromSpec] in a list of tokens:
    by id if one is given, then by the time of issue *)
Definition find_token (tokens : list JWTToken) (issuedAt : Z) (id : string) : option (nat * JWTToken) :=
  match (if negb (String.eqb id "") then list_find (λ token, id = ID token) tokens else None) with
  | Some r => Some r
  | None =>
      if negb (Z.eqb issuedAt (-1)) then list_find (λ token, issuedAt = IssuedAt token) tokens else None
  end.

(** [proj.Status.JWTTokensByRole[roleName].Items]: nil for a missing key *)
Definition status_tokens (proj : AppProject) (roleName : string) : list JWTToken :=
  default [] (JWTTokensByRole proj !! roleName).

Definition GetJWTTokenFromSpec (proj : AppProject) (roleName : string) (issuedAt : Z) (id : string)
    : project_error + (JWTToken * nat) :=
  match GetRoleByName proj roleName with
  | inl err => inl err
  | inr (role, _) =>
      match find_token (JWTTokens role) issuedAt id with
      | Some (i, token) => inr (token, i)
      | None => inl (ErrTokenNotFound (RoleName role) issuedAt)
      end
  end.

Definition GetJWTToken (proj : AppProject) (roleName : string) (issuedAt : Z) (id : string)
    : project_error + (JWTToken * nat) :=
  match find_token (status_tokens proj roleName) issuedAt id with
  | Some (i, token) => inr (token, i)
  | None => inl (ErrTokenNotFound roleName issuedAt)
  end.

(** [l[i] = l[len(l)-1]; l = l[:len(l)-1]], [None] for the panic of an index out
    of range *)
Definition swap_remove {A} (i : nat) (l : list A) : option (list A) :=
  match last l with
  | Some x => if Nat.ltb i (length l) then Some (take (length l - 1) (<[i:=x]> l)) else None
  | None => None
  end.

(** [RemoveJWTToken]; the outer [None] is a panic. *)
Definition RemoveJWTToken (proj : AppProject) (roleIndex : nat) (issuedAt : Z) (id : string)
    : option (AppProject * option project_error) :=
  role ← Roles proj !! roleIndex;
  let roleName := RoleName role in
  let r1 := GetJWTTokenFromSpec proj roleName issuedAt id in
  proj1 ← (match r1 with
           | inr (_, jwtTokenIndex) =>
               ts ← swap_remove jwtTokenIndex (JWTTokens role);
               Some (set_Roles proj (<[roleIndex := set_JWTTokens role ts]> (Roles proj)))
           | inl _ => Some proj
           end);
  let r2 := GetJWTToken proj1 roleName issuedAt id in
  proj2 ← (match r2 with
           | inr (_, jwtTokenIndex) =>
               ts ← swap_remove jwtTokenIndex (status_tokens proj1 roleName);
               Some (set_JWTTokensByRole proj1 (<[roleName := ts]> (JWTTokensByRole proj1)))
           | inl _ => Some proj1
           end);
  Some (proj2, match r1, r2 with
               | inl _, inl err2 => Some err2
               | _, _ => None
               end).

Definition ValidateJWTTokenID (proj : AppProject) (roleName id : string) : option project_error :=
  match GetRoleByName proj roleName with
  | inl err => Some err
  | inr (role, _) =>
      if String.eqb id "" then None
      else if existsb (λ token, String.eqb id (ID token)) (JWTTokens role) then Some (ErrTokenIDUsed id)
      else None
  end.

(** *** Facts *)

Lemma GetRoleByName_lookup proj k role :
  NoDup (RoleName <$> Roles proj) → Roles proj !! k = Some role →
  GetRoleByName proj (RoleName role) = inr (role, k).
Proof.
  intros Hnd Hk. unfold GetRoleByName.
  assert (list_find (λ r, RoleName role = RoleName r) (Roles proj) = Some (k, role)) as ->; [|done].
  apply list_find_Some. split_and!; [done|done|]. intros j r Hj Hjk Heq.
  assert (j = k); [|lia]. apply (NoDup_lookup _ j k (RoleName role) Hnd);
    rewrite list_lookup_fmap; [by rewrite Hj, Heq|by rewrite Hk].
Qed.

Lemma find_token_lookup l issuedAt id i t :
  find_token l issuedAt id = Some (i, t) →
  l !! i = Some t ∧ (ID t = id ∨ IssuedAt t = issuedAt).
Proof.
  unfold find_token. intros H.
  assert (list_find (λ token, id = ID token) l = Some (i, t) ∨
          list_find (λ token, issuedAt = IssuedAt token) l = Some (i, t)) as Hor.
  { repeat case_match; simplify_eq; auto. }
  destruct Hor as [(?&?&_)%list_find_Some|(?&?&_)%list_find_Some]; auto.
Qed.

Lemma find_token_none l issuedAt id :
  (∀ t, t ∈ l → ID t ≠ id ∧ IssuedAt t ≠ issuedAt) → find_token l issuedAt id = None.
Proof.
  intros H. unfold find_token.
  assert (list_find (λ token, id = ID token) l = None) as ->.
  { apply list_find_None, Forall_forall. intros t Ht ->. by destruct (H t Ht). }
  assert (list_find (λ token, issuedAt = IssuedAt token) l = None) as ->.
  { apply list_find_None, Forall_forall. intros t Ht ->. by destruct (H t Ht). }
  by destruct (negb _), (negb _).
Qed.

(** Identifiers and times of issue tell the tokens of a role apart. *)
Lemma find_token_self l t :
  NoDup (ID <$> l) → t ∈ l → ID t ≠ "" → ∃ i, find_token l (IssuedAt t) (ID t) = Some (i, t).
Proof.
  intros Hnd Ht Hne. unfold find_token. destruct (String.eqb_spec (ID t) ""); [done|]. simpl.
  destruct (list_find (λ token, ID t = ID token) l) as [[i u]|] eqn:E.
  - exists i. apply list_find_Some in E as (Hi & Heq & _). apply list_elem_of_lookup in Ht as [j Hj].
    assert (i = j) as ->.
    { apply (NoDup_lookup (ID <$> l) i j (ID t) Hnd); rewrite list_lookup_fmap; [by rewrite Hi, Heq|by rewrite Hj]. }
    by rewrite Hi in Hj; injection Hj as ->.
  - apply list_find_None in E. by destruct (proj1 (Forall_forall _ _) E t Ht).
Qed.

Lemma swap_remove_perm {A} i (l : list A) t :
  l !! i = Some t → ∃ ts, swap_remove i l = Some ts ∧ l ≡ₚ t :: ts.
Proof.
  intros Hi. pose proof (lookup_lt_Some _ _ _ Hi) as Hlt.
  destruct l as [|a l _] using rev_ind; [done|]. unfold swap_remove. rewrite last_snoc.
  rewrite (proj2 (Nat.ltb_lt _ _) Hlt). eexists; split; [done|].
  rewrite length_app in *. simpl in *. replace (length l + 1 - 1) with (length l) by lia.
  destruct (decide (i < length l)) as [Hil|Hil].
  - rewrite insert_app_l by done. rewrite take_app_le by (rewrite length_insert; lia).
    rewrite take_ge by (rewrite length_insert; lia).
    rewrite lookup_app_l in Hi by done.
    rewrite <-(take_drop_middle l i t Hi) at 1.
    rewrite insert_take_drop by done. rewrite <-!(assoc_L app). simpl.
    etrans; [symmetry; apply Permutation_middle|]. constructor.
    apply Permutation_app_head. apply (Permutation_app_comm _ [a]).
  - assert (i = length l) as -> by lia. rewrite list_lookup_middle in Hi by done. simplify_eq.
    rewrite insert_app_r_alt, Nat.sub_diag by lia. simpl. rewrite take_app_length.
    by rewrite Permutation_app_comm.
Qed.

(** What a removal leaves under the name of the role in the status *)
Lemma RemoveJWTToken_status proj k role issuedAt id proj' err :
  NoDup (RoleName <$> Roles proj) → Roles proj !! k = Some role →
  RemoveJWTToken proj k issuedAt id = Some (proj', err) →
  status_tokens proj (RoleName role) ≡ₚ
    option_list (snd <$> find_token (status_tokens proj (RoleName role)) issuedAt id) ++
    status_tokens proj' (RoleName role).
Proof.
  intros Hnd Hk. unfold RemoveJWTToken, GetJWTTokenFromSpec, GetJWTToken.
  rewrite Hk. cbn [mbind option_bind]. rewrite (GetRoleByName_lookup _ _ _ Hnd Hk).
  destruct (find_token (JWTTokens role) issuedAt id) as [[i t]|] eqn:E1.
  1: apply find_token_lookup in E1 as [Hi _]; apply swap_remove_perm in Hi as (ts&->&_).
  all: cbn [mbind option_bind];
    change (status_tokens (set_Roles _ _) (RoleName role)) with (status_tokens proj (RoleName role));
    destruct (find_token (status_tokens proj (RoleName role)) issuedAt id) as [[j u]|] eqn:E2.
  1,3: apply find_token_lookup in E2 as [Hj _]; apply swap_remove_perm in Hj as (us&->&Hq).
  all: cbn [mbind option_bind]; intros [= <- _]; try done.
  all: rewrite Hq; unfold status_tokens; simpl; by rewrite lookup_insert_eq.
Qed.

(** Adding a group and removing it again restores the project. *)
Lemma AddGroup_RemoveGroup proj roleName group proj' :
  AddGroupToRole proj roleName group = (proj', inr true) →
  RemoveGroupFromRole proj' roleName group = (proj, inr true).
Proof.
  unfold AddGroupToRole, RemoveGroupFromRole, GetRoleByName.
  destruct (list_find _ (Roles proj)) as [[k role]|] eqn:Ef; [|done].
  case_bool_decide as Hg; [done|]. intros [= <-]. simpl.
  apply list_find_Some in Ef as (Hk&->&Hfirst).
  set (role' := set_Groups role _).
  assert (list_find (λ r, RoleName role = RoleName r) (<[k:=role']> (Roles proj)) = Some (k, role')) as ->.
  { apply list_find_Some. split_and!; [|done|].
    - apply list_lookup_insert_eq. by eapply lookup_lt_Some.
    - intros j r Hj Hjk. rewrite list_lookup_insert_ne in Hj by lia. eauto. }
  assert (list_find (λ g, group = g) (Groups role') = Some (length (Groups role), group)) as ->.
  { apply list_find_Some. split_and!; [by apply list_lookup_middle|done|].
    intros j g Hj Hlt ->. apply Hg. simpl in Hj. rewrite lookup_app_l in Hj by done.
    by eapply list_elem_of_lookup_2. }
  simpl. rewrite take_app_length, drop_ge, app_nil_r by (rewrite length_app; simpl; lia).
  unfold set_Roles. simpl. rewrite list_insert_insert_eq. f_equal.
  rewrite list_insert_id; [by destruct proj|]. rewrite Hk. by destruct role.
Qed.

(** With distinct role names, as project validation requires, removing a
    token never panics: it takes the token found in the role and the one found
    under the role's name out of their lists, once each, keeps every other
    token, role and entry, and reports an error exactly when neither place has
    the token. *)
Theorem RemoveJWTToken_correct proj k role issuedAt id :
  NoDup (RoleName <$> Roles proj) → Roles proj !! k = Some role →
  let inSpec := snd <$> find_token (JWTTokens role) issuedAt id in
  let inStatus := snd <$> find_token (status_tokens proj (RoleName role)) issuedAt id in
  ∃ proj' err ts, RemoveJWTToken proj k issuedAt id = Some (proj', err) ∧
    Roles proj' = <[k := set_JWTTokens role ts]> (Roles proj) ∧
    JWTTokens role ≡ₚ option_list inSpec ++ ts ∧
    status_tokens proj (RoleName role) ≡ₚ option_list inStatus ++ status_tokens proj' (RoleName role) ∧
    (∀ n, n ≠ RoleName role → JWTTokensByRole proj' !! n = JWTTokensByRole proj !! n) ∧
    (err = None ↔ is_Some inSpec ∨ is_Some inStatus).
Proof.
  intros Hnd Hk inSpec inStatus. unfold RemoveJWTToken, GetJWTTokenFromSpec, GetJWTToken.
  rewrite Hk. cbn [mbind option_bind]. rewrite (GetRoleByName_lookup _ _ _ Hnd Hk).
  unfold inSpec. destruct (find_token (JWTTokens role) issuedAt id) as [[i t]|] eqn:E1.
  1: apply find_token_lookup in E1 as [Hi _]; apply swap_remove_perm in Hi as (ts&->&Hp).
  all: cbn [mbind option_bind]; unfold inStatus;
    change (status_tokens (set_Roles _ _) (RoleName role)) with (status_tokens proj (RoleName role));
    destruct (find_token (status_tokens proj (RoleName role)) issuedAt id) as [[j u]|] eqn:E2.
  1,3: apply find_token_lookup in E2 as [Hj _]; apply swap_remove_perm in Hj as (us&->&Hq).
  all: cbn [mbind option_bind].
  - eexists _, _, ts. split_and!; [done|done|done| |..].
    + unfold status_tokens at 2. simpl. by rewrite lookup_insert_eq.
    + intros n Hn. simpl. by rewrite lookup_insert_ne.
    + split; eauto.
  - eexists _, _, (JWTTokens role). split_and!; [done| |done| |..].
    + simpl. symmetry. apply list_insert_id. rewrite Hk. by destruct role.
    + unfold status_tokens at 2. simpl. by rewrite lookup_insert_eq.
    + intros n Hn. simpl. by rewrite lookup_insert_ne.
    + split; eauto.
  - eexists _, _, ts. split_and!; [done|done|done|done|done|]. split; eauto.
  - eexists _, _, (JWTTokens role). split_and!; [done| |done|done|done|].
    + symmetry. apply list_insert_id. rewrite Hk. by destruct role.
    + split; [done|]. by intros [[? [=]]|[? [=]]].
Qed.

(** ** A sample project *)
Module ProjSample.
#[local] Existing Instance Sample.globs.

Definition anywhere : ApplicationDestination := {| Server := "*"; Namespace := "*"; DestName := "*" |}.

(** Keeps the cluster [prod] out of the namespace [secure], by name and by server *)
Definition not_prod_by_name : ApplicationDestination :=
  {| Server := ""; Namespace := "secure"; DestName := "!prod" |}.
Definition not_prod_by_server : ApplicationDestination :=
  {| Server := "!https://prod"; Namespace := "secure"; DestName := "" |}.

Definition token (n : Z) (id : string) : JWTToken := {| IssuedAt := n; ExpiresAt := 0; ID := id |}.

Definition ci : ProjectRole :=
  {| RoleName := "ci"; RoleDescription := ""; Policies := [];
     JWTTokens := [token 10 "a"; token 20 "b"; token 30 "c"]; Groups := [] |}.

Definition proj (rules : list ApplicationDestination) : AppProject :=
  {| ProjName := "demo"; Destinations := rules; PermitOnlyProjectScopedClusters := false;
     SourceNamespaces := ["team-a"; "/"]; SourceRepos := ["*"]; ClusterResourceWhitelist := [];
     ClusterResourceBlacklist := []; NamespaceResourceWhitelist := None; NamespaceResourceBlacklist := [];
     ProjSyncWindows := None; DestinationServiceAccounts := []; Roles := [ci];
     JWTTokensByRole := {[ "ci" := [token 10 "a"; token 20 "b"] ]} |}.

Definition prod : Cluster :=
  {| ClusterPtr := 1; ClusterID := ""; ClusterServer := "https://prod"; ClusterName := "prod";
     ClusterShard := None; ClusterAnnotations := ∅ |}.

Lemma IsDestinationPermitted_witness :
  IsDestinationPermitted (proj [anywhere]) (Some prod) "default" (λ _, Some []) = inr true.
Proof.
  apply (IsDestinationPermitted_correct (proj [anywhere]) [anywhere] prod "default" (λ _, Some []) []).
  - reflexivity.
  - reflexivity.
  - split_and!.
    + exists anywhere. split; [constructor|reflexivity].
    + intros r Hr. apply list_elem_of_singleton in Hr. subst r. reflexivity.
    + intros H. discriminate H.
Defined.

(** The rule that names the server leaves other namespaces of the cluster alone;
    the same rule by name does not. *)
Lemma name_deny_ignores_namespace :
  isDestinationMatched (proj [anywhere; not_prod_by_server])
    {| Server := "https://prod"; Namespace := "default"; DestName := "prod" |} = true ∧
  isDestinationMatched (proj [anywhere; not_prod_by_name])
    {| Server := "https://prod"; Namespace := "default"; DestName := "prod" |} = false.
Proof. split; reflexivity. Qed.

(** An item ["/"] of the source namespaces makes the check panic. *)
Lemma slash_namespace_panics : IsAppNamespacePermitted (proj []) "team-b" "cd" = None.
Proof. reflexivity. Qed.

Lemma RemoveJWTToken_witness :
  ∃ proj' err ts, RemoveJWTToken (proj []) 0 20 "" = Some (proj', err) ∧
    Roles proj' = [set_JWTTokens ci ts] ∧ JWTTokens ci ≡ₚ token 20 "b" :: ts.
Proof.
  destruct (RemoveJWTToken_correct (proj []) 0 ci 20 "") as (proj'&err&ts&H1&H2&H3&_).
  - apply NoDup_singleton.
  - reflexivity.
  - exists proj', err, ts. split_and!; [exact H1|exact H2|exact H3].
Defined.
End ProjSample.
