(* ===== verification/ProjectRules.v ===== *)
(** * Projects: permitted resources and validation
    (src/pkg/apis/application/v1alpha1/app_project_types.go and types.go)

    Which kinds of resources and which sources a project permits, and
    [ValidateProject], which every request of the project server runs. *)

From S2P Require Import Prelude GoStd GoMatch AppTypes Glob Windows Project.
From Stdlib Require Import Ascii.
Local Open Scope string_scope.
Local Open Scope list_scope.
Local Open Scope nat_scope.

(** ** Permitted kinds *)

(** [filepath.Match], errors counting as no match *)
Definition matches (pattern name : string) : bool := default false (filepath_Match pattern name).

Definition isResourceInList (res : GroupKind) (l : list GroupKind) : bool :=
  existsb (λ item, matches (GKKind item) (GKKind res) && matches (GKGroup item) (GKGroup res)) l.

Definition isNamedResourceInList (res : GroupKind) (name : string) (l : list ClusterResourceRestrictionItem) : bool :=
  existsb (λ item, matches (ItemKind item) (GKKind res) && matches (ItemGroup item) (GKGroup res) &&
    (String.eqb (ItemName item) "" || matches (ItemName item) name)) l.

(** [len(l) != 0] *)
Definition filled {A} (l : list A) : bool := negb (Nat.eqb (length l) 0).

Definition IsGroupKindNamePermitted (proj : AppProject) (gk : GroupKind) (name : string) (namespaced : bool) : bool :=
  if namespaced then
    let isWhiteListed :=
      match NamespaceResourceWhitelist proj with None => true | Some l => filled l && isResourceInList gk l end in
    let l := NamespaceResourceBlacklist proj in
    isWhiteListed && negb (filled l && isResourceInList gk l)
  else
    let w := ClusterResourceWhitelist proj in let b := ClusterResourceBlacklist proj in
    (filled w && isNamedResourceInList gk name w) && negb (filled b && isNamedResourceInList gk name b).

Section permitted.
Context `{GL : GlobLib}.

Definition IsResourcePermitted (proj : AppProject) (groupKind : GroupKind) (name namespace : string)
    (destCluster : option Cluster) (projectClusters : string → option (list Cluster)) : project_error + bool :=
  if negb (IsGroupKindNamePermitted proj groupKind name (negb (String.eqb namespace ""))) then inr false
  else if negb (String.eqb namespace "") then IsDestinationPermitted proj destCluster namespace projectClusters
  else inr true.
End permitted.

(** ** Validation *)

Inductive project_invalid :=
  | InvalidDestination (d : ApplicationDestination)
  | DuplicateDestination (key : string)
  | DuplicateSourceNamespace (ns : string)
  | InvalidSourceRepo (src : string)
  | DuplicateSourceRepo (src : string)
  | DuplicateRole (role : string)
  | InvalidRoleName (role : string)
  | DuplicatePolicy (policy role : string)
  | InvalidPolicy (policy : string)
  | DuplicateGroup (group role : string)
  | InvalidGroup (group : string)
  | WindowHashFailed
  | DuplicateWindow (w : SyncWindow)
  | InvalidWindow (e : window_error)
  | WindowWithoutTarget (w : SyncWindow)
  | InvalidServiceAccount (a : ApplicationDestinationServiceAccount)
  | DuplicateServiceAccount (key : string).

(** The loops of [ValidateProject] over a list, with the keys seen so far: a test
    before and a test after the key is looked up; the latter may change the
    element. *)
Section check_loop.
Context {A K E : Type} `{Countable K}.
Variables (pre : A → option E) (key : A → K) (dup : A → E) (post : A → A * option E).

Fixpoint check_loop (seen : gset K) (l : list A) : list A * option E :=
  match l with
  | [] => ([], None)
  | a :: r =>
      match pre a with
      | Some e => (l, Some e)
      | None =>
          if decide (key a ∈ seen) then (l, Some (dup a))
          else
            match post a with
            | (a', Some e) => (a' :: r, Some e)
            | (a', None) => let '(r', e) := check_loop ({[key a]} ∪ seen) r in (a' :: r', e)
            end
      end
  end.

Lemma check_loop_seen seen l l' :
  check_loop seen l = (l', None) ↔
  (∀ a, a ∈ l → pre a = None ∧ (post a).2 = None ∧ key a ∉ seen) ∧ NoDup (key <$> l) ∧ l' = (λ a, (post a).1) <$> l.
Proof.
  revert seen l'. induction l as [|a r IH]; intros seen l'; cbn [check_loop].
  { split; [intros [= <-]|intros (_&_&->)]; [|done]. split; [by intros ? ?%elem_of_nil|]. split; [constructor|done]. }
  rewrite fmap_cons, NoDup_cons, list_elem_of_fmap.
  destruct (pre a) as [e|] eqn:Hp.
  { split; [done|]. intros [Ha _]. destruct (Ha a) as [? _]; [by left|congruence]. }
  destruct (decide (key a ∈ seen)) as [Hk|Hk].
  { split; [done|]. intros [Ha _]. by destruct (Ha a) as (_&_&?); [left|]. }
  destruct (post a) as [a' [e|]] eqn:Hq.
  { split; [done|]. intros [Ha _]. destruct (Ha a) as (_&H'&_); [by left|]. by rewrite Hq in H'. }
  destruct (check_loop ({[key a]} ∪ seen) r) as [r' e] eqn:Hr. split.
  - intros [= <- ->]. apply IH in Hr as (Ha&Hnd&->). split; [|split].
    + intros b [->|Hb]%elem_of_cons; [by rewrite Hq|]. destruct (Ha b Hb) as (?&?&?). split; [done|]. split; [done|set_solver].
    + split; [|done]. intros (b&Heq&Hb). destruct (Ha b Hb) as (_&_&?). set_solver.
    + rewrite fmap_cons. by rewrite Hq.
  - intros (Ha&(Hn&Hnd)&->). rewrite fmap_cons, Hq.
    assert (check_loop ({[key a]} ∪ seen) r = ((λ a, (post a).1) <$> r, None)) as Hr'; [|by rewrite Hr in Hr'; simplify_eq].
    apply IH. split; [|done]. intros b Hb. destruct (Ha b) as (?&?&?); [by right|].
    split; [done|]. split; [done|]. intros [Heq%elem_of_singleton|?]%elem_of_union; [|done]. apply Hn. eauto.
Qed.

Lemma check_loop_spec l l' :
  check_loop ∅ l = (l', None) ↔
  (∀ a, a ∈ l → pre a = None ∧ (post a).2 = None) ∧ NoDup (key <$> l) ∧ l' = (λ a, (post a).1) <$> l.
Proof.
  rewrite check_loop_seen. split; intros (Ha&?&?); (split; [|done]); intros a H'; destruct (Ha a H'); [naive_solver|].
  split; [done|]. split; [done|set_solver].
Qed.
End check_loop.

(** *** Destinations, namespaces, repositories *)

Definition dest_key (d : ApplicationDestination) : string :=
  if String.eqb (Server d) "" && negb (String.eqb (DestName d) "") then DestName d +:+ "/" +:+ Namespace d
  else Server d +:+ "/" +:+ Namespace d.

Definition dest_invalid (d : ApplicationDestination) : option project_invalid :=
  if String.eqb (DestName d) "!*" || String.eqb (Server d) "!*" || String.eqb (Namespace d) "!*"
  then Some (InvalidDestination d) else None.

(** No test *)
Definition no_test {A} (_ : A) : option project_invalid := None.
(** A test that leaves the element alone *)
Definition test {A} (f : A → option project_invalid) (a : A) : A * option project_invalid := (a, f a).

Definition validate_destinations (l : list ApplicationDestination) : option project_invalid :=
  (check_loop dest_invalid dest_key (λ d, DuplicateDestination (dest_key d)) (test no_test) ∅ l).2.

Definition validate_namespaces (l : list string) : option project_invalid :=
  (check_loop no_test id DuplicateSourceNamespace (test no_test) ∅ l).2.

Definition repo_invalid (src : string) : option project_invalid :=
  if String.eqb src "!*" then Some (InvalidSourceRepo src) else None.

Definition validate_repos (l : list string) : option project_invalid :=
  (check_loop repo_invalid id DuplicateSourceRepo (test no_test) ∅ l).2.

(** *** Roles *)

Definition alnum (c : ascii) : bool :=
  let n := nat_of_ascii c in
  (Nat.leb 97 n && Nat.leb n 122) || (Nat.leb 65 n && Nat.leb n 90) || (Nat.leb 48 n && Nat.leb n 57).

Definition role_char (c : ascii) : bool := alnum c || Ascii.eqb c "-" || Ascii.eqb c "_".

(** The last character of [c] followed by [s] *)
Fixpoint last_char (c : ascii) (s : string) : ascii :=
  match s with "" => c | String d r => last_char d r end.

(** [roleNameRegexp] *)
Definition role_name_match (name : string) : bool :=
  match name with
  | "" => false
  | String c r => alnum c && forall_chars role_char r && alnum (last_char c r)
  end.

Definition validateRoleName (name : string) : option project_invalid :=
  if role_name_match name then None else Some (InvalidRoleName name).

Definition validActions : list string := ["get"; "create"; "update"; "delete"; "sync"; "override"; "*"].

(** The patterns are not anchored, and [.*] matches the empty text. *)
Definition isValidAction (action : string) : bool :=
  existsb (String.eqb action) validActions || Contains action "action/" || Contains action "update/" ||
  Contains action "delete/".

Definition word_char (c : ascii) : bool := alnum c || Ascii.eqb c "_".
Definition object_char (c : ascii) : bool :=
  Ascii.eqb c "*" || word_char c || Ascii.eqb c "-" || Ascii.eqb c ".".
Definition object_part (s : string) : bool := negb (String.eqb s "") && forall_chars object_char s.

(** The regular expression: the project, then one or two parts after slashes *)
Definition isValidObject (proj object : string) : bool :=
  match CutPrefix proj object with
  | None => false
  | Some rest =>
      match Split rest "/" with
      | ["" ; a] => object_part a
      | ["" ; a; b] => object_part a && object_part b
      | _ => false
      end
  end.

(** [rbac.ProjectScoped] *)
Definition ProjectScoped : list string :=
  ["applications"; "applicationsets"; "logs"; "exec"; "clusters"; "repositories"].

Definition role_subject (proj role : string) : string := "proj:" +:+ proj +:+ ":" +:+ role.

Definition policy_valid (proj role policy : string) : bool :=
  match Trim_spaces <$> Split policy "," with
  | [p; subject; resource; action; object; effect] =>
      String.eqb p "p" && String.eqb subject (role_subject proj role) &&
      existsb (String.eqb resource) ProjectScoped && isValidAction action && isValidObject proj object &&
      (String.eqb effect "allow" || String.eqb effect "deny")
  | _ => false
  end.

(** The components are tested one after the other, each with its message. *)
Definition validatePolicy (proj role policy : string) : option project_invalid :=
  if policy_valid proj role policy then None else Some (InvalidPolicy policy).

(** Code points: every byte that does not continue one *)
Fixpoint rune_count (s : string) : nat :=
  match s with
  | "" => 0
  | String c r => (if Nat.leb 128 (nat_of_ascii c) && Nat.ltb (nat_of_ascii c) 192 then 0 else 1) + rune_count r
  end.

Definition starts_with_space (s : string) : bool := if cut_any space_encodings s is Some _ then true else false.
Definition ends_with_space (s : string) : bool :=
  if cut_any (string_rev <$> space_encodings) (string_rev s) is Some _ then true else false.

Definition double_quote : string := bytes [34].

(** [invalidChars] *)
Definition invalidChars : string := bytes [34; 10; 13; 9].

(** The name inside its quotes, or [None] if a name with a comma has none *)
Definition unquote_group (name : string) : option string :=
  if Nat.ltb 1 (String.length name) && HasPrefix name double_quote && HasSuffix name double_quote
  then Some (String.substring 1 (String.length name - 2) name)
  else if Contains name "," then None else Some name.

Definition group_valid (group : string) : bool :=
  match unquote_group (TrimSpace group) with
  | None => false
  | Some name =>
      negb (String.eqb name "") && negb (ContainsAny name invalidChars) &&
      negb (Nat.ltb 1 (rune_count group) && starts_with_space group) &&
      negb (Nat.ltb 1 (rune_count group) && ends_with_space group)
  end.

Definition validateGroupName (group : string) : option project_invalid :=
  if group_valid group then None else Some (InvalidGroup group).

Definition validate_policies (proj role : string) (l : list string) : option project_invalid :=
  (check_loop no_test id (λ p, DuplicatePolicy p role) (test (validatePolicy proj role)) ∅ l).2.

Definition validate_groups (role : string) (l : list string) : option project_invalid :=
  (check_loop no_test id (λ g, DuplicateGroup g role) (test validateGroupName) ∅ l).2.

(** The first error of a sequence of tests *)
Definition first_of (l : list (option project_invalid)) : option project_invalid :=
  foldr (λ x r, match x with Some e => Some e | None => r end) None l.

Definition validate_role (proj : string) (role : ProjectRole) : option project_invalid :=
  first_of [validateRoleName (RoleName role); validate_policies proj (RoleName role) (Policies role);
            validate_groups (RoleName role) (Groups role)].

Definition validate_roles (proj : string) (l : list ProjectRole) : option project_invalid :=
  (check_loop no_test RoleName (λ r, DuplicateRole (RoleName r)) (test (validate_role proj)) ∅ l).2.

(** *** Sync windows and service accounts *)

(** The hash of the binary encoding of a window (gob, xxhash); [None] is an encoding
    error. *)
Class WindowHash : Type := { gob_hash : SyncWindow → option Z }.

(** [ManualSync], [Description] and [SyncOverrun] are no part of the identity. *)
Definition identityWindow (w : SyncWindow) : SyncWindow :=
  {| Kind := Kind w; Schedule := Schedule w; Duration := Duration w; Applications := Applications w;
     Namespaces := Namespaces w; Clusters := Clusters w; ManualSync := false; TimeZone := TimeZone w;
     UseAndOperator := UseAndOperator w; Description := ""; SyncOverrun := false |}.

Definition serviceAccountDisallowedCharSet : string := "!*[]{}" +:+ bytes [92] +:+ "/".

Definition account_key (a : ApplicationDestinationServiceAccount) : string :=
  AccountServer a +:+ "/" +:+ AccountNamespace a.

Definition set_SyncWindows (p : AppProject) (w : SyncWindows) : AppProject :=
  {| ProjName := ProjName p; Destinations := Destinations p;
     PermitOnlyProjectScopedClusters := PermitOnlyProjectScopedClusters p;
     SourceNamespaces := SourceNamespaces p; SourceRepos := SourceRepos p;
     ClusterResourceWhitelist := ClusterResourceWhitelist p; ClusterResourceBlacklist := ClusterResourceBlacklist p;
     NamespaceResourceWhitelist := NamespaceResourceWhitelist p;
     NamespaceResourceBlacklist := NamespaceResourceBlacklist p; ProjSyncWindows := w;
     DestinationServiceAccounts := DestinationServiceAccounts p;
     Roles := Roles p; JWTTokensByRole := JWTTokensByRole p |}.

Section validate.
Context `{CR : Cron} `{HO : Host} `{GL : GlobLib} `{WH : WindowHash}.

Definition HashIdentity (w : SyncWindow) : option Z := gob_hash (identityWindow w).

Definition hash_invalid (w : SyncWindow) : option project_invalid :=
  match HashIdentity w with None => Some WindowHashFailed | Some _ => None end.

Definition without_target (w : SyncWindow) : bool :=
  Nat.eqb (length (Applications w)) 0 && Nat.eqb (length (Namespaces w)) 0 && Nat.eqb (length (Clusters w)) 0.

(** The window is hashed before [Validate] fills in its time zone. *)
Definition validate_window (w : SyncWindow) : SyncWindow * option project_invalid :=
  match Validate w with
  | (w', Some e) => (w', Some (InvalidWindow e))
  | (w', None) => (w', if without_target w' then Some (WindowWithoutTarget w') else None)
  end.

(** Nil windows, which are skipped, are left out. *)
Definition validate_windows (w : SyncWindows) : SyncWindows * option project_invalid :=
  match w with
  | Some l =>
      if HasWindows w then
        let '(l', e) := check_loop hash_invalid HashIdentity DuplicateWindow validate_window ∅ l in (Some l', e)
      else (w, None)
  | None => (None, None)
  end.

Definition compiles (pattern : string) : bool := if glob_compile pattern "" is Some _ then true else false.

Definition account_invalid (a : ApplicationDestinationServiceAccount) : option project_invalid :=
  if Contains (AccountServer a) "!" || Contains (AccountNamespace a) "!"
     || (String.eqb (Trim_spaces (DefaultServiceAccount a)) ""
         || ContainsAny (DefaultServiceAccount a) serviceAccountDisallowedCharSet)
     || negb (compiles (AccountServer a)) || negb (compiles (AccountNamespace a))
  then Some (InvalidServiceAccount a) else None.

Definition validate_accounts (l : list ApplicationDestinationServiceAccount) : option project_invalid :=
  (check_loop account_invalid account_key (λ a, DuplicateServiceAccount (account_key a)) (test no_test) ∅ l).2.

(** [ValidateProject]: the project, whose windows may have changed, and the error *)
Definition ValidateProject (proj : AppProject) : AppProject * option project_invalid :=
  match first_of [validate_destinations (Destinations proj); validate_namespaces (SourceNamespaces proj);
                  validate_repos (SourceRepos proj); validate_roles (ProjName proj) (Roles proj)] with
  | Some e => (proj, Some e)
  | None =>
      let '(ws, e) := validate_windows (ProjSyncWindows proj) in
      let proj := set_SyncWindows proj ws in
      match e with
      | Some e => (proj, Some e)
      | None => (proj, validate_accounts (DestinationServiceAccounts proj))
      end
  end.

(** *** What a valid project is *)

Record role_valid (proj : string) (r : ProjectRole) : Prop := {
  rv_name : role_name_match (RoleName r) = true;
  rv_policies_distinct : NoDup (Policies r);
  rv_policies : ∀ p, p ∈ Policies r → policy_valid proj (RoleName r) p = true;
  rv_groups_distinct : NoDup (Groups r);
  rv_groups : ∀ g, g ∈ Groups r → group_valid g = true;
}.

Record window_accepted (w : SyncWindow) : Prop := {
  wa_hash : is_Some (HashIdentity w);
  wa_valid : (Validate w).2 = None;
  wa_target : Applications w ≠ [] ∨ Namespaces w ≠ [] ∨ Clusters w ≠ [];
}.

Record account_valid (a : ApplicationDestinationServiceAccount) : Prop := {
  av_server : Contains (AccountServer a) "!" = false;
  av_namespace : Contains (AccountNamespace a) "!" = false;
  av_name : Trim_spaces (DefaultServiceAccount a) ≠ "";
  av_chars : ContainsAny (DefaultServiceAccount a) serviceAccountDisallowedCharSet = false;
  av_globs : is_Some (glob_compile (AccountServer a) "") ∧ is_Some (glob_compile (AccountNamespace a) "");
}.

Record project_valid (proj : AppProject) : Prop := {
  pv_destinations : ∀ d, d ∈ Destinations proj → DestName d ≠ "!*" ∧ Server d ≠ "!*" ∧ Namespace d ≠ "!*";
  pv_destinations_distinct : NoDup (dest_key <$> Destinations proj);
  pv_namespaces_distinct : NoDup (SourceNamespaces proj);
  pv_repos : "!*" ∉ SourceRepos proj;
  pv_repos_distinct : NoDup (SourceRepos proj);
  pv_roles_distinct : NoDup (RoleName <$> Roles proj);
  pv_roles : ∀ r, r ∈ Roles proj → role_valid (ProjName proj) r;
  pv_windows : ∀ w, w ∈ elements (ProjSyncWindows proj) → window_accepted w;
  pv_windows_distinct : NoDup (HashIdentity <$> elements (ProjSyncWindows proj));
  pv_accounts : ∀ a, a ∈ DestinationServiceAccounts proj → account_valid a;
  pv_accounts_distinct : NoDup (account_key <$> DestinationServiceAccounts proj);
}.

(** *** Facts *)

(** A loop without changes: what it accepts *)
Lemma check_test_spec {A K} `{Countable K} (pre : A → option project_invalid) (key : A → K) dup f (l : list A) :
  (check_loop pre key dup (test f) ∅ l).2 = None ↔
  (∀ a, a ∈ l → pre a = None ∧ f a = None) ∧ NoDup (key <$> l).
Proof.
  destruct (check_loop _ _ _ _ _ l) as [l' e] eqn:E. simpl. split.
  - intros ->. apply check_loop_spec in E as (Ha&Hn&_). done.
  - intros [Ha Hn]. assert (check_loop pre key dup (test f) ∅ l = ((λ a, (test f a).1) <$> l, None)) as Heq.
    { apply check_loop_spec. done. }
    by rewrite Heq in E; simplify_eq.
Qed.

Lemma first_of_None l : first_of l = None ↔ Forall (λ x, x = None) l.
Proof.
  induction l as [|[e|] l IH]; simpl; [by split|..]; rewrite Forall_cons; [by split; [|intros []]|].
  rewrite IH. naive_solver.
Qed.

Lemma validate_role_spec proj r : validate_role proj r = None ↔ role_valid proj r.
Proof.
  unfold validate_role. rewrite first_of_None, !Forall_cons.
  unfold validate_policies, validate_groups. rewrite !check_test_spec, !list_fmap_id.
  unfold validateRoleName, validatePolicy, validateGroupName.
  split.
  - intros (Hn&[Hp ?]&[Hg ?]&_). split; [by destruct (role_name_match _)|done| |done|].
    + intros p H'. apply Hp in H' as [_ H']. by destruct (policy_valid _ _ p).
    + intros g H'. apply Hg in H' as [_ H']. by destruct (group_valid g).
  - intros [Hn ? Hp ? Hg]. rewrite Hn. split; [done|]. split; [|split; [|constructor]];
      (split; [|done]); intros x H'; (split; [done|]); [by rewrite Hp|by rewrite Hg].
Qed.

Lemma without_target_spec w :
  without_target w = false ↔ Applications w ≠ [] ∨ Namespaces w ≠ [] ∨ Clusters w ≠ [].
Proof.
  unfold without_target. destruct (Applications w), (Namespaces w), (Clusters w); simpl; naive_solver.
Qed.

Lemma Validate_selectors w :
  Applications (Validate w).1 = Applications w ∧ Namespaces (Validate w).1 = Namespaces w ∧
  Clusters (Validate w).1 = Clusters w.
Proof. unfold Validate. repeat case_match; done. Qed.

Lemma validate_window_spec w : (validate_window w).2 = None ∧ hash_invalid w = None ↔ window_accepted w.
Proof.
  unfold validate_window, hash_invalid. pose proof (Validate_selectors w) as (H1&H2&H3).
  assert (without_target (Validate w).1 = without_target w) as Ht by (unfold without_target; by rewrite H1, H2, H3).
  pose proof (without_target_spec w) as Hw.
  destruct (Validate w) as [w' e] eqn:E. simpl in Ht. split.
  - intros [Hv Hh]. destruct e; [done|]. simpl in Hv. rewrite Ht in Hv.
    destruct (without_target w) eqn:Ew; [done|]. split; [by destruct (HashIdentity w)|by rewrite E|by apply Hw].
  - intros [[h Hh] Hv Htt]. rewrite E in Hv. simpl in Hv. subst e. simpl. rewrite Ht, Hh.
    apply Hw in Htt. by rewrite Htt.
Qed.

Lemma account_invalid_spec a : account_invalid a = None ↔ account_valid a.
Proof.
  assert (∀ p, compiles p = true ↔ is_Some (glob_compile p "")) as Hc.
  { intros p. unfold compiles. destruct (glob_compile p ""); [by split|]. by split; [|intros []]. }
  unfold account_invalid. split.
  - destruct (_ || _) eqn:E; [done|intros _]. rewrite !orb_false_iff, !negb_false_iff, String.eqb_neq, !Hc in E.
    destruct E as ((((H1&H2)&H3&H4)&H5)&H6). by split.
  - intros [-> -> Hn%String.eqb_neq -> [H5%Hc H6%Hc]]. by rewrite Hn, H5, H6.
Qed.

Lemma validate_windows_spec w ws :
  validate_windows w = (ws, None) ↔
  (∀ x, x ∈ elements w → window_accepted x) ∧ NoDup (HashIdentity <$> elements w) ∧
  ws = option_map (fmap (λ x, (Validate x).1)) w.
Proof.
  destruct w as [[|x l]|]; cbn [validate_windows elements default option_map].
  - split; [intros [= <-]|by intros (_&_&->)]. split; [by intros ? ?%elem_of_nil|]. split; [constructor|done].
  - set (l0 := x :: l). change (HasWindows (Some l0)) with true. cbn match.
    assert (∀ k : list SyncWindow, (λ y, (validate_window y).1) <$> k = (λ y, (Validate y).1) <$> k) as Hf.
    { intros k. apply list_fmap_ext. intros _ y _. unfold validate_window. by destruct (Validate y) as [? []]. }
    destruct (check_loop hash_invalid HashIdentity DuplicateWindow validate_window ∅ l0) as [l' e] eqn:E. split.
    + intros [= <- ->]. apply check_loop_spec in E as (Ha&Hn&->). split; [|split; [done|by rewrite Hf]].
      intros y Hy. apply validate_window_spec. by destruct (Ha y Hy).
    + intros (Ha&Hn&->).
      assert (check_loop hash_invalid HashIdentity DuplicateWindow validate_window ∅ l0 =
        ((λ y, (validate_window y).1) <$> l0, None)) as Heq.
      { apply check_loop_spec. split; [|done]. intros y Hy. by apply and_comm, validate_window_spec, Ha. }
      rewrite Heq in E. simplify_eq. by rewrite Hf.
  - split; [intros [= <-]|by intros (_&_&->)]. split; [by intros ? ?%elem_of_nil|]. split; [constructor|done].
Qed.

Lemma dest_invalid_spec d : dest_invalid d = None ↔ DestName d ≠ "!*" ∧ Server d ≠ "!*" ∧ Namespace d ≠ "!*".
Proof.
  unfold dest_invalid. destruct (String.eqb_spec (DestName d) "!*"), (String.eqb_spec (Server d) "!*"),
    (String.eqb_spec (Namespace d) "!*"); naive_solver.
Qed.

Lemma repo_invalid_spec src : repo_invalid src = None ↔ src ≠ "!*".
Proof. unfold repo_invalid. by destruct (String.eqb_spec src "!*"). Qed.

(** The tests that come before the windows *)
Definition static_checks (proj : AppProject) : option project_invalid :=
  first_of [validate_destinations (Destinations proj); validate_namespaces (SourceNamespaces proj);
            validate_repos (SourceRepos proj); validate_roles (ProjName proj) (Roles proj)].

Lemma static_checks_spec proj :
  static_checks proj = None ↔
  ((∀ d, d ∈ Destinations proj → DestName d ≠ "!*" ∧ Server d ≠ "!*" ∧ Namespace d ≠ "!*") ∧
    NoDup (dest_key <$> Destinations proj)) ∧
  NoDup (SourceNamespaces proj) ∧ ("!*" ∉ SourceRepos proj ∧ NoDup (SourceRepos proj)) ∧
  ((∀ r, r ∈ Roles proj → role_valid (ProjName proj) r) ∧ NoDup (RoleName <$> Roles proj)).
Proof.
  unfold static_checks, validate_destinations, validate_namespaces, validate_repos, validate_roles.
  rewrite first_of_None, !Forall_cons, !check_test_spec, !list_fmap_id.
  setoid_rewrite dest_invalid_spec. setoid_rewrite repo_invalid_spec. setoid_rewrite validate_role_spec.
  unfold no_test. split.
  - intros ([Hd ?]&[_ ?]&[Hr ?]&[Hro ?]&_).
    refine (conj (conj _ _) (conj _ (conj (conj _ _) (conj _ _)))); try done.
    + intros d [? _]%Hd. done.
    + by intros [? _]%Hr.
    + by intros r [_ ?]%Hro.
  - intros ([Hd ?]&?&[Hr ?]&[Hro ?]).
    refine (conj (conj _ _) (conj (conj _ _) (conj (conj _ _) (conj (conj _ _) _)))); try done; [|naive_solver..].
    intros d Hin. split; [by apply Hd|done].
Qed.

Lemma ValidateProject_spec proj proj' :
  ValidateProject proj = (proj', None) ↔
  project_valid proj ∧
  proj' = set_SyncWindows proj (option_map (fmap (λ w, (Validate w).1)) (ProjSyncWindows proj)).
Proof.
  unfold ValidateProject. fold (static_checks proj). pose proof (static_checks_spec proj) as Hs.
  pose proof (λ ws, validate_windows_spec (ProjSyncWindows proj) ws) as Hw. unfold validate_accounts.
  split.
  - destruct (static_checks proj); [done|]. destruct (proj1 Hs eq_refl) as ([]&?&[]&[]).
    destruct (validate_windows (ProjSyncWindows proj)) as [ws [e|]]; [done|].
    destruct (proj1 (Hw ws) eq_refl) as (?&?&->). intros [= <- [Ha ?]%check_test_spec].
    split; [|done]. split; try done. intros a Hin. apply account_invalid_spec. by apply Ha in Hin as [? _].
  - intros [[] ->]. rewrite (proj2 Hs) by done. rewrite (proj2 (Hw _)) by done.
    f_equal. apply check_test_spec. split; [|done]. intros a Hin. split; [|done]. by apply account_invalid_spec; auto.
Qed.

(** C38. [ValidateProject] accepts exactly the valid projects: no part of a destination
    and no source is the pattern [!*], destinations, namespaces, sources, role names,
    the policies and the groups of a role, windows and service accounts do not repeat,
    and each of them is well-formed; an accepted project changes only in the time
    zones of its windows. *)
Theorem ValidateProject_correct proj proj' :
  ValidateProject proj = (proj', None) ↔
  project_valid proj ∧
  proj' = set_SyncWindows proj (option_map (fmap (λ w, (Validate w).1)) (ProjSyncWindows proj)).
Proof. apply ValidateProject_spec. Qed.
End validate.
