(* ===== verification/ProjectTokens.v ===== *)
(** * Tokens of a project (app_project_types.go, src/server/project/project.go)

    The tokens of a role are kept twice, in the role and in the status of the
    project; [NormalizeJWTTokens] makes the two places agree.  The requests of the
    project server read the project, change it, and store it on the condition that
    nobody else stored it since. *)

From S2P Require Import Prelude GoStd AppTypes Glob Windows Project ProjectRules.
Local Open Scope string_scope.
Local Open Scope list_scope.
Local Open Scope nat_scope.

(** ** Normalization *)

#[export] Instance JWTToken_eq_dec : EqDecision JWTToken.
Proof. solve_decision. Defined.

(** The order of [sort.Slice]: the token issued last comes first. *)
Definition newer (a b : JWTToken) : bool := Z.ltb (IssuedAt b) (IssuedAt a).

(** [tokensMap]: of several tokens with one id the last *)
Definition tokens_by_id (tokens : list JWTToken) : gmap string JWTToken :=
  foldl (λ m token, <[ID token := token]> m) ∅ tokens.

(** Old tokens get their time of issue as id. *)
Definition lacks_id (token : JWTToken) : bool := String.eqb (ID token) "".
Definition fill_id (token : JWTToken) : JWTToken :=
  if lacks_id token
  then {| IssuedAt := IssuedAt token; ExpiresAt := ExpiresAt token; ID := pretty (IssuedAt token) |} else token.

Definition fill_ids (proj : AppProject) : AppProject :=
  set_JWTTokensByRole
    (set_Roles proj (map (λ role, set_JWTTokens role (map fill_id (JWTTokens role))) (Roles proj)))
    (map fill_id <$> JWTTokensByRole proj).

Section normalize.
Context {R : GoRuntime}.

Definition jwtTokensCombine (tokens1 tokens2 : list JWTToken) : list JWTToken :=
  go_sort newer (snd <$> go_range (tokens_by_id (tokens1 ++ tokens2))).

Definition needNormalize (proj : AppProject) : bool :=
  existsb (λ role, existsb lacks_id (JWTTokens role)) (Roles proj) ||
  existsb (λ e, existsb lacks_id e.2) (go_range (JWTTokensByRole proj)).

(** One turn of the loop of [syncJWTTokenBetweenStatusAndSpec]: the combined tokens
    are compared with the sorted ones of each place. *)
Definition sync_role (role : ProjectRole) (status : gmap string (list JWTToken)) : list JWTToken * bool :=
  let tokensInSpec := JWTTokens role in
  let tokensInStatus := default [] (status !! RoleName role) in
  let tokens := jwtTokensCombine tokensInStatus tokensInSpec in
  (tokens, bool_decide (tokens ≠ go_sort newer tokensInSpec) || bool_decide (tokens ≠ go_sort newer tokensInStatus)).

Fixpoint sync_roles (roles : list ProjectRole) (status : gmap string (list JWTToken))
    : list ProjectRole * gmap string (list JWTToken) * bool :=
  match roles with
  | [] => ([], status, false)
  | role :: rest =>
      let '(tokens, differs) := sync_role role status in
      let '(rest', status', needSync) := sync_roles rest (<[RoleName role := tokens]> status) in
      (set_JWTTokens role tokens :: rest', status', differs || needSync)
  end.

(** Tokens of roles that do not exist are dropped. *)
Definition syncJWTTokenBetweenStatusAndSpec (proj : AppProject) : AppProject * bool :=
  let '(roles, status, needSync) := sync_roles (Roles proj) (JWTTokensByRole proj) in
  let kept := filter (λ e, e.1 ∈ RoleName <$> Roles proj) status in
  (set_JWTTokensByRole (set_Roles proj roles) kept, needSync || bool_decide (kept ≠ status)).

(** The slices that the two places share afterwards are not written through again. *)
Definition NormalizeJWTTokens (proj : AppProject) : AppProject * bool :=
  let '(proj', needSync) := syncJWTTokenBetweenStatusAndSpec (fill_ids proj) in
  (proj', needNormalize proj || needSync).
End normalize.

(** ** Requests *)

(** The claims of a token as far as they are stored *)
Record registered := { reg_iat : option Z; reg_exp : option Z; reg_jti : string; reg_sub : string }.

(** The JWT library: signing may fail; parsing without verification gives the signed
    claims back. *)
Class JWTLib : Type := {
  jwt_sign : registered → option string;
  jwt_parse : string → option registered;
  jwt_parse_sign c s : jwt_sign c = Some s → jwt_parse s = Some c;
}.

Definition Second : Z := 1000000000.

(** [SessionManager.Create] at the time [now], in nanoseconds; a [time.Duration] wraps. *)
Definition session_claims (now : Z) (subject : string) (secondsBeforeExpiry : Z) (id : string) : registered :=
  {| reg_iat := Some (now / Second)%Z;
     reg_exp := if Z.ltb 0 secondsBeforeExpiry
                then Some ((now + wrap64 (secondsBeforeExpiry * Second)) / Second)%Z else None;
     reg_jti := id; reg_sub := subject |}.

(** Who asks: [EnforceErr] for updates of the project, and the groups of the claims *)
Record caller := { may_update : bool; in_groups : list string → bool }.

Inductive token_error :=
  | EInvalidProject (e : project_invalid)
  | EPolicySyntax
  | ENotFound (role : string)
  | EDenied
  | ETokenID (e : project_error)
  | ESign
  | EPanic.

Inductive request :=
  | CreateToken (role id uuid : string) (expiresIn now : Z) (who : caller)
  | DeleteToken (role : string) (iat : Z) (id : string) (who : caller)
  | UpdateProject (proj : AppProject)
  | CreateProject (proj : AppProject) (upsert : bool)
  | NormalizeProject.

Section server.
Context {R : GoRuntime} `{CR : Cron} `{HO : Host} `{GL : GlobLib} `{WH : WindowHash} `{JW : JWTLib}.
(** [rbac.ValidatePolicy] *)
Variable policy_ok : string → bool.

Definition validateProject (proj : AppProject) : AppProject * option token_error :=
  match ValidateProject proj with
  | (proj, Some e) => (proj, Some (EInvalidProject e))
  | (proj, None) => (proj, if policy_ok (ProjectPoliciesString proj) then None else Some EPolicySyntax)
  end.

Definition allowed (who : caller) (role : ProjectRole) : bool := may_update who || in_groups who (Groups role).

(** The new token at the end of the tokens of the role *)
Definition append_token (proj : AppProject) (role : string) (token : JWTToken) : AppProject :=
  let items := status_tokens proj role ++ [token] in
  match JWTTokensByRole proj !! role with
  | Some _ => set_JWTTokensByRole proj (<[role := items]> (JWTTokensByRole proj))
  | None => set_JWTTokensByRole proj {[role := items]}
  end.

(** [createToken]: the project to store and the token *)
Definition createToken (prj : AppProject) (q_Role q_Id uuid : string) (expiresIn now : Z) (who : caller)
    : token_error + AppProject * string :=
  match validateProject prj with
  | (_, Some e) => inl e
  | (prj, None) =>
      match GetRoleByName prj q_Role with
      | inl _ => inl (ENotFound q_Role)
      | inr (role, _) =>
          if negb (allowed who role) then inl EDenied
          else
            match ValidateJWTTokenID prj q_Role q_Id with
            | Some e => inl (ETokenID e)
            | None =>
                let id := if String.eqb q_Id "" then uuid else q_Id in
                match jwt_sign (session_claims now (role_subject (ProjName prj) q_Role) expiresIn id) with
                | None => inl ESign
                | Some jwtToken =>
                    match jwt_parse jwtToken with
                    | None => inl ESign
                    | Some claims =>
                        let token := {| IssuedAt := default 0%Z (reg_iat claims);
                                        ExpiresAt := default 0%Z (reg_exp claims); ID := reg_jti claims |} in
                        let prj := (NormalizeJWTTokens prj).1 in
                        inr ((NormalizeJWTTokens (append_token prj q_Role token)).1, jwtToken)
                    end
                end
            end
      end
  end.

(** [deleteToken]; [None] when there is nothing to store. *)
Definition deleteToken (prj : AppProject) (q_Role : string) (q_Iat : Z) (q_Id : string) (who : caller)
    : token_error + option AppProject :=
  match validateProject prj with
  | (_, Some e) => inl e
  | (prj, None) =>
      match GetRoleByName prj q_Role with
      | inl _ => inr None
      | inr (role, roleIndex) =>
          if negb (allowed who role) then inl EDenied
          else
            match RemoveJWTToken prj roleIndex q_Iat q_Id with
            | None => inl EPanic
            | Some (_, Some _) => inr None
            | Some (prj, None) => inr (Some prj)
            end
      end
  end.

(** The part of [Update] that computes what is stored; the checks of permissions and
    of the applications of the project come after it and may only refuse. *)
Definition updateProject (proj : AppProject) : token_error + AppProject :=
  match validateProject (NormalizeJWTTokens (NormalizePolicies proj)).1 with
  | (_, Some e) => inl e
  | (proj, None) => inr proj
  end.

(** [Create] for a project that exists: with [upsert] the given specification replaces the
    stored one, and the status, with its tokens, stays; the tokens are not normalized.
    Without it nothing is stored. *)
Definition createProject (existing proj : AppProject) (upsert : bool) : token_error + option AppProject :=
  match validateProject (NormalizePolicies proj) with
  | (_, Some e) => inl e
  | (proj, None) => inr (if upsert then Some (set_JWTTokensByRole proj (JWTTokensByRole existing)) else None)
  end.

(** What a request that read [prj] wants to store *)
Definition handle (prj : AppProject) (q : request) : option AppProject :=
  match q with
  | CreateToken role id uuid expiresIn now who =>
      match createToken prj role id uuid expiresIn now who with inr (p, _) => Some p | inl _ => None end
  | DeleteToken role iat id who => match deleteToken prj role iat id who with inr p => p | inl _ => None end
  | UpdateProject p => match updateProject p with inr p => Some p | inl _ => None end
  | CreateProject p upsert => match createProject prj p upsert with inr p => p | inl _ => None end
  | NormalizeProject => match NormalizeJWTTokens prj with (p, true) => Some p | (_, false) => None end
  end.
End server.

(** The stored project, which counts its versions, and the requests under way with the
    version and the project that they read *)
Record server_state := {
  version : nat;
  stored : AppProject;
  pending : list (nat * AppProject * request);
}.

(** A role of the project has a token with the id, in one place or the other. *)
Definition has_token (p : AppProject) (role id : string) : Prop :=
  (∃ r, r ∈ Roles p ∧ RoleName r = role ∧ id ∈ ID <$> JWTTokens r) ∨ id ∈ ID <$> status_tokens p role.

(** Clients edit what they read and make up no tokens. *)
Definition edited_from (prj : AppProject) (q : request) : Prop :=
  match q with UpdateProject p => ∀ role id, has_token p role id → has_token prj role id | _ => True end.

(** A request reads the project; one of those under way stores it if the version is
    still the one it read; or it ends without storing anything, because of an error, a
    conflict, or because there is nothing to do.  A retry is a new request.  Each
    request may run in another process. *)
Inductive server_step `{CR : Cron} `{HO : Host} `{GL : GlobLib} `{WH : WindowHash} `{JW : JWTLib}
    (policy_ok : string → bool) (accepted : request → Prop) : server_state → server_state → Prop :=
  | step_read st q :
      accepted q → edited_from (stored st) q →
      server_step policy_ok accepted st
        {| version := version st; stored := stored st; pending := (version st, stored st, q) :: pending st |}
  | step_store (R : GoRuntime) st i q prj p :
      pending st !! i = Some (version st, prj, q) → handle policy_ok prj q = Some p →
      server_step policy_ok accepted st
        {| version := S (version st); stored := p; pending := delete i (pending st) |}
  | step_end st i :
      server_step policy_ok accepted st
        {| version := version st; stored := stored st; pending := delete i (pending st) |}.
