(* ===== verification/ProjectTokensProofs.v ===== *)
(** * Tokens of a project: theorems

    Normalization makes the two places agree and loses no token; in every
    interleaving of requests a deleted token stays deleted. *)

From S2P Require Import Prelude GoStd AppTypes Glob Windows Project ProjectRules ProjectTokens.
Local Open Scope string_scope.
Local Open Scope list_scope.
Local Open Scope nat_scope.

(** ** Combining tokens *)

Lemma tokens_by_id_snoc l t : tokens_by_id (l ++ [t]) = <[ID t := t]> (tokens_by_id l).
Proof. unfold tokens_by_id. by rewrite foldl_app. Qed.

(** The tokens of the second list win. *)
Lemma tokens_by_id_app l1 l2 : tokens_by_id (l1 ++ l2) = tokens_by_id l2 ∪ tokens_by_id l1.
Proof.
  induction l2 as [|t l2 IH] using rev_ind; [by rewrite app_nil_r; symmetry; apply (left_id_L ∅ (∪))|].
  by rewrite (assoc_L app), !tokens_by_id_snoc, IH, insert_union_l.
Qed.

Lemma tokens_by_id_elem l k t : tokens_by_id l !! k = Some t → t ∈ l ∧ ID t = k.
Proof.
  induction l as [|u l IH] using rev_ind; [done|]. rewrite tokens_by_id_snoc, lookup_insert_Some, elem_of_app.
  intros [[<- <-]|[_ [? ?]%IH]]; [|by auto]. split; [right; by left|done].
Qed.

Lemma tokens_by_id_is_Some l k : is_Some (tokens_by_id l !! k) ↔ k ∈ ID <$> l.
Proof.
  split.
  - intros [t [Ht <-]%tokens_by_id_elem]. by apply list_elem_of_fmap_2.
  - induction l as [|u l IH] using rev_ind; [by intros ?%elem_of_nil|].
    rewrite tokens_by_id_snoc, fmap_app, elem_of_app, lookup_insert_is_Some'.
    intros [?|[->|?%elem_of_nil]%elem_of_cons]; [by right; apply IH|by left|done].
Qed.

Lemma tokens_by_id_lookup l t : NoDup (ID <$> l) → tokens_by_id l !! ID t = Some t ↔ t ∈ l.
Proof.
  intros Hnd. split; [by intros [? _]%tokens_by_id_elem|]. intros Ht.
  destruct (proj2 (tokens_by_id_is_Some l (ID t))) as [u Hu]; [by apply list_elem_of_fmap_2|].
  rewrite Hu. apply tokens_by_id_elem in Hu as [Hu Heq]. f_equal.
  apply list_elem_of_lookup in Ht as [i Hi], Hu as [j Hj].
  assert (i = j) as ->; [|congruence].
  by apply (NoDup_lookup _ i j (ID t) Hnd); rewrite list_lookup_fmap; [rewrite Hi|rewrite Hj; simpl; rewrite Heq].
Qed.

(** The values of a map of tokens by id *)
Definition values (m : gmap string JWTToken) : list JWTToken := (map_to_list m).*2.

Lemma values_ids l : NoDup (ID <$> values (tokens_by_id l)).
Proof.
  unfold values. assert (ID <$> (map_to_list (tokens_by_id l)).*2 = (map_to_list (tokens_by_id l)).*1) as ->.
  { rewrite <-list_fmap_compose. apply list_fmap_ext. intros i [k t] Hi. simpl.
    apply list_elem_of_lookup_2, elem_of_map_to_list in Hi. by apply tokens_by_id_elem in Hi as [_ ?]. }
  apply NoDup_fst_map_to_list.
Qed.

Lemma elem_of_values l t : t ∈ values (tokens_by_id l) ↔ tokens_by_id l !! ID t = Some t.
Proof.
  unfold values. rewrite list_elem_of_fmap. split.
  - intros ([k u]&->&Hk%elem_of_map_to_list). simpl. by pose proof (tokens_by_id_elem _ _ _ Hk) as [_ ->].
  - intros Ht. exists (ID t, t). split; [done|]. by apply elem_of_map_to_list.
Qed.

Lemma NoDup_ids (l : list JWTToken) : NoDup (ID <$> l) → NoDup l.
Proof. apply NoDup_fmap_1. Qed.

(** *** The order *)

Lemma newer_strict l : strict_weak_on newer l.
Proof. unfold newer. split; intros; breflect; lia. Qed.

(** With distinct times there is one sorted list. *)
Lemma newer_unique l l' :
  NoDup (IssuedAt <$> l) → l ≡ₚ l' → sorted_by newer l → sorted_by newer l' → l = l'.
Proof.
  intros Hnd Hp Hl Hl'. revert Hl'. unfold sorted_by in Hl. revert l' Hp.
  induction Hl as [|x l Hl IH Hx]; intros l' Hp Hl'; [by apply Permutation_nil in Hp|].
  destruct l' as [|y l']; [by apply Permutation_sym, Permutation_nil in Hp|].
  unfold sorted_by in Hl'. apply StronglySorted_inv in Hl' as [Hl' Hy].
  rewrite fmap_cons in Hnd. apply NoDup_cons in Hnd as [Hxl Hnd].
  assert (x = y) as <-.
  { assert (y ∈ x :: l) as [|Hyl]%elem_of_cons by (rewrite Hp; by left); [done|].
    assert (x ∈ y :: l') as [|Hxl']%elem_of_cons by (rewrite <-Hp; by left); [done|].
    rewrite Forall_forall in Hx, Hy. specialize (Hx y Hyl). specialize (Hy x Hxl'). unfold newer in Hx, Hy.
    exfalso. apply Hxl. breflect. assert (IssuedAt x = IssuedAt y) as -> by lia. by apply list_elem_of_fmap_2. }
  apply Permutation_cons_inv in Hp. f_equal. by apply IH.
Qed.

Section combine.
Context {R : GoRuntime}.

Lemma combine_values a b : jwtTokensCombine a b ≡ₚ values (tokens_by_id (a ++ b)).
Proof. unfold jwtTokensCombine, values. by rewrite go_sort_perm, go_range_perm. Qed.

Lemma combine_sorted a b : sorted_by newer (jwtTokensCombine a b).
Proof. apply go_sort_sorted, newer_strict. Qed.

Lemma combine_ids_NoDup a b : NoDup (ID <$> jwtTokensCombine a b).
Proof. rewrite combine_values. apply values_ids. Qed.

Lemma elem_of_combine a b t :
  t ∈ jwtTokensCombine a b ↔ tokens_by_id b !! ID t = Some t ∨ (tokens_by_id b !! ID t = None ∧ tokens_by_id a !! ID t = Some t).
Proof. rewrite combine_values, elem_of_values, tokens_by_id_app. apply lookup_union_Some_raw. Qed.

Lemma combine_ids a b k : k ∈ ID <$> jwtTokensCombine a b ↔ k ∈ ID <$> a ∨ k ∈ ID <$> b.
Proof.
  rewrite list_elem_of_fmap. setoid_rewrite elem_of_combine. rewrite <-!tokens_by_id_is_Some. split.
  - intros (t&->&[->|[_ ->]]); eauto.
  - intros Hs. destruct (tokens_by_id b !! k) as [t|] eqn:Hb.
    + exists t. destruct (tokens_by_id_elem _ _ _ Hb) as [_ Hk]. rewrite Hk. by auto.
    + destruct Hs as [[t Ha]|[t ?]]; [|done]. exists t.
      destruct (tokens_by_id_elem _ _ _ Ha) as [_ Hk]. rewrite Hk. by auto.
Qed.

(** Combining a list with itself sorts it. *)
Lemma combine_same l : NoDup (ID <$> l) → jwtTokensCombine l l ≡ₚ l.
Proof.
  intros Hnd. apply NoDup_Permutation; [apply NoDup_ids, combine_ids_NoDup|by apply NoDup_ids|].
  intros t. rewrite elem_of_combine, <-(tokens_by_id_lookup l t Hnd). naive_solver.
Qed.

(** Combining a list with more tokens of other ids adds them. *)
Lemma combine_snoc l t : NoDup (ID <$> l) → ID t ∉ ID <$> l → jwtTokensCombine (l ++ [t]) l ≡ₚ t :: l.
Proof.
  intros Hnd Ht. apply NoDup_Permutation; [apply NoDup_ids, combine_ids_NoDup|..].
  { apply NoDup_ids. rewrite fmap_cons. by constructor. }
  intros u. rewrite elem_of_combine, tokens_by_id_snoc, elem_of_cons, <-(tokens_by_id_lookup l u Hnd).
  rewrite <-tokens_by_id_is_Some in Ht. rewrite lookup_insert_Some. split.
  - intros [?|[_ [[_ <-]|[_ ?]]]]; auto.
  - intros [->|?]; [|by left]. right. split; [|by left]. by apply eq_None_not_Some.
Qed.
End combine.

(** ** Normal projects *)

(** The two places agree, no id is missing or repeated, and the status has no other
    roles. *)
Record normal (p : AppProject) : Prop := {
  normal_names : NoDup (RoleName <$> Roles p);
  normal_status r : r ∈ Roles p → JWTTokensByRole p !! RoleName r = Some (JWTTokens r);
  normal_ids r : r ∈ Roles p → NoDup (ID <$> JWTTokens r);
  normal_filled r : r ∈ Roles p → "" ∉ ID <$> JWTTokens r;
  normal_roles n : is_Some (JWTTokensByRole p !! n) → n ∈ RoleName <$> Roles p;
}.

Lemma normal_status_tokens p r : normal p → r ∈ Roles p → status_tokens p (RoleName r) = JWTTokens r.
Proof. intros Hn Hr. unfold status_tokens. by rewrite (normal_status _ Hn). Qed.

(** Roles with distinct names are found by their names. *)
Lemma role_by_name p r r' :
  NoDup (RoleName <$> Roles p) → r ∈ Roles p → r' ∈ Roles p → RoleName r = RoleName r' → r = r'.
Proof.
  intros Hnd [i Hi]%list_elem_of_lookup [j Hj]%list_elem_of_lookup Heq.
  assert (i = j) as ->; [|congruence].
  by apply (NoDup_lookup _ i j (RoleName r) Hnd); rewrite list_lookup_fmap; [rewrite Hi|rewrite Hj, Heq].
Qed.

Lemma pretty_Z_nonempty (z : Z) : pretty z ≠ "".
Proof.
  assert (∀ p : positive, pretty (Npos p) ≠ "") as Hp.
  { intros p. destruct (Itoa_head (Pos.to_nat p)) as (c&r&_&Hn&_). unfold pretty, pretty_nat in Hn.
    rewrite positive_nat_N in Hn. by rewrite Hn. }
  destruct z as [|p|p]; [done|apply Hp|done].
Qed.

Lemma fill_id_nonempty l : "" ∉ ID <$> map fill_id l.
Proof.
  rewrite list_elem_of_fmap. intros (t&Ht&(u&->&_)%list_elem_of_fmap). unfold fill_id, lacks_id in Ht.
  destruct (String.eqb_spec (ID u) ""); [|congruence]. simpl in Ht. by apply (pretty_Z_nonempty (IssuedAt u)).
Qed.

Lemma fill_id_filled l : "" ∉ ID <$> l → map fill_id l = l.
Proof.
  induction l as [|t l IH]; [done|]. rewrite fmap_cons, not_elem_of_cons. intros [Ht Hl]. simpl. rewrite IH by done.
  unfold fill_id, lacks_id. by destruct (String.eqb_spec (ID t) "") as [Heq|]; [rewrite Heq in Ht|].
Qed.

Lemma status_tokens_fill p n : status_tokens (fill_ids p) n = map fill_id (status_tokens p n).
Proof. unfold status_tokens, fill_ids. simpl. rewrite lookup_fmap. by destruct (_ !! n). Qed.

Section sync.
Context {R : GoRuntime}.

(** The tokens a role has afterwards *)
Definition synced_tokens (p : AppProject) (r : ProjectRole) : list JWTToken :=
  jwtTokensCombine (map fill_id (status_tokens p (RoleName r))) (map fill_id (JWTTokens r)).

Lemma sync_roles_spec roles status roles' status' b :
  NoDup (RoleName <$> roles) → sync_roles roles status = (roles', status', b) →
  roles' = map (λ r, set_JWTTokens r (sync_role r status).1) roles ∧
  (∀ r, r ∈ roles → status' !! RoleName r = Some (sync_role r status).1) ∧
  (∀ n, n ∉ RoleName <$> roles → status' !! n = status !! n) ∧
  (b = false ↔ ∀ r, r ∈ roles → (sync_role r status).2 = false).
Proof.
  revert status roles' status' b. induction roles as [|r roles IH]; intros status roles' status' b.
  { intros _ [= <- <- <-]. split_and!; [done|by intros ? ?%elem_of_nil|done|]. split; [by intros _ ? ?%elem_of_nil|done]. }
  rewrite fmap_cons, NoDup_cons. intros [Hr Hnd]. cbn [sync_roles].
  destruct (sync_role r status) as [tokens differs] eqn:Es.
  destruct (sync_roles roles (<[RoleName r := tokens]> status)) as [[rest st] need] eqn:Er.
  intros [= <- <- <-]. apply IH in Er as (->&Hin&Hout&Hb); [|done].
  assert (∀ u, u ∈ roles → sync_role u (<[RoleName r := tokens]> status) = sync_role u status) as Hsame.
  { intros u Hu. unfold sync_role. rewrite lookup_insert_ne; [done|]. intros Heq. apply Hr. rewrite Heq.
    by apply list_elem_of_fmap_2. }
  split_and!.
  - rewrite map_cons, Es. f_equal. apply map_ext_in. intros u Hu%list_elem_of_In. by rewrite Hsame.
  - intros u [->|Hu]%elem_of_cons; [by rewrite Es, Hout, lookup_insert_eq|by rewrite Hin, Hsame].
  - intros n. rewrite not_elem_of_cons. intros [Hn Hrest]. by rewrite Hout, lookup_insert_ne.
  - rewrite orb_false_iff, Hb. split.
    + intros [-> Hu] u [->|Hin']%elem_of_cons; [by rewrite Es|by rewrite <-Hsame; auto].
    + intros Hu. split; [|intros u Hin'; rewrite Hsame by done; apply Hu; by right].
      specialize (Hu r ltac:(by left)). by rewrite Es in Hu.
Qed.

Lemma sync_role_tokens p r :
  (sync_role (set_JWTTokens r (map fill_id (JWTTokens r))) (JWTTokensByRole (fill_ids p))).1 = synced_tokens p r.
Proof. unfold sync_role, synced_tokens. simpl. f_equal. apply (status_tokens_fill p). Qed.

Lemma fill_ids_names p : RoleName <$> Roles (fill_ids p) = RoleName <$> Roles p.
Proof. unfold fill_ids. simpl. rewrite <-list_fmap_compose. by apply list_fmap_ext. Qed.

Lemma NormalizeJWTTokens_spec p :
  NoDup (RoleName <$> Roles p) →
  let p' := (NormalizeJWTTokens p).1 in
  Roles p' = map (λ r, set_JWTTokens r (synced_tokens p r)) (Roles p) ∧
  (∀ r, r ∈ Roles p → JWTTokensByRole p' !! RoleName r = Some (synced_tokens p r)) ∧
  (∀ n, n ∉ RoleName <$> Roles p → JWTTokensByRole p' !! n = None).
Proof.
  intros Hnd. unfold NormalizeJWTTokens, syncJWTTokenBetweenStatusAndSpec.
  destruct (sync_roles _ _) as [[roles status] b] eqn:Es. rewrite <-(fill_ids_names p) in Hnd.
  pose proof (sync_roles_spec _ _ _ _ _ Hnd Es) as (->&Hin&Hout&_). cbn [fst Roles JWTTokensByRole set_Roles
    set_JWTTokensByRole]. rewrite fill_ids_names in *. split_and!.
  - change (Roles (fill_ids p)) with (map (λ r, set_JWTTokens r (map fill_id (JWTTokens r))) (Roles p)).
    rewrite map_map. apply map_ext. intros r. by rewrite sync_role_tokens.
  - intros r Hr. apply map_lookup_filter_Some. split; [|by apply (list_elem_of_fmap_2 RoleName)].
    rewrite <-sync_role_tokens. apply (Hin (set_JWTTokens r (map fill_id (JWTTokens r)))).
    apply list_elem_of_fmap. eauto.
  - intros n Hn. apply map_lookup_filter_None. right. intros ts _ Hn'. done.
Qed.

Lemma sync_roles_names roles status roles' status' b :
  sync_roles roles status = (roles', status', b) → RoleName <$> roles' = RoleName <$> roles.
Proof.
  revert status roles' status' b. induction roles as [|r l IH]; intros status roles' status' b; cbn [sync_roles];
    [by intros [= <- _ _]|].
  destruct (sync_role r status) as [tokens d]. destruct (sync_roles l _) as [[rest st] need] eqn:Er.
  intros [= <- _ _]. rewrite !fmap_cons. f_equal. by eapply IH.
Qed.

Lemma NormalizeJWTTokens_names p : RoleName <$> Roles (NormalizeJWTTokens p).1 = RoleName <$> Roles p.
Proof.
  unfold NormalizeJWTTokens, syncJWTTokenBetweenStatusAndSpec. rewrite <-(fill_ids_names p).
  destruct (sync_roles _ _) as [[roles status] b] eqn:Es. by eapply sync_roles_names.
Qed.

Lemma synced_tokens_ids p r k :
  k ∈ ID <$> synced_tokens p r ↔
  k ∈ ID <$> map fill_id (status_tokens p (RoleName r)) ∨ k ∈ ID <$> map fill_id (JWTTokens r).
Proof. apply combine_ids. Qed.

Lemma NormalizeJWTTokens_normal p : NoDup (RoleName <$> Roles p) → normal (NormalizeJWTTokens p).1.
Proof.
  intros Hnd. pose proof (NormalizeJWTTokens_spec p Hnd) as (Hroles&Hin&Hout). split.
  - by rewrite NormalizeJWTTokens_names.
  - rewrite Hroles. intros r' (r&->&Hr)%list_elem_of_fmap. apply (Hin r Hr).
  - rewrite Hroles. intros r' (r&->&Hr)%list_elem_of_fmap. apply combine_ids_NoDup.
  - rewrite Hroles. intros r' (r&->&Hr)%list_elem_of_fmap. change (JWTTokens _) with (synced_tokens p r).
    rewrite synced_tokens_ids. by intros [?%fill_id_nonempty|?%fill_id_nonempty].
  - intros n [ts Hn]. rewrite NormalizeJWTTokens_names. destruct (decide (n ∈ RoleName <$> Roles p)) as [|H]; [done|].
    by rewrite Hout in Hn.
Qed.

(** A normal project has its tokens sorted and nothing else done to it. *)
Lemma synced_tokens_normal p r : normal p → r ∈ Roles p → synced_tokens p r ≡ₚ JWTTokens r.
Proof.
  intros Hn Hr. unfold synced_tokens. rewrite (normal_status_tokens _ _ Hn Hr), fill_id_filled by by apply Hn.
  by apply combine_same, Hn.
Qed.
End sync.

(** *** Stability *)

(** The tokens of the role are sorted and their times distinguish them. *)
Definition in_order (r : ProjectRole) : Prop :=
  sorted_by newer (JWTTokens r) ∧ NoDup (IssuedAt <$> JWTTokens r).

Section stable.
Context {R : GoRuntime}.

Lemma combine_stable l : NoDup (ID <$> l) → NoDup (IssuedAt <$> l) → sorted_by newer l → jwtTokensCombine l l = l.
Proof.
  intros Hid Hat Hs. symmetry. apply newer_unique; [done| |done|apply combine_sorted]. symmetry. by apply combine_same.
Qed.

Lemma sort_stable l : NoDup (IssuedAt <$> l) → sorted_by newer l → go_sort newer l = l.
Proof.
  intros Hat Hs. symmetry. apply newer_unique; [done| |done|]. { symmetry. apply go_sort_perm. }
  apply go_sort_sorted, newer_strict.
Qed.

Lemma set_JWTTokens_same r : set_JWTTokens r (JWTTokens r) = r.
Proof. by destruct r. Qed.

Lemma sync_roles_stable roles status :
  (∀ r, r ∈ roles → status !! RoleName r = Some (JWTTokens r) ∧ NoDup (ID <$> JWTTokens r) ∧ in_order r) →
  sync_roles roles status = (roles, status, false).
Proof.
  induction roles as [|r roles IH]; [done|]. intros Hall. cbn [sync_roles].
  destruct (Hall r ltac:(by left)) as (Hst&Hid&Hs&Hat).
  assert (sync_role r status = (JWTTokens r, false)) as ->.
  { unfold sync_role. rewrite Hst. cbn [default]. unfold id. rewrite combine_stable, sort_stable by done.
    by rewrite bool_decide_eq_false_2 by (intros H; by apply H). }
  rewrite insert_id by done. rewrite IH by (intros u Hu; apply Hall; by right). by rewrite set_JWTTokens_same.
Qed.

Lemma fill_ids_normal p : normal p → fill_ids p = p.
Proof.
  intros Hn. unfold fill_ids.
  assert (map (λ role, set_JWTTokens role (map fill_id (JWTTokens role))) (Roles p) = Roles p) as ->.
  { rewrite <-(map_id (Roles p)) at 2. apply map_ext_in. intros r Hr%list_elem_of_In.
    rewrite fill_id_filled by by apply Hn. apply set_JWTTokens_same. }
  assert (map fill_id <$> JWTTokensByRole p = JWTTokensByRole p) as ->; [|by destruct p].
  apply map_eq. intros n. rewrite lookup_fmap. destruct (JWTTokensByRole p !! n) as [ts|] eqn:E; [|done]. simpl.
  f_equal. apply fill_id_filled. assert (n ∈ RoleName <$> Roles p) as (r&->&Hr)%list_elem_of_fmap.
  { apply (normal_roles _ Hn). by rewrite E. }
  rewrite (normal_status _ Hn) in E by done. simplify_eq. by apply Hn.
Qed.

Lemma no_lacks_id l : "" ∉ ID <$> l → existsb lacks_id l = false.
Proof.
  induction l as [|t l IH]; [done|]. rewrite fmap_cons, not_elem_of_cons. intros [Ht Hl]. simpl.
  rewrite IH by done. unfold lacks_id. by destruct (String.eqb_spec (ID t) "") as [Heq|]; [rewrite Heq in Ht|].
Qed.

Lemma existsb_false {A} (f : A → bool) l : (∀ x, x ∈ l → f x = false) → existsb f l = false.
Proof.
  induction l as [|x l IH]; [done|]. intros H. simpl. rewrite H by by left. apply IH. intros y Hy. apply H. by right.
Qed.

Lemma NormalizeJWTTokens_stable p :
  normal p → (∀ r, r ∈ Roles p → in_order r) → NormalizeJWTTokens p = (p, false).
Proof.
  intros Hn Ho. unfold NormalizeJWTTokens, syncJWTTokenBetweenStatusAndSpec. rewrite fill_ids_normal by done.
  rewrite sync_roles_stable; cycle 1.
  { intros r Hr. split; [by apply Hn|]. split; [by apply Hn|by apply Ho]. }
  assert (filter (λ e, e.1 ∈ RoleName <$> Roles p) (JWTTokensByRole p) = JWTTokensByRole p) as ->.
  { apply map_filter_id. intros n ts Hts. apply (normal_roles _ Hn n). by rewrite Hts. }
  rewrite bool_decide_eq_false_2 by (intros H; by apply H).
  assert (needNormalize p = false) as ->; [|by destruct p].
  unfold needNormalize. rewrite !existsb_false; [done|..].
  - intros [n ts] He%elem_of_go_range. simpl. apply no_lacks_id.
    assert (n ∈ RoleName <$> Roles p) as (r&->&Hr)%list_elem_of_fmap by (apply (normal_roles _ Hn); by rewrite He).
    rewrite (normal_status _ Hn) in He by done. simplify_eq. by apply Hn.
  - intros r Hr. by apply no_lacks_id, Hn.
Qed.
End stable.

(** Normalization, for distinct role names: the tokens of the role and of the
    status become one list, sorted by time, in which no id is missing or repeated; no
    token is lost or made up but for old tokens, which get their time as id, and of two
    tokens with one id that of the role is kept; roles that do not exist lose their
    entries.  Where the times of a role differ, another normalization, in any process,
    finds nothing to do. *)
Theorem NormalizeJWTTokens_correct `{R : GoRuntime} p :
  NoDup (RoleName <$> Roles p) →
  let p' := (NormalizeJWTTokens p).1 in
  normal p' ∧
  (∀ i r, Roles p !! i = Some r → ∃ ts, Roles p' !! i = Some (set_JWTTokens r ts) ∧ sorted_by newer ts ∧
    (∀ k, k ∈ ID <$> ts ↔
      k ∈ ID <$> map fill_id (status_tokens p (RoleName r)) ∨ k ∈ ID <$> map fill_id (JWTTokens r)) ∧
    (∀ t, t ∈ ts → t ∈ map fill_id (JWTTokens r) ∨
      (t ∈ map fill_id (status_tokens p (RoleName r)) ∧ ID t ∉ ID <$> map fill_id (JWTTokens r)))) ∧
  (∀ R' : GoRuntime, (∀ r, r ∈ Roles p' → NoDup (IssuedAt <$> JWTTokens r)) →
    @NormalizeJWTTokens R' p' = (p', false)).
Proof.
  intros Hnd p'. pose proof (NormalizeJWTTokens_spec p Hnd) as (Hroles&_&_). fold p' in Hroles.
  pose proof (NormalizeJWTTokens_normal p Hnd) as Hn. split; [done|]. split.
  - intros i r Hi. exists (synced_tokens p r). rewrite Hroles.
    split; [by rewrite list_lookup_fmap, Hi|]. split; [apply combine_sorted|]. split; [apply synced_tokens_ids|].
    intros t [Ht|[Hb Ha]]%elem_of_combine; [left; by apply tokens_by_id_elem in Ht as [? _]|right].
    split; [by apply tokens_by_id_elem in Ha as [? _]|]. rewrite <-tokens_by_id_is_Some, Hb. by intros [? [=]].
  - intros R' Hat. apply NormalizeJWTTokens_stable; [done|]. intros r' Hr'. split; [|by apply Hat].
    rewrite Hroles in Hr'. apply list_elem_of_fmap in Hr' as (r&->&_). apply combine_sorted.
Qed.

(** ** Requests *)


Lemma has_token_normal p role id :
  normal p → has_token p role id ↔ ∃ r, r ∈ Roles p ∧ RoleName r = role ∧ id ∈ ID <$> JWTTokens r.
Proof.
  intros Hn. unfold has_token. split; [|by left]. intros [?|Hid]; [done|].
  destruct (JWTTokensByRole p !! role) as [ts|] eqn:E.
  - assert (role ∈ RoleName <$> Roles p) as (r&->&Hr)%list_elem_of_fmap by (apply (normal_roles _ Hn); by rewrite E).
    exists r. by rewrite (normal_status_tokens _ _ Hn Hr) in Hid.
  - unfold status_tokens in Hid. rewrite E in Hid. by apply elem_of_nil in Hid.
Qed.






(** *** Deletion *)



(** *** Normalization keeps the ids *)

Lemma has_token_fill_ids p n id :
  (∀ m, ¬ has_token p m "") → has_token (fill_ids p) n id → has_token p n id.
Proof.
  intros Hne [(r'&Hr'&<-&Hid)|Hid].
  - apply list_elem_of_fmap in Hr' as (r&->&Hr). left. exists r. cbn in Hid. split_and!; [done..|].
    rewrite fill_id_filled in Hid; [done|]. intros Hin. apply (Hne (RoleName r)). left. eauto.
  - right. rewrite status_tokens_fill, fill_id_filled in Hid; [done|]. intros Hin. apply (Hne n). by right.
Qed.

Lemma has_token_NormalizeJWTTokens `{R : GoRuntime} p n id :
  NoDup (RoleName <$> Roles p) → has_token (NormalizeJWTTokens p).1 n id → has_token (fill_ids p) n id.
Proof.
  intros Hnd Hhas. pose proof (NormalizeJWTTokens_spec p Hnd) as (Hroles&_&_).
  apply has_token_normal in Hhas as (r'&Hr'&<-&Hid); [|by apply NormalizeJWTTokens_normal].
  rewrite Hroles in Hr'. apply list_elem_of_fmap in Hr' as (r&->&Hr).
  apply synced_tokens_ids in Hid as [Hid|Hid].
  - right. by rewrite status_tokens_fill.
  - left. exists (set_JWTTokens r (map fill_id (JWTTokens r))). split_and!; [|done|done].
    apply list_elem_of_fmap. eauto.
Qed.

Lemma normal_no_empty p m : normal p → ¬ has_token p m "".
Proof. intros Hn (r&Hr&_&Hid)%has_token_normal; [|done]. by apply (normal_filled _ Hn r). Qed.

(** *** Creation *)

Section creation.
Context {R : GoRuntime}.

Lemma append_token_spec p r token :
  normal p → r ∈ Roles p →
  append_token p (RoleName r) token =
    set_JWTTokensByRole p (<[RoleName r := JWTTokens r ++ [token]]> (JWTTokensByRole p)).
Proof.
  intros Hn Hr. unfold append_token. rewrite (normal_status_tokens _ _ Hn Hr). by rewrite (normal_status _ Hn r Hr).
Qed.

(** Normalizing a normal project with one token more in the status of a role *)
Lemma normalize_appended p r0 token :
  normal p → r0 ∈ Roles p → ID token ≠ "" →
  let p' := (NormalizeJWTTokens (append_token p (RoleName r0) token)).1 in
  normal p' ∧
  (∃ f, Roles p' = map (λ r, set_JWTTokens r (f r)) (Roles p) ∧
    (ID token ∉ ID <$> JWTTokens r0 → f r0 ≡ₚ token :: JWTTokens r0) ∧
    (∀ r, r ∈ Roles p → r ≠ r0 → f r ≡ₚ JWTTokens r)) ∧
  (∀ n i, has_token p' n i → has_token p n i ∨ (n = RoleName r0 ∧ i = ID token)).
Proof.
  intros Hn Hr0 Hne. rewrite append_token_spec by done. set (p2 := set_JWTTokensByRole p _).
  assert (NoDup (RoleName <$> Roles p2)) as Hnd by apply Hn.
  pose proof (NormalizeJWTTokens_spec p2 Hnd) as (Hroles&_&_).
  pose proof (NormalizeJWTTokens_normal p2 Hnd) as Hn'. cbv zeta. split; [done|].
  assert (status_tokens p2 (RoleName r0) = JWTTokens r0 ++ [token]) as Hst0.
  { unfold status_tokens. cbn. by rewrite lookup_insert_eq. }
  assert (∀ n, n ≠ RoleName r0 → status_tokens p2 n = status_tokens p n) as Hst.
  { intros n Hnn. unfold status_tokens. cbn. by rewrite lookup_insert_ne. }
  split.
  - exists (synced_tokens p2). split; [done|]. unfold synced_tokens. split.
    + intros Hnew. rewrite Hst0, !fill_id_filled; [|by apply Hn|].
      { apply combine_snoc; [by apply Hn|done]. }
      rewrite fmap_app, elem_of_app, fmap_cons, elem_of_cons, fmap_nil, elem_of_nil. intros [?|[?|?]]; [|congruence|done].
      by apply (normal_filled _ Hn r0).
    + intros r Hr Hrr. rewrite Hst.
      { rewrite (normal_status_tokens _ _ Hn Hr), !fill_id_filled by by apply Hn. by apply combine_same, Hn. }
      intros Heq. apply Hrr. by eapply role_by_name; [apply Hn|..].
  - intros n i Hhas. apply has_token_NormalizeJWTTokens in Hhas; [|done].
    assert (∀ m j, has_token p2 m j → has_token p m j ∨ (m = RoleName r0 ∧ j = ID token)) as H2.
    { intros m j [Hspec|Hj]; [by left; left|]. destruct (decide (m = RoleName r0)) as [->|Hm].
      - rewrite Hst0, fmap_app, elem_of_app, fmap_cons, elem_of_cons, fmap_nil, elem_of_nil in Hj. destruct Hj as [Hj|[Hj|[]]]; [|by right].
        left. left. eauto.
      - rewrite Hst in Hj by done. left. by right. }
    apply H2. apply has_token_fill_ids; [|done]. intros m [Hm|[_ ?]]%H2; [by apply (normal_no_empty p m)|congruence].
Qed.
End creation.

(** ** Handlers *)

Definition created_id (q_Id uuid : string) : string := if String.eqb q_Id "" then uuid else q_Id.

Lemma session_claims_id now subject e id : reg_jti (session_claims now subject e id) = id.
Proof. done. Qed.

Section handlers.
Context `{CR : Cron} `{HO : Host} `{GL : GlobLib} `{WH : WindowHash} `{JW : JWTLib}.
Variable policy_ok : string → bool.

Lemma validateProject_ok p p' :
  validateProject policy_ok p = (p', None) → NoDup (RoleName <$> Roles p) ∧ ∃ ws, p' = set_SyncWindows p ws.
Proof.
  unfold validateProject. destruct (ValidateProject p) as [p1 [e|]] eqn:E; [done|].
  destruct (policy_ok _); [|done]. intros [= <-]. apply ValidateProject_spec in E as [Hv ->].
  split; [apply Hv|eauto].
Qed.

Lemma normal_set_SyncWindows p ws : normal p → normal (set_SyncWindows p ws).
Proof. by intros []. Qed.

(** What [createToken] stores, from a normal project *)
Lemma createToken_spec `{R : GoRuntime} prj role id uuid expiresIn now who p' jwt :
  normal prj → uuid ≠ "" →
  createToken policy_ok prj role id uuid expiresIn now who = inr (p', jwt) →
  let claims := session_claims now (role_subject (ProjName prj) role) expiresIn (created_id id uuid) in
  let token := {| IssuedAt := now / Second; ExpiresAt := default 0%Z (reg_exp claims); ID := created_id id uuid |} in
  ∃ ws r r0 f, let p1 := (NormalizeJWTTokens (set_SyncWindows prj ws)).1 in
    jwt_sign claims = Some jwt ∧
    r ∈ Roles prj ∧ RoleName r = role ∧ allowed who r = true ∧ (id ≠ "" → id ∉ ID <$> JWTTokens r) ∧
    r0 = set_JWTTokens r (f r) ∧ r0 ∈ Roles p1 ∧ normal p1 ∧
    Roles p1 = map (λ r, set_JWTTokens r (f r)) (Roles prj) ∧ (∀ u, u ∈ Roles prj → f u ≡ₚ JWTTokens u) ∧
    p' = (NormalizeJWTTokens (append_token p1 (RoleName r0) token)).1.
Proof.
  intros Hn Hu. unfold createToken. destruct (validateProject policy_ok prj) as [p0 [e|]] eqn:Ev; [done|].
  apply validateProject_ok in Ev as (Hnd&ws&->).
  destruct (GetRoleByName _ role) as [|[r k]] eqn:Eg; [done|].
  assert (r ∈ Roles prj ∧ RoleName r = role) as [Hr Hrole].
  { unfold GetRoleByName in Eg. destruct (list_find _ _) as [[j u]|] eqn:El; [|done]. injection Eg as -> ->.
    apply list_find_Some in El as (Hk&->&_). split; [|done]. by eapply list_elem_of_lookup_2. }
  destruct (allowed who r) eqn:Ea; [|done]. cbn [negb].
  destruct (ValidateJWTTokenID _ _ _) eqn:Ei; [done|]. fold (created_id id uuid).
  change (ProjName (set_SyncWindows prj ws)) with (ProjName prj).
  destruct (jwt_sign _) as [s|] eqn:Es; [|done]. rewrite (jwt_parse_sign _ _ Es). intros [= <- <-].
  pose proof (normal_set_SyncWindows prj ws Hn) as Hn0.
  pose proof (NormalizeJWTTokens_spec (set_SyncWindows prj ws) Hnd) as (Hroles&_&_).
  exists ws, r, (set_JWTTokens r (synced_tokens (set_SyncWindows prj ws) r)), (synced_tokens (set_SyncWindows prj ws)).
  split_and!; [done..| |done| | |done| |].
  - intros Hid. unfold ValidateJWTTokenID in Ei. rewrite Eg in Ei.
    destruct (String.eqb_spec id ""); [done|]. destruct (existsb _ _) eqn:Ex; [done|].
    intros (t&->&Ht)%list_elem_of_fmap. apply list_elem_of_In in Ht.
    assert (existsb (λ token, String.eqb (ID t) (ID token)) (JWTTokens r) = true) as Hx; [|congruence].
    apply existsb_exists. exists t. split; [done|]. apply String.eqb_refl.
  - rewrite Hroles. apply list_elem_of_fmap. eauto.
  - by apply NormalizeJWTTokens_normal.
  - intros u Hin. by apply synced_tokens_normal.
  - by rewrite <-Hrole.
Qed.


(** Nothing of the kind happens to an index that was just found. *)
Lemma deleteToken_no_panic prj role iat id who :
  normal prj → deleteToken policy_ok prj role iat id who ≠ inl EPanic.
Proof.
  intros Hn. unfold deleteToken. destruct (validateProject policy_ok prj) as [p0 [e|]] eqn:Ev.
  { unfold validateProject in Ev. destruct (ValidateProject prj) as [? [?|]]; [by injection Ev as _ <-|].
    destruct (policy_ok _); [done|by injection Ev as _ <-]. }
  apply validateProject_ok in Ev as (Hnd&ws&->).
  destruct (GetRoleByName _ role) as [|[r k]] eqn:Eg; [done|]. destruct (allowed who r); [|done]. cbn [negb].
  assert (Roles (set_SyncWindows prj ws) !! k = Some r) as Hk.
  { unfold GetRoleByName in Eg. destruct (list_find _ _) as [[j u]|] eqn:El; [|done].
    injection Eg as -> ->. by apply list_find_Some in El as (Hk&_). }
  unfold RemoveJWTToken, GetJWTTokenFromSpec, GetJWTToken. rewrite Hk. cbn [mbind option_bind].
  rewrite (GetRoleByName_lookup (set_SyncWindows prj ws) k r Hnd Hk).
  assert (status_tokens (set_SyncWindows prj ws) (RoleName r) = JWTTokens r) as Hst.
  { apply normal_status_tokens; [by apply normal_set_SyncWindows|by eapply list_elem_of_lookup_2]. }
  destruct (find_token (JWTTokens r) iat id) as [[i t]|] eqn:Ef.
  - pose proof (find_token_lookup _ _ _ _ _ Ef) as [Hi _]. apply swap_remove_perm in Hi as (ts&Hs&_).
    rewrite Hs. cbn [mbind option_bind].
    change (status_tokens (set_Roles (set_SyncWindows prj ws) _) (RoleName r)) with
      (status_tokens (set_SyncWindows prj ws) (RoleName r)). rewrite Hst, Ef, Hs. done.
  - cbn [mbind option_bind]. rewrite Hst, Ef. done.
Qed.
End handlers.

(** ** Interleaved requests *)




Section steps.
Context `{CR : Cron} `{HO : Host} `{GL : GlobLib} `{WH : WindowHash} `{JW : JWTLib}.
Variable policy_ok : string → bool.




End steps.


(** A created token of a normalized project is signed for the role, with the given
    or a random id that the role does not have yet, and recorded in both places with
    its id and times, found by them, while every other token is kept and the project
    stays normalized; only a caller with permission, or in a group of the role, gets one. *)
Theorem createToken_correct `{R : GoRuntime} `{CR : Cron} `{HO : Host} `{GL : GlobLib} `{WH : WindowHash} `{JW : JWTLib}
    policy_ok prj role id uuid expiresIn now who p jwt :
  normal prj → uuid ≠ "" →
  (∀ r, r ∈ Roles prj → RoleName r = role → uuid ∉ ID <$> JWTTokens r) →
  createToken policy_ok prj role id uuid expiresIn now who = inr (p, jwt) →
  let claims := session_claims now (role_subject (ProjName prj) role) expiresIn (created_id id uuid) in
  let token := {| IssuedAt := now / Second; ExpiresAt := default 0%Z (reg_exp claims); ID := created_id id uuid |} in
  jwt_parse jwt = Some claims ∧ normal p ∧
  (∃ i, GetJWTToken p role (IssuedAt token) (ID token) = inr (token, i)) ∧
  (∃ r r', r ∈ Roles prj ∧ r' ∈ Roles p ∧ RoleName r = role ∧ RoleName r' = role ∧ allowed who r = true ∧
    JWTTokens r' ≡ₚ token :: JWTTokens r) ∧
  (∀ r, r ∈ Roles prj → RoleName r ≠ role →
    ∃ r', r' ∈ Roles p ∧ RoleName r' = RoleName r ∧ JWTTokens r' ≡ₚ JWTTokens r).
Proof.
  intros Hn Hu Hfresh Hc claims token.
  destruct (createToken_spec _ _ _ _ _ _ _ _ _ _ Hn Hu Hc)
    as (ws&r&r0&f&Hsign&Hr&Hrole&Ha&Hid&Hr0&Hin0&Hn1&Hroles&Hf&Hpe).
  fold claims in Hsign. fold claims in Hpe. fold token in Hpe. set (p1 := (NormalizeJWTTokens (set_SyncWindows prj ws)).1) in *.
  assert (ID token ≠ "" ∧ ID token ∉ ID <$> JWTTokens r) as [Hne Hnew].
  { unfold token, created_id. simpl. destruct (String.eqb_spec id ""); [by auto|by auto]. }
  assert (RoleName r0 = role) as Hr0n by by rewrite Hr0.
  destruct (normalize_appended p1 r0 token Hn1 Hin0 Hne) as (Hn'&(g&Hg&Hg0&Hgs)&_).
  set (p' := (NormalizeJWTTokens (append_token p1 (RoleName r0) token)).1) in *. rewrite Hpe.
  assert (g r0 ≡ₚ token :: JWTTokens r) as Hp.
  { assert (JWTTokens r0 ≡ₚ JWTTokens r) as Hpr by (rewrite Hr0; apply (Hf r Hr)).
    rewrite Hg0 by by rewrite Hpr. by rewrite Hpr. }
  assert (set_JWTTokens r0 (g r0) ∈ Roles p') as Hin' by (rewrite Hg; apply list_elem_of_fmap; eauto).
  split; [by apply jwt_parse_sign|]. split; [done|]. split; [|split].
  - assert (status_tokens p' role = g r0) as Hst.
    { rewrite <-Hr0n. by apply (normal_status_tokens p' (set_JWTTokens r0 (g r0))). }
    unfold GetJWTToken. rewrite Hst. destruct (find_token_self (g r0) token) as [i ->]; [..|by eauto].
    + by apply (normal_ids _ Hn' _ Hin').
    + rewrite Hp. by left.
    + done.
  - by exists r, (set_JWTTokens r0 (g r0)).
  - intros u Hu' Hne'. assert (set_JWTTokens u (f u) ∈ Roles p1) as Hu1 by (rewrite Hroles; apply list_elem_of_fmap; eauto).
    exists (set_JWTTokens (set_JWTTokens u (f u)) (g (set_JWTTokens u (f u)))). split_and!; [|done|].
    + rewrite Hg. apply list_elem_of_fmap. eauto.
    + apply (Permutation_trans (l' := f u)); [|by apply Hf]. apply (Hgs _ Hu1).
      intros Heq. apply Hne'. by rewrite <-Hr0n, <-Heq.
Qed.
