(* ===== verification/ProjectExamples.v ===== *)
(** * Projects: concrete requests

    A project with two roles as an instance of the theorems, and behaviours at the
    edges: time zones, unanchored patterns, long lifetimes, ids that collide. *)

From S2P Require Import Prelude GoStd AppTypes Glob Windows Project ProjectRules ProjectTokens ProjectTokensProofs.
Local Open Scope string_scope.
Local Open Scope list_scope.
Local Open Scope nat_scope.

Module TokenRequests.
#[local] Existing Instance reference_runtime.
#[local] Existing Instance Sample.cron.
#[local] Existing Instance Sample.host.
#[local] Existing Instance Sample.globs.

#[export] Instance hashes : WindowHash :=
  {| gob_hash w := Some (Zpos (encode (Kind w, Schedule w, Duration w, TimeZone w))) |}.

(** 2024-06-01, and a library that signs the claims of one token *)
Definition june : Z := 1717200000 * Second.
Definition new_claims : registered := session_claims june "proj:demo:ci" 3600 "build-7".

#[export] Instance registered_eq_dec : EqDecision registered.
Proof. solve_decision. Defined.

#[export] Program Instance jwt : JWTLib :=
  {| jwt_sign c := if decide (c = new_claims) then Some "signed" else None;
     jwt_parse s := if String.eqb s "signed" then Some new_claims else None |}.
Next Obligation. intros c s. cbv beta. case_decide as H; [|done]. intros [= <-]. by rewrite H. Qed.

Definition policies_fine (_ : string) : bool := true.
Definition admin : caller := {| may_update := true; in_groups := λ _, false |}.
Definition guest : caller := {| may_update := false; in_groups := λ gs, bool_decide ("guests" ∈ gs) |}.

Definition token (n : Z) (id : string) : JWTToken := {| IssuedAt := n; ExpiresAt := 0; ID := id |}.

Definition role (name : string) (ts : list JWTToken) : ProjectRole :=
  {| RoleName := name; RoleDescription := ""; Policies := ["p, proj:demo:" +:+ name +:+ ", applications, sync, demo/*, allow"];
     JWTTokens := ts; Groups := [] |}.

Definition project (rs : list ProjectRole) (m : gmap string (list JWTToken)) (ws : SyncWindows) : AppProject :=
  {| ProjName := "demo"; Destinations := []; PermitOnlyProjectScopedClusters := false; SourceNamespaces := [];
     SourceRepos := ["*"]; ClusterResourceWhitelist := []; ClusterResourceBlacklist := [];
     NamespaceResourceWhitelist := None; NamespaceResourceBlacklist := []; ProjSyncWindows := ws;
     DestinationServiceAccounts := []; Roles := rs; JWTTokensByRole := m |}.

(** The role has tokens from before ids existed, in two places. *)
Definition old : AppProject :=
  project [role "ci" [token 10 ""; token 20 "b"]; role "deploy" []] {["ci" := [token 30 "c"]; "gone" := [token 5 "x"]]} None.

Definition demo : AppProject := (NormalizeJWTTokens old).1.

Example demo_tokens :
  JWTTokens <$> Roles demo = [[token 30 "c"; token 20 "b"; token 10 "10"]; []] ∧ JWTTokensByRole demo !! "gone" = None.
Proof. vm_compute. done. Qed.

Lemma old_names : NoDup (RoleName <$> Roles old).
Proof. apply (bool_decide_unpack _). vm_compute. exact I. Qed.

Lemma demo_normal : normal demo.
Proof. apply NormalizeJWTTokens_normal, old_names. Qed.

Lemma NormalizeJWTTokens_correct_witness : normal demo ∧ NormalizeJWTTokens demo = (demo, false).
Proof.
  destruct (NormalizeJWTTokens_correct old old_names) as (H1 & _ & H2). split; [exact H1|].
  apply (H2 reference_runtime). intros r Hr. assert (bool_decide (Forall (λ r, NoDup (IssuedAt <$> JWTTokens r)) (Roles demo)))
    as Hb by (vm_compute; exact I).
  apply bool_decide_unpack in Hb. rewrite Forall_forall in Hb. apply (Hb r Hr).
Defined.

(** The token [b] is deleted; somebody then stores an edited project. *)
Definition deleted : AppProject :=
  match deleteToken policies_fine demo "ci" 0 "b" admin with inr (Some p) => p | _ => demo end.



(** The project is created again with upsert, from what it was before the deletion: the
    role has the deleted token in the specification, though not in the status. *)
Example upsert_brings_back :
  match handle policies_fine deleted (CreateProject demo true) with
  | Some p => ((λ r, ID <$> JWTTokens r) <$> Roles p, ID <$> status_tokens p "ci")
  | None => ([], [])
  end = ([["c"; "b"; "10"]; []], ["c"; "10"]) ∧
  handle policies_fine deleted (CreateProject demo false) = None.
Proof. vm_compute. split; reflexivity. Qed.

Definition created : AppProject :=
  match createToken policies_fine demo "ci" "build-7" "uuid" 3600 june admin with inr (p, _) => p | _ => demo end.

Lemma createToken_correct_witness :
  normal created ∧ ∃ i, GetJWTToken created "ci" 1717200000 "build-7" =
    inr ({| IssuedAt := 1717200000; ExpiresAt := 1717203600; ID := "build-7" |}, i).
Proof.
  assert (createToken policies_fine demo "ci" "build-7" "uuid" 3600 june admin = inr (created, "signed")) as Hc
    by (vm_compute; reflexivity).
  assert (∀ r, r ∈ Roles demo → RoleName r = "ci" → "uuid" ∉ ID <$> JWTTokens r) as Hfresh.
  { intros r Hr _. assert (bool_decide (Forall (λ r, "uuid" ∉ ID <$> JWTTokens r) (Roles demo))) as Hb by (vm_compute; exact I).
    apply bool_decide_unpack in Hb. rewrite Forall_forall in Hb. apply (Hb r Hr). }
  destruct (createToken_correct policies_fine demo "ci" "build-7" "uuid" 3600 june admin created "signed"
    demo_normal ltac:(discriminate) Hfresh Hc) as (_ & Hn & Hg & _).
  split; [exact Hn|exact Hg].
Defined.

Example guests_are_denied : createToken policies_fine demo "ci" "build-7" "uuid" 3600 june guest = inl EDenied.
Proof. vm_compute. reflexivity. Qed.
Example used_id : createToken policies_fine demo "ci" "b" "uuid" 3600 june admin = inl (ETokenID (ErrTokenIDUsed "b")).
Proof. vm_compute. reflexivity. Qed.
End TokenRequests.

Module ProjectEdges.
Import TokenRequests.
#[local] Existing Instance reference_runtime.
#[local] Existing Instance Sample.cron.
#[local] Existing Instance Sample.host.
#[local] Existing Instance Sample.globs.

(** Two windows that differ in an empty and an explicit UTC time zone pass validation,
    which makes them equal: the stored project is not valid any more, and no token
    of it can be created or deleted. *)
Definition nightly (tz : string) : SyncWindow :=
  {| Kind := "deny"; Schedule := "0 22 * * *"; Duration := "2h"; Applications := ["*"]; Namespaces := [];
     Clusters := []; ManualSync := true; TimeZone := tz; UseAndOperator := false; Description := "";
     SyncOverrun := false |}.

Definition twice : AppProject := project [] ∅ (Some [nightly ""; nightly "UTC"]).

Example validation_is_not_stable :
  (ValidateProject twice).2 = None ∧ (ValidateProject (ValidateProject twice).1).2 = Some (DuplicateWindow (nightly "UTC")).
Proof. vm_compute. done. Qed.

(** The patterns of actions are not anchored. *)
Example unanchored_action : isValidAction "no-such-action/x" = true ∧ isValidAction "no-such-verb" = false.
Proof. done. Qed.

(** A lifetime of ten thousand million seconds wraps around: the token expired before
    it was issued. *)
Example long_lifetime_wraps :
  reg_exp (session_claims june "proj:demo:ci" 10000000000 "a") = Some (-6729544074)%Z.
Proof. vm_compute. reflexivity. Qed.

(** An old token gets its time as id; another token that was given this id is lost. *)
Example time_as_id_collides :
  JWTTokens <$> Roles (NormalizeJWTTokens (project [role "ci" [token 10 ""; token 20 "10"]] ∅ None)).1 = [[token 20 "10"]].
Proof. vm_compute. reflexivity. Qed.

(** Namespaced kinds are permitted without a whitelist and forbidden by an empty one;
    an item without a name stands for all names. *)
Definition kind_rules (w : option (list GroupKind)) : AppProject :=
  {| ProjName := "demo"; Destinations := []; PermitOnlyProjectScopedClusters := false; SourceNamespaces := [];
     SourceRepos := []; ClusterResourceWhitelist := [{| ItemGroup := ""; ItemKind := "Namespace"; ItemName := "team-*" |};
       {| ItemGroup := "*"; ItemKind := "CustomResource*"; ItemName := "" |}];
     ClusterResourceBlacklist := []; NamespaceResourceWhitelist := w;
     NamespaceResourceBlacklist := [{| GKGroup := ""; GKKind := "Secret" |}]; ProjSyncWindows := None;
     DestinationServiceAccounts := []; Roles := []; JWTTokensByRole := ∅ |}.

Definition gk (g k : string) : GroupKind := {| GKGroup := g; GKKind := k |}.

Example permitted_kinds :
  (IsGroupKindNamePermitted (kind_rules None) (gk "apps" "Deployment") "web" true,
   IsGroupKindNamePermitted (kind_rules None) (gk "" "Secret") "web" true,
   IsGroupKindNamePermitted (kind_rules (Some [])) (gk "apps" "Deployment") "web" true,
   IsGroupKindNamePermitted (kind_rules None) (gk "" "Namespace") "team-a" false,
   IsGroupKindNamePermitted (kind_rules None) (gk "" "Namespace") "prod" false,
   IsGroupKindNamePermitted (kind_rules None) (gk "apiextensions.k8s.io" "CustomResourceDefinition") "x" false)
  = (true, false, false, true, false, true).
Proof. vm_compute. reflexivity. Qed.
End ProjectEdges.
