(* ===== verification/Consistent.v ===== *)
(** * Consistent hashing with bounded loads (src/controller/sharding/consistent)

    A ring of points on the 64-bit integers: every server owns the hashes of its
    name followed by a replica number.  [Get] gives a client the server of the
    first point at or after the client's hash, [GetLeast] the first such server
    that is not overloaded.  The ordered set of points ([google/btree]) and the
    hash ([blake2b]) are libraries, the interfaces [BTree] and [Hash64]. *)

From S2P Require Import Prelude GoStd.
Local Open Scope Z_scope.

(** ** Interfaces *)

(** The operations of [btree.BTree] on [item]s, by the ascending list of its
    elements *)
Class BTree : Type := {
  bt : Type;
  bt_New : bt;
  bt_ReplaceOrInsert : Z → bt → bt;
  bt_Delete : Z → bt → bt;
  bt_Ascend : bt → list Z;
  bt_Ascend_sorted t : StronglySorted Z.lt (bt_Ascend t);
  bt_New_empty : bt_Ascend bt_New = [];
  bt_Insert_elem x y t : x ∈ bt_Ascend (bt_ReplaceOrInsert y t) ↔ x = y ∨ x ∈ bt_Ascend t;
  bt_Delete_elem x y t : x ∈ bt_Ascend (bt_Delete y t) ↔ x ≠ y ∧ x ∈ bt_Ascend t;
}.

Class Hash64 : Type := { hash : string → Z }.

Section btree.
Context `{BT : BTree}.

Definition bt_Len (t : bt) : nat := length (bt_Ascend t).
Definition bt_Min (t : bt) : option Z := head (bt_Ascend t).
Definition bt_Get (x : Z) (t : bt) : option Z :=
  if bool_decide (x ∈ bt_Ascend t) then Some x else None.
(** The items the iterator of [AscendGreaterOrEqual] is offered, in order *)
Definition bt_AscendGreaterOrEqual (pivot : Z) (t : bt) : list Z :=
  List.filter (λ x, pivot <=? x) (bt_Ascend t).
End btree.

(** ** The code *)

Record Host := { HostName : string; Load : Z }.

Record Consistent `{BTree} := {
  servers : gmap Z string;
  clients : bt;
  loadMap : gmap string Host;
  totalLoad : Z;
  replicationFactor : Z;
}.

(** Outcome of a lookup: a server, [ErrNoHosts], or a panic *)
Inductive lookup_result :=
  | Found (server : string)
  | NoHosts
  | LookupPanic.

Section consistent.
Context `{BT : BTree} `{HA : Hash64}.

Definition set_ring (c : Consistent) (sv : gmap Z string) (cl : bt) : Consistent :=
  {| servers := sv; clients := cl; loadMap := loadMap c; totalLoad := totalLoad c;
     replicationFactor := replicationFactor c |}.
Definition set_loads (c : Consistent) (m : gmap string Host) (t : Z) : Consistent :=
  {| servers := servers c; clients := clients c; loadMap := m; totalLoad := t;
     replicationFactor := replicationFactor c |}.

Definition NewWithReplicationFactor (rf : Z) : Consistent :=
  {| servers := ∅; clients := bt_New; loadMap := ∅; totalLoad := 0; replicationFactor := rf |}.
Definition New : Consistent := NewWithReplicationFactor 1000.

(** [fmt.Sprintf("%s%d", server, i)] *)
Definition point_name (server : string) (i : nat) : string := server +:+ pretty i.

(** The values of [i] in the loops over the replication factor *)
Definition replicas_of (c : Consistent) : list nat := seq 0 (Z.to_nat (replicationFactor c)).

Definition add_point (server : string) (c : Consistent) (i : nat) : Consistent :=
  let h := hash (point_name server i) in
  set_ring c (<[h := server]> (servers c)) (bt_ReplaceOrInsert h (clients c)).

Definition Add (server : string) (c : Consistent) : Consistent :=
  match loadMap c !! server with
  | Some _ => c
  | None =>
      let c := set_loads c (<[server := {| HostName := server; Load := 0 |}]> (loadMap c)) (totalLoad c) in
      foldl (add_point server) c (replicas_of c)
  end.

Definition remove_point (server : string) (c : Consistent) (i : nat) : Consistent :=
  let h := hash (point_name server i) in
  set_ring c (delete h (servers c)) (bt_Delete h (clients c)).

Definition Remove (server : string) (c : Consistent) : Consistent * bool :=
  let c := foldl (remove_point server) c (replicas_of c) in
  (set_loads c (delete server (loadMap c)) (totalLoad c), true).

Definition Get (client : string) (c : Consistent) : lookup_result :=
  if Nat.eqb (bt_Len (clients c)) 0 then NoHosts
  else
    let foundItem :=
      match head (bt_AscendGreaterOrEqual (hash client) (clients c)) with
      | Some i => Some i
      | None => bt_Min (clients c)
      end in
    match foundItem with
    | Some i => Found (default EmptyString (servers c !! i))
    | None => LookupPanic
    end.

(** [math.Ceil(x * 1.25)] of an integer float: exact while [5 * x] has at most
    53 bits *)
Definition ceil_125 (x : Z) : Z := (5 * x + 3) / 4.

(** [float64(load / nodes)], at least 1; Go's division truncates. *)
Definition avg_load (load nodes : Z) : Z :=
  let avg := Z.quot load nodes in if avg =? 0 then 1 else avg.

(** [loadOK] also resets a negative total; [None] is the panic for an empty load
    map or a host that is not in it. *)
Definition loadOK (server : string) (c : Consistent) : option (bool * Consistent) :=
  let c := if totalLoad c <? 0 then set_loads c (loadMap c) 0 else c in
  if Nat.eqb (size (loadMap c)) 0 then None
  else
    let avgLoadPerNode := ceil_125 (avg_load (wrap64 (totalLoad c + 1)) (Z.of_nat (size (loadMap c)))) in
    match loadMap c !! server with
    | None => None
    | Some bserver => Some (Load bserver <? avgLoadPerNode, c)
    end.

(** The point after [h] on the ring: the iterator skips [h] itself, and the
    search wraps around to the first point. *)
Definition next_point (h : Z) (c : Consistent) : option Z :=
  match List.find (λ x, negb (h =? x)) (bt_AscendGreaterOrEqual h (clients c)) with
  | Some i => Some i
  | None => bt_Min (clients c)
  end.

(** The loop of [GetLeast]; [None] when the fuel is used up. *)
Fixpoint least_loop (fuel : nat) (client : string) (h : Z) (c : Consistent)
    : option (lookup_result * Consistent) :=
  match fuel with
  | O => None
  | S fuel' =>
      match next_point h c with
      | None => Some (LookupPanic, c)
      | Some foundItem =>
          match bt_Get foundItem (clients c) with
          | None => Some (Found client, c)
          | Some key =>
              let host := default EmptyString (servers c !! key) in
              match loadOK host c with
              | None => Some (LookupPanic, c)
              | Some (true, c) => Some (Found host, c)
              | Some (false, c) => least_loop fuel' client key c
              end
          end
      end
  end.

(** A full turn of the ring and the wrap-around need no more steps than this. *)
Definition turn (c : Consistent) : nat := 2 * bt_Len (clients c) + 1.

Definition GetLeast (client : string) (c : Consistent) : option (lookup_result * Consistent) :=
  if Nat.eqb (bt_Len (clients c)) 0 then Some (NoHosts, c)
  else least_loop (turn c) client (hash client) c.

Definition UpdateLoad (server : string) (load : Z) (c : Consistent) : Consistent :=
  match loadMap c !! server with
  | None => c
  | Some host =>
      let total := wrap64 (totalLoad c - Load host) in
      set_loads c (<[server := {| HostName := HostName host; Load := load |}]> (loadMap c)) (wrap64 (total + load))
  end.

(** [Inc] and [Done] add 1 and -1. *)
Definition add_load (d : Z) (server : string) (c : Consistent) : Consistent :=
  match loadMap c !! server with
  | None => c
  | Some host =>
      set_loads c (<[server := {| HostName := HostName host; Load := wrap64 (Load host + d) |}]> (loadMap c))
        (wrap64 (totalLoad c + d))
  end.
Definition Inc : string → Consistent → Consistent := add_load 1.
Definition Done : string → Consistent → Consistent := add_load (-1).

Definition Servers `{GoRuntime} (c : Consistent) : list string := (go_range (loadMap c)).*1.

Definition GetLoads (c : Consistent) : gmap string Z := Load <$> loadMap c.

(** [MaxLoad] writes the total it divides; [None] is the division by zero. *)
Definition MaxLoad (c : Consistent) : option (Z * Consistent) :=
  let c := if totalLoad c =? 0 then set_loads c (loadMap c) 1 else c in
  if Nat.eqb (size (loadMap c)) 0 then None
  else Some (ceil_125 (avg_load (totalLoad c) (Z.of_nat (size (loadMap c)))), c).
End consistent.

(** ** Searching a sorted list *)

(** The least element of [l] that satisfies [f] *)
Definition least_of (f : Z → bool) (l : list Z) (x : Z) : Prop :=
  x ∈ l ∧ f x = true ∧ ∀ y, y ∈ l → f y = true → x ≤ y.

Lemma least_of_unique f l x y : least_of f l x → least_of f l y → x = y.
Proof. intros (?&?&Hx) (?&?&Hy). apply Z.le_antisymm; auto. Qed.

Lemma find_least f l x : StronglySorted Z.lt l → List.find f l = Some x → least_of f l x.
Proof.
  induction 1 as [|a l Hl IH Ha]; simpl; [done|]. destruct (f a) eqn:Hf.
  - intros [= ->]. split_and!; [by left|done|]. intros y [->|Hy]%elem_of_cons _; [lia|].
    rewrite Forall_forall in Ha. specialize (Ha y Hy). lia.
  - intros (Hx&Hfx&Hleast)%IH. split_and!; [by right|done|].
    intros y [->|Hy]%elem_of_cons Hfy; [congruence|auto].
Qed.

Lemma find_none_forall {A} (f : A → bool) l : List.find f l = None → ∀ y, y ∈ l → f y = false.
Proof. intros H y Hy%list_elem_of_In. by eapply List.find_none. Qed.

Lemma head_filter_find {A} (f : A → bool) l : head (List.filter f l) = List.find f l.
Proof. induction l as [|a l IH]; simpl; [done|]. by destruct (f a). Qed.

Lemma find_filter {A} (f g : A → bool) l :
  List.find g (List.filter f l) = List.find (λ x, f x && g x) l.
Proof. induction l as [|a l IH]; simpl; [done|]. destruct (f a) eqn:E; simpl; [|done]. by destruct (g a). Qed.

Lemma head_find {A} (l : list A) : head l = List.find (λ _, true) l.
Proof. by destruct l. Qed.

Section ring.
Context `{BT : BTree} `{HA : Hash64}.

Lemma bt_Min_least t x : bt_Min t = Some x → least_of (λ _, true) (bt_Ascend t) x.
Proof. unfold bt_Min. rewrite head_find. apply find_least, bt_Ascend_sorted. Qed.

Lemma bt_Min_none t : bt_Min t = None → bt_Ascend t = [].
Proof. unfold bt_Min. by destruct (bt_Ascend t). Qed.

(** The item [Get] finds for a hash *)
Definition owner_point (h : Z) (t : bt) : option Z :=
  match head (bt_AscendGreaterOrEqual h t) with Some i => Some i | None => bt_Min t end.

Lemma owner_point_spec h t x :
  owner_point h t = Some x →
  least_of (λ y, h <=? y) (bt_Ascend t) x ∨
  (∀ y, y ∈ bt_Ascend t → (h <=? y) = false) ∧ least_of (λ _, true) (bt_Ascend t) x.
Proof.
  unfold owner_point, bt_AscendGreaterOrEqual. rewrite head_filter_find.
  destruct (List.find _ _) as [y|] eqn:E.
  - intros [= ->]. left. by apply find_least; [apply bt_Ascend_sorted|].
  - intros Hm. right. split; [by apply find_none_forall|by apply bt_Min_least].
Qed.

Lemma owner_point_some h t : bt_Ascend t ≠ [] → is_Some (owner_point h t).
Proof.
  intros Hne. unfold owner_point. case_match; [by eexists|].
  destruct (bt_Min t) as [m|] eqn:E; [by eexists|]. by apply bt_Min_none in E.
Qed.

(** With more items, either an old owner stays or the owner is a new item. *)
Lemma owner_point_mono h t t' x :
  (∀ y, y ∈ bt_Ascend t → y ∈ bt_Ascend t') →
  owner_point h t' = Some x → x ∈ bt_Ascend t → owner_point h t = Some x.
Proof.
  intros Hsub Hx Hin. destruct (owner_point_some h t) as [y Hy].
  { intros Hnil. rewrite Hnil in Hin. by apply elem_of_nil in Hin. }
  rewrite Hy. f_equal. apply owner_point_spec in Hx, Hy.
  destruct Hx as [(?&?&Hx)|[Hnone (?&_&Hx)]], Hy as [(?&?&Hy)|[Hnone' (?&_&Hy)]];
    apply Z.le_antisymm; auto; try (by rewrite Hnone' in *); try (by rewrite Hnone in * by auto).
Qed.

(** ** Well-formed rings *)

Record ring_ok (c : Consistent) : Prop := {
  ring_points h : h ∈ bt_Ascend (clients c) ↔ is_Some (servers c !! h);
  ring_owner h s : servers c !! h = Some s →
    is_Some (loadMap c !! s) ∧ ∃ i, i ∈ replicas_of c ∧ h = hash (point_name s i);
}.

Lemma replicas_of_eq c c' : replicationFactor c = replicationFactor c' → replicas_of c = replicas_of c'.
Proof. unfold replicas_of. by intros ->. Qed.

Lemma add_point_points s c i :
  (∀ h, h ∈ bt_Ascend (clients c) ↔ is_Some (servers c !! h)) →
  ∀ h, h ∈ bt_Ascend (clients (add_point s c i)) ↔ is_Some (servers (add_point s c i) !! h).
Proof.
  intros Hc h. simpl. rewrite bt_Insert_elem, lookup_insert_is_Some, Hc.
  destruct (decide (hash (point_name s i) = h)); naive_solver.
Qed.

(** The points after adding the replicas [l] of [s] *)
Lemma add_points_servers s l c h s' :
  servers (foldl (add_point s) c l) !! h = Some s' →
  (s' = s ∧ ∃ i, i ∈ l ∧ h = hash (point_name s i)) ∨
  (servers c !! h = Some s' ∧ ∀ i, i ∈ l → h ≠ hash (point_name s i)).
Proof.
  revert c; induction l as [|i l IH]; intros c; simpl.
  { intros. right. split; [done|]. intros i Hi. by apply elem_of_nil in Hi. }
  intros [[-> (j&?&->)]|[Hs Hl]]%IH; [left; split; [done|]; exists j; by split; [right|]|].
  simpl in Hs. apply lookup_insert_Some in Hs as [[<- <-]|[? ?]].
  - left. split; [done|]. exists i. by split; [left|].
  - right. split; [done|]. intros j [->|?]%elem_of_cons; auto.
Qed.

Lemma add_points_mono s l c h :
  is_Some (servers c !! h) → is_Some (servers (foldl (add_point s) c l) !! h).
Proof.
  revert c; induction l as [|i l IH]; intros c Hh; simpl; [done|]. apply IH. simpl.
  rewrite lookup_insert_is_Some. destruct (decide (hash (point_name s i) = h)); auto.
Qed.

Lemma add_points_hit s l c i :
  i ∈ l → servers (foldl (add_point s) c l) !! hash (point_name s i) = Some s.
Proof.
  intros Hi. destruct (servers (foldl (add_point s) c l) !! hash (point_name s i)) as [s'|] eqn:E.
  - apply add_points_servers in E as [[-> _]|[_ Hn]]; [done|]. by destruct (Hn i Hi).
  - exfalso. apply eq_None_not_Some in E. apply E. clear E. revert c.
    induction l as [|j l IH]; intros c; [by apply elem_of_nil in Hi|].
    apply elem_of_cons in Hi as [->|Hi]; simpl; [|by apply IH].
    apply add_points_mono. simpl. rewrite lookup_insert_eq. eauto.
Qed.

Lemma add_points_keep s l c h :
  (∀ i, i ∈ l → h ≠ hash (point_name s i)) →
  servers (foldl (add_point s) c l) !! h = servers c !! h.
Proof.
  revert c; induction l as [|i l IH]; intros c Hl; simpl; [done|].
  rewrite IH by (intros; apply Hl; by right). simpl. apply lookup_insert_ne.
  intros Heq. apply (Hl i); [by left|done].
Qed.

Lemma foldl_add_point_frame s l c :
  loadMap (foldl (add_point s) c l) = loadMap c ∧ totalLoad (foldl (add_point s) c l) = totalLoad c ∧
  replicationFactor (foldl (add_point s) c l) = replicationFactor c.
Proof. revert c; induction l as [|i l IH]; intros c; simpl; [done|]. by rewrite !(proj1 (IH _)), (proj1 (proj2 (IH _))), (proj2 (proj2 (IH _))). Qed.

Lemma foldl_add_point_points s l c :
  (∀ h, h ∈ bt_Ascend (clients c) ↔ is_Some (servers c !! h)) →
  ∀ h, h ∈ bt_Ascend (clients (foldl (add_point s) c l)) ↔ is_Some (servers (foldl (add_point s) c l) !! h).
Proof.
  revert c; induction l as [|i l IH]; intros c Hc; simpl; [done|]. by apply IH, add_point_points.
Qed.

Lemma ring_ok_New rf : ring_ok (NewWithReplicationFactor rf).
Proof.
  split; simpl; [|done]. intros h. rewrite bt_New_empty, elem_of_nil, lookup_empty.
  by split; [|intros [? ?]].
Qed.

Lemma ring_ok_Add s c : ring_ok c → ring_ok (Add s c).
Proof.
  intros [Hp Ho]. unfold Add. destruct (loadMap c !! s) eqn:Hs; [done|].
  set (c1 := set_loads c _ _). change (replicas_of c1) with (replicas_of c).
  destruct (foldl_add_point_frame s (replicas_of c) c1) as (Hl&_&Hr).
  split.
  - by apply foldl_add_point_points.
  - intros h s' Hh. rewrite Hl, (replicas_of_eq _ _ Hr). simpl.
    apply add_points_servers in Hh as [[-> (i&?&->)]|[Hh _]].
    + rewrite lookup_insert_eq. eauto.
    + apply Ho in Hh as [[h' Hh'] ?]. split; [|done]. rewrite lookup_insert_ne by congruence. eauto.
Qed.

Lemma remove_points_servers s l c h s' :
  servers (foldl (remove_point s) c l) !! h = Some s' ↔
  servers c !! h = Some s' ∧ ∀ i, i ∈ l → h ≠ hash (point_name s i).
Proof.
  revert c; induction l as [|i l IH]; intros c; simpl.
  { split; [intros; split; [done|]|naive_solver]. intros i Hi. by apply elem_of_nil in Hi. }
  rewrite IH. simpl. rewrite lookup_delete_Some. setoid_rewrite elem_of_cons. naive_solver.
Qed.

Lemma foldl_remove_point_frame s l c :
  loadMap (foldl (remove_point s) c l) = loadMap c ∧
  replicationFactor (foldl (remove_point s) c l) = replicationFactor c.
Proof. revert c; induction l as [|i l IH]; intros c; simpl; [done|]. by rewrite !(proj1 (IH _)), (proj2 (IH _)). Qed.

Lemma foldl_remove_point_points s l c :
  (∀ h, h ∈ bt_Ascend (clients c) ↔ is_Some (servers c !! h)) →
  ∀ h, h ∈ bt_Ascend (clients (foldl (remove_point s) c l)) ↔ is_Some (servers (foldl (remove_point s) c l) !! h).
Proof.
  revert c; induction l as [|i l IH]; intros c Hc; simpl; [done|]. apply IH. intros h. simpl.
  rewrite bt_Delete_elem, lookup_delete_is_Some, Hc. naive_solver.
Qed.

Lemma ring_ok_Remove s c : ring_ok c → ring_ok (Remove s c).1.
Proof.
  intros [Hp Ho]. unfold Remove. destruct (foldl_remove_point_frame s (replicas_of c) c) as (Hl&Hr).
  split; simpl.
  - by apply foldl_remove_point_points.
  - intros h s' Hh. rewrite Hl. change (replicas_of (set_loads ?a _ _)) with (replicas_of a).
    rewrite (replicas_of_eq _ _ Hr).
    apply remove_points_servers in Hh as [Hh Hn]. apply Ho in Hh as [Hs' (i&Hi&->)].
    split; [|eauto]. rewrite lookup_delete_ne; [done|]. intros <-. by apply (Hn i Hi).
Qed.

Lemma ring_ok_loads c m t :
  (∀ s, is_Some (loadMap c !! s) → is_Some (m !! s)) → ring_ok c → ring_ok (set_loads c m t).
Proof. intros Hm [Hp Ho]. split; simpl; [done|]. intros h s Hh. apply Ho in Hh as [??]. auto. Qed.

Lemma ring_ok_UpdateLoad s n c : ring_ok c → ring_ok (UpdateLoad s n c).
Proof.
  unfold UpdateLoad. case_match; [|done]. intros Hc. apply ring_ok_loads; [|done].
  intros s' Hs'. rewrite lookup_insert_is_Some. destruct (decide (s = s')); auto.
Qed.

(** Rings reached by the operations of the package *)
Inductive ring_step : relation Consistent :=
  | ring_Add s c : ring_step c (Add s c)
  | ring_Remove s c : ring_step c (Remove s c).1
  | ring_UpdateLoad s n c : ring_step c (UpdateLoad s n c)
  | ring_add_load d s c : ring_step c (add_load d s c).

Lemma ring_ok_steps rf c : rtc ring_step (NewWithReplicationFactor rf) c → ring_ok c.
Proof.
  intros H. remember (NewWithReplicationFactor rf) as c0 eqn:E.
  assert (ring_ok c0) as H0 by (subst; apply ring_ok_New). clear E.
  induction H as [|c1 c2 c3 Hs _ IH]; [done|]. apply IH. destruct Hs.
  - by apply ring_ok_Add.
  - by apply ring_ok_Remove.
  - by apply ring_ok_UpdateLoad.
  - unfold add_load. case_match; [|done]. apply ring_ok_loads; [|done].
    intros s' Hs'. rewrite lookup_insert_is_Some. destruct (decide (s = s')); auto.
Qed.

(** [Get] by the owner of the hash *)
Lemma Get_owner client c :
  Get client c =
    match owner_point (hash client) (clients c) with
    | Some i => Found (default EmptyString (servers c !! i))
    | None => NoHosts
    end.
Proof.
  unfold Get. fold (owner_point (hash client) (clients c)).
  destruct (Nat.eqb_spec (bt_Len (clients c)) 0) as [Hl|Hl].
  - unfold bt_Len in Hl. apply length_zero_iff_nil in Hl.
    destruct (owner_point (hash client) (clients c)) as [i|] eqn:E; [|done].
    apply owner_point_spec in E. rewrite Hl in E.
    destruct E as [(Hin&_)|[_ (Hin&_)]]; by apply elem_of_nil in Hin.
  - destruct (owner_point_some (hash client) (clients c)) as [i ->]; [|done].
    unfold bt_Len in Hl. by intros Hn; rewrite Hn in Hl.
Qed.

Lemma owner_point_elem h t x : owner_point h t = Some x → x ∈ bt_Ascend t.
Proof. intros [(?&_)|[_ (?&_)]]%owner_point_spec; done. Qed.

(** Consistent hashing moves few clients: adding a server to a ring reached
    by the operations of the package leaves every client where it was or moves
    it to the new server, and every client of a ring with a server is served. *)
Theorem Add_consistent rf c server client :
  0 < replicationFactor c → rtc ring_step (NewWithReplicationFactor rf) c →
  loadMap c !! server = None →
  ∃ s, Get client (Add server c) = Found s ∧
    (s = server ∨ Get client c = Found s) ∧ is_Some (loadMap (Add server c) !! s).
Proof.
  intros Hrf Hc Hnew. apply ring_ok_steps in Hc as [Hp Ho].
  destruct (ring_ok_Add server c {| ring_points := Hp; ring_owner := Ho |}) as [Hp' Ho'].
  rewrite !Get_owner. unfold Add in *. rewrite Hnew in *. set (c1 := set_loads c _ _) in *.
  change (replicas_of c1) with (replicas_of c) in *. set (c' := foldl (add_point server) c1 (replicas_of c)) in *.
  assert (bt_Ascend (clients c') ≠ []) as Hne.
  { assert (0%nat ∈ replicas_of c) as H0 by (apply elem_of_seq; lia).
    pose proof (add_points_hit server (replicas_of c) c1 0 H0) as Hs. intros Hnil.
    assert (hash (point_name server 0) ∈ bt_Ascend (clients c')) as Hin by (apply Hp'; eauto).
    rewrite Hnil in Hin. by apply elem_of_nil in Hin. }
  destruct (owner_point_some (hash client) (clients c') Hne) as [x Hx]. rewrite Hx.
  pose proof (owner_point_elem _ _ _ Hx) as Hin. apply Hp' in Hin as [s Hs]. rewrite Hs. simpl.
  exists s. split_and!; [done| |by apply (Ho' x)].
  apply add_points_servers in Hs as [[-> _]|[Hs _]]; [by left|right].
  change (servers c !! x = Some s) in Hs.
  rewrite (owner_point_mono (hash client) (clients c) (clients c') x); [by rewrite Hs| |done|].
  - intros y Hy. apply Hp', add_points_mono. by apply Hp.
  - apply Hp. eauto.
Qed.

(** ** Bounded loads *)

Definition total_of (m : gmap string Host) : Z := map_fold (λ _ h t, Load h + t) 0 m.

Lemma total_of_insert m s h : m !! s = None → total_of (<[s:=h]> m) = Load h + total_of m.
Proof. intros Hs. unfold total_of. apply (map_fold_insert_L (λ _ h t, Load h + t)); [lia|done]. Qed.

Lemma total_of_update m s h h' :
  m !! s = Some h → total_of (<[s:=h']> m) = total_of m - Load h + Load h'.
Proof.
  intros Hs. rewrite <-(insert_delete_id m s h Hs) at 2. rewrite <-insert_delete_eq.
  rewrite !total_of_insert by apply lookup_delete_eq. lia.
Qed.

Lemma total_of_lower (m : gmap string Host) b :
  (∀ s h, m !! s = Some h → b ≤ Load h) → Z.of_nat (size m) * b ≤ total_of m.
Proof.
  induction m as [|s h m Hs IH] using map_ind; intros Hb; [done|].
  rewrite map_size_insert_None, total_of_insert by done.
  assert (b ≤ Load h) by (eapply Hb; apply lookup_insert_eq).
  assert (Z.of_nat (size m) * b ≤ total_of m); [|lia].
  apply IH. intros s' h' Hs'. apply (Hb s'). rewrite lookup_insert_ne; congruence.
Qed.

Lemma total_of_zero (m : gmap string Host) : (∀ s h, m !! s = Some h → Load h = 0) → total_of m = 0.
Proof.
  induction m as [|s h m Hs IH] using map_ind; intros Hz; [done|].
  rewrite total_of_insert, (Hz s h), IH; [done| |apply lookup_insert_eq|done].
  intros s' h' Hs'. apply (Hz s'). rewrite lookup_insert_ne; congruence.
Qed.

(** Loads are counts, their sum is the total and fits the machine. *)
Record loads_ok (c : Consistent) : Prop := {
  loads_nonneg s h : loadMap c !! s = Some h → 0 ≤ Load h;
  loads_total : total_of (loadMap c) = totalLoad c;
  loads_fit : totalLoad c < int_max;
}.

Lemma loads_ok_total_nonneg c : loads_ok c → 0 ≤ totalLoad c.
Proof. intros [Hn <- _]. pose proof (total_of_lower (loadMap c) 0 Hn). lia. Qed.

(** The load a server must stay below to be chosen *)
Definition load_bound (c : Consistent) : Z :=
  ceil_125 (avg_load (totalLoad c + 1) (Z.of_nat (size (loadMap c)))).

Lemma loadOK_eval s h c :
  loads_ok c → loadMap c !! s = Some h → loadOK s c = Some (Load h <? load_bound c, c).
Proof.
  intros Hl Hs. pose proof (loads_ok_total_nonneg c Hl). unfold loadOK, load_bound.
  rewrite (proj2 (Z.ltb_ge _ _)) by lia.
  destruct (Nat.eqb_spec (size (loadMap c)) 0) as [Hz|_].
  { apply map_size_empty_inv in Hz. by rewrite Hz, lookup_empty in Hs. }
  rewrite Hs, wrap64_id; [done|]. destruct Hl as [_ _ ?]. unfold in_int64, int_min, int_max in *. lia.
Qed.

Lemma avg_load_max t n : 0 ≤ t → 0 < n → avg_load t n = Z.max 1 (t / n).
Proof.
  intros Ht Hn. unfold avg_load. rewrite Z.quot_div_nonneg by lia.
  assert (0 ≤ t / n) by (apply Z.div_pos; lia). destruct (Z.eqb_spec (t / n) 0); lia.
Qed.

Lemma load_bound_avg c :
  loads_ok c → loadMap c ≠ ∅ → totalLoad c + 1 < Z.of_nat (size (loadMap c)) * load_bound c.
Proof.
  intros Hl Hne. pose proof (loads_ok_total_nonneg c Hl).
  assert (0 < Z.of_nat (size (loadMap c))) as Hn.
  { apply map_size_non_empty_iff in Hne. lia. }
  unfold load_bound, avg_load. set (n := Z.of_nat (size (loadMap c))) in *.
  rewrite Z.quot_div_nonneg by lia. pose proof (Z.div_mod (totalLoad c + 1) n ltac:(lia)).
  pose proof (Z.mod_pos_bound (totalLoad c + 1) n Hn).
  pose proof (Z.div_pos (totalLoad c + 1) n ltac:(lia) Hn). set (q := (totalLoad c + 1) / n) in *.
  assert (∀ a, 1 ≤ a → a + 1 ≤ ceil_125 a) as Hceil.
  { intros a Ha. unfold ceil_125. apply Z.div_le_lower_bound; lia. }
  destruct (Z.eqb_spec q 0) as [Hq|Hq].
  - pose proof (Hceil 1 ltac:(lia)). nia.
  - pose proof (Hceil q ltac:(lia)). nia.
Qed.

(** Some server is below the bound: otherwise the loads would exceed their sum. *)
Lemma underloaded_server c :
  loads_ok c → loadMap c ≠ ∅ → ∃ s h, loadMap c !! s = Some h ∧ Load h < load_bound c.
Proof.
  intros Hl Hne. pose proof (load_bound_avg c Hl Hne).
  destruct (decide (map_Forall (λ _ h, load_bound c ≤ Load h) (loadMap c))) as [Ha|Ha].
  - apply total_of_lower in Ha. pose proof (loads_total c Hl). lia.
  - apply map_not_Forall in Ha as (s&h&?&?); [|apply _]. exists s, h. split; [done|lia].
Qed.

(** *** The loop of [GetLeast] *)

Lemma next_point_spec h c x :
  next_point h c = Some x →
  least_of (λ y, h <? y) (bt_Ascend (clients c)) x ∨
  (∀ y, y ∈ bt_Ascend (clients c) → y ≤ h) ∧ least_of (λ _, true) (bt_Ascend (clients c)) x.
Proof.
  unfold next_point, bt_AscendGreaterOrEqual. rewrite find_filter.
  assert (∀ y, (h <=? y) && negb (h =? y) = (h <? y)) as Heq.
  { intros y. apply eq_bool_prop_intro. rewrite !Is_true_true. breflect. lia. }
  rewrite (find_ext _ _ _ Heq).
  destruct (List.find _ _) as [y|] eqn:E.
  - intros [= ->]. left. by apply find_least; [apply bt_Ascend_sorted|].
  - intros Hm%bt_Min_least. right. split; [|done]. intros y Hy.
    apply (find_none_forall _ _ E), Z.ltb_ge in Hy. done.
Qed.

Lemma next_point_some h c : bt_Ascend (clients c) ≠ [] → ∃ x, next_point h c = Some x.
Proof.
  intros Hne. unfold next_point. case_match; [by eexists|].
  destruct (bt_Min (clients c)) as [m|] eqn:E; [by eexists|]. by apply bt_Min_none in E.
Qed.
(** Every server has a point on the ring. *)
Definition servers_on_ring (c : Consistent) : Prop :=
  ∀ s, is_Some (loadMap c !! s) → ∃ p, servers c !! p = Some s.

(** More fuel than enough gives the same answer. *)
Lemma least_loop_mono n m client h c r :
  least_loop n client h c = Some r → (n ≤ m)%nat → least_loop m client h c = Some r.
Proof.
  revert m h c; induction n as [|n IH]; intros [|m] h c; simpl; try done; try lia.
  repeat case_match; try done. intros. apply IH; [done|lia].
Qed.

Section turn.
Context (c : Consistent) (Hring : ring_ok c) (Hload : loads_ok c).

(** The loop has found a server below the bound, and changed nothing. *)
Definition found_ok (r : option (lookup_result * Consistent)) : Prop :=
  ∃ s h, r = Some (Found s, c) ∧ loadMap c !! s = Some h ∧ Load h < load_bound c.

Lemma least_loop_step fuel client h x :
  next_point h c = Some x → x ∈ bt_Ascend (clients c) →
  found_ok (least_loop (S fuel) client h c) ∨
  (least_loop (S fuel) client h c = least_loop fuel client x c ∧
   ∀ s hh, servers c !! x = Some s → loadMap c !! s = Some hh → load_bound c ≤ Load hh).
Proof.
  intros Hx Hin. cbn [least_loop]. rewrite Hx. unfold bt_Get. rewrite bool_decide_eq_true_2 by done.
  apply ring_points in Hin as [s Hs]; [|done]. rewrite Hs. simpl.
  destruct (ring_owner _ Hring _ _ Hs) as [[hh Hh] _]. rewrite (loadOK_eval _ _ _ Hload Hh).
  destruct (Z.ltb_spec (Load hh) (load_bound c)).
  - left. exists s, hh. done.
  - right. split; [done|]. intros. simplify_eq. done.
Qed.

Context (client : string) (p : Z) (s : string) (hh : Host).
Context (Hp : servers c !! p = Some s) (Hh : loadMap c !! s = Some hh) (Hlow : Load hh < load_bound c).

Lemma target_in : p ∈ bt_Ascend (clients c).
Proof. apply ring_points; [done|]. eauto. Qed.

(** Before the target, the loop moves towards it. *)
Lemma least_loop_before fuel h :
  h < p → (length (List.filter (λ x, (h <? x)%Z && (x <=? p)%Z) (bt_Ascend (clients c))) ≤ fuel)%nat →
  found_ok (least_loop fuel client h c).
Proof.
  pose proof target_in as Hpin.
  revert h; induction fuel as [|fuel IH]; intros h Hhp Hlen.
  { exfalso. apply Nat.le_0_r, length_zero_iff_nil in Hlen.
    assert (p ∈ List.filter (λ x, (h <? x) && (x <=? p)) (bt_Ascend (clients c))) as Hin.
    { apply list_elem_of_In, List.filter_In. split; [by apply list_elem_of_In|]. breflect. lia. }
    rewrite Hlen in Hin. by apply elem_of_nil in Hin. }
  destruct (next_point_some h c) as [x Hx]; [by intros Hn; rewrite Hn in Hpin; apply elem_of_nil in Hpin|].
  destruct (next_point_spec _ _ _ Hx) as [(Hin&Hlt&Hleast)|[Hn _]]; [|specialize (Hn p Hpin); lia].
  apply Z.ltb_lt in Hlt. assert (x ≤ p) as Hxp by (apply Hleast; [done|by apply Z.ltb_lt]).
  destruct (least_loop_step fuel client h x Hx Hin) as [|[-> Hhigh]]; [done|].
  assert (x ≠ p) by (intros ->; specialize (Hhigh _ _ Hp Hh); lia).
  apply IH; [lia|]. apply Nat.lt_succ_r. eapply Nat.lt_le_trans; [|exact Hlen].
  apply (filter_length_lt _ _ _ x); [|done|..]; breflect; intros; breflect; lia.
Qed.

(** From the target on, the loop goes around first. *)
Lemma least_loop_after fuel h :
  p ≤ h →
  (length (List.filter (λ x, (h <? x)%Z) (bt_Ascend (clients c))) + 1 + length (bt_Ascend (clients c)) ≤ fuel)%nat →
  found_ok (least_loop fuel client h c).
Proof.
  pose proof target_in as Hpin.
  revert h; induction fuel as [|fuel IH]; intros h Hph Hlen; [lia|].
  destruct (next_point_some h c) as [x Hx]; [by intros Hn; rewrite Hn in Hpin; apply elem_of_nil in Hpin|].
  destruct (next_point_spec _ _ _ Hx) as [(Hin&Hlt&Hleast)|[Hn (Hin&_&Hleast)]].
  - apply Z.ltb_lt in Hlt. destruct (least_loop_step fuel client h x Hx Hin) as [|[-> _]]; [done|].
    apply IH; [lia|]. assert (length (List.filter (λ y, (x <? y)%Z) (bt_Ascend (clients c))) <
      length (List.filter (λ y, (h <? y)%Z) (bt_Ascend (clients c))))%nat; [|lia].
    apply (filter_length_lt _ _ _ x); [|done|..]; breflect; intros; breflect; lia.
  - destruct (least_loop_step fuel client h x Hx Hin) as [|[-> Hhigh]]; [done|].
    assert (x ≤ p) by auto. assert (x ≠ p) by (intros ->; specialize (Hhigh _ _ Hp Hh); lia).
    apply least_loop_before; [lia|]. etrans; [apply List.filter_length_le|]. lia.
Qed.
End turn.

(** The lookup ends within a turn of the ring, at a server below the bound. *)
Lemma least_loop_ok fuel client c :
  ring_ok c → loads_ok c → servers_on_ring c → loadMap c ≠ ∅ → (turn c ≤ fuel)%nat →
  bt_Len (clients c) ≠ 0%nat ∧ found_ok c (least_loop fuel client (hash client) c).
Proof.
  intros Hring Hload Hon Hne. destruct (underloaded_server c Hload Hne) as (s&hh&Hs&Hlow).
  destruct (Hon s) as [p Hp]; [eauto|]. pose proof (target_in c Hring p s Hp) as Hin.
  unfold turn, bt_Len. intros Hfuel. split.
  { intros Hz%length_zero_iff_nil. rewrite Hz in Hin. by apply elem_of_nil in Hin. }
  pose proof (List.filter_length_le (λ x, (hash client <? x) && (x <=? p)) (bt_Ascend (clients c))).
  pose proof (List.filter_length_le (λ x, hash client <? x) (bt_Ascend (clients c))).
  destruct (Z.lt_ge_cases (hash client) p).
  - eapply least_loop_before; [done..|lia].
  - eapply least_loop_after; [done..|lia].
Qed.

Lemma GetLeast_ok client c :
  ring_ok c → loads_ok c → servers_on_ring c → loadMap c ≠ ∅ → found_ok c (GetLeast client c).
Proof.
  intros. destruct (least_loop_ok (turn c) client c) as [Hn Hok]; [done..|]. unfold GetLeast.
  by rewrite (proj2 (Nat.eqb_neq _ _) Hn).
Qed.

(** The search for a server that is not overloaded ends: on a ring where
    every server has a point and the total is the sum of the loads, the loop of
    [GetLeast] stops within one turn, whatever the number of steps it is
    allowed beyond that, with a server of the ring whose load is below a quarter
    above the average, and leaves the ring as it was. *)
Theorem GetLeast_terminates client c fuel :
  ring_ok c → loads_ok c → servers_on_ring c → loadMap c ≠ ∅ → (turn c ≤ fuel)%nat →
  ∃ s h, GetLeast client c = Some (Found s, c) ∧
    least_loop fuel client (hash client) c = Some (Found s, c) ∧
    loadMap c !! s = Some h ∧
    Load h < ceil_125 (Z.max 1 ((totalLoad c + 1) / Z.of_nat (size (loadMap c)))).
Proof.
  intros Hring Hload Hon Hne Hfuel.
  destruct (GetLeast_ok client c) as (s&h&Hs&Hh&Hlow); [done..|].
  exists s, h. split_and!; [done| |done|].
  - unfold GetLeast in Hs. destruct (Nat.eqb _ _); [done|].
    by rewrite (least_loop_mono _ fuel _ _ _ _ Hs).
  - pose proof (loads_ok_total_nonneg c Hload). unfold load_bound in Hlow.
    assert (0 < Z.of_nat (size (loadMap c))) by (apply map_size_non_empty_iff in Hne; lia).
    by rewrite avg_load_max in Hlow by lia.
Qed.
End ring.

(** ** A sorted list as an ordered set *)

Fixpoint zinsert (x : Z) (l : list Z) : list Z :=
  match l with
  | [] => [x]
  | y :: r => if x <? y then x :: l else if x =? y then l else y :: zinsert x r
  end.

Lemma elem_of_zinsert x y l : x ∈ zinsert y l ↔ x = y ∨ x ∈ l.
Proof.
  induction l as [|z l IH]; simpl; [by rewrite list_elem_of_singleton, elem_of_nil; tauto|].
  destruct (Z.ltb_spec y z); [by rewrite elem_of_cons|].
  destruct (Z.eqb_spec y z) as [->|]; rewrite ?elem_of_cons, ?IH; tauto.
Qed.

Lemma zinsert_sorted x l : StronglySorted Z.lt l → StronglySorted Z.lt (zinsert x l).
Proof.
  induction 1 as [|y l Hl IH Hy]; simpl; [repeat constructor|].
  destruct (Z.ltb_spec x y); [|destruct (Z.eqb_spec x y)].
  - constructor; [by constructor|]. constructor; [done|].
    eapply Forall_impl; [exact Hy|]. simpl. lia.
  - by constructor.
  - constructor; [done|]. apply Forall_forall. intros z [->|Hz]%elem_of_zinsert; [lia|].
    rewrite Forall_forall in Hy. auto.
Qed.

Lemma filter_sorted {A} (R : relation A) (f : A → bool) l :
  StronglySorted R l → StronglySorted R (List.filter f l).
Proof.
  induction 1 as [|y l Hl IH Hy]; simpl; [constructor|]. case_match; [|done].
  constructor; [done|]. rewrite Forall_forall in *. intros z [Hz _]%list_elem_of_In%List.filter_In.
  apply Hy. by apply list_elem_of_In.
Qed.

Definition zset : Type := { l : list Z | StronglySorted Z.lt l }.

Definition list_BTree : BTree.
Proof.
  refine {|
    bt := zset;
    bt_New := exist _ [] (SSorted_nil _);
    bt_ReplaceOrInsert x t := exist _ (zinsert x (proj1_sig t)) (zinsert_sorted x _ (proj2_sig t));
    bt_Delete x t := exist _ (List.filter (λ y, negb (x =? y)) (proj1_sig t)) (filter_sorted _ _ _ (proj2_sig t));
    bt_Ascend := proj1_sig;
    bt_Ascend_sorted := @proj2_sig _ _;
    bt_New_empty := eq_refl;
    bt_Insert_elem x y t := elem_of_zinsert x y _;
  |}.
  abstract (intros x y [l Hl]; simpl; rewrite !list_elem_of_In, List.filter_In; breflect; naive_solver).
Defined.

(** A hash without collisions: the encoding of strings as numbers *)
Definition encode_hash : Hash64 := {| hash s := Zpos (encode s) |}.

(** Names of points run into each other once there are more than ten shards:
    the later shard takes the point of the earlier one. *)
Lemma point_names_collide : point_name "1" 23 = point_name "12" 3.
Proof. reflexivity. Qed.
