(* ===== verification/Sharding.v ===== *)
(** * Distribution of clusters over controller replicas (src/controller/sharding)

    Each replica of the application controller processes the clusters of its own
    shard.  Every replica computes the assignment for itself, from the clusters
    and applications it sees, by one of three algorithms; the assignment is kept
    in a cache ([ClusterSharding]) updated on every event. *)

From S2P Require Import Prelude GoStd AppTypes Consistent.
From Stdlib Require Import Ascii.
Local Open Scope string_scope.
Local Open Scope list_scope.
Local Open Scope Z_scope.

(** ** Hashing of cluster ids *)

(** [hash/fnv.New32a] *)
Definition fnv32a_step (h : Z) (c : ascii) : Z :=
  (Z.lxor h (Z.of_nat (nat_of_ascii c)) * 16777619) mod 2 ^ 32.

Fixpoint fnv32a_from (h : Z) (s : string) : Z :=
  match s with "" => h | String c r => fnv32a_from (fnv32a_step h c) r end.

Definition fnv32a (s : string) : Z := fnv32a_from 2166136261 s.

(** The published test vectors of the hash *)
Example fnv32a_ex : (fnv32a "", fnv32a "a", fnv32a "foobar") = (0x811c9dc5, 0xe40c292c, 0xbf9cf968).
Proof. vm_compute. reflexivity. Qed.

(** ** Distribution functions

    [None] is a panic or a search that does not end. *)

(** A manually set shard below the number of replicas *)
Definition manual_shard (c : Cluster) (replicas : Z) : option Z :=
  match ClusterShard c with
  | Some s => if s <? replicas then Some s else None
  | None => None
  end.

Definition LegacyDistributionFunction (replicas : Z) (c : option Cluster) : option Z :=
  if replicas =? 0 then Some (-1)
  else
    match c with
    | None => Some 0
    | Some c =>
        match manual_shard c replicas with
        | Some s => Some s
        | None =>
            if String.eqb (ClusterID c) "" then Some 0
            else
              let m := replicas mod 2 ^ 32 in
              if m =? 0 then None else Some (wrap32 (fnv32a (ClusterID c) mod m))
        end
    end.

Section distribution.
Context `{RT : GoRuntime}.

(** [getSortedClustersList]: [sort.Slice] by id *)
Definition getSortedClustersList (clusters : list Cluster) : list Cluster :=
  go_sort (λ a b, string_lt (ClusterID a) (ClusterID b)) clusters.

Definition createClusterIndexByClusterIdMap (clusters : list Cluster) : gmap string Z :=
  foldl (λ m '(i, c), <[ClusterID c := Z.of_nat i]> m) ∅
    (zip (seq 0 (length clusters)) (getSortedClustersList clusters)).

Definition RoundRobinDistributionFunction (clusters : list Cluster) (replicas : Z) (c : option Cluster)
    : option Z :=
  if 0 <? replicas then
    match c with
    | None => Some 0
    | Some c =>
        match manual_shard c replicas with
        | Some s => Some s
        | None =>
            match createClusterIndexByClusterIdMap clusters !! ClusterID c with
            | None => Some (-1)
            | Some clusterIndex => Some (Z.rem clusterIndex replicas)
            end
        end
    end
  else Some (-1).

(** The number of applications of every destination server; the counter is an
    [int64]. *)
Definition getAppDistribution (apps : list Application) : gmap string Z :=
  foldl (λ m a, let s := Server (Destination a) in
                let m := match m !! s with None => <[s := 0]> m | Some _ => m end in
                <[s := wrap64 (default 0 (m !! s) + 1)]> m) ∅ apps.

Context `{BT : BTree} `{HA : Hash64}.

(** The state of the loop of [createConsistentHashingWithBoundLoads] *)
Record assignment := {
  ring : Consistent;
  appsIndexedByShard : gmap string Z;
  shardIndexedByCluster : gmap string Z;
}.

(** One cluster: [None] when the search for a shard does not end or panics. *)
Definition assign_cluster (appDistribution : gmap string Z) (st : assignment) (c : Cluster)
    : option assignment :=
  '(r, ring) ← GetLeast (ClusterID c) (ring st);
  clusterIndex ← (match r with Found s => Some s | NoHosts => Some "" | LookupPanic => None end);
  let shard := default 0 (Atoi clusterIndex) in
  let numApps := default 0 (appDistribution !! ClusterServer c) in
  let load := wrap64 (default 0 (appsIndexedByShard st !! clusterIndex) + numApps) in
  Some {| ring := UpdateLoad clusterIndex load ring;
          appsIndexedByShard := <[clusterIndex := load]> (appsIndexedByShard st);
          shardIndexedByCluster := <[ClusterID c := shard]> (shardIndexedByCluster st) |}.

Fixpoint assign_clusters (appDistribution : gmap string Z) (st : assignment) (l : list Cluster)
    : option assignment :=
  match l with
  | [] => Some st
  | c :: r => st ← assign_cluster appDistribution st c; assign_clusters appDistribution st r
  end.

(** [strconv.Itoa] of the shards [0 .. replicas-1] *)
Definition shard_names (replicas : Z) : list string := pretty <$> seq 0 (Z.to_nat replicas).

Definition init_assignment (replicas : Z) : assignment :=
  {| ring := foldl (λ r s, Add s r) New (shard_names replicas);
     appsIndexedByShard := foldl (λ m s, <[s := 0]> m) ∅ (shard_names replicas);
     shardIndexedByCluster := ∅ |}.

Definition createConsistentHashingWithBoundLoads (replicas : Z) (clusters : list Cluster)
    (apps : list Application) : option (gmap string Z) :=
  shardIndexedByCluster <$>
    assign_clusters (getAppDistribution apps) (init_assignment replicas) (getSortedClustersList clusters).

(** [slices.Contains(clusters(), c)] compares pointers. *)
Definition contains_cluster (clusters : list Cluster) (c : Cluster) : bool :=
  existsb (λ c', Pos.eqb (ClusterPtr c) (ClusterPtr c')) clusters.

Definition ConsistentHashingWithBoundedLoadsDistributionFunction (clusters : list Cluster)
    (apps : list Application) (replicas : Z) (c : option Cluster) : option Z :=
  if 0 <? replicas then
    match c with
    | None => Some 0
    | Some c =>
        match manual_shard c replicas with
        | Some s => Some s
        | None =>
            if negb (contains_cluster clusters c) then Some (-1)
            else
              m ← createConsistentHashingWithBoundLoads replicas clusters apps;
              Some (default (-1) (m !! ClusterID c))
        end
    end
  else Some (-1).

Definition RoundRobinShardingAlgorithm : string := "round-robin".
Definition LegacyShardingAlgorithm : string := "legacy".
Definition ConsistentHashingWithBoundedLoadsAlgorithm : string := "consistent-hashing".

Definition GetDistributionFunction (clusters : list Cluster) (apps : list Application)
    (shardingAlgorithm : string) (replicasCount : Z) : option Cluster → option Z :=
  if String.eqb shardingAlgorithm RoundRobinShardingAlgorithm then
    RoundRobinDistributionFunction clusters replicasCount
  else if String.eqb shardingAlgorithm LegacyShardingAlgorithm then
    LegacyDistributionFunction replicasCount
  else if String.eqb shardingAlgorithm ConsistentHashingWithBoundedLoadsAlgorithm then
    ConsistentHashingWithBoundedLoadsDistributionFunction clusters apps replicasCount
  else LegacyDistributionFunction replicasCount.

Definition NoShardingDistributionFunction (_ : option Cluster) : option Z := Some 0.

(** [GetClusterFilter] *)
Definition GetClusterFilter (distributionFunction : option Cluster → option Z) (replicas shard : Z)
    (c : option Cluster) : option bool :=
  clusterShard ← (match c ≫= ClusterShard with
                  | Some requestedShard => if requestedShard <? replicas then Some requestedShard else Some 0
                  | None => distributionFunction c
                  end);
  Some (clusterShard =? shard).
End distribution.

(** ** Sorting by a string key *)

Lemma string_lt_total a b : string_lt a b = false → string_lt b a = false → a = b.
Proof.
  revert b; induction a as [|x a IH]; intros [|y b]; simpl; try done.
  destruct (Nat.ltb_spec (nat_of_ascii x) (nat_of_ascii y)); [done|].
  destruct (Nat.ltb_spec (nat_of_ascii y) (nat_of_ascii x)); [done|].
  intros Hab Hba. f_equal; [|by apply IH].
  rewrite <-(ascii_nat_embedding x), <-(ascii_nat_embedding y). f_equal. lia.
Qed.

Lemma string_key_weak {A} (key : A → string) l :
  strict_weak_on (λ a b, string_lt (key a) (key b)) l.
Proof.
  split.
  - intros. apply string_lt_irrefl.
  - intros. by apply string_lt_asym.
  - intros. by apply string_lt_cotrans.
Qed.

(** Two runtimes sort the same values in the same order when the keys tell the
    values apart. *)
Lemma sort_view_unique {A B} (R1 R2 : GoRuntime) (view : A → B) (key : B → string) (l1 l2 : list A) :
  view <$> l1 ≡ₚ view <$> l2 →
  (∀ x y, x ∈ view <$> l1 → y ∈ view <$> l1 → key x = key y → x = y) →
  view <$> @go_sort R1 A (λ a b, string_lt (key (view a)) (key (view b))) l1 =
  view <$> @go_sort R2 A (λ a b, string_lt (key (view a)) (key (view b))) l2.
Proof.
  intros Hp Hkey. set (less := λ a b, string_lt (key (view a)) (key (view b))).
  assert (∀ R : GoRuntime, ∀ l, StronglySorted (λ x y, string_lt (key y) (key x) = false)
    (view <$> @go_sort R A less l)) as Hs.
  { intros R l. pose proof (@go_sort_sorted R A less l (string_key_weak (key ∘ view) l)) as H.
    unfold sorted_by in H. induction H as [|a k _ IH Ha]; simpl; constructor; [done|].
    by apply Forall_fmap. }
  assert (∀ (R : GoRuntime) l, view <$> @go_sort R A less l ≡ₚ view <$> l) as Hperm.
  { intros R l. by rewrite (@go_sort_perm R). }
  apply (StronglySorted_unique_strong (λ x y, string_lt (key y) (key x) = false)); [|done|done|].
  2:{ by rewrite (Hperm R1), (Hperm R2). }
  intros x y Hx Hy Hxy Hyx. rewrite (Hperm R1) in Hx. rewrite (Hperm R2), <-Hp in Hy.
  apply Hkey; [done..|]. by apply string_lt_total.
Qed.

(** ** Facts on the assignments *)

Section facts.
Context `{RT : GoRuntime}.

Lemma length_sorted l : length (getSortedClustersList l) = length l.
Proof. unfold getSortedClustersList. by rewrite go_sort_perm. Qed.

Lemma elem_of_sorted c l : c ∈ getSortedClustersList l ↔ c ∈ l.
Proof. unfold getSortedClustersList. by rewrite go_sort_perm. Qed.

(** The index map of a list of ids: the last index of an id wins. *)
Definition index_ids (ids : list string) : gmap string Z :=
  foldl (λ m '(i, s), <[s := Z.of_nat i]> m) ∅ (zip (seq 0 (length ids)) ids).

Lemma cluster_index_ids l :
  createClusterIndexByClusterIdMap l = index_ids (ClusterID <$> getSortedClustersList l).
Proof.
  unfold createClusterIndexByClusterIdMap, index_ids. rewrite length_fmap, length_sorted.
  generalize (getSortedClustersList l) (seq 0 (length l)) (∅ : gmap string Z).
  intros k. induction k as [|c k IH]; intros [|i s] m; simpl; [done..|]. apply IH.
Qed.

Lemma index_ids_from (ids : list string) n (m : gmap string Z) s i :
  foldl (λ m '(i, s), <[s := Z.of_nat i]> m) m (zip (seq n (length ids)) ids) !! s = Some i →
  m !! s = Some i ∨ ∃ j, i = Z.of_nat (n + j) ∧ ids !! j = Some s.
Proof.
  revert n m; induction ids as [|x ids IH]; intros n m; simpl; [by left|].
  intros [Hm|(j&->&Hj)]%IH.
  - apply lookup_insert_Some in Hm as [[-> <-]|[_ ?]]; [|by left].
    right. exists 0%nat. split; [f_equal; lia|done].
  - right. exists (S j). split; [f_equal; lia|done].
Qed.

Lemma index_ids_some ids s i :
  index_ids ids !! s = Some i → ∃ j, i = Z.of_nat j ∧ ids !! j = Some s.
Proof. intros [?|(j&->&?)]%index_ids_from; [done|]. eauto. Qed.

Lemma index_ids_elem ids s : s ∈ ids → is_Some (index_ids ids !! s).
Proof.
  unfold index_ids. generalize 0%nat (∅ : gmap string Z). intros n m Hs.
  assert (s ∈ ids ∨ is_Some (m !! s)) as Hor by by left. clear Hs. revert n m Hor.
  induction ids as [|x ids IH]; intros n m Hor; simpl.
  { destruct Hor as [H|H]; [by apply elem_of_nil in H|done]. }
  apply IH. rewrite lookup_insert_is_Some. destruct (decide (x = s)) as [->|Hne]; [by right; left|].
  destruct Hor as [[->|?]%elem_of_cons|?]; auto.
Qed.

(** With distinct ids, the index of an id is its position. *)
Lemma index_ids_lookup ids j s : NoDup ids → ids !! j = Some s → index_ids ids !! s = Some (Z.of_nat j).
Proof.
  intros Hnd Hj. destruct (index_ids_elem ids s) as [i Hi]; [by eapply list_elem_of_lookup_2|].
  rewrite Hi. apply index_ids_some in Hi as (k&->&Hk). do 2 f_equal. by eapply NoDup_lookup.
Qed.

Lemma round_robin_eval l replicas c :
  0 < replicas → manual_shard c replicas = None → c ∈ l →
  ∃ j, index_ids (ClusterID <$> getSortedClustersList l) !! ClusterID c = Some (Z.of_nat j) ∧
    (j < length l)%nat ∧
    RoundRobinDistributionFunction l replicas (Some c) = Some (Z.of_nat j mod replicas).
Proof.
  intros Hr Hm Hc. unfold RoundRobinDistributionFunction.
  rewrite (proj2 (Z.ltb_lt _ _) Hr), Hm, cluster_index_ids.
  destruct (index_ids_elem (ClusterID <$> getSortedClustersList l) (ClusterID c)) as [i Hi].
  { apply list_elem_of_fmap. exists c. by rewrite elem_of_sorted. }
  rewrite Hi. apply index_ids_some in Hi as Hj. destruct Hj as (j&->&Hj).
  exists j. split_and!; [done| |].
  - apply lookup_lt_Some in Hj. by rewrite length_fmap, length_sorted in Hj.
  - f_equal. rewrite Z.rem_mod_nonneg by lia. done.
Qed.
End facts.

(** ** Round robin is balanced *)

Lemma count_mod (r j : Z) (n : nat) :
  0 < r → 0 ≤ j < r →
  Z.of_nat (length (List.filter (λ i, Z.of_nat i mod r =? j) (seq 0 n))) =
  Z.of_nat n / r + (if j <? Z.of_nat n mod r then 1 else 0).
Proof.
  intros Hr Hj. induction n as [|n IH].
  { simpl. rewrite Z.mod_0_l, Z.div_0_l by lia. destruct (Z.ltb_spec j 0); lia. }
  rewrite seq_S, List.filter_app, length_app, Nat2Z.inj_add, IH. simpl.
  pose proof (Z.div_mod (Z.of_nat n) r ltac:(lia)) as Hn. pose proof (Z.mod_pos_bound (Z.of_nat n) r Hr).
  set (q := Z.of_nat n / r) in *. set (m := Z.of_nat n mod r) in *.
  destruct (Z.eq_dec m (r - 1)) as [Hm|Hm].
  - assert (Z.of_nat (S n) / r = q + 1) as -> by (symmetry; apply (Z.div_unique _ _ _ 0); lia).
    assert (Z.of_nat (S n) mod r = 0) as -> by (symmetry; apply (Z.mod_unique _ _ (q + 1)); lia).
    destruct (Z.eqb_spec m j), (Z.ltb_spec j m), (Z.ltb_spec j 0); simpl; lia.
  - assert (Z.of_nat (S n) / r = q) as -> by (symmetry; apply (Z.div_unique _ _ _ (m + 1)); lia).
    assert (Z.of_nat (S n) mod r = m + 1) as -> by (symmetry; apply (Z.mod_unique _ _ q); lia).
    destruct (Z.eqb_spec m j), (Z.ltb_spec j m), (Z.ltb_spec j (m + 1)); simpl; lia.
Qed.

Lemma filter_map_length {A B} (f : A → B) (P : B → bool) l :
  length (List.filter (λ x, P (f x)) l) = length (List.filter P (f <$> l)).
Proof. induction l as [|a l IH]; simpl; [done|]. destruct (P (f a)); simpl; by rewrite IH. Qed.

Lemma filter_perm_length {A} (P : A → bool) l l' :
  l ≡ₚ l' → length (List.filter P l) = length (List.filter P l').
Proof. induction 1; simpl; repeat case_match; simpl; congruence. Qed.

(** Whether a distribution function answers [j] *)
Definition shard_is (j : Z) (r : option Z) : bool := match r with Some s => s =? j | None => false end.

Section balanced.
Context `{RT : GoRuntime}.

(** The shards of the sorted clusters count up modulo the replicas. *)
Lemma round_robin_sorted l replicas :
  0 < replicas → NoDup (ClusterID <$> l) → (∀ c, c ∈ l → manual_shard c replicas = None) →
  (λ c, RoundRobinDistributionFunction l replicas (Some c)) <$> getSortedClustersList l =
  (λ i, Some (Z.of_nat i mod replicas)) <$> seq 0 (length l).
Proof.
  intros Hr Hnd Hman. assert (NoDup (ClusterID <$> getSortedClustersList l)) as Hnd'.
  { unfold getSortedClustersList. by rewrite go_sort_perm. }
  apply list_eq_same_length with (n := length l).
  - by rewrite length_fmap, length_seq.
  - by rewrite length_fmap, length_sorted.
  - intros i x y Hi Hx Hy. apply list_lookup_fmap_Some in Hx as (c&->&Hc).
    apply list_lookup_fmap_Some in Hy as (k&->&[-> _]%lookup_seq).
    assert (c ∈ l) as Hin by (apply elem_of_sorted; by eapply list_elem_of_lookup_2).
    destruct (round_robin_eval l replicas c Hr (Hman c Hin) Hin) as (j&Hj&_&->).
    rewrite (index_ids_lookup _ i) in Hj; [|done|by rewrite list_lookup_fmap, Hc]. simpl.
    by simplify_eq.
Qed.

(** Round robin spreads clusters evenly: with distinct ids and no manually
    set shard, every shard gets the number of clusters divided by the number of
    replicas, rounded down or up. *)
Theorem round_robin_balanced l replicas j :
  0 ≤ j < replicas → NoDup (ClusterID <$> l) → (∀ c, c ∈ l → manual_shard c replicas = None) →
  let owned := List.filter (λ c, shard_is j (RoundRobinDistributionFunction l replicas (Some c))) l in
  Z.of_nat (length l) / replicas ≤ Z.of_nat (length owned) ≤ Z.of_nat (length l) / replicas + 1.
Proof.
  intros Hj Hnd Hman owned. unfold owned.
  assert (l ≡ₚ getSortedClustersList l) as Hp by (unfold getSortedClustersList; by rewrite go_sort_perm).
  rewrite (filter_perm_length _ _ _ Hp).
  rewrite (filter_map_length (λ c, RoundRobinDistributionFunction l replicas (Some c)) (shard_is j)).
  rewrite round_robin_sorted by (done || lia). rewrite <-filter_map_length.
  simpl. rewrite count_mod by lia. case_match; lia.
Qed.
End balanced.
