(* ===== verification/ShardHash.v ===== *)
(** * The assignment by consistent hashing with bounded loads

    Facts about [createConsistentHashingWithBoundLoads] of [Sharding]: it always
    ends with a shard for every cluster, keeps the load of every shard within a
    bound, and does not depend on the order in which the clusters and
    applications are listed. *)

From S2P Require Import Prelude GoStd AppTypes Consistent Sharding.
Local Open Scope string_scope.
Local Open Scope list_scope.
Local Open Scope Z_scope.

(** The hash tells apart the names of the points of the shards. *)
Definition points_distinct `{Hash64} (replicas : Z) : Prop :=
  ∀ m n i j : nat, Z.of_nat m < replicas → Z.of_nat n < replicas → (i < 1000)%nat → (j < 1000)%nat →
    hash (point_name (pretty m) i) = hash (point_name (pretty n) j) →
    point_name (pretty m) i = point_name (pretty n) j.

Section bounded.
Context `{RT : GoRuntime} `{BT : BTree} `{HA : Hash64}.

(** *** The ring of the shards *)

(** The ring of the first [n] shards *)
Definition shard_ring (n : nat) : Consistent := foldl (λ r s, Add s r) New (pretty <$> seq 0 n).

Lemma shard_ring_S n : shard_ring (S n) = Add (pretty n) (shard_ring n).
Proof. unfold shard_ring. by rewrite seq_S, fmap_app, foldl_app. Qed.

Definition zero_host (s : string) : Host := {| HostName := s; Load := 0 |}.

Lemma Add_frame s c :
  loadMap (Add s c) = match loadMap c !! s with Some _ => loadMap c | None => <[s := zero_host s]> (loadMap c) end ∧
  totalLoad (Add s c) = totalLoad c ∧ replicationFactor (Add s c) = replicationFactor c.
Proof.
  unfold Add. destruct (loadMap c !! s) eqn:E; [done|].
  set (c1 := set_loads c _ _). by destruct (foldl_add_point_frame s (replicas_of c1) c1) as (->&->&->).
Qed.

Lemma shard_ring_loads n :
  replicationFactor (shard_ring n) = 1000 ∧ totalLoad (shard_ring n) = 0 ∧
  ∀ s h, loadMap (shard_ring n) !! s = Some h ↔ ∃ k : nat, (k < n)%nat ∧ s = pretty k ∧ h = zero_host s.
Proof.
  induction n as [|n (IHr&IHt&IHl)].
  { split_and!; [done..|]. intros s h. simpl. rewrite lookup_empty. split; [done|]. naive_solver lia. }
  rewrite shard_ring_S. destruct (Add_frame (pretty n) (shard_ring n)) as (Hl&->&->).
  split_and!; [done..|]. intros s h. rewrite Hl.
  destruct (loadMap (shard_ring n) !! pretty n) as [h'|] eqn:E.
  { apply IHl in E as (k&Hk&Heq%(inj pretty)&_). lia. }
  rewrite lookup_insert_Some, IHl. split.
  - intros [[<- <-]|[_ (k&Hk&?&?)]]; [exists n|exists k]; split_and!; auto with lia.
  - intros (k&Hk&->&->). destruct (decide (n = k)) as [->|Hne]; [by left|right].
    split; [by intros ?%(inj pretty)|]. exists k. split_and!; auto with lia.
Qed.
Lemma ring_ok_shards n : ring_ok (shard_ring n).
Proof. induction n as [|n IH]; [apply ring_ok_New|]. rewrite shard_ring_S. by apply ring_ok_Add. Qed.

(** Every shard keeps its first point: a later shard's points have other names. *)
Lemma shard_first_point replicas n k :
  points_distinct replicas → Z.of_nat n ≤ replicas → (k < n)%nat →
  servers (shard_ring n) !! hash (point_name (pretty k) 0) = Some (pretty k).
Proof.
  intros Hd. induction n as [|n IH]; intros Hn Hk; [lia|]. rewrite shard_ring_S. unfold Add.
  destruct (shard_ring_loads n) as (Hr&_&Hl).
  destruct (loadMap (shard_ring n) !! pretty n) as [h|] eqn:E.
  { apply Hl in E as (j&Hj&Heq%(inj pretty)&_). lia. }
  set (c1 := set_loads _ _ _).
  assert (∀ i, i ∈ replicas_of c1 ↔ (i < 1000)%nat) as Hrep.
  { intros i. unfold replicas_of. simpl. rewrite Hr, elem_of_seq. lia. }
  destruct (decide (k = n)) as [->|Hne].
  - apply add_points_hit. rewrite Hrep. lia.
  - rewrite add_points_keep; [apply IH; lia|]. intros i Hi%Hrep Heq.
    apply Hd in Heq; [|lia..]. symmetry in Heq.
    apply (Itoa_app_inj n k i); [lia|exact Heq].
Qed.

(** *** One cluster *)

(** What the loop keeps: the ring of the shards, whose loads are the numbers of
    applications assigned so far *)
Record assignment_ok (n : nat) (st : assignment) : Prop := {
  ao_servers : servers (ring st) = servers (shard_ring n);
  ao_clients : clients (ring st) = clients (shard_ring n);
  ao_dom s : is_Some (loadMap (ring st) !! s) ↔ ∃ k : nat, (k < n)%nat ∧ s = pretty k;
  ao_loads : loads_ok (ring st);
  ao_apps s h : loadMap (ring st) !! s = Some h → Load h = default 0 (appsIndexedByShard st !! s);
  ao_rf : replicationFactor (ring st) = replicationFactor (shard_ring n);
}.

Lemma size_shards n st : assignment_ok n st → size (loadMap (ring st)) = n.
Proof.
  intros Hst. rewrite <-size_dom.
  assert (dom (loadMap (ring st)) = list_to_set (pretty <$> seq 0 n)) as ->.
  { apply set_eq. intros s. rewrite elem_of_dom, (ao_dom _ _ Hst), elem_of_list_to_set, list_elem_of_fmap.
    setoid_rewrite elem_of_seq. split; intros (k&?&?); exists k; split_and!; auto with lia. }
  rewrite size_list_to_set; [by rewrite length_fmap, length_seq|].
  apply NoDup_fmap_2; [apply _|apply NoDup_seq].
Qed.

Lemma assignment_ring_ok n st : assignment_ok n st → ring_ok (ring st).
Proof.
  intros Hst. destruct (ring_ok_shards n) as [Hp Ho]. split.
  - by rewrite (ao_servers _ _ Hst), (ao_clients _ _ Hst).
  - intros h s. rewrite (ao_servers _ _ Hst). intros Hs. apply Ho in Hs as [[hh Hh] Hi]. split.
    + apply (ao_dom _ _ Hst). apply shard_ring_loads in Hh as (k&?&?&_). eauto.
    + by rewrite (replicas_of_eq _ _ (ao_rf _ _ Hst)).
Qed.

Lemma shard_ring_loads_ok n : loads_ok (shard_ring n).
Proof.
  destruct (shard_ring_loads n) as (_&Ht&Hl). split.
  - by intros s h (k&_&_&->)%Hl.
  - rewrite Ht. apply total_of_zero. by intros s h (k&_&_&->)%Hl.
  - by rewrite Ht.
Qed.

Lemma init_assignment_ok replicas : assignment_ok (Z.to_nat replicas) (init_assignment replicas).
Proof.
  unfold init_assignment, shard_names. fold (shard_ring (Z.to_nat replicas)).
  set (n := Z.to_nat replicas). destruct (shard_ring_loads n) as (Hr&Ht&Hl).
  assert (∀ l (m : gmap string Z), (∀ s, default 0 (m !! s) = 0) →
    ∀ s, default 0 (foldl (λ m s, <[s := 0]> m) m l !! s) = 0) as Hz.
  { induction l as [|x l IH]; intros m Hm s; simpl; [done|]. apply IH. intros s'.
    destruct (decide (x = s')) as [->|]; [by rewrite lookup_insert_eq|by rewrite lookup_insert_ne]. }
  split; simpl; [done..| | | |done].
  - intros s. split; [intros [h (k&?&?&_)%Hl]; eauto|]. intros (k&?&?).
    exists (zero_host s). apply Hl. eauto.
  - apply shard_ring_loads_ok.
  - intros s h (k&_&_&->)%Hl. rewrite Hz; [done|]. intros s'. by rewrite lookup_empty.
Qed.
(** What one cluster does: it gets a shard whose load is below the bound, and
    its applications are added to the load of that shard. *)
Lemma assign_cluster_spec replicas n st dist c num :
  points_distinct replicas → Z.of_nat n ≤ replicas → replicas ≤ int_max → (0 < n)%nat →
  assignment_ok n st → default 0 (dist !! ClusterServer c) = num → 0 ≤ num →
  totalLoad (ring st) + num < int_max →
  ∃ (k : nat) st', assign_cluster dist st c = Some st' ∧ assignment_ok n st' ∧ (k < n)%nat ∧
    shardIndexedByCluster st' = <[ClusterID c := Z.of_nat k]> (shardIndexedByCluster st) ∧
    totalLoad (ring st') = totalLoad (ring st) + num ∧
    default 0 (appsIndexedByShard st !! (pretty k : string)) <
      ceil_125 (Z.max 1 ((totalLoad (ring st) + 1) / Z.of_nat n)) ∧
    appsIndexedByShard st' =
      <[(pretty k : string) := default 0 (appsIndexedByShard st !! (pretty k : string)) + num]> (appsIndexedByShard st).
Proof.
  intros Hd Hn Hmax Hpos Hst Hnum Hnum0 Hfit.
  pose proof (ao_loads _ _ Hst) as Hloads. pose proof (loads_ok_total_nonneg _ Hloads) as Htot.
  destruct (GetLeast_ok (ClusterID c) (ring st)) as (s&h&Hget&Hh&Hlow).
  - by eapply assignment_ring_ok.
  - done.
  - intros s (k&Hk&->)%(ao_dom _ _ Hst). exists (hash (point_name (pretty k) 0)).
    rewrite (ao_servers _ _ Hst). by apply (shard_first_point replicas).
  - apply map_size_non_empty_iff. rewrite (size_shards n) by done. lia.
  - destruct (proj1 (ao_dom _ _ Hst s)) as (k&Hk&->); [eauto|].
    unfold assign_cluster. rewrite Hget. cbn [mbind option_bind]. rewrite Hnum.
    rewrite <-(ao_apps _ _ Hst _ _ Hh). pose proof (loads_nonneg _ Hloads _ _ Hh) as Hh0.
    assert (Load h ≤ totalLoad (ring st)) as Hhle.
    { rewrite <-(loads_total _ Hloads). rewrite <-(insert_delete_id _ _ _ Hh), total_of_insert by apply lookup_delete_eq.
      assert (0 ≤ total_of (delete (pretty k) (loadMap (ring st)))); [|lia].
      etrans; [|apply (total_of_lower _ 0)]; [lia|]. intros s' h' [_ Hs']%lookup_delete_Some.
      by eapply loads_nonneg. }
    unfold int_max in *. rewrite (wrap64_id (Load h + num)) by (unfold in_int64, int_min, int_max; lia).
    eexists k, _. split; [done|]. simpl.
    unfold UpdateLoad. rewrite Hh. cbn [totalLoad loadMap servers clients set_loads replicationFactor].
    rewrite (wrap64_id (totalLoad (ring st) - Load h)) by (unfold in_int64, int_min, int_max; lia).
    rewrite wrap64_id by (unfold in_int64, int_min, int_max; lia).
    rewrite <-!(ao_apps _ _ Hst _ _ Hh). split_and!; [|done| |lia| |done].
    + split; cbn [ring appsIndexedByShard set_loads servers clients loadMap replicationFactor].
      * apply Hst.
      * apply Hst.
      * intros s. rewrite lookup_insert_is_Some, (ao_dom _ _ Hst).
        destruct (decide (pretty k = s)) as [<-|]; naive_solver.
      * split; simpl.
        -- intros s h' [[<- <-]|[_ ?]]%lookup_insert_Some; simpl; [lia|by eapply loads_nonneg].
        -- rewrite (total_of_update _ _ _ _ Hh), (loads_total _ Hloads). simpl. lia.
        -- unfold int_max. lia.
      * intros s h' [[<- <-]|[Hne Hs]]%lookup_insert_Some; [by rewrite lookup_insert_eq|].
        rewrite lookup_insert_ne by done. by apply (ao_apps _ _ Hst).
      * apply Hst.
    + by rewrite Atoi_Itoa by (unfold in_int64, int_min, int_max; lia).
    + unfold load_bound in Hlow. rewrite (size_shards n), avg_load_max in Hlow by (done || lia). done.
Qed.
End bounded.

(** *** All clusters *)

(** The number of applications deployed to a server *)
Definition app_count (apps : list Application) (server : string) : Z :=
  Z.of_nat (length (List.filter (λ a, String.eqb (Server (Destination a)) server) apps)).

Lemma app_count_range apps s : 0 ≤ app_count apps s ≤ Z.of_nat (length apps).
Proof. unfold app_count. pose proof (List.filter_length_le (λ a, String.eqb (Server (Destination a)) s) apps). lia. Qed.

Lemma getAppDistribution_count apps s :
  Z.of_nat (length apps) < int_max → default 0 (getAppDistribution apps !! s) = app_count apps s.
Proof.
  intros Hlen. unfold getAppDistribution.
  assert (∀ l (m : gmap string Z), (∀ s, 0 ≤ default 0 (m !! s) ∧ default 0 (m !! s) + Z.of_nat (length l) < int_max) →
    default 0 (foldl (λ m a, let s := Server (Destination a) in
                let m := match m !! s with None => <[s := 0]> m | Some _ => m end in
                <[s := wrap64 (default 0 (m !! s) + 1)]> m) m l !! s) = default 0 (m !! s) + app_count l s) as Hgen.
  { induction l as [|a l IH]; intros m Hm; simpl; [unfold app_count; simpl; lia|].
    set (x := Server (Destination a)).
    set (m1 := match m !! x with Some _ => m | None => <[x:=0]> m end).
    assert (∀ y, default 0 (m1 !! y) = default 0 (m !! y)) as Hm1.
    { intros y. unfold m1. destruct (m !! x) eqn:E; [done|].
      destruct (decide (x = y)) as [<-|]; [by rewrite lookup_insert_eq, E|by rewrite lookup_insert_ne]. }
    assert (∀ y, default 0 (<[x:=wrap64 (default 0 (m1 !! x) + 1)]> m1 !! y) =
      default 0 (m !! y) + (if String.eqb x y then 1 else 0)) as Hy.
    { intros y. destruct (String.eqb_spec x y) as [->|].
      - rewrite lookup_insert_eq, Hm1. simpl. apply wrap64_id. specialize (Hm y). simpl length in Hm.
        unfold in_int64, int_min, int_max in *. lia.
      - rewrite lookup_insert_ne, Hm1 by done. lia. }
    rewrite IH, Hy.
    - unfold app_count. simpl. fold x. destruct (String.eqb x s); simpl; lia.
    - intros y. rewrite Hy. specialize (Hm y). simpl length in Hm. case_match; lia. }
  rewrite Hgen; [rewrite lookup_empty; done|]. intros s'. rewrite lookup_empty. simpl. lia.
Qed.

(** The applications of the clusters that satisfy [P] *)
Definition sum_apps (apps : list Application) (P : Cluster → bool) (l : list Cluster) : Z :=
  foldr (λ c t, (if P c then app_count apps (ClusterServer c) else 0) + t) 0 l.

Lemma sum_apps_perm apps P l l' : l ≡ₚ l' → sum_apps apps P l = sum_apps apps P l'.
Proof. induction 1; simpl; lia. Qed.

Lemma sum_apps_app apps P l l' : sum_apps apps P (l ++ l') = sum_apps apps P l + sum_apps apps P l'.
Proof. induction l; simpl; lia. Qed.

Lemma sum_apps_nonneg apps P l : 0 ≤ sum_apps apps P l.
Proof. induction l as [|c l IH]; simpl; [done|]. pose proof (app_count_range apps (ClusterServer c)). case_match; lia. Qed.

Lemma sum_apps_upper apps P l : sum_apps apps P l ≤ Z.of_nat (length l) * Z.of_nat (length apps).
Proof.
  induction l as [|c l IH]; simpl; [lia|]. pose proof (app_count_range apps (ClusterServer c)). case_match; lia.
Qed.

Lemma sum_apps_ext apps P Q l : (∀ c, c ∈ l → P c = Q c) → sum_apps apps P l = sum_apps apps Q l.
Proof.
  induction l as [|c l IH]; intros H; simpl; [done|]. rewrite (H c) by by left.
  rewrite IH; [done|]. intros. apply H. by right.
Qed.

(** Whether the map gives the cluster the shard [k] *)
Definition on_shard (m : gmap string Z) (k : Z) (c : Cluster) : bool :=
  match m !! ClusterID c with Some k' => k' =? k | None => false end.

(** The bound of the loads for [total] applications on [n] shards *)
Definition shard_bound (total n : Z) : Z := ceil_125 (Z.max 1 ((total + 1) / n)).

Lemma shard_bound_mono t t' n : 0 < n → t ≤ t' → shard_bound t n ≤ shard_bound t' n.
Proof.
  intros Hn Ht. unfold shard_bound, ceil_125. apply Z.div_le_mono; [lia|].
  assert ((t + 1) / n ≤ (t' + 1) / n) by (apply Z.div_le_mono; lia). lia.
Qed.

Section assigned.
Context `{BT : BTree} `{HA : Hash64}.

(** The state after the clusters [pre] *)
Record assigned (apps : list Application) (n : nat) (total most : Z) (pre : list Cluster) (st : assignment)
    : Prop := {
  as_ok : assignment_ok n st;
  as_total : totalLoad (ring st) = sum_apps apps (λ _, true) pre;
  as_shard c : c ∈ pre → ∃ k : nat, (k < n)%nat ∧ shardIndexedByCluster st !! ClusterID c = Some (Z.of_nat k);
  as_none id : id ∉ ClusterID <$> pre → shardIndexedByCluster st !! id = None;
  as_load (k : nat) : NoDup (ClusterID <$> pre) → (k < n)%nat →
    default 0 (appsIndexedByShard st !! (pretty k : string)) =
      sum_apps apps (on_shard (shardIndexedByCluster st) (Z.of_nat k)) pre;
  as_bound (k : nat) : (k < n)%nat →
    default 0 (appsIndexedByShard st !! (pretty k : string)) ≤ shard_bound total (Z.of_nat n) - 1 + most;
}.
End assigned.

Section all.
Context `{RT : GoRuntime} `{BT : BTree} `{HA : Hash64}.
Context (replicas : Z) (apps : list Application) (n : nat) (total most : Z).
Context (Hd : points_distinct replicas) (Hn : Z.of_nat n ≤ replicas) (Hmax : replicas ≤ int_max).
Context (Hpos : (0 < n)%nat) (Happs : Z.of_nat (length apps) < int_max) (Htotal : total < int_max).

Lemma assigned_step pre c st :
  assigned apps n total most pre st → app_count apps (ClusterServer c) ≤ most →
  sum_apps apps (λ _, true) (pre ++ [c]) ≤ total →
  ∃ st', assign_cluster (getAppDistribution apps) st c = Some st' ∧ assigned apps n total most (pre ++ [c]) st'.
Proof.
  intros [Hok Htot Hsh Hnone Hload Hbound] Hmost Hsum. rewrite sum_apps_app in Hsum. simpl in Hsum.
  pose proof (app_count_range apps (ClusterServer c)).
  destruct (assign_cluster_spec replicas n st (getAppDistribution apps) c (app_count apps (ClusterServer c)))
    as (k&st'&Hst'&Hok'&Hk&Hmap&Htot'&Hlow&Hadd); [done..|by apply getAppDistribution_count|lia|lia|].
  exists st'. split; [done|]. split; [done|..].
  - rewrite Htot', Htot, sum_apps_app. simpl. lia.
  - intros c' Hc'. rewrite Hmap. destruct (decide (ClusterID c = ClusterID c')) as [<-|Hne].
    + rewrite lookup_insert_eq. eauto.
    + rewrite lookup_insert_ne by done. apply Hsh.
      apply elem_of_app in Hc' as [?|Hc'%list_elem_of_singleton]; congruence.
  - intros id Hid. rewrite Hmap. rewrite fmap_app, not_elem_of_app in Hid. destruct Hid as [Hid Hc].
    rewrite lookup_insert_ne; [by apply Hnone|]. intros <-. apply Hc. simpl. by left.
  - intros j Hnd Hj. rewrite fmap_app in Hnd. apply NoDup_app in Hnd as (Hnd&Hdisj&_).
    assert (∀ c', c' ∈ pre → ClusterID c' ≠ ClusterID c) as Hne.
    { intros c' Hc' Heq. apply (Hdisj (ClusterID c')); [by apply list_elem_of_fmap_2|]. rewrite Heq. by left. }
    rewrite sum_apps_app. simpl. unfold on_shard at 2. rewrite Hmap, lookup_insert_eq.
    rewrite (sum_apps_ext _ _ (on_shard (shardIndexedByCluster st) (Z.of_nat j))), <-Hload; [|done..|].
    + rewrite Hadd. destruct (decide (k = j)) as [->|Hkj].
      * rewrite lookup_insert_eq, Z.eqb_refl. simpl. lia.
      * rewrite lookup_insert_ne by (by intros ?%(inj pretty)).
        rewrite (proj2 (Z.eqb_neq _ _)) by lia. lia.
    + intros c' Hc'. unfold on_shard. rewrite lookup_insert_ne; [done|]. intros Heq. by apply (Hne c').
  - intros j Hj. rewrite Hadd. destruct (decide (k = j)) as [->|Hkj].
    + rewrite lookup_insert_eq. simpl. fold (shard_bound (totalLoad (ring st)) (Z.of_nat n)) in Hlow.
      assert (shard_bound (totalLoad (ring st)) (Z.of_nat n) ≤ shard_bound total (Z.of_nat n)); [|lia].
      apply shard_bound_mono; [lia|]. rewrite Htot. lia.
    + rewrite lookup_insert_ne by (by intros ?%(inj pretty)). by apply Hbound.
Qed.

Lemma assigned_all l pre st :
  assigned apps n total most pre st → (∀ c, c ∈ l → app_count apps (ClusterServer c) ≤ most) →
  sum_apps apps (λ _, true) (pre ++ l) ≤ total →
  ∃ st', assign_clusters (getAppDistribution apps) st l = Some st' ∧ assigned apps n total most (pre ++ l) st'.
Proof.
  revert pre st; induction l as [|c l IH]; intros pre st Hst Hmost Hsum.
  { exists st. by rewrite app_nil_r. }
  replace (pre ++ c :: l) with ((pre ++ [c]) ++ l) in * by (by rewrite <-(assoc_L app)).
  destruct (assigned_step pre c st) as (st1&Hst1&Has1); [done|..].
  - apply Hmost. by left.
  - rewrite sum_apps_app in Hsum. pose proof (sum_apps_nonneg apps (λ _, true) l). lia.
  - simpl. rewrite Hst1. cbn [mbind option_bind]. apply IH; [done| |done]. intros. apply Hmost. by right.
Qed.
End all.

Section theorems.
Context `{RT : GoRuntime} `{BT : BTree} `{HA : Hash64}.

Lemma consistent_hashing_spec replicas clusters apps most :
  points_distinct replicas → 0 < replicas ≤ int_max →
  Z.of_nat (length clusters) * Z.of_nat (length apps) < int_max → Z.of_nat (length apps) < int_max →
  (∀ c, c ∈ clusters → app_count apps (ClusterServer c) ≤ most) → 0 ≤ most →
  ∃ m, createConsistentHashingWithBoundLoads replicas clusters apps = Some m ∧
    (∀ c, c ∈ clusters → ∃ k, m !! ClusterID c = Some k ∧ 0 ≤ k < replicas) ∧
    (NoDup (ClusterID <$> clusters) → ∀ k, 0 ≤ k < replicas →
      sum_apps apps (on_shard m k) clusters ≤
        ceil_125 (Z.max 1 ((sum_apps apps (λ _, true) clusters + 1) / replicas)) - 1 + most).
Proof.
  intros Hd [Hpos Hmax] Hfit Happs Hmost Hmost0.
  set (total := sum_apps apps (λ _, true) clusters). set (n := Z.to_nat replicas).
  assert (Z.of_nat n = replicas) as Hn by lia.
  assert (clusters ≡ₚ getSortedClustersList clusters) as Hp by (unfold getSortedClustersList; by rewrite go_sort_perm).
  assert (0 < shard_bound total (Z.of_nat n)) as Hbpos.
  { unfold shard_bound, ceil_125. apply Z.div_str_pos. lia. }
  destruct (assigned_all replicas apps n total most) with (l := getSortedClustersList clusters)
    (pre := @nil Cluster) (st := init_assignment replicas) as (st&Hst&Has); try done; try lia.
  - unfold total. pose proof (sum_apps_upper apps (λ _, true) clusters). lia.
  - split.
    + apply init_assignment_ok.
    + apply (shard_ring_loads n).
    + intros c Hc. by apply elem_of_nil in Hc.
    + intros id _. apply lookup_empty.
    + intros k _ Hk. destruct (init_assignment_ok replicas) as [_ _ Hdom _ Ha _].
      destruct (proj2 (Hdom (pretty k))) as [h Hh]; [by exists k|]. rewrite <-(Ha _ _ Hh).
      by apply shard_ring_loads in Hh as (?&_&_&->).
    + intros k Hk. destruct (init_assignment_ok replicas) as [_ _ Hdom _ Ha _].
      destruct (proj2 (Hdom (pretty k))) as [h Hh]; [by exists k|]. rewrite <-(Ha _ _ Hh).
      apply shard_ring_loads in Hh as (?&_&_&->). simpl. lia.
  - intros c Hc. apply Hmost. by rewrite Hp.
  - simpl. unfold total. by rewrite (sum_apps_perm _ _ _ _ Hp).
  - exists (shardIndexedByCluster st). unfold createConsistentHashingWithBoundLoads. rewrite Hst. simpl in Has.
    split_and!; [done| |].
    + intros c Hc. rewrite Hp in Hc. destruct (as_shard _ _ _ _ _ _ Has c Hc) as (k&Hk&Hm).
      exists (Z.of_nat k). split; [done|lia].
    + intros Hnd k Hk. rewrite (sum_apps_perm _ _ _ _ Hp).
      replace k with (Z.of_nat (Z.to_nat k)) by lia. rewrite <-(as_load _ _ _ _ _ _ Has (Z.to_nat k)); [|by rewrite <-Hp|lia].
      pose proof (as_bound _ _ _ _ _ _ Has (Z.to_nat k) ltac:(lia)) as Hb.
      unfold shard_bound in Hb. rewrite Hn in Hb. done.
Qed.

Lemma consistent_hashing_total replicas clusters apps :
  points_distinct replicas → 0 < replicas ≤ int_max →
  Z.of_nat (length clusters) * Z.of_nat (length apps) < int_max → Z.of_nat (length apps) < int_max →
  ∃ m, createConsistentHashingWithBoundLoads replicas clusters apps = Some m ∧
    (∀ c, c ∈ clusters → ∃ k, m !! ClusterID c = Some k ∧ 0 ≤ k < replicas).
Proof.
  intros. destruct (consistent_hashing_spec replicas clusters apps (Z.of_nat (length apps)))
    as (m&?&?&_); [done..| |lia|eauto].
  intros c _. apply app_count_range.
Qed.

(** Consistent hashing with bounded loads: when the hash tells the points
    of the shards apart, the assignment ends, gives every cluster an existing
    shard and, with distinct cluster ids, leaves no shard with more applications
    than a quarter above the average plus those of one cluster. *)
Theorem consistent_hashing_bounded replicas clusters apps most :
  points_distinct replicas → 0 < replicas ≤ int_max →
  Z.of_nat (length clusters) * Z.of_nat (length apps) < int_max → Z.of_nat (length apps) < int_max →
  (∀ c, c ∈ clusters → app_count apps (ClusterServer c) ≤ most) → 0 ≤ most →
  ∃ m, createConsistentHashingWithBoundLoads replicas clusters apps = Some m ∧
    (∀ c, c ∈ clusters → ∃ k, m !! ClusterID c = Some k ∧ 0 ≤ k < replicas) ∧
    (NoDup (ClusterID <$> clusters) → ∀ k, 0 ≤ k < replicas →
      sum_apps apps (on_shard m k) clusters ≤
        ceil_125 (Z.max 1 ((sum_apps apps (λ _, true) clusters + 1) / replicas)) - 1 + most).
Proof. apply consistent_hashing_spec. Qed.
End theorems.

(** ** Agreement

    The assignment depends on what the clusters and applications say, not on the
    order or the addresses at which a process holds them. *)

(** What the algorithms read of a cluster *)
Definition cluster_view (c : Cluster) : string * string * option Z :=
  (ClusterID c, ClusterServer c, ClusterShard c).
Definition view_id (v : string * string * option Z) : string := v.1.1.

Definition app_server (a : Application) : string := Server (Destination a).

Lemma app_count_view apps s :
  app_count apps s = Z.of_nat (length (List.filter (λ x, String.eqb x s) (app_server <$> apps))).
Proof. unfold app_count. f_equal. apply (filter_map_length app_server (λ x, String.eqb x s)). Qed.

Section agree.
Context (R1 R2 : GoRuntime).
Context (l1 l2 : list Cluster) (Hview : cluster_view <$> l1 ≡ₚ cluster_view <$> l2).
Context (Hids : NoDup (ClusterID <$> l1)).

Lemma view_key_inj x y :
  x ∈ cluster_view <$> l1 → y ∈ cluster_view <$> l1 → view_id x = view_id y → x = y.
Proof.
  intros (a&->&[i Ha]%list_elem_of_lookup)%list_elem_of_fmap (b&->&[j Hb]%list_elem_of_lookup)%list_elem_of_fmap Hid.
  assert (i = j) as ->; [|congruence].
  eapply (NoDup_lookup (ClusterID <$> l1)); [done|..].
  - rewrite list_lookup_fmap, Ha. done.
  - rewrite list_lookup_fmap, Hb. simpl. f_equal. symmetry. exact Hid.
Qed.

Lemma sorted_view_agree :
  cluster_view <$> @getSortedClustersList R1 l1 = cluster_view <$> @getSortedClustersList R2 l2.
Proof. exact (sort_view_unique R1 R2 cluster_view view_id l1 l2 Hview view_key_inj). Qed.

Lemma index_agree :
  @createClusterIndexByClusterIdMap R1 l1 = @createClusterIndexByClusterIdMap R2 l2.
Proof.
  rewrite !cluster_index_ids. f_equal.
  pose proof (f_equal (fmap view_id) sorted_view_agree) as H.
  rewrite <-!list_fmap_compose in H. exact H.
Qed.

Lemma round_robin_agree replicas c1 c2 :
  cluster_view c1 = cluster_view c2 →
  @RoundRobinDistributionFunction R1 l1 replicas (Some c1) = @RoundRobinDistributionFunction R2 l2 replicas (Some c2).
Proof.
  intros [= Hid _ Hs]. unfold RoundRobinDistributionFunction, manual_shard.
  by rewrite index_agree, Hid, Hs.
Qed.

Context `{BT : BTree} `{HA : Hash64}.

Lemma assign_clusters_agree d1 d2 st k1 k2 :
  (∀ s, default 0 (d1 !! s) = default 0 (d2 !! s)) → cluster_view <$> k1 = cluster_view <$> k2 →
  assign_clusters d1 st k1 = assign_clusters d2 st k2.
Proof.
  intros Hd. revert k2 st; induction k1 as [|c1 k1 IH]; intros [|c2 k2] st; simpl; try done.
  intros [= Hid Hs _ Hk]. assert (assign_cluster d1 st c1 = assign_cluster d2 st c2) as ->.
  { unfold assign_cluster. by rewrite Hid, Hs, Hd. }
  destruct (assign_cluster d2 st c2); [|done]. cbn [mbind option_bind]. by apply IH.
Qed.

Context (a1 a2 : list Application) (Happs : app_server <$> a1 ≡ₚ app_server <$> a2).
Context (Hlen : Z.of_nat (length a1) < int_max).

Lemma create_agree replicas :
  @createConsistentHashingWithBoundLoads R1 _ _ replicas l1 a1 =
  @createConsistentHashingWithBoundLoads R2 _ _ replicas l2 a2.
Proof.
  unfold createConsistentHashingWithBoundLoads.
  rewrite (assign_clusters_agree _ (getAppDistribution a2) _ _ (@getSortedClustersList R2 l2)); [done| |].
  - intros s. assert (length a1 = length a2) as Hl.
    { apply Permutation_length in Happs. by rewrite !length_fmap in Happs. }
    rewrite !getAppDistribution_count by lia. rewrite !app_count_view. f_equal.
    by apply filter_perm_length.
  - apply sorted_view_agree.
Qed.

(** Two processes compute the same shard for a cluster of both. *)
Lemma distribution_agree alg replicas c1 c2 :
  c1 ∈ l1 → c2 ∈ l2 → cluster_view c1 = cluster_view c2 →
  @GetDistributionFunction R1 _ _ l1 a1 alg replicas (Some c1) =
  @GetDistributionFunction R2 _ _ l2 a2 alg replicas (Some c2).
Proof.
  intros Hc1 Hc2 Hv. pose proof Hv as [= Hid _ Hs]. unfold GetDistributionFunction.
  destruct (String.eqb alg _); [by apply round_robin_agree|].
  assert (LegacyDistributionFunction replicas (Some c1) = LegacyDistributionFunction replicas (Some c2)) as Hleg.
  { unfold LegacyDistributionFunction, manual_shard. by rewrite Hid, Hs. }
  destruct (String.eqb alg _); [done|]. destruct (String.eqb alg _); [|done].
  unfold ConsistentHashingWithBoundedLoadsDistributionFunction, manual_shard.
  rewrite create_agree, Hid, Hs. destruct (0 <? replicas); [|done].
  assert (∀ c l, c ∈ l → contains_cluster l c = true) as Hcont.
  { intros c l Hc. apply existsb_exists. exists c. split; [by apply list_elem_of_In|apply Pos.eqb_refl]. }
  by rewrite !Hcont by done.
Qed.
End agree.

(** ** Ranges *)

Lemma fnv32a_nonneg s h : 0 ≤ h → 0 ≤ fnv32a_from h s.
Proof.
  revert h; induction s as [|c s IH]; intros h Hh; simpl; [done|]. apply IH.
  apply Z.mod_pos_bound. lia.
Qed.

Section range.
Context `{RT : GoRuntime} `{BT : BTree} `{HA : Hash64}.

(** What consistent hashing needs of the hash and the sizes *)
Definition hashing_fits (replicas : Z) (clusters : list Cluster) (apps : list Application) : Prop :=
  points_distinct replicas ∧ Z.of_nat (length apps) < int_max ∧
  Z.of_nat (length clusters) * Z.of_nat (length apps) < int_max.

Lemma legacy_range replicas c s :
  0 < replicas < 2 ^ 31 → ClusterShard c = None → LegacyDistributionFunction replicas (Some c) = Some s →
  0 ≤ s < replicas.
Proof.
  intros Hr Hm. unfold LegacyDistributionFunction, manual_shard. rewrite Hm.
  rewrite (proj2 (Z.eqb_neq _ _)) by lia. case_match; [intros [= <-]; lia|].
  rewrite (Z.mod_small replicas) by lia. rewrite (proj2 (Z.eqb_neq _ _)) by lia. intros [= <-].
  pose proof (Z.mod_pos_bound (fnv32a (ClusterID c)) replicas ltac:(lia)).
  unfold wrap32. rewrite Z.mod_small by lia. lia.
Qed.

(** Every algorithm gives a known cluster without manual shard an existing one. *)
Lemma distribution_range clusters apps alg replicas c :
  0 < replicas < 2 ^ 31 →
  (alg = ConsistentHashingWithBoundedLoadsAlgorithm → hashing_fits replicas clusters apps) →
  c ∈ clusters → ClusterShard c = None →
  ∃ s, GetDistributionFunction clusters apps alg replicas (Some c) = Some s ∧ 0 ≤ s < replicas.
Proof.
  intros Hr Hfits Hc Hm. unfold GetDistributionFunction.
  assert (manual_shard c replicas = None) as Hman by (unfold manual_shard; by rewrite Hm).
  assert (∃ s, LegacyDistributionFunction replicas (Some c) = Some s ∧ 0 ≤ s < replicas) as Hleg.
  { destruct (LegacyDistributionFunction replicas (Some c)) as [s|] eqn:E.
    - exists s. split; [done|]. by eapply legacy_range.
    - exfalso. unfold LegacyDistributionFunction in E. rewrite Hman in E.
      rewrite (proj2 (Z.eqb_neq _ _)) in E by lia. rewrite (Z.mod_small replicas) in E by lia.
      rewrite (proj2 (Z.eqb_neq replicas 0)) in E by lia. by case_match. }
  destruct (String.eqb alg _).
  { destruct (round_robin_eval clusters replicas c) as (j&_&_&->); [lia|done..|].
    eexists; split; [done|]. apply Z.mod_pos_bound. lia. }
  destruct (String.eqb alg _); [done|].
  destruct (String.eqb_spec alg ConsistentHashingWithBoundedLoadsAlgorithm) as [Halg|]; [|done].
  destruct (Hfits Halg) as (Hd&Ha&Hca).
  unfold ConsistentHashingWithBoundedLoadsDistributionFunction.
  rewrite (proj2 (Z.ltb_lt _ _)), Hman by lia.
  assert (contains_cluster clusters c = true) as ->.
  { apply existsb_exists. exists c. split; [by apply list_elem_of_In|apply Pos.eqb_refl]. }
  destruct (consistent_hashing_total replicas clusters apps) as (m&->&Hm'); [done|unfold int_max; lia|done..|].
  destruct (Hm' c Hc) as (k&Hk&?). simpl. rewrite Hk. eauto.
Qed.
End range.
