(* ===== verification/ShardCache.v ===== *)
(** * The sharding cache of a controller replica (src/controller/sharding/cache.go)

    Every replica keeps the clusters, the applications and the shard of every
    cluster, and recomputes the shards on the events it considers relevant.
    Operations return [None] when a distribution function panics or does not
    end.  Log output and locks are left out: the mutex makes every operation
    atomic. *)

From S2P Require Import Prelude GoStd AppTypes Consistent Sharding ShardHash.
From Stdlib Require Import Ascii.
Local Open Scope string_scope.
Local Open Scope list_scope.
Local Open Scope Z_scope.

(** [strconv.ParseBool] *)
Definition ParseBool (s : string) : option bool :=
  if bool_decide (s ∈ ["1"; "t"; "T"; "TRUE"; "true"; "True"]) then Some true
  else if bool_decide (s ∈ ["0"; "f"; "F"; "FALSE"; "false"; "False"]) then Some false
  else None.

(** The conversion of a cluster's shard from [int64] to [int] changes nothing on
    64-bit platforms. *)
Record ClusterSharding := {
  Shard : Z;
  Replicas : Z;
  Shards : gmap string Z;
  Clusters : gmap string Cluster;
  Apps : gmap string Application;
  shardingAlgorithm : string;
}.

Definition set_Shards (st : ClusterSharding) (m : gmap string Z) : ClusterSharding :=
  {| Shard := Shard st; Replicas := Replicas st; Shards := m; Clusters := Clusters st; Apps := Apps st;
     shardingAlgorithm := shardingAlgorithm st |}.
Definition set_Clusters (st : ClusterSharding) (m : gmap string Cluster) : ClusterSharding :=
  {| Shard := Shard st; Replicas := Replicas st; Shards := Shards st; Clusters := m; Apps := Apps st;
     shardingAlgorithm := shardingAlgorithm st |}.
Definition set_Apps (st : ClusterSharding) (m : gmap string Application) : ClusterSharding :=
  {| Shard := Shard st; Replicas := Replicas st; Shards := Shards st; Clusters := Clusters st; Apps := m;
     shardingAlgorithm := shardingAlgorithm st |}.

Definition AnnotationKeyAppSkipReconcile : string := "apps.hanzo.ai/skip-reconcile".

(** [hasShardingUpdates]; nil pointers are [None]. *)
Definition hasShardingUpdates (old newCluster : option Cluster) : bool :=
  match old, newCluster with
  | Some old, Some newCluster =>
      if negb (String.eqb (ClusterID old) (ClusterID newCluster)) then true
      else if negb (String.eqb (ClusterServer old) (ClusterServer newCluster)) then true
      else
        match ClusterShard old, ClusterShard newCluster with
        | None, None => false
        | Some a, Some b => negb (a =? b)
        | _, _ => true
        end
  | _, _ => false
  end.

Section cache.
Context `{RT : GoRuntime} `{BT : BTree} `{HA : Hash64}.

(** [NewClusterSharding]; the distribution function it stores is
    [getClusterShard] below, which reads the clusters and applications of the
    cache through the accessors. *)
Definition NewClusterSharding (shard replicas : Z) (alg : string) : ClusterSharding :=
  {| Shard := shard; Replicas := replicas; Shards := ∅; Clusters := ∅; Apps := ∅; shardingAlgorithm := alg |}.

Definition getClusterAccessor (st : ClusterSharding) : list Cluster := (go_range (Clusters st)).*2.
Definition getAppAccessor (st : ClusterSharding) : list Application := (go_range (Apps st)).*2.

Definition getClusterShard (st : ClusterSharding) (c : option Cluster) : option Z :=
  if 1 <? Replicas st then
    GetDistributionFunction (getClusterAccessor st) (getAppAccessor st) (shardingAlgorithm st) (Replicas st) c
  else NoShardingDistributionFunction c.

(** The shard [updateDistribution] computes for one cluster *)
Definition cluster_shard (st : ClusterSharding) (c : Cluster) : option Z :=
  match ClusterShard c with
  | Some requestedShard => Some (if requestedShard <? Replicas st then requestedShard else 0)
  | None => getClusterShard st (Some c)
  end.

(** The loop of [updateDistribution] *)
Fixpoint update_loop (st : ClusterSharding) (l : list (string * Cluster)) (m : gmap string Z)
    : option (gmap string Z) :=
  match l with
  | [] => Some m
  | (k, c) :: r => shard ← cluster_shard st c; update_loop st r (<[k := shard]> m)
  end.

Definition updateDistribution (st : ClusterSharding) : option ClusterSharding :=
  set_Shards st <$> update_loop st (go_range (Clusters st)) (Shards st).

Definition IsManagedCluster (st : ClusterSharding) (c : option Cluster) : bool :=
  match c with
  | None => true
  | Some c =>
      match ParseBool (default "" (ClusterAnnotations c !! AnnotationKeyAppSkipReconcile)) with
      | Some true => false
      | _ => default 0 (Shards st !! ClusterServer c) =? Shard st
      end
  end.

Definition Init (clusters : list Cluster) (apps : list Application) (st : ClusterSharding)
    : option ClusterSharding :=
  let newClusters := foldl (λ m c, <[ClusterServer c := c]> m) ∅ clusters in
  let newApps := foldl (λ m a, <[AppName a := a]> m) ∅ apps in
  updateDistribution (set_Apps (set_Clusters st newClusters) newApps).

Definition AddCluster (c : Cluster) (st : ClusterSharding) : option ClusterSharding :=
  let old := Clusters st !! ClusterServer c in
  let st := set_Clusters st (<[ClusterServer c := c]> (Clusters st)) in
  if negb (bool_decide (is_Some old)) || hasShardingUpdates old (Some c) then updateDistribution st else Some st.

Definition DeleteCluster (clusterServer : string) (st : ClusterSharding) : option ClusterSharding :=
  match Clusters st !! clusterServer with
  | Some _ =>
      updateDistribution
        (set_Shards (set_Clusters st (delete clusterServer (Clusters st))) (delete clusterServer (Shards st)))
  | None => Some st
  end.

Definition UpdateCluster (oldCluster newCluster : Cluster) (st : ClusterSharding) : option ClusterSharding :=
  let st :=
    match Clusters st !! ClusterServer oldCluster with
    | Some _ =>
        if negb (String.eqb (ClusterServer oldCluster) (ClusterServer newCluster)) then
          set_Shards (set_Clusters st (delete (ClusterServer oldCluster) (Clusters st)))
            (delete (ClusterServer oldCluster) (Shards st))
        else st
    | None => st
    end in
  let st := set_Clusters st (<[ClusterServer newCluster := newCluster]> (Clusters st)) in
  if hasShardingUpdates (Some oldCluster) (Some newCluster) then updateDistribution st else Some st.

(** [AddApp] and [UpdateApp] are the same but for the log. *)
Definition AddApp (a : Application) (st : ClusterSharding) : option ClusterSharding :=
  let old := Apps st !! AppName a in
  let st := set_Apps st (<[AppName a := a]> (Apps st)) in
  match old with None => updateDistribution st | Some _ => Some st end.
Definition UpdateApp : Application → ClusterSharding → option ClusterSharding := AddApp.

Definition DeleteApp (a : Application) (st : ClusterSharding) : option ClusterSharding :=
  match Apps st !! AppName a with
  | Some _ => updateDistribution (set_Apps st (delete (AppName a) (Apps st)))
  | None => Some st
  end.

Definition GetDistribution (st : ClusterSharding) : gmap string Z := Shards st.

(** [GetAppDistribution] counts in [int] as [getAppDistribution] in [int64]. *)
Definition GetAppDistribution (st : ClusterSharding) : gmap string Z := getAppDistribution (getAppAccessor st).

Definition UpdateShard (shard : Z) (st : ClusterSharding) : ClusterSharding * bool :=
  if negb (shard =? Shard st) then
    ({| Shard := shard; Replicas := Replicas st; Shards := Shards st; Clusters := Clusters st; Apps := Apps st;
        shardingAlgorithm := shardingAlgorithm st |}, true)
  else (st, false).
End cache.

(** ** The shards of a cache *)

Section facts.
Context `{RT : GoRuntime} `{BT : BTree} `{HA : Hash64}.

Lemma update_loop_spec st l m m' :
  NoDup l.*1 → update_loop st l m = Some m' →
  (∀ k c, (k, c) ∈ l → ∃ s, cluster_shard st c = Some s ∧ m' !! k = Some s) ∧
  (∀ k, k ∉ l.*1 → m' !! k = m !! k).
Proof.
  revert m; induction l as [|[k c] l IH]; intros m; simpl.
  { intros _ [= ->]. split; [|done]. intros k c Hk. by apply elem_of_nil in Hk. }
  intros [Hk Hnd]%NoDup_cons. destruct (cluster_shard st c) as [s|] eqn:Hs; [|done].
  cbn [mbind option_bind]. intros Hl. destruct (IH _ Hnd Hl) as [H1 H2]. split.
  - intros k' c' [[= -> ->]|?]%elem_of_cons; [|by apply H1].
    exists s. split; [done|]. by rewrite H2, lookup_insert_eq.
  - intros k' [??]%not_elem_of_cons. by rewrite H2, lookup_insert_ne.
Qed.

Lemma updateDistribution_spec st st' :
  updateDistribution st = Some st' →
  ∃ m, st' = set_Shards st m ∧
    ∀ k c, Clusters st !! k = Some c → ∃ s, cluster_shard st c = Some s ∧ m !! k = Some s.
Proof.
  unfold updateDistribution. destruct (update_loop _ _ _) as [m|] eqn:E; [|done]. intros [= <-].
  exists m. split; [done|]. intros k c Hk.
  apply update_loop_spec in E as [E _]; [|apply go_range_NoDup_fst]. apply E. by apply elem_of_go_range.
Qed.

Lemma elem_of_accessor st c : c ∈ getClusterAccessor st ↔ ∃ k, Clusters st !! k = Some c.
Proof.
  unfold getClusterAccessor. rewrite list_elem_of_fmap. split.
  - intros ([k c']&->&Hk%elem_of_go_range). eauto.
  - intros [k Hk%elem_of_go_range]. by exists (k, c).
Qed.
End facts.

(** ** Caches with the same inventory *)

Definition same_inventory (st1 st2 : ClusterSharding) : Prop :=
  Replicas st1 = Replicas st2 ∧ shardingAlgorithm st1 = shardingAlgorithm st2 ∧
  cluster_view <$> Clusters st1 = cluster_view <$> Clusters st2 ∧
  app_server <$> Apps st1 = app_server <$> Apps st2.

Lemma range_values_view {V W} (R1 R2 : GoRuntime) (f : V → W) (m1 m2 : gmap string V) :
  f <$> m1 = f <$> m2 → f <$> (@go_range R1 _ _ _ _ m1).*2 ≡ₚ f <$> (@go_range R2 _ _ _ _ m2).*2.
Proof.
  intros Hm. rewrite !go_range_perm.
  assert (∀ m : gmap string V, f <$> (map_to_list m).*2 ≡ₚ (map_to_list (f <$> m)).*2) as Hf.
  { intros m. rewrite map_to_list_fmap, <-!list_fmap_compose. by apply Permutation_refl'. }
  by rewrite !Hf, Hm.
Qed.

(** The number of applications fits the counters. *)
Definition apps_fit (st : ClusterSharding) : Prop := Z.of_nat (size (Apps st)) < int_max.

Definition ids_distinct (st : ClusterSharding) : Prop :=
  ∀ k1 k2 c1 c2, Clusters st !! k1 = Some c1 → Clusters st !! k2 = Some c2 →
    ClusterID c1 = ClusterID c2 → k1 = k2.

Lemma ids_distinct_NoDup (R : GoRuntime) st :
  ids_distinct st → NoDup (ClusterID <$> @getClusterAccessor R st).
Proof.
  intros Hd. unfold getClusterAccessor. rewrite <-list_fmap_compose. apply NoDup_fmap_2_strong.
  - intros [k1 c1] [k2 c2] H1%elem_of_go_range H2%elem_of_go_range Hid. simpl in Hid.
    assert (k1 = k2) as -> by (by eapply Hd). congruence.
  - eapply NoDup_fmap_1, go_range_NoDup_fst.
Qed.

Lemma length_app_accessor (R : GoRuntime) st : length (@getAppAccessor R st) = size (Apps st).
Proof. unfold getAppAccessor. by rewrite length_fmap, length_go_range. Qed.

Lemma length_cluster_accessor (R : GoRuntime) st : length (@getClusterAccessor R st) = size (Clusters st).
Proof. unfold getClusterAccessor. by rewrite length_fmap, length_go_range. Qed.

Section inventory.
Context `{BT : BTree} `{HA : Hash64}.

(** Replicas with the same inventory compute the same shard for a cluster. *)
Lemma cluster_shard_agree (R1 R2 : GoRuntime) st1 st2 k c1 c2 :
  same_inventory st1 st2 → ids_distinct st1 → apps_fit st1 →
  Clusters st1 !! k = Some c1 → Clusters st2 !! k = Some c2 →
  @cluster_shard R1 _ _ st1 c1 = @cluster_shard R2 _ _ st2 c2.
Proof.
  intros (Hr&Ha&Hc&Happ) Hd Hfit H1 H2.
  assert (cluster_view c1 = cluster_view c2) as Hv.
  { apply (f_equal (lookup k)) in Hc. rewrite !lookup_fmap, H1, H2 in Hc. simpl in Hc. congruence. }
  pose proof Hv as [= _ _ Hs]. unfold cluster_shard. rewrite Hs, Hr. case_match; [done|].
  unfold getClusterShard. rewrite Hr, Ha. destruct (1 <? Replicas st2); [|done].
  apply distribution_agree.
  - by apply range_values_view.
  - by apply ids_distinct_NoDup.
  - by apply range_values_view.
  - by rewrite length_app_accessor.
  - apply elem_of_accessor. eauto.
  - apply elem_of_accessor. eauto.
  - done.
Qed.
End inventory.

(** ** Events *)

Inductive event :=
  | EvInit (clusters : list Cluster) (apps : list Application)
  | EvAdd (c : Cluster)
  | EvDelete (server : string)
  | EvUpdate (oldCluster newCluster : Cluster)
  | EvAddApp (a : Application)
  | EvDeleteApp (a : Application)
  | EvUpdateApp (a : Application)
  | EvUpdateShard (shard : Z).

Section events.
Context `{RT : GoRuntime} `{BT : BTree} `{HA : Hash64}.

Definition run_event (e : event) (st : ClusterSharding) : option ClusterSharding :=
  match e with
  | EvInit cs l => Init cs l st
  | EvAdd c => AddCluster c st
  | EvDelete s => DeleteCluster s st
  | EvUpdate old new => UpdateCluster old new st
  | EvAddApp a => AddApp a st
  | EvDeleteApp a => DeleteApp a st
  | EvUpdateApp a => UpdateApp a st
  | EvUpdateShard n => Some (UpdateShard n st).1
  end.

(** The events for which the cache tracks the distribution: an update names the
    cluster as the cache has it, and an application that is already known keeps
    its destination server or the algorithm does not look at applications. *)
Definition tracked (e : event) (st : ClusterSharding) : Prop :=
  match e with
  | EvUpdate old _ => ∃ c, Clusters st !! ClusterServer old = Some c ∧ cluster_view c = cluster_view old
  | EvAddApp a | EvUpdateApp a =>
      shardingAlgorithm st ≠ ConsistentHashingWithBoundedLoadsAlgorithm ∨
      ∀ a0, Apps st !! AppName a = Some a0 → app_server a0 = app_server a
  | _ => True
  end.

Definition cache_step (st st' : ClusterSharding) : Prop :=
  ∃ e, run_event e st = Some st' ∧ tracked e st ∧ ids_distinct st' ∧ apps_fit st'.

(** Every cluster is filed under its server, with the shard the algorithm gives
    it now. *)
Definition up_to_date (st : ClusterSharding) : Prop :=
  ∀ k c, Clusters st !! k = Some c →
    ClusterServer c = k ∧ ∃ s, cluster_shard st c = Some s ∧ Shards st !! k = Some s.

Definition filed (st : ClusterSharding) : Prop := ∀ k c, Clusters st !! k = Some c → ClusterServer c = k.

Lemma updateDistribution_up_to_date st st' :
  filed st → updateDistribution st = Some st' → up_to_date st'.
Proof.
  intros Hf (m&->&Hm)%updateDistribution_spec k c Hk. simpl in Hk. split; [by apply Hf|].
  destruct (Hm k c Hk) as (s&Hs&?). by exists s.
Qed.

Lemma filed_insert st c :
  filed st → filed (set_Clusters st (<[ClusterServer c := c]> (Clusters st))).
Proof.
  intros Hf k c'. simpl. intros [[<- <-]|[_ ?]]%lookup_insert_Some; [done|by apply Hf].
Qed.

Lemma filed_delete st s m : filed st → filed (set_Shards (set_Clusters st (delete s (Clusters st))) m).
Proof. intros Hf k c'. simpl. intros [_ ?]%lookup_delete_Some. by apply Hf. Qed.

Lemma up_to_date_filed st : up_to_date st → filed st.
Proof. intros Hu k c Hk. by apply Hu. Qed.

(** An event without consequences for the distribution *)
Lemma up_to_date_same st st' :
  up_to_date st → same_inventory st st' → ids_distinct st → apps_fit st → filed st' → Shards st' = Shards st →
  up_to_date st'.
Proof.
  intros Hu Hinv Hd Hfit Hf Hsh k c Hk. split; [by apply Hf|].
  pose proof Hinv as (_&_&Hc&_). apply (f_equal (lookup k)) in Hc. rewrite !lookup_fmap, Hk in Hc.
  destruct (Clusters st !! k) as [c0|] eqn:Hk0; [|done]. destruct (Hu k c0 Hk0) as (_&s&Hs&Hm).
  exists s. rewrite Hsh. split; [|done]. rewrite <-Hs. symmetry. by apply (cluster_shard_agree _ _ st st' k).
Qed.

Lemma hasShardingUpdates_view a b :
  hasShardingUpdates (Some a) (Some b) = false → cluster_view a = cluster_view b.
Proof.
  unfold hasShardingUpdates, cluster_view.
  destruct (String.eqb_spec (ClusterID a) (ClusterID b)) as [->|]; [|done].
  destruct (String.eqb_spec (ClusterServer a) (ClusterServer b)) as [->|]; [|done]. simpl.
  destruct (ClusterShard a) as [x|], (ClusterShard b) as [y|]; try done.
  destruct (Z.eqb_spec x y); [by subst|done].
Qed.
End events.

Section invariant.
Context `{RT : GoRuntime} `{BT : BTree} `{HA : Hash64}.

Lemma fmap_insert_view {V W} (f : V → W) (m : gmap string V) k x y :
  m !! k = Some x → f x = f y → f <$> <[k:=y]> m = f <$> m.
Proof. intros Hk Hf. by rewrite fmap_insert, <-Hf, <-fmap_insert, insert_id. Qed.

Lemma AddApp_up_to_date a st st' :
  tracked (EvAddApp a) st → up_to_date st → ids_distinct st → apps_fit st →
  AddApp a st = Some st' → up_to_date st'.
Proof.
  intros Ht Hu Hd Hfit. unfold AddApp. destruct (Apps st !! AppName a) as [a0|] eqn:Ha.
  2:{ apply updateDistribution_up_to_date. exact (up_to_date_filed _ Hu). }
  intros [= <-]. destruct Ht as [Halg|Happ].
  - intros k c Hk. destruct (Hu k c Hk) as (Hf&s&Hs&Hm). split; [done|]. exists s. split; [|done].
    rewrite <-Hs. unfold cluster_shard. simpl. case_match; [done|].
    unfold getClusterShard. simpl. case_match; [|done]. unfold GetDistributionFunction.
    repeat (case_match; [done|]). case_match; [|done]. by destruct Halg; apply String.eqb_eq.
  - apply (up_to_date_same st); try done.
    + split_and!; try done. simpl. by rewrite (fmap_insert_view _ _ _ a0 a Ha (Happ _ Ha)).
    + exact (up_to_date_filed _ Hu).
Qed.

Lemma run_event_up_to_date e st st' :
  run_event e st = Some st' → tracked e st → up_to_date st → ids_distinct st → apps_fit st →
  up_to_date st'.
Proof.
  intros Hrun Ht Hu Hd Hfit. pose proof (up_to_date_filed _ Hu) as Hf.
  destruct e as [cs l|c|s|old new|a|a|a|n]; simpl in Hrun.
  - eapply updateDistribution_up_to_date; [|exact Hrun]. intros k c. simpl.
    assert (∀ m : gmap string Cluster, (∀ k c, m !! k = Some c → ClusterServer c = k) →
      ∀ k c, foldl (λ m c, <[ClusterServer c := c]> m) m cs !! k = Some c → ClusterServer c = k) as Hgen.
    { clear. induction cs as [|c0 cs IH]; intros m Hm k c; simpl; [apply Hm|]. apply IH.
      intros k' c' [[<- <-]|[_ ?]]%lookup_insert_Some; [done|by apply Hm]. }
    apply Hgen. intros k' c' Hk. by rewrite lookup_empty in Hk.
  - unfold AddCluster in Hrun. case_match eqn:Hb.
    { eapply updateDistribution_up_to_date; [|exact Hrun]. by apply filed_insert. }
    injection Hrun as <-. apply orb_false_iff in Hb as [Hs Hv].
    apply negb_false_iff, bool_decide_eq_true in Hs as [c0 Hc0]. rewrite Hc0 in Hv.
    apply hasShardingUpdates_view in Hv. apply (up_to_date_same st); try done.
    + split_and!; try done. simpl. symmetry. by apply (fmap_insert_view _ _ _ c0).
    + by apply filed_insert.
  - unfold DeleteCluster in Hrun. case_match; [|by simplify_eq].
    eapply updateDistribution_up_to_date; [|exact Hrun]. by apply filed_delete.
  - unfold UpdateCluster in Hrun. set (st1 := match Clusters st !! _ with Some _ => _ | None => _ end) in *.
    assert (filed st1) as Hf1.
    { unfold st1. destruct (Clusters st !! _); [|done]. destruct (negb _); [by apply filed_delete|done]. }
    case_match eqn:Hb.
    { eapply updateDistribution_up_to_date; [|exact Hrun]. by apply filed_insert. }
    injection Hrun as <-. apply hasShardingUpdates_view in Hb. destruct Ht as (c0&Hc0&Hv).
    assert (st1 = st) as ->.
    { unfold st1. rewrite Hc0. pose proof Hb as [= _ -> _]. by rewrite String.eqb_refl. }
    pose proof Hb as [= _ Hserver _]. apply (up_to_date_same st); try done.
    + split_and!; try done. simpl. symmetry. rewrite <-Hserver. apply (fmap_insert_view _ _ _ c0); [done|congruence].
    + by apply filed_insert.
  - by apply (AddApp_up_to_date a st).
  - unfold DeleteApp in Hrun. case_match; [|by simplify_eq].
    eapply updateDistribution_up_to_date; [|exact Hrun]. done.
  - by apply (AddApp_up_to_date a st).
  - injection Hrun as <-. unfold UpdateShard. case_match; [|done].
    intros k c Hk. destruct (Hu k c Hk) as (?&s&?&?). split; [done|]. by exists s.
Qed.

(** The caches a replica reaches from an empty one *)
Definition reachable (shard replicas : Z) (alg : string) (st : ClusterSharding) : Prop :=
  rtc cache_step (NewClusterSharding shard replicas alg) st.

Lemma reachable_invariant shard replicas alg st :
  reachable shard replicas alg st → up_to_date st ∧ ids_distinct st ∧ apps_fit st.
Proof.
  intros H. unfold reachable in H. remember (NewClusterSharding shard replicas alg) as st0 eqn:E.
  assert (up_to_date st0 ∧ ids_distinct st0 ∧ apps_fit st0) as H0.
  { subst. split_and!; [intros k c|intros k1 k2 c1 c2|done]; simpl; by rewrite lookup_empty. }
  clear E. induction H as [|x y z Hxy _ IH]; [done|]. apply IH.
  destruct Hxy as (e&Hrun&Ht&Hd&Hf), H0 as (Hu&Hd0&Hf0). split_and!; [|done..].
  by eapply run_event_up_to_date.
Qed.

(** The cache never goes stale: after any sequence of tracked events every
    cluster is filed with the shard that a fresh computation from the current
    clusters and applications would give it. *)
Theorem shards_up_to_date shard replicas alg st k c :
  reachable shard replicas alg st → Clusters st !! k = Some c →
  ClusterServer c = k ∧ Shards st !! k = cluster_shard st c ∧ is_Some (cluster_shard st c).
Proof.
  intros (Hu&_)%reachable_invariant Hk. destruct (Hu k c Hk) as (?&s&->&?). eauto.
Qed.
End invariant.

(** ** A fleet of replicas *)

(** What consistent hashing needs to answer *)
Definition fleet_fits `{HA : Hash64} (st : ClusterSharding) : Prop :=
  shardingAlgorithm st = ConsistentHashingWithBoundedLoadsAlgorithm →
    points_distinct (Replicas st) ∧
    Z.of_nat (size (Clusters st)) * Z.of_nat (size (Apps st)) < int_max.

Section fleet.
Context `{BT : BTree} `{HA : Hash64}.

Lemma cluster_shard_range (R : GoRuntime) st k c s :
  0 < Replicas st < 2 ^ 31 → fleet_fits st → apps_fit st → Clusters st !! k = Some c →
  (∀ m, ClusterShard c = Some m → 0 ≤ m) → cluster_shard st c = Some s → 0 ≤ s < Replicas st.
Proof.
  intros Hr Hfits Hfit Hk Hman. unfold cluster_shard. destruct (ClusterShard c) as [m|] eqn:Hm.
  { specialize (Hman m eq_refl). intros [= <-]. case_match eqn:E; breflect; lia. }
  unfold getClusterShard. destruct (Z.ltb_spec 1 (Replicas st)).
  - destruct (distribution_range (getClusterAccessor st) (getAppAccessor st) (shardingAlgorithm st) (Replicas st) c)
      as (s'&->&?); [done| | |done|by intros [= <-]].
    + intros [Hpd Hsize]%Hfits. unfold hashing_fits. by rewrite length_app_accessor, length_cluster_accessor.
    + apply elem_of_accessor. eauto.
  - intros [= <-]. lia.
Qed.

(** Replicas with the same inventory divide the clusters between them: every
    cluster without a negative manual shard that is not skipped is processed by
    exactly one replica, whatever events led each replica there and in whatever
    order its process lists maps. *)
Theorem managed_exactly_once (R : nat → GoRuntime) (fleet : nat → ClusterSharding) (n : nat) alg k c :
  let replicas := Z.of_nat n in
  0 < replicas < 2 ^ 31 →
  (∀ i, (i < n)%nat → @reachable (R i) _ _ (Z.of_nat i) replicas alg (fleet i)) →
  (∀ i, (i < n)%nat → Shard (fleet i) = Z.of_nat i ∧ same_inventory (fleet 0%nat) (fleet i)) →
  Replicas (fleet 0%nat) = replicas → fleet_fits (fleet 0%nat) →
  Clusters (fleet 0%nat) !! k = Some c → (∀ m, ClusterShard c = Some m → 0 ≤ m) →
  ParseBool (default "" (ClusterAnnotations c !! AnnotationKeyAppSkipReconcile)) ≠ Some true →
  ∃ i, (i < n)%nat ∧ ∀ j, (j < n)%nat → (IsManagedCluster (fleet j) (Some c) = true ↔ j = i).
Proof.
  intros replicas Hr Hreach Hsame Hrep Hfits Hk Hman Hskip.
  assert (0 < n)%nat as Hn by lia.
  destruct (@reachable_invariant (R 0%nat) _ _ _ _ _ _ (Hreach 0%nat Hn)) as (Hu0&Hd0&Hf0).
  destruct (Hu0 k c Hk) as (Hserver&s&Hs&_).
  assert (0 ≤ s < replicas) as Hrange.
  { rewrite <-Hrep. eapply (cluster_shard_range (R 0%nat)); [by rewrite Hrep|done..]. }
  exists (Z.to_nat s). split; [lia|]. intros j Hj. destruct (Hsame j Hj) as [Hshard Hinv].
  destruct (@reachable_invariant (R j) _ _ _ _ _ _ (Hreach j Hj)) as (Huj&_&_).
  pose proof Hinv as (_&_&Hc&_). apply (f_equal (lookup k)) in Hc. rewrite !lookup_fmap, Hk in Hc.
  destruct (Clusters (fleet j) !! k) as [cj|] eqn:Hkj; [|done].
  destruct (Huj k cj Hkj) as (_&sj&Hsj&Hmj).
  rewrite <-(cluster_shard_agree (R 0%nat) (R j) _ _ k c cj Hinv Hd0 Hf0 Hk Hkj), Hs in Hsj.
  injection Hsj as <-. unfold IsManagedCluster. rewrite Hserver, Hmj, Hshard. simpl.
  destruct (ParseBool _) as [[]|]; [done|..]; rewrite Z.eqb_eq; lia.
Qed.
End fleet.

(** ** Concrete fleets *)

#[local] Existing Instance reference_runtime.
#[local] Existing Instance list_BTree.

Module ShardSample.
#[local] Existing Instance encode_hash.

Lemma points_distinct_encode replicas : points_distinct replicas.
Proof. intros m n i j _ _ _ _ [= H]. by apply (inj encode) in H. Qed.

Definition cluster (p : positive) (id server : string) : Cluster :=
  {| ClusterPtr := p; ClusterID := id; ClusterServer := server; ClusterName := id;
     ClusterShard := None; ClusterAnnotations := ∅ |}.

Definition application (n server : string) : Application :=
  {| AppName := n; Destination := {| Server := server; Namespace := ""; DestName := "" |};
     app_OperationState := None |}.

Definition a : Cluster := cluster 1 "a" "https://a".
Definition b : Cluster := cluster 2 "b" "https://b".

(** Two servers with two points each, and a third one *)
Definition small_ring : Consistent := Add "1" (Add "0" (NewWithReplicationFactor 2)).

Lemma Add_consistent_witness :
  ∃ s, Get "client" (Add "2" small_ring) = Found s ∧
    (s = "2" ∨ Get "client" small_ring = Found s) ∧ is_Some (loadMap (Add "2" small_ring) !! s).
Proof.
  apply (Add_consistent 2 small_ring "2" "client").
  - reflexivity.
  - eapply rtc_l; [apply (ring_Add "0")|]. eapply rtc_l; [apply (ring_Add "1")|]. apply rtc_refl.
  - vm_compute. reflexivity.
Defined.

Lemma GetLeast_terminates_witness :
  ∃ s h, GetLeast "client" (shard_ring 2) = Some (Found s, shard_ring 2) ∧
    least_loop (turn (shard_ring 2)) "client" (hash "client") (shard_ring 2) = Some (Found s, shard_ring 2) ∧
    loadMap (shard_ring 2) !! s = Some h ∧
    Load h < ceil_125 (Z.max 1 ((totalLoad (shard_ring 2) + 1) / Z.of_nat (size (loadMap (shard_ring 2))))).
Proof.
  apply (GetLeast_terminates "client" (shard_ring 2)).
  - apply ring_ok_shards.
  - apply shard_ring_loads_ok.
  - intros s [h (k&Hk&Hs&_)%shard_ring_loads]. subst s. exists (hash (point_name (pretty k) 0)).
    apply (shard_first_point 2); [apply points_distinct_encode|lia|exact Hk].
  - intros Hn. destruct (shard_ring_loads 2) as (_&_&Hl).
    assert (loadMap (shard_ring 2) !! (pretty 0%nat : string) = Some (zero_host (pretty 0%nat))) as H0.
    { apply Hl. exists 0%nat. split_and!; [lia|reflexivity|reflexivity]. }
    rewrite Hn, lookup_empty in H0. discriminate H0.
  - lia.
Defined.

Lemma round_robin_balanced_witness :
  1 ≤ Z.of_nat (length (List.filter
    (λ c, shard_is 1 (RoundRobinDistributionFunction [b; a; cluster 3 "c" "https://c"] 2 (Some c)))
    [b; a; cluster 3 "c" "https://c"])) ≤ 2.
Proof.
  apply (round_robin_balanced [b; a; cluster 3 "c" "https://c"] 2 1).
  - lia.
  - repeat constructor; simpl; rewrite ?elem_of_cons, ?elem_of_nil; intuition discriminate.
  - intros c Hc. repeat (apply elem_of_cons in Hc as [Hc|Hc]; [subst c; reflexivity|]). by apply elem_of_nil in Hc.
Defined.

Lemma consistent_hashing_bounded_witness :
  ∃ m, createConsistentHashingWithBoundLoads 2 [a; b] [application "p" "https://a"] = Some m ∧
    sum_apps [application "p" "https://a"] (on_shard m 0) [a; b] ≤ 2.
Proof.
  destruct (consistent_hashing_bounded 2 [a; b] [application "p" "https://a"] 1) as (m&Hm&_&Hb).
  - apply points_distinct_encode.
  - unfold int_max. lia.
  - reflexivity.
  - reflexivity.
  - intros c Hc. repeat (apply elem_of_cons in Hc as [Hc|Hc]; [subst c; vm_compute; discriminate|]).
    by apply elem_of_nil in Hc.
  - lia.
  - exists m. split; [exact Hm|]. apply (Hb ltac:(repeat constructor; simpl;
      rewrite ?elem_of_cons, ?elem_of_nil; intuition discriminate) 0). lia.
Defined.

(** A replica of two that has seen the two clusters *)
Definition seen (shard : Z) (cs : list Cluster) : ClusterSharding :=
  {| Shard := shard; Replicas := 2;
     Shards := list_to_map ((λ c, (ClusterServer c, if String.eqb (ClusterID c) "a" then 0 else 1)) <$> cs);
     Clusters := list_to_map ((λ c, (ClusterServer c, c)) <$> cs); Apps := ∅;
     shardingAlgorithm := RoundRobinShardingAlgorithm |}.

Lemma clusters_ab k c : Clusters (seen 0 [a; b]) !! k = Some c →
  (k = "https://a" ∧ c = a) ∨ (k = "https://b" ∧ c = b).
Proof.
  unfold seen. simpl. intros [[<- <-]|[_ [[<- <-]|[_ H]]%lookup_insert_Some]]%lookup_insert_Some;
    [auto..|by rewrite lookup_empty in H].
Qed.

Lemma reachable_ab shard : reachable shard 2 RoundRobinShardingAlgorithm (seen shard [a; b]).
Proof.
  eapply rtc_l; [|apply rtc_refl].
  exists (EvInit [a; b] []). split_and!.
  - vm_compute. reflexivity.
  - exact I.
  - intros k1 k2 c1 c2 H1 H2 Hid. apply clusters_ab in H1, H2.
    destruct H1 as [[-> ->]|[-> ->]], H2 as [[-> ->]|[-> ->]]; try reflexivity; discriminate Hid.
  - vm_compute. reflexivity.
Qed.

Lemma shards_up_to_date_witness :
  ClusterServer b = "https://b" ∧
  Shards (seen 0 [a; b]) !! "https://b" = cluster_shard (seen 0 [a; b]) b ∧
  is_Some (cluster_shard (seen 0 [a; b]) b).
Proof.
  apply (shards_up_to_date 0 2 RoundRobinShardingAlgorithm (seen 0 [a; b]) "https://b" b).
  - apply reachable_ab.
  - vm_compute. reflexivity.
Defined.

Lemma managed_exactly_once_witness :
  ∃ i, (i < 2)%nat ∧ ∀ j, (j < 2)%nat →
    (IsManagedCluster (seen (Z.of_nat j) [a; b]) (Some b) = true ↔ j = i).
Proof.
  apply (managed_exactly_once (λ _, reference_runtime) (λ i, seen (Z.of_nat i) [a; b]) 2
    RoundRobinShardingAlgorithm "https://b" b).
  - lia.
  - intros i _. apply reachable_ab.
  - intros i _. split; [reflexivity|]. split_and!; reflexivity.
  - reflexivity.
  - intros H. discriminate H.
  - vm_compute. reflexivity.
  - intros m H. discriminate H.
  - vm_compute. discriminate.
Defined.
End ShardSample.

(** ** A stale cache *)
Module Stale.
Import ShardSample.

(** All points of a shard in one place keep the ring small. *)
#[local] Instance first_byte_hash : Hash64 :=
  {| hash s := match s with String c _ => Z.of_nat (nat_of_ascii c) | EmptyString => 0 end |}.

Definition before : list Application := [application "p" "https://x"; application "q" "https://x"].
Definition after : list Application := [application "p" "https://a"; application "q" "https://a"].

Definition start (shard : Z) : ClusterSharding :=
  NewClusterSharding shard 2 ConsistentHashingWithBoundedLoadsAlgorithm.

(** Replica 0 sees the two applications move to cluster [a]; replica 1 starts
    afterwards. *)
Definition stale : option ClusterSharding :=
  st ← Init [a; b] before (start 0);
  st ← UpdateApp (application "p" "https://a") st;
  UpdateApp (application "q" "https://a") st.
Definition fresh : option ClusterSharding := Init [a; b] after (start 1).

(** Moving applications between clusters does not refresh the shards although
    consistent hashing depends on it: a replica that saw the move and one that
    started later hold the same clusters and applications, and both process
    cluster [b]. *)
Theorem update_app_leaves_shards_stale :
  ∃ st1 st2, stale = Some st1 ∧ fresh = Some st2 ∧
    Clusters st1 = Clusters st2 ∧ Apps st1 = Apps st2 ∧
    IsManagedCluster st1 (Some b) = true ∧ IsManagedCluster st2 (Some b) = true.
Proof.
  assert ((λ st, (Clusters st, Apps st, IsManagedCluster st (Some b))) <$> stale =
          (λ st, (Clusters st, Apps st, IsManagedCluster st (Some b))) <$> fresh) as H by (vm_compute; reflexivity).
  assert ((λ st, IsManagedCluster st (Some b)) <$> stale = Some true) as Hb by (vm_compute; reflexivity).
  destruct stale as [st1|], fresh as [st2|]; try done.
  exists st1, st2. apply (inj Some) in H, Hb. rewrite pair_equal_spec, pair_equal_spec in H.
  destruct H as [[Hc Ha] Hm]. split_and!; [done..|by rewrite <-Hm].
Qed.
End Stale.
