(* ===== verification/ShardMapping.v ===== *)
(** * The shard mapping of dynamic cluster distribution (src/controller/sharding/sharding.go)

    With dynamic distribution the controllers agree on their shards through a
    config map: one entry per shard with the controller that holds it and the
    time of its last heartbeat.  Every controller runs
    [GetOrUpdateShardFromConfigMap] at start and at every readiness probe; the
    API server rejects an update based on an old version, so successful runs act
    on the map one after the other. *)

From S2P Require Import Prelude GoStd GoTime.
From Stdlib Require Import Ascii.
Local Open Scope string_scope.
Local Open Scope list_scope.
Local Open Scope Z_scope.

(** ** Data *)

Record mapping := { ShardNumber : Z; ControllerName : string; HeartbeatTime : Z }.

(** What a run reads of its host: the name of the pod, the time of the heartbeat
    ([heartbeatCurrentTime]), and the reading of the clock that is compared with
    the heartbeat of the [i]-th entry *)
Record controller := { hostname : string; heartbeat : Z; reading : nat → Z }.

Definition assign_to (c : controller) (e : mapping) : mapping :=
  {| ShardNumber := ShardNumber e; ControllerName := hostname c; HeartbeatTime := heartbeat c |}.
Definition beat (c : controller) (e : mapping) : mapping :=
  {| ShardNumber := ShardNumber e; ControllerName := ControllerName e; HeartbeatTime := heartbeat c |}.

Section mapping.
(** [HeartbeatTimeout], in seconds, from the environment *)
Context (HeartbeatTimeout : Z).

(** ** The code *)

Definition empty_mapping (i : nat) : mapping :=
  {| ShardNumber := Z.of_nat i; ControllerName := ""; HeartbeatTime := 0 |}.

Definition getDefaultShardMappingData (replicas : Z) : list mapping :=
  empty_mapping <$> seq 0 (Z.to_nat replicas).

(** The first entry that passes a test: its position and the entry *)
Fixpoint find_entry (f : nat → mapping → bool) (i : nat) (l : list mapping) : option (nat * mapping) :=
  match l with
  | [] => None
  | e :: r => if f i e then Some (i, e) else find_entry f (S i) r
  end.

(** [metav1.Now().After(HeartbeatTime.Add(timeout))] *)
Definition expired (c : controller) (i : nat) (e : mapping) : bool :=
  time_Before (HeartbeatTime e + wrap64 (HeartbeatTimeout * Second)) (reading c i).

(** Resizing the mapping to the number of replicas *)
Definition resize (replicas : Z) (data : list mapping) : list mapping :=
  let data :=
    if Z.of_nat (length data) <? replicas then
      data ++ (empty_mapping <$> seq (length data) (Z.to_nat replicas - length data))
    else data in
  if replicas <? Z.of_nat (length data) then getDefaultShardMappingData replicas else data.

Definition getOrUpdateShardNumberForController (shardMappingData : list mapping) (c : controller)
    (replicas shard : Z) : Z * list mapping :=
  let data := resize replicas shardMappingData in
  let '(shard, data) :=
    if negb (shard =? -1) && (shard <? replicas) then
      match find_entry (λ _ e, ShardNumber e =? shard) 0 data with
      | Some (i, e) => (shard, <[i := assign_to c e]> data)
      | None => (shard, data)
      end
    else
      match find_entry (λ _ e, String.eqb (ControllerName e) (hostname c)) 0 data with
      | Some (i, e) => (ShardNumber e, <[i := beat c e]> data)
      | None => (shard, data)
      end in
  if shard =? -1 then
    match find_entry (λ i e, String.eqb (ControllerName e) "" || expired c i e) 0 data with
    | Some (i, e) => (ShardNumber e, <[i := assign_to c e]> data)
    | None => (shard, data)
    end
  else (shard, data).

(** The mapping of [generateDefaultShardMappingCM]; [None] is the panic of an
    index out of range. *)
Definition generateDefaultShardMapping (c : controller) (replicas shard : Z) : option (list mapping) :=
  let shardMappingData := getDefaultShardMappingData replicas in
  let shard := if (shard =? -1) || (replicas <? shard) then 0 else shard in
  if shard <? 0 then None
  else
    e ← shardMappingData !! Z.to_nat shard;
    Some (<[Z.to_nat shard := assign_to c e]> shardMappingData).

(** *** The config map

    A time is stored in JSON with whole seconds. *)
Definition stored (data : list mapping) : list mapping :=
  (λ e, {| ShardNumber := ShardNumber e; ControllerName := ControllerName e;
           HeartbeatTime := HeartbeatTime e - HeartbeatTime e mod Second |}) <$> data.

Inductive api_error := Conflict | OtherError.

(** The state of the config map: absent, or with its data, [None] for data that
    does not parse *)
Definition configmap : Type := option (option (list mapping)).

Inductive run_result :=
  | RunShard (shard : Z)
  | RunGetError
  | RunParseError
  | RunWriteError (e : api_error)
  | RunPanic.

(** [GetOrUpdateShardFromConfigMap]; [get_fails] and [write_fails] are errors of
    the API server (other than the absence of the map). *)
Definition GetOrUpdateShardFromConfigMap (c : controller) (replicas shard : Z) (get_fails : bool)
    (write_fails : option api_error) (cm : configmap) : run_result * configmap :=
  if get_fails then (RunGetError, cm)
  else
    match cm with
    | None =>
        let shard := if shard =? -1 then 0 else shard in
        match generateDefaultShardMapping c replicas shard with
        | None => (RunPanic, cm)
        | Some data =>
            match write_fails with
            | Some e => (RunWriteError e, cm)
            | None => (RunShard shard, Some (Some (stored data)))
            end
        end
    | Some None => (RunParseError, cm)
    | Some (Some data) =>
        let '(shard, data) := getOrUpdateShardNumberForController data c replicas shard in
        match write_fails with
        | Some e => (RunWriteError e, cm)
        | None => (RunShard shard, Some (Some (stored data)))
        end
    end.

(** [InferShard]: the number after the last dash of the host name, else 0 *)
Definition InferShard (name : string) : Z :=
  match last (Split name "-"%char) with
  | Some part => default 0 (Atoi part)
  | None => 0
  end.

(** The attempts of [GetClusterSharding] with dynamic distribution: run [i] sees
    the config map that the other controllers left there ([others]).  The loop
    does not stop at a success, and the shard of a failed run is -1; [None] is
    the fatal error after the loop. *)
Fixpoint sharding_attempts (runs : list (controller * bool * option api_error * (configmap → configmap)))
    (replicas shard : Z) (last_err : bool) (cm : configmap) : option Z * configmap :=
  match runs with
  | [] => (if last_err then None else Some shard, cm)
  | (c, get_fails, write_fails, others) :: rest =>
      let '(r, cm) := GetOrUpdateShardFromConfigMap c replicas shard get_fails write_fails (others cm) in
      match r with
      | RunShard s => sharding_attempts rest replicas s false cm
      | RunWriteError Conflict => sharding_attempts rest replicas (-1) true cm
      | _ => (None, cm)
      end
  end.

(** Without dynamic distribution *)
Definition static_shard (replicasCount shardNumber : Z) (name : string) : Z :=
  if 1 <? replicasCount then
    let shardNumber := if shardNumber <? 0 then InferShard name else shardNumber in
    if replicasCount <? shardNumber then 0 else shardNumber
  else 0.

(** ** Well-formed mappings *)

(** Entries are numbered by their position. *)
Definition numbered (data : list mapping) : Prop :=
  ∀ i e, data !! i = Some e → ShardNumber e = Z.of_nat i.
(** No controller holds two entries. *)
Definition one_shard_each (data : list mapping) : Prop :=
  ∀ i j e e', data !! i = Some e → data !! j = Some e' →
    ControllerName e ≠ "" → ControllerName e = ControllerName e' → i = j.
(** Only entry [k] may be held by [c]. *)
Definition only_at (c : controller) (k : nat) (data : list mapping) : Prop :=
  ∀ i e, data !! i = Some e → ControllerName e = hostname c → i = k.

Definition wf (data : list mapping) : Prop := numbered data ∧ one_shard_each data.

(** *** The search *)
Lemma find_entry_Some f l i k e :
  find_entry f i l = Some (k, e) →
  ∃ n, k = (i + n)%nat ∧ l !! n = Some e ∧ f k e = true ∧
    ∀ m e', (m < n)%nat → l !! m = Some e' → f (i + m)%nat e' = false.
Proof.
  revert i. induction l as [|x l IH]; intros i; simpl; [done|].
  destruct (f i x) eqn:Hf.
  - intros [= <- <-]. exists 0%nat. rewrite Nat.add_0_r. split_and!; [done..|lia].
  - intros (n & -> & Hn & He & Hmin)%IH. exists (S n).
    rewrite <-Nat.add_succ_comm. split_and!; [done..|].
    intros [|m] e' Hm; simpl.
    + intros [= <-]. by rewrite Nat.add_0_r.
    + rewrite <-Nat.add_succ_comm. apply Hmin. lia.
Qed.

Lemma find_entry_None f l i :
  find_entry f i l = None → ∀ n e, l !! n = Some e → f (i + n)%nat e = false.
Proof.
  revert i. induction l as [|x l IH]; intros i; simpl; [done|].
  destruct (f i x) eqn:Hf; [done|]. intros H [|n] e; simpl.
  - intros [= <-]. by rewrite Nat.add_0_r.
  - rewrite <-Nat.add_succ_comm. by apply IH.
Qed.

(** *** Resizing *)
Lemma lookup_empty_mappings n m i e :
  (empty_mapping <$> seq n m) !! i = Some e → (i < m)%nat ∧ e = empty_mapping (n + i).
Proof.
  intros H. rewrite list_lookup_fmap in H. apply fmap_Some in H as (x & Hx & ->).
  apply lookup_seq in Hx as [-> ?]. done.
Qed.

Lemma resize_length replicas data :
  0 <= replicas → Z.of_nat (length (resize replicas data)) = replicas.
Proof.
  intros Hr. unfold resize, getDefaultShardMappingData.
  destruct (Z.ltb_spec (Z.of_nat (length data)) replicas); cbn zeta.
  - rewrite length_app, length_fmap, length_seq.
    destruct (Z.ltb_spec replicas (Z.of_nat (length data + (Z.to_nat replicas - length data))));
      [lia|]. rewrite length_app, length_fmap, length_seq. lia.
  - destruct (Z.ltb_spec replicas (Z.of_nat (length data))); [|lia].
    rewrite length_fmap, length_seq. lia.
Qed.

(** An entry after resizing is an old one or an empty one. *)
Lemma resize_lookup replicas data i e :
  resize replicas data !! i = Some e → data !! i = Some e ∨ e = empty_mapping i.
Proof.
  unfold resize, getDefaultShardMappingData.
  destruct (Z.of_nat (length data) <? replicas); cbn zeta;
    destruct (replicas <? _); intros H;
    try (apply lookup_empty_mappings in H as [_ ->]; by right).
  - apply lookup_app_Some in H as [?|[? H]]; [by left|right].
    apply lookup_empty_mappings in H as [_ ->]. f_equal. lia.
  - by left.
Qed.

Lemma resize_keeps replicas data i e :
  Z.of_nat (length data) <= replicas → data !! i = Some e → resize replicas data !! i = Some e.
Proof.
  intros Hlen Hi. unfold resize. pose proof (lookup_lt_Some _ _ _ Hi).
  destruct (Z.ltb_spec (Z.of_nat (length data)) replicas); cbn zeta.
  - rewrite length_app, length_fmap, length_seq.
    destruct (Z.ltb_spec replicas (Z.of_nat (length data + (Z.to_nat replicas - length data))));
      [lia|]. by rewrite lookup_app_l.
  - destruct (Z.ltb_spec replicas (Z.of_nat (length data))); [lia|done].
Qed.

Lemma resize_only_at c k replicas data :
  hostname c ≠ "" → only_at c k data → only_at c k (resize replicas data).
Proof.
  intros Hn H i e [Hi| ->]%resize_lookup Hc; [eauto|]. by rewrite <-Hc in Hn.
Qed.

Lemma resize_wf replicas data : wf data → wf (resize replicas data).
Proof.
  intros [Hn Ho]. split.
  - intros i e [Hi| ->]%resize_lookup; [eauto|done].
  - intros i j e e' [Hi| ->]%resize_lookup; [|done].
    intros [Hj| ->]%resize_lookup Hne Heq; [eauto|]. by rewrite Heq in Hne.
Qed.

(** *** Changing one entry *)
Lemma insert_wf c k e h data :
  wf data → only_at c k data → data !! k = Some e →
  wf (<[k := {| ShardNumber := ShardNumber e; ControllerName := hostname c; HeartbeatTime := h |}]> data).
Proof.
  intros [Hn Ho] Hc Hk. split.
  - intros i e' [(<- & <- & _)|[_ Hi]]%list_lookup_insert_Some; simpl; eauto.
  - intros i j e1 e2 Hi Hj Hne Heq.
    apply list_lookup_insert_Some in Hi as [(<- & <- & _)|[Hik Hi]];
      apply list_lookup_insert_Some in Hj as [(<- & <- & _)|[Hjk Hj]]; simpl in *; [done|..].
    + symmetry. by eapply Hc.
    + by eapply Hc.
    + eauto.
Qed.

Lemma stored_lookup data i e :
  stored data !! i = Some e → ∃ e0, data !! i = Some e0 ∧ ShardNumber e = ShardNumber e0 ∧
    ControllerName e = ControllerName e0 ∧ HeartbeatTime e = HeartbeatTime e0 - HeartbeatTime e0 mod Second.
Proof.
  unfold stored. rewrite list_lookup_fmap. intros (e0 & -> & ->)%fmap_Some. by exists e0.
Qed.

Lemma stored_wf data : wf data → wf (stored data).
Proof.
  intros [Hn Ho]. split.
  - intros i e (e0 & H0 & -> & _)%stored_lookup. eauto.
  - intros i j e e' (e0 & H0 & _ & -> & _)%stored_lookup (e1 & H1 & _ & -> & _)%stored_lookup. eauto.
Qed.

(** ** One run *)

(** The controller holds entry [k] now: it was its own, free, or its lease had
    run out. *)
Definition takes (c : controller) (d : list mapping) (s : Z) (d' : list mapping) : Prop :=
  ∃ k e, d !! k = Some e ∧ s = ShardNumber e ∧ d' = <[k := assign_to c e]> d ∧ only_at c k d ∧
    (ControllerName e = hostname c ∨ ControllerName e = "" ∨ expired c k e = true).
(** All entries are held by other controllers with fresh heartbeats. *)
Definition all_held (c : controller) (d : list mapping) : Prop :=
  ∀ k e, d !! k = Some e →
    ControllerName e ≠ hostname c ∧ ControllerName e ≠ "" ∧ expired c k e = false.

Lemma acquire_spec c replicas data :
  wf data → hostname c ≠ "" →
  let d := resize replicas data in
  let '(s, d') := getOrUpdateShardNumberForController data c replicas (-1) in
  takes c d s d' ∨ (s = -1 ∧ d' = d ∧ all_held c d).
Proof.
  intros Hwf Hne. cbn zeta. pose proof (resize_wf replicas data Hwf) as [Hn Ho].
  unfold getOrUpdateShardNumberForController. cbn zeta. set (d := resize replicas data) in *.
  simpl negb. cbn [andb].
  destruct (find_entry (λ _ e, String.eqb (ControllerName e) (hostname c)) 0 d) as [[k e]|] eqn:Hown.
  - apply find_entry_Some in Hown as (n & -> & Hk & Hc & _).
    apply String.eqb_eq in Hc. simpl in *. pose proof (Hn _ _ Hk) as Hs.
    destruct (Z.eqb_spec (ShardNumber e) (-1)); [lia|]. left. exists n, e. split_and!; [done..| | |by left].
    + unfold beat, assign_to. by rewrite Hc.
    + intros i e' Hi He'. eapply Ho; [done..| |]; congruence.
  - pose proof (find_entry_None _ _ _ Hown) as Hno. simpl in Hno.
    assert (∀ i e, d !! i = Some e → ControllerName e ≠ hostname c) as Hno'.
    { intros i e Hi. by apply String.eqb_neq, (Hno i). }
    clear Hown. simpl. destruct (find_entry _ 0 d) as [[k e]|] eqn:Hfree.
    + apply find_entry_Some in Hfree as (n & -> & Hk & Hc & _). simpl in *.
      left. exists n, e. split_and!; [done..| |].
      * intros i e' Hi He'. by destruct (Hno' i e').
      * right. apply orb_prop in Hc as [Hc%String.eqb_eq|]; auto.
    + right. split_and!; [done..|]. intros k e Hk. split; [eauto|].
      pose proof (find_entry_None _ _ _ Hfree k e Hk) as Hc.
      apply orb_false_iff in Hc as [Hc ?]. simpl in *. split; [by apply String.eqb_neq|done].
Qed.

Lemma renew_spec c replicas data (k : nat) :
  wf data → Z.of_nat k < replicas →
  let d := resize replicas data in
  ∃ e, d !! k = Some e ∧ ShardNumber e = Z.of_nat k ∧
    getOrUpdateShardNumberForController data c replicas (Z.of_nat k) = (Z.of_nat k, <[k := assign_to c e]> d).
Proof.
  intros Hwf Hk. cbn zeta. pose proof (resize_wf replicas data Hwf) as [Hn Ho].
  pose proof (resize_length replicas data ltac:(lia)) as Hlen.
  unfold getOrUpdateShardNumberForController. cbn zeta. set (d := resize replicas data) in *.
  destruct (lookup_lt_is_Some_2 d k ltac:(lia)) as [e He].
  exists e. split_and!; [done|by apply Hn|].
  destruct (Z.eqb_spec (Z.of_nat k) (-1)); [lia|]. destruct (Z.ltb_spec (Z.of_nat k) replicas); [|lia].
  cbn [negb andb].
  destruct (find_entry _ 0 d) as [[i e']|] eqn:Hf.
  - apply find_entry_Some in Hf as (m & -> & Hi & Hc & _). simpl in *.
    apply Z.eqb_eq in Hc. rewrite (Hn _ _ Hi) in Hc. assert (m = k) as -> by lia.
    rewrite He in Hi. injection Hi as <-.
    destruct (Z.eqb_spec (Z.of_nat k) (-1)); [lia|done].
  - pose proof (find_entry_None _ _ _ Hf k e He) as Hc. apply Z.eqb_neq in Hc. simpl in Hc.
    rewrite (Hn _ _ He) in Hc. lia.
Qed.

(** ** Runs on the config map

    A run of a controller: at start the shard found before is passed on to the
    next attempt, so a run has shard -1 or one that only this controller can
    hold. *)
Record run := { Ctl : controller; Replicas : Z; Shard : Z; GetFails : bool; WriteFails : option api_error }.

Definition exec (r : run) (cm : configmap) : run_result * configmap :=
  GetOrUpdateShardFromConfigMap (Ctl r) (Replicas r) (Shard r) (GetFails r) (WriteFails r) cm.

Definition run_ok (r : run) (cm : configmap) : Prop :=
  hostname (Ctl r) ≠ "" ∧ 0 < Replicas r ∧
  (Shard r = -1 ∨ ∃ k, Shard r = Z.of_nat k ∧ Shard r < Replicas r ∧
     ∀ data, cm = Some (Some data) → only_at (Ctl r) k data).

Inductive reachable : configmap → Prop :=
  | reach_absent : reachable None
  | reach_run r cm : reachable cm → run_ok r cm → reachable (exec r cm).2.

Lemma takes_wf c d s d' : wf d → takes c d s d' → wf d'.
Proof. intros Hwf (k & e & Hk & -> & -> & Hc & _). by apply insert_wf. Qed.

Lemma default_wf replicas : wf (getDefaultShardMappingData replicas).
Proof.
  split.
  - intros i e [_ ->]%lookup_empty_mappings. done.
  - intros i j e e' [_ ->]%lookup_empty_mappings. done.
Qed.

Lemma default_only_at c k replicas : hostname c ≠ "" → only_at c k (getDefaultShardMappingData replicas).
Proof. intros Hne i e [_ ->]%lookup_empty_mappings Hc. by rewrite <-Hc in Hne. Qed.

(** A configured shard: the first map *)
Lemma generateDefaultShardMapping_spec c replicas (k : nat) :
  Z.of_nat k < replicas →
  generateDefaultShardMapping c replicas (Z.of_nat k) =
    Some (<[k := assign_to c (empty_mapping k)]> (getDefaultShardMappingData replicas)).
Proof.
  intros Hk. unfold generateDefaultShardMapping. cbn zeta.
  destruct (Z.eqb_spec (Z.of_nat k) (-1)); [lia|]. destruct (Z.ltb_spec replicas (Z.of_nat k)); [lia|].
  simpl. destruct (Z.ltb_spec (Z.of_nat k) 0); [lia|]. rewrite Nat2Z.id.
  unfold getDefaultShardMappingData. rewrite list_lookup_fmap, lookup_seq_lt by lia. done.
Qed.

Lemma stored_length data : length (stored data) = length data.
Proof. apply length_fmap. Qed.

(** A run on a map that parses leaves a well-formed map of the run's size. *)
Lemma update_wf c replicas shard data :
  wf data → hostname c ≠ "" → 0 < replicas →
  (shard = -1 ∨ ∃ k, shard = Z.of_nat k ∧ shard < replicas ∧ only_at c k data) →
  wf (getOrUpdateShardNumberForController data c replicas shard).2 ∧
  Z.of_nat (length (getOrUpdateShardNumberForController data c replicas shard).2) = replicas.
Proof.
  intros Hwf Hne Hr Hs. pose proof (resize_length replicas data ltac:(lia)) as Hlen.
  destruct Hs as [->|(k & -> & Hk & Hc)].
  - pose proof (acquire_spec c replicas data Hwf Hne) as H. cbn zeta in H.
    destruct (getOrUpdateShardNumberForController _ _ _ _) as [s d']. simpl.
    destruct H as [Ht|(_ & -> & _)]; [|by split; [apply resize_wf|]].
    split; [eapply takes_wf; [by apply resize_wf|done]|].
    destruct Ht as (? & ? & _ & _ & -> & _). by rewrite length_insert.
  - destruct (renew_spec c replicas data k Hwf Hk) as (e & He & _ & ->). simpl. split.
    + apply insert_wf; [by apply resize_wf|by apply resize_only_at|done].
    + by rewrite length_insert.
Qed.

Definition cm_wf (cm : configmap) : Prop := ∀ data, cm = Some (Some data) → wf data.

Lemma exec_wf r cm : cm_wf cm → run_ok r cm → cm_wf (exec r cm).2.
Proof.
  intros Hcm (Hne & Hr & Hs). unfold exec, GetOrUpdateShardFromConfigMap.
  destruct (GetFails r); [done|]. destruct cm as [[data|]|]; [|done|].
  - destruct (update_wf (Ctl r) (Replicas r) (Shard r) data) as [Hwf _]; [by apply Hcm|done..| |].
    { destruct Hs as [?|(k & ? & ? & ?)]; [by left|right; eauto]. }
    destruct (getOrUpdateShardNumberForController _ _ _ _) as [s d'].
    destruct (WriteFails r); [done|]. intros ? [= <-]. by apply stored_wf.
  - assert (∃ k, (if Shard r =? -1 then 0 else Shard r) = Z.of_nat k ∧ Z.of_nat k < Replicas r) as (k & -> & Hk).
    { destruct Hs as [->|(k & -> & ? & _)]; [exists 0%nat; done|].
      destruct (Z.eqb_spec (Z.of_nat k) (-1)); [lia|eauto]. }
    cbn zeta. rewrite generateDefaultShardMapping_spec by done.
    destruct (WriteFails r); [done|]. intros ? [= <-]. apply stored_wf.
    apply insert_wf; [apply default_wf|by apply default_only_at|].
    unfold getDefaultShardMappingData. by rewrite list_lookup_fmap, lookup_seq_lt by lia.
Qed.

(** Whatever runs the controllers make, and whatever calls of the API server
    fail, the entries of the shard mapping are numbered by their position and no
    controller holds two of them. *)
Theorem mapping_well_formed cm data :
  reachable cm → cm = Some (Some data) →
  (∀ i e, data !! i = Some e → ShardNumber e = Z.of_nat i) ∧
  (∀ i j e e', data !! i = Some e → data !! j = Some e' →
     ControllerName e ≠ "" → ControllerName e = ControllerName e' → i = j).
Proof.
  intros Hreach. revert data. change (cm_wf cm).
  induction Hreach; [done|by apply exec_wf].
Qed.

(** ** Leases *)

(** The lease of an entry covers the readings of the clock of a run. *)
Definition lease_covers (h : Z) (r : run) : Prop :=
  ∀ i, reading (Ctl r) i <= h + wrap64 (HeartbeatTimeout * Second).

Lemma not_expired h r i e : lease_covers h r → HeartbeatTime e = h → expired (Ctl r) i e = false.
Proof. intros Hl He. unfold expired, time_Before. apply Z.ltb_ge. rewrite He. apply Hl. Qed.

(** Runs one after the other, with their results *)
Fixpoint exec_all (rs : list run) (cm : configmap) : list run_result * configmap :=
  match rs with
  | [] => ([], cm)
  | r :: rs =>
      let '(res, cm) := exec r cm in
      let '(ress, cm) := exec_all rs cm in (res :: ress, cm)
  end.

(** The state in which [owner] holds shard [k] since [h] *)
Definition holds (owner : string) (k : nat) (h : Z) (replicas : Z) (cm : configmap) : Prop :=
  ∃ data, cm = Some (Some data) ∧ wf data ∧ Z.of_nat (length data) = replicas ∧
    ∃ e, data !! k = Some e ∧ ControllerName e = owner ∧ HeartbeatTime e = h.

Lemma exec_respects_lease owner k h replicas r cm :
  owner ≠ "" → h mod Second = 0 → holds owner k h replicas cm →
  hostname (Ctl r) ≠ "" → hostname (Ctl r) ≠ owner → Replicas r = replicas → 0 < replicas →
  Shard r = -1 → lease_covers h r →
  (exec r cm).1 ≠ RunShard (Z.of_nat k) ∧ holds owner k h replicas (exec r cm).2.
Proof.
  intros Howner Hh (data & -> & Hwf & Hlen & e & He & Hown & Hbeat) Hne Hother HR Hr Hs Hl.
  unfold exec, GetOrUpdateShardFromConfigMap. rewrite HR, Hs.
  destruct (GetFails r); [split; [done|by exists data; eauto 10]|].
  destruct (update_wf (Ctl r) replicas (-1) data) as [Hwf' Hlen']; [by auto..|].
  pose proof (acquire_spec (Ctl r) replicas data Hwf Hne) as Hacq. cbn zeta in Hacq.
  assert (resize replicas data !! k = Some e) as Hk by (apply resize_keeps; [lia|done]).
  destruct (getOrUpdateShardNumberForController _ _ _ _) as [s d']. simpl in Hwf', Hlen'.
  assert (s ≠ Z.of_nat k ∧ d' !! k = Some e) as [Hsk Hd'].
  { destruct Hacq as [(i & e' & Hi & -> & -> & _ & Hwhy)|(-> & -> & _)]; [|split; [lia|done]].
    assert (i ≠ k).
    { intros ->. rewrite Hk in Hi. injection Hi as <-.
      rewrite (not_expired h r k e Hl Hbeat), Hown in Hwhy.
      destruct Hwhy as [?|[?|?]]; [congruence|done|done]. }
    rewrite list_lookup_insert_ne by done. split; [|done].
    destruct (resize_wf replicas data Hwf) as [Hn _]. rewrite (Hn _ _ Hi). lia. }
  destruct (WriteFails r); [split; [done|by exists data; eauto 10]|]. simpl. split; [congruence|].
  exists (stored d'). split_and!; [done|by apply stored_wf|by rewrite stored_length|].
  eexists. split; [unfold stored; by rewrite list_lookup_fmap, Hd'|]. simpl.
  split; [done|]. rewrite Hbeat. lia.
Qed.

(** The heartbeat as the config map keeps it *)
Definition kept_heartbeat (c : controller) : Z := heartbeat c - heartbeat c mod Second.

Lemma kept_heartbeat_seconds c : kept_heartbeat c mod Second = 0.
Proof. unfold kept_heartbeat. by rewrite Zminus_mod_idemp_r, Z.sub_diag. Qed.

Lemma holds_stored c k e replicas d :
  wf (<[k := assign_to c e]> d) → Z.of_nat (length d) = replicas → d !! k = Some e →
  holds (hostname c) k (kept_heartbeat c) replicas (Some (Some (stored (<[k := assign_to c e]> d)))).
Proof.
  intros Hwf Hlen Hk. exists (stored (<[k := assign_to c e]> d)).
  split_and!; [done|by apply stored_wf|by rewrite stored_length, length_insert|].
  pose proof (lookup_lt_Some _ _ _ Hk).
  eexists. unfold stored. rewrite list_lookup_fmap, list_lookup_insert_eq by done. done.
Qed.

(** A run that returns a shard holds it. *)
Lemma exec_holds r cm k cm' :
  cm_wf cm → run_ok r cm → exec r cm = (RunShard (Z.of_nat k), cm') →
  holds (hostname (Ctl r)) k (kept_heartbeat (Ctl r)) (Replicas r) cm'.
Proof.
  intros Hcm Hok. pose proof (exec_wf r cm Hcm Hok) as Hcm'. destruct Hok as (Hne & Hr & Hs).
  intros H. revert Hcm'. rewrite H. simpl. revert H. unfold exec, GetOrUpdateShardFromConfigMap.
  destruct (GetFails r); [done|]. destruct cm as [[data|]|]; [|done|].
  - pose proof (resize_length (Replicas r) data ltac:(lia)) as Hlen.
    pose proof (resize_wf (Replicas r) data (Hcm _ eq_refl)) as Hwf.
    destruct Hs as [->|(j & -> & Hj & Hc)].
    + pose proof (acquire_spec (Ctl r) (Replicas r) data (Hcm _ eq_refl) Hne) as Hacq. cbn zeta in Hacq.
      destruct (getOrUpdateShardNumberForController _ _ _ _) as [s d'].
      destruct (WriteFails r); [done|]. intros [= -> <-] _.
      destruct Hacq as [(i & e & Hi & Hie & -> & Hat & _)|(? & _)]; [|lia].
      rewrite (proj1 Hwf _ _ Hi) in Hie. assert (k = i) as -> by lia.
      apply holds_stored; [by apply insert_wf|done..].
    + destruct (renew_spec (Ctl r) (Replicas r) data j (Hcm _ eq_refl) Hj) as (e & He & _ & ->).
      destruct (WriteFails r); [done|]. intros [= Hjk <-] _. assert (j = k) as -> by lia.
      apply holds_stored; [|done..]. apply insert_wf; [done| |done].
      apply resize_only_at; [done|by apply Hc].
  - assert (∃ k, (if Shard r =? -1 then 0 else Shard r) = Z.of_nat k ∧ Z.of_nat k < Replicas r) as (j & -> & Hj).
    { destruct Hs as [->|(j & -> & ? & _)]; [exists 0%nat; done|].
      destruct (Z.eqb_spec (Z.of_nat j) (-1)); [lia|eauto]. }
    cbn zeta. rewrite generateDefaultShardMapping_spec by done.
    destruct (WriteFails r); [done|]. intros [= Hjk <-] _. assert (j = k) as -> by lia.
    assert (getDefaultShardMappingData (Replicas r) !! k = Some (empty_mapping k)) as Hk.
    { unfold getDefaultShardMappingData. by rewrite list_lookup_fmap, lookup_seq_lt by lia. }
    apply holds_stored; [|unfold getDefaultShardMappingData; rewrite length_fmap, length_seq; lia|done].
    apply insert_wf; [apply default_wf|by apply default_only_at|done].
Qed.

Lemma reachable_wf cm : reachable cm → cm_wf cm.
Proof. induction 1; [done|by apply exec_wf]. Qed.

Lemma exec_all_respects_lease owner k h replicas rs cm :
  owner ≠ "" → h mod Second = 0 → 0 < replicas → holds owner k h replicas cm →
  Forall (λ r, hostname (Ctl r) ≠ "" ∧ hostname (Ctl r) ≠ owner ∧ Replicas r = replicas ∧
               Shard r = -1 ∧ lease_covers h r) rs →
  RunShard (Z.of_nat k) ∉ (exec_all rs cm).1 ∧ holds owner k h replicas (exec_all rs cm).2.
Proof.
  intros Ho Hh Hr Hholds Hrs. revert cm Hholds.
  induction Hrs as [|r rs (Hne & Hother & HR & Hs & Hl) Hrs IH]; intros cm Hholds; simpl.
  - split; [|done]. apply not_elem_of_nil.
  - destruct (exec_respects_lease owner k h replicas r cm) as [Hres Hcm]; [done..|].
    destruct (exec r cm) as [res cm']. simpl in *. destruct (IH cm' Hcm) as [Hin Hend].
    destruct (exec_all rs cm') as [ress cm'']. simpl in *. split; [|done].
    by apply not_elem_of_cons.
Qed.

(** Mutual exclusion: a controller whose run returned shard [k] keeps it for
    the heartbeat timeout, counted from its heartbeat in whole seconds: whatever
    runs other controllers of the same deployment make until then, none of them
    is given shard [k], and the entry still names the first controller. *)
Theorem lease_exclusive r cm cm' k rs :
  reachable cm → run_ok r cm → exec r cm = (RunShard (Z.of_nat k), cm') →
  Forall (λ r', hostname (Ctl r') ≠ "" ∧ hostname (Ctl r') ≠ hostname (Ctl r) ∧ Replicas r' = Replicas r ∧
                Shard r' = -1 ∧ lease_covers (kept_heartbeat (Ctl r)) r') rs →
  RunShard (Z.of_nat k) ∉ (exec_all rs cm').1 ∧
  ∃ data e, (exec_all rs cm').2 = Some (Some data) ∧ data !! k = Some e ∧
    ControllerName e = hostname (Ctl r).
Proof.
  intros Hcm%reachable_wf Hok Hrun Hrs. pose proof (exec_holds r cm k cm' Hcm Hok Hrun) as Hholds.
  destruct Hok as (Hne & Hr & _).
  destruct (exec_all_respects_lease _ _ _ _ rs cm' Hne (kept_heartbeat_seconds _) Hr Hholds Hrs)
    as [Hin (data & Hdata & _ & _ & e & He & Hc & _)]. eauto 10.
Qed.

(** ** There is a shard for every controller *)
Lemma all_held_owners c d names :
  wf d → all_held c d → (∀ i e, d !! i = Some e → ControllerName e ∈ names) →
  (length d <= length (filter (λ n, n ≠ hostname c) names))%nat.
Proof.
  intros [_ Ho] Hheld Hnames. rewrite <-(length_fmap ControllerName d).
  apply submseteq_length, NoDup_submseteq.
  - apply NoDup_alt. intros i j n Hi Hj. rewrite list_lookup_fmap in Hi, Hj.
    apply fmap_Some in Hi as (e & Hi & ->), Hj as (e' & Hj & Heq).
    eapply (Ho i j e e'); [done..|by apply Hheld in Hi as (_ & ? & _)|done].
  - intros n (e & -> & (i & Hi)%list_elem_of_lookup)%list_elem_of_fmap.
    apply list_elem_of_filter. split; [by apply Hheld in Hi as (? & _)|eauto].
Qed.

(** Enough shards: when the mapping has only names of a deployment of at most
    as many controllers as replicas, each controller that runs is given a shard,
    and the entry of that shard is its own with the time of the run. *)
Theorem every_controller_gets_a_shard r data names :
  wf data → (∀ i e, data !! i = Some e → ControllerName e = "" ∨ ControllerName e ∈ names) →
  hostname (Ctl r) ∈ names → hostname (Ctl r) ≠ "" → Z.of_nat (length names) <= Replicas r →
  Shard r = -1 → GetFails r = false → WriteFails r = None →
  ∃ k data', (k < Z.to_nat (Replicas r))%nat ∧
    exec r (Some (Some data)) = (RunShard (Z.of_nat k), Some (Some data')) ∧
    data' !! k = Some {| ShardNumber := Z.of_nat k; ControllerName := hostname (Ctl r);
                         HeartbeatTime := kept_heartbeat (Ctl r) |}.
Proof.
  intros Hwf Hnames Hin Hne Hlen Hs Hg Hw.
  unfold exec, GetOrUpdateShardFromConfigMap. rewrite Hs, Hg, Hw.
  pose proof (acquire_spec (Ctl r) (Replicas r) data Hwf Hne) as Hacq. cbn zeta in Hacq.
  pose proof (resize_wf (Replicas r) data Hwf) as Hwf'.
  pose proof (resize_length (Replicas r) data ltac:(lia)) as Hlen'.
  destruct (getOrUpdateShardNumberForController _ _ _ _) as [s d'].
  destruct Hacq as [(k & e & Hk & -> & -> & _)|(_ & _ & Hheld)].
  - rewrite (proj1 Hwf' _ _ Hk). pose proof (lookup_lt_Some _ _ _ Hk) as Hlt.
    exists k. eexists. split; [lia|]. split; [done|].
    unfold stored. rewrite list_lookup_fmap, list_lookup_insert_eq by done. simpl.
    by rewrite (proj1 Hwf' _ _ Hk).
  - exfalso. pose proof (all_held_owners (Ctl r) _ names Hwf' Hheld) as Hcount.
    assert (length (filter (λ n, n ≠ hostname (Ctl r)) names) < length names)%nat.
    { apply (length_filter_lt _ _ (hostname (Ctl r))); [done|by intros ?]. }
    assert (length (resize (Replicas r) data) <= length (filter (λ n, n ≠ hostname (Ctl r)) names))%nat; [|lia].
    apply Hcount. intros i e Hi. destruct (Hheld i e Hi) as (_ & Hnz & _).
    apply resize_lookup in Hi as [Hi| ->]; [|done]. by destruct (Hnames i e Hi).
Qed.

(** A configured shard equal to the number of replicas: the test of the range is
    [shard > replicas], so the index is out of range when the config map is first
    written. *)
Lemma default_mapping_panics c replicas :
  0 <= replicas → generateDefaultShardMapping c replicas replicas = None.
Proof.
  intros Hr. unfold generateDefaultShardMapping. cbn zeta.
  destruct (Z.eqb_spec replicas (-1)); [lia|]. rewrite Z.ltb_irrefl. simpl.
  destruct (Z.ltb_spec replicas 0); [done|].
  rewrite (lookup_ge_None_2 _ _); [done|].
  unfold getDefaultShardMappingData. by rewrite length_fmap, length_seq.
Qed.
End mapping.

(** ** A deployment of two controllers *)
Module MappingSample.
Definition at_second (name : string) (s : Z) : controller :=
  {| hostname := name; heartbeat := s * Second + 5; reading := λ _, s * Second + 7 |}.
Definition probe (name : string) (s : Z) : run :=
  {| Ctl := at_second name s; Replicas := 2; Shard := -1; GetFails := false; WriteFails := None |}.

(** Controller [x] creates the map, [y] takes the second entry. *)
Definition created : configmap := (exec 30 (probe "x" 100) None).2.
Definition shared : configmap := (exec 30 (probe "y" 101) created).2.

Lemma probe_ok name s cm : name ≠ "" → run_ok (probe name s) cm.
Proof. intros H. split_and!; [done..|by left]. Qed.

Lemma shared_reachable : reachable 30 shared.
Proof. repeat (apply reach_run; [|by apply probe_ok]). apply reach_absent. Qed.

Definition entries : list mapping :=
  [{| ShardNumber := 0; ControllerName := "x"; HeartbeatTime := 100 * Second |};
   {| ShardNumber := 1; ControllerName := "y"; HeartbeatTime := 101 * Second |}].

Lemma mapping_well_formed_witness : shared = Some (Some entries) ∧
  (∀ i e, entries !! i = Some e → ShardNumber e = Z.of_nat i) ∧
  (∀ i j e e', entries !! i = Some e → entries !! j = Some e' →
     ControllerName e ≠ "" → ControllerName e = ControllerName e' → i = j).
Proof.
  split; [reflexivity|]. apply (mapping_well_formed 30 shared entries shared_reachable). reflexivity.
Defined.

(** Within the 30 seconds of the lease of [x] neither [y] nor a third controller
    is given shard 0; after that the third one is. *)
Lemma lease_exclusive_witness :
  RunShard (Z.of_nat 0) ∉ (exec_all 30 [probe "y" 110; probe "z" 120] created).1 ∧
  (∃ data e, (exec_all 30 [probe "y" 110; probe "z" 120] created).2 = Some (Some data) ∧
     data !! 0%nat = Some e ∧ ControllerName e = "x") ∧
  (exec_all 30 [probe "y" 110; probe "z" 131] created).1 = [RunShard 1; RunShard 0].
Proof.
  assert (RunShard (Z.of_nat 0) ∉ (exec_all 30 [probe "y" 110; probe "z" 120] created).1 ∧
    ∃ data e, (exec_all 30 [probe "y" 110; probe "z" 120] created).2 = Some (Some data) ∧
     data !! 0%nat = Some e ∧ ControllerName e = "x") as [H1 H2].
  { apply (lease_exclusive 30 (probe "x" 100) None created 0).
    - apply reach_absent.
    - apply probe_ok. discriminate.
    - reflexivity.
    - repeat (apply Forall_cons_2 || apply Forall_nil_2); split_and!;
        try discriminate; try reflexivity; intros i; vm_compute; discriminate. }
  split; [exact H1|]. split; [exact H2|reflexivity].
Defined.

Lemma every_controller_gets_a_shard_witness :
  ∃ k data', (k < Z.to_nat 2)%nat ∧
    exec 30 (probe "y" 105) (Some (Some entries)) = (RunShard (Z.of_nat k), Some (Some data')) ∧
    data' !! k = Some {| ShardNumber := Z.of_nat k; ControllerName := "y";
                         HeartbeatTime := kept_heartbeat (at_second "y" 105) |}.
Proof.
  apply (every_controller_gets_a_shard 30 (probe "y" 105) entries ["x"; "y"]).
  - apply (reachable_wf 30 shared shared_reachable). reflexivity.
  - intros i e Hi. right. destruct i as [|[|i]]; simpl in Hi; [| |discriminate];
      injection Hi as <-; simpl; set_solver.
  - set_solver.
  - discriminate.
  - simpl. lia.
  - reflexivity.
  - reflexivity.
  - reflexivity.
Defined.
End MappingSample.
