(* ===== verification/Kube.v ===== *)
(** * Kubernetes objects and [gitops-engine/pkg/utils/kube]

    The manifest data type ([unstructured.Unstructured], a library type) as a
    record of what its accessors return, plus the JSON body the code reads with
    [unstructured.Nested*]; resource keys, discovery lookups and the small
    predicates of [kube.go]. *)

From S2P Require Import Prelude GoStd.

Local Open Scope string_scope.
Local Open Scope list_scope.

(** ** JSON bodies *)

#[local] Unset Elimination Schemes.

Inductive json : Type :=
  | JNull
  | JBool (b : bool)
  | JNum (n : Z)
  | JStr (s : string)
  | JList (l : list json)
  | JObj (fields : list (string * json)).

#[local] Set Elimination Schemes.

(** Outcome of the library's [unstructured.Nested*] accessors: a value, not
    found, or an error because a value on the way has another type. *)
Inductive nested (A : Type) : Type :=
  | Found (a : A)
  | NotFound
  | WrongType.
Arguments Found {A} a.
Arguments NotFound {A}.
Arguments WrongType {A}.

Fixpoint assoc {A} (k : string) (l : list (string * A)) : option A :=
  match l with
  | [] => None
  | (k', v) :: r => if String.eqb k k' then Some v else assoc k r
  end.

Fixpoint nested_field (v : json) (path : list string) : nested json :=
  match path with
  | [] => Found v
  | f :: rest =>
      match v with
      | JNull => NotFound
      | JObj fields => match assoc f fields with Some w => nested_field w rest | None => NotFound end
      | _ => WrongType
      end
  end.

Definition NestedString (v : json) (path : list string) : nested string :=
  match nested_field v path with
  | Found (JStr s) => Found s
  | Found _ => WrongType
  | NotFound => NotFound
  | WrongType => WrongType
  end.

Definition NestedSlice (v : json) (path : list string) : nested (list json) :=
  match nested_field v path with
  | Found (JList l) => Found l
  | Found _ => WrongType
  | NotFound => NotFound
  | WrongType => WrongType
  end.

(** The value when it was found, the zero value otherwise
    ([v, _, _ := unstructured.Nested...]). *)
Definition nested_default {A} (d : A) (r : nested A) : A :=
  match r with Found a => a | _ => d end.

(** The value when found without error. *)
Definition nested_ok {A} (r : nested A) : option A :=
  match r with Found a => Some a | _ => None end.

(** ** Objects *)

Record GroupVersionKind : Type := mkGVK { Group : string; Version : string; Kind : string }.

#[export] Instance GroupVersionKind_eq_dec : EqDecision GroupVersionKind.
Proof. solve_decision. Defined.

#[export] Instance GroupVersionKind_countable : Countable GroupVersionKind.
Proof.
  refine (inj_countable' (λ g, (Group g, Version g, Kind g)) (λ '(a, b, c), mkGVK a b c) _).
  by intros [].
Defined.

(** [metav1.ManagedFieldsEntry], the two fields the code reads *)
Record ManagedFieldsEntry : Type := mkMFE { Manager : string; Operation : string }.

(** [*unstructured.Unstructured].  [ptr] is the identity of the Go object: two
    values with the same [ptr] are one object seen through two variables. *)
Record Unstructured : Type := mkObj {
  ptr : nat;
  gvk : GroupVersionKind;                (* GroupVersionKind() *)
  GetKind : string;
  GetName : string;
  GetNamespace : string;
  GetGenerateName : string;
  GetAnnotations : gmap string string;
  GetFinalizers : list string;
  GetUID : string;
  GetResourceVersion : string;
  GetDeletionTimestamp : option Z;       (* Some 0 is the zero time *)
  GetManagedFields : list ManagedFieldsEntry;
  Object : json;
}.

Definition SetName (n : string) (o : Unstructured) : Unstructured :=
  mkObj (ptr o) (gvk o) (GetKind o) n (GetNamespace o) (GetGenerateName o) (GetAnnotations o)
    (GetFinalizers o) (GetUID o) (GetResourceVersion o) (GetDeletionTimestamp o)
    (GetManagedFields o) (Object o).

Definition SetNamespace (ns : string) (o : Unstructured) : Unstructured :=
  mkObj (ptr o) (gvk o) (GetKind o) (GetName o) ns (GetGenerateName o) (GetAnnotations o)
    (GetFinalizers o) (GetUID o) (GetResourceVersion o) (GetDeletionTimestamp o)
    (GetManagedFields o) (Object o).

Definition SetFinalizers (fs : list string) (o : Unstructured) : Unstructured :=
  mkObj (ptr o) (gvk o) (GetKind o) (GetName o) (GetNamespace o) (GetGenerateName o)
    (GetAnnotations o) fs (GetUID o) (GetResourceVersion o) (GetDeletionTimestamp o)
    (GetManagedFields o) (Object o).

Definition SetResourceVersion (rv : string) (o : Unstructured) : Unstructured :=
  mkObj (ptr o) (gvk o) (GetKind o) (GetName o) (GetNamespace o) (GetGenerateName o)
    (GetAnnotations o) (GetFinalizers o) (GetUID o) rv (GetDeletionTimestamp o)
    (GetManagedFields o) (Object o).

(** A copy with a fresh identity ([DeepCopy]). *)
Definition with_ptr (p : nat) (o : Unstructured) : Unstructured :=
  mkObj p (gvk o) (GetKind o) (GetName o) (GetNamespace o) (GetGenerateName o)
    (GetAnnotations o) (GetFinalizers o) (GetUID o) (GetResourceVersion o)
    (GetDeletionTimestamp o) (GetManagedFields o) (Object o).

(** ** Resource keys *)

Record ResourceKey : Type := NewResourceKey {
  key_Group : string; key_Kind : string; key_Namespace : string; key_Name : string }.

#[export] Instance ResourceKey_eq_dec : EqDecision ResourceKey.
Proof. solve_decision. Defined.

#[export] Instance ResourceKey_countable : Countable ResourceKey.
Proof.
  refine (inj_countable' (λ k, (key_Group k, key_Kind k, key_Namespace k, key_Name k))
    (λ '(a, b, c, d), NewResourceKey a b c d) _).
  by intros [].
Defined.

(** The method [String] of [*ResourceKey] *)
Definition ResourceKey_String (k : ResourceKey) : string :=
  key_Group k +:+ "/" +:+ key_Kind k +:+ "/" +:+ key_Namespace k +:+ "/" +:+ key_Name k.

Definition GetResourceKey (obj : Unstructured) : ResourceKey :=
  NewResourceKey (Group (gvk obj)) (Kind (gvk obj)) (GetNamespace obj) (GetName obj).

Definition NamespaceKind : string := "Namespace".
Definition CustomResourceDefinitionKind : string := "CustomResourceDefinition".

Definition IsCRDGroupVersionKind (g : GroupVersionKind) : bool :=
  String.eqb (Kind g) CustomResourceDefinitionKind && String.eqb (Group g) "apiextensions.k8s.io".

Definition IsCRD (obj : Unstructured) : bool := IsCRDGroupVersionKind (gvk obj).

(** ** Container images *)

Definition containerPaths : list (list string) :=
  [ ["spec"; "containers"];
    ["spec"; "template"; "spec"; "containers"];
    ["spec"; "jobTemplate"; "spec"; "template"; "spec"; "containers"] ].

(** The loop over [containerPaths]: stops at the first path that is found. *)
Fixpoint first_slice (v : json) (paths : list (list string)) : option (list json) :=
  match paths with
  | [] => None
  | p :: r => match NestedSlice v p with Found l => Some l | _ => first_slice v r end
  end.

Definition container_image (c : json) : option string :=
  match c with JObj _ => nested_ok (NestedString c ["image"]) | _ => None end.

Definition GetResourceImages (u : Unstructured) : list string :=
  match first_slice (Object u) containerPaths with
  | None => []
  | Some containers => omap container_image containers
  end.

(** ** API errors and discovery *)

Inductive error_reason : Type :=
  | ReasonNotFound | ReasonConflict | ReasonUnauthorized | ReasonMethodNotSupported | ReasonOther.

#[export] Instance error_reason_eq_dec : EqDecision error_reason.
Proof. solve_decision. Defined.

(** A Go [error]: the API status reason found by [errors.As] through any
    wrapping, and the text of [Error()]. *)
Record error : Type := mkErr { reason : error_reason; Error : string }.

Definition IsNotFound (e : error) : bool := bool_decide (reason e = ReasonNotFound).
Definition IsConflict (e : error) : bool := bool_decide (reason e = ReasonConflict).
Definition IsUnauthorized (e : error) : bool := bool_decide (reason e = ReasonUnauthorized).

(** [fmt.Errorf(pre + "%w", err)] *)
Definition wrap (pre : string) (e : error) : error := mkErr (reason e) (pre +:+ Error e).

Record APIResource : Type := mkAPIResource {
  res_Name : string; res_Kind : string; res_Namespaced : bool; res_Verbs : list string }.

Definition isSupportedVerb (r : APIResource) (verb : string) : bool :=
  if String.eqb verb "" || String.eqb verb "*" then true
  else existsb (λ v, EqualFold v verb) (res_Verbs r).

(** [GroupVersion().String()] *)
Definition gv_string (g : GroupVersionKind) : string :=
  if String.eqb (Group g) "" then Version g else Group g +:+ "/" +:+ Version g.

(** The scan of [ServerResourceForGroupVersionKind]: the first resource of the
    kind that supports the verb, else the error of the last one that matched
    the kind, else not found.  The error texts come from the library. *)
Section discovery.
Context (not_found_text not_supported_text : GroupVersionKind → string → string).

Fixpoint find_resource (g : GroupVersionKind) (verb : string) (retErr : error)
    (rs : list APIResource) : APIResource + error :=
  match rs with
  | [] => inr retErr
  | r :: rest =>
      if String.eqb (res_Kind r) (Kind g) then
        if isSupportedVerb r verb then inl r
        else find_resource g verb
               (mkErr ReasonMethodNotSupported (not_supported_text g verb)) rest
      else find_resource g verb retErr rest
  end.

Definition ServerResourceForGroupVersionKind (g : GroupVersionKind) (verb : string)
    (resources : list APIResource + error) : APIResource + error :=
  match resources with
  | inr err =>
      inr (wrap ("failed to discover server resources for group version " +:+ gv_string g +:+ ": ") err)
  | inl rs => find_resource g verb (mkErr ReasonNotFound (not_found_text g verb)) rs
  end.

Lemma find_resource_sound g verb e rs r :
  find_resource g verb e rs = inl r →
  r ∈ rs ∧ res_Kind r = Kind g ∧ isSupportedVerb r verb = true.
Proof.
  revert e; induction rs as [|r' rs IH]; intros e; simpl; [done|].
  destruct (String.eqb_spec (res_Kind r') (Kind g)) as [Hk|].
  - destruct (isSupportedVerb r' verb) eqn:Hv; intros H.
    + simplify_eq. split_and!; [left|done|done].
    + apply IH in H as (?&?&?). split_and!; [by right|done|done].
  - intros H. apply IH in H as (?&?&?). split_and!; [by right|done|done].
Qed.

Lemma find_resource_complete g verb e rs r :
  r ∈ rs → res_Kind r = Kind g → isSupportedVerb r verb = true →
  ∃ r', find_resource g verb e rs = inl r'.
Proof.
  intros Hin Hk Hv. revert e; induction Hin as [r rs|r r' rs Hin IH]; intros e; simpl.
  - rewrite Hk, String.eqb_refl, Hv. eauto.
  - case_match; [|by apply IH]. case_match; [eauto|by apply IH].
Qed.
End discovery.

(** ** Facts about keys *)

(** No [c] occurs in [s]. *)
Fixpoint char_free (c : Ascii.ascii) (s : string) : bool :=
  match s with "" => true | String d r => negb (Ascii.eqb c d) && char_free c r end.

Lemma append_sep_inj c a a' b b' :
  char_free c a = true → char_free c a' = true →
  a +:+ String c b = a' +:+ String c b' → a = a' ∧ b = b'.
Proof.
  revert a'; induction a as [|x a IH]; intros [|x' a']; simpl; intros Ha Ha' H.
  - by simplify_eq.
  - simplify_eq. by rewrite Ascii.eqb_refl in Ha'.
  - simplify_eq. by rewrite Ascii.eqb_refl in Ha.
  - simplify_eq. breflect. destruct Ha, Ha'.
    match goal with H : _ = _ |- _ => edestruct (IH _ ltac:(done) ltac:(done) H) end. by subst.
Qed.
