(* ===== verification/Calls.v ===== *)
(** * Programs that make calls

    A handler talks to the API server, the repository and the caches.  Here it is a program
    that logs its calls; the answer to a call is any function of all calls so far, so that
    theorems hold for every behaviour of the others over time.  An error ends the program.
    [wp] states what a program does, with a rule for each construct. *)

From S2P Require Import Prelude GoStd Kube.
Local Open Scope list_scope.

Section programs.
Context {C : Type}.

Definition D (A : Type) : Type := list C → (error + A) * list C.

#[export] Instance D_ret : MRet D := λ A a log, (inr a, log).
#[export] Instance D_bind : MBind D := λ A B f m log,
  match m log with (inl e, log) => (inl e, log) | (inr a, log) => f a log end.

Definition fails {A} (e : error) : D A := λ log, (inl e, log).
Definition of_answer {A} (r : error + A) : D A := λ log, (r, log).
Definition of_error (o : option error) : D unit := λ log, (match o with Some e => inl e | None => inr tt end, log).
(** What is read without a call that matters to others *)
Definition reads {A} (answer : list C → error + A) : D A := λ log, (answer log, log).
(** A call, and its answer in view of all calls *)
Definition logged {A} (c : C) (answer : list C → A) : D A := λ log, (inr (answer (log ++ [c])), log ++ [c]).
(** The error of a part of the program, as a value *)
Definition caught {A} (m : D A) : D (error + A) := λ log, let '(r, log) := m log in (inr r, log).

Fixpoint d_fold {A B} (l : list A) (acc : B) (body : B → A → D B) : D B :=
  match l with
  | [] => mret acc
  | x :: rest => acc ← body acc x; d_fold rest acc body
  end.

(** ** What a program does *)

(** [wp m log Q]: started after the calls [log], [m] makes some calls [new] and ends with a
    result, of which [Q] holds. *)
Definition wp {A} (m : D A) (log : list C) (Q : list C → error + A → Prop) : Prop :=
  ∃ new r, m log = (r, log ++ new) ∧ Q new r.

Lemma wp_mono {A} (m : D A) log (Q Q' : list C → error + A → Prop) :
  wp m log Q → (∀ new r, Q new r → Q' new r) → wp m log Q'.
Proof. intros (new&r&E&HQ) H. exists new, r. auto. Qed.

Lemma wp_and {A} (m : D A) log (Q Q' : list C → error + A → Prop) :
  wp m log Q → wp m log Q' → wp m log (λ new r, Q new r ∧ Q' new r).
Proof.
  intros (new&r&E&H) (new'&r'&E'&H'). rewrite E in E'. injection E' as <- <-%app_inv_head. by exists new, r.
Qed.

Lemma wp_ret {A} (a : A) log (Q : list C → error + A → Prop) : Q [] (inr a) → wp (mret a) log Q.
Proof. intros H. exists [], (inr a). by rewrite app_nil_r. Qed.
Lemma wp_fails {A} (e : error) log (Q : list C → error + A → Prop) : Q [] (inl e) → wp (fails e) log Q.
Proof. intros H. exists [], (inl e). by rewrite app_nil_r. Qed.
Lemma wp_answer {A} (r : error + A) log (Q : list C → error + A → Prop) : Q [] r → wp (of_answer r) log Q.
Proof. intros H. exists [], r. by rewrite app_nil_r. Qed.
Lemma wp_error o log (Q : list C → error + unit → Prop) :
  Q [] (match o with Some e => inl e | None => inr tt end) → wp (of_error o) log Q.
Proof. intros H. by apply wp_answer. Qed.
Lemma wp_read {A} (answer : list C → error + A) log (Q : list C → error + A → Prop) :
  Q [] (answer log) → wp (reads answer) log Q.
Proof. intros H. exists [], (answer log). by rewrite app_nil_r. Qed.
Lemma wp_logged {A} c (answer : list C → A) log (Q : list C → error + A → Prop) :
  Q [c] (inr (answer (log ++ [c]))) → wp (logged c answer) log Q.
Proof. intros H. by exists [c], (inr (answer (log ++ [c]))). Qed.

Lemma wp_caught {A} (m : D A) log (Q : list C → error + (error + A) → Prop) :
  wp m log (λ new r, Q new (inr r)) → wp (caught m) log Q.
Proof. intros (new&r&E&H). exists new, (inr r). unfold caught. by rewrite E. Qed.

Lemma wp_bind {A B} (m : D A) (f : A → D B) log (Q : list C → error + B → Prop) :
  wp m log (λ new r, match r with
                     | inl e => Q new (inl e)
                     | inr a => wp (f a) (log ++ new) (λ new' r, Q (new ++ new') r)
                     end) → wp (m ≫= f) log Q.
Proof.
  intros (new&[e|a]&E&H).
  - exists new, (inl e). unfold mbind, D_bind. by rewrite E.
  - destruct H as (new'&r&E'&H). exists (new ++ new'), r. unfold mbind, D_bind. rewrite E, E'. by rewrite app_assoc.
Qed.

(** A loop, with an invariant over the elements that are done, the accumulator and the calls *)
Lemma wp_fold {A B} (I : list A → B → list C → Prop) (E : error → list C → Prop)
    (l : list A) (acc : B) (body : B → A → D B) log (Q : list C → error + B → Prop) :
  I [] acc [] →
  (∀ done x rest acc new, l = done ++ x :: rest → I done acc new →
     wp (body acc x) (log ++ new) (λ new' r, match r with
                                             | inl e => E e (new ++ new')
                                             | inr acc => I (done ++ [x]) acc (new ++ new')
                                             end)) →
  (∀ e new, E e new → Q new (inl e)) → (∀ acc new, I l acc new → Q new (inr acc)) →
  wp (d_fold l acc body) log Q.
Proof.
  intros H0 Hbody HE HQ.
  assert (∀ rest done acc new, l = done ++ rest → I done acc new →
    wp (d_fold rest acc body) (log ++ new) (λ new' r, Q (new ++ new') r)) as Hgen.
  { induction rest as [|x rest IH]; intros done acc0 new Hl HI; cbn [d_fold].
    - apply wp_ret. rewrite app_nil_r in Hl |- *. subst. by apply HQ.
    - apply wp_bind. eapply wp_mono; [by eapply Hbody|]. cbn beta. intros new' [e|acc'] H; [by apply HE|].
      rewrite <-app_assoc. eapply wp_mono; [apply (IH (done ++ [x])); [by rewrite <-app_assoc|exact H]|].
      cbn beta. intros new'' r. by rewrite app_assoc. }
  specialize (Hgen l [] acc [] eq_refl H0). rewrite app_nil_r in Hgen. exact Hgen.
Qed.

(** ** Which calls a program makes

    [safe J m log Q]: after the calls [log], each call that [m] makes is justified by all
    calls up to it, and [Q] holds of all calls and the result. *)
Definition safe {A} (J : list C → C → Prop) (m : D A) (log : list C) (Q : list C → error + A → Prop) : Prop :=
  wp m log (λ new r, (∀ pre c post, new = pre ++ c :: post → J (log ++ pre ++ [c]) c) ∧ Q (log ++ new) r).

Section safe.
Context (J : list C → C → Prop).

Lemma safe_mono {A} (m : D A) log (Q Q' : list C → error + A → Prop) :
  safe J m log Q → (∀ tr r, log `prefix_of` tr → Q tr r → Q' tr r) → safe J m log Q'.
Proof. intros H HQ. eapply wp_mono; [exact H|]. intros new r [HJ H']. split; [done|]. apply HQ; [by exists new|done]. Qed.

Lemma no_call {A} (m : D A) log (Q : list C → error + A → Prop) :
  wp m log (λ new r, new = [] ∧ Q log r) → safe J m log Q.
Proof. intros H. eapply wp_mono; [exact H|]. intros new r [-> HQ]. rewrite app_nil_r. split; [by intros [|]|done]. Qed.

Lemma safe_ret {A} (a : A) log (Q : list C → error + A → Prop) : Q log (inr a) → safe J (mret a) log Q.
Proof. intros H. by apply no_call, wp_ret. Qed.
Lemma safe_fails {A} (e : error) log (Q : list C → error + A → Prop) : Q log (inl e) → safe J (fails e) log Q.
Proof. intros H. by apply no_call, wp_fails. Qed.
Lemma safe_answer {A} (r : error + A) log (Q : list C → error + A → Prop) : Q log r → safe J (of_answer r) log Q.
Proof. intros H. by apply no_call, wp_answer. Qed.
Lemma safe_error o log (Q : list C → error + unit → Prop) :
  Q log (match o with Some e => inl e | None => inr tt end) → safe J (of_error o) log Q.
Proof. intros H. by apply no_call, wp_error. Qed.
Lemma safe_read {A} (answer : list C → error + A) log (Q : list C → error + A → Prop) :
  Q log (answer log) → safe J (reads answer) log Q.
Proof. intros H. by apply no_call, wp_read. Qed.
Lemma safe_logged {A} c (answer : list C → A) log (Q : list C → error + A → Prop) :
  J (log ++ [c]) c → Q (log ++ [c]) (inr (answer (log ++ [c]))) → safe J (logged c answer) log Q.
Proof. intros HJ HQ. apply wp_logged. split; [|done]. intros [|? []] c' post E; by injection E as <-. Qed.
Lemma safe_caught {A} (m : D A) log (Q : list C → error + (error + A) → Prop) :
  safe J m log (λ tr r, Q tr (inr r)) → safe J (caught m) log Q.
Proof. intros H. unfold safe. by apply wp_caught. Qed.

Lemma safe_bind {A B} (m : D A) (f : A → D B) log (Q : list C → error + B → Prop) :
  safe J m log (λ tr r, match r with inl e => Q tr (inl e) | inr a => safe J (f a) tr Q end) → safe J (m ≫= f) log Q.
Proof.
  intros H. apply wp_bind. eapply wp_mono; [exact H|]. intros new [e|a] [HJ HQ]; [done|]. eapply wp_mono; [exact HQ|].
  cbn beta. intros new' r [HJ' HQ']. rewrite <-app_assoc in HQ'. split; [|done].
  intros pre c post (l&[[-> E]|[-> E]])%app_eq_app.
  - destruct l as [|c' l]; cbn in E.
    + rewrite app_nil_r in HJ'. specialize (HJ' [] c post (eq_sym E)). by rewrite <-app_assoc in HJ'.
    + injection E as <- _. by eapply HJ.
  - specialize (HJ' l c post E). by rewrite <-!app_assoc in *.
Qed.

Lemma safe_fold {A B} (I : list A → B → list C → Prop) (l : list A) (acc : B) (body : B → A → D B) log (Q : list C → error + B → Prop) :
  I [] acc log →
  (∀ done x rest acc tr, l = done ++ x :: rest → log `prefix_of` tr → I done acc tr →
     safe J (body acc x) tr (λ tr r, match r with inl e => Q tr (inl e) | inr acc => I (done ++ [x]) acc tr end)) →
  (∀ acc tr, I l acc tr → log `prefix_of` tr → Q tr (inr acc)) → safe J (d_fold l acc body) log Q.
Proof.
  intros H0 Hbody HQ.
  assert (∀ rest done acc tr, l = done ++ rest → log `prefix_of` tr → I done acc tr → safe J (d_fold rest acc body) tr Q) as Hgen.
  { induction rest as [|x rest IH]; intros done acc0 tr Hl Hp HI; cbn [d_fold].
    - apply safe_ret. rewrite app_nil_r in Hl. subst. by apply HQ.
    - apply safe_bind. eapply safe_mono; [by eapply Hbody|]. intros tr' [e|acc'] Hp' H; [done|].
      apply (IH (done ++ [x])); [by rewrite <-app_assoc|by etrans|done]. }
  by apply (Hgen l []).
Qed.
End safe.
End programs.
Arguments D : clear implicits.

(** Steps through a program. *)
Ltac wp_step :=
  match goal with
  | |- wp (_ ≫= _) _ _ => apply wp_bind
  | |- wp (mret _) _ _ => apply wp_ret
  | |- wp (fails _) _ _ => apply wp_fails
  | |- wp (of_answer _) _ _ => apply wp_answer
  | |- wp (of_error _) _ _ => apply wp_error
  | |- wp (logged _ _) _ _ => apply wp_logged
  | |- wp (reads _) _ _ => apply wp_read
  | |- wp (caught _) _ _ => apply wp_caught
  end; cbn beta iota.

Ltac safe_step :=
  match goal with
  | |- safe _ (_ ≫= _) _ _ => apply safe_bind
  | |- safe _ (mret _) _ _ => apply safe_ret
  | |- safe _ (fails _) _ _ => apply safe_fails
  | |- safe _ (of_answer _) _ _ => apply safe_answer
  | |- safe _ (of_error _) _ _ => apply safe_error
  | |- safe _ (logged _ _) _ _ => apply safe_logged
  | |- safe _ (reads _) _ _ => apply safe_read
  | |- safe _ (caught _) _ _ => apply safe_caught
  end; cbn beta iota.
