(* ===== verification/ClusterCache.v ===== *)
(** * The cluster cache (src/gitops-engine/pkg/cache)

    The cache mirrors the resources of a cluster from listings and watch events.  It
    keeps three indexes over the same resources: by key, by namespace and, for the
    children of a resource, by the UID of the owner.  A resource is a mutable Go
    object that the first two indexes share, so resources live in a heap. *)

From S2P Require Import Prelude GoStd Kube.
From Stdlib Require Import Ascii.
Local Open Scope string_scope.
Local Open Scope list_scope.
Local Open Scope nat_scope.

(** ** Resources *)

Record OwnerReference := { OwnerUID : string; OwnerName : string; OwnerKind : string; OwnerAPIVersion : string }.

#[export] Instance OwnerReference_eq_dec : EqDecision OwnerReference.
Proof. solve_decision. Defined.

(** [corev1.ObjectReference] *)
Record ObjectReference := {
  RefAPIVersion : string; RefKind : string; RefNamespace : string; RefName : string; RefUID : string;
}.

(** What the application controller keeps as [Info] of a resource
    (src/controller/cache/cache.go); the fields that are only displayed are left out. *)
Record ResourceInfo := { AppName : string; InfoHealth : option string; manifestHash : string }.

(** [Manifest] is the field [Resource]. *)
Record Resource := {
  ResVersion : string;
  Ref : ObjectReference;
  OwnerRefs : list OwnerReference;
  Info : option ResourceInfo;
  CreationTimestamp : string;
  Manifest : option Unstructured;
  isInferredParentOf : option (ResourceKey → bool);
}.

Definition set_OwnerRefs (refs : list OwnerReference) (r : Resource) : Resource :=
  {| ResVersion := ResVersion r; Ref := Ref r; OwnerRefs := refs; Info := Info r;
     CreationTimestamp := CreationTimestamp r; Manifest := Manifest r; isInferredParentOf := isInferredParentOf r |}.

(** [schema.ParseGroupVersion]: the group, or [None] for an error *)
Definition ParseGroup (gv : string) : option string :=
  if String.eqb gv "" || String.eqb gv "/" then Some ""
  else match Split gv "/" with
       | [_] => Some ""
       | [group; _] => Some group
       | _ => None
       end.

(** [Ref.GroupVersionKind().Group]: empty if the version does not parse *)
Definition RefGroup (r : ObjectReference) : string := default "" (ParseGroup (RefAPIVersion r)).

Definition Resource_Key (r : Resource) : ResourceKey :=
  NewResourceKey (RefGroup (Ref r)) (RefKind (Ref r)) (RefNamespace (Ref r)) (RefName (Ref r)).

(** The position of the first owner with the UID *)
Definition owner_index (uid : string) (refs : list OwnerReference) : option nat :=
  fst <$> list_find (λ item, OwnerUID item = uid) refs.

(** [setOwnerRef] adds or removes an owner reference. *)
Definition setOwnerRef (ref : OwnerReference) (add : bool) (r : Resource) : Resource :=
  match owner_index (OwnerUID ref) (OwnerRefs r), add with
  | None, true => set_OwnerRefs (OwnerRefs r ++ [ref]) r
  | Some index, false => set_OwnerRefs (take index (OwnerRefs r) ++ drop (S index) (OwnerRefs r)) r
  | _, _ => r
  end.

Definition toOwnerRef (r : Resource) : OwnerReference :=
  {| OwnerUID := RefUID (Ref r); OwnerName := RefName (Ref r); OwnerKind := RefKind (Ref r);
     OwnerAPIVersion := RefAPIVersion (Ref r) |}.

(** ** Inferred owners (references.go) *)

Definition PersistentVolumeClaimKind : string := "PersistentVolumeClaim".
Definition EndpointsKind : string := "Endpoints".
Definition ServiceKind : string := "Service".
Definition ServiceAccountKind : string := "ServiceAccount".
Definition SecretKind : string := "Secret".
Definition StatefulSetKind : string := "StatefulSet".

Definition mightHaveInferredOwner (r : Resource) : bool :=
  String.eqb (RefGroup (Ref r)) "" && String.eqb (RefKind (Ref r)) PersistentVolumeClaimKind.

(** [GetOwnerReferences] of the library *)
Definition owner_reference (j : json) : option OwnerReference :=
  match j with
  | JObj _ =>
      let field f := nested_default "" (NestedString j [f]) in
      Some {| OwnerUID := field "uid"; OwnerName := field "name"; OwnerKind := field "kind";
              OwnerAPIVersion := field "apiVersion" |}
  | _ => None
  end.
Definition GetOwnerReferences (un : Unstructured) : list OwnerReference :=
  match nested_field (Object un) ["metadata"; "ownerReferences"] with
  | Found (JList l) => if forallb (λ j, match owner_reference j with Some _ => true | None => false end) l
                       then omap owner_reference l else []
  | _ => []
  end.

Definition is_digit (c : ascii) : bool := match digit_val c with Some _ => true | None => false end.

(** The names of volume claims, [template-set-\d+$]: the pattern may start anywhere, and
    a dot of the names, which have no other special characters, matches any byte. *)
Fixpoint claim_rest (pattern s : string) : bool :=
  match pattern, s with
  | "", String c r => (fix digits (s : string) := match s with "" => true | String c r => is_digit c && digits r end) s
  | "", "" => false
  | String p ps, String c r => (Ascii.eqb p "." || Ascii.eqb p c) && claim_rest ps r
  | String _ _, "" => false
  end.
Fixpoint claim_match (pattern s : string) : bool :=
  claim_rest pattern s || match s with "" => false | String _ r => claim_match pattern r end.

(** Decoding a manifest as a StatefulSet: the names of its claim templates, or an error;
    and the handler given to the cache: the information on a resource, and whether its
    manifest is kept *)
Class CacheLib : Type := {
  statefulset_templates : Unstructured → option (list string);
  creation_timestamp : Unstructured → string;
  populateResourceInfo : Unstructured → bool → option ResourceInfo * bool;
}.

Section references.
Context `{CL : CacheLib}.

Definition isStatefulSetChild (un : Unstructured) : option (ResourceKey → bool) :=
  match statefulset_templates un with
  | None => None
  | Some templates =>
      Some (λ key, String.eqb (key_Kind key) PersistentVolumeClaimKind && String.eqb (key_Group key) "" &&
        existsb (λ templ, claim_match (templ +:+ "-" +:+ GetName un +:+ "-") (key_Name key)) templates)
  end.

Definition isServiceAccountTokenSecret (un : Unstructured) : option OwnerReference :=
  match NestedString (Object un) ["type"] with
  | Found "kubernetes.io/service-account-token" =>
      match GetAnnotations un !! "kubernetes.io/service-account.uid", GetAnnotations un !! "kubernetes.io/service-account.name" with
      | Some id, Some name =>
          if negb (String.eqb name "") && negb (String.eqb id "")
          then Some {| OwnerUID := id; OwnerName := name; OwnerKind := ServiceAccountKind; OwnerAPIVersion := "v1" |}
          else None
      | _, _ => None
      end
  | _ => None
  end.

Definition resolveResourceReferences (un : Unstructured) : list OwnerReference * option (ResourceKey → bool) :=
  let ownerRefs := GetOwnerReferences un in
  let g := gvk un in
  if String.eqb (Group g) "" && String.eqb (Kind g) EndpointsKind && Nat.eqb (length ownerRefs) 0 then
    (ownerRefs ++ [{| OwnerUID := ""; OwnerName := GetName un; OwnerKind := ServiceKind; OwnerAPIVersion := "v1" |}], None)
  else if String.eqb (Group g) "operators.coreos.com" && String.eqb (Kind g) "ClusterServiceVersion" then
    let name := default "" (GetAnnotations un !! "olm.operatorGroup") in
    if negb (String.eqb name "") then
      (ownerRefs ++ [{| OwnerUID := ""; OwnerName := name; OwnerKind := "OperatorGroup";
                        OwnerAPIVersion := "operators.coreos.com/v1" |}], None)
    else (ownerRefs, None)
  else if String.eqb (Kind g) SecretKind && String.eqb (Group g) "" then
    (match isServiceAccountTokenSecret un with Some ref => ownerRefs ++ [ref] | None => ownerRefs end, None)
  else if (String.eqb (Group g) "apps" || String.eqb (Group g) "extensions") && String.eqb (Kind g) StatefulSetKind then
    (ownerRefs, isStatefulSetChild un)
  else (ownerRefs, None).

Definition GetObjectRef (un : Unstructured) : ObjectReference :=
  {| RefAPIVersion := gv_string (gvk un); RefKind := GetKind un; RefNamespace := GetNamespace un;
     RefName := GetName un; RefUID := GetUID un |}.

Definition newResource (un : Unstructured) : Resource :=
  let '(ownerRefs, isInferredParentOf) := resolveResourceReferences un in
  let '(info, cacheManifest) := populateResourceInfo un (Nat.eqb (length ownerRefs) 0) in
  {| ResVersion := GetResourceVersion un; Ref := GetObjectRef un; OwnerRefs := ownerRefs; Info := info;
     CreationTimestamp := creation_timestamp un; Manifest := if cacheManifest then Some un else None;
     isInferredParentOf := isInferredParentOf |}.
End references.

(** ** The state *)

(** A set of keys, which is a map to the empty struct *)
Notation key_set := (gmap ResourceKey unit).
(** A namespace: keys to locations of resources *)
Notation namespace := (gmap ResourceKey positive).

Record cache_state := {
  heap : gmap positive Resource;
  resources : namespace;
  nsIndex : gmap string namespace;
  parentUIDToChildren : gmap string key_set;
  (** the calls of the handlers of [OnResourceUpdated]: the new and the old resource *)
  notified : list (option Resource * option Resource);
}.

Definition empty_cache : cache_state :=
  {| heap := ∅; resources := ∅; nsIndex := ∅; parentUIDToChildren := ∅; notified := [] |}.

Definition set_heap (h : gmap positive Resource) (st : cache_state) : cache_state :=
  {| heap := h; resources := resources st; nsIndex := nsIndex st;
     parentUIDToChildren := parentUIDToChildren st; notified := notified st |}.
Definition set_children (m : gmap string key_set) (st : cache_state) : cache_state :=
  {| heap := heap st; resources := resources st; nsIndex := nsIndex st;
     parentUIDToChildren := m; notified := notified st |}.
Definition notify (e : option Resource * option Resource) (st : cache_state) : cache_state :=
  {| heap := heap st; resources := resources st; nsIndex := nsIndex st;
     parentUIDToChildren := parentUIDToChildren st; notified := notified st ++ [e] |}.

(** The resource with a key *)
Definition get (st : cache_state) (key : ResourceKey) : option Resource := resources st !! key ≫= λ l, heap st !! l.

(** ** The index of children *)

Definition addToParentUIDToChildren (parentUID : string) (childKey : ResourceKey) (m : gmap string key_set)
    : gmap string key_set := <[parentUID := <[childKey := ()]> (default ∅ (m !! parentUID))]> m.

Definition removeFromParentUIDToChildren (parentUID : string) (childKey : ResourceKey) (m : gmap string key_set)
    : gmap string key_set :=
  match m !! parentUID with
  | None => m
  | Some childrenSet =>
      let childrenSet := delete childKey childrenSet in
      if bool_decide (childrenSet = ∅) then delete parentUID m else <[parentUID := childrenSet]> m
  end.

(** The UIDs of the owners that have one *)
Definition owner_uids (refs : list OwnerReference) : list string :=
  filter (λ uid, uid ≠ "") (OwnerUID <$> refs).

Definition uid_set (refs : list OwnerReference) : gmap string unit :=
  list_to_map ((λ uid, (uid, ())) <$> owner_uids refs).

Section cache.
Context {R : GoRuntime} `{CL : CacheLib}.

Definition updateParentUIDToChildren (childKey : ResourceKey) (oldResource : option Resource) (newResource : Resource)
    (m : gmap string key_set) : gmap string key_set :=
  let oldParents := match oldResource with Some r => uid_set (OwnerRefs r) | None => ∅ end in
  let newParents := uid_set (OwnerRefs newResource) in
  let m := foldl (λ m e, if decide (newParents !! e.1 = None) then removeFromParentUIDToChildren e.1 childKey m else m)
             m (go_range oldParents) in
  foldl (λ m e, if decide (oldParents !! e.1 = None) then addToParentUIDToChildren e.1 childKey m else m)
    m (go_range newParents).

(** ** Changing the cache *)

(** [add] or [remove] in the index, for a parent that has a UID *)
Definition index_child (uid : string) (key : ResourceKey) (shouldBeParent : bool) (m : gmap string key_set)
    : gmap string key_set :=
  if String.eqb uid "" then m
  else if shouldBeParent then addToParentUIDToChildren uid key m else removeFromParentUIDToChildren uid key m.

(** The resource at [child] gets or loses the resource [parent] as an owner. *)
Definition set_owner (parent : Resource) (child : positive) (childKey : ResourceKey) (shouldBeParent : bool)
    (st : cache_state) : cache_state :=
  set_children (index_child (RefUID (Ref parent)) childKey shouldBeParent (parentUIDToChildren st))
    (set_heap (alter (setOwnerRef (toOwnerRef parent) shouldBeParent) child (heap st)) st).

(** One turn of the loop of [setNode] over the namespace of the resource [n] at [l] *)
Definition infer_owner (l : positive) (key : ResourceKey) (st : cache_state) (e : ResourceKey * positive) : cache_state :=
  let '(k, lv) := e in
  match heap st !! l, heap st !! lv with
  | Some n, Some v =>
      let st :=
        match isInferredParentOf n with
        | Some f => if mightHaveInferredOwner v then set_owner n lv k (f k) st else st
        | None => st
        end in
      match isInferredParentOf v with
      | Some f => if mightHaveInferredOwner n then set_owner v l key (f key) st else st
      | None => st
      end
  | _, _ => st
  end.

(** The resource is stored at the location: the first part of [setNode]. *)
Definition store_node (l : positive) (n : Resource) (st : cache_state) : cache_state :=
  let key := Resource_Key n in
  let existing := get st key in
  let ns := default ∅ (nsIndex st !! key_Namespace key) in
  {| heap := <[l := n]> (heap st); resources := <[key := l]> (resources st);
     nsIndex := <[key_Namespace key := <[key := l]> ns]> (nsIndex st);
     parentUIDToChildren := updateParentUIDToChildren key existing n (parentUIDToChildren st);
     notified := notified st |}.

Definition setNode (n : Resource) (st : cache_state) : cache_state :=
  let key := Resource_Key n in
  let l := fresh (dom (heap st)) in
  let st := store_node l n st in
  if (match isInferredParentOf n with Some _ => true | None => false end) || mightHaveInferredOwner n
  then foldl (infer_owner l key) st (go_range (default ∅ (nsIndex st !! key_Namespace key))) else st.

Definition onNodeUpdated (oldRes : option Resource) (newRes : Resource) (st : cache_state) : cache_state :=
  let st := setNode newRes st in
  notify (get st (Resource_Key newRes), oldRes) st.

(** One turn of the loop of [onNodeRemoved] over the rest of the namespace *)
Definition disown (existing : Resource) (f : ResourceKey → bool) (st : cache_state) (e : ResourceKey * positive) : cache_state :=
  let '(k, lv) := e in
  match heap st !! lv with
  | Some v => if mightHaveInferredOwner v && f k then set_owner existing lv k false st else st
  | None => st
  end.

(** The key leaves the maps: the first part of [onNodeRemoved]. *)
Definition drop_node (key : ResourceKey) (st : cache_state) : cache_state :=
  {| heap := heap st; resources := delete key (resources st);
     nsIndex :=
       match nsIndex st !! key_Namespace key with
       | None => nsIndex st
       | Some ns => let ns := delete key ns in
                    if bool_decide (ns = ∅) then delete (key_Namespace key) (nsIndex st)
                    else <[key_Namespace key := ns]> (nsIndex st)
       end;
     parentUIDToChildren := parentUIDToChildren st; notified := notified st |}.

Definition onNodeRemoved (key : ResourceKey) (st : cache_state) : cache_state :=
  match resources st !! key with
  | None => st
  | Some l =>
      match heap st !! l with
      | None => st
      | Some existing =>
          let ns := default ∅ (nsIndex st !! key_Namespace key) in
          let st := drop_node key st in
          let st :=
            match isInferredParentOf existing with
            | Some f => foldl (disown existing f) st (go_range (delete key ns))
            | None => st
            end in
          let refs := match heap st !! l with Some r => OwnerRefs r | None => [] end in
          let st := set_children (foldl (λ m uid, removeFromParentUIDToChildren uid key m) (parentUIDToChildren st)
                                    (owner_uids refs)) st in
          notify (None, heap st !! l) st
      end
  end.

(** *** Events and listings *)

Inductive event_type := Added | Modified | Deleted.

#[export] Instance event_type_eq_dec : EqDecision event_type.
Proof. solve_decision. Defined.

Definition processEvent (ev : event_type) (un : Unstructured) (st : cache_state) : cache_state :=
  let key := GetResourceKey un in
  match ev with
  | Deleted => match resources st !! key with Some _ => onNodeRemoved key st | None => st end
  | _ => onNodeUpdated (get st key) (newResource un) st
  end.

Definition skipAppRequeuing (key : ResourceKey) : bool :=
  String.eqb (key_Group key +:+ "/" +:+ key_Kind key) ("/" +:+ EndpointsKind).

(** [recordEvent], without batches; with them [processEventsBatch] processes the events
    of a batch in their order. *)
Definition recordEvent (st : cache_state) (e : event_type * Unstructured) : cache_state :=
  if bool_decide (e.1 = Modified) && skipAppRequeuing (GetResourceKey e.2) then st else processEvent e.1 e.2 st.

Definition processEventsBatch (batch : list (event_type * Unstructured)) (st : cache_state) : cache_state :=
  foldl (λ st e, processEvent e.1 e.2 st) st batch.

(** The keys of an API, in a namespace if one is given *)
Definition listed_by (group kind ns : string) (key : ResourceKey) : bool :=
  String.eqb (key_Kind key) kind && String.eqb (key_Group key) group && (String.eqb ns "" || String.eqb (key_Namespace key) ns).

Definition update_existing (st : cache_state) (res : Resource) : cache_state :=
  match get st (Resource_Key res) with
  | Some oldRes => if String.eqb (ResVersion oldRes) (ResVersion res) then st else onNodeUpdated (Some oldRes) res st
  | None => onNodeUpdated None res st
  end.

Definition replaceResourceCache (group kind : string) (listed : list Resource) (ns : string) (st : cache_state) : cache_state :=
  let objByKey : key_set := list_to_map ((λ r, (Resource_Key r, ())) <$> listed) in
  let st := foldl update_existing st listed in
  foldl (λ st e, if listed_by group kind ns e.1 && bool_decide (objByKey !! e.1 = None) then onNodeRemoved e.1 st else st)
    st (go_range (resources st)).

(** *** Synchronising *)

Definition reset_cache (st : cache_state) : cache_state :=
  {| heap := heap st; resources := ∅; nsIndex := ∅; parentUIDToChildren := ∅; notified := notified st |}.

(** [sync] starts over: it empties the maps and stores every listed object with [setNode],
    without a call of the handlers.  The lock of the cache is held until it returns.  The
    APIs are listed concurrently: [listed] are the objects in the order in which they were
    stored, up to the failure if [sync] fails. *)
Definition sync (listed : list Unstructured) (st : cache_state) : cache_state :=
  foldl (λ st un, setNode (newResource un) st) (reset_cache st) listed.

(** *** Queries *)

(** [FindResources] with one predicate *)
Definition FindResources (ns : string) (p : Resource → bool) (st : cache_state) : namespace :=
  let found := if String.eqb ns "" then resources st else default ∅ (nsIndex st !! ns) in
  filter (λ e, default false (p <$> heap st !! e.2) = true) found.
End cache.
