(* ===== verification/ClusterCacheProofs.v ===== *)
(** * The cluster cache: its indexes agree

    Whatever events and listings arrive, and whenever the cache synchronises, the three
    indexes describe one set of resources and the cache holds what the events say; the
    handlers are told of every change, except of a synchronisation. *)

From S2P Require Import Prelude GoStd Kube ClusterCache.
Local Open Scope string_scope.
Local Open Scope list_scope.
Local Open Scope nat_scope.

(** ** The index of children *)

(** The index has the child under the UID. *)
Definition row (m : gmap string key_set) (uid : string) (k : ResourceKey) : Prop := m !! uid ≫= lookup k = Some ().
(** No set of the index is empty. *)
Definition no_empty_sets (m : gmap string key_set) : Prop := ∀ uid s, m !! uid = Some s → s ≠ ∅.

Lemma row_add u k m u' k' : row (addToParentUIDToChildren u k m) u' k' ↔ (u' = u ∧ k' = k) ∨ row m u' k'.
Proof.
  unfold row, addToParentUIDToChildren. destruct (decide (u' = u)) as [->|Hu].
  - rewrite lookup_insert_eq. cbn [mbind option_bind]. destruct (decide (k' = k)) as [->|Hk].
    + rewrite lookup_insert_eq. naive_solver.
    + rewrite lookup_insert_ne by done. destruct (m !! u); cbn; rewrite ?lookup_empty; naive_solver.
  - rewrite lookup_insert_ne by done. naive_solver.
Qed.

Lemma row_remove u k m u' k' : row (removeFromParentUIDToChildren u k m) u' k' ↔ row m u' k' ∧ ¬ (u' = u ∧ k' = k).
Proof.
  unfold row, removeFromParentUIDToChildren. destruct (m !! u) as [s|] eqn:E; cycle 1.
  { split; [|by intros [? _]]. intros H. split; [done|]. intros [-> _]. by rewrite E in H. }
  assert ((delete k s !! k' = Some ()) ↔ (s !! k' = Some () ∧ k' ≠ k)) as Hd.
  { destruct (decide (k' = k)) as [->|]; [rewrite lookup_delete_eq|rewrite lookup_delete_ne by done]; naive_solver. }
  destruct (decide (u' = u)) as [->|Hu].
  - rewrite E. cbn [mbind option_bind]. case_bool_decide as Hs.
    + rewrite lookup_delete_eq. cbn. split; [done|]. intros [H1 H2].
      assert (delete k s !! k' = Some ()) as H by (apply Hd; naive_solver). by rewrite Hs, lookup_empty in H.
    + rewrite lookup_insert_eq. cbn. rewrite Hd. naive_solver.
  - case_bool_decide; [rewrite lookup_delete_ne by done|rewrite lookup_insert_ne by done]; naive_solver.
Qed.

Lemma add_no_empty u k m : no_empty_sets m → no_empty_sets (addToParentUIDToChildren u k m).
Proof.
  intros Hm u' s. unfold addToParentUIDToChildren. rewrite lookup_insert_Some. intros [[_ <-]|[_ ?]]; [|by eapply Hm].
  apply insert_non_empty.
Qed.

Lemma remove_no_empty u k m : no_empty_sets m → no_empty_sets (removeFromParentUIDToChildren u k m).
Proof.
  intros Hm u' s. unfold removeFromParentUIDToChildren. destruct (m !! u) as [t|] eqn:E; [|by apply Hm].
  case_bool_decide as Ht.
  - rewrite lookup_delete_Some. intros [_ ?]. by eapply Hm.
  - rewrite lookup_insert_Some. intros [[_ <-]|[_ ?]]; [done|by eapply Hm].
Qed.

(** Loops of additions and removals for one child *)
Lemma row_foldl_remove {A} (P : A → Prop) `{!∀ x, Decision (P x)} (f : A → string) k l m u k' :
  row (foldl (λ m x, if decide (P x) then removeFromParentUIDToChildren (f x) k m else m) m l) u k' ↔
  row m u k' ∧ ¬ (k' = k ∧ ∃ x, x ∈ l ∧ P x ∧ f x = u).
Proof.
  revert m. induction l as [|x l IH]; intros m; cbn [foldl].
  - split; [|naive_solver]. intros Hrow. split; [done|]. intros (_&x&Hx&_). by apply elem_of_nil in Hx.
  - rewrite IH. setoid_rewrite elem_of_cons. destruct (decide (P x)); rewrite ?row_remove; naive_solver.
Qed.

Lemma row_foldl_add {A} (P : A → Prop) `{!∀ x, Decision (P x)} (f : A → string) k l m u k' :
  row (foldl (λ m x, if decide (P x) then addToParentUIDToChildren (f x) k m else m) m l) u k' ↔
  row m u k' ∨ (k' = k ∧ ∃ x, x ∈ l ∧ P x ∧ f x = u).
Proof.
  revert m. induction l as [|x l IH]; intros m; cbn [foldl].
  - split; [by left|]. intros [?|(_&x&Hx&_)]; [done|]. by apply elem_of_nil in Hx.
  - rewrite IH. setoid_rewrite elem_of_cons. destruct (decide (P x)); rewrite ?row_add; naive_solver.
Qed.

Lemma foldl_no_empty {A} (g : gmap string key_set → A → gmap string key_set) l m :
  (∀ m x, no_empty_sets m → no_empty_sets (g m x)) → no_empty_sets m → no_empty_sets (foldl g m l).
Proof. intros Hg. revert m. induction l as [|x l IH]; intros m Hm; [done|]. apply IH, Hg, Hm. Qed.

Lemma elem_of_owner_uids u refs : u ∈ owner_uids refs ↔ u ≠ "" ∧ u ∈ OwnerUID <$> refs.
Proof. unfold owner_uids. by rewrite list_elem_of_filter. Qed.

Lemma uid_set_None refs u : uid_set refs !! u = None ↔ u ∉ owner_uids refs.
Proof.
  unfold uid_set.
  rewrite <-(not_elem_of_list_to_map (M := gmap string)), <-list_fmap_compose.
  change (fst ∘ λ uid : string, (uid, ())) with (@id string). by rewrite list_fmap_id.
Qed.

Lemma elem_of_uid_range `{R : GoRuntime} refs u : (u, ()) ∈ go_range (uid_set refs) ↔ u ∈ owner_uids refs.
Proof.
  rewrite elem_of_go_range. destruct (uid_set refs !! u) as [[]|] eqn:E.
  - split; [|done]. intros _. destruct (decide (u ∈ owner_uids refs)) as [|Hn]; [done|].
    apply uid_set_None in Hn. congruence.
  - apply uid_set_None in E. naive_solver.
Qed.

(** The rows of the child become those of the new owners. *)
Lemma row_update `{R : GoRuntime} key old new m u k :
  let olds := match old with Some r => owner_uids (OwnerRefs r) | None => [] end in
  (∀ u, row m u key ↔ u ∈ olds) →
  row (updateParentUIDToChildren key old new m) u k ↔
    if decide (k = key) then u ∈ owner_uids (OwnerRefs new) else row m u k.
Proof.
  intros olds Hold. unfold updateParentUIDToChildren.
  set (om := match old with Some r => uid_set (OwnerRefs r) | None => ∅ end).
  assert (∀ v, om !! v = None ↔ v ∉ olds) as Hom.
  { intros v. unfold om, olds. destruct old as [r|]; [apply uid_set_None|].
    rewrite lookup_empty. split; [intros _; apply not_elem_of_nil|done]. }
  assert (∀ v, (v, ()) ∈ go_range om ↔ v ∈ olds) as Hrange.
  { intros v. unfold om, olds. destruct old as [r|]; [apply elem_of_uid_range|].
    rewrite elem_of_go_range, lookup_empty. split; [done|]. by intros ?%elem_of_nil. }
  rewrite (row_foldl_add (λ e : string * unit, om !! e.1 = None) fst).
  rewrite (row_foldl_remove (λ e : string * unit, uid_set (OwnerRefs new) !! e.1 = None) fst).
  assert ((∃ x : string * unit, x ∈ go_range (uid_set (OwnerRefs new)) ∧ om !! x.1 = None ∧ x.1 = u) ↔
    u ∈ owner_uids (OwnerRefs new) ∧ u ∉ olds) as ->.
  { split.
    - intros ([v []]&Hin&Hv&<-). by rewrite elem_of_uid_range in Hin; rewrite Hom in Hv.
    - intros [Hin Hout]. exists (u, ()). rewrite elem_of_uid_range, Hom. done. }
  assert ((∃ x : string * unit, x ∈ go_range om ∧ uid_set (OwnerRefs new) !! x.1 = None ∧ x.1 = u) ↔
    u ∈ olds ∧ u ∉ owner_uids (OwnerRefs new)) as ->.
  { split.
    - intros ([v []]&Hin&Hv&<-). by rewrite Hrange in Hin; rewrite uid_set_None in Hv.
    - intros [Hin Hout]. exists (u, ()). rewrite Hrange, uid_set_None. done. }
  destruct (decide (k = key)) as [->|]; [|naive_solver]. rewrite Hold.
  destruct (decide (u ∈ owner_uids (OwnerRefs new))), (decide (u ∈ olds)); naive_solver.
Qed.

(** ** Owner references *)

Lemma owner_uids_app a b : owner_uids (a ++ b) = owner_uids a ++ owner_uids b.
Proof. unfold owner_uids. by rewrite fmap_app, filter_app. Qed.

Lemma owner_uids_single x : owner_uids [x] = if decide (OwnerUID x ≠ "") then [OwnerUID x] else [].
Proof. done. Qed.

Lemma owner_index_Some uid refs i :
  owner_index uid refs = Some i → ∃ ref, refs !! i = Some ref ∧ OwnerUID ref = uid.
Proof.
  unfold owner_index. destruct (list_find _ refs) as [[j ref]|] eqn:E; [|done]. intros [= <-].
  apply list_find_Some in E as (?&?&_). eauto.
Qed.

Lemma owner_index_None uid refs : owner_index uid refs = None → uid ∉ OwnerUID <$> refs.
Proof.
  unfold owner_index. destruct (list_find _ refs) as [[j ref]|] eqn:E; [done|]. intros _.
  apply list_find_None in E. rewrite Forall_forall in E. by intros (ref&->&Hin%E)%list_elem_of_fmap.
Qed.

(** What [setOwnerRef] does to the UIDs of the owners *)
Lemma setOwnerRef_uids ref add r :
  NoDup (owner_uids (OwnerRefs r)) →
  let us := owner_uids (OwnerRefs (setOwnerRef ref add r)) in
  NoDup us ∧ ∀ u, u ∈ us ↔
    if decide (u = OwnerUID ref) then u ≠ "" ∧ add = true else u ∈ owner_uids (OwnerRefs r).
Proof.
  intros Hnd us. unfold us, setOwnerRef.
  destruct (owner_index (OwnerUID ref) (OwnerRefs r)) as [i|] eqn:Ei, add.
  - apply owner_index_Some in Ei as (x&Hx&Heq). split; [done|]. intros u. case_decide as Hu; [|done]. subst u.
    rewrite elem_of_owner_uids. split; [naive_solver|]. intros [? _]. split; [done|]. rewrite <-Heq.
    apply list_elem_of_fmap_2. by eapply list_elem_of_lookup_2.
  - apply owner_index_Some in Ei as (x&Hx&Heq). cbn [OwnerRefs set_OwnerRefs].
    assert (owner_uids (OwnerRefs r) = owner_uids (take i (OwnerRefs r)) ++ owner_uids [x] ++ owner_uids (drop (S i) (OwnerRefs r)))
      as Hsplit by (rewrite <-!owner_uids_app; simpl; by rewrite take_drop_middle).
    rewrite owner_uids_app. rewrite Hsplit, owner_uids_single, Heq in *. case_decide as Hne.
    + apply NoDup_app in Hnd as (H1&H2&H3). apply NoDup_cons in H3 as [H3 H4]. split.
      { apply NoDup_app. split_and!; [done| |done]. intros u Hu Hu'. apply (H2 u Hu). by right. }
      intros u. case_decide as Hu; rewrite !elem_of_app; [subst u|rewrite elem_of_cons, elem_of_nil; naive_solver].
      split; [|naive_solver]. intros [Hin|Hin]; [|done]. exfalso. apply (H2 _ Hin). by left.
    + split; [done|]. intros u. case_decide as Hu; rewrite !elem_of_app; [subst u|rewrite elem_of_nil; naive_solver].
      split; [|naive_solver]. assert (OwnerUID ref = "") as Hz by by destruct (decide (OwnerUID ref = "")).
      rewrite !elem_of_owner_uids. naive_solver.
  - cbn [OwnerRefs set_OwnerRefs]. apply owner_index_None in Ei. rewrite owner_uids_app.
    rewrite owner_uids_single. split.
    + case_decide; [|by rewrite app_nil_r]. apply NoDup_app. split_and!; [done| |apply NoDup_singleton].
      intros u Hu ->%list_elem_of_singleton. by apply elem_of_owner_uids in Hu as [_ ?].
    + intros u. repeat case_decide; subst; rewrite elem_of_app, ?elem_of_cons, ?elem_of_nil, ?elem_of_owner_uids;
        naive_solver.
  - apply owner_index_None in Ei. split; [done|]. intros u. case_decide; [subst u|done].
    rewrite elem_of_owner_uids. naive_solver.
Qed.

Lemma setOwnerRef_fields ref add r :
  Resource_Key (setOwnerRef ref add r) = Resource_Key r ∧ Ref (setOwnerRef ref add r) = Ref r ∧
  isInferredParentOf (setOwnerRef ref add r) = isInferredParentOf r ∧
  mightHaveInferredOwner (setOwnerRef ref add r) = mightHaveInferredOwner r ∧
  set_OwnerRefs [] (setOwnerRef ref add r) = set_OwnerRefs [] r.
Proof. unfold setOwnerRef. by destruct (owner_index _ _), add. Qed.

(** ** The invariant *)

(** [D] says which children the index still holds although they have left the cache,
    which happens while [onNodeRemoved] runs. *)
Record cache_inv (D : string → ResourceKey → Prop) (st : cache_state) : Prop := {
  inv_heap : ∀ k l, resources st !! k = Some l → ∃ r, heap st !! l = Some r ∧ Resource_Key r = k;
  inv_ns : ∀ n k l,
    (nsIndex st !! n ≫= lookup k) = Some l ↔ resources st !! k = Some l ∧ key_Namespace k = n;
  inv_ns_full : ∀ n ns, nsIndex st !! n = Some ns → ns ≠ ∅;
  inv_rows : ∀ u k, row (parentUIDToChildren st) u k ↔
    (∃ r, get st k = Some r ∧ u ∈ owner_uids (OwnerRefs r)) ∨ D u k;
  inv_gone : ∀ u k, D u k → resources st !! k = None;
  inv_sets : no_empty_sets (parentUIDToChildren st);
  inv_claims : ∀ k r, get st k = Some r → mightHaveInferredOwner r = true → NoDup (owner_uids (OwnerRefs r));
}.

(** The cache between two operations *)
Notation cache_ok := (cache_inv (λ _ _, False)).

Lemma empty_cache_ok : cache_ok empty_cache.
Proof.
  split; unfold get, row; cbn [empty_cache heap resources nsIndex parentUIDToChildren].
  - intros k l. by rewrite lookup_empty.
  - intros n k l. rewrite !lookup_empty. naive_solver.
  - intros n ns. by rewrite lookup_empty.
  - intros u k. rewrite !lookup_empty. naive_solver.
  - done.
  - intros u s. by rewrite lookup_empty.
  - intros k r. by rewrite lookup_empty.
Qed.

Lemma get_Some st k r : get st k = Some r ↔ ∃ l, resources st !! k = Some l ∧ heap st !! l = Some r.
Proof. unfold get. destruct (resources st !! k); naive_solver. Qed.

Lemma get_key D st k r : cache_inv D st → get st k = Some r → Resource_Key r = k.
Proof. intros HI (l&Hl&Hr)%get_Some. destruct (inv_heap _ _ HI _ _ Hl) as (r'&?&?). congruence. Qed.

Lemma loc_inj D st k k' l : cache_inv D st → resources st !! k = Some l → resources st !! k' = Some l → k = k'.
Proof.
  intros HI Hk Hk'. destruct (inv_heap _ _ HI _ _ Hk) as (r&Hr&<-).
  destruct (inv_heap _ _ HI _ _ Hk') as (r'&Hr'&<-). congruence.
Qed.

Lemma get_is_Some D st k : cache_inv D st → is_Some (get st k) ↔ is_Some (resources st !! k).
Proof.
  intros HI. unfold get. destruct (resources st !! k) as [l|] eqn:E; cbn [mbind option_bind].
  - destruct (inv_heap _ _ HI _ _ E) as (r&Hr&_). rewrite Hr. split; eauto.
  - by split; intros [? ?].
Qed.

(** What [set_owner] leaves alone *)
Lemma set_owner_resources parent c ck b st :
  resources (set_owner parent c ck b st) = resources st ∧ nsIndex (set_owner parent c ck b st) = nsIndex st ∧
  notified (set_owner parent c ck b st) = notified st.
Proof. done. Qed.

Lemma get_set_owner D parent c ck b st k :
  cache_inv D st → resources st !! ck = Some c →
  get (set_owner parent c ck b st) k =
    (if decide (k = ck) then setOwnerRef (toOwnerRef parent) b else id) <$> get st k.
Proof.
  intros HI Hc. unfold get. cbn [set_owner set_children set_heap resources heap].
  destruct (resources st !! k) as [l|] eqn:Hl; [|done]. cbn [mbind option_bind]. case_decide as Hk.
  - subst k. rewrite Hc in Hl. injection Hl as <-. by rewrite lookup_alter_eq.
  - rewrite lookup_alter_ne; [by rewrite option_fmap_id|]. intros ->. by destruct Hk; eapply loc_inj.
Qed.

Lemma row_index_child u k b m u' k' :
  row (index_child u k b m) u' k' ↔
    if decide (u' = u ∧ k' = k ∧ u ≠ "") then b = true else row m u' k'.
Proof.
  unfold index_child. destruct (String.eqb_spec u "") as [->|Hu]; [by rewrite decide_False by naive_solver|].
  destruct b; rewrite ?row_add, ?row_remove; case_decide; naive_solver.
Qed.

Lemma set_owner_inv D parent c ck b st r :
  cache_inv D st → resources st !! ck = Some c → get st ck = Some r → mightHaveInferredOwner r = true →
  cache_inv D (set_owner parent c ck b st).
Proof.
  intros HI Hc Hr Hm. pose proof (inv_claims _ _ HI _ _ Hr Hm) as Hnd.
  destruct (setOwnerRef_uids (toOwnerRef parent) b r Hnd) as [Hnd' Hu'].
  split.
  - intros k l Hl. destruct (inv_heap _ _ HI _ _ Hl) as (v&Hv&Hk). cbn [set_owner set_children set_heap heap].
    rewrite lookup_alter. case_decide as Hcl; [|by eauto]. subst l. rewrite Hv. eexists. split; [done|].
    by rewrite (proj1 (setOwnerRef_fields _ _ _)).
  - apply (inv_ns _ _ HI).
  - apply (inv_ns_full _ _ HI).
  - intros u k. rewrite (get_set_owner D) by done.
    cbn [set_owner set_children parentUIDToChildren]. rewrite row_index_child.
    pose proof (inv_rows _ _ HI u k) as Hrow. destruct (decide (k = ck)) as [->|Hk].
    + rewrite Hr in *. cbn [fmap option_fmap option_map].
      assert (¬ D u ck) as HD by (intros ?%(inv_gone _ _ HI); congruence).
      specialize (Hu' u). cbn [toOwnerRef OwnerUID] in Hu'.
      assert ((∃ r0, Some (setOwnerRef (toOwnerRef parent) b r) = Some r0 ∧ u ∈ owner_uids (OwnerRefs r0)) ↔
        u ∈ owner_uids (OwnerRefs (setOwnerRef (toOwnerRef parent) b r))) as -> by naive_solver.
      rewrite Hu'. pose proof (elem_of_owner_uids u (OwnerRefs r)) as Hin.
      destruct (decide (u = RefUID (Ref parent))), (decide (u = RefUID (Ref parent) ∧ ck = ck ∧ RefUID (Ref parent) ≠ ""));
        naive_solver.
    + rewrite option_fmap_id, decide_False by naive_solver. done.
  - apply (inv_gone _ _ HI).
  - cbn [set_owner set_children parentUIDToChildren]. unfold index_child.
    case_match; [apply (inv_sets _ _ HI)|]. destruct b; [apply add_no_empty|apply remove_no_empty]; apply (inv_sets _ _ HI).
  - intros k v. rewrite (get_set_owner D) by done. case_decide as Hk.
    + subst k. rewrite Hr. cbn. intros [= <-] _. done.
    + rewrite option_fmap_id. apply (inv_claims _ _ HI).
Qed.

(** A resource without its owners: what the events determine *)
Definition core (r : Resource) : Resource := set_OwnerRefs [] r.

(** The states differ at most in the owners of the resources. *)
Record same_but_owners (st st' : cache_state) : Prop := {
  same_resources : resources st' = resources st;
  same_nsIndex : nsIndex st' = nsIndex st;
  same_notified : notified st' = notified st;
  same_core : ∀ k, core <$> get st' k = core <$> get st k;
}.

#[export] Instance same_but_owners_preorder : PreOrder same_but_owners.
Proof. split; [done|]. intros a b c [] []. split; intros; congruence. Qed.

Lemma core_might r r' : core r = core r' → mightHaveInferredOwner r = mightHaveInferredOwner r'.
Proof. destruct r, r'. by intros [=-> -> -> -> -> ->]. Qed.

(** A step of the loops over a namespace *)
Definition owner_step (D : string → ResourceKey → Prop) (st st' : cache_state) : Prop :=
  cache_inv D st' ∧ same_but_owners st st'.

Lemma owner_step_refl D st : cache_inv D st → owner_step D st st.
Proof. by split. Qed.

Lemma owner_step_trans D st st' st'' : owner_step D st st' → owner_step D st' st'' → owner_step D st st''.
Proof. intros [? ?] [? ?]. split; [done|]. by etrans. Qed.

Lemma set_owner_step D parent c ck b st r :
  cache_inv D st → resources st !! ck = Some c → heap st !! c = Some r → mightHaveInferredOwner r = true →
  owner_step D st (set_owner parent c ck b st).
Proof.
  intros HI Hc Hr Hm. assert (get st ck = Some r) as Hg by (apply get_Some; eauto).
  split; [by eapply set_owner_inv|]. split; [done..|]. intros k. rewrite (get_set_owner D) by done.
  case_decide as Hk; [|by rewrite option_fmap_id]. rewrite <-option_fmap_compose.
  apply option_fmap_ext. intros v. by apply setOwnerRef_fields.
Qed.

Lemma same_heap D st st' k l v :
  cache_inv D st → owner_step D st st' → resources st !! k = Some l → heap st !! l = Some v →
  ∃ v', heap st' !! l = Some v' ∧ core v' = core v.
Proof.
  intros HI [HI' Hs] Hl Hv. pose proof (same_core _ _ Hs k) as Hk.
  assert (get st k = Some v) as Hg by (apply get_Some; eauto). rewrite Hg in Hk.
  apply fmap_Some in Hk as (v'&(l'&Hl'&Hv')%get_Some&?). rewrite (same_resources _ _ Hs) in Hl'.
  exists v'. split; [congruence|done].
Qed.

Lemma infer_owner_step D l key k lv st :
  cache_inv D st → resources st !! key = Some l → resources st !! k = Some lv →
  owner_step D st (infer_owner l key st (k, lv)).
Proof.
  intros HI Hl Hlv. unfold infer_owner.
  destruct (heap st !! l) as [n|] eqn:Hn; [|by apply owner_step_refl].
  destruct (heap st !! lv) as [v|] eqn:Hv; [|by apply owner_step_refl].
  set (st1 := match isInferredParentOf n with Some f => _ | None => _ end).
  assert (owner_step D st st1) as Hst1.
  { unfold st1. destruct (isInferredParentOf n) as [f|]; [|by apply owner_step_refl].
    destruct (mightHaveInferredOwner v) eqn:Hm; [by eapply set_owner_step|by apply owner_step_refl]. }
  destruct (isInferredParentOf v) as [g|]; [|done]. destruct (mightHaveInferredOwner n) eqn:Hm; [|done].
  destruct (same_heap _ _ _ _ _ _ HI Hst1 Hl Hn) as (n'&Hn'&Hc).
  eapply owner_step_trans; [exact Hst1|]. eapply set_owner_step; [apply Hst1| |exact Hn'|].
  - by rewrite (same_resources _ _ (proj2 Hst1)).
  - rewrite <-Hm. by apply core_might.
Qed.

Lemma disown_step D existing f k lv st :
  cache_inv D st → resources st !! k = Some lv → owner_step D st (disown existing f st (k, lv)).
Proof.
  intros HI Hlv. unfold disown. destruct (heap st !! lv) as [v|] eqn:Hv; [|by apply owner_step_refl].
  destruct (mightHaveInferredOwner v) eqn:Hm; [|by apply owner_step_refl].
  destruct (f k); [by eapply set_owner_step|by apply owner_step_refl].
Qed.

Lemma owner_step_foldl D (f : cache_state → ResourceKey * positive → cache_state) l st :
  (∀ st' k lv, (k, lv) ∈ l → owner_step D st st' → owner_step D st' (f st' (k, lv))) →
  cache_inv D st → owner_step D st (foldl f st l).
Proof.
  intros Hf HI. assert (∀ st', owner_step D st st' → owner_step D st (foldl f st' l)) as H.
  { induction l as [|[k lv] l IH]; intros st' Hst'; [done|]. cbn [foldl]. apply IH.
    - intros. apply Hf; [by right|done].
    - eapply owner_step_trans; [exact Hst'|]. apply Hf; [by left|done]. }
  by apply H, owner_step_refl.
Qed.

(** ** The operations keep the invariant *)

Section operations.
Context {R : GoRuntime} `{CL : CacheLib}.

(** The owners of a claim name no UID twice, which the API server expects of all owners. *)
Definition claim_ok (n : Resource) : Prop := mightHaveInferredOwner n = true → NoDup (owner_uids (OwnerRefs n)).

Lemma ns_get D st k l : cache_inv D st →
  default ∅ (nsIndex st !! key_Namespace k) !! k = Some l ↔ resources st !! k = Some l.
Proof.
  intros HI. pose proof (inv_ns _ _ HI (key_Namespace k) k l) as H.
  destruct (nsIndex st !! key_Namespace k) as [ns|]; cbn [mbind option_bind default from_option id] in *.
  - rewrite H. naive_solver.
  - rewrite lookup_empty. naive_solver.
Qed.

Lemma ns_mem D st n k l : cache_inv D st → default ∅ (nsIndex st !! n) !! k = Some l → resources st !! k = Some l.
Proof.
  intros HI H. apply (inv_ns _ _ HI n). destruct (nsIndex st !! n); [done|].
  cbn [default from_option] in H. by rewrite lookup_empty in H.
Qed.

Lemma get_store_node D l n st k : cache_inv D st → heap st !! l = None →
  get (store_node l n st) k = if decide (k = Resource_Key n) then Some n else get st k.
Proof.
  intros HI Hl. unfold get. cbn [store_node resources heap]. case_decide as Hk.
  - subst k. rewrite lookup_insert_eq. cbn [mbind option_bind]. by rewrite lookup_insert_eq.
  - rewrite lookup_insert_ne by done. destruct (resources st !! k) as [l'|] eqn:Hl'; [|done].
    cbn [mbind option_bind]. destruct (inv_heap _ _ HI _ _ Hl') as (r&Hr&_). rewrite lookup_insert_ne by congruence. done.
Qed.

Lemma store_node_inv l n st : cache_ok st → heap st !! l = None → claim_ok n → cache_ok (store_node l n st).
Proof.
  intros HI Hfresh Hn. pose proof (λ k, get_store_node _ l n st k HI Hfresh) as Hget.
  split.
  - intros k l'. cbn [store_node resources heap]. rewrite lookup_insert_Some. intros [[<- <-]|[Hk Hl']].
    + exists n. by rewrite lookup_insert_eq.
    + destruct (inv_heap _ _ HI _ _ Hl') as (r&Hr&?). exists r. by rewrite lookup_insert_ne by congruence.
  - intros m k l'. cbn [store_node resources nsIndex]. destruct (decide (m = key_Namespace (Resource_Key n))) as [->|Hm].
    + rewrite lookup_insert_eq. cbn [mbind option_bind]. rewrite !lookup_insert_Some.
      pose proof (inv_ns _ _ HI (key_Namespace (Resource_Key n)) k l') as H.
      destruct (nsIndex st !! key_Namespace (Resource_Key n)); cbn [mbind option_bind default from_option id] in *.
      * rewrite H. naive_solver.
      * rewrite lookup_empty. naive_solver.
    + rewrite lookup_insert_ne by done. rewrite (inv_ns _ _ HI), lookup_insert_Some. naive_solver.
  - intros m ns. cbn [store_node nsIndex]. rewrite lookup_insert_Some. intros [[_ <-]|[_ ?]]; [apply insert_non_empty|].
    by eapply inv_ns_full.
  - intros u k. rewrite Hget. cbn [store_node parentUIDToChildren].
    rewrite row_update. 2:{ intros v. rewrite (inv_rows _ _ HI). destruct (get st (Resource_Key n)); [naive_solver|].
      rewrite elem_of_nil. naive_solver. }
    case_decide; [naive_solver|]. apply (inv_rows _ _ HI).
  - done.
  - cbn [store_node parentUIDToChildren]. unfold updateParentUIDToChildren.
    apply foldl_no_empty; [|apply foldl_no_empty; [|apply (inv_sets _ _ HI)]]; intros m x Hm; case_decide;
      auto using add_no_empty, remove_no_empty.
  - intros k r. rewrite Hget. case_decide; [intros [= <-]; apply Hn|]. apply (inv_claims _ _ HI).
Qed.

Lemma setNode_step n st : cache_ok st → claim_ok n →
  ∃ l, heap st !! l = None ∧ owner_step (λ _ _, False) (store_node l n st) (setNode n st).
Proof.
  intros HI Hn. exists (fresh (dom (heap st))).
  assert (heap st !! fresh (dom (heap st)) = None) as Hl by (apply not_elem_of_dom, is_fresh).
  split; [done|]. unfold setNode. set (l := fresh _) in *.
  pose proof (store_node_inv l n st HI Hl Hn) as HI'.
  destruct (_ || _); [|by apply owner_step_refl].
  apply owner_step_foldl; [|done]. intros st' k lv Hin%elem_of_go_range%(ns_mem _ _ _ _ _ HI') [? Hs].
  rewrite <-(same_resources _ _ Hs) in Hin. apply infer_owner_step; [done| |done].
  rewrite (same_resources _ _ Hs). apply lookup_insert_eq.
Qed.
End operations.

(** What the cache says of the cluster *)
Definition view (st : cache_state) : gmap ResourceKey Resource := omap (λ l, core <$> heap st !! l) (resources st).

Lemma lookup_view st k : view st !! k = core <$> get st k.
Proof. unfold view, get. rewrite lookup_omap. by destruct (resources st !! k). Qed.

Lemma same_view st st' : same_but_owners st st' → view st' = view st.
Proof. intros Hs. apply map_eq. intros k. rewrite !lookup_view. apply (same_core _ _ Hs). Qed.

Section removal.
Context {R : GoRuntime} `{CL : CacheLib}.

Lemma get_drop_node key st k : get (drop_node key st) k = if decide (k = key) then None else get st k.
Proof.
  unfold get. cbn [drop_node resources heap]. case_decide as Hk.
  - subst k. by rewrite lookup_delete_eq.
  - by rewrite lookup_delete_ne by done.
Qed.

Lemma drop_node_inv key existing st : cache_ok st → get st key = Some existing →
  cache_inv (λ u k, k = key ∧ u ∈ owner_uids (OwnerRefs existing)) (drop_node key st).
Proof.
  intros HI Hkey. split.
  - intros k l. cbn [drop_node resources heap]. rewrite lookup_delete_Some. intros [_ Hl]. by apply (inv_heap _ _ HI).
  - intros m k l. cbn [drop_node resources nsIndex]. rewrite lookup_delete_Some.
    pose proof (inv_ns _ _ HI m k l) as Hns.
    destruct (nsIndex st !! key_Namespace key) as [ns|] eqn:Ens.
    2:{ rewrite Hns. split; [|naive_solver]. intros [? <-]. split_and!; try done. intros <-. by rewrite Ens in Hns; naive_solver. }
    assert (delete key ns !! k = Some l ↔ ns !! k = Some l ∧ key ≠ k) as Hd by (rewrite lookup_delete_Some; naive_solver).
    destruct (decide (m = key_Namespace key)) as [->|Hm].
    + rewrite Ens in Hns. cbn [mbind option_bind] in Hns. case_bool_decide as He.
      * rewrite lookup_delete_eq. rewrite He, lookup_empty in Hd. cbn. split; [done|]. naive_solver.
      * rewrite lookup_insert_eq. cbn [mbind option_bind]. rewrite Hd, Hns. naive_solver.
    + case_bool_decide; [rewrite lookup_delete_ne by done|rewrite lookup_insert_ne by done]; rewrite Hns; naive_solver.
  - intros m ns. cbn [drop_node nsIndex]. destruct (nsIndex st !! key_Namespace key) as [ns'|] eqn:Ens.
    2:{ apply (inv_ns_full _ _ HI). }
    case_bool_decide as He.
    + rewrite lookup_delete_Some. intros [_ ?]. by eapply inv_ns_full.
    + rewrite lookup_insert_Some. intros [[_ <-]|[_ ?]]; [done|by eapply inv_ns_full].
  - intros u k. rewrite get_drop_node. cbn [drop_node parentUIDToChildren]. rewrite (inv_rows _ _ HI).
    case_decide; [subst k; rewrite Hkey|]; naive_solver.
  - intros u k [-> _]. cbn [drop_node resources]. apply lookup_delete_eq.
  - apply (inv_sets _ _ HI).
  - intros k r. rewrite get_drop_node. case_decide; [done|]. apply (inv_claims _ _ HI).
Qed.

Lemma row_foldl_remove_uids k l m u k' :
  row (foldl (λ m uid, removeFromParentUIDToChildren uid k m) m l) u k' ↔ row m u k' ∧ ¬ (k' = k ∧ u ∈ l).
Proof.
  revert m. induction l as [|x l IH]; intros m; cbn [foldl].
  - rewrite elem_of_nil. naive_solver.
  - rewrite IH, row_remove, elem_of_cons. naive_solver.
Qed.

(** The last part of [onNodeRemoved] *)
Lemma drop_rows_inv key us st :
  cache_inv (λ u k, k = key ∧ u ∈ us) st →
  cache_ok (set_children (foldl (λ m uid, removeFromParentUIDToChildren uid key m) (parentUIDToChildren st) us) st).
Proof.
  intros HI. split; try apply HI; [|done|].
  - intros u k. cbn [set_children parentUIDToChildren]. rewrite row_foldl_remove_uids, (inv_rows _ _ HI).
    change (get (set_children _ st) k) with (get st k).
    pose proof (inv_gone _ _ HI u k) as Hgone. split; [naive_solver|]. intros [(r&Hr&Hu)|[]].
    split; [naive_solver|]. intros Hk. destruct (get_is_Some _ st k HI) as [Hsome _].
    destruct (Hsome (mk_is_Some _ _ Hr)) as [? Hl]. rewrite (Hgone Hk) in Hl. done.
  - cbn [set_children parentUIDToChildren]. apply foldl_no_empty; [|apply (inv_sets _ _ HI)].
    intros. by apply remove_no_empty.
Qed.

Lemma disown_heap existing f l r es st :
  (∀ e, e ∈ es → e.2 ≠ l) → heap st !! l = Some r → heap (foldl (disown existing f) st es) !! l = Some r.
Proof.
  revert st. induction es as [|[k lv] es IH]; intros st Hne Hl; [done|]. cbn [foldl]. apply IH.
  - intros e He. apply Hne. by right.
  - unfold disown. destruct (heap st !! lv); [|done]. destruct (_ && _); [|done].
    cbn [set_owner set_children set_heap heap]. rewrite lookup_alter_ne; [done|]. apply (Hne (k, lv)). by left.
Qed.

Lemma onNodeRemoved_step key st : cache_ok st →
  cache_ok (onNodeRemoved key st) ∧ view (onNodeRemoved key st) = delete key (view st) ∧
  notified (onNodeRemoved key st) =
    match get st key with Some r => notified st ++ [(None, Some r)] | None => notified st end.
Proof.
  intros HI. unfold onNodeRemoved.
  assert (get st key = None → view st = delete key (view st)) as Hnone.
  { intros Hk. rewrite delete_id; [done|]. by rewrite lookup_view, Hk. }
  destruct (resources st !! key) as [l|] eqn:Hl.
  2:{ assert (get st key = None) as Hk by (unfold get; by rewrite Hl). rewrite Hk. eauto. }
  destruct (inv_heap _ _ HI _ _ Hl) as (existing&He&_). rewrite He. clear Hnone.
  assert (get st key = Some existing) as Hkey by (apply get_Some; eauto). rewrite Hkey.
  pose proof (drop_node_inv key existing st HI Hkey) as HD.
  set (D := λ (u : string) k, k = key ∧ u ∈ owner_uids (OwnerRefs existing)) in *.
  set (ns := delete key (default ∅ (nsIndex st !! key_Namespace key))).
  assert (∀ k lv, (k, lv) ∈ go_range ns → resources (drop_node key st) !! k = Some lv ∧ lv ≠ l) as Hns.
  { intros k lv [Hne Hk%(ns_mem _ _ _ _ _ HI)]%elem_of_go_range%lookup_delete_Some. split.
    - cbn [drop_node resources]. by rewrite lookup_delete_ne by done.
    - intros ->. apply Hne. exact (loc_inj _ _ _ _ _ HI Hl Hk). }
  set (st1 := match isInferredParentOf existing with Some f => _ | None => _ end).
  assert (owner_step D (drop_node key st) st1) as [HI1 Hs1].
  { unfold st1. destruct (isInferredParentOf existing) as [f|]; [|by apply owner_step_refl].
    apply owner_step_foldl; [|done]. intros st' k lv Hin [? Hs]. apply disown_step; [done|].
    rewrite (same_resources _ _ Hs). by apply Hns. }
  assert (heap st1 !! l = Some existing) as Hl1.
  { unfold st1. destruct (isInferredParentOf existing) as [f|]; [|done].
    apply disown_heap; [|done]. intros [k lv] Hin. by apply (Hns k). }
  rewrite Hl1. pose proof (drop_rows_inv key (owner_uids (OwnerRefs existing)) st1 HI1) as HI2.
  split; [destruct HI2; by split|]. split; [|cbn [notify set_children notified heap]; by rewrite (same_notified _ _ Hs1), Hl1].
  apply map_eq. intros k. rewrite lookup_view.
  change (get (notify _ (set_children _ st1)) k) with (get st1 k). rewrite (same_core _ _ Hs1), get_drop_node.
  case_decide as Hk; [subst k; by rewrite lookup_delete_eq|]. by rewrite lookup_delete_ne, lookup_view by done.
Qed.
End removal.

(** ** What the operations do to the cache *)

(** The handlers' picture of the cache, kept from the calls they get *)
Definition replay (m : gmap ResourceKey Resource) (e : option Resource * option Resource) : gmap ResourceKey Resource :=
  match e with
  | (Some r, _) => <[Resource_Key r := core r]> m
  | (None, Some r) => delete (Resource_Key r) m
  | (None, None) => m
  end.
(** From [base] on, the handlers were told all that changed: the calls since then turn what
    the cache held there into what it holds now. *)
Definition handlers_follow (base st : cache_state) : Prop :=
  ∃ calls, notified st = notified base ++ calls ∧ foldl replay (view base) calls = view st.

#[export] Instance handlers_follow_preorder : PreOrder handlers_follow.
Proof.
  split; [intros st; exists []; by rewrite app_nil_r|].
  intros a b c (x&Hx&Hvx) (y&Hy&Hvy). exists (x ++ y). by rewrite Hy, Hx, app_assoc, foldl_app, Hvx.
Qed.

(** The state is consistent, and the handlers know all of it since [base]. *)
Definition cache_consistent (base st : cache_state) : Prop := cache_ok st ∧ handlers_follow base st.

(** What an event says of the cluster *)
Definition apply_event `{CL : CacheLib} (m : gmap ResourceKey Resource) (e : event_type * Unstructured) :
    gmap ResourceKey Resource :=
  match e.1 with
  | Deleted => delete (GetResourceKey e.2) m
  | Modified => if skipAppRequeuing (GetResourceKey e.2) then m else <[GetResourceKey e.2 := core (newResource e.2)]> m
  | Added => <[GetResourceKey e.2 := core (newResource e.2)]> m
  end.

(** The API version of an object as the API server writes it, and claims as [claim_ok] *)
Definition served `{CL : CacheLib} (un : Unstructured) : Prop :=
  GetKind un = Kind (gvk un) ∧ ParseGroup (gv_string (gvk un)) = Some (Group (gvk un)) ∧ claim_ok (newResource un).

Section updates.
Context {R : GoRuntime} `{CL : CacheLib} (base : cache_state).

Lemma newResource_key un : served un → Resource_Key (newResource un) = GetResourceKey un.
Proof.
  intros (Hk&Hg&_). unfold Resource_Key, newResource, GetResourceKey, RefGroup.
  destruct (resolveResourceReferences un) as [refs p], (populateResourceInfo un _) as [info keep]. cbn [Ref GetObjectRef RefAPIVersion RefKind RefNamespace RefName].
  by rewrite Hg, Hk.
Qed.

Lemma setNode_ok n st : cache_ok st → claim_ok n →
  cache_ok (setNode n st) ∧ view (setNode n st) = <[Resource_Key n := core n]> (view st) ∧
  notified (setNode n st) = notified st.
Proof.
  intros HI Hn. destruct (setNode_step n st HI Hn) as (l&Hl&HI'&Hs).
  split; [done|]. split; [|by rewrite (same_notified _ _ Hs)].
  rewrite (same_view _ _ Hs). apply map_eq. intros k. rewrite lookup_view, (get_store_node _ _ _ _ _ HI Hl).
  case_decide as Hk; [subst k; by rewrite lookup_insert_eq|]. by rewrite lookup_insert_ne, lookup_view by done.
Qed.

Lemma onNodeUpdated_ok old n st : cache_consistent base st → claim_ok n →
  cache_consistent base (onNodeUpdated old n st) ∧ view (onNodeUpdated old n st) = <[Resource_Key n := core n]> (view st).
Proof.
  intros [HI Hh] Hn. destruct (setNode_ok n st HI Hn) as (HI'&Hv&Hnt). unfold onNodeUpdated.
  set (st' := setNode n st) in *. split; [|exact Hv]. split; [destruct HI'; by split|].
  etrans; [exact Hh|]. eexists [_]. cbn [notify notified]. split; [by rewrite Hnt|].
  change (view (notify ?e st')) with (view st'). cbn [foldl]. pose proof (lookup_view st' (Resource_Key n)) as Hk.
  rewrite Hv, lookup_insert_eq in Hk. destruct (get st' (Resource_Key n)) as [r|] eqn:Hr; [|done].
  apply Some_inj in Hk. rewrite Hv. cbn [replay]. by rewrite (get_key _ _ _ _ HI' Hr), Hk.
Qed.

Lemma onNodeRemoved_ok key st : cache_consistent base st →
  cache_consistent base (onNodeRemoved key st) ∧ view (onNodeRemoved key st) = delete key (view st).
Proof.
  intros [HI Hh]. destruct (onNodeRemoved_step key st HI) as (HI'&Hv&Hnt). split; [|done]. split; [done|].
  etrans; [exact Hh|]. destruct (get st key) as [r|] eqn:Hr.
  - exists [(None, Some r)]. split; [done|]. cbn. by rewrite (get_key _ _ _ _ HI Hr).
  - exists []. rewrite app_nil_r. split; [done|]. cbn [foldl]. by rewrite Hv, delete_id by (by rewrite lookup_view, Hr).
Qed.

Lemma processEvent_ok ev un st : cache_consistent base st → (ev ≠ Deleted → served un) →
  cache_consistent base (processEvent ev un st) ∧
  view (processEvent ev un st) =
    match ev with Deleted => delete (GetResourceKey un) (view st)
                | _ => <[GetResourceKey un := core (newResource un)]> (view st) end.
Proof.
  intros HI Hun. unfold processEvent. destruct ev.
  1,2: rewrite <-newResource_key by (by apply Hun); apply onNodeUpdated_ok; [done|by apply Hun].
  destruct (resources st !! GetResourceKey un) as [l|] eqn:Hl; [by apply onNodeRemoved_ok|].
  split; [done|]. rewrite delete_id; [done|]. rewrite lookup_view. unfold get. by rewrite Hl.
Qed.

Lemma recordEvent_ok st e : cache_consistent base st → (e.1 ≠ Deleted → served e.2) →
  cache_consistent base (recordEvent st e) ∧ view (recordEvent st e) = apply_event (view st) e.
Proof.
  destruct e as [ev un]. intros HI Hun. unfold recordEvent, apply_event. cbn [fst snd] in *.
  destruct (processEvent_ok ev un st HI Hun) as [HI' Hv].
  destruct ev; [by rewrite bool_decide_false|rewrite bool_decide_true by done|by rewrite bool_decide_false].
  cbn [andb]. by destruct (skipAppRequeuing _).
Qed.

Lemma recordEvents_ok es st : cache_consistent base st → Forall (λ e, e.1 ≠ Deleted → served e.2) es →
  cache_consistent base (foldl recordEvent st es) ∧ view (foldl recordEvent st es) = foldl apply_event (view st) es.
Proof.
  intros HI Hes. revert st HI. induction Hes as [|e es He _ IH]; intros st HI; [done|]. cbn [foldl].
  destruct (recordEvent_ok st e HI He) as [HI' <-]. by apply IH.
Qed.

(** *** Listings *)

Lemma update_existing_ok st r : cache_consistent base st → claim_ok r →
  cache_consistent base (update_existing st r) ∧
  view (update_existing st r) =
    (if decide (ResVersion <$> view st !! Resource_Key r = Some (ResVersion r)) then view st
     else <[Resource_Key r := core r]> (view st)).
Proof.
  intros HI Hr. unfold update_existing. rewrite lookup_view.
  destruct (get st (Resource_Key r)) as [old|] eqn:Hold; cbn [fmap option_fmap option_map].
  - change (ResVersion (core old)) with (ResVersion old). destruct (String.eqb_spec (ResVersion old) (ResVersion r)) as [->|Hne].
    + by rewrite decide_True.
    + rewrite decide_False by congruence. by apply onNodeUpdated_ok.
  - rewrite decide_False by done. by apply onNodeUpdated_ok.
Qed.

(** The cached resource stays when it has the listed version. *)
Definition listed_version (old : option Resource) (r : Resource) : Resource :=
  match old with Some o => if decide (ResVersion o = ResVersion r) then o else core r | None => core r end.

Lemma updates_ok rs st : cache_consistent base st → Forall claim_ok rs → NoDup (Resource_Key <$> rs) →
  cache_consistent base (foldl update_existing st rs) ∧
  (∀ k, k ∉ Resource_Key <$> rs → view (foldl update_existing st rs) !! k = view st !! k) ∧
  (∀ r, r ∈ rs → view (foldl update_existing st rs) !! Resource_Key r = Some (listed_version (view st !! Resource_Key r) r)).
Proof.
  intros HI Hrs Hnd. revert st HI. induction Hrs as [|r rs Hr _ IH]; intros st HI.
  { split; [done|]. split; [done|]. by intros r ?%elem_of_nil. }
  rewrite fmap_cons in *. apply NoDup_cons in Hnd as [Hout Hnd]. cbn [foldl].
  destruct (update_existing_ok st r HI Hr) as [HI' Hv]. destruct (IH Hnd _ HI') as (HI2&Hother&Hin). split; [done|].
  assert (∀ k, k ≠ Resource_Key r → view (update_existing st r) !! k = view st !! k) as Hne.
  { intros k Hk. rewrite Hv. case_decide; [done|]. by rewrite lookup_insert_ne by done. }
  split.
  - intros k Hk. rewrite elem_of_cons in Hk. rewrite Hother, Hne by naive_solver. done.
  - intros r' [->|Hr']%elem_of_cons.
    + rewrite Hother, Hv by done. unfold listed_version. destruct (view st !! Resource_Key r) as [o|] eqn:Ho;
        cbn [fmap option_fmap option_map]; repeat case_decide; rewrite ?lookup_insert_eq; congruence.
    + rewrite Hin, Hne; [done| |done]. intros Heq. apply Hout. rewrite <-Heq. by apply list_elem_of_fmap_2.
Qed.

Lemma removals_ok (P : ResourceKey → bool) es st : cache_consistent base st →
  let st' := foldl (λ st (e : ResourceKey * positive), if P e.1 then onNodeRemoved e.1 st else st) st es in
  cache_consistent base st' ∧ ∀ k, view st' !! k = if decide (k ∈ es.*1 ∧ P k = true) then None else view st !! k.
Proof.
  revert st. induction es as [|[k0 l0] es IH]; intros st HI; cbn [foldl].
  { split; [done|]. intros k. rewrite decide_False; [done|]. by intros [?%elem_of_nil _]. }
  rewrite fmap_cons. cbn [fst]. destruct (P k0) eqn:HP.
  - destruct (onNodeRemoved_ok k0 st HI) as [HI' Hv]. destruct (IH _ HI') as [HI2 Hk]. split; [done|].
    intros k. rewrite Hk, Hv. destruct (decide (k = k0)) as [->|Hne].
    + rewrite lookup_delete_eq. destruct (decide (k0 ∈ es.*1 ∧ P k0 = true)), (decide (k0 ∈ k0 :: es.*1 ∧ P k0 = true))
        as [|[]]; try done; (split; [by left|done]).
    + rewrite lookup_delete_ne by done. apply decide_ext. rewrite elem_of_cons. naive_solver.
  - destruct (IH _ HI) as [HI2 Hk]. split; [done|]. intros k. rewrite Hk. apply decide_ext.
    rewrite elem_of_cons. split; [by intros [? ?]; split; [right|]|]. intros [[Heq|?] ?]; [congruence|done].
Qed.

Lemma replaceResourceCache_ok group kind listed ns st :
  cache_consistent base st → Forall claim_ok listed → NoDup (Resource_Key <$> listed) →
  let st' := replaceResourceCache group kind listed ns st in
  cache_consistent base st' ∧
  (∀ r, r ∈ listed → view st' !! Resource_Key r = Some (listed_version (view st !! Resource_Key r) r)) ∧
  ∀ k, k ∉ Resource_Key <$> listed → view st' !! k = if listed_by group kind ns k then None else view st !! k.
Proof.
  intros HI Hl Hnd. unfold replaceResourceCache. destruct (updates_ok listed st HI Hl Hnd) as (HI1&Hother&Hin).
  set (st1 := foldl update_existing st listed) in *.
  set (objs := list_to_map _ : key_set).
  assert (∀ k, objs !! k = None ↔ k ∉ Resource_Key <$> listed) as Hobjs.
  { intros k. unfold objs. rewrite <-(not_elem_of_list_to_map (M := gmap ResourceKey)), <-list_fmap_compose. done. }
  destruct (removals_ok (λ k, listed_by group kind ns k && bool_decide (objs !! k = None)) (go_range (resources st1)) st1 HI1)
    as [HI2 Hk]. split; [exact HI2|]. split.
  - intros r Hr. rewrite Hk, decide_False; [by apply Hin|].
    intros [_ [_ Hb%bool_decide_eq_true]%andb_true_iff]. apply Hobjs in Hb. by apply Hb, list_elem_of_fmap_2.
  - intros k Hout. rewrite Hk, (bool_decide_true _ (proj2 (Hobjs k) Hout)), andb_true_r, Hother by done.
    destruct (listed_by group kind ns k); [|by rewrite decide_False by naive_solver]. case_decide as Hd; [done|].
    rewrite <-Hother, lookup_view by done. unfold get. destruct (resources st1 !! k) as [l|] eqn:El; [|done].
    destruct Hd. split; [|done]. apply list_elem_of_fmap. exists (k, l). split; [done|]. by apply elem_of_go_range.
Qed.

Lemma processEventsBatch_ok es st : cache_consistent base st → Forall (λ e, e.1 ≠ Deleted → served e.2) es →
  cache_consistent base (processEventsBatch es st).
Proof.
  unfold processEventsBatch. intros HI Hes. revert st HI. induction Hes as [|[ev un] es He _ IH]; intros st HI; [done|].
  cbn [foldl fst snd]. apply IH. by apply processEvent_ok.
Qed.
End updates.

(** *** Histories *)

Section histories.
Context {R : GoRuntime} `{CL : CacheLib}.

(** What changes the cache and tells the handlers: events, one by one or in batches, and
    listings of an API *)
Inductive cache_change (st : cache_state) : cache_state → Prop :=
  | change_event e : (e.1 ≠ Deleted → served e.2) → cache_change st (recordEvent st e)
  | change_batch es : Forall (λ e, e.1 ≠ Deleted → served e.2) es → cache_change st (processEventsBatch es st)
  | change_listing group kind listed ns :
      Forall claim_ok listed → NoDup (Resource_Key <$> listed) →
      cache_change st (replaceResourceCache group kind listed ns st).

(** The cache between its operations: changes, and synchronisations that start it over *)
Inductive cache_step (st : cache_state) : cache_state → Prop :=
  | step_change st' : cache_change st st' → cache_step st st'
  | step_sync listed : Forall served listed → cache_step st (sync listed st).

Lemma step_event st e : (e.1 ≠ Deleted → served e.2) → cache_step st (recordEvent st e).
Proof. intros He. by apply step_change, change_event. Qed.

Lemma change_consistent base st st' : cache_change st st' → cache_consistent base st → cache_consistent base st'.
Proof.
  intros [e He|es Hes|group kind listed ns Hl Hnd] HI.
  - by apply recordEvent_ok.
  - by apply processEventsBatch_ok.
  - by apply replaceResourceCache_ok.
Qed.

Lemma changes_consistent st st' : rtc cache_change st st' → cache_ok st → cache_consistent st st'.
Proof.
  intros H HI. revert st' H. apply (rtc_ind_r (R := cache_change) (cache_consistent st) st); [by split|].
  intros s s' _ Hs. by apply change_consistent.
Qed.

Lemma reset_cache_ok st : cache_ok (reset_cache st).
Proof. by destruct empty_cache_ok. Qed.

(** A synchronisation builds the cache from the listed objects alone. *)
Lemma sync_ok listed st : Forall served listed →
  cache_ok (sync listed st) ∧ notified (sync listed st) = notified st ∧
  view (sync listed st) = foldl (λ m un, <[GetResourceKey un := core (newResource un)]> m) ∅ listed.
Proof.
  intros Hl. unfold sync. assert (view (reset_cache st) = ∅) as <-.
  { apply map_eq. intros k. by rewrite lookup_view, lookup_empty. }
  rewrite <-(eq_refl : notified (reset_cache st) = notified st).
  generalize (reset_cache_ok st). generalize (reset_cache st). clear st.
  induction Hl as [|un listed Hun _ IH]; intros st HI; [done|]. cbn [foldl].
  destruct (setNode_ok (newResource un) st HI) as (HI'&Hv&Hnt); [apply Hun|].
  rewrite newResource_key in Hv by done. rewrite <-Hv, <-Hnt. by apply IH.
Qed.

Lemma reachable_consistent st : rtc cache_step empty_cache st → cache_ok st.
Proof.
  intros H. revert H. apply (rtc_ind_r (R := cache_step) (λ st, cache_ok st) empty_cache); [apply empty_cache_ok|].
  intros s s' _ [s2 Hs|listed Hl] HI; [by apply (change_consistent s s)|by apply sync_ok].
Qed.
End histories.

(** C23. Whatever events and listings arrive and whenever the cache synchronises, its indexes
    agree: the namespace index is the partition of the resources by namespace, without empty
    namespaces; the index of children has a child under a UID exactly if an owner reference
    of the cached child holds it, without empty sets.  Between synchronisations, the calls of
    the handlers, in order, turn what the cache held into what it holds; a synchronisation
    calls no handler, and leaves exactly the listed objects, each as last listed. *)
Theorem cache_indexes_agree `{R : GoRuntime, CL : CacheLib} st (Hst : rtc cache_step empty_cache st) :
  (∀ ns k l, (∃ m, nsIndex st !! ns = Some m ∧ m !! k = Some l) ↔ resources st !! k = Some l ∧ key_Namespace k = ns) ∧
  (∀ ns m, nsIndex st !! ns = Some m → m ≠ ∅) ∧
  (∀ uid k, (∃ s, parentUIDToChildren st !! uid = Some s ∧ s !! k = Some ()) ↔
    ∃ r, get st k = Some r ∧ uid ≠ "" ∧ uid ∈ OwnerUID <$> OwnerRefs r) ∧
  (∀ uid s, parentUIDToChildren st !! uid = Some s → s ≠ ∅) ∧
  (∀ k, is_Some (get st k) ↔ is_Some (resources st !! k)) ∧
  (∀ k r, get st k = Some r → Resource_Key r = k) ∧
  (∀ st', rtc cache_change st st' →
    ∃ calls, notified st' = notified st ++ calls ∧ foldl replay (view st) calls = view st') ∧
  (∀ listed, Forall served listed →
    notified (sync listed st) = notified st ∧
    view (sync listed st) = foldl (λ m un, <[GetResourceKey un := core (newResource un)]> m) ∅ listed).
Proof.
  pose proof (reachable_consistent st Hst) as HI. split_and!; [|apply (inv_ns_full _ _ HI)| |apply (inv_sets _ _ HI)| | | |].
  - intros ns k l. rewrite <-(inv_ns _ _ HI). destruct (nsIndex st !! ns); naive_solver.
  - intros uid k. pose proof (inv_rows _ _ HI uid k) as Hrow. unfold row in Hrow.
    setoid_rewrite elem_of_owner_uids in Hrow. destruct (parentUIDToChildren st !! uid); naive_solver.
  - intros k. by apply (get_is_Some _ _ _ HI).
  - intros k r. by apply (get_key _ _ _ _ HI).
  - intros st' Hst'. by apply (changes_consistent st st' Hst' HI).
  - intros listed Hl. by apply sync_ok.
Qed.

(** C30. The cache follows the cluster: after any events it holds, resource by resource, what
    the last event for the resource says (nothing after a deletion), owners aside, and only
    modifications of endpoints are ignored. *)
Theorem cache_follows_events `{R : GoRuntime, CL : CacheLib} st es (Hst : rtc cache_step empty_cache st)
    (Hes : Forall (λ e, e.1 ≠ Deleted → served e.2) es) :
  view (foldl recordEvent st es) = foldl apply_event (view st) es.
Proof. apply (recordEvents_ok st); [|done]. split; [by apply reachable_consistent|done]. Qed.

(** A listing of an API replaces exactly its part of the cache: each listed resource is
    cached, in the listed version or as it was if it had that version already; resources of
    the API, in the listed namespace, that were not listed are gone; all others stay. *)
Theorem listing_replaces_the_api `{R : GoRuntime, CL : CacheLib} st group kind listed ns
    (Hst : rtc cache_step empty_cache st) (Hclaims : Forall claim_ok listed) (Hkeys : NoDup (Resource_Key <$> listed)) :
  let st' := replaceResourceCache group kind listed ns st in
  (∀ r, r ∈ listed → view st' !! Resource_Key r = Some (listed_version (view st !! Resource_Key r) r)) ∧
  ∀ k, k ∉ Resource_Key <$> listed → view st' !! k = if listed_by group kind ns k then None else view st !! k.
Proof. apply (replaceResourceCache_ok st); [|done..]. split; [by apply reachable_consistent|done]. Qed.
