(* ===== verification/Hierarchy.v ===== *)
(** * The hierarchy of the cached resources

    [IterateHierarchyV2] of the cluster cache (src/gitops-engine/pkg/cache/cluster.go)
    calls an action on given resources and on what they own: first within each
    namespace, over a graph built from the owner references, then from the
    cluster-scoped resources into the namespaces, over the index of children.

    The action is a predicate on resources, and the calls it gets are logged.  Its
    second argument, the namespace of the resource, is left out. *)

From S2P Require Import Prelude GoStd Kube ClusterCache.
Local Open Scope string_scope.
Local Open Scope list_scope.
Local Open Scope nat_scope.

(** ** The graph of a namespace *)

Notation nodes := (gmap ResourceKey Resource).
(** For each parent its children by UID *)
Notation owner_graph := (gmap ResourceKey (gmap string Resource)).

(** The resources of a namespace *)
Definition ns_nodes (st : cache_state) (ns : string) : nodes := omap (λ l, heap st !! l) (default ∅ (nsIndex st !! ns)).

Definition add_uid (m : gmap string (list Resource)) (node : Resource) : gmap string (list Resource) :=
  <[RefUID (Ref node) := default [] (m !! RefUID (Ref node)) ++ [node]]> m.

(** The UID an owner reference stands for: an empty one is looked up by name. *)
Definition ownerUID (nsNodes : nodes) (childNode : Resource) (ownerRef : OwnerReference) : option string :=
  if String.eqb (OwnerUID ownerRef) "" then
    group ← ParseGroup (OwnerAPIVersion ownerRef);
    graphKeyNode ← nsNodes !! NewResourceKey group (OwnerKind ownerRef) (RefNamespace (Ref childNode)) (OwnerName ownerRef);
    Some (RefUID (Ref graphKeyNode))
  else Some (OwnerUID ownerRef).

(** Of two children with one UID the graph keeps the one whose key prints first. *)
Definition add_edge (childNode : Resource) (graph : owner_graph) (uidNode : Resource) : owner_graph :=
  let uidNodeKey := Resource_Key uidNode in
  let row := default ∅ (graph !! uidNodeKey) in
  let uid := RefUID (Ref childNode) in
  match row !! uid with
  | None => <[uidNodeKey := <[uid := childNode]> row]> graph
  | Some r =>
      if String.ltb (ResourceKey_String (Resource_Key childNode)) (ResourceKey_String (Resource_Key r))
      then <[uidNodeKey := <[uid := childNode]> row]> graph
      else <[uidNodeKey := row]> graph
  end.

Definition add_owner (nsNodes : nodes) (nodesByUID : gmap string (list Resource)) (childNode : Resource)
    (graph : owner_graph) (ownerRef : OwnerReference) : owner_graph :=
  match ownerUID nsNodes childNode ownerRef with
  | None => graph
  | Some uid => foldl (add_edge childNode) graph (default [] (nodesByUID !! uid))
  end.

Section hierarchy.
Context {R : GoRuntime}.

Definition buildGraph (nsNodes : nodes) : owner_graph :=
  let nodesByUID := foldl add_uid ∅ (go_range nsNodes).*2 in
  foldl (λ graph childNode, foldl (add_owner nsNodes nodesByUID childNode) graph (OwnerRefs childNode))
    ∅ (go_range nsNodes).*2.

(** ** The walk *)

Inductive callState := notCalled | inProgress | completed.

#[export] Instance callState_eq_dec : EqDecision callState.
Proof. solve_decision. Defined.

(** [actionCallState], and the resources the action was called on *)
Record walk_state := { actionCallState : gmap ResourceKey callState; calls : list Resource }.

Definition call_state (s : walk_state) (key : ResourceKey) : callState := default notCalled (actionCallState s !! key).
Definition mark (key : ResourceKey) (c : callState) (s : walk_state) : walk_state :=
  {| actionCallState := <[key := c]> (actionCallState s); calls := calls s |}.
Definition log (r : Resource) (s : walk_state) : walk_state :=
  {| actionCallState := actionCallState s; calls := calls s ++ [r] |}.

(** A loop whose body can run out of fuel *)
Definition for_each {A} (f : A → walk_state → option walk_state) (l : list A) (s : walk_state) : option walk_state :=
  foldl (λ os a, os ≫= f a) (Some s) l.

Context (st : cache_state) (action : Resource → bool).

Fixpoint iterateChildrenV2 (fuel : nat) (graph : owner_graph) (r : Resource) (s : walk_state) : option walk_state :=
  match fuel with
  | 0 => None
  | S fuel =>
      let key := Resource_Key r in
      if decide (call_state s key = completed) then Some s
      else
        s ← for_each (λ child s,
               let childKey := Resource_Key child in
               match call_state s childKey with
               | notCalled =>
                   let s := log child s in
                   if action child then iterateChildrenV2 fuel graph child s else Some s
               | _ => Some s   (* a circular dependency is logged; a completed child is skipped *)
               end) (go_range (default ∅ (graph !! key))).*2 (mark key inProgress s);
        Some (mark key completed s)
  end.

Definition processNamespaceHierarchy (fuel : nat) (namespaceKeys : list ResourceKey) (graph : owner_graph)
    (s : walk_state) : option walk_state :=
  for_each (λ key s,
    match get st key with
    | None => Some s
    | Some res =>
        if decide (call_state s key = completed) then Some s
        else
          let s := log res s in
          if action res then
            s ← for_each (λ child s,
                   if decide (call_state s (Resource_Key child) = notCalled) then
                     let s := log child s in
                     if action child then iterateChildrenV2 fuel graph child s else Some s
                   else Some s) (go_range (default ∅ (graph !! key))).*2 (mark key inProgress s);
            Some (mark key completed s)
          else Some s
    end) namespaceKeys s.

(** The keys of the index under a UID *)
Definition children_of (uid : string) : list ResourceKey := (go_range (default ∅ (parentUIDToChildren st !! uid))).*1.

Fixpoint iterateChildrenUsingIndex (fuel : nat) (parent : Resource) (s : walk_state) : option walk_state :=
  match fuel with
  | 0 => None
  | S fuel =>
      for_each (λ childKey s,
        if decide (call_state s childKey ≠ notCalled) then Some s
        else match get st childKey with
             | None => Some s
             | Some child =>
                 if negb (String.eqb (RefNamespace (Ref child)) (RefNamespace (Ref parent))) then Some s
                 else
                   let s := log child s in
                   if action child then
                     s ← iterateChildrenUsingIndex fuel child (mark childKey inProgress s);
                     Some (mark childKey completed s)
                   else Some s
             end) (children_of (RefUID (Ref parent))) s
  end.

(** [crossNSTraversed], with the walk *)
Notation cross_state := (key_set * walk_state)%type.

(** One child in the inner loop of [processCrossNamespaceChildren]; [recurse] is the
    call of the function on the child alone. *)
Definition cross_child (fuel : nat) (recurse : ResourceKey → cross_state → option cross_state) (childKey : ResourceKey)
    (x : cross_state) : option cross_state :=
  match get st childKey with
  | None => Some x
  | Some child =>
      if decide (call_state x.2 childKey ≠ notCalled) then
        if String.eqb (key_Namespace childKey) "" then recurse childKey x else Some x
      else match nsIndex st !! key_Namespace childKey with
           | None => Some x
           | Some _ =>
               let s := log child x.2 in
               if action child then
                 s ← iterateChildrenUsingIndex fuel child (mark childKey inProgress s);
                 x ← (if String.eqb (key_Namespace childKey) "" then recurse childKey (x.1, s) else Some (x.1, s));
                 Some (x.1, mark childKey completed x.2)
               else Some (x.1, s)
           end
  end.

(** One key of the outer loop *)
Fixpoint cross_key (fuel : nat) (clusterKey : ResourceKey) (x : cross_state) : option cross_state :=
  match fuel with
  | 0 => None
  | S fuel =>
      if decide (x.1 !! clusterKey = Some ()) then Some x
      else
        let x := (<[clusterKey := ()]> x.1, x.2) in
        match get st clusterKey with
        | None => Some x
        | Some clusterResource =>
            foldl (λ ox childKey, ox ≫= cross_child (S (size (resources st))) (cross_key fuel) childKey) (Some x)
              (children_of (RefUID (Ref clusterResource)))
        end
  end.

Definition processCrossNamespaceChildren (fuel : nat) (clusterScopedKeys : list ResourceKey) (x : cross_state) :
    option cross_state := foldl (λ ox k, ox ≫= cross_key fuel k) (Some x) clusterScopedKeys.

Definition group_key (m : gmap string (list ResourceKey)) (key : ResourceKey) : gmap string (list ResourceKey) :=
  match resources st !! key with
  | None => m
  | Some _ => <[key_Namespace key := default [] (m !! key_Namespace key) ++ [key]]> m
  end.

(** The recursions visit each resource at most once. *)
Definition walk_fuel : nat := S (size (resources st)).

Definition IterateHierarchyV2 (keys : list ResourceKey) : option walk_state :=
  let keysPerNamespace := foldl group_key ∅ keys in
  s ← for_each (λ e s, processNamespaceHierarchy walk_fuel e.2 (buildGraph (ns_nodes st e.1)) s)
        (go_range keysPerNamespace) {| actionCallState := ∅; calls := [] |};
  match keysPerNamespace !! "" with
  | Some clusterKeys => snd <$> processCrossNamespaceChildren walk_fuel clusterKeys (∅, s)
  | None => Some s
  end.
End hierarchy.
