(* ===== verification/HierarchyGraph.v ===== *)
(** * The hierarchy of the cached resources: the graph of a namespace and walks

    The graph has an edge from a resource to its children, one child for each UID,
    and which one it is does not depend on the order of the maps.  The walks over the graph
    and over the index have one shape: the action is called on each child it was not yet
    called on successfully, and the walk goes down where the action agrees. *)

From S2P Require Import Prelude GoStd Kube ClusterCache ClusterCacheProofs Hierarchy.
From Stdlib Require Import OrderedTypeEx.
Local Open Scope string_scope.
Local Open Scope list_scope.
Local Open Scope nat_scope.

(** ** The order of printed keys *)

Definition prints_before (a b : Resource) : bool :=
  String.ltb (ResourceKey_String (Resource_Key a)) (ResourceKey_String (Resource_Key b)).

Lemma ltb_lt a b : String.ltb a b = true ↔ String_as_OT.lt a b.
Proof.
  rewrite <-String_as_OT.cmp_lt. unfold String.ltb, String_as_OT.cmp.
  change String_as_OT.cmp with String.compare. by destruct (String.compare a b).
Qed.

(** ** One parent and one UID *)

(** The child the graph keeps when it meets another *)
Definition pick (o : option Resource) (c : Resource) : option Resource :=
  match o with
  | None => Some c
  | Some r => Some (if prints_before c r then c else r)
  end.

Definition row_of (g : owner_graph) (pk : ResourceKey) (uid : string) : option Resource := g !! pk ≫= lookup uid.

Lemma row_add_edge c g p pk uid :
  row_of (add_edge c g p) pk uid =
    if decide (pk = Resource_Key p ∧ uid = RefUID (Ref c)) then pick (row_of g pk uid) c else row_of g pk uid.
Proof.
  unfold row_of, add_edge. fold (prints_before c).
  destruct (decide (pk = Resource_Key p)) as [->|Hpk].
  - destruct (g !! Resource_Key p) as [row|] eqn:Eg; cbn [default from_option id mbind option_bind].
    + destruct (decide (uid = RefUID (Ref c))) as [->|Hu].
      * rewrite decide_True by done. destruct (row !! RefUID (Ref c)) as [r|] eqn:Er; cbn [pick].
        -- unfold prints_before. case_match; rewrite lookup_insert_eq; cbn [mbind option_bind]; [by rewrite lookup_insert_eq|done].
        -- rewrite lookup_insert_eq. cbn. by rewrite lookup_insert_eq.
      * rewrite decide_False by naive_solver.
        destruct (row !! RefUID (Ref c)) as [r|]; repeat case_match; rewrite lookup_insert_eq; cbn [mbind option_bind];
          by rewrite ?lookup_insert_ne by done.
    + rewrite lookup_empty, lookup_insert_eq. cbn [mbind option_bind].
      destruct (decide (uid = RefUID (Ref c))) as [->|Hu].
      * rewrite decide_True by done. by rewrite lookup_insert_eq.
      * rewrite decide_False by naive_solver. by rewrite lookup_insert_ne, lookup_empty by done.
  - rewrite decide_False by naive_solver. repeat case_match; by rewrite lookup_insert_ne by done.
Qed.

(** ** All edges *)

(** The pairs of a parent and a child in the order they are met *)
Definition graph_edges (nsNodes : nodes) (byUID : gmap string (list Resource)) (cs : list Resource) :
    list (Resource * Resource) :=
  c ← cs; ref ← OwnerRefs c;
  p ← (match ownerUID nsNodes c ref with Some uid => default [] (byUID !! uid) | None => [] end); [(p, c)].

Lemma foldl_bind {A B S} (f : S → B → S) (g : A → list B) l s :
  foldl f s (l ≫= g) = foldl (λ s a, foldl f s (g a)) s l.
Proof. revert s. induction l as [|a l IH]; intros s; [done|]. rewrite bind_cons, foldl_app. cbn [foldl]. apply IH. Qed.

Lemma buildGraph_edges `{R : GoRuntime} nsNodes :
  buildGraph nsNodes =
    foldl (λ g e, add_edge e.2 g e.1) ∅
      (graph_edges nsNodes (foldl add_uid ∅ (go_range nsNodes).*2) (go_range nsNodes).*2).
Proof.
  unfold buildGraph, graph_edges. rewrite foldl_bind. generalize (@empty owner_graph _).
  generalize (foldl add_uid ∅ (go_range nsNodes).*2). intros byUID.
  induction (go_range nsNodes).*2 as [|c cs IH]; intros g; [done|]. cbn [foldl]. rewrite IH. f_equal. clear IH.
  rewrite foldl_bind. revert g. induction (OwnerRefs c) as [|ref refs IH]; intros g; [done|]. cbn [foldl].
  rewrite <-IH. f_equal. unfold add_owner. rewrite foldl_bind. by destruct (ownerUID nsNodes c ref).
Qed.

Lemma row_edges g es pk uid :
  row_of (foldl (λ g (e : Resource * Resource), add_edge e.2 g e.1) g es) pk uid =
    foldl pick (row_of g pk uid) (filter (λ e : Resource * Resource, Resource_Key e.1 = pk ∧ RefUID (Ref e.2) = uid) es).*2.
Proof.
  revert g. induction es as [|[p c] es IH]; intros g; [done|]. cbn [foldl fst snd]. rewrite IH, row_add_edge, filter_cons.
  cbn [fst snd]. destruct (decide (pk = Resource_Key p ∧ uid = RefUID (Ref c))) as [[-> ->]|Hne].
  - by rewrite decide_True by done.
  - rewrite (decide_False (P := Resource_Key p = pk ∧ _)) by naive_solver. done.
Qed.

Lemma picks_spec o cs r :
  foldl pick o cs = Some r →
  (o = Some r ∨ r ∈ cs) ∧ ∀ c, o = Some c ∨ c ∈ cs → prints_before c r = false.
Proof.
  unfold prints_before.
  assert (∀ a b c, String.ltb a b = false → String.ltb b c = false → String.ltb a c = false) as Htrans.
  { intros a b c Hab Hbc. destruct (String.ltb a c) eqn:Hac; [|done]. apply ltb_lt in Hac.
    destruct (String_as_OT.compare b a) as [H|H|H].
    - assert (String_as_OT.lt b c) as Hlt%ltb_lt by by eapply String_as_OT.lt_trans. congruence.
    - unfold String_as_OT.eq in H. subst b. apply ltb_lt in Hac. congruence.
    - apply ltb_lt in H. congruence. }
  assert (∀ a, String.ltb a a = false) as Hirr.
  { intros a. destruct (String.ltb a a) eqn:E; [|done]. apply ltb_lt in E. by apply String_as_OT.lt_not_eq in E. }
  assert (∀ a b, String.ltb a b = true → String.ltb b a = false) as Hasym.
  { intros a b Hab%ltb_lt. destruct (String.ltb b a) eqn:E; [|done]. apply ltb_lt in E.
    pose proof (String_as_OT.lt_trans _ _ _ Hab E) as H. by apply String_as_OT.lt_not_eq in H. }
  revert o. induction cs as [|c cs IH]; intros o; cbn [foldl].
  - intros ->. split; [by left|]. intros c [[= <-]|?%elem_of_nil]; [apply Hirr|done].
  - intros (Hin&Hleast)%IH. unfold pick, prints_before in Hin, Hleast. split.
    + destruct o as [q|]; [|destruct Hin as [[= <-]|?]; right; [left|by right]].
      destruct Hin as [[= <-]|?]; [|right; by right]. case_match; [right; by left|by left].
    + intros d Hd. rewrite elem_of_cons in Hd. destruct Hd as [->|[->|Hd]]; [| |apply Hleast; by right].
      * destruct (String.ltb (ResourceKey_String (Resource_Key c)) (ResourceKey_String (Resource_Key d))) eqn:E.
        -- eapply Htrans; [by apply Hasym|]. apply Hleast. by left.
        -- apply Hleast. by left.
      * destruct o as [q|]; [|apply Hleast; by left].
        destruct (String.ltb (ResourceKey_String (Resource_Key c)) (ResourceKey_String (Resource_Key q))) eqn:E.
        -- apply Hleast. by left.
        -- eapply Htrans; [exact E|]. apply Hleast. by left.
Qed.

Lemma picks_some o cs : is_Some o ∨ cs ≠ [] → is_Some (foldl pick o cs).
Proof.
  revert o. induction cs as [|c cs IH]; intros o [H|H]; cbn [foldl]; [done|done|..]; apply IH; left; by destruct o.
Qed.

(** ** What the graph holds *)

Lemma byUID_lookup ns m uid :
  default [] (foldl add_uid m ns !! uid) = default [] (m !! uid) ++ filter (λ n, RefUID (Ref n) = uid) ns.
Proof.
  revert m. induction ns as [|n ns IH]; intros m; cbn [foldl]; [by rewrite filter_nil, app_nil_r|].
  rewrite IH, filter_cons. unfold add_uid. destruct (decide (RefUID (Ref n) = uid)) as [<-|Hu].
  - rewrite lookup_insert_eq. cbn [default from_option id]. by rewrite <-app_assoc.
  - by rewrite lookup_insert_ne.
Qed.

(** The resource is in the namespace. *)
Definition in_nodes (nsNodes : nodes) (r : Resource) : Prop := ∃ k, nsNodes !! k = Some r.

(** One of the child's owner references stands for the parent. *)
Definition owned (nsNodes : nodes) (p c : Resource) : Prop :=
  in_nodes nsNodes p ∧ in_nodes nsNodes c ∧
  ∃ ref, ref ∈ OwnerRefs c ∧ ownerUID nsNodes c ref = Some (RefUID (Ref p)).

Section graph.
Context {R : GoRuntime}.

Lemma elem_of_range_snd nsNodes r : r ∈ (go_range nsNodes).*2 ↔ in_nodes nsNodes r.
Proof.
  rewrite list_elem_of_fmap. unfold in_nodes. split.
  - intros ([k v]&->&Hin%elem_of_go_range). by exists k.
  - intros [k Hk]. exists (k, r). by rewrite elem_of_go_range.
Qed.

Lemma elem_of_edges nsNodes p c :
  (p, c) ∈ graph_edges nsNodes (foldl add_uid ∅ (go_range nsNodes).*2) (go_range nsNodes).*2 ↔ owned nsNodes p c.
Proof.
  unfold graph_edges, owned. rewrite list_elem_of_bind. setoid_rewrite list_elem_of_bind. setoid_rewrite list_elem_of_bind.
  setoid_rewrite list_elem_of_singleton. setoid_rewrite elem_of_range_snd.
  assert (∀ uid q, q ∈ default [] (foldl add_uid ∅ (go_range nsNodes).*2 !! uid) ↔ in_nodes nsNodes q ∧ RefUID (Ref q) = uid) as H.
  { intros uid q. rewrite byUID_lookup, lookup_empty. cbn [default from_option app].
    rewrite list_elem_of_filter, elem_of_range_snd. tauto. }
  split.
  - intros (c'&(ref&(q&Heq&Hq)&Hr)&Hc). injection Heq as <- <-.
    destruct (ownerUID nsNodes c ref) as [uid|] eqn:E; [|by apply elem_of_nil in Hq]. apply H in Hq as [Hq <-]. eauto 10.
  - intros (Hp&Hc&ref&Hr&E). exists c. split; [|done]. exists ref. split; [|done]. exists p. split; [done|].
    rewrite E. by apply H.
Qed.

(** The children the graph chooses from *)
Definition candidate nsNodes pk uid c : Prop := ∃ p, owned nsNodes p c ∧ Resource_Key p = pk ∧ RefUID (Ref c) = uid.

Lemma buildGraph_row nsNodes pk uid :
  match row_of (buildGraph nsNodes) pk uid with
  | Some r => candidate nsNodes pk uid r ∧ ∀ c, candidate nsNodes pk uid c → prints_before c r = false
  | None => ∀ c, ¬ candidate nsNodes pk uid c
  end.
Proof.
  rewrite buildGraph_edges, row_edges. set (es := graph_edges _ _ _). set (cs := (filter _ es).*2).
  assert (∀ c, c ∈ cs ↔ candidate nsNodes pk uid c) as Hcs.
  { intros c. unfold cs, candidate. rewrite list_elem_of_fmap. setoid_rewrite list_elem_of_filter. split.
    - intros ([p c']&->&[? ?]&Hin). unfold es in Hin. rewrite elem_of_edges in Hin. by exists p.
    - intros (p&Ho&?&?). exists (p, c). unfold es. by rewrite elem_of_edges. }
  replace (row_of ∅ pk uid) with (@None Resource) by (unfold row_of; by rewrite lookup_empty).
  destruct (foldl pick None cs) as [r|] eqn:E.
  - apply picks_spec in E as [[?|Hr] Hleast]; [done|]. split; [by apply Hcs|]. intros c Hc%Hcs. apply Hleast. by right.
  - intros c Hc%Hcs. destruct (picks_some None cs) as [? H]; [|congruence]. right. by intros ->; apply elem_of_nil in Hc.
Qed.
End graph.

Lemma prints_before_total a b :
  prints_before a b = false → prints_before b a = false →
  ResourceKey_String (Resource_Key a) = ResourceKey_String (Resource_Key b).
Proof.
  unfold prints_before. intros Hab Hba.
  destruct (String_as_OT.compare (ResourceKey_String (Resource_Key a)) (ResourceKey_String (Resource_Key b))) as [H|H|H];
    [apply ltb_lt in H; congruence|done|apply ltb_lt in H; congruence].
Qed.

(** The children of a resource in the graph do not depend on the order in which the
    maps are walked: two refreshes see the same child, also where several children have
    one UID, as a resource served by two API groups has. *)
Theorem buildGraph_same_every_refresh (R1 R2 : GoRuntime) (nsNodes : nodes)
    (Hkeys : ∀ k r, nsNodes !! k = Some r → Resource_Key r = k)
    (Hprint : ∀ k1 k2, is_Some (nsNodes !! k1) → is_Some (nsNodes !! k2) →
                ResourceKey_String k1 = ResourceKey_String k2 → k1 = k2) pk uid :
  (@buildGraph R1 nsNodes !! pk ≫= lookup uid) = (@buildGraph R2 nsNodes !! pk ≫= lookup uid).
Proof.
  pose proof (@buildGraph_row R1 nsNodes pk uid) as H1. pose proof (@buildGraph_row R2 nsNodes pk uid) as H2.
  unfold row_of in *. destruct (@buildGraph R1 nsNodes !! pk ≫= _) as [r1|], (@buildGraph R2 nsNodes !! pk ≫= _) as [r2|];
    [|naive_solver..|done].
  destruct H1 as [Hc1 Hl1], H2 as [Hc2 Hl2]. f_equal.
  assert (∀ r, candidate nsNodes pk uid r → nsNodes !! Resource_Key r = Some r) as Hin.
  { intros r (p&(_&[k Hk]&_)&_). by rewrite (Hkeys _ _ Hk). }
  assert (Resource_Key r1 = Resource_Key r2) as Heq.
  { apply Hprint; [rewrite Hin by done; by eexists..|]. by apply prints_before_total; [apply Hl2|apply Hl1]. }
  apply Hin in Hc1, Hc2. congruence.
Qed.

(** ** Loops that can run out of fuel *)

Lemma foldl_option_None {A S} (f : A → S → option S) l : foldl (λ os a, os ≫= f a) None l = None.
Proof. induction l as [|a l IH]; [done|]. exact IH. Qed.

Lemma for_each_cons {A} (f : A → walk_state → option walk_state) a l s :
  for_each f (a :: l) s = f a s ≫= for_each f l.
Proof. unfold for_each. cbn [foldl mbind option_bind]. destruct (f a s); [done|]. apply foldl_option_None. Qed.

(** A loop that does the same as one that ends *)
Lemma for_each_sim {A} (I : walk_state → Prop) (f g : A → walk_state → option walk_state) l s s' :
  (∀ a s s', a ∈ l → I s → f a s = Some s' → g a s = Some s' ∧ I s') →
  I s → for_each f l s = Some s' → for_each g l s = Some s' ∧ I s'.
Proof.
  revert s. induction l as [|a l IH]; intros s Hfg HI; [by intros [= <-]|]. rewrite !for_each_cons.
  destruct (f a s) as [s1|] eqn:E; [|done]. cbn [mbind option_bind].
  destruct (Hfg a s s1 (list_elem_of_here _ _) HI E) as [-> HI1]. cbn [mbind option_bind].
  apply IH; [|done]. intros. apply Hfg; [by right|done..].
Qed.

Lemma for_each_omap {A B} (g : A → option B) (f : B → walk_state → option walk_state) l s :
  for_each f (omap g l) s = for_each (λ a s, match g a with Some b => f b s | None => Some s end) l s.
Proof.
  revert s. induction l as [|a l IH]; intros s; [done|]. rewrite for_each_cons. cbn [omap list_omap].
  destruct (g a) as [b|]; [rewrite for_each_cons|by rewrite IH]. destruct (f b s); [|done]. apply IH.
Qed.

(** ** The calls of the action *)

Section calls.
Context (action : Resource → bool).

(** The action was called on the key. *)
Definition called (s : walk_state) (k : ResourceKey) : Prop := k ∈ Resource_Key <$> calls s.

(** The keys on which the action agreed *)
Definition agreed (s : walk_state) : list ResourceKey :=
  Resource_Key <$> filter (λ r, action r = true) (calls s).

Lemma call_state_mark s k c k' : call_state (mark k c s) k' = if decide (k' = k) then c else call_state s k'.
Proof.
  unfold call_state. cbn [mark actionCallState]. case_decide as Hk; [subst k'; by rewrite lookup_insert_eq|].
  by rewrite lookup_insert_ne.
Qed.

(** The states are those of the calls, and the action agrees at most once on a key. *)
Record walk_ok (s : walk_state) : Prop := {
  ok_states : ∀ k, call_state s k ≠ notCalled ↔ k ∈ agreed s;
  ok_once : NoDup (agreed s);
}.

Lemma agreed_log s r : agreed (log r s) = agreed s ++ if action r then [Resource_Key r] else [].
Proof.
  unfold agreed. cbn [log calls]. rewrite filter_app, fmap_app. f_equal. rewrite filter_cons, filter_nil.
  destruct (action r); [by rewrite decide_True|by rewrite decide_False].
Qed.

Lemma agreed_called s k : k ∈ agreed s → called s k.
Proof.
  unfold agreed, called. rewrite !list_elem_of_fmap. intros (r&->&[_ Hr]%list_elem_of_filter). eauto.
Qed.

(** After the action is called and agrees *)
Lemma walk_ok_enter s r :
  walk_ok s → call_state s (Resource_Key r) = notCalled → action r = true →
  walk_ok (mark (Resource_Key r) inProgress (log r s)).
Proof.
  intros [Hs Hnd] Hnc Ha.
  assert (agreed (mark (Resource_Key r) inProgress (log r s)) = agreed s ++ [Resource_Key r]) as He.
  { change (agreed (mark _ _ (log r s))) with (agreed (log r s)). by rewrite agreed_log, Ha. }
  assert (Resource_Key r ∉ agreed s) as Hout by (intros Hin%Hs; done). split; rewrite He.
  - intros k. rewrite call_state_mark, elem_of_app, list_elem_of_singleton, <-Hs. change (call_state (log r s) k) with (call_state s k).
    case_decide; naive_solver.
  - apply NoDup_app. split_and!; [done| |apply NoDup_singleton]. by intros k Hk ->%list_elem_of_singleton.
Qed.

Lemma walk_ok_refused s r : walk_ok s → action r = false → walk_ok (log r s).
Proof.
  intros [Hs Hnd] Ha. split; rewrite agreed_log, Ha, app_nil_r; [|done].
  intros k. apply Hs.
Qed.

Lemma walk_ok_complete s k : walk_ok s → k ∈ agreed s → walk_ok (mark k completed s).
Proof.
  intros [Hs Hnd] Hk. split; change (agreed (mark k completed s)) with (agreed s); [|done].
  intros k'. rewrite call_state_mark. case_decide as Heq; [subst k'; naive_solver|apply Hs].
Qed.

(** The keys on which the action has not agreed yet *)
Definition left_over (U : gset ResourceKey) (s : walk_state) : gset ResourceKey := U ∖ list_to_set (agreed s).

Lemma left_over_enter U s r :
  walk_ok s → Resource_Key r ∈ U → call_state s (Resource_Key r) = notCalled → action r = true →
  size (left_over U (mark (Resource_Key r) inProgress (log r s))) < size (left_over U s).
Proof.
  intros Hok HU Hnc Ha. apply subset_size. unfold left_over.
  change (agreed (mark _ _ (log r s))) with (agreed (log r s)). rewrite agreed_log, Ha, list_to_set_app_L, list_to_set_singleton_L.
  assert (Resource_Key r ∉ agreed s) by (intros Hin%(ok_states _ Hok); done).
  assert (Resource_Key r ∉ (list_to_set (agreed s) : gset ResourceKey)) by by rewrite elem_of_list_to_set.
  set_solver.
Qed.

End calls.

(** ** The walk *)

Section walk.
Context (children : Resource → list Resource) (action : Resource → bool).
Notation walk_ok := (walk_ok action).
Notation agreed := (agreed action).
Notation left_over := (left_over action).

(** The walk from one resource *)
Fixpoint visit (fuel : nat) (r : Resource) (s : walk_state) : option walk_state :=
  match fuel with
  | 0 => None
  | S fuel =>
      if decide (call_state s (Resource_Key r) ≠ notCalled) then Some s
      else if action r then
        s ← for_each (visit fuel) (children r) (mark (Resource_Key r) inProgress (log r s));
        Some (mark (Resource_Key r) completed s)
      else Some (log r s)
  end.

(** All children of the resource were called. *)
Definition closed (s : walk_state) (d : Resource) : Prop :=
  action d = true → Forall (λ e, called s (Resource_Key e)) (children d).

(** How a walk goes on: the new calls have the property [P], and the walk went down
    from those on which the action agreed. *)
Definition extends (P : Resource → Prop) (s s' : walk_state) : Prop :=
  walk_ok s' ∧ ∃ new, calls s' = calls s ++ new ∧ Forall (λ d, P d ∧ closed s' d) new.

(** Nothing is left in progress. *)
Definition settled (s s' : walk_state) : Prop := ∀ k, call_state s' k = inProgress → call_state s k = inProgress.

Lemma called_mono s s' l k : calls s' = calls s ++ l → called s k → called s' k.
Proof. unfold called. intros ->. rewrite fmap_app, elem_of_app. by left. Qed.

Lemma closed_mono s s' l d : calls s' = calls s ++ l → closed s d → closed s' d.
Proof. intros Hl Hc Ha. eapply Forall_impl; [by apply Hc|]. intros e. by eapply called_mono. Qed.

Lemma extends_refl P s : walk_ok s → extends P s s.
Proof. intros Hs. split; [done|]. exists []. by rewrite app_nil_r. Qed.

Lemma extends_trans P s s' s'' : extends P s s' → extends P s' s'' → extends P s s''.
Proof.
  intros [_ (l1&E1&H1)] [Hok (l2&E2&H2)]. split; [done|]. exists (l1 ++ l2). split.
  - by rewrite E2, E1, app_assoc.
  - apply Forall_app. split; [|done]. eapply Forall_impl; [exact H1|]. intros d [Hd Hc]. split; [done|].
    by eapply closed_mono.
Qed.

Lemma extends_impl (P Q : Resource → Prop) s s' : (∀ d, P d → Q d) → extends P s s' → extends Q s s'.
Proof.
  intros HPQ [Hok (l&E&H)]. split; [done|]. exists l. split; [done|].
  eapply Forall_impl; [exact H|]. intros d [? ?]. by split; [apply HPQ|].
Qed.

(** What is reached from a resource while the action agrees *)
Definition descends : Resource → Resource → Prop := rtc (λ p c, action p = true ∧ c ∈ children p).

(** ** Fuel *)

Lemma left_over_mono U P s s' : extends P s s' → size (left_over U s') ≤ size (left_over U s).
Proof.
  intros [_ (l&E&_)]. apply subseteq_size. unfold left_over, agreed. rewrite E, filter_app, fmap_app, list_to_set_app_L. set_solver.
Qed.

(** ** The walk ends, and what it does *)

Context (U : gset ResourceKey) (good : Resource → Prop).
Hypothesis good_key : ∀ r, good r → Resource_Key r ∈ U.
Hypothesis good_child : ∀ p c, good p → c ∈ children p → good c.

Lemma for_each_extends fuel l s (P : Resource → Prop) :
  (∀ r s, r ∈ l → walk_ok s → size (left_over U s) < fuel →
     ∃ s', visit fuel r s = Some s' ∧ extends P s s' ∧ settled s s' ∧ called s' (Resource_Key r)) →
  walk_ok s → size (left_over U s) < fuel →
  ∃ s', for_each (visit fuel) l s = Some s' ∧ extends P s s' ∧ settled s s' ∧ Forall (λ r, called s' (Resource_Key r)) l.
Proof.
  revert s. induction l as [|r l IH]; intros s Hv Hok Hf.
  { exists s. split_and!; [done|by apply extends_refl|by intros k|constructor]. }
  rewrite for_each_cons. destruct (Hv r s (list_elem_of_here _ _) Hok Hf) as (s1&->&He1&Hs1&Hc1). cbn [mbind option_bind].
  destruct (IH s1) as (s2&->&He2&Hs2&Hc2).
  - intros. apply Hv; [by right|done..].
  - apply He1.
  - pose proof (left_over_mono U _ _ _ He1). lia.
  - exists s2. split_and!; [done|by eapply extends_trans|by intros k ?%Hs2%Hs1|]. constructor; [|done].
    destruct He2 as [_ (?&E&_)]. by eapply called_mono.
Qed.

Lemma visit_spec fuel r s :
  walk_ok s → good r → size (left_over U s) < fuel →
  ∃ s', visit fuel r s = Some s' ∧ extends (descends r) s s' ∧ settled s s' ∧ called s' (Resource_Key r).
Proof.
  revert r s. induction fuel as [|fuel IH]; intros r s Hok Hr Hf; [lia|]. cbn [visit].
  destruct (decide (call_state s (Resource_Key r) ≠ notCalled)) as [Hc|Hnc%dec_stable].
  { exists s. split_and!; [done|by apply extends_refl|by intros k|]. by apply (agreed_called action), (ok_states _ _ Hok). }
  destruct (action r) eqn:Ha; cycle 1.
  { exists (log r s). split_and!; [done| |by intros k|].
    - split; [by apply walk_ok_refused|]. exists [r]. split; [done|].
      constructor; [|done]. split; [apply rtc_refl|]. intros ?. congruence.
    - unfold called. cbn [log calls]. rewrite fmap_app, elem_of_app. right. by left. }
  pose proof (walk_ok_enter action s r Hok Hnc Ha) as Hok1. set (s1 := mark (Resource_Key r) inProgress (log r s)) in *.
  assert (size (left_over U s1) < fuel) as Hf1.
  { pose proof (left_over_enter action U s r Hok (good_key _ Hr) Hnc Ha). fold s1 in H. lia. }
  destruct (for_each_extends fuel (children r) s1 (descends r)) as (s2&->&[Hok2 (new&E2&H2)]&Hs2&Hc2); [|done..|].
  { intros c s0 Hin Hok0 Hf0. destruct (IH c s0 Hok0 (good_child _ _ Hr Hin) Hf0) as (s0'&Hv&He&Hs&Hcc).
    exists s0'. split_and!; [done| |done..]. eapply extends_impl; [|exact He]. intros d Hd. by eapply rtc_l. }
  cbn [mbind option_bind]. assert (Resource_Key r ∈ agreed s2) as Hag.
  { unfold agreed. rewrite E2. cbn [s1 mark log calls]. apply list_elem_of_fmap_2, list_elem_of_filter. split; [done|].
    rewrite !elem_of_app. left. right. by left. }
  exists (mark (Resource_Key r) completed s2). split_and!; [done| | |by apply (agreed_called action)].
  - split; [by apply walk_ok_complete|]. exists (r :: new). split.
    + cbn [mark calls]. rewrite E2. cbn [s1 mark log calls]. by rewrite <-app_assoc.
    + constructor; [|done]. split; [apply rtc_refl|]. by intros _.
  - intros k. rewrite call_state_mark. case_decide as Hk; [done|]. intros Hip%Hs2. unfold s1 in Hip.
    rewrite call_state_mark, decide_False in Hip by done. done.
Qed.

(** Several roots *)
Lemma visits_spec fuel l s :
  walk_ok s → Forall good l → size (left_over U s) < fuel →
  ∃ s', for_each (visit fuel) l s = Some s' ∧ extends (λ d, ∃ r, r ∈ l ∧ descends r d) s s' ∧
    settled s s' ∧ Forall (λ r, called s' (Resource_Key r)) l.
Proof.
  intros Hok Hl Hf. apply for_each_extends; [|done..]. intros r s0 Hin Hok0 Hf0. rewrite Forall_forall in Hl.
  destruct (visit_spec fuel r s0 Hok0 (Hl _ Hin) Hf0) as (s'&Hv&He&Hs&Hc). exists s'. split_and!; [done| |done..].
  eapply extends_impl; [|exact He]. eauto.
Qed.
End walk.
