(* ===== verification/HierarchyProofs.v ===== *)
(** * The hierarchy of the cached resources: what is visited

    The iteration ends, and calls the action on exactly the resources that the owner
    references reach from the given keys. *)

From S2P Require Import Prelude GoStd Kube ClusterCache ClusterCacheProofs Hierarchy HierarchyGraph.
Local Open Scope string_scope.
Local Open Scope list_scope.
Local Open Scope nat_scope.

Section hierarchy.
Context {R : GoRuntime} (st : cache_state) (action : Resource → bool).
Hypothesis Hst : cache_ok st.

Definition cached (r : Resource) : Prop := get st (Resource_Key r) = Some r.
Definition namespace_of (r : Resource) : string := key_Namespace (Resource_Key r).

Lemma get_cached k r : get st k = Some r → cached r ∧ Resource_Key r = k.
Proof. intros Hk. pose proof (get_key _ _ _ _ Hst Hk) as E. unfold cached. by rewrite E. Qed.

Lemma cached_key r : cached r → Resource_Key r ∈ dom (resources st).
Proof. intros H%mk_is_Some. apply elem_of_dom. by apply (get_is_Some _ _ _ Hst). Qed.

Lemma lookup_ns_nodes ns k r : ns_nodes st ns !! k = Some r ↔ get st k = Some r ∧ key_Namespace k = ns.
Proof.
  unfold ns_nodes. rewrite lookup_omap. pose proof (inv_ns _ _ Hst ns k) as Hns. rewrite get_Some.
  destruct (nsIndex st !! ns) as [m|]; cbn [default from_option id mbind option_bind] in *.
  - destruct (m !! k) as [l|] eqn:El; cbn [mbind option_bind].
    + destruct (proj1 (Hns l) eq_refl) as [Hl Hk]. split; [eauto|]. intros ((l'&Hl'&Hr)&_). congruence.
    + split; [done|]. intros ((l'&Hl'&Hr)&Hk). by discriminate (proj2 (Hns l') (conj Hl' Hk)).
  - rewrite lookup_empty. split; [done|]. intros ((l'&Hl'&Hr)&Hk). by discriminate (proj2 (Hns l') (conj Hl' Hk)).
Qed.

Lemma in_ns_nodes ns r : in_nodes (ns_nodes st ns) r ↔ cached r ∧ namespace_of r = ns.
Proof.
  unfold in_nodes, namespace_of. split.
  - intros (k&[Hk Hn]%lookup_ns_nodes). apply get_cached in Hk as [? <-]. done.
  - intros [Hc Hn]. exists (Resource_Key r). by apply lookup_ns_nodes.
Qed.

(** ** Children *)

(** In the graph of the namespace *)
Definition near_children (p : Resource) : list Resource :=
  (go_range (default ∅ (buildGraph (ns_nodes st (namespace_of p)) !! Resource_Key p))).*2.

(** In the index *)
Definition far_children (p : Resource) : list Resource := omap (get st) (children_of st (RefUID (Ref p))).

(** In the index, in the same namespace *)
Definition same_namespace (p c : Resource) : option Resource :=
  if String.eqb (RefNamespace (Ref c)) (RefNamespace (Ref p)) then Some c else None.
Definition index_children (p : Resource) : list Resource :=
  omap (λ k, get st k ≫= same_namespace p) (children_of st (RefUID (Ref p))).

(** An owner reference of the child holds the UID of the parent. *)
Definition owns (p c : Resource) : Prop := cached c ∧ RefUID (Ref p) ∈ owner_uids (OwnerRefs c).

(** The UIDs of the cached resources are those of different objects. *)
Definition uids_unique : Prop :=
  ∀ r r', cached r → cached r' → RefUID (Ref r) = RefUID (Ref r') → r = r'.

Lemma elem_of_near p c : c ∈ near_children p ↔ row_of (buildGraph (ns_nodes st (namespace_of p))) (Resource_Key p) (RefUID (Ref c)) = Some c.
Proof.
  unfold near_children, row_of. rewrite list_elem_of_fmap. split.
  - intros ([uid v]&->&Hv%elem_of_go_range). cbn [snd].
    pose proof (buildGraph_row (ns_nodes st (namespace_of p)) (Resource_Key p) uid) as H. unfold row_of in H.
    destruct (buildGraph _ !! Resource_Key p) as [row|]; cbn [default from_option id mbind option_bind] in *.
    + rewrite Hv in H. destruct H as [(q&_&_&<-) _]. done.
    + by rewrite lookup_empty in Hv.
  - intros H. exists (RefUID (Ref c), c). split; [done|]. apply elem_of_go_range.
    by destruct (buildGraph _ !! Resource_Key p).
Qed.

Lemma near_owned p c : cached p → c ∈ near_children p → owned (ns_nodes st (namespace_of p)) p c.
Proof.
  intros Hp Hc%elem_of_near. pose proof (buildGraph_row (ns_nodes st (namespace_of p)) (Resource_Key p) (RefUID (Ref c))) as H.
  rewrite Hc in H. destruct H as [(q&Ho&Hk&_) _]. replace p with q at 2; [done|].
  destruct Ho as [[Hq _]%in_ns_nodes _]. unfold cached in *. congruence.
Qed.

Lemma near_child p c : cached p → c ∈ near_children p → cached c ∧ namespace_of c = namespace_of p.
Proof. intros Hp (_&Hc&_)%near_owned; [|done]. by apply in_ns_nodes. Qed.

Lemma owned_near p c : uids_unique → owned (ns_nodes st (namespace_of p)) p c → c ∈ near_children p.
Proof.
  intros Hu Ho. apply elem_of_near.
  pose proof (buildGraph_row (ns_nodes st (namespace_of p)) (Resource_Key p) (RefUID (Ref c))) as H.
  destruct (row_of _ _ _) as [r|]; [|by destruct (H c); exists p].
  destruct H as [(q&(_&Hr&_)&_&Huid) _]. f_equal.
  destruct Ho as (_&Hc&_). apply in_ns_nodes in Hr as [Hr _], Hc as [Hc _]. by apply Hu.
Qed.

Lemma elem_of_far p c : c ∈ far_children p ↔ owns p c.
Proof.
  unfold owns, far_children, children_of. rewrite list_elem_of_omap. pose proof (inv_rows _ _ Hst (RefUID (Ref p))) as Hrow. unfold row in Hrow.
  assert (∀ k, k ∈ (go_range (default ∅ (parentUIDToChildren st !! RefUID (Ref p)))).*1 ↔
    ∃ r, get st k = Some r ∧ RefUID (Ref p) ∈ owner_uids (OwnerRefs r)) as H.
  { intros k. specialize (Hrow k). rewrite list_elem_of_fmap. destruct (parentUIDToChildren st !! RefUID (Ref p)) as [m|];
      cbn [default from_option id mbind option_bind] in *.
    - split.
      + intros ([k' []]&->&Hin%elem_of_go_range). naive_solver.
      + intros Hr. exists (k, ()). split; [done|]. apply elem_of_go_range. naive_solver.
    - split; [|naive_solver]. intros ([k' []]&_&Hin%elem_of_go_range). by rewrite lookup_empty in Hin. }
  setoid_rewrite H. split.
  - intros (k&(r&Hr&Hin)&Hc). apply get_cached in Hc as [? Hk]. subst k. split; [done|]. unfold cached in *. congruence.
  - intros [Hc Hin]. exists (Resource_Key c). eauto.
Qed.

Lemma cached_Namespace r : RefNamespace (Ref r) = namespace_of r.
Proof. done. Qed.

Lemma elem_of_index p c : c ∈ index_children p ↔ c ∈ far_children p ∧ namespace_of c = namespace_of p.
Proof.
  unfold index_children, far_children. rewrite !list_elem_of_omap. unfold same_namespace. split.
  - intros (k&Hk&Hc). destruct (get st k) as [r|] eqn:E; [|done]. cbn [mbind option_bind] in Hc.
    destruct (String.eqb_spec (RefNamespace (Ref r)) (RefNamespace (Ref p))); [|done]. injection Hc as ->. eauto.
  - intros [(k&Hk&Hc) Hn]. exists k. split; [done|]. rewrite Hc. cbn [mbind option_bind].
    destruct (String.eqb_spec (RefNamespace (Ref c)) (RefNamespace (Ref p))); done.
Qed.

Lemma index_near p c : uids_unique → cached p → c ∈ index_children p → c ∈ near_children p.
Proof.
  intros Hu Hp [[Hc [Hne Hin]%elem_of_owner_uids]%elem_of_far Hn]%elem_of_index. apply owned_near; [done|].
  split; [by apply in_ns_nodes|]. split; [by apply in_ns_nodes|].
  apply list_elem_of_fmap in Hin as (ref&Hu'&Hin). exists ref. split; [done|]. unfold ownerUID.
  destruct (String.eqb_spec (OwnerUID ref) ""); congruence.
Qed.

(** ** The walks of the code *)

Notation visit_near := (visit near_children action).
Notation visit_index := (visit index_children action).

Lemma iterateChildrenV2_visit fuel r s s' ns :
  visit_near fuel r s = Some s' → call_state s (Resource_Key r) = notCalled → action r = true →
  cached r → namespace_of r = ns →
  iterateChildrenV2 action fuel (buildGraph (ns_nodes st ns)) r (log r s) = Some s'.
Proof.
  revert r s s'. induction fuel as [|fuel IH]; intros r s s'; [done|]. cbn [visit iterateChildrenV2]. intros Hv Hnc Ha Hr Hns.
  rewrite decide_False in Hv by (by intros ?). rewrite Ha in Hv. change (call_state (log r s)) with (call_state s).
  rewrite (decide_False (P := call_state s (Resource_Key r) = completed)) by congruence.
  destruct (for_each (visit_near fuel) _ _) as [s1|] eqn:Ef; [|done].
  eapply (for_each_sim (λ _, True)) in Ef as [Ef _]; [| |exact I].
  { unfold near_children in Ef. rewrite Hns in Ef. rewrite Ef. exact Hv. }
  clear Ef. intros c s0 s0' Hin _ Hc. split; [|done]. destruct fuel as [|f]; [done|].
  destruct (near_child r c Hr Hin) as [Hcc Hcn]. cbn beta. destruct (call_state s0 (Resource_Key c)) eqn:Ec;
    try (cbn [visit] in Hc; by rewrite decide_True in Hc by (by rewrite Ec)).
  destruct (action c) eqn:Eac; [apply IH; congruence|].
  cbn [visit] in Hc. by rewrite decide_False, Eac in Hc by (intros Hne; congruence).
Qed.

(** Nothing is in progress between two roots. *)
Definition at_rest (s : walk_state) : Prop := walk_ok action s ∧ ∀ k, call_state s k ≠ inProgress.

Lemma left_over_all s : size (left_over action (dom (resources st)) s) ≤ size (resources st).
Proof. rewrite <-size_dom. apply subseteq_size. unfold left_over. set_solver. Qed.

Lemma visit_near_spec r s : walk_ok action s → cached r →
  ∃ s', visit_near (S (walk_fuel st)) r s = Some s' ∧
    extends near_children action (descends near_children action r) s s' ∧ settled s s' ∧ called s' (Resource_Key r).
Proof.
  intros Hs Hr. apply (visit_spec near_children action (dom (resources st)) cached); [apply cached_key| |done..|].
  - intros p c Hp Hc. by eapply near_child.
  - pose proof (left_over_all s). unfold walk_fuel. lia.
Qed.

Lemma processNamespaceHierarchy_spec ns keys s :
  at_rest s → Forall (λ k, key_Namespace k = ns) keys →
  ∃ s', processNamespaceHierarchy st action (walk_fuel st) keys (buildGraph (ns_nodes st ns)) s = Some s' ∧
    extends near_children action (λ d, ∃ r, Resource_Key r ∈ keys ∧ cached r ∧ descends near_children action r d) s s' ∧
    at_rest s' ∧ Forall (λ k, is_Some (get st k) → called s' k) keys.
Proof.
  intros [Hs Hrest] Hns. rewrite Forall_forall in Hns.
  assert (Forall cached (omap (get st) keys)) as Hcs.
  { apply Forall_forall. intros r (k&_&Hk)%list_elem_of_omap. by eapply get_cached. }
  destruct (visits_spec near_children action (dom (resources st)) cached cached_key
    ltac:(intros p c Hp Hc; by eapply near_child) (S (walk_fuel st)) (omap (get st) keys) s Hs Hcs) as (s'&Hv&He&Hset&Hall).
  { pose proof (left_over_all s). unfold walk_fuel. lia. }
  exists s'. rewrite for_each_omap in Hv.
  eapply (for_each_sim at_rest) in Hv as [Hv Hrest']; [|clear s s' Hs Hrest Hv He Hset Hall|by split].
  { split_and!; [exact Hv| |done|].
    - eapply extends_impl; [|exact He]. intros d (r&(k&Hk&Hr)%list_elem_of_omap&Hd). exists r.
      apply get_cached in Hr as [? <-]. done.
    - apply Forall_forall. intros k Hk [r Hr]. rewrite Forall_forall in Hall. destruct (get_cached _ _ Hr) as [_ <-].
      apply Hall, list_elem_of_omap. eauto. }
  intros k s s' Hk [Hs Hrest] Hv. cbn beta. destruct (get st k) as [r|] eqn:Er; [|injection Hv as <-; by split; [|split]].
  destruct (get_cached _ _ Er) as [Hr <-]. specialize (Hns _ Hk). change (namespace_of r = ns) in Hns.
  destruct (visit_near_spec r s Hs Hr) as (s2&Hv2&[Hok2 _]&Hset2&_). rewrite Hv in Hv2. injection Hv2 as <-.
  split; [|split; [done|by intros k' ?%Hset2%Hrest]].
  cbn [visit] in Hv. destruct (decide (call_state s (Resource_Key r) = completed)) as [Hc|Hc].
  { rewrite decide_True in Hv by congruence. done. }
  assert (call_state s (Resource_Key r) = notCalled) as Hnc.
  { specialize (Hrest (Resource_Key r)). by destruct (call_state s (Resource_Key r)). }
  rewrite decide_False in Hv by (by intros ?). destruct (action r) eqn:Ha; [|done].
  destruct (for_each (visit_near _) _ _) as [s3|] eqn:Ef; [|done].
  eapply (for_each_sim (λ _, True)) in Ef as [Ef _]; [| |exact I].
  { unfold near_children in Ef. rewrite Hns in Ef. cbn zeta. rewrite Ef. exact Hv. }
  intros c s0 s0' Hin _ Hc0. split; [|done]. destruct (near_child r c Hr Hin) as [Hcc Hcn]. cbn beta.
  destruct (decide (call_state s0 (Resource_Key c) = notCalled)) as [Ec|Ec].
  - destruct (action c) eqn:Eac; [apply iterateChildrenV2_visit; congruence|].
    unfold walk_fuel in Hc0. cbn [visit] in Hc0. by rewrite decide_False, Eac in Hc0 by (by intros ?).
  - unfold walk_fuel in Hc0. cbn [visit] in Hc0. by rewrite decide_True in Hc0.
Qed.

(** ** From cluster-scoped resources into the namespaces *)

Context (keys : list ResourceKey).

(** The keys whose children in other namespaces are visited: those given, and the
    cluster-scoped children of such keys where the action agrees *)
Inductive crossed : ResourceKey → Prop :=
  | crossed_root r : Resource_Key r ∈ keys → cached r → namespace_of r = "" → crossed (Resource_Key r)
  | crossed_child p c :
      crossed (Resource_Key p) → cached p → owns p c → namespace_of c = "" → action c = true → crossed (Resource_Key c).

(** What they reach: their children, and the children of these in their namespaces *)
Inductive below : Resource → Prop :=
  | below_crossed p c : crossed (Resource_Key p) → cached p → owns p c → below c
  | below_child p c : below p → action p = true → owns p c → namespace_of c = namespace_of p → below c.

Lemma crossed_cached k : crossed k → ∃ r, cached r ∧ Resource_Key r = k ∧ namespace_of r = "".
Proof. intros [r Hk Hr Hn|p c _ _ [Hc _] Hn _]; eauto. Qed.

Lemma below_cached c : below c → cached c.
Proof. by intros [p d _ _ [Hd _]|p d _ _ [Hd _] _]. Qed.

Lemma below_descends c d : below c → descends index_children action c d → below d.
Proof.
  intros Hc Hd. induction Hd as [|a b d [Ha [Hb%elem_of_far Hn]%elem_of_index] _ IH]; [done|].
  apply IH. by eapply below_child.
Qed.

(** The children of the resource are done. *)
Definition crossed_done (T : key_set) (s : walk_state) (k : ResourceKey) : Prop :=
  ∀ p c, get st k = Some p → c ∈ far_children p →
    called s (Resource_Key c) ∧ (namespace_of c = "" → action c = true → T !! Resource_Key c = Some ()).

(** How the traversal goes on *)
Definition cross_extends (x x' : key_set * walk_state) : Prop :=
  x.1 ⊆ x'.1 ∧ extends index_children action below x.2 x'.2 ∧
  ∀ k, x'.1 !! k = Some () → x.1 !! k = Some () ∨ crossed_done x'.1 x'.2 k.

Lemma cross_extends_refl x : walk_ok action x.2 → cross_extends x x.
Proof. intros Hx. refine (conj _ (conj _ _)); [done|by apply extends_refl|by left]. Qed.

Lemma extends_called P s s' k : extends index_children action P s s' → called s k → called s' k.
Proof. intros [_ (new&E&_)]. by eapply called_mono. Qed.

Lemma crossed_done_mono T s T' s' k :
  T ⊆ T' → extends index_children action below s s' → crossed_done T s k → crossed_done T' s' k.
Proof.
  intros HT He Hd p c Hp Hc. destruct (Hd p c Hp Hc) as [H1 H2]. split; [by eapply extends_called|].
  intros Hn Ha. eapply lookup_weaken; [by apply H2|done].
Qed.

Lemma cross_extends_trans x y z : cross_extends x y → cross_extends y z → cross_extends x z.
Proof.
  intros (HT1&He1&Hd1) (HT2&He2&Hd2). refine (conj _ (conj _ _)); [by etrans|by eapply extends_trans|].
  intros k Hk. destruct (Hd2 k Hk) as [Hk'|]; [|by right]. destruct (Hd1 k Hk') as [|Hd]; [by left|].
  right. by eapply crossed_done_mono.
Qed.

(** The keys not traversed yet *)
Definition untraversed (T : key_set) : gset ResourceKey := dom (resources st) ∖ dom T.

Lemma untraversed_mono T T' : T ⊆ T' → size (untraversed T') ≤ size (untraversed T).
Proof. intros HT%subseteq_dom. apply subseteq_size. unfold untraversed. set_solver. Qed.

(** *** The walk over the index *)

Lemma iterateChildrenUsingIndex_visit fuel r s s' :
  for_each (visit_index fuel) (index_children r) s = Some s' →
  iterateChildrenUsingIndex st action (S fuel) r s = Some s'.
Proof.
  revert r s s'. induction fuel as [|fuel IH]; intros r s s' Hv; cbn [iterateChildrenUsingIndex];
    unfold index_children at 2 in Hv; rewrite for_each_omap in Hv;
    (eapply (for_each_sim (λ _, True)) in Hv as [Hv _]; [exact Hv| |exact I]); intros k s0 s0' Hk _ Hs0;
    (split; [|done]); cbn beta; (destruct (get st k) as [c|] eqn:Ec; cbn [mbind option_bind] in Hs0; [|by case_decide]);
    destruct (get_cached _ _ Ec) as [Hc Hkey]; change (same_namespace r c) with (if String.eqb (RefNamespace (Ref c)) (RefNamespace (Ref r)) then Some c else None) in Hs0;
    destruct (String.eqb (RefNamespace (Ref c)) (RefNamespace (Ref r))); cbn [negb]; [|by case_decide|..|by case_decide].
  { done. }
  cbn [visit] in Hs0. rewrite Hkey in Hs0. case_decide as Hn; [done|].
  destruct (action c); [|done].
  destruct (for_each (visit_index fuel) _ _) as [s1|] eqn:Ef; [|done]. apply IH in Ef.
  cbn [iterateChildrenUsingIndex] in Ef. by rewrite Ef.
Qed.

(** From a resource on which the action has just agreed *)
Lemma iterateChildrenUsingIndex_spec r s :
  walk_ok action s → cached r → call_state s (Resource_Key r) = notCalled → action r = true →
  let s1 := mark (Resource_Key r) inProgress (log r s) in
  ∃ s2, iterateChildrenUsingIndex st action (walk_fuel st) r s1 = Some s2 ∧
    extends index_children action (descends index_children action r) s s2 ∧ Resource_Key r ∈ agreed action s2.
Proof.
  intros Hs Hr Hnc Ha s1. pose proof (walk_ok_enter action s r Hs Hnc Ha) as Hok1. fold s1 in Hok1.
  assert (∀ p c, cached p → c ∈ index_children p → cached c) as Hch.
  { intros p c _ [[Hc _]%elem_of_far _]%elem_of_index. done. }
  destruct (visits_spec index_children action (dom (resources st)) cached cached_key Hch (size (resources st))
    (index_children r) s1 Hok1) as (s2&Hv&[Hok2 (new&E2&H2)]&_&Hall).
  - apply Forall_forall. intros c. by apply Hch.
  - pose proof (left_over_enter action (dom (resources st)) s r Hs (cached_key _ Hr) Hnc Ha).
    pose proof (left_over_all s). unfold s1. lia.
  - exists s2. apply iterateChildrenUsingIndex_visit in Hv. split_and!; [exact Hv| |].
    + split; [done|]. exists (r :: new). split.
      * rewrite E2. cbn [s1 mark log calls]. by rewrite <-app_assoc.
      * constructor; [by split; [apply rtc_refl|intros _]|]. eapply Forall_impl; [exact H2|].
        intros d [(c&Hc&Hd) ?]. split; [|done]. by eapply rtc_l.
    + unfold agreed. rewrite E2. cbn [s1 mark log calls]. apply list_elem_of_fmap_2, list_elem_of_filter. split; [done|].
      rewrite !elem_of_app. left. right. by left.
Qed.

(** *** The traversal *)

Definition cross_ready (fuel : nat) (x : key_set * walk_state) : Prop :=
  walk_ok action x.2 ∧ Forall cached (calls x.2) ∧ size (untraversed x.1) < fuel.

Lemma cross_ready_extends fuel x x' : cross_ready fuel x → cross_extends x x' → cross_ready fuel x'.
Proof.
  intros (_&Hc&Hf) (HT&[Hok (new&E&H)]&_). split; [done|]. split.
  - rewrite E. apply Forall_app. split; [done|]. eapply Forall_impl; [exact H|]. intros d [Hd _]. by apply below_cached.
  - pose proof (untraversed_mono _ _ HT). lia.
Qed.

(** A key on which the action agreed is that of a resource on which it agrees. *)
Lemma agreed_action x k c : Forall cached (calls x) → get st k = Some c → k ∈ agreed action x → action c = true.
Proof.
  intros Hc Hk (r&->&[Ha Hr]%list_elem_of_filter)%list_elem_of_fmap. rewrite Forall_forall in Hc.
  specialize (Hc _ Hr). unfold cached in Hc. congruence.
Qed.

Definition cross_key_ok (fuel : nat) : Prop :=
  ∀ k x, crossed k → cross_ready fuel x →
  ∃ x', cross_key st action fuel k x = Some x' ∧ cross_extends x x' ∧ x'.1 !! k = Some ().

Lemma namespace_present c : cached c → is_Some (nsIndex st !! namespace_of c).
Proof.
  intros [l Hl]%cached_key%elem_of_dom. pose proof (proj2 (inv_ns _ _ Hst (namespace_of c) (Resource_Key c) l) (conj Hl eq_refl)) as H.
  by destruct (nsIndex st !! namespace_of c).
Qed.

Lemma cross_child_spec fuel p c x :
  cross_key_ok fuel → crossed (Resource_Key p) → cached p → c ∈ far_children p → cross_ready fuel x →
  ∃ x', cross_child st action (walk_fuel st) (cross_key st action fuel) (Resource_Key c) x = Some x' ∧ cross_extends x x' ∧
    called x'.2 (Resource_Key c) ∧ (namespace_of c = "" → action c = true → x'.1 !! Resource_Key c = Some ()).
Proof.
  intros IH Hp Hcp Hcf Hx. pose proof (proj1 (elem_of_far p c) Hcf) as Ho. pose proof (proj1 Ho) as Hc. pose proof Hx as (Hok&Hcs&Hf).
  assert (below c) as Hb by by eapply below_crossed.
  assert (namespace_of c = "" → action c = true → crossed (Resource_Key c)) as Hcross by (intros; by eapply crossed_child).
  unfold cross_child. rewrite Hc. change (key_Namespace (Resource_Key c)) with (namespace_of c).
  destruct (decide (call_state x.2 (Resource_Key c) ≠ notCalled)) as [Hd|Hnc%dec_stable].
  - apply (ok_states _ _ Hok) in Hd. pose proof (agreed_action _ _ _ Hcs Hc Hd) as Ha. apply agreed_called in Hd.
    destruct (String.eqb_spec (namespace_of c) "") as [Hn|Hn].
    + destruct (IH (Resource_Key c) x (Hcross Hn Ha) Hx) as (x'&->&He&Hin). exists x'. split_and!; [done..| |done].
      by eapply extends_called; [apply He|].
    + exists x. split_and!; [done|by apply cross_extends_refl|done|done].
  - destruct (namespace_present c Hc) as [m ->]. destruct (action c) eqn:Ha; cycle 1.
    { exists (x.1, log c x.2). split_and!; [done| | |done].
      - refine (conj _ (conj _ _)); [done| |by left]. split; [by apply walk_ok_refused|]. exists [c]. split; [done|].
        constructor; [|done]. split; [done|]. intros ?. congruence.
      - unfold called. cbn [log calls snd]. rewrite fmap_app, elem_of_app. right. by left. }
    destruct (iterateChildrenUsingIndex_spec c x.2 Hok Hc Hnc Ha) as (s2&->&He2&Hag). cbn [mbind option_bind].
    assert (cross_extends x (x.1, s2)) as Hx2.
    { refine (conj _ (conj _ _)); [done| |by left]. eapply extends_impl; [|exact He2]. intros d. by apply below_descends. }
    assert (∃ x3, (if String.eqb (namespace_of c) "" then cross_key st action fuel (Resource_Key c) (x.1, s2) else Some (x.1, s2)) = Some x3 ∧
      cross_extends (x.1, s2) x3 ∧ (namespace_of c = "" → x3.1 !! Resource_Key c = Some ())) as (x3&->&He3&Hin3).
    { destruct (String.eqb_spec (namespace_of c) "") as [Hn|Hn].
      - destruct (IH (Resource_Key c) (x.1, s2) (Hcross Hn eq_refl)) as (x3&?&?&?); [by eapply cross_ready_extends|]. eauto.
      - exists (x.1, s2). split_and!; [done|apply cross_extends_refl, He2|done]. }
    cbn [mbind option_bind]. pose proof He3 as (HT3&[Hok3 (new&E3&H3)]&Hd3).
    assert (Resource_Key c ∈ agreed action x3.2) as Hag3.
    { revert Hag. unfold agreed. rewrite E3, filter_app, fmap_app, elem_of_app. by left. }
    exists (x3.1, mark (Resource_Key c) completed x3.2). split_and!; [done| | |by intros Hn _; apply Hin3].
    + eapply cross_extends_trans; [exact Hx2|]. refine (conj HT3 (conj _ Hd3)). split; [by apply walk_ok_complete|]. eauto.
    + by apply (agreed_called action).
Qed.

Lemma cross_children_spec fuel p cs x :
  cross_key_ok fuel → crossed (Resource_Key p) → cached p → (∀ k c, k ∈ cs → get st k = Some c → c ∈ far_children p) →
  cross_ready fuel x →
  ∃ x', foldl (λ ox k, ox ≫= cross_child st action (walk_fuel st) (cross_key st action fuel) k) (Some x) cs = Some x' ∧
    cross_extends x x' ∧ ∀ k c, k ∈ cs → get st k = Some c →
      called x'.2 k ∧ (namespace_of c = "" → action c = true → x'.1 !! k = Some ()).
Proof.
  intros IH Hp Hcp. revert x. induction cs as [|k cs IHl]; intros x Hcs Hx.
  { exists x. split; [done|]. split; [apply cross_extends_refl, Hx|]. by intros k c ?%elem_of_nil. }
  cbn [foldl mbind option_bind].
  assert (∃ x1, cross_child st action (walk_fuel st) (cross_key st action fuel) k x = Some x1 ∧ cross_extends x x1 ∧
    ∀ c, get st k = Some c → called x1.2 k ∧ (namespace_of c = "" → action c = true → x1.1 !! k = Some ())) as (x1&->&He1&H1).
  { destruct (get st k) as [c|] eqn:Ec.
    - destruct (get_cached _ _ Ec) as [_ <-]. destruct (cross_child_spec fuel p c x) as (x1&?&?&?&?); [done..|by eapply Hcs; [left|]|done|].
      exists x1. split_and!; [done..|]. by intros c' [= <-].
    - exists x. unfold cross_child. rewrite Ec. split_and!; [done|apply cross_extends_refl, Hx|done]. }
  destruct (IHl x1) as (x2&Hv&He2&H2); [intros; eapply Hcs; [by right|done]|by eapply cross_ready_extends|].
  exists x2. split; [exact Hv|]. split; [by eapply cross_extends_trans|]. intros k' c [->|Hin]%elem_of_cons Hc; [|by apply H2].
  destruct (H1 _ Hc) as [Hcall Hcr]. destruct He2 as (HT2&Hext&_). split; [by eapply extends_called|].
  intros Hn Ha. eapply lookup_weaken; [by apply Hcr|done].
Qed.

Lemma cross_key_spec fuel : cross_key_ok fuel.
Proof.
  induction fuel as [|fuel IH]; intros k x Hk Hx; [destruct Hx as (_&_&?); lia|]. cbn [cross_key].
  destruct (decide (x.1 !! k = Some ())) as [Hin|Hout]; [exists x; split_and!; [done|apply cross_extends_refl, Hx|done]|].
  destruct (crossed_cached _ Hk) as (p&Hp&<-&_). rewrite Hp. destruct Hx as (Hok&Hcs&Hf).
  set (x1 := (<[Resource_Key p := ()]> x.1, x.2)).
  assert (x.1 !! Resource_Key p = None) as Hnone by (destruct (x.1 !! Resource_Key p) as [[]|]; done).
  assert (cross_ready fuel x1) as Hx1.
  { split_and!; [done..|]. enough (size (untraversed x1.1) < size (untraversed x.1)) by lia. apply subset_size. unfold untraversed.
    cbn [x1 fst]. rewrite dom_insert. pose proof (cached_key _ Hp). apply not_elem_of_dom in Hnone. set_solver. }
  destruct (cross_children_spec fuel p (children_of st (RefUID (Ref p))) x1 IH Hk Hp) as (x2&Hv&(HT&He&Hd)&Hall); [|done|].
  { intros k c Hin Hc. apply list_elem_of_omap. eauto. }
  exists x2. split; [exact Hv|]. assert (x2.1 !! Resource_Key p = Some ()) as Hpin.
  { eapply lookup_weaken; [|exact HT]. apply lookup_insert_eq. }
  split; [|done]. refine (conj _ (conj He _)).
  - etrans; [|exact HT]. by apply insert_subseteq.
  - intros k Hk2. destruct (Hd k Hk2) as [Hk1|]; [|by right]. cbn [x1 fst] in Hk1.
    apply lookup_insert_Some in Hk1 as [[<- _]|[_ ?]]; [|by left]. right. intros q c Hq Hc.
    unfold cached in Hp. assert (q = p) as -> by congruence. apply list_elem_of_omap in Hc as (k&Hin&Hck).
    destruct (get_cached _ _ Hck) as [_ Hkey]. subst k. by apply Hall.
Qed.

Lemma processCrossNamespaceChildren_spec ks x :
  Forall crossed ks → cross_ready (walk_fuel st) x →
  ∃ x', processCrossNamespaceChildren st action (walk_fuel st) ks x = Some x' ∧ cross_extends x x' ∧
    Forall (λ k, x'.1 !! k = Some ()) ks.
Proof.
  unfold processCrossNamespaceChildren. intros Hks. revert x. induction Hks as [|k ks Hk _ IH]; intros x Hx.
  { exists x. split; [done|]. split; [apply cross_extends_refl, Hx|done]. }
  cbn [foldl mbind option_bind]. destruct (cross_key_spec (walk_fuel st) k x Hk Hx) as (x1&->&He1&Hin1).
  destruct (IH x1) as (x2&Hv&He2&Hin2); [by eapply cross_ready_extends|]. exists x2. split; [exact Hv|].
  split; [by eapply cross_extends_trans|]. constructor; [|done]. eapply lookup_weaken; [exact Hin1|]. apply He2.
Qed.

(** ** The whole iteration *)

(** What the owner references reach within the namespaces of the given keys *)
Inductive near : Resource → Prop :=
  | near_root r : Resource_Key r ∈ keys → cached r → near r
  | near_child_of p c : near p → action p = true → owned (ns_nodes st (namespace_of p)) p c → near c.

Lemma near_cached r : near r → cached r.
Proof. intros [? ? ?|p c _ _ (_&Hc&_)]; [done|]. by eapply proj1, in_ns_nodes. Qed.

Lemma near_descends r d : near r → descends near_children action r d → near d.
Proof.
  intros Hr Hd. induction Hd as [|a b d [Ha Hb] _ IH]; [done|]. apply IH. eapply near_child_of; [done..|].
  apply near_owned; [by apply near_cached|done].
Qed.

Definition kept (ns : string) (k : ResourceKey) : Prop := is_Some (resources st !! k) ∧ key_Namespace k = ns.
#[local] Instance kept_dec ns k : Decision (kept ns k).
Proof. unfold kept. apply _. Defined.

Lemma group_keys_lookup m l ns :
  default [] (foldl (group_key st) m l !! ns) = default [] (m !! ns) ++ filter (kept ns) l.
Proof.
  revert m. induction l as [|k l IH]; intros m; cbn [foldl]; [by rewrite filter_nil, app_nil_r|].
  rewrite IH, filter_cons. unfold group_key. destruct (resources st !! k) as [loc|] eqn:E; cycle 1.
  { rewrite decide_False; [done|]. intros [[? ?] _]. congruence. }
  destruct (decide (key_Namespace k = ns)) as [<-|Hne].
  - rewrite lookup_insert_eq. cbn [default from_option id]. rewrite decide_True by (split; [by eexists|done]).
    by rewrite <-app_assoc.
  - rewrite lookup_insert_ne by done. rewrite decide_False; [done|]. by intros [_ ?].
Qed.

Lemma group_keys_spec ns k :
  k ∈ default [] (foldl (group_key st) ∅ keys !! ns) ↔ k ∈ keys ∧ is_Some (get st k) ∧ key_Namespace k = ns.
Proof.
  rewrite group_keys_lookup, lookup_empty. cbn [default from_option app]. rewrite list_elem_of_filter.
  unfold kept. rewrite (get_is_Some _ _ _ Hst). tauto.
Qed.

Definition start : walk_state := {| actionCallState := ∅; calls := [] |}.

Lemma start_at_rest : at_rest start.
Proof.
  split; [split|]; unfold call_state, agreed, start; cbn [actionCallState calls].
  - intros k. rewrite lookup_empty, filter_nil. cbn. split; [done|]. by intros ?%elem_of_nil.
  - rewrite filter_nil. constructor.
  - intros k. by rewrite lookup_empty.
Qed.

(** The first part: within the namespaces *)
Lemma namespaces_spec es s :
  (∀ ns ks, (ns, ks) ∈ es → ∀ k, k ∈ ks → k ∈ keys ∧ is_Some (get st k) ∧ key_Namespace k = ns) → at_rest s →
  ∃ s', for_each (λ (e : string * list ResourceKey) s,
          processNamespaceHierarchy st action (walk_fuel st) e.2 (buildGraph (ns_nodes st e.1)) s) es s = Some s' ∧
    extends near_children action near s s' ∧ at_rest s' ∧ ∀ ns ks k, (ns, ks) ∈ es → k ∈ ks → called s' k.
Proof.
  revert s. induction es as [|[ns ks] es IH]; intros s Hes Hs.
  { exists s. split; [done|]. split; [apply extends_refl, Hs|]. split; [done|]. by intros ns ks k ?%elem_of_nil. }
  rewrite for_each_cons. cbn [fst snd]. pose proof (Hes ns ks (list_elem_of_here _ _)) as Hks.
  destruct (processNamespaceHierarchy_spec ns ks s Hs) as (s1&->&He1&Hs1&Hc1).
  { apply Forall_forall. intros k Hk. by apply Hks. }
  cbn [mbind option_bind]. destruct (IH s1) as (s2&Hv&He2&Hs2&Hc2); [intros; eapply Hes; [by right|done]|done|].
  exists s2. split; [exact Hv|]. split; [|split; [done|]].
  - eapply extends_trans; [|exact He2]. eapply extends_impl; [|exact He1]. intros d (r&Hr&Hcr&Hd).
    eapply near_descends; [|exact Hd]. apply near_root; [|done]. by apply Hks.
  - intros ns' ks' k [[= -> ->]|Hin]%elem_of_cons Hk; [|by eapply Hc2].
    rewrite Forall_forall in Hc1. destruct He2 as [_ (?&E&_)]. eapply called_mono; [exact E|]. apply Hc1; [done|]. by apply Hks.
Qed.

(** The second part: from the cluster-scoped keys *)
Lemma crossing_spec s :
  at_rest s → Forall cached (calls s) →
  ∃ T s', (match foldl (group_key st) ∅ keys !! "" with
           | Some clusterKeys => processCrossNamespaceChildren st action (walk_fuel st) clusterKeys (∅, s)
           | None => Some (∅, s)
           end) = Some (T, s') ∧ cross_extends (∅, s) (T, s') ∧
    ∀ r, Resource_Key r ∈ keys → cached r → namespace_of r = "" → T !! Resource_Key r = Some ().
Proof.
  intros Hs Hcs. pose proof (group_keys_spec "") as Hk.
  destruct (foldl (group_key st) ∅ keys !! "") as [ks|]; cbn [default from_option id] in Hk.
  - destruct (processCrossNamespaceChildren_spec ks (∅, s)) as ([T s']&Hv&He&Hin).
    + apply Forall_forall. intros k (Hin&[r Hr]&Hn)%Hk. apply get_cached in Hr as [Hr <-]. by apply crossed_root.
    + split; [apply Hs|]. split; [done|]. cbn [fst]. unfold walk_fuel, untraversed.
      enough (size (dom (resources st) ∖ dom (∅ : key_set)) ≤ size (resources st)) by lia.
      rewrite <-size_dom. apply subseteq_size. set_solver.
    + exists T, s'. split; [done|]. split; [done|]. intros r Hr Hc Hn. rewrite Forall_forall in Hin. apply Hin, Hk.
      split_and!; [done| |done]. by eexists.
  - exists ∅, s. split; [done|]. split; [apply cross_extends_refl, Hs|]. intros r Hr Hc Hn. exfalso.
    assert (Resource_Key r ∈ []) as H by (apply Hk; split_and!; [done|by eexists|done]). by apply elem_of_nil in H.
Qed.

Lemma called_cached s r : Forall cached (calls s) → cached r → called s (Resource_Key r) → r ∈ calls s.
Proof.
  intros Hcs Hr (q&Heq&Hq)%list_elem_of_fmap. rewrite Forall_forall in Hcs. specialize (Hcs _ Hq). unfold cached in *.
  rewrite <-Heq in Hcs. replace r with q by congruence. done.
Qed.

(** The calls of the whole iteration: those of the first part, then those of the second *)
Lemma IterateHierarchyV2_parts :
  ∃ s1 T s2, IterateHierarchyV2 st action keys = Some s2 ∧
    extends near_children action near start s1 ∧ (∀ r, Resource_Key r ∈ keys → cached r → called s1 (Resource_Key r)) ∧
    cross_extends (∅, s1) (T, s2) ∧
    (∀ r, Resource_Key r ∈ keys → cached r → namespace_of r = "" → T !! Resource_Key r = Some ()) ∧
    Forall cached (calls s2).
Proof.
  unfold IterateHierarchyV2. fold start.
  destruct (namespaces_spec (go_range (foldl (group_key st) ∅ keys)) start) as (s1&->&He1&Hs1&Hc1).
  { intros ns ks Hin%elem_of_go_range k Hk. apply group_keys_spec. by rewrite Hin. }
  { apply start_at_rest. }
  cbn [mbind option_bind]. assert (Forall cached (calls s1)) as Hcs1.
  { destruct He1 as [_ (n1&E1&H1)]. rewrite E1. eapply Forall_impl; [exact H1|]. intros d [Hd _]. by apply near_cached. }
  destruct (crossing_spec s1 Hs1 Hcs1) as (T&s2&Hv&He2&Hroots). exists s1, T, s2. split_and!; [|done| |done..|].
  - by destruct (foldl _ _ _ !! ""); [rewrite Hv|injection Hv as _ ->].
  - intros r Hr Hc. assert (Resource_Key r ∈ default [] (foldl (group_key st) ∅ keys !! namespace_of r)) as Hin.
    { apply group_keys_spec. split_and!; [done|by eexists|done]. }
    destruct (foldl (group_key st) ∅ keys !! namespace_of r) as [ks|] eqn:Eg; [|by apply elem_of_nil in Hin].
    eapply Hc1; [|exact Hin]. by apply elem_of_go_range.
  - destruct He2 as (_&[_ (n2&E2&H2)]&_). cbn [snd] in *. rewrite E2. apply Forall_app. split; [done|].
    eapply Forall_impl; [exact H2|]. intros d [Hd _]. by apply below_cached.
Qed.

(** The first part calls all that is near. *)
Lemma near_called s1 :
  uids_unique → extends near_children action near start s1 →
  (∀ r, Resource_Key r ∈ keys → cached r → called s1 (Resource_Key r)) → ∀ r, near r → called s1 (Resource_Key r).
Proof.
  intros Hu [_ (n1&E1&H1)] Hc1. cbn [start calls app] in E1. rewrite <-E1 in H1.
  assert (Forall cached (calls s1)) as Hcs1 by (eapply Forall_impl; [exact H1|]; intros d [Hd _]; by apply near_cached).
  rewrite Forall_forall in H1. intros r Hr. induction Hr as [r Hk Hr|p c Hp IH Ha Ho]; [by apply Hc1|].
  apply called_cached in IH; [|done|by apply near_cached]. destruct (H1 _ IH) as [_ Hcl]. specialize (Hcl Ha).
  rewrite Forall_forall in Hcl. by apply Hcl, owned_near.
Qed.

(** The second part traverses all that is crossed. *)
Lemma crossed_traversed s1 T s2 :
  cross_extends (∅, s1) (T, s2) →
  (∀ r, Resource_Key r ∈ keys → cached r → namespace_of r = "" → T !! Resource_Key r = Some ()) →
  ∀ p c, crossed (Resource_Key p) → cached p → owns p c → called s2 (Resource_Key c).
Proof.
  intros (_&_&Hd) Hroots.
  assert (∀ p c, T !! Resource_Key p = Some () → cached p → owns p c →
    called s2 (Resource_Key c) ∧ (namespace_of c = "" → action c = true → T !! Resource_Key c = Some ())) as Hdone.
  { intros p c Hk Hp Ho. destruct (Hd _ Hk) as [H|Hdo]; [cbn [fst] in H; by rewrite lookup_empty in H|]. apply (Hdo p c Hp). by apply elem_of_far. }
  assert (∀ k, crossed k → T !! k = Some ()) as HT.
  { intros k Hk. induction Hk as [r Hr Hc Hn|p c Hk IH Hp Ho Hn Ha]; [by apply Hroots|]. by eapply Hdone. }
  intros p c Hk%HT Hp Ho. by eapply Hdone.
Qed.

Lemma below_called s1 T s2 :
  uids_unique → extends near_children action near start s1 → cross_extends (∅, s1) (T, s2) →
  (∀ r, Resource_Key r ∈ keys → cached r → namespace_of r = "" → T !! Resource_Key r = Some ()) →
  Forall cached (calls s2) → ∀ r, below r → called s2 (Resource_Key r).
Proof.
  intros Hu [_ (n1&E1&H1)] He2 Hroots Hcs2. pose proof (crossed_traversed _ _ _ He2 Hroots) as Hcross.
  destruct He2 as (_&[_ (n2&E2&H2)]&_). cbn [start calls app snd] in E1, E2. rewrite <-E1 in H1. cbn [snd] in H2.
  rewrite Forall_forall in H1, H2. intros r Hr. induction Hr as [p c Hk Hp Ho|p c Hp IH Ha Ho Hn]; [by eapply Hcross|].
  assert (c ∈ index_children p) as Hc by (apply elem_of_index; split; [by apply elem_of_far|done]).
  apply called_cached in IH; [|done|by apply below_cached]. rewrite E2, elem_of_app in IH. destruct IH as [IH|IH].
  - destruct (H1 _ IH) as [Hnp Hcl]. specialize (Hcl Ha). rewrite Forall_forall in Hcl.
    eapply called_mono; [exact E2|]. apply Hcl, index_near; [done|by apply near_cached|done].
  - destruct (H2 _ IH) as [_ Hcl]. specialize (Hcl Ha). rewrite Forall_forall in Hcl. by apply Hcl.
Qed.
End hierarchy.

(** The iteration over the hierarchy ends, cyclic owner references included, and is
    sound: the action agrees at most once on a resource, and is called only on cached
    resources that owner references reach from the given keys, within the namespaces of
    these or from cluster-scoped resources downwards. *)
Theorem IterateHierarchyV2_ends `{R : GoRuntime, CL : CacheLib} st action keys (Hst : rtc cache_step empty_cache st) :
  ∃ s, IterateHierarchyV2 st action keys = Some s ∧
    NoDup (Resource_Key <$> filter (λ r, action r = true) (calls s)) ∧
    ∀ r, r ∈ calls s → cached st r ∧ (near st action keys r ∨ below st action keys r).
Proof.
  pose proof (reachable_consistent st Hst) as HI.
  destruct (IterateHierarchyV2_parts st action HI keys) as (s1&T&s2&->&[_ (n1&E1&H1)]&_&(_&[Hok2 (n2&E2&H2)]&_)&_&Hcs2).
  exists s2. split; [done|]. split; [apply Hok2|]. rewrite Forall_forall in H1, H2, Hcs2. intros r Hr. split; [by apply Hcs2|].
  cbn [start calls app snd] in E1, E2. rewrite E2, elem_of_app, E1 in Hr.
  destruct Hr as [Hr|Hr]; [left; by apply H1|right; by apply H2].
Qed.

(** C31. The iteration over the hierarchy misses no resource that owner references reach
    through resources the action agrees to descend from.  If the cached resources have
    different UIDs, the action is called on everything that owner references, by UID or by
    name, reach from the given keys within their namespaces ([near]); and, through
    references that have a UID only, on the children in any namespace of the given
    cluster-scoped resources and of the agreed cluster-scoped ones below them, and on what
    these lead to within their own namespaces ([below]).  A child in another namespace
    that is found by name only is missed ([endpoints_missed_across_namespaces]). *)
Theorem IterateHierarchyV2_misses_nothing `{R : GoRuntime, CL : CacheLib} st action keys
    (Hst : rtc cache_step empty_cache st) (Huids : uids_unique st) :
  ∃ s, IterateHierarchyV2 st action keys = Some s ∧ ∀ r, near st action keys r ∨ below st action keys r → r ∈ calls s.
Proof.
  pose proof (reachable_consistent st Hst) as HI.
  destruct (IterateHierarchyV2_parts st action HI keys) as (s1&T&s2&->&He1&Hc1&He2&Hroots&Hcs2).
  exists s2. split; [done|]. intros r [Hr|Hr]; (apply (called_cached st); [done| |]).
  - by eapply near_cached.
  - pose proof (near_called _ _ HI _ _ Huids He1 Hc1 _ Hr) as Hin. destruct He2 as (_&[_ (n2&E2&_)]&_). by eapply called_mono.
  - by eapply below_cached.
  - by eapply below_called.
Qed.
