(* ===== verification/ClusterExamples.v ===== *)
(** * The cluster cache: a concrete cluster

    A platform provider whose deployment runs in a namespace, next to a stateful set with
    a claim: instances of the theorems, and behaviours at the edges. *)

From S2P Require Import Prelude GoStd Kube ClusterCache ClusterCacheProofs Hierarchy HierarchyGraph HierarchyProofs.
Local Open Scope string_scope.
Local Open Scope list_scope.

Module ClusterSample.
#[local] Existing Instance reference_runtime.

(** Claim templates of the stateful sets are listed under [templates]. *)
#[local] Instance sample_lib : CacheLib := {|
  statefulset_templates := λ un,
    match nested_field (Object un) ["templates"] with
    | Found (JList l) => Some (omap (λ j, match j with JStr s => Some s | _ => None end) l)
    | _ => None
    end;
  creation_timestamp := λ _, "2024-05-01T00:00:00Z";
  populateResourceInfo := λ _ isRoot, (None, isRoot);
|}.

Definition owner (uid name kind version : string) : json :=
  JObj [("uid", JStr uid); ("name", JStr name); ("kind", JStr kind); ("apiVersion", JStr version)].

Definition cluster_obj (g : GroupVersionKind) (ns name uid version : string) (owners : list json) (rest : list (string * json)) : Unstructured :=
  mkObj 0 g (Kind g) name ns "" ∅ [] uid version None []
    (JObj (("metadata", JObj [("ownerReferences", JList owners)]) :: rest)).

Definition provider_gvk : GroupVersionKind := mkGVK "pkg.crossplane.io" "v1" "Provider".
Definition revision_gvk : GroupVersionKind := mkGVK "pkg.crossplane.io" "v1" "ProviderRevision".

Definition provider : Unstructured := cluster_obj provider_gvk "" "aws" "u1" "1" [] [].
Definition revision : Unstructured := cluster_obj revision_gvk "" "aws-1" "u2" "2" [owner "u1" "aws" "Provider" "pkg.crossplane.io/v1"] [].
Definition deployment : Unstructured :=
  cluster_obj (mkGVK "apps" "v1" "Deployment") "system" "aws" "u3" "3" [owner "u2" "aws-1" "ProviderRevision" "pkg.crossplane.io/v1"] [].
Definition service : Unstructured :=
  cluster_obj (mkGVK "" "v1" "Service") "system" "aws" "u4" "4" [owner "u2" "aws-1" "ProviderRevision" "pkg.crossplane.io/v1"] [].
Definition endpoints : Unstructured := cluster_obj (mkGVK "" "v1" "Endpoints") "system" "aws" "u5" "5" [] [].
Definition web : Unstructured :=
  cluster_obj (mkGVK "apps" "v1" "StatefulSet") "system" "web" "u6" "6" [] [("templates", JList [JStr "data"])].
Definition claim (name uid : string) : Unstructured := cluster_obj (mkGVK "" "v1" "PersistentVolumeClaim") "system" name uid "7" [] [].

Definition events : list (event_type * Unstructured) :=
  [(Added, claim "data-web-0" "u7"); (Added, deployment); (Added, service); (Added, endpoints); (Added, web);
   (Added, revision); (Added, provider); (Added, claim "mydata-web-1" "u8"); (Modified, endpoints);
   (Added, claim "scratch" "u9"); (Deleted, claim "scratch" "u9")].

Definition cluster : cache_state := foldl recordEvent empty_cache events.

Lemma claim_ok_bool r : bool_decide (NoDup (owner_uids (OwnerRefs r))) = true → claim_ok r.
Proof. intros H _. by apply bool_decide_eq_true in H. Qed.

Lemma events_served : Forall (λ e, e.1 ≠ Deleted → served e.2) events.
Proof.
  repeat (apply Forall_cons; split; [intros _; split_and!; [reflexivity..|apply claim_ok_bool; vm_compute; reflexivity]|]).
  constructor.
Qed.

Lemma events_change (es : list (event_type * Unstructured)) st :
  Forall (λ e, e.1 ≠ Deleted → served e.2) es → rtc cache_change st (foldl recordEvent st es).
Proof.
  intros Hes. revert st. induction Hes as [|e es He _ IH]; intros st; [apply rtc_refl|].
  eapply rtc_l; [by apply change_event|apply IH].
Qed.

Lemma events_reachable (es : list (event_type * Unstructured)) st :
  Forall (λ e, e.1 ≠ Deleted → served e.2) es → rtc cache_step st (foldl recordEvent st es).
Proof. intros Hes. eapply rtc_subrel; [apply step_change|by apply events_change]. Qed.

Lemma cluster_reachable : rtc cache_step empty_cache cluster.
Proof. apply events_reachable, events_served. Qed.

Definition key (un : Unstructured) : ResourceKey := GetResourceKey un.
Definition names (l : list Resource) : list string := map (λ r, RefKind (Ref r) +:+ "/" +:+ RefName (Ref r)) l.
Definition owners_of (st : cache_state) (un : Unstructured) : option (list string) := fmap OwnerUID <$> (OwnerRefs <$> get st (key un)).

(** The cache synchronises when the platform is gone: a claim and its set are listed. *)
Definition relisted : list Unstructured := [claim "data-web-0" "u7"; web].

Lemma relisted_served : Forall served relisted.
Proof.
  repeat (apply Forall_cons; split; [split_and!; [reflexivity..|apply claim_ok_bool; vm_compute; reflexivity]|]).
  constructor.
Qed.

Lemma cache_indexes_agree_witness :
  (∃ s, parentUIDToChildren cluster !! "u6" = Some s ∧ s !! key (claim "data-web-0" "u7") = Some ()) ∧
  (∃ calls, notified cluster = notified empty_cache ++ calls ∧ foldl replay (view empty_cache) calls = view cluster) ∧
  notified (sync relisted cluster) = notified cluster ∧ size (resources cluster) = 8.
Proof.
  destruct (cache_indexes_agree cluster cluster_reachable) as (_ & _ & Hrows & _ & _ & _ & _ & Hsync).
  destruct (cache_indexes_agree empty_cache (rtc_refl _ _)) as (_ & _ & _ & _ & _ & _ & Htold & _).
  split; [|split; [exact (Htold cluster (events_change events empty_cache events_served))|
                   split; [exact (proj1 (Hsync relisted relisted_served))|vm_compute; reflexivity]]].
  apply Hrows.
  destruct (get cluster (key (claim "data-web-0" "u7"))) as [r|] eqn:E.
  - exists r. split; [reflexivity|]. split; [discriminate|].
    assert (owners_of cluster (claim "data-web-0" "u7") = Some ["u6"]) as Ho by (vm_compute; reflexivity).
    unfold owners_of in Ho. rewrite E in Ho. injection Ho as ->. left.
  - exfalso. assert (negb (bool_decide (names (option_list (get cluster (key (claim "data-web-0" "u7")))) = [])) = true) as H
      by (vm_compute; reflexivity).
    rewrite E in H. discriminate H.
Defined.

(** After it the handlers' calls no longer add up to the cache: nobody was told that the
    deployment is gone.  The claim found its owner again although the set was listed after
    it. *)
Example synchronisation_is_silent :
  let st := sync relisted cluster in
  size (view st) = 2 ∧ view st !! key deployment = None ∧
  is_Some (foldl replay ∅ (notified st) !! key deployment) ∧ owners_of st (claim "data-web-0" "u7") = Some ["u6"].
Proof. vm_compute. split_and!; [reflexivity..|by eexists|reflexivity]. Qed.

Lemma cache_follows_events_witness :
  view (foldl recordEvent empty_cache events) = foldl apply_event ∅ events ∧
  view cluster !! key (claim "scratch" "u9") = None.
Proof.
  split; [|vm_compute; reflexivity].
  exact (cache_follows_events empty_cache events (rtc_refl _ _) events_served).
Defined.

(** The claims are listed again: one is gone, one has changed. *)
Definition listed : list Resource := [newResource (claim "data-web-0" "u7"); newResource (claim "data-web-1" "u10")].

Lemma listing_replaces_the_api_witness :
  let st := replaceResourceCache "" "PersistentVolumeClaim" listed "system" cluster in
  view st !! key (claim "mydata-web-1" "u8") = None ∧
  view st !! key (claim "data-web-1" "u10") = Some (core (newResource (claim "data-web-1" "u10"))) ∧
  view st !! key deployment = view cluster !! key deployment.
Proof.
  assert (Forall claim_ok listed) as Hc by (repeat constructor; apply claim_ok_bool; vm_compute; reflexivity).
  assert (NoDup (Resource_Key <$> listed)) as Hk by (apply (bool_decide_unpack _); vm_compute; exact I).
  destruct (listing_replaces_the_api cluster "" "PersistentVolumeClaim" listed "system" cluster_reachable Hc Hk) as [Hin Hout].
  assert (∀ k, bool_decide (k ∉ Resource_Key <$> listed) = true → k ∉ Resource_Key <$> listed) as Hb
    by (intros k H; apply bool_decide_eq_true in H; exact H).
  split; [|split].
  - rewrite Hout by (apply Hb; vm_compute; reflexivity). reflexivity.
  - change (key (claim "data-web-1" "u10")) with (Resource_Key (newResource (claim "data-web-1" "u10"))).
    rewrite (Hin (newResource (claim "data-web-1" "u10"))) by (right; left).
    assert (view cluster !! Resource_Key (newResource (claim "data-web-1" "u10")) = None) as ->; [|reflexivity].
    vm_compute. reflexivity.
  - rewrite Hout by (apply Hb; vm_compute; reflexivity). reflexivity.
Defined.

(** ** The hierarchy *)

Definition all (r : Resource) : bool := true.
Definition visited (action : Resource → bool) (keys : list Unstructured) : option (list string) :=
  names ∘ calls <$> IterateHierarchyV2 cluster action (map key keys).

Example from_the_provider :
  visited all [provider] = Some ["Provider/aws"; "ProviderRevision/aws-1"; "Service/aws"; "Deployment/aws"].
Proof. vm_compute. reflexivity. Qed.

(** Within a namespace the endpoints are found through the name of the service... *)
Example from_the_service : visited all [service] = Some ["Service/aws"; "Endpoints/aws"].
Proof. vm_compute. reflexivity. Qed.

(** ... but not from a cluster-scoped owner of the service, as the index of children has
    only references with a UID ([from_the_provider]). *)
Example endpoints_missed_across_namespaces :
  "Endpoints/aws" ∈ default [] (visited all [service]) ∧ "Endpoints/aws" ∉ default [] (visited all [provider]) ∧
  "Service/aws" ∈ default [] (visited all [provider]).
Proof. split_and!; apply (bool_decide_unpack _); vm_compute; exact I. Qed.

(** The action refuses the provider: its children are visited all the same. *)
Example refused_root_still_descends :
  visited (λ r, negb (String.eqb (RefKind (Ref r)) "Provider")) [provider] =
    Some ["Provider/aws"; "ProviderRevision/aws-1"; "Service/aws"; "Deployment/aws"].
Proof. vm_compute. reflexivity. Qed.

(** The pattern of claim names is open at its start: a claim of another stateful set,
    [mydata-web], counts as a child of [web]. *)
Example claim_of_another_set : owners_of cluster (claim "mydata-web-1" "u8") = Some ["u6"].
Proof. vm_compute. reflexivity. Qed.

Lemma cluster_uids : uids_unique cluster.
Proof.
  assert (bool_decide (NoDup ((λ r, RefUID (Ref r)) <$> (map_to_list (omap (λ l, heap cluster !! l) (resources cluster))).*2))) as Hb
    by (vm_compute; exact I).
  apply bool_decide_unpack in Hb. rewrite <-list_fmap_compose in Hb.
  intros r r' Hr Hr' Heq.
  assert (∀ q, cached cluster q → (Resource_Key q, q) ∈ map_to_list (omap (λ l, heap cluster !! l) (resources cluster))) as Hin.
  { intros q Hq. apply elem_of_map_to_list. rewrite lookup_omap. exact Hq. }
  apply Hin, list_elem_of_lookup in Hr as [i Hi]. apply Hin, list_elem_of_lookup in Hr' as [j Hj].
  assert (i = j) as <-; [|congruence]. eapply NoDup_lookup; [exact Hb|rewrite list_lookup_fmap, Hi; reflexivity|].
  rewrite list_lookup_fmap, Hj. cbn. by rewrite Heq.
Qed.

(** A runtime that walks maps the other way round *)
Definition backwards : GoRuntime.
Proof.
  refine {| go_range := λ K V _ _ m, reverse (map_to_list m);
            go_range_perm := λ K V _ _ m, reverse_Permutation (map_to_list m);
            go_sort := λ A, insertion_sort; go_sched := λ A l, l |}.
  - intros A less l. apply (go_sort_perm (GoRuntime := reference_runtime)).
  - intros A less l. apply (go_sort_sorted (GoRuntime := reference_runtime)).
  - reflexivity.
Defined.

Lemma buildGraph_same_every_refresh_witness :
  (@buildGraph backwards (ns_nodes cluster "system") !! key service ≫= lookup "u5") =
  (@buildGraph reference_runtime (ns_nodes cluster "system") !! key service ≫= lookup "u5").
Proof.
  apply (buildGraph_same_every_refresh backwards reference_runtime).
  - intros k r Hk. assert (map_Forall (λ k r, Resource_Key r = k) (ns_nodes cluster "system")) as H; [|exact (H k r Hk)].
    apply (bool_decide_unpack _). vm_compute. exact I.
  - assert (∀ k, is_Some (ns_nodes cluster "system" !! k) → k ∈ (map_to_list (ns_nodes cluster "system")).*1) as Hin.
    { intros k [r Hr]. apply list_elem_of_fmap. exists (k, r). split; [reflexivity|]. by apply elem_of_map_to_list. }
    intros k1 k2 H1%Hin%list_elem_of_lookup H2%Hin%list_elem_of_lookup Heq.
    destruct H1 as [i Hi], H2 as [j Hj]. assert (i = j) as <-; [|congruence].
    assert (bool_decide (NoDup (ResourceKey_String <$> (map_to_list (ns_nodes cluster "system")).*1))) as Hb by (vm_compute; exact I).
    apply bool_decide_unpack in Hb. eapply NoDup_lookup; [exact Hb|rewrite list_lookup_fmap, Hi; reflexivity|].
    rewrite list_lookup_fmap, Hj. cbn. by rewrite Heq.
Defined.

Lemma IterateHierarchyV2_ends_witness :
  ∃ s, IterateHierarchyV2 cluster all [key provider; key web] = Some s ∧ NoDup (Resource_Key <$> filter (λ r, all r = true) (calls s)).
Proof.
  destruct (IterateHierarchyV2_ends cluster all [key provider; key web] cluster_reachable) as (s & Hs & Hnd & _).
  exists s. split; [exact Hs|exact Hnd].
Defined.

Lemma IterateHierarchyV2_misses_nothing_witness :
  ∃ r s, get cluster (key provider) = Some r ∧ IterateHierarchyV2 cluster all [key provider] = Some s ∧ r ∈ calls s.
Proof.
  destruct (get cluster (key provider)) as [r|] eqn:Hr; cycle 1.
  { exfalso. assert (names (option_list (get cluster (key provider))) = ["Provider/aws"]) as H by (vm_compute; reflexivity).
    rewrite Hr in H. discriminate H. }
  exists r. destruct (IterateHierarchyV2_misses_nothing cluster all [key provider] cluster_reachable cluster_uids) as (s & Hs & Hall).
  exists s. split; [reflexivity|]. split; [exact Hs|]. apply Hall. left.
  pose proof (get_key _ _ _ _ (reachable_consistent _ cluster_reachable) Hr) as Hk.
  apply near_root; [rewrite Hk; left|]. unfold cached. by rewrite Hk.
Defined.
End ClusterSample.
