(* ===== verification/SyncCommon.v ===== *)
(** * Sync vocabulary: [gitops-engine/pkg/sync/{common,resource,hook,syncwaves,ignore}]

    Phases, result codes, hook types and delete policies; the annotation
    parser; the classification of an object as a hook (Argo and Helm
    annotations), its phases and its wave. *)

From S2P Require Import Prelude GoStd Kube.
From Stdlib Require Import Ascii.

Local Open Scope string_scope.
Local Open Scope list_scope.

(** ** [common/types.go] *)

Definition AnnotationSyncOptions : string := "cd.hanzo.ai/sync-options".
Definition AnnotationSyncWave : string := "cd.hanzo.ai/sync-wave".
Definition AnnotationKeyHook : string := "cd.hanzo.ai/hook".
Definition AnnotationKeyHookDeletePolicy : string := "cd.hanzo.ai/hook-delete-policy".

Definition SyncOptionSkipDryRunOnMissingResource : string := "SkipDryRunOnMissingResource=true".
Definition SyncOptionsDisableValidation : string := "Validate=false".
Definition SyncOptionPruneLast : string := "PruneLast=true".
Definition SyncOptionReplace : string := "Replace=true".
Definition SyncOptionForce : string := "Force=true".
Definition SyncOptionServerSideApply : string := "ServerSideApply=true".
Definition SyncOptionDisableServerSideApply : string := "ServerSideApply=false".
Definition SyncOptionPrune : string := "Prune".
Definition SyncValueConfirm : string := "confirm".
Definition SyncValueFalse : string := "false".
Definition DefaultClientSideApplyMigrationManager : string := "kubectl-client-side-apply".

Inductive SyncPhase : Type :=
  | SyncPhasePreSync | SyncPhaseSync | SyncPhasePostSync | SyncPhaseSyncFail.

#[export] Instance SyncPhase_eq_dec : EqDecision SyncPhase.
Proof. solve_decision. Defined.

Definition SyncPhase_str (p : SyncPhase) : string :=
  match p with
  | SyncPhasePreSync => "PreSync"
  | SyncPhaseSync => "Sync"
  | SyncPhasePostSync => "PostSync"
  | SyncPhaseSyncFail => "SyncFail"
  end.

(** The empty string, which marks a task that has no state yet, is [OperationNone]. *)
Inductive OperationPhase : Type :=
  | OperationNone
  | OperationRunning | OperationTerminating | OperationFailed | OperationError | OperationSucceeded.

#[export] Instance OperationPhase_eq_dec : EqDecision OperationPhase.
Proof. solve_decision. Defined.

Definition Completed (os : OperationPhase) : bool :=
  match os with OperationFailed | OperationError | OperationSucceeded => true | _ => false end.
Definition Running (os : OperationPhase) : bool := bool_decide (os = OperationRunning).
Definition Successful (os : OperationPhase) : bool := bool_decide (os = OperationSucceeded).
Definition Failed (os : OperationPhase) : bool := bool_decide (os = OperationFailed).

Inductive ResultCode : Type :=
  | ResultCodeNone
  | ResultCodeSynced | ResultCodeSyncFailed | ResultCodePruned | ResultCodePruneSkipped.

#[export] Instance ResultCode_eq_dec : EqDecision ResultCode.
Proof. solve_decision. Defined.

Inductive HookType : Type :=
  | HookTypePreSync | HookTypeSync | HookTypePostSync | HookTypeSkip | HookTypeSyncFail.

#[export] Instance HookType_eq_dec : EqDecision HookType.
Proof. solve_decision. Defined.

Definition NewHookType (t : string) : option HookType :=
  if String.eqb t "PreSync" then Some HookTypePreSync
  else if String.eqb t "Sync" then Some HookTypeSync
  else if String.eqb t "PostSync" then Some HookTypePostSync
  else if String.eqb t "SyncFail" then Some HookTypeSyncFail
  else if String.eqb t "Skip" then Some HookTypeSkip
  else None.

Inductive HookDeletePolicy : Type :=
  | HookDeletePolicyHookSucceeded | HookDeletePolicyHookFailed | HookDeletePolicyBeforeHookCreation.

#[export] Instance HookDeletePolicy_eq_dec : EqDecision HookDeletePolicy.
Proof. solve_decision. Defined.

Definition NewHookDeletePolicy (p : string) : option HookDeletePolicy :=
  if String.eqb p "HookSucceeded" then Some HookDeletePolicyHookSucceeded
  else if String.eqb p "HookFailed" then Some HookDeletePolicyHookFailed
  else if String.eqb p "BeforeHookCreation" then Some HookDeletePolicyBeforeHookCreation
  else None.

Record ResourceSyncResult : Type := mkResult {
  res_ResourceKey : ResourceKey;
  res_Images : list string;
  res_Version : string;
  res_Order : Z;
  res_Status : ResultCode;
  res_Message : string;
  res_HookType : option HookType;
  res_HookPhase : OperationPhase;
  res_SyncPhase : SyncPhase;
}.

(** ** [resource/annotations.go] *)

(** The loop of [GetAnnotationCSVs]; [seen] is the de-duplication map. *)
Fixpoint csv_values (seen : list string) (items : list string) : list string :=
  match items with
  | [] => []
  | item :: r =>
      let val := TrimSpace item in
      if String.eqb val "" then csv_values seen r
      else if bool_decide (val ∈ seen) then csv_values seen r
      else val :: csv_values (val :: seen) r
  end.

Definition GetAnnotationCSVs (obj : Unstructured) (key : string) : list string :=
  csv_values [] (Split (default "" (GetAnnotations obj !! key)) ","%char).

Definition HasAnnotationOption (obj : Unstructured) (key val : string) : bool :=
  existsb (String.eqb val) (GetAnnotationCSVs obj key).

Fixpoint first_cut (prefix : string) (items : list string) : option string :=
  match items with
  | [] => None
  | item :: r => match CutPrefix prefix item with Some v => Some v | None => first_cut prefix r end
  end.

Definition GetAnnotationOptionValue (obj : Unstructured) (annotation optionKey : string) : option string :=
  first_cut (optionKey +:+ "=") (GetAnnotationCSVs obj annotation).

(** ** [hook/helm] *)

Module Helm.

Inductive Type_ : Type := PreInstall | PreUpgrade | PostUpgrade | PostInstall.

Definition NewType (t : string) : option Type_ :=
if String.eqb t "pre-install" then Some PreInstall
else if String.eqb t "pre-upgrade" then Some PreUpgrade
else if String.eqb t "post-upgrade" then Some PostUpgrade
else if String.eqb t "post-install" then Some PostInstall
else None.

Definition toHookType (t : Type_) : HookType :=
match t with
| PreInstall | PreUpgrade => HookTypePreSync
| PostUpgrade | PostInstall => HookTypePostSync
end.

Definition Types (obj : Unstructured) : list Type_ :=
omap NewType (GetAnnotationCSVs obj "helm.sh/hook").

Definition IsHook (obj : Unstructured) : bool :=
match GetAnnotations obj !! "helm.sh/hook" with
| Some value => negb (String.eqb value "crd-install")
| None => false
end.

Inductive DeletePolicy : Type := BeforeHookCreation | HookSucceeded | HookFailed.

Definition NewDeletePolicy (p : string) : option DeletePolicy :=
if String.eqb p "before-hook-creation" then Some BeforeHookCreation
else if String.eqb p "hook-succeeded" then Some HookSucceeded
else if String.eqb p "hook-failed" then Some HookFailed
else None.

Definition toDeletePolicy (p : DeletePolicy) : HookDeletePolicy :=
match p with
| BeforeHookCreation => HookDeletePolicyBeforeHookCreation
| HookSucceeded => HookDeletePolicyHookSucceeded
| HookFailed => HookDeletePolicyHookFailed
end.

Definition DeletePolicies (obj : Unstructured) : list DeletePolicy :=
omap NewDeletePolicy (GetAnnotationCSVs obj "helm.sh/hook-delete-policy").

Definition Weight (obj : Unstructured) : Z :=
match GetAnnotations obj !! "helm.sh/hook-weight" with
| Some text => default 0%Z (Atoi text)
| None => 0%Z
end.

End Helm.

(** ** [hook], [syncwaves], [ignore], [sync_phase.go] *)

Definition HookFinalizer : string := "cd.hanzo.ai/hook-finalizer".

Definition HasHookFinalizer (obj : Unstructured) : bool :=
  existsb (String.eqb HookFinalizer) (GetFinalizers obj).

(** Argo hook types first; Helm types only when there is none. *)
Definition Types (obj : Unstructured) : list HookType :=
  match omap NewHookType (GetAnnotationCSVs obj AnnotationKeyHook) with
  | [] => Helm.toHookType <$> Helm.Types obj
  | types => types
  end.

Definition Skip (obj : Unstructured) : bool :=
  if bool_decide (HookTypeSkip ∈ Types obj) then Nat.eqb (length (Types obj)) 1 else false.

Definition IsHook (obj : Unstructured) : bool :=
  match GetAnnotations obj !! AnnotationKeyHook with
  | Some _ => negb (Skip obj)
  | None => Helm.IsHook obj
  end.

Definition DeletePolicies (obj : Unstructured) : list HookDeletePolicy :=
  let policies :=
    omap NewHookDeletePolicy (GetAnnotationCSVs obj AnnotationKeyHookDeletePolicy) ++
    (Helm.toDeletePolicy <$> Helm.DeletePolicies obj) in
  match policies with
  | [] => [HookDeletePolicyBeforeHookCreation]
  | _ => policies
  end.

Definition Ignore (obj : Unstructured) : bool :=
  IsHook obj && Nat.eqb (length (Types obj)) 0.

Definition Wave (obj : Unstructured) : Z :=
  match GetAnnotations obj !! AnnotationSyncWave with
  | Some text => match Atoi text with Some val => val | None => Helm.Weight obj end
  | None => Helm.Weight obj
  end.

(** The phase of the same name; [Skip] has none. *)
Definition HookType_phase (t : HookType) : option SyncPhase :=
  match t with
  | HookTypePreSync => Some SyncPhasePreSync
  | HookTypeSync => Some SyncPhaseSync
  | HookTypePostSync => Some SyncPhasePostSync
  | HookTypeSyncFail => Some SyncPhaseSyncFail
  | HookTypeSkip => None
  end.

#[export] Instance SyncPhase_countable : Countable SyncPhase.
Proof.
  refine (inj_countable'
    (λ p, match p with SyncPhasePreSync => 0 | SyncPhaseSync => 1 | SyncPhasePostSync => 2
          | SyncPhaseSyncFail => 3 end)
    (λ n, match n with 0 => SyncPhasePreSync | 1 => SyncPhaseSync | 2 => SyncPhasePostSync
          | _ => SyncPhaseSyncFail end) _).
  by intros [].
Defined.

(** A hook has one task per distinct phase of its types, in the order of the
    [range] over the phase map; any other object has the phase [Sync]. *)
Definition syncPhases `{GoRuntime} (obj : Unstructured) : list SyncPhase :=
  if Skip obj then []
  else if IsHook obj then
    let phasesMap : gmap SyncPhase bool :=
      foldl (λ m t, match HookType_phase t with Some p => <[p := true]> m | None => m end) ∅ (Types obj) in
    (go_range phasesMap).*1
  else [SyncPhaseSync].

(** ** Properties of the annotation parser *)

Lemma elem_of_csv_values seen items x :
  x ∈ csv_values seen items ↔ x ≠ "" ∧ x ∉ seen ∧ ∃ item, item ∈ items ∧ TrimSpace item = x.
Proof.
  revert seen; induction items as [|i items IH]; intros seen; simpl.
  { split; [intros H; by apply not_elem_of_nil in H|intros (_&_&i&H&_); by apply not_elem_of_nil in H]. }
  destruct (String.eqb_spec (TrimSpace i) "") as [E|E].
  { rewrite IH. setoid_rewrite elem_of_cons. naive_solver. }
  case_bool_decide as Hs; [rewrite IH; setoid_rewrite elem_of_cons; naive_solver|].
  rewrite elem_of_cons, IH. setoid_rewrite elem_of_cons.
  destruct (decide (x = TrimSpace i)) as [->|]; naive_solver.
Qed.

Lemma NoDup_csv_values seen items : NoDup (csv_values seen items).
Proof.
  revert seen; induction items as [|i items IH]; intros seen; simpl; [constructor|].
  case_match; [apply IH|]. case_bool_decide; [apply IH|].
  constructor; [|apply IH]. rewrite elem_of_csv_values. set_solver.
Qed.

Lemma NoDup_GetAnnotationCSVs obj key : NoDup (GetAnnotationCSVs obj key).
Proof. apply NoDup_csv_values. Qed.

Lemma GetAnnotationCSVs_absent obj key :
  GetAnnotations obj !! key = None → GetAnnotationCSVs obj key = [].
Proof. unfold GetAnnotationCSVs. intros ->. reflexivity. Qed.

Lemma HasAnnotationOption_spec obj key val :
  HasAnnotationOption obj key val = true ↔ val ∈ GetAnnotationCSVs obj key.
Proof.
  unfold HasAnnotationOption. rewrite existsb_exists. setoid_rewrite <- list_elem_of_In.
  split; [intros (x&Hx&->%String.eqb_eq)|intros ?; eexists; rewrite String.eqb_eq]; eauto.
Qed.

(** ** Properties of hooks and phases *)

Lemma NewHookType_Skip t : NewHookType t = Some HookTypeSkip → t = "Skip".
Proof.
  unfold NewHookType. repeat (case_match; [done|]).
  destruct (String.eqb_spec t "Skip"); done.
Qed.

(** At most one [Skip] among the types: annotation values are distinct and
    Helm hooks have no such type. *)
Lemma Types_skip_unique obj l1 l2 :
  Types obj = l1 ++ HookTypeSkip :: l2 → HookTypeSkip ∉ l1 ++ l2.
Proof.
  unfold Types. destruct (omap NewHookType _) as [|t0 ts] eqn:E.
  - intros H. assert (HookTypeSkip ∈ Helm.toHookType <$> Helm.Types obj) as Hin
      by (rewrite H; elem_list).
    apply list_elem_of_fmap in Hin as ([]&?&_); done.
  - intros H. rewrite H in E. clear H t0 ts.
    pose proof (NoDup_GetAnnotationCSVs obj AnnotationKeyHook) as Hnd.
    revert l1 E. induction Hnd as [|s ss Hs Hnd IH]; intros l1; simpl; [by destruct l1|].
    destruct (NewHookType s) as [t|] eqn:Et; [|apply IH].
    assert (∀ l, omap NewHookType ss = l → HookTypeSkip ∈ l → s ≠ "Skip") as Hno.
    { intros l <- Hin ->. apply list_elem_of_omap in Hin as (s'&Hin&->%NewHookType_Skip). done. }
    destruct l1 as [|t' l1]; simpl; intros E; simplify_eq.
    + intros Hin. eapply Hno; eauto using NewHookType_Skip.
    + rewrite elem_of_cons. intros [<-|Hin]; [|by eapply IH].
      eapply Hno; [done| |by apply NewHookType_Skip]. elem_list.
Qed.

Lemma IsHook_not_Skip obj : IsHook obj = true → Skip obj = false.
Proof.
  unfold IsHook. destruct (GetAnnotations obj !! AnnotationKeyHook) eqn:E.
  { intros H. by breflect. }
  intros _. unfold Skip. case_bool_decide as Hin; [|done]. exfalso.
  unfold Types in Hin. rewrite (GetAnnotationCSVs_absent _ _ E) in Hin. simpl in Hin.
  apply list_elem_of_fmap in Hin as ([]&?&_); done.
Qed.

(** The phase set collected by the loop of [syncPhases]. *)
Lemma phases_lookup ts (m : gmap SyncPhase bool) p :
  is_Some (foldl (λ m t, match HookType_phase t with Some p => <[p := true]> m | None => m end) m ts !! p) ↔
  is_Some (m !! p) ∨ ∃ t, t ∈ ts ∧ HookType_phase t = Some p.
Proof.
  revert m; induction ts as [|t ts IH]; intros m; simpl.
  { split; [auto|]. intros [?|(t&Ht&_)]; [done|]. by apply not_elem_of_nil in Ht. }
  rewrite IH. destruct (HookType_phase t) as [q|] eqn:E.
  - rewrite lookup_insert_is_Some. setoid_rewrite elem_of_cons.
    destruct (decide (q = p)); naive_solver.
  - setoid_rewrite elem_of_cons. naive_solver.
Qed.

Section syncPhases.
Context `{GoRuntime}.

Lemma elem_of_syncPhases obj p :
  IsHook obj = true →
  p ∈ syncPhases obj ↔ ∃ t, t ∈ Types obj ∧ HookType_phase t = Some p.
Proof.
  intros Hh. unfold syncPhases. rewrite (IsHook_not_Skip _ Hh), Hh.
  rewrite list_elem_of_fmap. transitivity
    (is_Some (foldl (λ m t, match HookType_phase t with Some p => <[p := true]> m | None => m end)
      (∅ : gmap SyncPhase bool) (Types obj) !! p)).
  - split.
    + intros ([q b]&->&Hin%elem_of_go_range). eauto.
    + intros [b Hb]. exists (p, b). by rewrite elem_of_go_range.
  - rewrite phases_lookup, lookup_empty. split; [|naive_solver]. intros [[]|?]; done.
Qed.

Lemma NoDup_syncPhases obj : NoDup (syncPhases obj).
Proof.
  unfold syncPhases. case_match; [constructor|]. case_match; [apply go_range_NoDup_fst|].
  apply NoDup_singleton.
Qed.

Lemma syncPhases_nonhook obj :
  IsHook obj = false → Skip obj = false → syncPhases obj = [SyncPhaseSync].
Proof. unfold syncPhases. by intros -> ->. Qed.
End syncPhases.

(** The comma-separated values of an annotation are its trimmed, non-empty
    items without repetition, so an option is present exactly when some item
    of the annotation trims to it. *)
Theorem annotation_values (obj : Unstructured) (key : string) :
  NoDup (GetAnnotationCSVs obj key) ∧
  (∀ val, HasAnnotationOption obj key val = true ↔
     val ≠ "" ∧ ∃ text item, GetAnnotations obj !! key = Some text ∧
       item ∈ Split text ","%char ∧ TrimSpace item = val).
Proof.
  split; [apply NoDup_GetAnnotationCSVs|]. intros val. rewrite HasAnnotationOption_spec.
  unfold GetAnnotationCSVs. rewrite elem_of_csv_values.
  destruct (GetAnnotations obj !! key) as [text|]; simpl.
  - split.
    + intros (?&_&item&?&?). split; [done|]. by exists text, item.
    + intros (?&text'&item&?&?&?). simplify_eq. split_and!; [done|apply not_elem_of_nil|]. by exists item.
  - split; [|naive_solver]. intros (Hv&_&item&Hi&<-).
    apply list_elem_of_singleton in Hi as ->. done.
Qed.

Lemma Types_other_than_skip obj :
  IsHook obj = true → Types obj ≠ [] → ∃ t, t ∈ Types obj ∧ t ≠ HookTypeSkip.
Proof.
  intros Hh Hne. pose proof (IsHook_not_Skip obj Hh) as Hs. unfold Skip in Hs.
  destruct (Types obj) as [|t ts] eqn:E; [done|].
  destruct (decide (t = HookTypeSkip)) as [->|]; [|exists t; split; [left|done]].
  rewrite bool_decide_eq_true_2 in Hs by left. destruct ts as [|t' ts]; [done|].
  exists t'. split; [right; left|]. intros ->.
  apply (Types_skip_unique obj [] (HookTypeSkip :: ts) E). left.
Qed.

(** The sync phases of an object: a skipped object has none; any other
    object that is not a hook belongs to the phase [Sync] only; a hook runs
    once in each phase its types name, and a hook that is not ignored runs in
    at least one phase. *)
Theorem syncPhases_correct `{GoRuntime} (obj : Unstructured) :
  NoDup (syncPhases obj) ∧
  (Skip obj = true → syncPhases obj = []) ∧
  (Skip obj = false → IsHook obj = false → syncPhases obj = [SyncPhaseSync]) ∧
  (IsHook obj = true → ∀ p, p ∈ syncPhases obj ↔ ∃ t, t ∈ Types obj ∧ HookType_phase t = Some p) ∧
  (IsHook obj = true → Ignore obj = false → syncPhases obj ≠ []).
Proof.
  split_and!.
  - apply NoDup_syncPhases.
  - unfold syncPhases. by intros ->.
  - intros. by apply syncPhases_nonhook.
  - intros Hh p. by apply elem_of_syncPhases.
  - intros Hh Hi Hn. unfold Ignore in Hi. rewrite Hh in Hi. simpl in Hi.
    destruct (Types_other_than_skip obj Hh) as (t&Ht&Hne); [intros E; by rewrite E in Hi|].
    assert (∃ p, HookType_phase t = Some p) as [p Hp] by (destruct t; simpl; eauto; done).
    assert (p ∈ syncPhases obj) as Hin by (apply elem_of_syncPhases; eauto).
    rewrite Hn in Hin. by apply not_elem_of_nil in Hin.
Qed.
