(* ===== verification/Tracking.v ===== *)
(** * Resource tracking (src/util/cd/resource_tracking.go, src/util/kube/kube.go)

    A resource says which application it belongs to in a label or in an
    annotation, the tracking id, and in a second annotation to which installation
    of the program that application belongs. *)

From S2P Require Import Prelude GoStd Kube.
From Stdlib Require Import Ascii.
Local Open Scope string_scope.
Local Open Scope list_scope.

(** ** Objects *)

(** A map of strings in an object, found by [nestedNullableStringMap]: missing or
    null, a map, or something else, which is an error *)
Inductive string_map := NoMap | StringMap (m : gmap string string) | BadMap.
(** [spec.selector]: missing or empty, set by the user, not a map, or the labels
    that [SetAppInstanceLabel] puts there *)
Inductive selector := NoSelector | OwnSelector | BadSelector | MatchLabels (m : gmap string string).

Record resource := {
  ResGVK : GroupVersionKind;
  ResName : string;
  ResNamespace : string;
  ResLabels : string_map;
  ResAnnotations : string_map;
  TemplateLabels : string_map;
  Selector : selector;
}.

Definition set_Labels (l : string_map) (r : resource) : resource :=
  {| ResGVK := ResGVK r; ResName := ResName r; ResNamespace := ResNamespace r; ResLabels := l;
     ResAnnotations := ResAnnotations r; TemplateLabels := TemplateLabels r; Selector := Selector r |}.
Definition set_Annotations (a : string_map) (r : resource) : resource :=
  {| ResGVK := ResGVK r; ResName := ResName r; ResNamespace := ResNamespace r; ResLabels := ResLabels r;
     ResAnnotations := a; TemplateLabels := TemplateLabels r; Selector := Selector r |}.
Definition set_template (t : string_map) (s : selector) (r : resource) : resource :=
  {| ResGVK := ResGVK r; ResName := ResName r; ResNamespace := ResNamespace r; ResLabels := ResLabels r;
     ResAnnotations := ResAnnotations r; TemplateLabels := t; Selector := s |}.

(** An error is its text. *)
Definition result (A : Type) : Type := string + A.
#[export] Instance result_bind : MBind result :=
  λ A B f x, match x with inl e => inl e | inr a => f a end.

Definition LabelKeyLegacyApplicationName : string := "applications.apps.hanzo.ai/app-name".
Definition LabelKeyAppInstance : string := "app.kubernetes.io/instance".
Definition AnnotationKeyAppInstance : string := "apps.hanzo.ai/tracking-id".
Definition AnnotationInstallationID : string := "apps.hanzo.ai/installation-id".

Definition nestedNullableStringMap (f : string_map) : result (option (gmap string string)) :=
  match f with
  | NoMap => inr None
  | StringMap m => inr (Some m)
  | BadMap => inl "not a map of strings"
  end.

Definition put (key val : string) (m : option (gmap string string)) : string_map :=
  StringMap (<[key := val]> (default ∅ m)).

(** The labels of the pod template, for the kinds that have one; they are read with
    [NestedMap], for which null is an error too.  Labels that are not strings, which
    Kubernetes rejects, are left out. *)
Definition label_template (key val : string) (r : resource) : result (gmap string string * resource) :=
  match TemplateLabels r with
  | NoMap => inr ({[key := val]}, set_template (StringMap {[key := val]}) (Selector r) r)
  | StringMap m => inr (<[key := val]> m, set_template (StringMap (<[key := val]> m)) (Selector r) r)
  | BadMap => inl "not a map"
  end.

Definition APIVersion (g : GroupVersionKind) : string := gv_string g.

Definition label_pod_template (key val : string) (r : resource) : result resource :=
  let g := ResGVK r in
  if existsb (String.eqb (Group g)) ["apps"; "extensions"] then
    if existsb (String.eqb (Kind g)) ["Deployment"; "ReplicaSet"; "StatefulSet"; "DaemonSet"] then
      x ← label_template key val r;
      let '(templateLabels, r) := x in
      if existsb (String.eqb (APIVersion g)) ["apps/v1beta1"; "extensions/v1beta1"] then
        match Selector r with
        | BadSelector => inl "not a map"
        | NoSelector => inr (set_template (TemplateLabels r) (MatchLabels (delete key templateLabels)) r)
        | _ => inr r
        end
      else inr r
    else inr r
  else if String.eqb (Group g) "batch" then
    if String.eqb (Kind g) "Job" then x ← label_template key val r; inr x.2
    else inr r
  else inr r.

Definition SetAppInstanceLabel (target : resource) (key val : string) : result resource :=
  labels ← nestedNullableStringMap (ResLabels target);
  let target := set_Labels (put key val labels) target in
  if negb (String.eqb key LabelKeyLegacyApplicationName) then inr target
  else label_pod_template key val target.

Definition SetAppInstanceAnnotation (target : resource) (key val : string) : result resource :=
  annotations ← nestedNullableStringMap (ResAnnotations target);
  inr (set_Annotations (put key val annotations) target).

Definition GetAppInstanceAnnotation (un : resource) (key : string) : result string :=
  annotations ← nestedNullableStringMap (ResAnnotations un);
  inr (default "" (annotations ≫= lookup key)).

Definition GetAppInstanceLabel (un : resource) (key : string) : result string :=
  labels ← nestedNullableStringMap (ResLabels un);
  inr (default "" (labels ≫= lookup key)).

(** Without the key; a map that becomes empty is removed. *)
Definition drop_key (key : string) (m : gmap string string) : string_map :=
  match m !! key with
  | None => StringMap m
  | Some _ => if bool_decide (delete key m = ∅) then NoMap else StringMap (delete key m)
  end.

Definition RemoveLabel (un : resource) (key : string) : result resource :=
  labels ← nestedNullableStringMap (ResLabels un);
  match labels with
  | None => inr un
  | Some m => inr (set_Labels (drop_key key m) un)
  end.

Definition RemoveAnnotation (un : resource) (key : string) : result resource :=
  annotations ← nestedNullableStringMap (ResAnnotations un);
  match annotations with
  | None => inr un
  | Some m => inr (set_Annotations (drop_key key m) un)
  end.

(** ** Tracking ids *)

Record AppInstanceValue := {
  ApplicationName : string; AppGroup : string; AppKind : string; AppNamespace : string; AppResName : string;
}.

Definition BuildAppInstanceValue (v : AppInstanceValue) : string :=
  ApplicationName v +:+ ":" +:+ AppGroup v +:+ "/" +:+ AppKind v +:+ ":" +:+ AppNamespace v +:+ "/" +:+ AppResName v.

(** [strings.SplitN] into at most [n] + 1 fields *)
Fixpoint SplitN_aux (sep : ascii) (n : nat) (s cur : string) : list string :=
  match s with
  | "" => [string_rev cur]
  | String c r =>
      match n with
      | O => [string_rev cur +:+ s]
      | S n' =>
          if Ascii.eqb c sep then string_rev cur :: SplitN_aux sep n' r ""
          else SplitN_aux sep n r (String c cur)
      end
  end.
Definition SplitN (s : string) (sep : ascii) (n : nat) : list string := SplitN_aux sep (n - 1) s "".

(** [None] is [ErrWrongResourceTrackingFormat]. *)
Definition ParseAppInstanceValue (value : string) : option AppInstanceValue :=
  match SplitN value ":"%char 3 with
  | [appName; part1; part2] =>
      match Split part1 "/"%char, Split part2 "/"%char with
      | [group; kind], [ns; name] =>
          Some {| ApplicationName := appName; AppGroup := group; AppKind := kind; AppNamespace := ns; AppResName := name |}
      | _, _ => None
      end
  | _ => None
  end.

Definition UnstructuredToAppInstanceValue (un : resource) (appName namespace : string) : AppInstanceValue :=
  {| ApplicationName := appName; AppGroup := Group (ResGVK un); AppKind := Kind (ResGVK un);
     AppNamespace := if String.eqb (ResNamespace un) "" then namespace else ResNamespace un; AppResName := ResName un |}.

(** ** Methods *)
Definition TrackingMethodLabel : string := "label".
Definition TrackingMethodAnnotation : string := "annotation".
Definition TrackingMethodAnnotationAndLabel : string := "annotation+label".
Definition IsOldTrackingMethod (trackingMethod : string) : bool :=
  String.eqb trackingMethod "" || String.eqb trackingMethod TrackingMethodLabel.

(** [un.GetAnnotations()] is nil in case of an error. *)
Definition GetAnnotations (un : resource) : option (gmap string string) :=
  match ResAnnotations un with StringMap m => Some m | _ => None end.

Definition getAppInstanceValue (un : resource) (installationID : string) : option AppInstanceValue :=
  let annotations := GetAnnotations un in
  if (negb (String.eqb installationID "") && (if annotations is Some _ then false else true)) ||
     negb (String.eqb (default "" (annotations ≫= lookup AnnotationInstallationID)) installationID)
  then None
  else
    match GetAppInstanceAnnotation un AnnotationKeyAppInstance with
    | inl _ => None
    | inr annotation => ParseAppInstanceValue annotation
    end.

Definition GetAppName (un : resource) (key trackingMethod instanceID : string) : string :=
  if String.eqb trackingMethod TrackingMethodLabel then
    match GetAppInstanceLabel un key with inl _ => "" | inr label => label end
  else default "" (ApplicationName <$> getAppInstanceValue un instanceID).

Definition GetAppInstance (un : resource) (trackingMethod instanceID : string) : option AppInstanceValue :=
  if String.eqb trackingMethod TrackingMethodAnnotation || String.eqb trackingMethod TrackingMethodAnnotationAndLabel
  then getAppInstanceValue un instanceID else None.

(** ** Labels of limited length *)
Definition LabelMaxLength : nat := 63.

Definition ok_char (c : ascii) : bool :=
  let n := nat_of_ascii c in
  (Nat.leb 97 n && Nat.leb n 122) || (Nat.leb 65 n && Nat.leb n 90) || (Nat.leb 48 n && Nat.leb n 57).

(** [OkEndPattern] *)
Fixpoint ends_ok (s : string) : bool :=
  match s with
  | "" => false
  | String c "" => ok_char c
  | String _ r => ends_ok r
  end.

(** The loop, which shortens [val] by a byte in each turn *)
Fixpoint shorten (fuel : nat) (val : string) : option (result string) :=
  if ends_ok val then Some (inr val)
  else if Nat.leb (String.length val) 1
  then Some (inl "unable to truncate label to not end with a special character")
  else
    match fuel with
    | O => None
    | S fuel => shorten fuel (String.substring 0 (String.length val - 1) val)
    end.

(** The fuel is the length; [shorten_ends] shows that it is enough. *)
Definition TruncateLabel (val : string) : result string :=
  if Nat.leb (String.length val) LabelMaxLength then inr val
  else default (inl "") (shorten LabelMaxLength (String.substring 0 LabelMaxLength val)).

(** ** Setting, removing, normalizing

    The resource after an error, which callers discard, is left out. *)
Definition set_annotation (un : resource) (val namespace instanceID : string) : result resource :=
  let value := UnstructuredToAppInstanceValue un val namespace in
  un ← (if negb (String.eqb instanceID "") then SetAppInstanceAnnotation un AnnotationInstallationID instanceID
        else RemoveAnnotation un AnnotationInstallationID);
  SetAppInstanceAnnotation un AnnotationKeyAppInstance (BuildAppInstanceValue value).

Definition SetAppInstance (un : resource) (key val namespace trackingMethod instanceID : string) : result resource :=
  if String.eqb trackingMethod TrackingMethodLabel then SetAppInstanceLabel un key val
  else if String.eqb trackingMethod TrackingMethodAnnotationAndLabel then
    un ← set_annotation un val namespace instanceID;
    labelVal ← TruncateLabel val;
    SetAppInstanceLabel un key labelVal
  else set_annotation un val namespace instanceID.

Definition remove_annotations (un : resource) : result resource :=
  un ← RemoveAnnotation un AnnotationKeyAppInstance;
  RemoveAnnotation un AnnotationInstallationID.

Definition RemoveAppInstance (un : resource) (trackingMethod : string) : result resource :=
  if String.eqb trackingMethod TrackingMethodLabel then RemoveLabel un LabelKeyAppInstance
  else if String.eqb trackingMethod TrackingMethodAnnotationAndLabel then
    un ← remove_annotations un; RemoveLabel un LabelKeyAppInstance
  else remove_annotations un.

(** [Normalize] of a live resource, with both resources present *)
Definition Normalize (config live : resource) (labelKey trackingMethod : string) : result resource :=
  if IsOldTrackingMethod trackingMethod then inr live
  else
    label ← GetAppInstanceLabel live labelKey;
    if String.eqb label "" then inr live
    else if IsCRDGroupVersionKind (ResGVK live) then inr live
    else
      annotation ← GetAppInstanceAnnotation config AnnotationKeyAppInstance;
      live ← SetAppInstanceAnnotation live AnnotationKeyAppInstance annotation;
      label ← GetAppInstanceLabel config labelKey;
      if String.eqb label "" then RemoveLabel live labelKey else inr live.
