(* ===== verification/TrackingProofs.v ===== *)
(** * Resource tracking: theorems

    Tracking ids are read back as they were written, and the tracking metadata of
    one installation is not seen by another. *)

From S2P Require Import Prelude GoStd Kube Tracking.
From Stdlib Require Import Ascii.
Local Open Scope string_scope.
Local Open Scope list_scope.

(** ** Splitting *)

Lemma SplitN_aux_cut c n a b cur :
  has_char c a = false →
  SplitN_aux c (S n) (a +:+ String c b) cur = (string_rev cur +:+ a) :: SplitN_aux c n b "".
Proof.
  revert cur. induction a as [|d a IH]; intros cur; simpl.
  { intros _. by rewrite Ascii.eqb_refl, string_app_empty_r. }
  intros [Hd Ha]%orb_false_iff. rewrite Hd, IH by done. by rewrite string_rev_cons, <-string_app_assoc.
Qed.

Lemma SplitN_aux_zero c s cur : SplitN_aux c 0 s cur = [string_rev cur +:+ s].
Proof. destruct s; [|done]. cbn. by rewrite string_app_empty_r. Qed.

Lemma SplitN_aux_join c n s cur x l :
  SplitN_aux c n s cur = x :: l →
  (l = [] ∧ x = string_rev cur +:+ s) ∨
  (∃ r n', n = S n' ∧ SplitN_aux c n' r "" = l ∧ x +:+ String c r = string_rev cur +:+ s).
Proof.
  revert cur. destruct n as [|n].
  { intros cur. rewrite SplitN_aux_zero. intros [= <- <-]. by left. }
  induction s as [|d s IH]; intros cur; cbn [SplitN_aux].
  { intros [= <- <-]. left. by rewrite string_app_empty_r. }
  destruct (Ascii.eqb_spec d c) as [->|Hne].
  - intros [= <- <-]. right. by exists s, n.
  - intros [[-> ->]|(r & n' & Hn & Hr & Hx)]%IH; [left|right].
    + by rewrite string_rev_cons, <-string_app_assoc.
    + exists r, n'. split; [done|]. split; [done|]. by rewrite Hx, string_rev_cons, <-string_app_assoc.
Qed.

Lemma SplitN_three s c x y z : SplitN s c 3 = [x; y; z] → s = x +:+ String c (y +:+ String c z).
Proof.
  unfold SplitN. cbn. intros [[? _]|(r & n & [= <-] & Hr & Hx)]%SplitN_aux_join; [done|]. change (x +:+ String c r = s) in Hx.
  apply SplitN_aux_join in Hr as [[? _]|(r' & n' & [= <-] & Hr' & Hy)]; [done|]. change (y +:+ String c r' = r) in Hy.
  rewrite SplitN_aux_zero in Hr'. injection Hr' as Hz. change (r' = z) in Hz. by rewrite <-Hx, <-Hy, Hz.
Qed.

(** ** Tracking ids *)

(** Names without the separators; the namespace and the name of a resource may
    have colons. *)
Definition separable (v : AppInstanceValue) : Prop :=
  has_char ":" (ApplicationName v) = false ∧
  has_char ":" (AppGroup v) = false ∧ has_char "/" (AppGroup v) = false ∧
  has_char ":" (AppKind v) = false ∧ has_char "/" (AppKind v) = false ∧
  has_char "/" (AppNamespace v) = false ∧ has_char "/" (AppResName v) = false.

Lemma Parse_Build v : separable v → ParseAppInstanceValue (BuildAppInstanceValue v) = Some v.
Proof.
  intros (Happ & Hg & Hg' & Hk & Hk' & Hns & Hn). unfold ParseAppInstanceValue, BuildAppInstanceValue, SplitN.
  cbn [Nat.sub]. change (?a +:+ ":" +:+ ?b) with (a +:+ String ":"%char b).
  rewrite SplitN_aux_cut by done.
  rewrite (string_app_assoc (AppGroup v)), (string_app_assoc (AppGroup v +:+ "/")).
  change (?a +:+ ":" +:+ ?b) with (a +:+ String ":"%char b).
  rewrite SplitN_aux_cut, SplitN_aux_zero by (by rewrite !has_char_app, Hg, Hk).
  rewrite <-(string_app_assoc (AppGroup v) "/"). change (string_rev "" +:+ ?x) with x.
  by rewrite !Split_slash by done; destruct v.
Qed.

Lemma Build_Parse s v : ParseAppInstanceValue s = Some v → BuildAppInstanceValue v = s.
Proof.
  unfold ParseAppInstanceValue. destruct (SplitN s ":" 3) as [|x [|y [|z [|]]]] eqn:Hs; try done.
  apply SplitN_three in Hs as ->.
  destruct (Split y "/") as [|g [|k [|]]] eqn:Hy; try done. apply Split_two_inv in Hy as ->.
  destruct (Split z "/") as [|ns [|n [|]]] eqn:Hz; try done. apply Split_two_inv in Hz as ->.
  intros [= <-]. unfold BuildAppInstanceValue. cbn. f_equal. f_equal. by rewrite <-string_app_assoc.
Qed.

(** Tracking ids round trip: an id built from names without the separators
    parses to the same value, where the name of the resource may have colons; and
    building the value of any id that parses gives the id back, so different ids
    never mean the same resource. *)
Theorem tracking_id_roundtrip :
  (∀ v, separable v → ParseAppInstanceValue (BuildAppInstanceValue v) = Some v) ∧
  (∀ s v, ParseAppInstanceValue s = Some v → BuildAppInstanceValue v = s).
Proof. split; [apply Parse_Build|apply Build_Parse]. Qed.

(** ** Tracked resources *)

Lemma label_pod_template_frame key val r r' :
  label_pod_template key val r = inr r' → ResAnnotations r' = ResAnnotations r ∧ ResLabels r' = ResLabels r.
Proof.
  unfold label_pod_template, label_template. cbn [mbind result_bind].
  destruct (existsb _ _); [|destruct (String.eqb _ _)].
  - destruct (existsb _ _); [|by intros [= <-]].
    destruct (TemplateLabels r); cbn [mbind result_bind]; try done.
    + destruct (existsb _ _); [|by intros [= <-]]. destruct (Selector _); by intros [= <-].
    + destruct (existsb _ _); [|by intros [= <-]]. destruct (Selector _); by intros [= <-].
  - destruct (String.eqb _ _); [|by intros [= <-]].
    destruct (TemplateLabels r); cbn [mbind result_bind]; by intros [= <-].
  - by intros [= <-].
Qed.

Lemma SetAppInstanceLabel_spec r key val r' :
  SetAppInstanceLabel r key val = inr r' →
  ResAnnotations r' = ResAnnotations r ∧ ∃ m, ResLabels r' = StringMap m ∧ m !! key = Some val.
Proof.
  unfold SetAppInstanceLabel. destruct (nestedNullableStringMap (ResLabels r)) as [|labels]; [done|].
  cbn [mbind result_bind]. set (r1 := set_Labels _ r). intros H.
  assert (ResAnnotations r' = ResAnnotations r1 ∧ ResLabels r' = ResLabels r1) as [-> ->].
  { destruct (negb _); [by injection H as <-|by apply label_pod_template_frame in H]. }
  split; [done|]. eexists. split; [done|]. apply lookup_insert_eq.
Qed.

Lemma drop_key_lookup key m k :
  (match drop_key key m with StringMap m' => m' !! k | _ => None end) = delete key m !! k.
Proof.
  unfold drop_key. destruct (m !! key) eqn:E.
  - case_bool_decide as H; [by rewrite H, lookup_empty|done].
  - by rewrite delete_id.
Qed.

Lemma RemoveAnnotation_spec r key r' :
  RemoveAnnotation r key = inr r' →
  ResLabels r' = ResLabels r ∧ ∀ k, GetAnnotations r' ≫= lookup k =
    if decide (k = key) then None else GetAnnotations r ≫= lookup k.
Proof.
  unfold RemoveAnnotation, GetAnnotations. destruct (ResAnnotations r) as [|m|] eqn:Hr; try done;
    cbn [mbind result_bind nestedNullableStringMap]; intros [= <-].
  - split; [done|]. intros k. rewrite Hr. by destruct (decide _).
  - split; [done|]. intros k. pose proof (drop_key_lookup key m k) as H. simpl.
    destruct (decide (k = key)) as [->|].
    + rewrite lookup_delete_eq in H. by destruct (drop_key key m).
    + rewrite lookup_delete_ne in H by done. by destruct (drop_key key m).
Qed.

Lemma SetAppInstanceAnnotation_spec r key val r' :
  SetAppInstanceAnnotation r key val = inr r' →
  ResLabels r' = ResLabels r ∧ ∃ m, ResAnnotations r' = StringMap m ∧
    ∀ k, m !! k = if decide (k = key) then Some val else GetAnnotations r ≫= lookup k.
Proof.
  unfold SetAppInstanceAnnotation, GetAnnotations. destruct (ResAnnotations r) as [|m|]; try done;
    cbn [mbind result_bind nestedNullableStringMap]; intros [= <-]; (split; [done|]); eexists; (split; [done|]);
    intros k; simpl; destruct (decide (k = key)) as [->|];
    rewrite ?lookup_insert_eq, ?lookup_insert_ne, ?lookup_empty by done; done.
Qed.

Lemma set_annotation_spec r val ns inst r' :
  set_annotation r val ns inst = inr r' →
  ∃ m, ResAnnotations r' = StringMap m ∧
    m !! AnnotationKeyAppInstance = Some (BuildAppInstanceValue (UnstructuredToAppInstanceValue r val ns)) ∧
    default "" (m !! AnnotationInstallationID) = inst.
Proof.
  unfold set_annotation. destruct (String.eqb_spec inst "") as [->|Hne]; cbn [negb].
  - destruct (RemoveAnnotation r _) as [|r1] eqn:H1; [done|]. cbn [mbind result_bind]. intros H2.
    apply RemoveAnnotation_spec in H1 as [_ H1]. apply SetAppInstanceAnnotation_spec in H2 as (_ & m & Hm & H2).
    exists m. split; [done|]. by rewrite !H2, decide_True, decide_False, H1, decide_True by done.
  - destruct (SetAppInstanceAnnotation r _ _) as [|r1] eqn:H1; [done|]. cbn [mbind result_bind]. intros H2.
    apply SetAppInstanceAnnotation_spec in H1 as (_ & m1 & Hm1 & H1).
    apply SetAppInstanceAnnotation_spec in H2 as (_ & m & Hm & H2).
    exists m. split; [done|]. rewrite !H2, decide_True, decide_False by done. unfold GetAnnotations.
    rewrite Hm1. simpl. by rewrite H1, decide_True.
Qed.

(** The application of a resource with annotations [m] *)
Lemma getAppInstanceValue_spec r m inst :
  ResAnnotations r = StringMap m →
  getAppInstanceValue r inst =
    if decide (default "" (m !! AnnotationInstallationID) = inst)
    then ParseAppInstanceValue (default "" (m !! AnnotationKeyAppInstance)) else None.
Proof.
  intros Hm. unfold getAppInstanceValue, GetAppInstanceAnnotation, GetAnnotations. rewrite Hm.
  cbn [mbind result_bind option_bind nestedNullableStringMap]. rewrite andb_false_r. cbn [orb].
  destruct (String.eqb_spec (default "" (m !! AnnotationInstallationID)) inst) as [->|Hne]; cbn [negb].
  - by rewrite decide_True.
  - by rewrite decide_False.
Qed.

Lemma untracked r : (GetAnnotations r ≫= lookup AnnotationKeyAppInstance) = None →
  ∀ inst, getAppInstanceValue r inst = None.
Proof.
  intros Hk inst. unfold getAppInstanceValue. destruct (_ || _); [done|].
  unfold GetAppInstanceAnnotation. unfold GetAnnotations in Hk.
  destruct (ResAnnotations r) as [|m|]; cbn in *; [done| |done]. by rewrite Hk.
Qed.

(** Resources are owned by one installation: after [SetAppInstance] the resource
    belongs to the application it was set to, under any tracking method; with
    annotations no other installation sees it as its own, and after
    [RemoveAppInstance] it belongs to no application, of any installation. *)
Theorem SetAppInstance_owned un key val ns method inst un' :
  SetAppInstance un key val ns method inst = inr un' →
  (method = TrackingMethodLabel → GetAppName un' key method inst = val) ∧
  (method ≠ TrackingMethodLabel → separable (UnstructuredToAppInstanceValue un val ns) →
    GetAppName un' key method inst = val ∧
    ∀ inst', inst' ≠ inst → GetAppName un' key method inst' = "") ∧
  (∀ un'' inst', RemoveAppInstance un' method = inr un'' → GetAppName un'' LabelKeyAppInstance method inst' = "").
Proof.
  unfold SetAppInstance, GetAppName, RemoveAppInstance.
  destruct (String.eqb_spec method TrackingMethodLabel) as [->|Hml].
  - intros (_ & m & Hm & Hk)%SetAppInstanceLabel_spec. split_and!; [|done|].
    + intros _. unfold GetAppInstanceLabel. rewrite Hm. cbn. by rewrite Hk.
    + intros un'' _. unfold RemoveLabel. rewrite Hm. cbn [mbind result_bind nestedNullableStringMap]. intros [= <-].
      unfold GetAppInstanceLabel. pose proof (drop_key_lookup LabelKeyAppInstance m LabelKeyAppInstance) as H.
      rewrite lookup_delete_eq in H. cbn [ResLabels set_Labels]. destruct (drop_key _ _); cbn; [done|by rewrite H|done].
  - intros Hset. assert (∃ m, ResAnnotations un' = StringMap m ∧
      m !! AnnotationKeyAppInstance = Some (BuildAppInstanceValue (UnstructuredToAppInstanceValue un val ns)) ∧
      default "" (m !! AnnotationInstallationID) = inst) as (m & Hm & Hid & Hinst).
    { destruct (String.eqb method _); [|by apply set_annotation_spec in Hset].
      destruct (set_annotation un val ns inst) as [|un1] eqn:H1; [done|]. cbn [mbind result_bind] in Hset.
      destruct (TruncateLabel val) as [|l]; [done|]. apply SetAppInstanceLabel_spec in Hset as [Heq _].
      rewrite Heq. by apply set_annotation_spec. }
    split; [done|]. split.
    + intros _ Hsep. split; [|intros inst' Hne]; rewrite (getAppInstanceValue_spec _ m) by done.
      * rewrite decide_True by done. rewrite Hid. simpl. by rewrite Parse_Build.
      * by rewrite decide_False by congruence.
    + intros un'' inst' Hrm.
      assert (GetAnnotations un'' ≫= lookup AnnotationKeyAppInstance = None) as Hnone.
      { assert (∀ r r', remove_annotations r = inr r' →
          GetAnnotations r' ≫= lookup AnnotationKeyAppInstance = None) as Hboth.
        { unfold remove_annotations. intros r r'. destruct (RemoveAnnotation r _) as [|r1] eqn:H1; [done|].
          cbn [mbind result_bind]. intros [_ H2]%RemoveAnnotation_spec. apply RemoveAnnotation_spec in H1 as [_ H1].
          by rewrite H2, H1. }
        destruct (String.eqb method _); [|by eapply Hboth].
        destruct (remove_annotations un') as [|un1] eqn:H1; [done|]. cbn [mbind result_bind] in Hrm.
        rewrite <-(Hboth _ _ H1). unfold RemoveLabel in Hrm.
        destruct (nestedNullableStringMap _) as [|[labels|]]; [done|..]; by injection Hrm as <-. }
      by rewrite untracked.
Qed.

(** ** Truncated labels *)
Lemma substring_length n s : String.length (String.substring 0 n s) = min n (String.length s).
Proof. revert s. induction n as [|n IH]; intros s; destruct s; simpl; try done. by rewrite IH. Qed.

(** The fuel is enough, and what the loop returns is not longer and ends well. *)
Lemma shorten_ends fuel s :
  (String.length s <= S fuel)%nat →
  match shorten fuel s with
  | Some (inr l) => (String.length l <= String.length s)%nat ∧ ends_ok l = true
  | Some (inl _) => True
  | None => False
  end.
Proof.
  revert s. induction fuel as [|fuel IH]; intros s Hle; simpl; destruct (ends_ok s) eqn:He; try done.
  - destruct (Nat.leb_spec (String.length s) 1); [done|lia].
  - destruct (Nat.leb_spec (String.length s) 1); [done|].
    pose proof (substring_length (String.length s - 1) s) as Hlen.
    specialize (IH (String.substring 0 (String.length s - 1) s) ltac:(lia)).
    destruct (shorten _ _) as [[|l]|]; [done| |done]. destruct IH. split; [lia|done].
Qed.

(** A label is never longer than Kubernetes allows, and ends with a letter or digit
    if it was cut. *)
Lemma TruncateLabel_ok val l :
  TruncateLabel val = inr l →
  (String.length l <= LabelMaxLength)%nat ∧ (l = val ∨ ends_ok l = true).
Proof.
  unfold TruncateLabel. destruct (Nat.leb_spec (String.length val) LabelMaxLength).
  - intros [= <-]. auto.
  - pose proof (substring_length LabelMaxLength val) as Hlen.
    pose proof (shorten_ends LabelMaxLength (String.substring 0 LabelMaxLength val) ltac:(unfold LabelMaxLength in *; lia)) as H'.
    destruct (shorten _ _) as [[|l']|]; simpl; try done. intros [= <-]. destruct H'. split; [lia|by right].
Qed.

(** ** Concrete resources

    Instances of the theorems, and behaviours at the edges: custom label keys,
    installations that share a cluster, names with separators. *)

Module TrackingSample.
(** The configured label key of an installation *)
Definition custom_key : string := "example.com/app".

Definition web : resource :=
  {| ResGVK := mkGVK "apps" "v1" "Deployment"; ResName := "web"; ResNamespace := ""; ResLabels := NoMap;
     ResAnnotations := NoMap; TemplateLabels := NoMap; Selector := NoSelector |}.

Definition tracked (method inst : string) (r : resource) : resource :=
  match SetAppInstance r custom_key "guestbook" "prod" method inst with inr r' => r' | inl _ => r end.

Lemma SetAppInstance_owned_witness :
  GetAppName (tracked TrackingMethodAnnotation "east" web) custom_key TrackingMethodAnnotation "east" = "guestbook" ∧
  GetAppName (tracked TrackingMethodAnnotation "east" web) custom_key TrackingMethodAnnotation "west" = "".
Proof.
  assert (SetAppInstance web custom_key "guestbook" "prod" TrackingMethodAnnotation "east" =
    inr (tracked TrackingMethodAnnotation "east" web)) as H by reflexivity.
  destruct (SetAppInstance_owned _ _ _ _ _ _ _ H) as (_ & Ha & _).
  destruct (Ha ltac:(discriminate) ltac:(repeat split)) as [H1 H2]. split; [exact H1|]. apply H2. discriminate.
Defined.

Example id_of_web :
  BuildAppInstanceValue (UnstructuredToAppInstanceValue web "guestbook" "prod") = "guestbook:apps/Deployment:prod/web".
Proof. reflexivity. Qed.

Example colon_in_name :
  ParseAppInstanceValue "guestbook:rbac.authorization.k8s.io/Role:prod/system:reader" =
    Some {| ApplicationName := "guestbook"; AppGroup := "rbac.authorization.k8s.io"; AppKind := "Role";
            AppNamespace := "prod"; AppResName := "system:reader" |}.
Proof. reflexivity. Qed.

Example wrong_formats :
  map ParseAppInstanceValue ["guestbook"; "guestbook:apps/Deployment"; "guestbook:apps:prod/web";
    "guestbook:apps/Deployment:prod/web/2"] = [None; None; None; None].
Proof. reflexivity. Qed.

(** Old API versions get a selector without the tracking label. *)
Example legacy_selector :
  sum_map (λ e, e) Selector (SetAppInstanceLabel {| ResGVK := mkGVK "apps" "v1beta1" "Deployment"; ResName := "web";
    ResNamespace := ""; ResLabels := NoMap; ResAnnotations := NoMap;
    TemplateLabels := StringMap {["tier" := "front"]}; Selector := NoSelector |} LabelKeyLegacyApplicationName "guestbook") =
  inr (MatchLabels {["tier" := "front"]}).
Proof. vm_compute. reflexivity. Qed.

(** A cut that would end with a dash goes back to the last letter. *)
Example cut_label :
  TruncateLabel "a-name-that-is-longer-than-sixty-three-characters-and-has-a----tail" =
    inr "a-name-that-is-longer-than-sixty-three-characters-and-has-a".
Proof. reflexivity. Qed.
End TrackingSample.

Module TrackingEdges.
Import TrackingSample.

(** [RemoveAppInstance] removes the default label key; under label tracking with a
    configured key the resource stays with the application. *)
Example custom_label_stays :
  ∃ r, RemoveAppInstance (tracked TrackingMethodLabel "" web) TrackingMethodLabel = inr r ∧
    GetAppName r custom_key TrackingMethodLabel "" = "guestbook".
Proof. eexists. split; [vm_compute; reflexivity|reflexivity]. Qed.

(** With labels nothing tells installations apart. *)
Example labels_ignore_installations :
  GetAppName (tracked TrackingMethodLabel "east" web) custom_key TrackingMethodLabel "west" = "guestbook".
Proof. reflexivity. Qed.

(** A resource whose name has a slash is tracked by an id that does not parse. *)
Example slash_in_name_untracked :
  GetAppName (tracked TrackingMethodAnnotation "" {| ResGVK := mkGVK "apps" "v1" "Deployment"; ResName := "a/b";
    ResNamespace := ""; ResLabels := NoMap; ResAnnotations := NoMap; TemplateLabels := NoMap; Selector := NoSelector |})
    custom_key TrackingMethodAnnotation "" = "".
Proof. reflexivity. Qed.
End TrackingEdges.
