(* ===== verification/LiveState.v ===== *)
(** * The live state cache of the controller (src/controller/cache/cache.go)

    For each cluster the application controller keeps a cluster cache, fills in what it
    wants to know of the resources, and is told of their changes, from which it concludes
    which applications to refresh. *)

From S2P Require Import Prelude GoStd Kube ClusterCache Hierarchy Tracking ShardCache.
Local Open Scope string_scope.
Local Open Scope list_scope.
Local Open Scope nat_scope.

(** ** What is kept of a resource *)

Definition empty_info : ResourceInfo := {| AppName := ""; InfoHealth := None; manifestHash := "" |}.
Definition resInfo (r : Resource) : ResourceInfo := default empty_info (Info r).

Definition isRootAppNode (r : Resource) : bool :=
  negb (String.eqb (AppName (resInfo r)) "") && Nat.eqb (length (OwnerRefs r)) 0.

Definition AnnotationIgnoreResourceUpdates : string := "cd.hanzo.ai/ignore-resource-updates".
Definition application_group : string := "apps.hanzo.ai".
Definition ApplicationKind : string := "Application".

Definition shouldHashManifest (appName : string) (g : GroupVersionKind) (un : Unstructured) : bool :=
  if negb (String.eqb appName "") || (String.eqb (Group g) application_group && String.eqb (Kind g) ApplicationKind)
  then true
  else match Kube.GetAnnotations un !! AnnotationIgnoreResourceUpdates with
       | Some val => default false (ParseBool val)
       | None => false
       end.

(** [cacheSettings], the fields that are read here *)
Record cacheSettings := {
  appInstanceLabelKey : string;
  trackingMethod : string;
  installationID : string;
  ignoreResourceUpdatesEnabled : bool;
}.

(** What the handler calls: the health check and the hash of a manifest, which can fail *)
Record info_lib := {
  resource_health : Unstructured → option string;
  generateManifestHash : Unstructured → option string;
}.

Section handlers.
Context (lib : info_lib) (settings : cacheSettings).

(** The labels and annotations of an object, as far as tracking reads them *)
Definition json_strings (j : nested json) : string_map :=
  match j with
  | Found (JObj fields) =>
      if forallb (λ f, match snd f with JStr _ => true | _ => false end) fields
      then StringMap (list_to_map (omap (λ f, match snd f with JStr s => Some (fst f, s) | _ => None end) fields))
      else BadMap
  | Found JNull | NotFound => NoMap
  | _ => BadMap
  end.
Definition tracked_part (un : Unstructured) : resource :=
  {| ResGVK := gvk un; ResName := GetName un; ResNamespace := GetNamespace un;
     ResLabels := json_strings (nested_field (Object un) ["metadata"; "labels"]);
     ResAnnotations := StringMap (Kube.GetAnnotations un); TemplateLabels := NoMap; Selector := NoSelector |}.

(** The handler given to [SetPopulateResourceInfoHandler] *)
Definition populate (un : Unstructured) (isRoot : bool) : option ResourceInfo * bool :=
  let appName := GetAppName (tracked_part un) (appInstanceLabelKey settings) (trackingMethod settings) (installationID settings) in
  let rootName := if isRoot && negb (String.eqb appName "") then appName else "" in
  let hash := if ignoreResourceUpdatesEnabled settings && shouldHashManifest appName (gvk un) un
              then default "" (generateManifestHash lib un) else "" in
  (Some {| AppName := rootName; InfoHealth := resource_health lib un; manifestHash := hash |},
   negb (String.eqb rootName "") || String.eqb (Kind (gvk un)) CustomResourceDefinitionKind).

(** ** The application of a resource *)

(** [ownerRefGV(ownerRef).Group] *)
Definition ownerRefGroup (ownerRef : OwnerReference) : string := default "" (ParseGroup (OwnerAPIVersion ownerRef)).

(** The resource of the namespace that an owner reference names *)
Definition owner_in (ns : nodes) (r : Resource) (ownerRef : OwnerReference) : option Resource :=
  ns !! NewResourceKey (ownerRefGroup ownerRef) (OwnerKind ownerRef) (RefNamespace (Ref r)) (OwnerName ownerRef).

(** The loop over the owners: [recurse] is the call on a parent, with its own copy of
    [visited]. *)
Fixpoint owners_loop (recurse : Resource → option (string * bool)) (parents : list Resource) : option (string * bool) :=
  match parents with
  | [] => Some ("", true)
  | p :: rest =>
      '(app, ok) ← recurse p;
      if negb (String.eqb app "") || negb ok then Some (app, ok) else owners_loop recurse rest
  end.

Fixpoint getAppRecursive (fuel : nat) (ns : nodes) (visited : key_set) (r : Resource) : option (string * bool) :=
  match fuel with
  | 0 => None
  | S fuel =>
      if decide (visited !! Resource_Key r = Some ()) then Some (AppName (resInfo r), false)
      else if negb (String.eqb (AppName (resInfo r)) "") then Some (AppName (resInfo r), true)
      else owners_loop (getAppRecursive fuel ns (<[Resource_Key r := ()]> visited)) (omap (owner_in ns r) (OwnerRefs r))
  end.

(** A branch visits each resource of the namespace at most once. *)
Definition getApp_fuel (ns : nodes) : nat := S (S (size ns)).
Definition getApp (r : Resource) (ns : nodes) : option string := fst <$> getAppRecursive (getApp_fuel ns) ns ∅ r.

(** ** Changes *)

Definition skipResourceUpdate (oldInfo newInfo : option ResourceInfo) : bool :=
  match oldInfo, newInfo with
  | Some o, Some n =>
      bool_decide (InfoHealth o = InfoHealth n) &&
      (negb (String.eqb (manifestHash o) "") && negb (String.eqb (manifestHash n) "") && String.eqb (manifestHash o) (manifestHash n))
  | _, _ => false
  end.

Definition note_app (ns : nodes) (toNotify : gmap string bool) (r : Resource) : option (gmap string bool) :=
  app ← getApp r ns;
  if String.eqb app "" || skipAppRequeuing (Resource_Key r) then Some toNotify
  else Some (<[app := isRootAppNode r || default false (toNotify !! app)]> toNotify).

(** The handler given to [OnResourceUpdated]: the arguments it passes to
    [onObjectUpdated], or nothing if the change is ignored *)
Definition on_resource_updated (newRes oldRes : option Resource) (ns : nodes) :
    option (option (gmap string bool * ObjectReference)) :=
  match option_list newRes ++ option_list oldRes with
  | [] => None
  | (r :: _) as changed =>
      if ignoreResourceUpdatesEnabled settings &&
         match oldRes, newRes with Some o, Some n => skipResourceUpdate (Some (resInfo o)) (Some (resInfo n)) | _, _ => false end
      then Some None
      else
        toNotify ← foldl (λ om r, om ≫= λ m, note_app ns m r) (Some ∅) changed;
        Some (Some (toNotify, Ref r))
  end.
End handlers.
