(* ===== verification/LiveStateProofs.v ===== *)
(** * The live state cache: applications of resources, and who hears of changes *)

From S2P Require Import Prelude GoStd Kube ClusterCache ClusterCacheProofs Hierarchy HierarchyProofs Tracking LiveState.
Local Open Scope string_scope.
Local Open Scope list_scope.
Local Open Scope nat_scope.

(** ** The application of a resource *)

(** The parent is found in the namespace through an owner reference. *)
Definition parent (ns : nodes) (r p : Resource) : Prop := ∃ ref, ref ∈ OwnerRefs r ∧ owner_in ns r ref = Some p.
Definition keyed (ns : nodes) : Prop := ∀ k r, ns !! k = Some r → Resource_Key r = k.
(** Owner references do not go round in circles. *)
Definition ranked (ns : nodes) (rank : ResourceKey → nat) : Prop :=
  ∀ r p, parent ns r p → rank (Resource_Key p) < rank (Resource_Key r).

Lemma elem_of_parents ns r p : p ∈ omap (owner_in ns r) (OwnerRefs r) ↔ parent ns r p.
Proof. unfold parent. by rewrite list_elem_of_omap. Qed.

Section get_app.
Context (ns : nodes).
Hypothesis Hns : keyed ns.

Lemma parent_in r p : parent ns r p → ns !! Resource_Key p = Some p.
Proof. intros (ref&_&Hp). unfold owner_in in Hp. by rewrite (Hns _ _ Hp). Qed.

Definition unseen (visited : key_set) : nat := size (dom ns ∖ dom visited).

Lemma unseen_enter visited r :
  ns !! Resource_Key r = Some r → visited !! Resource_Key r ≠ Some () →
  unseen (<[Resource_Key r := ()]> visited) < unseen visited.
Proof.
  intros Hr Hv. unfold unseen. apply subset_size. rewrite dom_insert.
  assert (Resource_Key r ∈ dom ns) by (apply elem_of_dom; eauto).
  assert (Resource_Key r ∉ dom visited) by (apply not_elem_of_dom; by destruct (visited !! Resource_Key r) as [[]|]). set_solver.
Qed.

Lemma owners_loop_total recurse ps : (∀ p, p ∈ ps → is_Some (recurse p)) → is_Some (owners_loop recurse ps).
Proof.
  induction ps as [|p ps IH]; intros Hp; cbn [owners_loop]; [by eexists|].
  destruct (Hp p (list_elem_of_here _ _)) as [[app ok] ->]. cbn [mbind option_bind].
  destruct (_ || _); [by eexists|]. apply IH. intros q Hq. apply Hp. by right.
Qed.

Lemma getAppRecursive_total fuel visited r :
  ns !! Resource_Key r = Some r → unseen visited < fuel → is_Some (getAppRecursive fuel ns visited r).
Proof.
  revert visited r. induction fuel as [|fuel IH]; intros visited r Hr Hf; [lia|]. cbn [getAppRecursive].
  case_decide as Hv; [by eexists|]. destruct (negb _); [by eexists|]. apply owners_loop_total.
  intros p Hp%elem_of_parents. apply IH; [by eapply parent_in|]. pose proof (unseen_enter visited r Hr Hv). lia.
Qed.

Lemma getApp_total r : is_Some (getApp r ns).
Proof.
  unfold getApp, getApp_fuel. apply fmap_is_Some. cbn [getAppRecursive].
  case_decide as Hv; [by eexists|]. destruct (negb _); [by eexists|]. apply owners_loop_total.
  intros p Hp%elem_of_parents. apply (getAppRecursive_total (S (size ns))); [by eapply parent_in|].
  enough (unseen (<[Resource_Key r := ()]> ∅) ≤ size ns) by lia. unfold unseen. rewrite <-(size_dom ns). apply subseteq_size. set_solver.
Qed.

(** What the loop returns comes from a parent; it goes on past parents without. *)
Lemma owners_loop_spec recurse ps app ok :
  owners_loop recurse ps = Some (app, ok) →
  (app = "" ∧ ok = true ∧ ∀ p, p ∈ ps → recurse p = Some ("", true)) ∨
  ((app ≠ "" ∨ ok = false) ∧ ∃ p, p ∈ ps ∧ recurse p = Some (app, ok)).
Proof.
  induction ps as [|p ps IH]; cbn [owners_loop]; [intros [= <- <-]; left; split_and!; [done..|by intros ? ?%elem_of_nil]|].
  destruct (recurse p) as [[a k]|] eqn:E; [|done]. cbn [mbind option_bind].
  destruct (negb (String.eqb a "") || negb k) eqn:Eb.
  - intros [= <- <-]. right. split; [|exists p; split; [by left|done]].
    apply orb_true_iff in Eb as [Ha%negb_true_iff%String.eqb_neq|Hk%negb_true_iff]; auto.
  - apply orb_false_iff in Eb as [Ha%negb_false_iff%String.eqb_eq Hk%negb_false_iff]. subst a k.
    intros [(?&?&Hall)|(Hne&q&Hq&Eq)]%IH; [left|right].
    + split_and!; [done..|]. intros q [->|Hq]%elem_of_cons; [done|by apply Hall].
    + split; [done|]. exists q. split; [by right|done].
Qed.

Lemma getAppRecursive_sound fuel visited r app ok :
  getAppRecursive fuel ns visited r = Some (app, ok) → app ≠ "" →
  ∃ p, rtc (parent ns) r p ∧ AppName (resInfo p) = app.
Proof.
  revert visited r. induction fuel as [|fuel IH]; intros visited r; [done|]. cbn [getAppRecursive].
  case_decide; [intros [= <- _] _; exists r; split; [apply rtc_refl|done]|].
  destruct (negb _); [intros [= <- _] _; exists r; split; [apply rtc_refl|done]|].
  intros [(->&_&_)|(_&p&Hp%elem_of_parents&Er)]%owners_loop_spec Ha; [done|].
  destruct (IH _ _ Er Ha) as (q&Hq&?). exists q. split; [|done]. by eapply rtc_l.
Qed.

Lemma getAppRecursive_complete rank fuel visited r app ok :
  ranked ns rank → (∀ k, visited !! k = Some () → rank (Resource_Key r) < rank k) →
  getAppRecursive fuel ns visited r = Some (app, ok) →
  ok = true ∧ (app = "" → ∀ p, rtc (parent ns) r p → AppName (resInfo p) = "").
Proof.
  intros Hrank. revert visited r app ok. induction fuel as [|fuel IH]; intros visited r app ok Hvis; [done|]. cbn [getAppRecursive].
  case_decide as Hv; [specialize (Hvis _ Hv); lia|].
  destruct (negb (String.eqb (AppName (resInfo r)) "")) eqn:Ea.
  { apply negb_true_iff, String.eqb_neq in Ea. intros [= <- <-]. done. }
  apply negb_false_iff, String.eqb_eq in Ea.
  assert (∀ p app ok, parent ns r p → getAppRecursive fuel ns (<[Resource_Key r := ()]> visited) p = Some (app, ok) →
    ok = true ∧ (app = "" → ∀ q, rtc (parent ns) p q → AppName (resInfo q) = "")) as Hrec.
  { intros p a k Hp. apply IH. intros k' [[<- _]|[_ Hk']]%lookup_insert_Some; [by apply Hrank|].
    pose proof (Hrank _ _ Hp). specialize (Hvis _ Hk'). lia. }
  intros [(->&->&Hall)|(Hne&p&Hp%elem_of_parents&Er)]%owners_loop_spec.
  - split; [done|]. intros _ p Hp. destruct Hp as [r|r q p Hq Hp]; [done|].
    pose proof (Hall q ltac:(by apply elem_of_parents)) as E. by eapply (proj2 (Hrec _ _ _ Hq E)).
  - destruct (Hrec _ _ _ Hp Er) as [-> Hnone]. split; [done|]. intros ->. by destruct Hne.
Qed.
End get_app.

(** The application of a resource is found through its owners: the search ends, also if
    owner references go round in circles; a name it returns is that of the resource itself or
    of an ancestor in the namespace; and without circles it returns none only if no ancestor
    has one. *)
Theorem getApp_finds_owner (ns : nodes) r (Hkeys : ∀ k v, ns !! k = Some v → Resource_Key v = k) :
  ∃ app, getApp r ns = Some app ∧
    (app ≠ "" → ∃ p, rtc (parent ns) r p ∧ AppName (resInfo p) = app) ∧
    (∀ rank, ranked ns rank → app = "" → ∀ p, rtc (parent ns) r p → AppName (resInfo p) = "").
Proof.
  destruct (getApp_total ns Hkeys r) as [app Happ]. exists app. split; [done|].
  apply fmap_Some in Happ as ([a ok]&E&->). cbn [fst]. split.
  - by eapply getAppRecursive_sound.
  - intros rank Hrank. eapply (getAppRecursive_complete ns rank); [done| |exact E]. intros k Hk. by rewrite lookup_empty in Hk.
Qed.

(** ** Who hears of a change *)

(** The change of the resource is reported to the application. *)
Definition reported (ns : nodes) (r : Resource) (app : string) : Prop :=
  getApp r ns = Some app ∧ app ≠ "" ∧ skipAppRequeuing (Resource_Key r) = false.

Lemma note_app_spec ns m r : keyed ns →
  ∃ m', note_app ns m r = Some m' ∧
    ∀ app, (m' !! app = Some true ↔ m !! app = Some true ∨ (reported ns r app ∧ isRootAppNode r = true)) ∧
           (is_Some (m' !! app) ↔ is_Some (m !! app) ∨ reported ns r app).
Proof.
  intros Hns. unfold note_app, reported. destruct (getApp_total ns Hns r) as [a ->]. cbn [mbind option_bind].
  destruct (String.eqb a "" || skipAppRequeuing (Resource_Key r)) eqn:E.
  - exists m. split; [done|]. intros app.
    assert (¬ (Some a = Some app ∧ app ≠ "" ∧ skipAppRequeuing (Resource_Key r) = false)) as Hno.
    { intros ([= ->]&Ha&Hs). apply orb_true_iff in E as [E%String.eqb_eq|E]; congruence. }
    clear E. tauto.
  - apply orb_false_iff in E as [Ea%String.eqb_neq Es]. eexists. split; [done|]. intros app.
    destruct (decide (a = app)) as [->|Hne].
    + rewrite lookup_insert_eq. split.
      * split.
        -- intros [= [Hr|Hm]%orb_true_iff]; [by right|left]. by destruct (m !! app) as [[]|].
        -- intros [->|[_ ->]]; [by destruct (isRootAppNode r)|done].
      * split; [|by eexists]. intros _. by right.
    + rewrite lookup_insert_ne by done.
      assert (¬ (Some a = Some app ∧ app ≠ "" ∧ skipAppRequeuing (Resource_Key r) = false)) as Hno by (intros ([= ->]&_); done).
      tauto.
Qed.

Lemma note_apps_spec ns rs m : keyed ns →
  ∃ m', foldl (λ om r, om ≫= λ m, note_app ns m r) (Some m) rs = Some m' ∧
    ∀ app, (m' !! app = Some true ↔ m !! app = Some true ∨ ∃ r, r ∈ rs ∧ reported ns r app ∧ isRootAppNode r = true) ∧
           (is_Some (m' !! app) ↔ is_Some (m !! app) ∨ ∃ r, r ∈ rs ∧ reported ns r app).
Proof.
  intros Hns. revert m. induction rs as [|r rs IH]; intros m; cbn [foldl mbind option_bind].
  { exists m. split; [done|]. intros app. setoid_rewrite elem_of_nil. naive_solver. }
  destruct (note_app_spec ns m r Hns) as (m1&->&H1). destruct (IH m1) as (m2&Hm2&H2). exists m2. split; [exact Hm2|].
  intros app. destruct (H1 app) as [Ha Hb], (H2 app) as [Hc Hd]. setoid_rewrite elem_of_cons. rewrite Hc, Hd, Ha, Hb. naive_solver.
Qed.

Lemma elem_of_option_list {A} (o : option A) x : x ∈ option_list o ↔ o = Some x.
Proof.
  destruct o as [y|]; simpl.
  - rewrite list_elem_of_singleton. split; congruence.
  - by rewrite elem_of_nil.
Qed.

Lemma on_resource_updated_spec (settings : cacheSettings) newRes oldRes (ns : nodes)
    (Hkeys : ∀ k v, ns !! k = Some v → Resource_Key v = k) (Hsome : is_Some newRes ∨ is_Some oldRes) :
  match on_resource_updated settings newRes oldRes ns with
  | None => False
  | Some None =>
      ignoreResourceUpdatesEnabled settings = true ∧
      ∃ o n, oldRes = Some o ∧ newRes = Some n ∧ skipResourceUpdate (Some (resInfo o)) (Some (resInfo n)) = true
  | Some (Some (toNotify, ref)) =>
      (∀ app, is_Some (toNotify !! app) ↔ ∃ r, (newRes = Some r ∨ oldRes = Some r) ∧ reported ns r app) ∧
      (∀ app, toNotify !! app = Some true ↔
        ∃ r, (newRes = Some r ∨ oldRes = Some r) ∧ reported ns r app ∧ isRootAppNode r = true)
  end.
Proof.
  unfold on_resource_updated. set (changed := option_list newRes ++ option_list oldRes).
  assert (∀ r, r ∈ changed ↔ newRes = Some r ∨ oldRes = Some r) as Hch.
  { intros r. unfold changed. by rewrite elem_of_app, !elem_of_option_list. }
  destruct changed as [|r0 rs] eqn:Ec.
  { destruct Hsome as [[r Hr]|[r Hr]]; by assert (r ∈ []) as ?%elem_of_nil by (apply Hch; auto). }
  destruct (ignoreResourceUpdatesEnabled settings && _) eqn:Ei.
  - apply andb_true_iff in Ei as [Hi Hs]. split; [done|]. destruct oldRes as [o|], newRes as [n|]; try done. eauto.
  - destruct (note_apps_spec ns (r0 :: rs) ∅ Hkeys) as (m&->&Hm). cbn [mbind option_bind].
    split; intros app; destruct (Hm app) as [Ha Hb]; rewrite ?Ha, ?Hb, lookup_empty; setoid_rewrite Hch; naive_solver.
Qed.

(** A change is reported to exactly the applications that the old or the new resource
    belongs to, endpoints aside, and as a change of a managed resource exactly if one of them
    is a root of the application; it is ignored exactly if updates may be ignored and neither
    health nor the hash of the manifest changed. *)
Theorem on_resource_updated_correct (settings : cacheSettings) newRes oldRes (ns : nodes)
    (Hkeys : ∀ k v, ns !! k = Some v → Resource_Key v = k) (Hsome : is_Some newRes ∨ is_Some oldRes) :
  match on_resource_updated settings newRes oldRes ns with
  | None => False
  | Some None =>
      ignoreResourceUpdatesEnabled settings = true ∧
      ∃ o n, oldRes = Some o ∧ newRes = Some n ∧ skipResourceUpdate (Some (resInfo o)) (Some (resInfo n)) = true
  | Some (Some (toNotify, ref)) =>
      (∀ app, is_Some (toNotify !! app) ↔ ∃ r, (newRes = Some r ∨ oldRes = Some r) ∧ reported ns r app) ∧
      (∀ app, toNotify !! app = Some true ↔
        ∃ r, (newRes = Some r ∨ oldRes = Some r) ∧ reported ns r app ∧ isRootAppNode r = true)
  end.
Proof. by apply on_resource_updated_spec. Qed.

(** ** From the event to the application *)

(** The library of the cluster cache, with the handler of the controller *)
Definition controller_lib (base : CacheLib) (lib : info_lib) (settings : cacheSettings) : CacheLib := {|
  statefulset_templates := statefulset_templates;
  creation_timestamp := creation_timestamp;
  populateResourceInfo := populate lib settings;
|}.

Section composition.
Context {R : GoRuntime} `{CL : CacheLib}.

Lemma infer_owner_keeps l key st k lv n :
  heap st !! l = Some n → mightHaveInferredOwner n = false → heap (infer_owner l key st (k, lv)) !! l = Some n.
Proof.
  intros Hl Hm. unfold infer_owner. rewrite Hl, Hm. destruct (heap st !! lv) as [v|] eqn:Hv; [|done].
  assert (heap (match isInferredParentOf n with
                | Some f => if mightHaveInferredOwner v then set_owner n lv k (f k) st else st
                | None => st end) !! l = Some n) as H.
  { destruct (isInferredParentOf n) as [f|]; [|done]. destruct (mightHaveInferredOwner v) eqn:Hmv; [|done].
    cbn [set_owner set_children set_heap heap]. rewrite lookup_alter_ne; [done|]. intros ->. congruence. }
  by destruct (isInferredParentOf v).
Qed.

(** A resource that can have no inferred owner is cached as it is. *)
Lemma setNode_keeps n st :
  mightHaveInferredOwner n = false → get (setNode n st) (Resource_Key n) = Some n.
Proof.
  intros Hm. unfold setNode. set (l := fresh _). set (st1 := store_node l n st).
  assert (heap st1 !! l = Some n ∧ resources st1 !! Resource_Key n = Some l) as [H1 H2].
  { split; apply lookup_insert_eq. }
  destruct (_ || _); [|apply get_Some; eauto]. enough (∀ es, heap (foldl (infer_owner l (Resource_Key n)) st1 es) !! l = Some n ∧
    resources (foldl (infer_owner l (Resource_Key n)) st1 es) !! Resource_Key n = Some l) as H.
  { apply get_Some. exists l. split; apply H. }
  clearbody st1. intros es. revert st1 H1 H2. induction es as [|[k lv] es IH]; intros st1 H1 H2; [done|]. cbn [foldl]. apply IH.
  - by apply infer_owner_keeps.
  - rewrite <-H2. unfold infer_owner. repeat case_match; done.
Qed.
End composition.

Lemma on_resource_updated_ref settings n old ns toNotify ref :
  on_resource_updated settings (Some n) old ns = Some (Some (toNotify, ref)) → ref = Ref n.
Proof.
  unfold on_resource_updated. change (option_list (Some n) ++ option_list old) with (n :: option_list old). cbn match.
  destruct (_ && _); [done|].
  destruct (foldl (λ om r, om ≫= λ m, note_app ns m r) (Some ∅) (n :: option_list old)); [|done]. by intros [= _ <-].
Qed.

(** A root carries the name of its application. *)
Lemma newResource_app (base : CacheLib) lib settings un app :
  let CL := controller_lib base lib settings in
  GetAppName (tracked_part un) (appInstanceLabelKey settings) (trackingMethod settings) (installationID settings) = app →
  app ≠ "" → OwnerRefs (newResource un) = [] → AppName (resInfo (newResource un)) = app.
Proof.
  intros CL Happ Hne%String.eqb_neq. unfold newResource. destruct (resolveResourceReferences un) as [refs p].
  cbn [CL controller_lib populateResourceInfo]. unfold populate. cbn [OwnerRefs]. intros ->. cbn. rewrite Happ, Hne. done.
Qed.

(** A change of a resource that carries the tracking id of an application, and has no
    owner, is reported to the application as a change of a managed resource, unless updates
    of its kind may be ignored and nothing that matters changed. *)
Lemma managed_change_notifies (R : GoRuntime) (base : CacheLib) lib settings st ev un app :
  let CL := controller_lib base lib settings in
  let n := newResource un in
  rtc cache_step empty_cache st → served un → ev ≠ Deleted →
  GetAppName (tracked_part un) (appInstanceLabelKey settings) (trackingMethod settings) (installationID settings) = app →
  app ≠ "" → OwnerRefs n = [] → mightHaveInferredOwner n = false → skipAppRequeuing (GetResourceKey un) = false →
  let st' := processEvent ev un st in
  ∃ old, notified st' = notified st ++ [(Some n, old)] ∧
    match on_resource_updated settings (Some n) old (ns_nodes st' (GetNamespace un)) with
    | Some (Some (toNotify, ref)) => toNotify !! app = Some true ∧ ref = Ref n
    | Some None => ignoreResourceUpdatesEnabled settings = true ∧
                   ∃ o, old = Some o ∧ skipResourceUpdate (Some (resInfo o)) (Some (resInfo n)) = true
    | None => False
    end.
Proof.
  intros CL n Hst Hun Hev Happ Hne Ho Hm Hskip st'.
  pose proof (newResource_key un Hun) as Hkey. fold n in Hkey.
  pose proof (reachable_consistent st Hst) as HI.
  destruct (processEvent_ok st ev un st (conj HI (reflexivity st)) ltac:(done)) as [[HI' _] _]. fold st' in HI'.
  assert (st' = onNodeUpdated (get st (GetResourceKey un)) n st) as Est by by destruct ev.
  destruct (setNode_ok n st HI) as (_&_&Hnt); [by apply Hun|].
  exists (get st (GetResourceKey un)). split.
  { rewrite Est. cbn [onNodeUpdated notify notified]. by rewrite setNode_keeps, Hnt. }
  assert (reported (ns_nodes st' (GetNamespace un)) n app ∧ isRootAppNode n = true) as Hrep.
  { assert (AppName (resInfo n) = app) as Ha by by apply newResource_app.
    unfold reported, getApp, getApp_fuel, isRootAppNode. rewrite Hkey, Ho. cbn [getAppRecursive].
    rewrite decide_False by (by rewrite lookup_empty). rewrite Ha. apply String.eqb_neq in Hne. by rewrite Hne; apply String.eqb_neq in Hne. }
  assert (keyed (ns_nodes st' (GetNamespace un))) as Hkeyed.
  { intros k v Hk. apply lookup_ns_nodes in Hk as [Hk _]; [|done]. by eapply get_key. }
  pose proof (on_resource_updated_spec settings (Some n) (get st (GetResourceKey un)) _ Hkeyed (or_introl (mk_is_Some _ _ eq_refl))) as H.
  destruct (on_resource_updated _ _ _ _) as [[[toNotify ref]|]|] eqn:E; [|naive_solver|done].
  split; [apply (proj2 H); exists n; split; [by left|done]|]. by apply on_resource_updated_ref in E.
Qed.

(** ** A concrete application

    A deployment tracked by an application, its replica set and pod: who hears of their
    changes, and behaviours at the edges. *)

Module LiveSample.
#[local] Existing Instance reference_runtime.

Definition base_lib : CacheLib :=
  {| statefulset_templates := λ _, None; creation_timestamp := λ _, ""; populateResourceInfo := λ _ _, (None, false) |}.

(** Health is what the status says; the hash is the resource version. *)
Definition sample_info : info_lib := {|
  resource_health := λ un, match nested_field (Object un) ["status"] with Found (JStr s) => Some s | _ => None end;
  generateManifestHash := λ un, Some (GetResourceVersion un);
|}.
Definition sample_settings (ignore : bool) : cacheSettings :=
  {| appInstanceLabelKey := "app"; trackingMethod := TrackingMethodAnnotation; installationID := "";
     ignoreResourceUpdatesEnabled := ignore |}.
#[local] Instance sample_lib : CacheLib := controller_lib base_lib sample_info (sample_settings true).

Definition live (g : GroupVersionKind) (name uid version id status : string) (owners : list json) : Unstructured :=
  mkObj 0 g (Kind g) name "prod" "" (if String.eqb id "" then ∅ else {[AnnotationKeyAppInstance := id]}) [] uid version None []
    (JObj [("metadata", JObj [("ownerReferences", JList owners)]); ("status", JStr status)]).
Definition owned (uid name kind : string) : json :=
  JObj [("uid", JStr uid); ("name", JStr name); ("kind", JStr kind); ("apiVersion", JStr "apps/v1")].

Definition web (version status : string) : Unstructured :=
  live (mkGVK "apps" "v1" "Deployment") "web" "u1" version "guestbook:apps/Deployment:prod/web" status [].
Definition rs (kind : string) : Unstructured :=
  live (mkGVK "apps" "v1" "ReplicaSet") "web-1" "u2" "1" "" "Healthy" [owned "u1" "web" "Deployment"].
Definition pod (status : string) : Unstructured :=
  live (mkGVK "" "v1" "Pod") "web-1-a" "u3" "1" "" status [owned "u2" "web-1" "ReplicaSet"].

Definition before : cache_state := foldl recordEvent empty_cache [(Added, web "1" "Progressing"); (Added, rs "1"); (Added, pod "Healthy")].

Lemma sample_served un : mightHaveInferredOwner (newResource un) = false → GetKind un = Kind (gvk un) →
  ParseGroup (gv_string (gvk un)) = Some (Group (gvk un)) → served un.
Proof. intros Hm Hk Hg. split; [exact Hk|split; [exact Hg|]]. intros H. congruence. Qed.

Lemma before_reachable : rtc cache_step empty_cache before.
Proof.
  unfold before. cbn [foldl]. repeat (eapply rtc_r; [|apply step_event; intros _; apply sample_served; reflexivity]). apply rtc_refl.
Qed.

Definition namespace_nodes : nodes := ns_nodes before "prod".
Lemma namespace_keys k v : namespace_nodes !! k = Some v → Resource_Key v = k.
Proof.
  intros H. assert (map_Forall (λ k r, Resource_Key r = k) namespace_nodes) as Hall; [|exact (Hall k v H)].
  apply (bool_decide_unpack _). vm_compute. exact I.
Qed.

Lemma getApp_finds_owner_witness :
  ∃ app, getApp (newResource (pod "Healthy")) namespace_nodes = Some app ∧
    (app ≠ "" → ∃ p, rtc (parent namespace_nodes) (newResource (pod "Healthy")) p ∧ AppName (resInfo p) = app) ∧ app = "guestbook".
Proof.
  destruct (getApp_finds_owner namespace_nodes (newResource (pod "Healthy")) namespace_keys) as (app & Happ & Hfrom & _).
  exists app. split; [exact Happ|]. split; [exact Hfrom|].
  assert (getApp (newResource (pod "Healthy")) namespace_nodes = Some "guestbook") as H by (vm_compute; reflexivity). congruence.
Defined.

(** The pod fails: its application hears of it, but not as of a managed resource. *)
Definition pod_change : option (option (gmap string bool * ObjectReference)) :=
  on_resource_updated (sample_settings true) (Some (newResource (pod "Degraded"))) (Some (newResource (pod "Healthy"))) namespace_nodes.

Lemma on_resource_updated_correct_witness :
  match pod_change with
  | Some (Some (toNotify, _)) => is_Some (toNotify !! "guestbook") ∧ toNotify !! "guestbook" ≠ Some true
  | _ => False
  end.
Proof.
  pose proof (on_resource_updated_correct (sample_settings true) (Some (newResource (pod "Degraded")))
    (Some (newResource (pod "Healthy"))) namespace_nodes namespace_keys (or_introl (mk_is_Some _ _ eq_refl))) as H.
  change (match pod_change with
    | None => False
    | Some None => ignoreResourceUpdatesEnabled (sample_settings true) = true ∧ ∃ o n, Some (newResource (pod "Healthy")) = Some o ∧
        Some (newResource (pod "Degraded")) = Some n ∧ skipResourceUpdate (Some (resInfo o)) (Some (resInfo n)) = true
    | Some (Some (toNotify, _)) =>
        (∀ app, is_Some (toNotify !! app) ↔ ∃ r, (Some (newResource (pod "Degraded")) = Some r ∨ Some (newResource (pod "Healthy")) = Some r) ∧
          reported namespace_nodes r app) ∧
        (∀ app, toNotify !! app = Some true ↔ ∃ r, (Some (newResource (pod "Degraded")) = Some r ∨ Some (newResource (pod "Healthy")) = Some r) ∧
          reported namespace_nodes r app ∧ isRootAppNode r = true)
    end) in H.
  destruct pod_change as [[[toNotify ref]|]|]; [|destruct H as (_&o&n&Ho&Hn&Hs)|exact H].
  - destruct H as [H1 H2]. split.
    + apply H1. exists (newResource (pod "Degraded")). split; [left; reflexivity|]. split; [vm_compute; reflexivity|]. split; [discriminate|reflexivity].
    + intros Ht. apply H2 in Ht as (r & [Hr|Hr] & _ & Hroot); injection Hr as <-; vm_compute in Hroot; discriminate Hroot.
  - injection Ho as <-. injection Hn as <-. vm_compute in Hs. discriminate Hs.
Defined.

(** The same manifest and the same health: the change is ignored. *)
Example same_hash_ignored :
  on_resource_updated (sample_settings true) (Some (newResource (web "1" "Progressing"))) (Some (newResource (web "1" "Progressing")))
    namespace_nodes = Some None.
Proof. vm_compute. reflexivity. Qed.

(** ** Owners in circles *)

(** An orphan whose owners name each other, and then the deployment: the circle ends the
    search, so that the deployment, which has an application, is not asked. *)
Definition circle (name uid other_uid other : string) (more : list json) : Resource :=
  newResource (live (mkGVK "apps" "v1" "ReplicaSet") name uid "1" "" "" (owned other_uid other "ReplicaSet" :: more)).
Definition circular : nodes :=
  list_to_map ((λ r, (Resource_Key r, r)) <$>
    [circle "a" "ua" "ub" "b" [owned "u1" "web" "Deployment"]; circle "b" "ub" "ua" "a" []; newResource (web "1" "Healthy")]).

Example circle_hides_owner :
  getApp (circle "a" "ua" "ub" "b" [owned "u1" "web" "Deployment"]) circular = Some "" ∧
  map (AppName ∘ resInfo) (omap (owner_in circular (circle "a" "ua" "ub" "b" [owned "u1" "web" "Deployment"]))
    (OwnerRefs (circle "a" "ua" "ub" "b" [owned "u1" "web" "Deployment"]))) = [""; "guestbook"].
Proof. split; vm_compute; reflexivity. Qed.
End LiveSample.
