(* ===== verification/AppRefresh.v ===== *)
(** * Refreshing applications (src/controller/appcontroller.go)

    Why and how thoroughly the controller compares an application again: requests with a
    level of comparison, the handler of changed resources, the queues, and one turn of the
    worker that refreshes. *)

From S2P Require Import Prelude GoStd GoMatch GoTime Kube Glob AppTypes ShardCache ClusterCache.
From Stdlib Require Import Ascii.
Local Open Scope string_scope.
Local Open Scope list_scope.
Local Open Scope Z_scope.

(** ** Levels of comparison *)

(** [CompareWith] *)
Definition CompareWithLatestForceResolve : Z := 3.
Definition CompareWithLatest : Z := 2.
Definition CompareWithRecent : Z := 1.
Definition ComparisonWithNothing : Z := 0.

Inductive RefreshType := RefreshTypeNormal | RefreshTypeHard.

#[export] Instance RefreshType_eq_dec : EqDecision RefreshType.
Proof. solve_decision. Defined.

(** ** Applications *)

(** An application condition; the time is in seconds. *)
Record ApplicationCondition := { CondType : string; CondMessage : string; LastTransitionTime : option Z }.

#[export] Instance ApplicationCondition_eq_dec : EqDecision ApplicationCondition.
Proof. solve_decision. Defined.

(** [SyncStatus]: [Revision] of one source, [Revisions] of several; [ComparedTo].  Sources,
    destinations, ignored differences and namespace metadata are only compared. *)
Record SyncStatus := {
  SyncCode : string;
  Revision : string;
  Revisions : list string;
  ComparedSources : list string;
  ComparedDestination : AppTypes.ApplicationDestination;
  ComparedIgnoreDifferences : string;
}.

(** [ApplicationStatus]; the summary and the resources are left out. *)
Record ApplicationStatus := {
  ReconciledAt : option Z;
  Conditions : list ApplicationCondition;
  Sync : SyncStatus;
  HealthCode : string;
  (** [OperationState.SyncResult]: its namespace metadata *)
  SyncResultMetadata : option (option string);
}.

Record Application := {
  AppNamespace : string;
  AppName : string;
  AppUID : string;
  AppAnnotations : gmap string string;
  Finalizers : list string;
  Deleting : bool;
  HasOperation : bool;
  HasMultipleSources : bool;
  SpecSources : list string;
  TargetRevisions : list string;
  SpecDestination : AppTypes.ApplicationDestination;
  SpecIgnoreDifferences : string;
  (** [Spec.SyncPolicy.ManagedNamespaceMetadata] *)
  NamespaceMetadata : option string;
  Status : ApplicationStatus;
}.

#[export] Instance ApplicationDestination_eq_dec : EqDecision AppTypes.ApplicationDestination.
Proof. solve_decision. Defined.

Definition AnnotationKeyRefresh : string := "apps.hanzo.ai/refresh".

Definition IsRefreshRequested (app : Application) : option RefreshType :=
  match AppAnnotations app !! AnnotationKeyRefresh with
  | None => None
  | Some t => Some (if String.eqb t "hard" then RefreshTypeHard else RefreshTypeNormal)
  end.

Definition InstanceName (defaultNs : string) (app : Application) : string :=
  if String.eqb (AppNamespace app) "" || String.eqb (AppNamespace app) defaultNs then AppName app
  else AppNamespace app +:+ "_" +:+ AppName app.

Definition QualifiedName (app : Application) : string :=
  if String.eqb (AppNamespace app) "" then AppName app else AppNamespace app +:+ "/" +:+ AppName app.

Definition HasChangedManagedNamespaceMetadata (app : Application) : bool :=
  match NamespaceMetadata app, SyncResultMetadata (Status app) with
  | Some m, Some m' => bool_decide (Some m ≠ m')
  | _, _ => false
  end.

(** With several sources both lists, otherwise the one source and the one compared *)
Definition currentSourceEqualsSyncedSource (app : Application) : bool := bool_decide (SpecSources app = ComparedSources (Sync (Status app))).

(** [shouldProcessOperation] *)
Definition shouldProcessOperation (app : Application) : bool := HasOperation app || Deleting app.

(** ** Conditions *)

Definition findConditionIndexByType (conditions : list ApplicationCondition) (t : string) : option nat :=
  fst <$> list_find (λ c, CondType c = t) conditions.

Definition timed (now : Z) (c : ApplicationCondition) : ApplicationCondition :=
  {| CondType := CondType c; CondMessage := CondMessage c;
     LastTransitionTime := Some (default now (LastTransitionTime c)) |}.

(** The condition that is stored for an incoming one *)
Definition incoming (now : Z) (old : list ApplicationCondition) (condition : ApplicationCondition) : ApplicationCondition :=
  match findConditionIndexByType old (CondType condition) with
  | Some eci =>
      match old !! eci with
      | Some c => if String.eqb (CondMessage c) (CondMessage condition) then c else timed now condition
      | None => timed now condition
      end
  | None => timed now condition
  end.

Definition cond_text (time_text : option Z → string) (c : ApplicationCondition) : string :=
  CondType c +:+ "/" +:+ CondMessage c +:+ "/" +:+ time_text (LastTransitionTime c).

Section conditions.
Context {R : GoRuntime} (time_text : option Z → string).

Definition SetConditions (now : Z) (conditions : list ApplicationCondition) (evaluatedTypes : list string)
    (old : list ApplicationCondition) : list ApplicationCondition :=
  let kept := timed now <$> filter (λ c, CondType c ∉ evaluatedTypes) old in
  go_sort (λ left right, String.ltb (cond_text time_text left) (cond_text time_text right))
    (kept ++ (incoming now old <$> conditions)).

(** [setAppCondition]: the conditions to store, or nothing if the condition is there *)
Definition setAppCondition (now : Z) (condition : ApplicationCondition) (old : list ApplicationCondition) :
    option (list ApplicationCondition) :=
  if existsb (λ c, String.eqb (CondMessage c) (CondMessage condition) && String.eqb (CondType c) (CondType condition)) old
  then None else Some (SetConditions now [condition] [CondType condition] old).
End conditions.

(** ** Requests and queues *)

(** Keys that wait in a queue; a key is there once.  The delay that rate limiting adds
    is left out; a delayed addition is kept with its delay. *)
Record queues := {
  refreshRequestedApps : gmap string Z;
  appRefreshQueue : gset string;
  delayedRefresh : list (string * Z);
  comparisonQueue : list (string * Z);
  appOperationQueue : list (string * Z);
}.

(** [strings.ReplaceAll] of a character *)
Fixpoint replace_char (a b : ascii) (s : string) : string :=
  match s with
  | "" => ""
  | String c r => String (if Ascii.eqb c a then b else c) (replace_char a b r)
  end%string.

Definition toAppKey (namespace appName : string) : string :=
  if negb (Contains appName "_") && negb (Contains appName "/") then namespace +:+ "/" +:+ appName
  else if Contains appName "/" then appName
  else replace_char "_" "/" appName.

Definition toAppQualifiedName (appName appNamespace : string) : string := appNamespace +:+ "/" +:+ appName.

(** Adding to the queues *)
Definition add_request (key : string) (level : Z) (q : queues) : queues :=
  {| refreshRequestedApps := <[key := Z.max level (default 0 (refreshRequestedApps q !! key))]> (refreshRequestedApps q);
     appRefreshQueue := appRefreshQueue q; delayedRefresh := delayedRefresh q;
     comparisonQueue := comparisonQueue q; appOperationQueue := appOperationQueue q |}.
Definition add_refresh (key : string) (after : option Z) (q : queues) : queues :=
  {| refreshRequestedApps := refreshRequestedApps q;
     appRefreshQueue := match after with None => {[key]} ∪ appRefreshQueue q | Some _ => appRefreshQueue q end;
     delayedRefresh := match after with None => delayedRefresh q | Some d => delayedRefresh q ++ [(key, d)] end;
     comparisonQueue := comparisonQueue q; appOperationQueue := appOperationQueue q |}.
Definition add_comparison (item : string) (after : Z) (q : queues) : queues :=
  {| refreshRequestedApps := refreshRequestedApps q; appRefreshQueue := appRefreshQueue q;
     delayedRefresh := delayedRefresh q; comparisonQueue := comparisonQueue q ++ [(item, after)];
     appOperationQueue := appOperationQueue q |}.
Definition add_operation (key : string) (after : Z) (q : queues) : queues :=
  {| refreshRequestedApps := refreshRequestedApps q; appRefreshQueue := appRefreshQueue q;
     delayedRefresh := delayedRefresh q; comparisonQueue := comparisonQueue q;
     appOperationQueue := appOperationQueue q ++ [(key, after)] |}.

Definition requestAppRefresh (namespace appName : string) (compareWith after : option Z) (q : queues) : queues :=
  let key := toAppKey namespace appName in
  match compareWith, after with
  | Some level, Some d => add_comparison (key +:+ "/" +:+ pretty level) d q
  | _, _ => add_refresh key after (match compareWith with Some level => add_request key level q | None => q end)
  end.

Definition isRefreshRequested (appName : string) (q : queues) : option Z * queues :=
  match refreshRequestedApps q !! appName with
  | Some level =>
      (Some level,
       {| refreshRequestedApps := delete appName (refreshRequestedApps q); appRefreshQueue := appRefreshQueue q;
          delayedRefresh := delayedRefresh q; comparisonQueue := comparisonQueue q; appOperationQueue := appOperationQueue q |})
  | None => (None, q)
  end.

(** An item of the comparison queue, once its delay is over *)
Definition processAppComparisonTypeQueueItem (namespace key : string) (q : queues) : queues :=
  match Split key "/" with
  | [ns; name; level] =>
      match Atoi level with
      | Some compareWith => requestAppRefresh namespace (toAppQualifiedName name ns) (Some compareWith) None q
      | None => q
      end
  | _ => q
  end.

(** ** When to refresh *)

Definition expired (app : Application) (timeout now : Z) : bool :=
  match ReconciledAt (Status app) with None => true | Some t => t + timeout <? now end.

(** The result: whether to refresh, the type and the level *)
Definition needRefreshAppStatus (app : Application) (statusRefreshTimeout statusHardRefreshTimeout now : Z) (q : queues) :
    (bool * RefreshType * Z) * queues :=
  let softExpired := expired app statusRefreshTimeout now in
  let hardExpired := expired app statusHardRefreshTimeout now && negb (statusHardRefreshTimeout =? 0) in
  match IsRefreshRequested app with
  | Some requestedType => ((true, requestedType, CompareWithLatestForceResolve), q)
  | None =>
      if negb (currentSourceEqualsSyncedSource app) then ((true, RefreshTypeNormal, CompareWithLatestForceResolve), q)
      else if hardExpired || softExpired then
        ((true, if hardExpired then RefreshTypeHard else RefreshTypeNormal, CompareWithLatest), q)
      else if negb (bool_decide (SpecDestination app = ComparedDestination (Sync (Status app)))) then ((true, RefreshTypeNormal, CompareWithLatest), q)
      else if HasChangedManagedNamespaceMetadata app then ((true, RefreshTypeNormal, CompareWithLatest), q)
      else if negb (String.eqb (SpecIgnoreDifferences app) (ComparedIgnoreDifferences (Sync (Status app)))) then
        ((true, RefreshTypeNormal, CompareWithLatest), q)
      else
        let '(level, q) := isRefreshRequested (QualifiedName app) q in
        match level with
        | Some level => ((true, RefreshTypeNormal, level), q)
        | None => ((false, RefreshTypeNormal, CompareWithLatest), q)
        end
  end.

(** ** Changed resources *)

(** What the controller is configured with and reads: the applications the informer
    knows by key, those that monitor orphaned resources by the namespace of their
    destination, whether the project of an application permits it, and its cluster *)
Record controller := {
  ctrl_namespace : string;
  applicationNamespaces : list string;
  informer : gmap string Application;
  orphanedIndex : string → list Application;
  getAppProj_ok : Application → bool;
  GetDestinationCluster : Application → option Cluster;
  clusterSharding : ClusterSharding;
}.

Definition appOperationRequeueDelay : Z := 5 * Second.

Section handler.
Context {R : GoRuntime} `{GL : GlobLib} (ctrl : controller).

(** [None] is the panic of [MatchStringInList]. *)
Definition isAppNamespaceAllowed (app : Application) : option bool :=
  if String.eqb (AppNamespace app) (ctrl_namespace ctrl) then Some true
  else MatchStringInList (applicationNamespaces ctrl) (AppNamespace app) REGEXP.

Definition canProcessApp (obj : option Application) : option bool :=
  match obj with
  | None => Some false
  | Some app =>
      allowed ← isAppNamespaceAllowed app;
      if negb allowed then Some false
      else
        let skipReconcile :=
          match AppAnnotations app !! AnnotationKeyAppSkipReconcile with
          | Some skipVal => default false (ParseBool skipVal)
          | None => false
          end in
        if skipReconcile then Some false
        else Some (IsManagedCluster (clusterSharding ctrl) (GetDestinationCluster ctrl app))
  end.

Definition isSelfReferencedApp (app : Application) (ref : ObjectReference) : bool :=
  String.eqb (RefUID ref) (AppUID app) && String.eqb (RefName ref) (AppName app) &&
  String.eqb (RefNamespace ref) (AppNamespace app) &&
  String.eqb (RefGroup ref) "apps.hanzo.ai" && String.eqb (RefKind ref) "Application".

(** One turn of the loop of [handleObjectUpdated] *)
Definition handle_app (ref : ObjectReference) (q : queues) (e : string * bool) : option queues :=
  let '(appName, isManagedResource) := e in
  let obj := informer ctrl !! toAppKey (ctrl_namespace ctrl) appName in
  if match obj with Some app => isSelfReferencedApp app ref | None => false end then Some q
  else
    can ← canProcessApp obj;
    match obj with
    | Some app =>
        if negb can || negb (getAppProj_ok ctrl app) then Some q
        else
          let level := if isManagedResource : bool then CompareWithRecent else ComparisonWithNothing in
          let q := requestAppRefresh (ctrl_namespace ctrl) (QualifiedName app) (Some level) None q in
          if isManagedResource && shouldProcessOperation app
          then Some (add_operation (toAppKey (ctrl_namespace ctrl) (QualifiedName app)) appOperationRequeueDelay q)
          else Some q
    | None => Some q
    end.

Definition handleObjectUpdated (managedByApp : gmap string bool) (ref : ObjectReference) (q : queues) : option queues :=
  let managedByApp :=
    if bool_decide (managedByApp = ∅) && negb (String.eqb (RefNamespace ref) "")
    then foldl (λ m app, <[InstanceName (ctrl_namespace ctrl) app := true]> m) managedByApp (orphanedIndex ctrl (RefNamespace ref))
    else managedByApp in
  foldl (λ oq e, oq ≫= λ q, handle_app ref q e) (Some q) (go_range managedByApp).

(** *** Events of applications *)

(** [UpdateFunc]: [enabled] is what [automatedSyncEnabled] says, which is in [AutoSync],
    and [delay] is the jitter if the versions are equal.  The queue of the hydrator and the
    cache of the shards, which is in [ShardCache], are left out of these events. *)
Definition on_app_updated (newApp : Application) (enabled : bool) (delay : option Z) (q : queues) :
    option queues :=
  can ← canProcessApp (Some newApp);
  if negb can then Some q
  else
    let q := requestAppRefresh (ctrl_namespace ctrl) (QualifiedName newApp)
               (if enabled then Some CompareWithLatest else None) delay q in
    Some (if shouldProcessOperation newApp
          then add_operation (AppNamespace newApp +:+ "/" +:+ AppName newApp) 0 q else q).

(** [AddFunc] and [DeleteFunc] *)
Definition on_app_added (app : Application) (q : queues) : option queues :=
  can ← canProcessApp (Some app);
  Some (if can : bool then add_refresh (AppNamespace app +:+ "/" +:+ AppName app) None q else q).
End handler.

(** ** Finalizers *)

Definition PreDeleteFinalizerName : string := "pre-delete-finalizer.apps.hanzo.ai".
Definition PostDeleteFinalizerName : string := "post-delete-finalizer.apps.hanzo.ai".
Definition getFinalizerIndex (finalizers : list string) (name : string) : option nat :=
  fst <$> list_find (λ f, f = name) finalizers.

Definition setFinalizer (name : string) (exist : bool) (finalizers : list string) : list string :=
  match getFinalizerIndex finalizers name, exist with
  | Some index, false =>
      take (length finalizers - 1) (<[index := default "" (last finalizers)]> finalizers)
  | None, true => finalizers ++ [name]
  | _, _ => finalizers
  end%nat.

Definition has_finalizer (name : string) (finalizers : list string) : bool := bool_decide (is_Some (getFinalizerIndex finalizers name)).

(** The finalizer of the hooks and that of their cleanup follow whether there are hooks;
    the result: the finalizers and whether they are stored. *)
Definition follow_hooks (name : string) (hasHooks deleting : bool) (finalizers : list string) : list string * bool :=
  if (negb (Bool.eqb hasHooks (has_finalizer name finalizers)) ||
      negb (Bool.eqb hasHooks (has_finalizer (name +:+ "/cleanup") finalizers))) && negb deleting
  then (setFinalizer (name +:+ "/cleanup") hasHooks (setFinalizer name hasHooks finalizers), true)
  else (finalizers, false).

(** ** One turn of the worker *)

(** What [CompareAppState] finds: sync code, the revisions of the manifests, health, and
    the conditions it leaves *)
Record comparisonResult := {
  syncCode : string;
  manifestRevisions : list string;
  healthStatus : string;
  revisionsMayHaveChanges : bool;
  hasPreDeleteHooks : bool;
  hasPostDeleteHooks : bool;
  res_conditions : list ApplicationCondition;
}.

(** [ErrCompareStateRepo]; another error, after which the worker reads through the nil
    result, which panics and ends the turn *)
Inductive comparison := Compared (r : comparisonResult) | RepoUnavailable | NoComparison.

(** The sync status of the result: what was compared to is the specification. *)
Definition syncStatus (app : Application) (r : comparisonResult) : SyncStatus :=
  {| SyncCode := syncCode r;
     Revision := if HasMultipleSources app then "" else default "" (head (manifestRevisions r));
     Revisions := if HasMultipleSources app then manifestRevisions r else [];
     ComparedSources := SpecSources app; ComparedDestination := SpecDestination app;
     ComparedIgnoreDifferences := SpecIgnoreDifferences app |}.

(** The errors of the repository that [CompareAppState] hides for a while: the result says
    whether the error is hidden; [repoErrorCache] has the time of the first one. *)
Definition on_repo_error (repoErrorGracePeriod now : Z) (appName : string) (noRevisionCache : bool)
    (repoErrorCache : gmap string Z) : bool * gmap string Z :=
  match repoErrorCache !! appName with
  | Some firstSeen => ((now - firstSeen <=? repoErrorGracePeriod) && negb noRevisionCache, repoErrorCache)
  | None => if negb noRevisionCache then (true, <[appName := now]> repoErrorCache) else (false, repoErrorCache)
  end.
Definition on_repo_success (appName : string) (repoErrorCache : gmap string Z) : gmap string Z := delete appName repoErrorCache.

(** What the worker meets on its way: whether a call succeeds, and what it answers *)
Record refresh_env := {
  GetDestinationCluster_ok : bool;
  GetAppManagedResources_ok : bool;
  getResourceTree_ok : bool;
  SetAppResourcesTree_ok : bool;
  (** [getAppProj], or the condition for its error, and the errors of the spec *)
  errorConditions : list ApplicationCondition;
  (** with the revisions, [noCache] and [noRevisionCache] *)
  CompareAppState : list string → bool → bool → comparison;
  (** [CanSync] of the sync windows, and [autoSync], told whether to compare revisions *)
  CanSync : bool;
  autoSync : comparisonResult → bool → option ApplicationCondition;
}.

(** What the worker does: its comparison, whether it calls [autoSync] and with what, the
    finalizers it stores, and the status it stores ([persistReconciliationStatus], which
    removes the refresh annotation too) *)
Record refresh_outcome := {
  compared : option (list string * bool * bool);
  auto_synced : option bool;
  stored_finalizers : list (list string);
  persisted : option ApplicationStatus;
}.

Definition with_conditions (cs : list ApplicationCondition) (s : ApplicationStatus) : ApplicationStatus :=
  {| ReconciledAt := ReconciledAt s; Conditions := cs; Sync := Sync s; HealthCode := HealthCode s;
     SyncResultMetadata := SyncResultMetadata s |}.

Definition SyncStatusCodeUnknown : string := "Unknown".
Definition SyncStatusCodeOutOfSync : string := "OutOfSync".
Definition HealthStatusUnknown : string := "Unknown".

Section worker.
Context {R : GoRuntime} (time_text : option Z → string).

Definition only_stored (s : option ApplicationStatus) : refresh_outcome :=
  {| compared := None; auto_synced := None; stored_finalizers := []; persisted := s |}.

(** [refreshAppConditions]: the new conditions *)
Definition refreshAppConditions (now : Z) (env : refresh_env) (s : ApplicationStatus) : ApplicationStatus :=
  with_conditions (SetConditions time_text now (errorConditions env) ["InvalidSpecError"; "UnknownError"] (Conditions s)) s.

(** The revisions to compare with *)
Definition compared_revisions (level : Z) (app : Application) : list string :=
  let recent := level =? CompareWithRecent in
  if HasMultipleSources app then (if recent then Revisions (Sync (Status app)) else TargetRevisions app)
  else [if recent then Revision (Sync (Status app)) else default "" (head (TargetRevisions app))].

(** After the comparison *)
Definition after_comparison (now level : Z) (env : refresh_env) (app : Application) (s : ApplicationStatus)
    (result : comparisonResult) : option bool * list (list string) * ApplicationStatus :=
  let shouldCompareRevisions :=
    revisionsMayHaveChanges result || String.eqb (syncCode result) SyncStatusCodeOutOfSync in
  let conds := res_conditions result in
  let conds := if CanSync env
               then SetConditions time_text now (option_list (autoSync env result shouldCompareRevisions)) ["SyncError"] conds
               else conds in
  let reconciled := match ReconciledAt s with
                    | None => Some now
                    | Some t => if CompareWithLatest <=? level then Some now else Some t
                    end in
  let '(fs1, stored1) := follow_hooks PreDeleteFinalizerName (hasPreDeleteHooks result) (Deleting app) (Finalizers app) in
  let '(fs2, stored2) := follow_hooks PostDeleteFinalizerName (hasPostDeleteHooks result) (Deleting app) fs1 in
  ((if CanSync env then Some shouldCompareRevisions else None),
   (if stored1 : bool then [fs1] else []) ++ (if stored2 : bool then [fs2] else []),
   {| ReconciledAt := reconciled; Conditions := conds; Sync := syncStatus app result; HealthCode := healthStatus result;
      SyncResultMetadata := SyncResultMetadata s |}).

(** The refresh of an application that needs one, at a level: the whole of
    [processAppRefreshQueueItem] after [needRefreshAppStatus] *)
Definition refresh (now : Z) (refreshType : RefreshType) (comparisonLevel : Z) (env : refresh_env) (app : Application) :
    refresh_outcome :=
  if (comparisonLevel =? ComparisonWithNothing) && GetDestinationCluster_ok env && GetAppManagedResources_ok env then
    if getResourceTree_ok env && negb (SetAppResourcesTree_ok env) then only_stored None
    else only_stored (Some (Status app))
  else
    let s := refreshAppConditions now env (Status app) in
    match errorConditions env with
    | _ :: _ =>
        only_stored (Some {| ReconciledAt := ReconciledAt s; Conditions := Conditions s;
          Sync := {| SyncCode := SyncStatusCodeUnknown; Revision := Revision (Sync s); Revisions := Revisions (Sync s);
                     ComparedSources := ComparedSources (Sync s); ComparedDestination := ComparedDestination (Sync s);
                     ComparedIgnoreDifferences := ComparedIgnoreDifferences (Sync s) |};
          HealthCode := HealthStatusUnknown; SyncResultMetadata := SyncResultMetadata s |})
    | [] =>
        if negb (GetDestinationCluster_ok env) then only_stored None
        else
          let call := (compared_revisions comparisonLevel app, bool_decide (refreshType = RefreshTypeHard),
                       comparisonLevel =? CompareWithLatestForceResolve) in
          match CompareAppState env call.1.1 call.1.2 call.2 with
          | RepoUnavailable | NoComparison =>
              {| compared := Some call; auto_synced := None; stored_finalizers := []; persisted := None |}
          | Compared result =>
              let '(auto, fs, s) := after_comparison now comparisonLevel env app s result in
              {| compared := Some call; auto_synced := auto; stored_finalizers := fs; persisted := Some s |}
          end
    end.

(** The key leaves the queue. *)
Definition pop_refresh (key : string) (q : queues) : queues :=
  {| refreshRequestedApps := refreshRequestedApps q; appRefreshQueue := appRefreshQueue q ∖ {[key]};
     delayedRefresh := delayedRefresh q; comparisonQueue := comparisonQueue q; appOperationQueue := appOperationQueue q |}.

(** One item of the queue: the level and the outcome if the application is refreshed *)
Definition processAppRefreshQueueItem (apps : gmap string Application) (statusRefreshTimeout statusHardRefreshTimeout now : Z)
    (env : refresh_env) (appKey : string) (q : queues) : option (Z * refresh_outcome) * queues :=
  let q := pop_refresh appKey q in
  match apps !! appKey with
  | None => (None, q)
  | Some app =>
      let '((need, refreshType, level), q) := needRefreshAppStatus app statusRefreshTimeout statusHardRefreshTimeout now q in
      ((if need : bool then Some (level, refresh now refreshType level env app) else None), q)
  end.
End worker.
