(* ===== verification/AppRefreshProofs.v ===== *)
(** * Refreshing applications: theorems

    Requests are served, changes of resources reach the application, and what a turn of
    the worker may do. *)

From S2P Require Import Prelude GoStd GoMatch GoTime AppTypes Glob ShardCache Kube ClusterCache ClusterCacheProofs Hierarchy HierarchyProofs Tracking TrackingProofs LiveState LiveStateProofs AppRefresh.
From Stdlib Require Import Ascii.
Local Open Scope string_scope.
Local Open Scope list_scope.
Local Open Scope Z_scope.

(** ** Names of applications *)

(** Names that Kubernetes admits have neither underscores nor slashes. *)
Definition plain_name (s : string) : bool := negb (has_char "_" s) && negb (has_char "/" s).




Lemma toAppKey_slash ns n : has_char "/" n = true → toAppKey ns n = n.
Proof. intros Hs. unfold toAppKey. by rewrite !Contains_char, Hs, andb_false_r. Qed.


(** The key of an application in the queues and in the informer *)
Definition app_key (app : Application) : string := AppNamespace app +:+ "/" +:+ AppName app.

(** An application with names as Kubernetes admits them *)
Definition well_named (app : Application) : Prop :=
  AppNamespace app ≠ "" ∧ plain_name (AppNamespace app) = true ∧ plain_name (AppName app) = true.

Lemma QualifiedName_key app : well_named app → QualifiedName app = app_key app.
Proof. intros (Hne%String.eqb_neq&_). unfold QualifiedName. by rewrite Hne. Qed.



Lemma toAppQualifiedName_key ns a b : toAppKey ns (toAppQualifiedName b a) = a +:+ "/" +:+ b.
Proof. apply toAppKey_slash. unfold toAppQualifiedName. rewrite has_char_app. cbn. apply orb_true_r. Qed.

Definition level_ok (l : Z) : Prop := 0 ≤ l ≤ 3.

Lemma Split_three a b c d :
  has_char c a = false → has_char c b = false → has_char c d = false →
  Split (a +:+ String c (b +:+ String c d)) c = [a; b; d].
Proof. intros Ha Hb Hd. unfold Split. rewrite !Split_aux_cut, Split_aux_plain by done. done. Qed.

(** A delayed request is made when its delay is over. *)
Lemma comparison_item_requests ns a b l q :
  plain_name a = true → plain_name b = true → level_ok l →
  processAppComparisonTypeQueueItem ns ((a +:+ "/" +:+ b) +:+ "/" +:+ pretty l) q =
  add_refresh (a +:+ "/" +:+ b) None (add_request (a +:+ "/" +:+ b) l q).
Proof.
  intros [_ Ha%negb_true_iff]%andb_true_iff [_ Hb%negb_true_iff]%andb_true_iff Hl.
  assert (has_char "/" (pretty l) = false ∧ Atoi (pretty l) = Some l) as [Hd Hat].
  { assert (l = 0 ∨ l = 1 ∨ l = 2 ∨ l = 3) as [->|[->|[->| ->]]] by (unfold level_ok in Hl; lia); by vm_compute. }
  unfold processAppComparisonTypeQueueItem.
  assert (Split ((a +:+ "/" +:+ b) +:+ "/" +:+ pretty l) "/" = [a; b; pretty l]) as ->.
  { rewrite <-string_app_assoc. apply (Split_three a b "/" (pretty l)); done. }
  rewrite Hat. unfold requestAppRefresh. by rewrite toAppQualifiedName_key.
Qed.

(** ** Requests *)

(** A request for the application is kept: it waits to be served, or its delay is running. *)
Definition requested (q : queues) (key : string) (level : Z) : Prop :=
  (∃ l, refreshRequestedApps q !! key = Some l ∧ level ≤ l) ∨
  (∃ d, (key +:+ "/" +:+ pretty level, d) ∈ comparisonQueue q).

(** A request that waits has its key in the queue. *)
Definition queued (q : queues) (key : string) : Prop :=
  is_Some (refreshRequestedApps q !! key) → key ∈ appRefreshQueue q.

(** Names and levels are such as [requestAppRefresh] is given. *)
Definition key_ok (key : string) : Prop := ∃ a b, plain_name a = true ∧ plain_name b = true ∧ key = a +:+ "/" +:+ b.

Lemma app_key_ok app : well_named app → key_ok (app_key app).
Proof. intros (_&Ha&Hb). by exists (AppNamespace app), (AppName app). Qed.

Lemma add_request_lookup key l q k :
  refreshRequestedApps (add_request key l q) !! k =
  if decide (k = key) then Some (Z.max l (default 0 (refreshRequestedApps q !! key))) else refreshRequestedApps q !! k.
Proof. cbn. case_decide as Hk; [subst k; apply lookup_insert_eq|by apply lookup_insert_ne]. Qed.

Lemma add_request_grows key l q k v :
  refreshRequestedApps q !! k = Some v → ∃ v', refreshRequestedApps (add_request key l q) !! k = Some v' ∧ v ≤ v'.
Proof.
  intros Hv. setoid_rewrite add_request_lookup. case_decide as Hk; [|by exists v].
  subst k. eexists. split; [done|]. rewrite Hv. cbn. lia.
Qed.

(** What a request changes *)
Lemma requestAppRefresh_requested ns name lvl after q key level :
  requested q key level → requested (requestAppRefresh ns name lvl after q) key level.
Proof.
  unfold requestAppRefresh. intros [(l&Hl&Hle)|(d&Hd)].
  - left. destruct lvl as [lv|], after as [dl|]; cbn [add_refresh add_comparison refreshRequestedApps]; try (by exists l).
    apply (add_request_grows (toAppKey ns name) lv) in Hl as (v&Hv&?). exists v. split; [exact Hv|lia].
  - right. exists d. destruct lvl, after; cbn; rewrite ?elem_of_app; tauto.
Qed.

Lemma requestAppRefresh_asks ns name l after q :
  requested (requestAppRefresh ns name (Some l) after q) (toAppKey ns name) l.
Proof.
  destruct after as [d|]; [right; exists d; cbn; apply elem_of_app; right; by left|left].
  eexists. split; [cbn [requestAppRefresh add_refresh refreshRequestedApps]; rewrite add_request_lookup, decide_True by done; reflexivity|]. lia.
Qed.

Lemma requestAppRefresh_queued ns name lvl after q key :
  queued q key → queued (requestAppRefresh ns name lvl after q) key.
Proof.
  intros Hq. unfold queued, requestAppRefresh. destruct lvl as [l|], after as [d|]; [exact Hq| |exact Hq|];
    cbn [add_refresh appRefreshQueue refreshRequestedApps]; intros Hs; apply elem_of_union.
  - rewrite add_request_lookup in Hs. case_decide; [subst; left; by apply elem_of_singleton|right; by apply Hq].
  - right. by apply Hq.
Qed.

(** ** Serving requests *)

(** Why an application is refreshed: for a reason of its own, with the latest revisions, or
    because of the request that is consumed. *)
Lemma needRefreshAppStatus_spec app soft hard now q :
  let '((need, _, level), q') := needRefreshAppStatus app soft hard now q in
  (q' = q ∧ (if need : bool then CompareWithLatest ≤ level else refreshRequestedApps q !! QualifiedName app = None)) ∨
  (need = true ∧ refreshRequestedApps q !! QualifiedName app = Some level ∧ appRefreshQueue q' = appRefreshQueue q ∧
   refreshRequestedApps q' = delete (QualifiedName app) (refreshRequestedApps q) ∧
   delayedRefresh q' = delayedRefresh q ∧ comparisonQueue q' = comparisonQueue q).
Proof.
  unfold needRefreshAppStatus. destruct (IsRefreshRequested app); [by left|].
  destruct (negb (currentSourceEqualsSyncedSource app)); [by left|]. destruct (_ || _); [by left|].
  destruct (negb (bool_decide _)); [by left|]. destruct (HasChangedManagedNamespaceMetadata app); [by left|].
  destruct (negb _); [by left|].
  unfold isRefreshRequested. destruct (refreshRequestedApps q !! QualifiedName app) as [l|] eqn:E; [right|by left]. done.
Qed.

(** What happens to the queues: [Turned] is a turn of the worker, with the application the
    informer knows and the level at which it is refreshed. *)
Inductive turn :=
  | Asked (name : string)
  | ComparisonDue (item : string)
  | RefreshDue (key : string)
  | Turned (key : string) (app : option Application) (level : option Z).

Section queues.
Context {R : GoRuntime} (time_text : option Z → string) (namespace : string) (soft hard : Z).

Inductive step : turn → queues → queues → Prop :=
  | step_ask name level after q : step (Asked name) q (requestAppRefresh namespace name level after q)
  | step_comparison item d q :
      (item, d) ∈ comparisonQueue q →
      step (ComparisonDue item) q (processAppComparisonTypeQueueItem namespace item
        {| refreshRequestedApps := refreshRequestedApps q; appRefreshQueue := appRefreshQueue q;
           delayedRefresh := delayedRefresh q; comparisonQueue := filter (λ e, e.1 ≠ item) (comparisonQueue q);
           appOperationQueue := appOperationQueue q |})
  | step_delayed key d q :
      (key, d) ∈ delayedRefresh q →
      step (RefreshDue key) q (add_refresh key None
        {| refreshRequestedApps := refreshRequestedApps q; appRefreshQueue := appRefreshQueue q;
           delayedRefresh := filter (λ e, e.1 ≠ key) (delayedRefresh q); comparisonQueue := comparisonQueue q;
           appOperationQueue := appOperationQueue q |})
  | step_turn apps now env key q :
      key ∈ appRefreshQueue q →
      (∀ k app, apps !! k = Some app → well_named app ∧ app_key app = k) →
      let r := processAppRefreshQueueItem time_text apps soft hard now env key q in
      step (Turned key (apps !! key) (fst <$> r.1)) q r.2.

Inductive run : list turn → queues → queues → Prop :=
  | run_nil q : run [] q q
  | run_cons e tr q1 q2 q3 : step e q1 q2 → run tr q2 q3 → run (e :: tr) q1 q3.

(** A turn of the worker, for any key *)
Lemma turn_spec apps now env key q (Happs : ∀ k app, apps !! k = Some app → well_named app ∧ app_key app = k) :
  let r := processAppRefreshQueueItem time_text apps soft hard now env key q in
  comparisonQueue r.2 = comparisonQueue q ∧ appRefreshQueue r.2 = appRefreshQueue q ∖ {[key]} ∧
  ((refreshRequestedApps r.2 = refreshRequestedApps q ∧
    match apps !! key, r.1 with
    | None, o => o = None
    | Some _, Some (level, _) => CompareWithLatest ≤ level
    | Some _, None => refreshRequestedApps q !! key = None
    end) ∨
   (is_Some (apps !! key) ∧ refreshRequestedApps r.2 = delete key (refreshRequestedApps q) ∧
    ∃ l o, refreshRequestedApps q !! key = Some l ∧ r.1 = Some (l, o))).
Proof.
  cbv zeta. unfold processAppRefreshQueueItem. destruct (apps !! key) as [app|] eqn:Happ; [|split_and!; [done..|by left]].
  destruct (Happs _ _ Happ) as [Hw Hk].
  pose proof (needRefreshAppStatus_spec app soft hard now (pop_refresh key q)) as H.
  destruct (needRefreshAppStatus _ _ _ _ _) as [[[need ty] l] q']. rewrite QualifiedName_key, Hk in H by done.
  cbn [fst snd]. destruct H as [[-> H]|(->&Hl&->&->&_&->)]; cbn [pop_refresh comparisonQueue appRefreshQueue refreshRequestedApps] in *.
  - split_and!; [done..|]. left. split; [done|]. by destruct need.
  - split_and!; [done..|]. right. split; [done|]. split; [done|]. by eexists _, _.
Qed.

Lemma step_requested e q q' key level :
  step e q q' → key_ok key → level_ok level → requested q key level →
  requested q' key level ∨ ∃ app l, level ≤ l ∧ e = Turned key (Some app) (Some l).
Proof.
  intros Hs (a&b&Ha&Hb&Hk) Hl Hr. destruct Hs as [name lv after q|item d q Hd|k d q Hd|apps now env k q Hin Happs r].
  - left. by apply requestAppRefresh_requested.
  - left. destruct (decide (item = key +:+ "/" +:+ pretty level)) as [->|Hne].
    + rewrite Hk. rewrite comparison_item_requests by done. left.
      eexists. split; [cbn [add_refresh refreshRequestedApps]; rewrite add_request_lookup, decide_True by done; reflexivity|]. lia.
    + assert (requested {| refreshRequestedApps := refreshRequestedApps q; appRefreshQueue := appRefreshQueue q;
        delayedRefresh := delayedRefresh q; comparisonQueue := filter (λ e, e.1 ≠ item) (comparisonQueue q);
        appOperationQueue := appOperationQueue q |} key level) as H.
      { destruct Hr as [Hr|[d' Hd']]; [by left|right]. exists d'. cbn. apply list_elem_of_filter. by split. }
      unfold processAppComparisonTypeQueueItem. repeat (case_match; try done). by apply requestAppRefresh_requested.
  - left. exact Hr.
  - pose proof (turn_spec apps now env k q Happs) as (Hc&_&H). fold r in Hc, H.
    destruct Hr as [(l&Hl'&Hle)|(d&Hd)]; [|left; right; exists d; by rewrite Hc].
    destruct H as [[Hm _]|([app Happ]&Hm&l0&o&Hl0&Ho)]; [left; left; exists l; by rewrite Hm|].
    destruct (decide (k = key)) as [->|Hne].
    + right. exists app, l0. rewrite Happ, Ho. simplify_eq. done.
    + left; left. exists l. by rewrite Hm, lookup_delete_ne.
Qed.

Lemma step_queued e q q' key :
  step e q q' → queued q key →
  queued q' key ∨ ∃ app level, e = Turned key app level ∧ (app = None ∨ ∃ l, level = Some l ∧ CompareWithLatest ≤ l).
Proof.
  intros Hs Hq. destruct Hs as [name lv after q|item d q Hd|k d q Hd|apps now env k q Hin Happs r].
  - left. by apply requestAppRefresh_queued.
  - left. unfold processAppComparisonTypeQueueItem. repeat (case_match; try exact Hq). by apply requestAppRefresh_queued.
  - left. intros Hs%Hq. cbn. apply elem_of_union. by right.
  - pose proof (turn_spec apps now env k q Happs) as (_&Hqu&H). fold r in Hqu, H.
    destruct (decide (k = key)) as [->|Hne]; cycle 1.
    { left. intros Hs. rewrite Hqu. apply elem_of_difference. split; [|by rewrite elem_of_singleton]. apply Hq.
      destruct H as [[<- _]|(_&Hm&_)]; [done|]. by rewrite Hm, lookup_delete_ne in Hs. }
    destruct H as [[Hm Ho]|(_&Hm&_)]; [|left; intros [? Hs]; by rewrite Hm, lookup_delete_eq in Hs].
    destruct (apps !! key) as [app|], r.1 as [[l o]|]; try done.
    + right. eexists _, _. split; [done|]. right. by exists l.
    + left. intros [? Hs]. by rewrite Hm, Ho in Hs.
    + right. eexists _, _. split; [done|]. by left.
Qed.

Lemma step_serves e q q' key app level :
  step e q q' → e = Turned key (Some app) level → ∀ l, refreshRequestedApps q !! key = Some l →
  ∃ l', level = Some l' ∧ (l ≤ l' ∨ CompareWithLatest ≤ l').
Proof.
  intros Hs. destruct Hs as [| | |apps now env k q Hin Happs r]; intros [= -> Happ <-] l Hl.
  pose proof (turn_spec apps now env key q Happs) as (_&_&H). fold r in H. rewrite Happ in H.
  destruct H as [[_ H]|(_&_&l0&o&Hl0&->)]; [destruct r.1 as [[l0 o]|]; [eauto|congruence]|].
  exists l0. split; [done|]. left. by simplify_eq.
Qed.

(** C25. No request to refresh an application is lost or weakened, whatever else happens to
    the queues: until a turn of the worker refreshes the application at the level of the
    request or a higher one, the request is kept; a kept request has its key in the queue,
    except after a turn that compared with the latest revisions or found no application;
    and the worker refreshes an application with a request at each of its turns, at the level
    of the request or with the latest revisions. *)
Theorem requests_are_served tr q q' key :
  run tr q q' → key_ok key →
  (∀ level, level_ok level → requested q key level →
     requested q' key level ∨ ∃ app l, level ≤ l ∧ Turned key (Some app) (Some l) ∈ tr) ∧
  (queued q key →
     queued q' key ∨ ∃ app level, Turned key app level ∈ tr ∧ (app = None ∨ ∃ l, level = Some l ∧ CompareWithLatest ≤ l)) ∧
  (∀ q1 e app level l, step e q q1 → e = Turned key (Some app) level → refreshRequestedApps q !! key = Some l →
     ∃ l', level = Some l' ∧ (l ≤ l' ∨ CompareWithLatest ≤ l')).
Proof.
  intros Hrun Hk. split; [|split].
  - induction Hrun as [q|e tr q1 q2 q3 Hs _ IH]; intros level Hl Hr; [by left|].
    destruct (step_requested _ _ _ _ _ Hs Hk Hl Hr) as [H2|(app&l&Hle&->)].
    + destruct (IH _ Hl H2) as [|(app&l&Hle&Hin)]; [by left|right; exists app, l; split; [done|by right]].
    + right. exists app, l. split; [done|by left].
  - induction Hrun as [q|e tr q1 q2 q3 Hs _ IH]; intros Hq; [by left|].
    destruct (step_queued _ _ _ _ Hs Hq) as [H2|(app&l&->&Ho)].
    + destruct (IH H2) as [|(app&l&Hin&Ho)]; [by left|right; exists app, l; split; [by right|done]].
    + right. exists app, l. split; [by left|done].
  - intros q1 e app level l Hs He Hl. by eapply step_serves.
Qed.
End queues.

(** ** Changed resources *)

Section changes.
Context {R : GoRuntime} `{GL : GlobLib} (ctrl : controller).
(** The patterns of the permitted namespaces compile. *)
Hypothesis Hpatterns : ∀ s, is_Some (MatchStringInList (applicationNamespaces ctrl) s REGEXP).
(** The keys of the informer *)
Hypothesis Hinformer : ∀ k app, informer ctrl !! k = Some app → well_named app ∧ app_key app = k.














End changes.

(** ** One turn of the worker *)

Section worker.
Context {R : GoRuntime} (time_text : option Z → string).

Lemma after_comparison_spec now level env app s result :
  let '(auto, _, s') := after_comparison time_text now level env app s result in
  (∀ b, auto = Some b → CanSync env = true ∧ (syncCode result = SyncStatusCodeOutOfSync → b = true)) ∧
  ReconciledAt s' = (if decide (ReconciledAt s = None ∨ CompareWithLatest ≤ level) then Some now else ReconciledAt s) ∧
  Sync s' = syncStatus app result ∧ SyncResultMetadata s' = SyncResultMetadata s.
Proof.
  unfold after_comparison. destruct (follow_hooks PreDeleteFinalizerName _ _ _) as [fs1 st1], (follow_hooks PostDeleteFinalizerName _ _ _) as [fs2 st2].
  cbn [ReconciledAt Sync SyncResultMetadata]. split; [|split; [|done]].
  - intros b. destruct (CanSync env); [|done]. intros [= <-]. split; [done|]. intros ->. by rewrite orb_true_r.
  - destruct (ReconciledAt s) as [t|]; [|by rewrite decide_True by by left].
    destruct (Z.leb_spec CompareWithLatest level); [by rewrite decide_True by by right|].
    rewrite decide_False; [done|]. intros [?|?]; [done|lia].
Qed.

(** C26. What a refresh may do.  With level nothing, while the cluster is known and the managed
    resources are cached, it neither compares nor syncs, and leaves the status as it is.  A
    comparison is made only of an application without errors in its specification, with the
    revisions last compared at level recent and the target revisions otherwise, past the cache
    of manifests exactly for a hard refresh and resolving revisions again exactly at the
    highest level.  Automated sync is only tried after such a comparison, in an open window.
    And the time of the last comparison moves only if there was none or the comparison
    was with the latest revisions, so that changes in the cluster do not put off the periodic
    comparison. *)
Theorem refresh_does_what_the_level_allows now refreshType level env app :
  let o := refresh time_text now refreshType level env app in
  (level = ComparisonWithNothing → GetDestinationCluster_ok env = true → GetAppManagedResources_ok env = true →
     compared o = None ∧ auto_synced o = None ∧ stored_finalizers o = [] ∧ ∀ s, persisted o = Some s → s = Status app) ∧
  (∀ revisions noCache noRevisionCache, compared o = Some (revisions, noCache, noRevisionCache) →
     errorConditions env = [] ∧ GetDestinationCluster_ok env = true ∧
     revisions = compared_revisions level app ∧
     (noCache = true ↔ refreshType = RefreshTypeHard) ∧ (noRevisionCache = true ↔ level = CompareWithLatestForceResolve)) ∧
  (∀ b, auto_synced o = Some b → CanSync env = true ∧
     ∃ revisions noCache noRevisionCache result, compared o = Some (revisions, noCache, noRevisionCache) ∧
       CompareAppState env revisions noCache noRevisionCache = Compared result ∧
       (syncCode result = SyncStatusCodeOutOfSync → b = true)) ∧
  (∀ s, persisted o = Some s → ReconciledAt s ≠ ReconciledAt (Status app) →
     ReconciledAt s = Some now ∧ is_Some (compared o) ∧
     (ReconciledAt (Status app) = None ∨ CompareWithLatest ≤ level)).
Proof.
  cbv zeta. unfold refresh.
  destruct ((level =? ComparisonWithNothing) && GetDestinationCluster_ok env && GetAppManagedResources_ok env) eqn:En.
  { destruct (getResourceTree_ok env && negb (SetAppResourcesTree_ok env)); cbn; (split; [naive_solver|]); naive_solver. }
  split.
  { intros -> H1 H2. by rewrite H1, H2 in En. }
  clear En. destruct (errorConditions env) as [|c cs]; [|cbn; naive_solver].
  destruct (GetDestinationCluster_ok env); cbn [negb]; [|cbn; naive_solver]. cbn [fst snd].
  set (call := (_, _, _)). assert (∀ r1 c1 v1, call = (r1, c1, v1) → r1 = compared_revisions level app ∧
     (c1 = true ↔ refreshType = RefreshTypeHard) ∧ (v1 = true ↔ level = CompareWithLatestForceResolve)) as Hcall.
  { intros r1 c1 v1 [= <- <- <-]. by rewrite bool_decide_eq_true, Z.eqb_eq. }
  assert (ReconciledAt (refreshAppConditions time_text now env (Status app)) = ReconciledAt (Status app)) as Hrec by done.
  destruct (CompareAppState env _ _ _) as [result| |] eqn:Ec; [|cbn; naive_solver..].
  pose proof (after_comparison_spec now level env app (refreshAppConditions time_text now env (Status app)) result) as H.
  destruct (after_comparison _ _ _ _ _ _ _) as [[auto fs] s]. destruct H as (Hauto&Hs&_). cbn [compared auto_synced persisted].
  split; [|split].
  - intros r1 c1 v1 E%Some_inj. destruct (Hcall _ _ _ E) as (?&?&?). done.
  - intros b Hb. destruct (Hauto b Hb) as [Hc Hout]. split; [done|]. exists call.1.1, call.1.2, call.2, result. done.
  - intros s' [= <-] Hne. rewrite Hs, Hrec in *. case_decide; [|done]. by eauto.
Qed.

(** Refreshing settles: after a comparison with the latest revisions of an application
    whose namespace metadata is as it was synced, and once its status is stored and the
    request annotation removed, the worker does nothing for the application until a timeout
    is over or someone asks. *)
Theorem refresh_settles now refreshType level env app o s soft hard now' q app' :
  refresh time_text now refreshType level env app = o → is_Some (compared o) → persisted o = Some s →
  CompareWithLatest ≤ level →
  (* the application as it is stored *)
  Status app' = s → IsRefreshRequested app' = None → HasChangedManagedNamespaceMetadata app' = false →
  SpecSources app' = SpecSources app → SpecDestination app' = SpecDestination app →
  SpecIgnoreDifferences app' = SpecIgnoreDifferences app →
  (* no timeout, and no request *)
  now' ≤ now + soft → now' ≤ now + hard ∨ hard = 0 →
  refreshRequestedApps q !! QualifiedName app' = None →
  needRefreshAppStatus app' soft hard now' q = ((false, RefreshTypeNormal, CompareWithLatest), q).
Proof.
  intros <- [call Hcall] Hs Hlevel Hst Hnone Hmeta Hsrc Hdst Hign Hsoft Hhard Hq.
  assert (ReconciledAt s = Some now ∧ ∃ r, Sync s = syncStatus app r) as (Hrec&r&Hsync).
  { revert Hcall Hs. unfold refresh.
    destruct (_ && _ && _); [by destruct (_ && _)|]. destruct (errorConditions env); [|done]. destruct (negb _); [done|].
    destruct (CompareAppState env _ _ _) as [result| |]; [|done..].
    pose proof (after_comparison_spec now level env app (refreshAppConditions time_text now env (Status app)) result) as H.
    destruct (after_comparison _ _ _ _ _ _ _) as [[auto fs] s0]. destruct H as (_&Hrec&Hsync&_). cbn [compared persisted].
    intros _ [= <-]. rewrite Hrec, decide_True by by right. eauto. }
  unfold needRefreshAppStatus. rewrite Hnone. unfold currentSourceEqualsSyncedSource, expired. rewrite Hst, Hsync, Hrec.
  cbn [syncStatus ComparedSources ComparedDestination ComparedIgnoreDifferences].
  rewrite Hsrc, Hdst, Hign, !bool_decide_eq_true_2, String.eqb_refl, Hmeta by done. cbn [negb].
  assert ((now + hard <? now') && negb (hard =? 0) || (now + soft <? now') = false) as ->.
  { apply orb_false_iff. split; [|by apply Z.ltb_ge]. destruct Hhard as [?%Z.ltb_ge|?%Z.eqb_eq]; apply andb_false_iff;
      [by left|right; by apply negb_false_iff]. }
  unfold isRefreshRequested. by rewrite Hq.
Qed.
End worker.

(** ** Conditions *)

Section conditions.
Context {R : GoRuntime} (time_text : option Z → string).

Lemma SetConditions_perm now cs ev old :
  SetConditions time_text now cs ev old ≡ₚ (timed now <$> filter (λ c, CondType c ∉ ev) old) ++ (incoming now old <$> cs).
Proof. apply go_sort_perm. Qed.

Lemma incoming_spec now old c :
  CondType (incoming now old c) = CondType c ∧ CondMessage (incoming now old c) = CondMessage c.
Proof.
  unfold incoming, findConditionIndexByType.
  destruct (list_find (λ c0, CondType c0 = CondType c) old) as [[i x]|] eqn:E; [|done]. cbn.
  apply list_find_Some in E as (->&Ht&_). destruct (String.eqb_spec (CondMessage x) (CondMessage c)); done.
Qed.

(** A condition whose type is unique is the one that is found. *)
Lemma incoming_kept now cs c d :
  d ∈ cs → CondType d = CondType c → CondMessage d = CondMessage c → (∀ e, e ∈ cs → CondType e = CondType c → e = d) →
  incoming now cs c = d.
Proof.
  intros Hd Ht Hm Hu. unfold incoming, findConditionIndexByType.
  destruct (list_find (λ c0, CondType c0 = CondType c) cs) as [[i x]|] eqn:E; cbn.
  - apply list_find_Some in E as (Hi&Hx&_). rewrite Hi. assert (x = d) as -> by (apply Hu; [by eapply list_elem_of_lookup_2|done]).
    by rewrite Hm, String.eqb_refl.
  - apply list_find_None in E. by destruct (proj1 (Forall_forall _ _) E d Hd).
Qed.

Lemma timed_id now c : is_Some (LastTransitionTime c) → timed now c = c.
Proof. destruct c as [t m [x|]]; intros [? Hc]; [done|discriminate Hc]. Qed.

(** Setting the conditions found by an evaluation: a condition is stored afterwards exactly
    if it was stored and its type was not evaluated, or it was found; and if the same are found
    again, with one condition of a type, the same conditions are stored, with their times, in
    whatever order the map of types or the sort visits them. *)
Theorem SetConditions_settles now now' cs ev old :
  (∀ type message, (∃ c, c ∈ SetConditions time_text now cs ev old ∧ CondType c = type ∧ CondMessage c = message) ↔
     (type ∉ ev ∧ ∃ c, c ∈ old ∧ CondType c = type ∧ CondMessage c = message) ∨
     (∃ c, c ∈ cs ∧ CondType c = type ∧ CondMessage c = message)) ∧
  (NoDup (CondType <$> cs) → (∀ c, c ∈ cs → CondType c ∈ ev) → (∀ c, c ∈ old → is_Some (LastTransitionTime c)) →
     SetConditions time_text now' cs ev (SetConditions time_text now cs ev old) ≡ₚ SetConditions time_text now cs ev old).
Proof.
  split.
  - intros t m. setoid_rewrite SetConditions_perm. setoid_rewrite elem_of_app. setoid_rewrite list_elem_of_fmap.
    setoid_rewrite list_elem_of_filter. split.
    + intros (c&[(d&->&Hd&Hin)|(d&->&Hin)]&Ht&Hm).
      * left. cbn in Ht, Hm. subst. eauto.
      * right. destruct (incoming_spec now old d) as [E1 E2]. rewrite E1, E2 in *. eauto.
    + intros [(Hev&c&Hc&<-&<-)|(c&Hc&<-&<-)].
      * exists (timed now c). split; [left; eauto|done].
      * exists (incoming now old c). split; [right; eauto|apply incoming_spec].
  - intros Hnd Hev Hold. set (s1 := SetConditions time_text now cs ev old).
    assert (s1 ≡ₚ (timed now <$> filter (λ c, CondType c ∉ ev) old) ++ (incoming now old <$> cs)) as Hs1 by apply SetConditions_perm.
    rewrite (SetConditions_perm now' cs ev s1).
    assert (incoming now' s1 <$> cs = incoming now old <$> cs) as ->.
    { apply list_fmap_ext. intros i c Hc%list_elem_of_lookup_2. destruct (incoming_spec now old c) as [Ht Hm].
      apply incoming_kept; [rewrite Hs1; apply elem_of_app; right; by apply list_elem_of_fmap_2|done..|].
      intros e He Hte. rewrite Hs1 in He. apply elem_of_app in He as [(d&->&Hd)%list_elem_of_fmap|(d&->&Hd)%list_elem_of_fmap].
      - apply list_elem_of_filter in Hd as [Hd _]. cbn in Hte. rewrite Hte in Hd. by destruct Hd; apply Hev.
      - destruct (incoming_spec now old d) as [Htd _]. rewrite Htd in Hte.
        by rewrite (NoDup_fmap_eq CondType cs d c Hnd Hd Hc Hte). }
    etransitivity; [|symmetry; exact Hs1]. apply Permutation_app_tail.
    assert (filter (λ c, CondType c ∉ ev) s1 ≡ₚ timed now <$> filter (λ c, CondType c ∉ ev) old) as Hf.
    { rewrite Hs1, filter_app. assert (filter (λ c, CondType c ∉ ev) (incoming now old <$> cs) = []) as ->.
      { apply filter_none, Forall_fmap, Forall_forall. intros c Hc Hn. apply Hn. rewrite (proj1 (incoming_spec now old c)). by apply Hev. }
      rewrite app_nil_r. apply reflexive_eq, filter_all, Forall_fmap, Forall_forall. by intros c [Hc _]%list_elem_of_filter. }
    rewrite Hf, <-list_fmap_compose. apply reflexive_eq, list_fmap_ext. intros i c _. cbn. by rewrite timed_id.
Qed.
End conditions.

(** ** A concrete controller *)

Module RefreshSample.
Import LiveSample.
#[local] Existing Instance reference_runtime.
#[local] Existing Instance sample_lib.

(** Patterns are names. *)
#[local] Instance names_only : GlobLib :=
  {| glob_t := string; glob_compile := λ p _, Some p; glob_match := String.eqb;
     regex_t := string; regex_compile := Some; regex_matchString := λ p s, Some (String.eqb p s) |}.

Definition time_text (t : option Z) : string := match t with None => "" | Some t => pretty t end.
Definition home : AppTypes.ApplicationDestination := {| AppTypes.Server := "https://c"; AppTypes.Namespace := "prod"; AppTypes.DestName := "" |}.

Definition compared_at (t : option Z) (revision : string) (conditions : list ApplicationCondition) : ApplicationStatus :=
  {| ReconciledAt := t; Conditions := conditions;
     Sync := {| SyncCode := "Synced"; Revision := revision; Revisions := []; ComparedSources := ["repo"];
                ComparedDestination := home; ComparedIgnoreDifferences := "" |};
     HealthCode := "Healthy"; SyncResultMetadata := None |}.

Definition application (ns name : string) (annotations : gmap string string) (operation : bool) (s : ApplicationStatus) : Application :=
  {| AppNamespace := ns; AppName := name; AppUID := "a1"; AppAnnotations := annotations; Finalizers := []; Deleting := false;
     HasOperation := operation; HasMultipleSources := false; SpecSources := ["repo"]; TargetRevisions := ["main"];
     SpecDestination := home; SpecIgnoreDifferences := ""; NamespaceMetadata := None; Status := s |}.

Definition guestbook : Application := application "cd" "guestbook" ∅ true (compared_at (Some 100) "abc" []).
Definition monitor : Application := application "team" "monitor" ∅ false (compared_at (Some 100) "abc" []).

Definition sample_ctrl : controller := {|
  ctrl_namespace := "cd"; applicationNamespaces := ["team"];
  informer := {["cd/guestbook" := guestbook; "team/monitor" := monitor]};
  orphanedIndex := λ ns, if String.eqb ns "prod" then [monitor] else [];
  getAppProj_ok := λ _, true; GetDestinationCluster := λ _, None;
  clusterSharding := NewClusterSharding 0 1 "legacy";
|}.

Definition idle : queues :=
  {| refreshRequestedApps := ∅; appRefreshQueue := ∅; delayedRefresh := []; comparisonQueue := []; appOperationQueue := [] |}.


Lemma informer_keys k app : informer sample_ctrl !! k = Some app → well_named app ∧ app_key app = k.
Proof.
  cbn [informer sample_ctrl]. intros [[<- <-]|[_ [<- <-]%lookup_singleton_Some]]%lookup_insert_Some;
    (split; [split; [discriminate|by vm_compute]|reflexivity]).
Qed.


(** ** Requests *)

(** The worker finds nothing wrong with the repository. *)
Definition sample_result : comparisonResult :=
  {| syncCode := "OutOfSync"; manifestRevisions := ["def"]; healthStatus := "Healthy"; revisionsMayHaveChanges := false;
     hasPreDeleteHooks := false; hasPostDeleteHooks := true; res_conditions := [] |}.
Definition sample_env (errors : list ApplicationCondition) : refresh_env :=
  {| GetDestinationCluster_ok := true; GetAppManagedResources_ok := true; getResourceTree_ok := true; SetAppResourcesTree_ok := true;
     errorConditions := errors; CompareAppState := λ _ _ _, Compared sample_result; CanSync := true; autoSync := λ _ _, None |}.

(** A request at level recent with a delay, which a turn at level nothing does not serve *)
Definition asked : queues :=
  requestAppRefresh "cd" "guestbook" (Some ComparisonWithNothing) None
    (requestAppRefresh "cd" "guestbook" (Some CompareWithRecent) (Some 5) idle).
Definition worker_turn (now : Z) (q : queues) : option (Z * refresh_outcome) * queues :=
  processAppRefreshQueueItem time_text (informer sample_ctrl) 1000 0 now (sample_env []) "cd/guestbook" q.

Lemma requests_are_served_witness :
  requested (worker_turn 200 asked).2 "cd/guestbook" CompareWithRecent ∧
  (worker_turn 200 asked).1 = Some (ComparisonWithNothing, only_stored (Some (Status guestbook))).
Proof.
  split; [|vm_compute; reflexivity].
  assert (run time_text "cd" 1000 0 [Turned "cd/guestbook" (Some guestbook) (Some ComparisonWithNothing)] asked (worker_turn 200 asked).2) as Hrun.
  { eapply run_cons; [|apply run_nil].
    apply (step_turn time_text "cd" 1000 0 (informer sample_ctrl) 200 (sample_env []) "cd/guestbook" asked); [|exact informer_keys].
    cbn. set_solver. }
  assert (key_ok "cd/guestbook") as Hk by (exists "cd", "guestbook"; repeat split; reflexivity).
  destruct (requests_are_served time_text "cd" 1000 0 _ _ _ "cd/guestbook" Hrun Hk) as (Hserved & _ & _).
  destruct (Hserved CompareWithRecent ltac:(unfold level_ok, CompareWithRecent; lia)) as [H|(app & l & Hle & Hin)].
  - right. exists 5. left.
  - exact H.
  - exfalso. apply list_elem_of_singleton in Hin. injection Hin as _ ->. unfold CompareWithRecent, ComparisonWithNothing in Hle. lia.
Defined.

Lemma refresh_settles_witness :
  let o := refresh time_text 300 RefreshTypeNormal CompareWithLatest (sample_env []) guestbook in
  ∃ s, persisted o = Some s ∧
    needRefreshAppStatus (application "cd" "guestbook" ∅ true s) 1000 0 1200 idle = ((false, RefreshTypeNormal, CompareWithLatest), idle).
Proof.
  intros o. destruct (persisted o) as [s|] eqn:Hs; cycle 1.
  { exfalso. assert (bool_decide (persisted o = None) = false) as H; [vm_compute; reflexivity|]. by apply bool_decide_eq_false in H. }
  exists s. split; [reflexivity|].
  apply (refresh_settles time_text 300 RefreshTypeNormal CompareWithLatest (sample_env []) guestbook o s);
    [reflexivity|eexists; reflexivity|exact Hs|reflexivity..|lia|right; reflexivity|reflexivity].
Defined.

(** ** Edges *)

(** A change in a namespace whose orphaned resources an application monitors asks for a
    comparison of the application, as for a managed resource, not only for its tree. *)
Definition orphan_ref : ObjectReference := Ref (newResource (live (mkGVK "" "v1" "ConfigMap") "stray" "u9" "1" "" "" [])).
Example orphan_compared :
  (λ q, refreshRequestedApps q !! "team/monitor") <$> handleObjectUpdated sample_ctrl ∅ orphan_ref idle = Some (Some CompareWithRecent).
Proof. vm_compute. reflexivity. Qed.

(** Of two conditions of one type the second is new at each evaluation: its time moves. *)
Definition two_errors : list ApplicationCondition :=
  [{| CondType := "InvalidSpecError"; CondMessage := "no source"; LastTransitionTime := None |};
   {| CondType := "InvalidSpecError"; CondMessage := "no project"; LastTransitionTime := None |}].
Definition evaluated (now : Z) (old : list ApplicationCondition) : list ApplicationCondition :=
  SetConditions time_text now two_errors ["InvalidSpecError"; "UnknownError"] old.
Example second_condition_restless :
  map LastTransitionTime (evaluated 30 (evaluated 20 (evaluated 10 []))) = [Some 10; Some 30] ∧
  map CondMessage (evaluated 30 (evaluated 20 (evaluated 10 []))) = ["no project"; "no source"].
Proof. split; vm_compute; reflexivity. Qed.

(** Namespace metadata that differ from those of the last sync: after a comparison with the
    latest revisions the application is due again at once. *)
Definition relabelled (s : ApplicationStatus) : Application :=
  {| AppNamespace := "cd"; AppName := "guestbook"; AppUID := "a1"; AppAnnotations := ∅; Finalizers := []; Deleting := false;
     HasOperation := false; HasMultipleSources := false; SpecSources := ["repo"]; TargetRevisions := ["main"];
     SpecDestination := home; SpecIgnoreDifferences := ""; NamespaceMetadata := Some "team=a";
     Status := {| ReconciledAt := ReconciledAt s; Conditions := Conditions s; Sync := Sync s; HealthCode := HealthCode s;
                  SyncResultMetadata := Some (Some "team=b") |} |}.
Example metadata_due_again :
  let o := refresh time_text 300 RefreshTypeNormal CompareWithLatest (sample_env []) (relabelled (Status guestbook)) in
  match persisted o with
  | Some s => bool_decide (ReconciledAt s = Some 300) && (needRefreshAppStatus (relabelled s) 1000 0 301 idle).1.1.1
  | None => false
  end = true.
Proof. vm_compute. reflexivity. Qed.

(** Applications of one name in different namespaces share the grace period of the
    repository: the first failure of the second is not hidden, and a success of the
    first starts the period anew. *)
Example grace_shared :
  let '(hidden1, errors) := on_repo_error 180 0 "web" false ∅ in
  hidden1 = true ∧ (on_repo_error 180 200 "web" false errors).1 = false ∧
  (on_repo_error 180 200 "web" false (on_repo_success "web" errors)).1 = true.
Proof. vm_compute. done. Qed.
End RefreshSample.
