(* ===== verification/SyncTask.v ===== *)
(** * Sync tasks: [gitops-engine/pkg/sync/sync_task.go] and [sync_tasks.go]

    A task is a mutable object shared by several slices: tasks live in a store
    [heap] and a [syncTasks] value is a list of locations.  [Sort] orders the
    slice by phase, wave, kind and name and then moves namespaces and CRDs in
    front of the resources that need them ([adjustDeps]). *)

From Stdlib Require Import Ascii.
From S2P Require Import Prelude GoStd Kube SyncCommon.

Local Open Scope string_scope.
Local Open Scope list_scope.

(** ** [sync_task.go] *)

Record syncTask : Type := mkTask {
  phase : SyncPhase;
  liveObj : option Unstructured;
  targetObj : option Unstructured;
  skipDryRun : bool;
  syncStatus : ResultCode;
  operationState : OperationPhase;
  message : string;
  waveOverride : option Z;
}.

(** [&syncTask{phase: p, targetObj: target, liveObj: live}] *)
Definition newTask (p : SyncPhase) (target live : option Unstructured) : syncTask :=
  mkTask p live target false ResultCodeNone OperationNone "" None.

(** The object of a task that has neither a target nor a live object; the code
    never builds such a task (see [task_wf]). *)
Definition nil_obj : Unstructured :=
  mkObj 0 (mkGVK "" "" "") "" "" "" "" ∅ [] "" "" None [] JNull.

Definition task_wf (t : syncTask) : Prop := is_Some (targetObj t) ∨ is_Some (liveObj t).

(** [obj(a, b)] of [sync_context.go] *)
Definition obj_of (a b : option Unstructured) : Unstructured :=
  match a with Some o => o | None => default nil_obj b end.

Definition obj (t : syncTask) : Unstructured := obj_of (targetObj t) (liveObj t).

Definition isPrune (t : syncTask) : bool := if targetObj t is Some _ then false else true.

(** [resourceResultKey] of [sync_context.go] *)
Definition resourceResultKey (key : ResourceKey) (p : SyncPhase) : string :=
  ResourceKey_String key +:+ ":" +:+ SyncPhase_str p.

Definition resultKey (t : syncTask) : string := resourceResultKey (GetResourceKey (obj t)) (phase t).

Definition wave (t : syncTask) : Z :=
  match waveOverride t with Some w => w | None => Wave (obj t) end.

Definition isHook (t : syncTask) : bool := IsHook (obj t).
Definition group (t : syncTask) : string := Group (gvk (obj t)).
Definition kind (t : syncTask) : string := Kind (gvk (obj t)).
Definition version (t : syncTask) : string := Version (gvk (obj t)).
Definition name (t : syncTask) : string := GetName (obj t).
Definition namespace (t : syncTask) : string := GetNamespace (obj t).

Definition pending (t : syncTask) : bool := bool_decide (operationState t = OperationNone).
Definition running (t : syncTask) : bool := Running (operationState t).
Definition completed (t : syncTask) : bool := Completed (operationState t).
Definition successful (t : syncTask) : bool := Successful (operationState t).
Definition pruned (t : syncTask) : bool := bool_decide (syncStatus t = ResultCodePruned).

(** [common.HookType(t.phase)] *)
Definition phase_HookType (p : SyncPhase) : HookType :=
  match p with
  | SyncPhasePreSync => HookTypePreSync
  | SyncPhaseSync => HookTypeSync
  | SyncPhasePostSync => HookTypePostSync
  | SyncPhaseSyncFail => HookTypeSyncFail
  end.

Definition hookType (t : syncTask) : option HookType :=
  if isHook t then Some (phase_HookType (phase t)) else None.

Definition hasHookDeletePolicy (t : syncTask) (policy : HookDeletePolicy) : bool :=
  if isHook t then bool_decide (policy ∈ DeletePolicies (obj t)) else false.

Definition has_live (t : syncTask) : bool := if liveObj t is Some _ then true else false.

Definition deleteBeforeCreation (t : syncTask) : bool :=
  has_live t && pending t && hasHookDeletePolicy t HookDeletePolicyBeforeHookCreation.

Definition deleteOnPhaseSuccessful (t : syncTask) : bool :=
  has_live t && hasHookDeletePolicy t HookDeletePolicyHookSucceeded.

Definition deleteOnPhaseFailed (t : syncTask) : bool :=
  has_live t && hasHookDeletePolicy t HookDeletePolicyHookFailed.

Definition deleteOnPhaseCompletion (t : syncTask) : bool :=
  deleteOnPhaseFailed t || deleteOnPhaseSuccessful t.

(** The live object's namespace wins over the namespace set on the target. *)
Definition resourceKey (t : syncTask) : ResourceKey :=
  let k := GetResourceKey (obj t) in
  match liveObj t with
  | Some l => NewResourceKey (key_Group k) (key_Kind k) (GetNamespace l) (key_Name k)
  | None => k
  end.

(** ** The task store *)

Notation loc := nat (only parsing).
Notation heap := (gmap nat syncTask).

Definition nil_task : syncTask := newTask SyncPhaseSync None None.

Definition deref (h : heap) (l : loc) : syncTask := default nil_task (h !! l).

Definition set_step (p : SyncPhase) (w : Z) (t : syncTask) : syncTask :=
  mkTask p (liveObj t) (targetObj t) (skipDryRun t) (syncStatus t) (operationState t)
    (message t) (Some w).

(** ** [sync_tasks.go] *)

Definition syncPhaseOrder (p : SyncPhase) : Z :=
  match p with
  | SyncPhasePreSync => -1
  | SyncPhaseSync => 0
  | SyncPhasePostSync => 1
  | SyncPhaseSyncFail => 2
  end.

Definition kinds : list string :=
  [ "Namespace"; "NetworkPolicy"; "ResourceQuota"; "LimitRange"; "PodSecurityPolicy";
    "PodDisruptionBudget"; "ServiceAccount"; "Secret"; "SecretList"; "ConfigMap";
    "StorageClass"; "PersistentVolume"; "PersistentVolumeClaim"; "CustomResourceDefinition";
    "ClusterRole"; "ClusterRoleList"; "ClusterRoleBinding"; "ClusterRoleBindingList";
    "Role"; "RoleList"; "RoleBinding"; "RoleBindingList"; "Service"; "DaemonSet"; "Pod";
    "ReplicationController"; "ReplicaSet"; "Deployment"; "HorizontalPodAutoscaler";
    "StatefulSet"; "Job"; "CronJob"; "IngressClass"; "Ingress"; "APIService" ].

(** Position of a kind in [kinds], counted from [i]. *)
Fixpoint kind_index (i : Z) (k : string) (l : list string) : option Z :=
  match l with
  | [] => None
  | x :: r => if String.eqb k x then Some i else kind_index (i + 1) k r
  end.

(** The map built by [init]; a missing key reads as zero. *)
Definition kindOrder (k : string) : Z :=
  match kind_index 0 k kinds with
  | Some i => (i - Z.of_nat (length kinds))%Z
  | None => 0
  end.

(** [syncTasks.Less]; differences are machine integers. *)
Definition Less (h : heap) (i j : loc) : bool :=
  let tA := deref h i in
  let tB := deref h j in
  let d := (syncPhaseOrder (phase tA) -! syncPhaseOrder (phase tB))%go in
  if negb (d =? 0)%Z then (d <? 0)%Z else
  let d := (wave tA -! wave tB)%go in
  if negb (d =? 0)%Z then (d <? 0)%Z else
  let d := (kindOrder (GetKind (obj tA)) -! kindOrder (GetKind (obj tB)))%go in
  if negb (d =? 0)%Z then (d <? 0)%Z else
  string_lt (GetName (obj tA)) (GetName (obj tB)).

Section adjustDeps.
Context (isDep doesRefDep : Unstructured → option string).

(** The body of [adjustDeps]: [before] is the part of the slice already
    visited, [first] the map [firstIndexByDepKey]. *)
Fixpoint adjust_loop (rest before : list loc) (first : gmap string nat) (h : heap)
    : list loc * heap :=
  match rest with
  | [] => (before, h)
  | t :: rest' =>
      match targetObj (deref h t) with
      | None => adjust_loop rest' (before ++ [t]) first h
      | Some o =>
          match isDep o with
          | Some depKey =>
              match first !! depKey with
              | Some index =>
                  let at_index := deref h (default 0 (before !! index)) in
                  let h' := <[t := set_step (phase at_index) (wave at_index) (deref h t)]> h in
                  adjust_loop rest' (take index before ++ t :: drop index before)
                    ((λ i, if Nat.leb index i then S i else i) <$> first) h'
              | None => adjust_loop rest' (before ++ [t]) first h
              end
          | None =>
              match doesRefDep o with
              | Some depKey =>
                  adjust_loop rest' (before ++ [t])
                    (match first !! depKey with
                     | Some _ => first
                     | None => <[depKey := length before]> first
                     end) h
              | None => adjust_loop rest' (before ++ [t]) first h
              end
          end
      end
  end.

Definition adjustDeps (s : list loc) (h : heap) : list loc * heap := adjust_loop s [] ∅ h.
End adjustDeps.

(** The four callbacks of [Sort] *)
Definition ns_isDep (o : Unstructured) : option string :=
  if String.eqb (GetKind o) NamespaceKind && String.eqb (Group (gvk o)) ""
  then Some (GetName o) else None.

Definition ns_refDep (o : Unstructured) : option string :=
  if String.eqb (GetNamespace o) "" then None else Some (GetNamespace o).

Definition crd_isDep (o : Unstructured) : option string :=
  if IsCRD o then
    crdGroup ← nested_ok (NestedString (Object o) ["spec"; "group"]);
    crdKind ← nested_ok (NestedString (Object o) ["spec"; "names"; "kind"]);
    Some (crdGroup +:+ "/" +:+ crdKind)
  else None.

Definition crd_refDep (o : Unstructured) : option string :=
  Some (Group (gvk o) +:+ "/" +:+ Kind (gvk o)).

Definition Sort `{GoRuntime} (s : list loc) (h : heap) : list loc * heap :=
  let s := go_sort (Less h) s in
  let '(s, h) := adjustDeps ns_isDep ns_refDep s h in
  adjustDeps crd_isDep crd_refDep s h.

(** [Filter], [Split], [All], [Any] read the tasks the slice points to. *)
Definition Filter (h : heap) (pred : syncTask → bool) (s : list loc) : list loc :=
  filter (λ l, pred (deref h l) = true) s.

Definition SplitTasks (h : heap) (pred : syncTask → bool) (s : list loc) : list loc * list loc :=
  (filter (λ l, pred (deref h l) = true) s, filter (λ l, pred (deref h l) = false) s).

Definition All (h : heap) (pred : syncTask → bool) (s : list loc) : bool :=
  forallb (λ l, pred (deref h l)) s.

Definition Any (h : heap) (pred : syncTask → bool) (s : list loc) : bool :=
  existsb (λ l, pred (deref h l)) s.

(** [Map]: the distinct values, in the order of a [range] over the map. *)
Definition MapTasks `{GoRuntime} (h : heap) (f : syncTask → string) (s : list loc) : list string :=
  (go_range (list_to_map ((λ l, (f (deref h l), tt)) <$> s) : gmap string unit)).*1.

(** [phase], [lastPhase]: [None] is the empty phase of an empty slice. *)
Definition first_phase (h : heap) (s : list loc) : option SyncPhase :=
  (λ l, phase (deref h l)) <$> head s.
Definition first_wave (h : heap) (s : list loc) : Z :=
  default 0%Z ((λ l, wave (deref h l)) <$> head s).
Definition lastPhase (h : heap) (s : list loc) : option SyncPhase :=
  (λ l, phase (deref h l)) <$> last s.
Definition lastWave (h : heap) (s : list loc) : Z :=
  default 0%Z ((λ l, wave (deref h l)) <$> last s).

Definition multiStep (h : heap) (s : list loc) : bool :=
  negb (first_wave h s =? lastWave h s)%Z || negb (bool_decide (first_phase h s = lastPhase h s)).

(** Linear arithmetic with string comparisons as propositional atoms. *)
Ltac lia_str :=
  repeat match goal with
  | |- context [string_lt ?a ?b] => destruct (string_lt a b)
  | H : context [string_lt ?a ?b] |- _ => destruct (string_lt a b)
  end; lia.

(** ** [Less] is a strict weak order while wave differences do not overflow *)

Definition wave_ok (t : syncTask) : Prop := (- 2 ^ 62 ≤ wave t < 2 ^ 62)%Z.

Lemma kind_index_bound i k l j :
  kind_index i k l = Some j → (i ≤ j < i + Z.of_nat (length l))%Z.
Proof.
  revert i; induction l as [|x l IH]; intros i; simpl; [done|].
  case_match; intros Hj; [simplify_eq; lia|]. apply IH in Hj. lia.
Qed.

Lemma kindOrder_bound k : (-35 ≤ kindOrder k ≤ 0)%Z.
Proof.
  unfold kindOrder. destruct (kind_index 0 k kinds) eqn:E; [|lia].
  apply kind_index_bound in E. simpl in *. lia.
Qed.

Lemma syncPhaseOrder_bound p : (-1 ≤ syncPhaseOrder p ≤ 2)%Z.
Proof. destruct p; simpl; lia. Qed.

(** The comparison [Less] is meant to compute, without machine arithmetic. *)
Definition lex_lt (a b : syncTask) : Prop :=
  let p t := syncPhaseOrder (phase t) in
  let k t := kindOrder (GetKind (obj t)) in
  (p a < p b)%Z ∨ p a = p b ∧
  ((wave a < wave b)%Z ∨ wave a = wave b ∧
   ((k a < k b)%Z ∨ k a = k b ∧ string_lt (GetName (obj a)) (GetName (obj b)) = true)).

Lemma sub_wrap_id a b : (- 2 ^ 63 ≤ a - b < 2 ^ 63)%Z → (a -! b)%go = (a - b)%Z.
Proof. intros. apply wrap64_id. unfold in_int64, int_min, int_max. lia. Qed.

Lemma Less_lex h a b :
  wave_ok (deref h a) → wave_ok (deref h b) →
  Less h a b = true ↔ lex_lt (deref h a) (deref h b).
Proof.
  unfold Less, lex_lt, wave_ok; cbv zeta beta.
  generalize dependent (deref h a). generalize dependent (deref h b). intros tB tA Ha Hb.
  pose proof (syncPhaseOrder_bound (phase tA)). pose proof (syncPhaseOrder_bound (phase tB)).
  pose proof (kindOrder_bound (GetKind (obj tA))). pose proof (kindOrder_bound (GetKind (obj tB))).
  rewrite !sub_wrap_id by lia.
  repeat (case_match; breflect; [lia|]). lia_str.
Qed.

Lemma Less_strict_weak h s :
  (∀ l, l ∈ s → wave_ok (deref h l)) → strict_weak_on (Less h) s.
Proof.
  intros Hok. split.
  - intros a Ha. apply not_true_iff_false. rewrite Less_lex by auto. unfold lex_lt; cbv zeta beta.
    rewrite string_lt_irrefl. lia.
  - intros a b Ha Hb. rewrite <- not_true_iff_false, !Less_lex by auto. unfold lex_lt; cbv zeta beta.
    pose proof (string_lt_asym (GetName (obj (deref h a))) (GetName (obj (deref h b)))). lia_str.
  - intros a b c Ha Hb Hc. rewrite !Less_lex by auto. unfold lex_lt; cbv zeta beta.
    pose proof (string_lt_cotrans (GetName (obj (deref h a))) (GetName (obj (deref h b)))
      (GetName (obj (deref h c)))). lia_str.
Qed.

(** ** Steps: what a sync operation waits for is a (phase, wave) pair *)

Definition step : Type := Z * Z.
Definition step_of (t : syncTask) : step := (syncPhaseOrder (phase t), wave t).
Definition step_le (x y : step) : Prop := (x.1 < y.1 ∨ x.1 = y.1 ∧ x.2 ≤ y.2)%Z.

#[export] Instance step_le_preorder : PreOrder step_le.
Proof.
  split; [intros [p w]; unfold step_le; simpl; lia|].
  intros [p1 w1] [p2 w2] [p3 w3]; unfold step_le; simpl; lia.
Qed.

Definition steps (h : heap) (s : list loc) : list step := (λ l, step_of (deref h l)) <$> s.

(** The slice visits its steps in increasing order. *)
Definition steps_sorted (h : heap) (s : list loc) : Prop := StronglySorted step_le (steps h s).

Lemma sorted_by_Less_steps h s :
  (∀ l, l ∈ s → wave_ok (deref h l)) → sorted_by (Less h) s → steps_sorted h s.
Proof.
  intros Hok Hs. unfold steps_sorted, steps.
  induction Hs as [|x l Hl IH Hx]; simpl; constructor.
  - apply IH. intros. apply Hok. by right.
  - rewrite Forall_fmap, Forall_forall in *. intros y Hy. specialize (Hx y Hy). simpl in *.
    rewrite <- not_true_iff_false, Less_lex in Hx by (apply Hok; elem_list).
    unfold lex_lt, step_le, step_of in *; simpl in *. lia.
Qed.

(** ** [adjustDeps]: permutation and order of steps *)

Section adjustDeps_props.
Context (isDep doesRefDep : Unstructured → option string).
Notation loop := (adjust_loop isDep doesRefDep).

(** A pass only changes the phase and wave of tasks. *)
Definition same_objs (h h' : heap) : Prop :=
  ∀ l, targetObj (deref h' l) = targetObj (deref h l) ∧ liveObj (deref h' l) = liveObj (deref h l).

#[export] Instance same_objs_preorder : PreOrder same_objs.
Proof.
  split; [done|]. intros h1 h2 h3 H12 H23 l.
  destruct (H12 l), (H23 l). split; congruence.
Qed.

Lemma deref_insert h l t : deref (<[l := t]> h) l = t.
Proof. unfold deref. by rewrite lookup_insert_eq. Qed.

Lemma deref_insert_ne h l l' t : l ≠ l' → deref (<[l := t]> h) l' = deref h l'.
Proof. intros. unfold deref. by rewrite lookup_insert_ne. Qed.

Lemma same_objs_set_step h l p w : same_objs h (<[l := set_step p w (deref h l)]> h).
Proof.
  intros l'. destruct (decide (l = l')) as [->|].
  - by rewrite deref_insert.
  - by rewrite deref_insert_ne.
Qed.

Lemma adjust_loop_perm rest before first h :
  (loop rest before first h).1 ≡ₚ before ++ rest.
Proof.
  revert before first h; induction rest as [|t rest IH]; intros before first h; simpl.
  { by rewrite app_nil_r. }
  assert ((before ++ [t]) ++ rest = before ++ t :: rest) as Hs by by rewrite <- app_assoc.
  repeat case_match; rewrite IH, ?Hs; try done.
  rewrite <- app_assoc; simpl. rewrite <- Permutation_middle, app_assoc, take_drop.
  by rewrite Permutation_middle.
Qed.

Lemma adjust_loop_same_objs rest before first h :
  same_objs h (loop rest before first h).2.
Proof.
  revert before first h; induction rest as [|t rest IH]; intros before first h; simpl; [done|].
  repeat case_match; try apply IH.
  etransitivity; [apply (same_objs_set_step h t)|apply IH].
Qed.

Lemma steps_insert h t x s : t ∉ s → steps (<[t := x]> h) s = steps h s.
Proof.
  intros Ht. unfold steps. apply list_fmap_ext. intros i l Hl.
  rewrite deref_insert_ne; [done|]. intros ->. apply Ht. by eapply list_elem_of_lookup_2.
Qed.

(** Recorded indexes are positions of the visited part. *)
Definition first_bound (first : gmap string nat) (before : list loc) : Prop :=
  map_Forall (λ _ i, i < length before) first.

Lemma first_bound_shift first before index t :
  first_bound first before →
  first_bound ((λ i, if Nat.leb index i then S i else i) <$> first)
    (take index before ++ t :: drop index before).
Proof.
  intros Hf k i. rewrite lookup_fmap. destruct (first !! k) as [j|] eqn:E; simpl; [|done].
  intros ?; simplify_eq. specialize (Hf _ _ E).
  assert (length (take index before ++ t :: drop index before) = S (length before)) as ->.
  { rewrite length_app, length_cons, Nat.add_succ_r, <- length_app, take_drop. done. }
  simpl in *. case_match; lia.
Qed.

Lemma first_bound_snoc first before t :
  first_bound first before → first_bound first (before ++ [t]).
Proof. intros Hf k i Hk. rewrite length_app; simpl. specialize (Hf _ _ Hk). simpl in *. lia. Qed.

Lemma first_bound_insert first before t k :
  first_bound first before → first_bound (<[k := length before]> first) (before ++ [t]).
Proof.
  intros Hf. apply map_Forall_insert_2; [|by apply first_bound_snoc].
  rewrite length_app; simpl; lia.
Qed.

Lemma steps_app h a b : steps h (a ++ b) = steps h a ++ steps h b.
Proof. apply fmap_app. Qed.

Lemma steps_cons h a b : steps h (a :: b) = step_of (deref h a) :: steps h b.
Proof. done. Qed.

(** Moving [t] in front of position [index] keeps the steps sorted because
    [t] takes over the phase and wave of the task found there. *)
Lemma move_sorted before rest h t index :
  NoDup (before ++ t :: rest) → index < length before →
  steps_sorted h (before ++ t :: rest) →
  steps_sorted
    (<[t := set_step (phase (deref h (default 0 (before !! index))))
              (wave (deref h (default 0 (before !! index)))) (deref h t)]> h)
    ((take index before ++ t :: drop index before) ++ rest).
Proof.
  intros Hnd Hi Hs. destruct (lookup_lt_is_Some_2 before index Hi) as [r Hr].
  rewrite Hr; simpl.
  apply NoDup_app in Hnd as (_&Hdisj&Hnd). apply NoDup_cons in Hnd as [Htr _].
  assert (t ∉ before) as Htb by (intros ?; eapply Hdisj; [done|left]).
  assert (t ∉ take index before ∧ t ∉ drop index before) as [? ?].
  { rewrite <- (take_drop index before) in Htb. set_solver. }
  unfold steps_sorted in *. rewrite !steps_app, steps_cons in *.
  apply StronglySorted_remove in Hs. rewrite !steps_insert, deref_insert by done.
  rewrite <- (take_drop_middle before index r Hr), steps_app, steps_cons in Hs.
  rewrite (drop_S before r index Hr), steps_cons.
  rewrite <- app_assoc in Hs |- *. simpl in *. by apply StronglySorted_dup; [apply _|].
Qed.

Lemma adjust_loop_sorted rest before first h :
  NoDup (before ++ rest) → first_bound first before → steps_sorted h (before ++ rest) →
  steps_sorted (loop rest before first h).2 (loop rest before first h).1.
Proof.
  revert before first h; induction rest as [|t rest IH]; intros before first h Hnd Hf Hs; simpl.
  { by rewrite app_nil_r in Hs. }
  assert (before ++ t :: rest = (before ++ [t]) ++ rest) as E by by rewrite <- app_assoc.
  destruct (targetObj (deref h t)) as [o|]; [|rewrite E in *; auto using first_bound_snoc].
  destruct (isDep o) as [k|].
  - destruct (first !! k) as [index|] eqn:Ek; [|rewrite E in *; auto using first_bound_snoc].
    apply IH; [|by apply first_bound_shift|apply move_sorted; [done| |done]; by eapply Hf].
    eapply NoDup_Permutation_proper; [|exact Hnd].
    rewrite <- app_assoc; simpl. rewrite <- Permutation_middle, app_assoc, take_drop.
    by rewrite Permutation_middle.
  - destruct (doesRefDep o) as [k|]; [|rewrite E in *; auto using first_bound_snoc].
    rewrite E in *. apply IH; [done| |done].
    case_match; auto using first_bound_snoc, first_bound_insert.
Qed.

(** *** Dependencies come first *)

Definition dep_key (h : heap) (l : loc) : option string :=
  o ← targetObj (deref h l); isDep o.
Definition ref_key (h : heap) (l : loc) : option string :=
  o ← targetObj (deref h l); if isDep o is Some _ then None else doesRefDep o.

(** Every dependency stands before every task that references its key. *)
Definition deps_first (h : heap) (s : list loc) : Prop :=
  ∀ (i j : nat) d r k, s !! i = Some d → s !! j = Some r →
    dep_key h d = Some k → ref_key h r = Some k → (i < j)%nat.

(** [first] maps a referenced key to a visited position not after any
    reference to it. *)
Definition first_inv (h : heap) (first : gmap string nat) (before : list loc) : Prop :=
  ∀ k (j : nat) r, before !! j = Some r → ref_key h r = Some k →
    ∃ i : nat, first !! k = Some i ∧ (i ≤ j)%nat.

Lemma keys_same h h' l :
  same_objs h h' → dep_key h' l = dep_key h l ∧ ref_key h' l = ref_key h l.
Proof. intros H. destruct (H l) as [E _]. unfold dep_key, ref_key. by rewrite E. Qed.

Lemma deps_first_same h h' s : same_objs h h' → deps_first h s ↔ deps_first h' s.
Proof.
  intros Hsame. unfold deps_first. split; intros Hd i j d r k Hi Hj Hdk Hrk;
    destruct (keys_same h h' d Hsame) as [Ed _], (keys_same h h' r Hsame) as [_ Er];
    apply (Hd i j d r k); congruence.
Qed.

Lemma first_inv_same h h' first s : same_objs h h' → first_inv h first s → first_inv h' first s.
Proof.
  intros Hsame Hf k j r Hj Hr. destruct (keys_same h h' r Hsame) as [_ Er].
  eapply Hf; [done|congruence].
Qed.

Lemma dep_not_ref h l k : dep_key h l = Some k → ref_key h l = None.
Proof. unfold dep_key, ref_key. destruct (targetObj _); simpl; [|done]. by intros ->. Qed.

Lemma move_deps_first h first before t k index :
  first_bound first before → first_inv h first before → deps_first h before →
  dep_key h t = Some k → first !! k = Some index →
  deps_first h (take index before ++ t :: drop index before).
Proof.
  intros Hb Hf Hd Ht Hk i j d r k' Hi Hj Hdk Hrk. pose proof (Hb _ _ Hk); simpl in *.
  rewrite lookup_insert_at in Hi, Hj by lia. pose proof (dep_not_ref _ _ _ Ht).
  repeat case_decide; simplify_eq; try congruence; try lia.
  - eapply Hd; eauto.
  - exfalso. edestruct Hf as (?&?&?); [exact Hj|done|]. simplify_eq. lia.
  - cut (i - 1 < j)%nat; [lia|]. eapply Hd; eauto.
  - cut (i - 1 < j - 1)%nat; [lia|]. eapply Hd; eauto.
Qed.

Lemma move_first_inv h first before t k index :
  first_bound first before → first_inv h first before →
  dep_key h t = Some k → first !! k = Some index →
  first_inv h ((λ i, if Nat.leb index i then S i else i) <$> first)
    (take index before ++ t :: drop index before).
Proof.
  intros Hb Hf Ht Hk k' j r Hj Hr. pose proof (Hb _ _ Hk); simpl in *.
  rewrite lookup_insert_at in Hj by lia. pose proof (dep_not_ref _ _ _ Ht).
  repeat case_decide; simplify_eq; try congruence;
    (edestruct Hf as (i&Hi&?); [exact Hj|done|]);
    exists (if Nat.leb index i then S i else i); rewrite lookup_fmap, Hi;
    (split; [done|]); destruct (Nat.leb_spec index i); lia.
Qed.

Lemma snoc_deps_first h first before t :
  first_inv h first before → deps_first h before →
  (∀ k, dep_key h t = Some k → first !! k = None) → deps_first h (before ++ [t]).
Proof.
  intros Hf Hd Ht i j d r k Hi Hj Hdk Hrk.
  apply lookup_snoc_Some in Hi as [[? Hi]|[-> <-]], Hj as [[? Hj]|[-> <-]].
  - eapply Hd; eauto.
  - lia.
  - exfalso. destruct (Hf _ _ _ Hj Hrk) as (?&E&_). rewrite (Ht _ Hdk) in E. done.
  - exfalso. rewrite (dep_not_ref _ _ _ Hdk) in Hrk. done.
Qed.

Lemma snoc_first_inv h first before t :
  first_bound first before → first_inv h first before → ref_key h t = None →
  first_inv h first (before ++ [t]).
Proof.
  intros Hb Hf Ht k j r [[? Hj]|[-> <-]]%lookup_snoc_Some Hr; [by eapply Hf|congruence].
Qed.

Lemma snoc_first_inv_ref h first before t k :
  first_bound first before → first_inv h first before → ref_key h t = Some k →
  first_inv h (match first !! k with Some _ => first | None => <[k := length before]> first end)
    (before ++ [t]).
Proof.
  intros Hb Hf Ht k' j r Hj Hr. apply lookup_snoc_Some in Hj as [[? Hj]|[-> <-]].
  - destruct (Hf _ _ _ Hj Hr) as (i&Hi&?). exists i. split; [|done].
    destruct (first !! k) eqn:E; [done|]. rewrite lookup_insert_ne; [done|congruence].
  - assert (k' = k) as -> by congruence. destruct (first !! k) as [i|] eqn:E.
    + exists i. specialize (Hb _ _ E). simpl in *. split; [done|lia].
    + exists (length before). by rewrite lookup_insert_eq.
Qed.

Lemma adjust_loop_deps_first rest before first h :
  first_bound first before → first_inv h first before → deps_first h before →
  deps_first h (loop rest before first h).1.
Proof.
  revert before first h; induction rest as [|t rest IH]; intros before first h Hb Hf Hd; simpl; [done|].
  assert (dep_key h t = o ← targetObj (deref h t); isDep o) as Hdep by done.
  assert (ref_key h t = o ← targetObj (deref h t); if isDep o is Some _ then None else doesRefDep o)
    as Href by done.
  destruct (targetObj (deref h t)) as [o|]; simpl in Hdep, Href;
    [|apply IH; [auto using first_bound_snoc|by apply snoc_first_inv|
       eapply snoc_deps_first; [done..|]; intros ? ?; congruence]].
  destruct (isDep o) as [k|].
  - destruct (first !! k) as [index|] eqn:Ek.
    + match goal with |- context [loop rest _ _ ?h'] => assert (same_objs h h') as Hsame
        by apply same_objs_set_step end.
      eapply (deps_first_same _ _ _ Hsame), IH.
      * by apply first_bound_shift.
      * eapply first_inv_same; [done|]. by eapply move_first_inv.
      * eapply (deps_first_same _ _ _ Hsame). by eapply move_deps_first.
    + apply IH; [auto using first_bound_snoc|by apply snoc_first_inv|].
      eapply snoc_deps_first; [done..|]. intros; congruence.
  - destruct (doesRefDep o) as [k|].
    + apply IH; [case_match; auto using first_bound_snoc, first_bound_insert| |].
      * by apply snoc_first_inv_ref.
      * eapply snoc_deps_first; [done..|]. intros; congruence.
    + apply IH; [auto using first_bound_snoc|by apply snoc_first_inv|].
      eapply snoc_deps_first; [done..|]. intros; congruence.
Qed.

(** Tasks that are not dependencies keep their relative order. *)
Definition not_dep (h : heap) (l : loc) : Prop := dep_key h l = None.

#[export] Instance not_dep_dec h l : Decision (not_dep h l).
Proof. unfold not_dep. apply _. Defined.

Lemma adjust_loop_filter rest before first h :
  filter (not_dep h) (loop rest before first h).1 = filter (not_dep h) (before ++ rest).
Proof.
  revert before first h; induction rest as [|t rest IH]; intros before first h; simpl.
  { by rewrite app_nil_r. }
  assert (before ++ t :: rest = (before ++ [t]) ++ rest) as E by by rewrite <- app_assoc.
  assert (dep_key h t = o ← targetObj (deref h t); isDep o) as Hdep by done.
  destruct (targetObj (deref h t)) as [o|]; [|by rewrite IH, E].
  simpl in Hdep. destruct (isDep o) as [k|].
  - destruct (first !! k) as [index|]; [|by rewrite IH, E].
    match goal with |- context [loop rest _ _ ?h'] => assert (same_objs h h') as Hsame
      by apply same_objs_set_step; set (h2 := h') in * end.
    assert (∀ l : list loc, filter (not_dep h) l = filter (not_dep h2) l) as Hext.
    { intros l. apply list_filter_iff. intros x. unfold not_dep.
      destruct (keys_same h h2 x Hsame) as [-> _]. done. }
    rewrite !Hext, IH, <- !Hext, !filter_app, !filter_cons.
    rewrite !decide_False by (unfold not_dep; congruence).
    by rewrite <- (filter_app _ (take index before)), take_drop.
  - case_match; by rewrite IH, E.
Qed.
End adjustDeps_props.

(** ** [Sort] *)

Section Sort_props.
Context `{GoRuntime}.

Lemma adjustDeps_perm isDep refDep s h : (adjustDeps isDep refDep s h).1 ≡ₚ s.
Proof. apply adjust_loop_perm. Qed.

Lemma adjustDeps_same_objs isDep refDep s h : same_objs h (adjustDeps isDep refDep s h).2.
Proof. apply adjust_loop_same_objs. Qed.

Lemma first_bound_empty before : first_bound ∅ before.
Proof. apply map_Forall_empty. Qed.

Lemma adjustDeps_sorted isDep refDep s h :
  NoDup s → steps_sorted h s →
  steps_sorted (adjustDeps isDep refDep s h).2 (adjustDeps isDep refDep s h).1.
Proof. intros. apply adjust_loop_sorted; [done|apply first_bound_empty|done]. Qed.

Lemma adjustDeps_deps_first isDep refDep s h :
  deps_first isDep refDep h (adjustDeps isDep refDep s h).1.
Proof. apply adjust_loop_deps_first; [apply first_bound_empty| |]; by intros k []. Qed.

(** [Sort] unfolded into its three passes. *)
Definition pass1 (s : list loc) (h : heap) := go_sort (Less h) s.
Definition pass2 (s : list loc) (h : heap) := adjustDeps ns_isDep ns_refDep (pass1 s h) h.

Lemma Sort_passes s h :
  Sort s h = adjustDeps crd_isDep crd_refDep (pass2 s h).1 (pass2 s h).2.
Proof. unfold Sort, pass2, pass1. by destruct (adjustDeps ns_isDep _ _ _). Qed.

Lemma pass2_perm s h : (pass2 s h).1 ≡ₚ s.
Proof. unfold pass2. rewrite adjustDeps_perm. apply go_sort_perm. Qed.

Lemma Sort_perm s h : (Sort s h).1 ≡ₚ s.
Proof. rewrite Sort_passes, adjustDeps_perm. apply pass2_perm. Qed.

Lemma Sort_same_objs s h : same_objs h (Sort s h).2.
Proof.
  rewrite Sort_passes. etransitivity; [|apply adjustDeps_same_objs]. apply adjustDeps_same_objs.
Qed.

Lemma Sort_sorted s h :
  NoDup s → (∀ l, l ∈ s → wave_ok (deref h l)) → steps_sorted (Sort s h).2 (Sort s h).1.
Proof.
  intros Hnd Hok. rewrite Sort_passes.
  apply adjustDeps_sorted; [by rewrite pass2_perm|].
  apply adjustDeps_sorted; [unfold pass1; by rewrite go_sort_perm|].
  apply sorted_by_Less_steps.
  - intros l. unfold pass1. rewrite go_sort_perm. apply Hok.
  - by apply go_sort_sorted, Less_strict_weak.
Qed.

Lemma ns_dep_not_crd o k : ns_isDep o = Some k → crd_isDep o = None.
Proof.
  unfold ns_isDep, crd_isDep, IsCRD, IsCRDGroupVersionKind.
  destruct (String.eqb_spec (Group (gvk o)) "") as [->|]; [|by rewrite andb_false_r].
  rewrite andb_false_r. done.
Qed.

(** What the order of a sorted slice guarantees to the tasks that depend on
    a namespace or on a CRD. *)
Definition namespaces_first (h : heap) (s : list loc) : Prop :=
  ∀ (i j : nat) d r n, s !! i = Some d → s !! j = Some r →
    dep_key ns_isDep h d = Some n → ref_key ns_isDep ns_refDep h r = Some n →
    dep_key crd_isDep h r = None → (i < j)%nat.

Lemma Sort_namespaces_first s h : NoDup s → namespaces_first h (Sort s h).1.
Proof.
  intros Hnd i j d r n Hi Hj Hd Hr Hcrd. rewrite Sort_passes in Hi, Hj.
  assert (dep_key crd_isDep h d = None) as Hdc.
  { unfold dep_key in *. destruct (targetObj _) as [o|]; [|done]. simpl in *.
    by eapply ns_dep_not_crd. }
  set (s2 := (pass2 s h).1) in *. set (h2 := (pass2 s h).2) in *.
  assert (same_objs h h2) as Hsame by apply adjustDeps_same_objs.
  destruct (keys_same crd_isDep crd_refDep h h2 d Hsame) as [Ed _].
  destruct (keys_same crd_isDep crd_refDep h h2 r Hsame) as [Er _].
  destruct (decide (i < j)%nat) as [|Hge]; [done|exfalso].
  assert (j ≠ i) as Hne.
  { intros ->. rewrite Hi in Hj. simplify_eq. rewrite (dep_not_ref _ _ _ _ _ Hd) in Hr. done. }
  assert (precedes r d s2) as Hp.
  { rewrite <- (precedes_filter (not_dep crd_isDep h2)) by (unfold not_dep; congruence).
    pose proof (adjust_loop_filter crd_isDep crd_refDep s2 [] ∅ h2) as Hf. simpl in Hf.
    rewrite <- Hf, precedes_filter by (unfold not_dep; congruence).
    apply precedes_lookup. exists j, i. split_and!; [lia|done|done]. }
  apply precedes_lookup in Hp as (a&b&Hab&Ha&Hb).
  pose proof (adjustDeps_deps_first ns_isDep ns_refDep (pass1 s h) h) as Hdf.
  pose proof (Hdf b a d r n Hb Ha Hd Hr). lia.
Qed.

Lemma Sort_crds_first s h : deps_first crd_isDep crd_refDep h (Sort s h).1.
Proof.
  rewrite Sort_passes. eapply deps_first_same; [apply (adjustDeps_same_objs ns_isDep ns_refDep)|].
  apply adjustDeps_deps_first.
Qed.

(** C3. [Sort] permutes the slice, visits the (phase, wave) steps in
    increasing order, puts a namespace before every resource placed in it
    (CRDs, which are cluster scoped, excepted) and puts a CRD before every
    resource of the kind it defines; target and live objects are untouched.
    The sort itself is any algorithm that sorts by a strict weak order, and
    waves are bounded so that the differences of [Less] do not overflow. *)
Theorem Sort_correct (s : list loc) (h : heap) :
  NoDup s → (∀ l, l ∈ s → wave_ok (deref h l)) →
  (Sort s h).1 ≡ₚ s ∧
  steps_sorted (Sort s h).2 (Sort s h).1 ∧
  namespaces_first h (Sort s h).1 ∧
  deps_first crd_isDep crd_refDep h (Sort s h).1 ∧
  same_objs h (Sort s h).2.
Proof.
  intros. split_and!; [apply Sort_perm|by apply Sort_sorted|by apply Sort_namespaces_first
    |apply Sort_crds_first|apply Sort_same_objs].
Qed.
End Sort_props.

(** ** Concrete tasks *)

Definition example_obj (g k ns n : string) (anns : gmap string string) (body : json) : Unstructured :=
  mkObj 0 (mkGVK g "v1" k) k n ns "" anns [] "" "" None [] body.

Definition example_heap : heap :=
  list_to_map
    [ (0, newTask SyncPhaseSync (Some (example_obj "apps" "Deployment" "shop" "web"
             {[AnnotationSyncWave := "-1"]} JNull)) None);
      (1, newTask SyncPhaseSync (Some (example_obj "" "Namespace" "" "shop" ∅ JNull)) None);
      (2, newTask SyncPhasePreSync (Some (example_obj "batch" "Job" "other" "migrate" ∅ JNull)) None) ].

(** The namespace [shop] (wave 0) is pulled into wave -1, before the deployment
    that lives in it; the PreSync job stays first. *)
Lemma Sort_correct_witness :
  (@Sort reference_runtime [0; 1; 2] example_heap).1 = [2; 1; 0] ∧
  steps_sorted (@Sort reference_runtime [0; 1; 2] example_heap).2
    (@Sort reference_runtime [0; 1; 2] example_heap).1.
Proof.
  split; [vm_compute; reflexivity|].
  refine (proj1 (proj2 (@Sort_correct reference_runtime [0; 1; 2] example_heap _ _))).
  - apply (bool_decide_unpack (NoDup [0; 1; 2])). vm_compute. exact I.
  - intros l Hl. rewrite !elem_of_cons in Hl.
    destruct Hl as [->|[->|[->|Hl]]]; [vm_compute; split; congruence..|].
    by apply not_elem_of_nil in Hl.
Defined.

(** Three config maps whose waves are too far apart *)
Definition overflow_heap : heap :=
  list_to_map
    [ (0, newTask SyncPhaseSync (Some (example_obj "" "ConfigMap" "a" "x"
             {[AnnotationSyncWave := "9223372036854775807"]} JNull)) None);
      (1, newTask SyncPhaseSync (Some (example_obj "" "ConfigMap" "a" "x"
             {[AnnotationSyncWave := "-2"]} JNull)) None);
      (2, newTask SyncPhaseSync (Some (example_obj "" "ConfigMap" "a" "x" ∅ JNull)) None) ].

(** [Less] subtracts waves as machine integers.  With waves [2^63 - 1] and
    [-2], both accepted by the annotation parser, the difference overflows: the
    resource of the larger wave is ordered before the one of the smaller wave,
    and with wave 0 the three form a cycle, so [Less] is no strict weak order. *)
Theorem Less_overflow_cycle :
  wave (deref overflow_heap 0) = int_max ∧ wave (deref overflow_heap 1) = (-2)%Z ∧
  Less overflow_heap 0 1 = true ∧ Less overflow_heap 1 2 = true ∧ Less overflow_heap 2 0 = true.
Proof. vm_compute. done. Qed.

(** ** Keys of results *)

Lemma append_suffix (a b s s' : string) :
  a +:+ s = b +:+ s' → (∃ x, s = x +:+ s' ∧ b = a +:+ x) ∨ (∃ x, s' = x +:+ s ∧ a = b +:+ x).
Proof.
  revert b; induction a as [|c a IH]; intros [|d b] E; simpl in E.
  - left. by exists "".
  - left. by exists (String d b).
  - right. by exists (String c a).
  - injection E as -> E. destruct (IH b E) as [(x&?&->)|(x&?&->)]; [left|right]; by exists x.
Qed.

Lemma append_prefix (x s s' : string) :
  x +:+ s' = s → x = String.substring 0 (String.length s - String.length s') s.
Proof.
  intros <-. assert (String.length (x +:+ s') = (String.length x + String.length s')%nat) as ->
    by (induction x as [|c x IH]; simpl; [done|by rewrite IH]).
  replace (String.length x + String.length s' - String.length s')%nat with (String.length x) by lia.
  induction x as [|c x IH]; simpl; [by destruct s'|by rewrite <- IH].
Qed.

(** The phase is determined by the end of a key. *)
Lemma phase_suffix_inj (a b : string) (p q : SyncPhase) :
  a +:+ (":" +:+ SyncPhase_str p) = b +:+ (":" +:+ SyncPhase_str q) → a = b ∧ p = q.
Proof.
  assert (Hx : ∀ x p q, x +:+ (":" +:+ SyncPhase_str q) = ":" +:+ SyncPhase_str p → x = "" ∧ p = q).
  { intros x p' q' E. pose proof (append_prefix _ _ _ E) as Ex. clear a b p q.
    destruct p', q'; vm_compute in Ex; subst x; vm_compute in E; by simplify_eq. }
  assert (Hnil : ∀ s, s +:+ "" = s) by (intros s; induction s as [|c s IH]; [done|exact (f_equal (String c) IH)]).
  intros E. apply append_suffix in E as [(x&E&->)|(x&E&->)]; symmetry in E; apply Hx in E as [-> ->];
    by rewrite Hnil.
Qed.

(** The results of different tasks are never stored under the same key: a
    result key determines the resource key and the phase, as long as group,
    kind and namespace contain no slash (names may contain any character). *)
Theorem resourceResultKey_inj (k k' : ResourceKey) (p p' : SyncPhase) :
  (∀ x, x = k ∨ x = k' →
     char_free "/"%char (key_Group x) = true ∧ char_free "/"%char (key_Kind x) = true ∧ char_free "/"%char (key_Namespace x) = true) →
  resourceResultKey k p = resourceResultKey k' p' → k = k' ∧ p = p'.
Proof.
  intros Hfree E. destruct (Hfree k (or_introl eq_refl)) as (?&?&?), (Hfree k' (or_intror eq_refl)) as (?&?&?).
  unfold resourceResultKey in E. apply phase_suffix_inj in E as [E ->]. split; [|done].
  unfold ResourceKey_String in E. destruct k, k'; simpl in *.
  repeat match goal with
  | E : ?a +:+ "/" +:+ ?b = ?a' +:+ "/" +:+ ?b' |- _ =>
      apply (append_sep_inj "/"%char a a' b b') in E as [-> E]; [|done..]
  end. by subst.
Qed.

Lemma resourceResultKey_inj_witness :
  let k := NewResourceKey "apps" "Deployment" "ns" "a:b" in
  k = k ∧ SyncPhaseSync = SyncPhaseSync.
Proof.
  intros k. apply (resourceResultKey_inj k k SyncPhaseSync SyncPhaseSync); [|reflexivity].
  intros x [->| ->]; vm_compute; repeat split.
Defined.
