(* ===== verification/Health.v ===== *)
(** * Resource health: [gitops-engine/pkg/health]

    The built-in health checks, one per kind, over the typed API structs (the
    fields the checks read), and the dispatcher [GetResourceHealth].  The
    conversion of a manifest into a typed struct, [json.Unmarshal] and
    [podutils.IsPodReady] belong to libraries and are fields of the class
    [HealthLibs]. *)

From S2P Require Import Prelude GoStd Kube SyncCommon.

Local Open Scope string_scope.
Local Open Scope list_scope.

(** ** [health.go]: statuses *)

(** [HealthNone] is the empty code, which no constant names. *)
Inductive HealthStatusCode : Type :=
  | HealthStatusNone
  | HealthStatusUnknown | HealthStatusProgressing | HealthStatusHealthy
  | HealthStatusSuspended | HealthStatusDegraded | HealthStatusMissing.

#[export] Instance HealthStatusCode_eq_dec : EqDecision HealthStatusCode.
Proof. solve_decision. Defined.

Record HealthStatus : Type := mkHealth { Status : HealthStatusCode; Message : string }.

Definition healthOrder : list HealthStatusCode :=
  [ HealthStatusHealthy; HealthStatusSuspended; HealthStatusProgressing; HealthStatusMissing;
    HealthStatusDegraded; HealthStatusUnknown ].

(** The loop of [IsWorse]: the last index at which each code was seen. *)
Fixpoint worse_indexes (i : nat) (current new : HealthStatusCode) (acc : nat * nat)
    (l : list HealthStatusCode) : nat * nat :=
  match l with
  | [] => acc
  | code :: r =>
      worse_indexes (S i) current new
        (if bool_decide (current = code) then i else acc.1,
         if bool_decide (new = code) then i else acc.2) r
  end.

Definition IsWorse (current new : HealthStatusCode) : bool :=
  let '(currentIndex, newIndex) := worse_indexes 0 current new (0, 0) healthOrder in
  Nat.ltb currentIndex newIndex.

(** A health check returns a status or an error text. *)
Definition health_result : Type := HealthStatus + string.

(** ** Typed API objects: the fields the checks read *)

Record Condition : Type := mkCond {
  c_Type : string; c_Status : string; c_Reason : string; c_Message : string }.

Record Deployment : Type := mkDeployment {
  dep_Name : string; dep_Generation : Z; dep_Paused : bool; dep_Replicas : option Z;
  dep_ObservedGeneration : Z; dep_UpdatedReplicas : Z; dep_StatusReplicas : Z;
  dep_AvailableReplicas : Z; dep_Conditions : list Condition }.

Record StatefulSet : Type := mkSts {
  sts_Generation : Z; sts_Replicas : option Z; sts_StrategyType : string;
  sts_RollingUpdate : option (option Z);   (* RollingUpdate, its Partition *)
  sts_ObservedGeneration : Z; sts_ReadyReplicas : Z; sts_UpdatedReplicas : Z;
  sts_CurrentReplicas : Z; sts_UpdateRevision : string; sts_CurrentRevision : string }.

Record ReplicaSet : Type := mkRs {
  rs_Generation : Z; rs_Replicas : option Z; rs_ObservedGeneration : Z;
  rs_AvailableReplicas : Z; rs_Conditions : list Condition }.

Record DaemonSet : Type := mkDs {
  ds_Name : string; ds_Generation : Z; ds_StrategyType : string; ds_ObservedGeneration : Z;
  ds_UpdatedNumberScheduled : Z; ds_DesiredNumberScheduled : Z; ds_NumberAvailable : Z }.

Record Job : Type := mkJob { job_Conditions : list Condition }.

Record TerminatedState : Type := mkTerm { tm_Message : string; tm_Reason : string; tm_ExitCode : Z }.

Record ContainerStatus : Type := mkCtr {
  ctr_Name : string;
  ctr_Waiting : option (string * string);          (* Reason, Message *)
  ctr_Terminated : option TerminatedState;
  ctr_LastTerminated : option TerminatedState }.

Record Pod : Type := mkPod {
  pod_RestartPolicy : string; pod_Phase : string; pod_Message : string;
  pod_InitContainerStatuses : list ContainerStatus;
  pod_ContainerStatuses : list ContainerStatus }.

Record PVC : Type := mkPvc { pvc_Phase : string }.
Record Service : Type := mkSvc { svc_Type : string; svc_IngressCount : nat }.
Record APIService : Type := mkApisvc { apisvc_Conditions : list Condition }.

(** [hpaCondition] of [health_hpa.go] *)
Record hpaCondition : Type := mkHpaCond {
  h_Type : string; h_Reason : string; h_Message : string; h_Status : string }.

(** The two HPA API versions: v1 keeps its conditions in an annotation. *)
Record HPAv1 : Type := mkHpa1 { hpa1_Annotations : gmap string string }.
Record HPAv2 : Type := mkHpa2 { hpa2_Conditions : list Condition }.

Class HealthLibs : Type := {
  toDeployment : Unstructured → Deployment + string;
  toStatefulSet : Unstructured → StatefulSet + string;
  toReplicaSet : Unstructured → ReplicaSet + string;
  toDaemonSet : Unstructured → DaemonSet + string;
  toJob : Unstructured → Job + string;
  toPod : Unstructured → Pod + string;
  toPVC : Unstructured → PVC + string;
  toService : Unstructured → Service + string;
  toAPIService : Unstructured → APIService + string;
  toHPAv1 : Unstructured → HPAv1 + string;
  toHPAv2 : Unstructured → HPAv2 + string;
  IsPodReady : Pod → bool;
  unmarshalConditions : string → list hpaCondition + string;
}.

Definition fmt_int (z : Z) : string := pretty z.

(** ** Deployment *)

(** The first condition of the given type *)
Fixpoint getCondition (conds : list Condition) (condType : string) : option Condition :=
  match conds with
  | [] => None
  | c :: r => if String.eqb (c_Type c) condType then Some c else getCondition r condType
  end.

Definition deployment_deadline_exceeded (d : Deployment) : bool :=
  match getCondition (dep_Conditions d) "Progressing" with
  | Some c => String.eqb (c_Reason c) "ProgressDeadlineExceeded"
  | None => false
  end.

(** [p != nil && v < *p] *)
Definition below (v : Z) (p : option Z) : bool :=
  match p with Some r => (v <? r)%Z | None => false end.

Definition getAppsv1DeploymentHealth (d : Deployment) : HealthStatus :=
  if dep_Paused d then mkHealth HealthStatusSuspended "Deployment is paused" else
  if (dep_Generation d <=? dep_ObservedGeneration d)%Z then
    if deployment_deadline_exceeded d then
      mkHealth HealthStatusDegraded
        ("Deployment " +:+ quote (dep_Name d) +:+ " exceeded its progress deadline")
    else if below (dep_UpdatedReplicas d) (dep_Replicas d) then
      mkHealth HealthStatusProgressing
        ("Waiting for rollout to finish: " +:+ fmt_int (dep_UpdatedReplicas d) +:+ " out of " +:+
         fmt_int (default 0%Z (dep_Replicas d)) +:+ " new replicas have been updated...")
    else if (dep_UpdatedReplicas d <? dep_StatusReplicas d)%Z then
      mkHealth HealthStatusProgressing
        ("Waiting for rollout to finish: " +:+
         fmt_int (wrap32 (dep_StatusReplicas d - dep_UpdatedReplicas d)) +:+
         " old replicas are pending termination...")
    else if (dep_AvailableReplicas d <? dep_UpdatedReplicas d)%Z then
      mkHealth HealthStatusProgressing
        ("Waiting for rollout to finish: " +:+ fmt_int (dep_AvailableReplicas d) +:+ " of " +:+
         fmt_int (dep_UpdatedReplicas d) +:+ " updated replicas are available...")
    else mkHealth HealthStatusHealthy ""
  else
    mkHealth HealthStatusProgressing
      "Waiting for rollout to finish: observed deployment generation less than desired generation".

(** ** StatefulSet *)

Definition getAppsv1StatefulSetHealth (s : StatefulSet) : HealthStatus :=
  let partitioned_tail :=
    mkHealth HealthStatusHealthy
      ("partitioned roll out complete: " +:+ fmt_int (sts_UpdatedReplicas s) +:+
       " new pods have been updated...") in
  if (sts_ObservedGeneration s =? 0)%Z || (sts_ObservedGeneration s <? sts_Generation s)%Z then
    mkHealth HealthStatusProgressing "Waiting for statefulset spec update to be observed..."
  else if below (sts_ReadyReplicas s) (sts_Replicas s) then
    mkHealth HealthStatusProgressing
      ("Waiting for " +:+ fmt_int (wrap32 (default 0%Z (sts_Replicas s) - sts_ReadyReplicas s)) +:+
       " pods to be ready...")
  else
    match String.eqb (sts_StrategyType s) "RollingUpdate", sts_RollingUpdate s with
    | true, Some partition =>
        match sts_Replicas s, partition with
        | Some replicas, Some part =>
            if (sts_UpdatedReplicas s <? wrap32 (replicas - part))%Z then
              mkHealth HealthStatusProgressing
                ("Waiting for partitioned roll out to finish: " +:+ fmt_int (sts_UpdatedReplicas s) +:+
                 " out of " +:+ fmt_int (wrap32 (replicas - part)) +:+ " new pods have been updated...")
            else partitioned_tail
        | _, _ => partitioned_tail
        end
    | _, _ =>
        if String.eqb (sts_StrategyType s) "OnDelete" then
          mkHealth HealthStatusHealthy
            ("statefulset has " +:+ fmt_int (sts_ReadyReplicas s) +:+ " ready pods")
        else if negb (String.eqb (sts_UpdateRevision s) (sts_CurrentRevision s)) then
          mkHealth HealthStatusProgressing
            ("waiting for statefulset rolling update to complete " +:+ fmt_int (sts_UpdatedReplicas s) +:+
             " pods at revision " +:+ sts_UpdateRevision s +:+ "...")
        else
          mkHealth HealthStatusHealthy
            ("statefulset rolling update complete " +:+ fmt_int (sts_CurrentReplicas s) +:+
             " pods at revision " +:+ sts_CurrentRevision s +:+ "...")
    end.

(** ** ReplicaSet and DaemonSet *)

Definition getAppsv1ReplicaSetHealth (r : ReplicaSet) : HealthStatus :=
  if (rs_Generation r <=? rs_ObservedGeneration r)%Z then
    let failure :=
      match getCondition (rs_Conditions r) "ReplicaFailure" with
      | Some c => if String.eqb (c_Status c) "True" then Some c else None
      | None => None
      end in
    match failure with
    | Some c => mkHealth HealthStatusDegraded (c_Message c)
    | None =>
        if below (rs_AvailableReplicas r) (rs_Replicas r) then
          mkHealth HealthStatusProgressing
            ("Waiting for rollout to finish: " +:+ fmt_int (rs_AvailableReplicas r) +:+ " out of " +:+
             fmt_int (default 0%Z (rs_Replicas r)) +:+ " new replicas are available...")
        else mkHealth HealthStatusHealthy ""
    end
  else
    mkHealth HealthStatusProgressing
      "Waiting for rollout to finish: observed replica set generation less than desired generation".

Definition getAppsv1DaemonSetHealth (d : DaemonSet) : HealthStatus :=
  if (ds_ObservedGeneration d <? ds_Generation d)%Z then
    mkHealth HealthStatusProgressing
      "Waiting for rollout to finish: observed daemon set generation less than desired generation"
  else if String.eqb (ds_StrategyType d) "OnDelete" then
    mkHealth HealthStatusHealthy
      ("daemon set " +:+ fmt_int (ds_UpdatedNumberScheduled d) +:+ " out of " +:+
       fmt_int (ds_DesiredNumberScheduled d) +:+ " new pods have been updated")
  else if (ds_UpdatedNumberScheduled d <? ds_DesiredNumberScheduled d)%Z then
    mkHealth HealthStatusProgressing
      ("Waiting for daemon set " +:+ quote (ds_Name d) +:+ " rollout to finish: " +:+
       fmt_int (ds_UpdatedNumberScheduled d) +:+ " out of " +:+ fmt_int (ds_DesiredNumberScheduled d) +:+
       " new pods have been updated...")
  else if (ds_NumberAvailable d <? ds_DesiredNumberScheduled d)%Z then
    mkHealth HealthStatusProgressing
      ("Waiting for daemon set " +:+ quote (ds_Name d) +:+ " rollout to finish: " +:+
       fmt_int (ds_NumberAvailable d) +:+ " of " +:+ fmt_int (ds_DesiredNumberScheduled d) +:+
       " updated pods are available...")
  else mkHealth HealthStatusHealthy "".

(** ** Job *)

Record jobFlags : Type := mkFlags {
  failed : bool; failMsg : string; complete : bool; j_message : string; isSuspended : bool }.

Definition job_step (f : jobFlags) (c : Condition) : jobFlags :=
  if String.eqb (c_Type c) "Failed" then
    mkFlags true (c_Message c) true (j_message f) (isSuspended f)
  else if String.eqb (c_Type c) "Complete" then
    mkFlags (failed f) (failMsg f) true (c_Message c) (isSuspended f)
  else if String.eqb (c_Type c) "Suspended" then
    mkFlags (failed f) (failMsg f) true (c_Message c)
      (if String.eqb (c_Status c) "True" then true else isSuspended f)
  else f.

Definition getBatchv1JobHealth (j : Job) : HealthStatus :=
  let f := foldl job_step (mkFlags false "" false "" false) (job_Conditions j) in
  if negb (complete f) then mkHealth HealthStatusProgressing (j_message f)
  else if failed f then mkHealth HealthStatusDegraded (failMsg f)
  else if isSuspended f then mkHealth HealthStatusSuspended (failMsg f)
  else mkHealth HealthStatusHealthy (j_message f).

(** ** Pod *)

Definition bad_waiting_reason (r : string) : bool :=
  HasPrefix r "Err" || HasSuffix r "Error" || HasSuffix r "BackOff".

(** Messages of the containers waiting for a bad reason *)
Definition waiting_errors (l : list ContainerStatus) : list string :=
  omap (λ c, match ctr_Waiting c with
             | Some (reason, msg) => if bad_waiting_reason reason then Some msg else None
             | None => None
             end) l.

Definition getFailMessage (c : ContainerStatus) : string :=
  match ctr_Terminated c with
  | Some t =>
      if negb (String.eqb (tm_Message t) "") then tm_Message t
      else if String.eqb (tm_Reason t) "OOMKilled" then tm_Reason t
      else if negb (tm_ExitCode t =? 0)%Z then
        "container " +:+ quote (ctr_Name c) +:+ " failed with exit code " +:+ fmt_int (tm_ExitCode t)
      else ""
  | None => ""
  end.

Fixpoint first_fail_message (l : list ContainerStatus) : string :=
  match l with
  | [] => ""
  | c :: r => if String.eqb (getFailMessage c) "" then first_fail_message r else getFailMessage c
  end.

Definition getCorev1PodHealth `{HealthLibs} (pod : Pod) : HealthStatus :=
  let always := String.eqb (pod_RestartPolicy pod) "Always" in
  let waiting := if always then waiting_errors (pod_ContainerStatuses pod) else [] in
  if negb (Nat.eqb (length waiting) 0) then mkHealth HealthStatusDegraded (Join waiting ", ") else
  let phase := pod_Phase pod in
  if String.eqb phase "Pending" then mkHealth HealthStatusProgressing (pod_Message pod)
  else if String.eqb phase "Succeeded" then mkHealth HealthStatusHealthy (pod_Message pod)
  else if String.eqb phase "Failed" then
    if negb (String.eqb (pod_Message pod) "") then mkHealth HealthStatusDegraded (pod_Message pod)
    else mkHealth HealthStatusDegraded
           (first_fail_message (pod_InitContainerStatuses pod ++ pod_ContainerStatuses pod))
  else if String.eqb phase "Running" && always then
    if IsPodReady pod then mkHealth HealthStatusHealthy (pod_Message pod)
    else if existsb (λ c, if ctr_LastTerminated c is Some _ then true else false) (pod_ContainerStatuses pod)
    then mkHealth HealthStatusDegraded (pod_Message pod)
    else mkHealth HealthStatusProgressing (pod_Message pod)
  else if String.eqb phase "Running" &&
          (String.eqb (pod_RestartPolicy pod) "OnFailure" || String.eqb (pod_RestartPolicy pod) "Never")
  then mkHealth HealthStatusProgressing (pod_Message pod)
  else mkHealth HealthStatusUnknown (pod_Message pod).

(** ** PVC, Service, Ingress, APIService, Workflow *)

Definition getCorev1PVCHealth (p : PVC) : HealthStatus :=
  mkHealth
    (if String.eqb (pvc_Phase p) "Lost" then HealthStatusDegraded
     else if String.eqb (pvc_Phase p) "Pending" then HealthStatusProgressing
     else if String.eqb (pvc_Phase p) "Bound" then HealthStatusHealthy
     else HealthStatusUnknown) "".

Definition getCorev1ServiceHealth (s : Service) : HealthStatus :=
  mkHealth
    (if String.eqb (svc_Type s) "LoadBalancer" then
       if Nat.ltb 0 (svc_IngressCount s) then HealthStatusHealthy else HealthStatusProgressing
     else HealthStatusHealthy) "".

Definition getIngressHealth (o : Unstructured) : HealthStatus :=
  let ingresses := nested_default [] (NestedSlice (Object o) ["status"; "loadBalancer"; "ingress"]) in
  mkHealth (if Nat.ltb 0 (length ingresses) then HealthStatusHealthy else HealthStatusProgressing) "".

Definition getApiregistrationv1APIServiceHealth (a : APIService) : HealthStatus :=
  match getCondition (apisvc_Conditions a) "Available" with
  | Some c =>
      mkHealth (if String.eqb (c_Status c) "True" then HealthStatusHealthy else HealthStatusProgressing)
        (c_Reason c +:+ ": " +:+ c_Message c)
  | None => mkHealth HealthStatusProgressing "Waiting to be processed"
  end.

(** The v1beta1 struct has the same fields and the check the same text. *)
Definition getApiregistrationv1beta1APIServiceHealth : APIService → HealthStatus :=
  getApiregistrationv1APIServiceHealth.

Definition getArgoWorkflowHealth (o : Unstructured) : HealthStatus :=
  let phase := nested_default "" (NestedString (Object o) ["status"; "phase"]) in
  let message := nested_default "" (NestedString (Object o) ["status"; "message"]) in
  if existsb (String.eqb phase) [""; "Pending"; "Running"] then mkHealth HealthStatusProgressing message
  else if String.eqb phase "Succeeded" then mkHealth HealthStatusHealthy message
  else if existsb (String.eqb phase) ["Failed"; "Error"] then mkHealth HealthStatusDegraded message
  else mkHealth HealthStatusUnknown message.

(** ** HPA *)

Definition progressingStatus : HealthStatus := mkHealth HealthStatusProgressing "Waiting to Autoscale".

Definition degraded_states : list (string * string) :=
  [ ("AbleToScale", "FailedGetScale"); ("AbleToScale", "FailedUpdateScale");
    ("ScalingActive", "FailedGetResourceMetric"); ("ScalingActive", "FailedGetObjectMetric");
    ("ScalingActive", "FailedGetPodsMetric"); ("ScalingActive", "FailedGetExternalMetric");
    ("ScalingActive", "FailedComputeMetricsReplicas"); ("ScalingActive", "InvalidSelector") ].

Definition isDegraded (c : hpaCondition) : bool :=
  existsb (λ s, String.eqb (h_Type c) s.1 && String.eqb (h_Reason c) s.2) degraded_states.

Definition isHealthy (c : hpaCondition) : bool :=
  existsb (λ ty, String.eqb (h_Type c) ty && String.eqb (h_Status c) "True") ["AbleToScale"; "ScalingLimited"].

Definition checkConditions (conditions : list hpaCondition) : HealthStatus :=
  match List.find isDegraded conditions with
  | Some c => mkHealth HealthStatusDegraded (h_Message c)
  | None =>
      match List.find isHealthy conditions with
      | Some c => mkHealth HealthStatusHealthy (h_Message c)
      | None => progressingStatus
      end
  end.

Definition getAutoScalingV2HPAHealth (h : HPAv2) : HealthStatus :=
  checkConditions
    ((λ c, mkHpaCond (c_Type c) (c_Reason c) (c_Message c) (c_Status c)) <$> hpa2_Conditions h).

Definition getAutoScalingV1HPAHealth `{HealthLibs} (h : HPAv1) : health_result :=
  match hpa1_Annotations h !! "autoscaling.alpha.kubernetes.io/conditions" with
  | None => inl progressingStatus
  | Some annotation =>
      match unmarshalConditions annotation with
      | inr err => inr ("failed to convert conditions annotation to typed: " +:+ err)
      | inl [] => inl progressingStatus
      | inl conditions => inl (checkConditions conditions)
      end
  end.

(** ** Dispatch *)

(** [gvk.String()] *)
Definition gvk_string (g : GroupVersionKind) : string :=
  Group g +:+ "/" +:+ Version g +:+ ", Kind=" +:+ Kind g.

(** The common shape of the [get<Kind>Health] wrappers: only the listed API
    version is converted and checked. *)
Definition checked {A} (label : string) (expected : GroupVersionKind) (conv : Unstructured → A + string)
    (check : A → HealthStatus) (o : Unstructured) : health_result :=
  if bool_decide (gvk o = expected) then
    match conv o with
    | inr err => inr ("failed to convert unstructured " +:+ label +:+ " to typed: " +:+ err)
    | inl a => inl (check a)
    end
  else inr ("unsupported " +:+ label +:+ " GVK: " +:+ gvk_string (gvk o)).

Section dispatch.
Context `{HealthLibs}.

Definition getDeploymentHealth : Unstructured → health_result :=
  checked "Deployment" (mkGVK "apps" "v1" "Deployment") toDeployment getAppsv1DeploymentHealth.
Definition getStatefulSetHealth : Unstructured → health_result :=
  checked "StatefulSet" (mkGVK "apps" "v1" "StatefulSet") toStatefulSet getAppsv1StatefulSetHealth.
Definition getReplicaSetHealth : Unstructured → health_result :=
  checked "ReplicaSet" (mkGVK "apps" "v1" "ReplicaSet") toReplicaSet getAppsv1ReplicaSetHealth.
Definition getDaemonSetHealth : Unstructured → health_result :=
  checked "DaemonSet" (mkGVK "apps" "v1" "DaemonSet") toDaemonSet getAppsv1DaemonSetHealth.
Definition getJobHealth : Unstructured → health_result :=
  checked "Job" (mkGVK "batch" "v1" "Job") toJob getBatchv1JobHealth.
Definition getPodHealth : Unstructured → health_result :=
  checked "Pod" (mkGVK "" "v1" "Pod") toPod getCorev1PodHealth.
Definition getPVCHealth : Unstructured → health_result :=
  checked "PersistentVolumeClaim" (mkGVK "" "v1" "PersistentVolumeClaim") toPVC getCorev1PVCHealth.
Definition getServiceHealth : Unstructured → health_result :=
  checked "Service" (mkGVK "" "v1" "Service") toService getCorev1ServiceHealth.

Definition getAPIServiceHealth (o : Unstructured) : health_result :=
  if bool_decide (gvk o = mkGVK "apiregistration.k8s.io" "v1beta1" "APIService") then
    checked "APIService" (mkGVK "apiregistration.k8s.io" "v1beta1" "APIService") toAPIService
      getApiregistrationv1beta1APIServiceHealth o
  else
    checked "APIService" (mkGVK "apiregistration.k8s.io" "v1" "APIService") toAPIService
      getApiregistrationv1APIServiceHealth o.

Definition getHPAHealth (o : Unstructured) : health_result :=
  if bool_decide (gvk o = mkGVK "autoscaling" "v1" "HorizontalPodAutoscaler") then
    match toHPAv1 o with
    | inr err => inr ("failed to convert unstructured HPA to typed: " +:+ err)
    | inl hpa => getAutoScalingV1HPAHealth hpa
    end
  else if bool_decide (gvk o = mkGVK "autoscaling" "v2" "HorizontalPodAutoscaler") then
    match toHPAv2 o with
    | inr err => inr ("failed to convert unstructured HPA to typed: " +:+ err)
    | inl hpa => inl (getAutoScalingV2HPAHealth hpa)
    end
  else inr ("unsupported HPA GVK: " +:+ gvk_string (gvk o)).

(** The nested switches of [GetHealthCheckFunc]; [None] is the nil function. *)
Definition GetHealthCheckFunc (g : GroupVersionKind) : option (Unstructured → health_result) :=
  let kind_is k := String.eqb (Kind g) k in
  let grp := Group g in
  if String.eqb grp "apps" then
    if kind_is "Deployment" then Some getDeploymentHealth
    else if kind_is "StatefulSet" then Some getStatefulSetHealth
    else if kind_is "ReplicaSet" then Some getReplicaSetHealth
    else if kind_is "DaemonSet" then Some getDaemonSetHealth else None
  else if String.eqb grp "extensions" then
    if kind_is "Ingress" then Some (λ o, inl (getIngressHealth o)) else None
  else if String.eqb grp "apps.hanzo.ai" then
    if kind_is "Workflow" then Some (λ o, inl (getArgoWorkflowHealth o)) else None
  else if String.eqb grp "apiregistration.k8s.io" then
    if kind_is "APIService" then Some getAPIServiceHealth else None
  else if String.eqb grp "networking.k8s.io" then
    if kind_is "Ingress" then Some (λ o, inl (getIngressHealth o)) else None
  else if String.eqb grp "" then
    if kind_is "Service" then Some getServiceHealth
    else if kind_is "PersistentVolumeClaim" then Some getPVCHealth
    else if kind_is "Pod" then Some getPodHealth else None
  else if String.eqb grp "batch" then
    if kind_is "Job" then Some getJobHealth else None
  else if String.eqb grp "autoscaling" then
    if kind_is "HorizontalPodAutoscaler" then Some getHPAHealth else None
  else None.

(** An override may answer, decline (a nil status) or fail. *)
Definition HealthOverride : Type := Unstructured → option HealthStatus + string.

(** [GetResourceHealth]: the status, if any, and the error, if any. *)
Definition GetResourceHealth (o : Unstructured) (override : option HealthOverride)
    : option HealthStatus * option string :=
  if (if GetDeletionTimestamp o is Some _ then true else false) && negb (HasHookFinalizer o) then
    (Some (mkHealth HealthStatusProgressing "Pending deletion"), None)
  else
    let builtin :=
      match GetHealthCheckFunc (gvk o) with
      | None => (None, None)
      | Some check =>
          match check o with
          | inl health => (Some health, None)
          | inr err => (Some (mkHealth HealthStatusUnknown err), Some err)
          end
      end in
    match override with
    | None => builtin
    | Some f =>
        match f o with
        | inr err =>
            (Some (mkHealth HealthStatusUnknown err),
             Some ("failed to get resource health for " +:+ GetNamespace o +:+ "/" +:+ GetName o +:+ ": " +:+ err))
        | inl (Some health) => (Some health, None)
        | inl None => builtin
        end
    end.
End dispatch.

(** ** Properties *)

(** Severity of a code: its position in [healthOrder]; codes that are not in
    the list count as healthy. *)
Definition severity (c : HealthStatusCode) : nat :=
  match c with
  | HealthStatusNone | HealthStatusHealthy => 0
  | HealthStatusSuspended => 1
  | HealthStatusProgressing => 2
  | HealthStatusMissing => 3
  | HealthStatusDegraded => 4
  | HealthStatusUnknown => 5
  end.

Lemma IsWorse_severity a b : IsWorse a b = true ↔ (severity a < severity b)%nat.
Proof. destruct a, b; vm_compute; split; intros; first [done|lia]. Qed.

(** The fold applications keep of the worst status seen so far
    ([controller/health.go] starts from [Healthy] and replaces on [IsWorse]). *)
Definition worst (l : list HealthStatusCode) : HealthStatusCode :=
  foldl (λ acc c, if IsWorse acc c then c else acc) HealthStatusHealthy l.

(** Aggregating with [IsWorse] yields a code of maximal severity: no member is
    worse than the result, and the result is [Healthy] or one of the members. *)
Theorem worst_is_maximal (l : list HealthStatusCode) :
  (∀ c, c ∈ l → IsWorse (worst l) c = false) ∧ (worst l = HealthStatusHealthy ∨ worst l ∈ l).
Proof.
  unfold worst. generalize HealthStatusHealthy as a0.
  assert (∀ a0 : HealthStatusCode,
    let w := foldl (λ acc c, if IsWorse acc c then c else acc) a0 l in
    (severity a0 ≤ severity w)%nat ∧
    (∀ c, c ∈ l → (severity c ≤ severity w)%nat) ∧ (w = a0 ∨ w ∈ l)) as Hgen.
  { induction l as [|c l IH]; intros a0; simpl.
    { split_and!; [lia|intros c Hc; by apply not_elem_of_nil in Hc|by left]. }
    specialize (IH (if IsWorse a0 c then c else a0)) as (H1&H2&H3).
    destruct (IsWorse a0 c) eqn:E.
    - apply IsWorse_severity in E. split_and!; [lia| |].
      + intros c' [->|Hc]%elem_of_cons; [lia|auto].
      + right. apply elem_of_cons. destruct H3; auto.
    - apply not_true_iff_false in E. rewrite IsWorse_severity in E. split_and!; [lia| |].
      + intros c' [->|Hc]%elem_of_cons; [lia|auto].
      + destruct H3; [by left|right; by right]. }
  intros a0. destruct (Hgen a0) as (_&H2&H3). split; [|done].
  intros c Hc. apply not_true_iff_false. rewrite IsWorse_severity. specialize (H2 c Hc). lia.
Qed.

(** A deployment is [Healthy] exactly when it is not paused, the controller
    has observed its generation, the progress deadline has not passed, every
    desired replica is updated, no old replica is left and every updated
    replica is available. *)
Theorem deployment_healthy_iff (d : Deployment) :
  Status (getAppsv1DeploymentHealth d) = HealthStatusHealthy ↔
  dep_Paused d = false ∧
  (dep_Generation d ≤ dep_ObservedGeneration d)%Z ∧
  deployment_deadline_exceeded d = false ∧
  (∀ r, dep_Replicas d = Some r → (r ≤ dep_UpdatedReplicas d)%Z) ∧
  (dep_StatusReplicas d ≤ dep_UpdatedReplicas d ≤ dep_AvailableReplicas d)%Z.
Proof.
  unfold getAppsv1DeploymentHealth.
  assert (below (dep_UpdatedReplicas d) (dep_Replicas d) = false ↔
    ∀ r, dep_Replicas d = Some r → (r ≤ dep_UpdatedReplicas d)%Z) as Hb.
  { unfold below. destruct (dep_Replicas d) as [r|]; [rewrite Z.ltb_ge|]; naive_solver. }
  rewrite <- Hb. clear Hb.
  repeat (case_match; breflect); simpl; (split; [try done|intros (?&?&?&?&?&?)]);
    try done; try congruence; try lia.
Qed.

(** A stateful set reported [Healthy] has been observed by its controller and has
    every desired replica ready, whatever its update strategy. *)
Theorem statefulset_healthy_ready (s : StatefulSet) (r : Z) :
  Status (getAppsv1StatefulSetHealth s) = HealthStatusHealthy → sts_Replicas s = Some r →
  (r ≤ sts_ReadyReplicas s)%Z ∧ sts_ObservedGeneration s ≠ 0%Z ∧
  (sts_Generation s ≤ sts_ObservedGeneration s)%Z.
Proof.
  unfold getAppsv1StatefulSetHealth, below. intros Hs Hr. rewrite Hr in Hs.
  destruct (Z.eqb_spec (sts_ObservedGeneration s) 0); simpl in Hs; [done|].
  destruct (Z.ltb_spec (sts_ObservedGeneration s) (sts_Generation s)); simpl in Hs; [done|].
  destruct (Z.ltb_spec (sts_ReadyReplicas s) r); simpl in Hs; [done|]. lia.
Qed.

Lemma statefulset_healthy_ready_witness :
  let s := mkSts 3 (Some 2%Z) "RollingUpdate" (Some (Some 1%Z)) 3 2 1 2 "b" "a" in
  Status (getAppsv1StatefulSetHealth s) = HealthStatusHealthy ∧ (2 ≤ sts_ReadyReplicas s)%Z.
Proof.
  split; [vm_compute; reflexivity|].
  refine (proj1 (statefulset_healthy_ready _ 2%Z _ _)); vm_compute; reflexivity.
Defined.

(** A pod that must not restart (a typical hook) is never reported [Healthy]
    while it runs: it only becomes healthy by succeeding. *)
Theorem finite_pod_healthy_succeeded `{HealthLibs} (pod : Pod) :
  pod_RestartPolicy pod ≠ "Always" →
  Status (getCorev1PodHealth pod) = HealthStatusHealthy ↔ pod_Phase pod = "Succeeded".
Proof.
  intros Hp. unfold getCorev1PodHealth.
  destruct (String.eqb_spec (pod_RestartPolicy pod) "Always"); [done|]. simpl.
  rewrite andb_false_r.
  destruct (String.eqb_spec (pod_Phase pod) "Pending") as [->|]; [done|].
  destruct (String.eqb_spec (pod_Phase pod) "Succeeded") as [->|]; [done|].
  split; [|done]. repeat case_match; simpl; done.
Qed.

(** Libraries for witnesses: every conversion fails, no pod is ready. *)
Definition no_libs : HealthLibs := {|
  toDeployment := λ _, inr "n/a"; toStatefulSet := λ _, inr "n/a"; toReplicaSet := λ _, inr "n/a";
  toDaemonSet := λ _, inr "n/a"; toJob := λ _, inr "n/a"; toPod := λ _, inr "n/a";
  toPVC := λ _, inr "n/a"; toService := λ _, inr "n/a"; toAPIService := λ _, inr "n/a";
  toHPAv1 := λ _, inr "n/a"; toHPAv2 := λ _, inr "n/a"; IsPodReady := λ _, false;
  unmarshalConditions := λ _, inr "n/a" |}.

Lemma finite_pod_healthy_succeeded_witness :
  Status (@getCorev1PodHealth no_libs (mkPod "Never" "Running" "" [] [])) ≠ HealthStatusHealthy.
Proof.
  intros Hh. pose proof (proj1 (@finite_pod_healthy_succeeded no_libs (mkPod "Never" "Running" "" [] [])
    ltac:(discriminate)) Hh) as Hs. vm_compute in Hs. discriminate.
Defined.

(** Flags of a job: [failMsg] is only set together with [failed]. *)
Lemma job_flags_failMsg cs f :
  (failed f = false → failMsg f = "") →
  failed (foldl job_step f cs) = false → failMsg (foldl job_step f cs) = "".
Proof.
  revert f; induction cs as [|c cs IH]; intros f Hf; simpl; [done|].
  apply IH. unfold job_step. repeat case_match; simpl; done.
Qed.

(** A suspended job is always reported with an empty message: the check
    returns [failMsg], which only a failed condition sets, instead of the
    message it collected from the suspended condition. *)
Theorem suspended_job_message_lost (j : Job) :
  Status (getBatchv1JobHealth j) = HealthStatusSuspended → Message (getBatchv1JobHealth j) = "".
Proof.
  unfold getBatchv1JobHealth. set (f := foldl _ _ _). intros Hs.
  repeat case_match; simpl in *; try done.
  by apply (job_flags_failMsg (job_Conditions j) (mkFlags false "" false "" false)).
Qed.

Lemma suspended_job_message_lost_witness :
  let j := mkJob [mkCond "Suspended" "True" "JobSuspended" "Job suspended"] in
  Message (getBatchv1JobHealth j) = "".
Proof. refine (suspended_job_message_lost _ _). vm_compute. reflexivity. Defined.

(** [GetResourceHealth] by cases: an object being deleted is [Progressing]
    unless its hook finalizer is still there; otherwise an override that
    answers decides, an override that fails gives [Unknown] with the error,
    and only when there is no answer does the built-in check of the kind
    apply, a failing check giving [Unknown]. *)
Theorem GetResourceHealth_cases `{HealthLibs} (o : Unstructured) (ov : option HealthOverride) :
  (is_Some (GetDeletionTimestamp o) → HasHookFinalizer o = false →
     GetResourceHealth o ov = (Some (mkHealth HealthStatusProgressing "Pending deletion"), None)) ∧
  (GetDeletionTimestamp o = None ∨ HasHookFinalizer o = true →
     (∀ f h, ov = Some f → f o = inl (Some h) → GetResourceHealth o ov = (Some h, None)) ∧
     (∀ f e, ov = Some f → f o = inr e →
        Status <$> (GetResourceHealth o ov).1 = Some HealthStatusUnknown ∧
        is_Some (GetResourceHealth o ov).2) ∧
     ((∀ f, ov = Some f → f o = inl None) →
        match GetHealthCheckFunc (gvk o) with
        | None => GetResourceHealth o ov = (None, None)
        | Some check =>
            (∀ h, check o = inl h → GetResourceHealth o ov = (Some h, None)) ∧
            (∀ e, check o = inr e →
               GetResourceHealth o ov = (Some (mkHealth HealthStatusUnknown e), Some e))
        end)).
Proof.
  unfold GetResourceHealth. split.
  { intros [ts ->] ->. done. }
  intros Hlive.
  assert ((if GetDeletionTimestamp o is Some _ then true else false) && negb (HasHookFinalizer o) = false)
    as -> by (destruct Hlive as [-> | ->]; [done|by destruct (GetDeletionTimestamp o)]).
  split_and!.
  - by intros f h -> ->.
  - intros f e -> ->. simpl. eauto.
  - intros Hov. destruct ov as [f|]; [rewrite (Hov f eq_refl)|];
      (destruct (GetHealthCheckFunc (gvk o)); [split; by intros ? ->|done]).
Qed.
