(* ===== verification/AppDeletion.v ===== *)
(** * Deletion of applications (src/controller/appcontroller.go, hook.go, sort_delete.go)

    One pass over an application that is being deleted: hooks that run before, the deletion
    of its resources in waves, hooks that run after, and the cleanup of both, each stage
    behind a finalizer of the application. *)

From S2P Require Import Prelude GoStd GoMatch AppTypes Glob Project ProjectRules Kube SyncCommon Health ClusterCache AppRefresh Calls.
From Stdlib Require Import Ascii.
Local Open Scope string_scope.
Local Open Scope list_scope.
Local Open Scope nat_scope.

(** ** Finalizers *)

Definition ResourcesFinalizerName : string := "resources-finalizer.apps.hanzo.ai".
Definition ForegroundPropagationPolicyFinalizer : string := "resources-finalizer.apps.hanzo.ai/foreground".
Definition BackgroundPropagationPolicyFinalizer : string := "resources-finalizer.apps.hanzo.ai/background".

Definition isPropagationPolicyFinalizer (finalizer : string) : bool :=
  String.eqb finalizer ResourcesFinalizerName || String.eqb finalizer ForegroundPropagationPolicyFinalizer ||
  String.eqb finalizer BackgroundPropagationPolicyFinalizer.

Definition CascadedDeletion (fs : list string) : bool := existsb isPropagationPolicyFinalizer fs.
Definition GetPropagationPolicy (fs : list string) : string := default "" (List.find isPropagationPolicyFinalizer fs).

(** The name of a finalizer with its stage *)
Definition cleanup (name : string) : string := name +:+ "/cleanup".

(** A slice: its array and its length.  [setFinalizer] removes in place, so a loop that
    ranges over the finalizers while it removes some reads the array that it changes. *)
Definition slice_remove (name : string) (s : list string * nat) : list string * nat :=
  let '(arr, len) := s in
  match getFinalizerIndex (take len arr) name with
  | Some index => (<[index := default "" (arr !! (len - 1))]> arr, len - 1)
  | None => (arr, len)
  end.

Definition unset_step (matching : string → bool) (s : list string * nat) (i : nat) : list string * nat :=
  match s.1 !! i with
  | Some f => if matching f then slice_remove f s else s
  | None => s
  end.

(** The loops of [UnSetCascadedDeletion] and of the two [UnSet...FinalizerAll] *)
Definition unset_all (matching : string → bool) (fs : list string) : list string :=
  let '(arr, len) := foldl (unset_step matching) (fs, length fs) (seq 0 (length fs)) in take len arr.

Definition UnSetCascadedDeletion (fs : list string) : list string := unset_all isPropagationPolicyFinalizer fs.
Definition UnSetPreDeleteFinalizerAll (fs : list string) : list string := unset_all (λ f, HasPrefix f PreDeleteFinalizerName) fs.
Definition UnSetPostDeleteFinalizerAll (fs : list string) : list string := unset_all (λ f, HasPrefix f PostDeleteFinalizerName) fs.

(** ** Hooks *)

Inductive HookType := PreDeleteHookType | PostDeleteHookType.

Definition hookTypeAnnotations (t : HookType) : gmap string string :=
  match t with
  | PreDeleteHookType => {["cd.hanzo.ai/hook" := "PreDelete"; "helm.sh/hook" := "pre-delete"]}
  | PostDeleteHookType => {["cd.hanzo.ai/hook" := "PostDelete"; "helm.sh/hook" := "post-delete"]}
  end.

Definition isHookOfType (obj : Unstructured) (hookType : HookType) : bool :=
  existsb (λ '(k, v), match GetAnnotations obj !! k with
                      | Some val => existsb (λ item, String.eqb (TrimSpace item) v) (Split val ","%char)
                      | None => false
                      end) (map_to_list (hookTypeAnnotations hookType)).

Definition isHook (obj : Unstructured) : bool :=
  SyncCommon.IsHook obj || isHookOfType obj PreDeleteHookType || isHookOfType obj PostDeleteHookType.

Definition hasGitOpsEngineSyncPhaseHook (obj : Unstructured) : bool :=
  existsb (λ t, match t with
                | HookTypePreSync | HookTypeSync | HookTypePostSync | HookTypeSyncFail => true
                | HookTypeSkip => false
                end) (SyncCommon.Types obj).

(** ** Resources to delete *)

(** [SyncOptions.GetOptionValue] *)
Definition GetOptionValue (o : list string) (optionKey : string) : option string := first_cut (optionKey +:+ "=") o.

(** What the pass reads of the application, besides what a refresh reads: the options of
    its sync policy, when it was deleted, and which resources need a confirmation *)
Record deleted_app := {
  App : Application;
  PolicyOptions : option (list string);
  DeletedAt : Z;
  StatusResources : list (ResourceKey * bool);
}.

Definition SyncOptionDelete : string := "Delete".
Definition ResourcePolicyAnnotation : string := "helm.sh/resource-policy".
Definition ResourcePolicyKeep : string := "keep".
Definition AnnotationDeletionApproved : string := "cd.hanzo.ai/deletion-approved".

Definition shouldBeDeleted (app : deleted_app) (obj : Unstructured) : bool :=
  let deleteOption :=
    match GetAnnotationOptionValue obj AnnotationSyncOptions SyncOptionDelete with
    | Some v => Some v
    | None => o ← PolicyOptions app; GetOptionValue o SyncOptionDelete
    end in
  negb (IsCRD obj) && negb (isSelfReferencedApp (App app) (GetObjectRef obj)) &&
  match deleteOption with Some v => negb (String.eqb v SyncValueFalse) | None => true end &&
  negb (HasAnnotationOption obj ResourcePolicyAnnotation ResourcePolicyKeep).

(** [parse] is [time.Parse] for RFC 3339, in seconds. *)
Definition IsDeletionConfirmed (parse : string → option Z) (app : Application) (since : Z) : bool :=
  match default "" (AppAnnotations app !! AnnotationDeletionApproved) with
  | "" => false
  | val => match parse val with Some t => (since <? t)%Z || (t =? since)%Z | None => false end
  end%string.

Definition FindResource (app : deleted_app) (k : ResourceKey) : option bool :=
  snd <$> List.find (λ r, bool_decide (r.1 = k)) (StatusResources app).

Fixpoint same_wave (wave : Z) (objs : list Unstructured) : list Unstructured :=
  match objs with
  | [] => []
  | obj :: rest => if Z.eqb (Wave obj) wave then obj :: same_wave wave rest else []
  end.

Section sorting.
Context {R : GoRuntime}.

Definition FilterObjectsForDeletion (objs : list Unstructured) : list Unstructured :=
  match objs with
  | [] | [_] => objs
  | _ =>
      match go_sort (λ x y, Z.ltb (Wave y) (Wave x)) objs with
      | [] => []
      | first :: rest => same_wave (Wave first) (first :: rest)
      end
  end.
End sorting.

(** ** Calls *)

Inductive call :=
  | ListLive
  | GetRepoObjs
  | CreateHook (obj : Unstructured)
  | DeleteHook (obj : Unstructured)
  | DeleteObject (obj : Unstructured) (background : bool)
  | StoreFinalizers (finalizers : list string)
  | ClearCaches
  | RefreshProject.

Inductive create_answer := Created | AlreadyExists | CreateFails (e : error).
Inductive get_answer := GotApp (app : deleted_app) | AppGone | GetFails (e : error).

(** What the pass is told, as a function of the calls made so far *)
Record deletion_env := {
  get_app : get_answer;
  getAppProj : list call → error + AppProject;
  destination : error + Cluster;
  (** the REST configuration and the impersonation *)
  client_ok : option error;
  settings_ok : option error;
  (** [GetManagedLiveObjs] *)
  live_objs : list call → error + gmap ResourceKey Unstructured;
  projectClusters : string → option (list Cluster);
  repo_objs : list call → error + list Unstructured;
  (** [SetAppInstance] on the whole object *)
  track : Unstructured → error + Unstructured;
  create : list call → create_answer;
  delete_answer : list call → option error;
  (** [RunAllAsync] has noticed an error and starts no more deletions *)
  stops : list call → bool;
  overrides : error + option HealthOverride;
  store_answer : list call → option error;
  caches_ok : option error;
  parse_time : string → option Z;
}.

(** ** A pass, as a program of these calls ([Calls])

    The texts with which the code wraps the errors of a stage are left out. *)

Local Notation D := (Calls.D call).

Section pass.
Context {R : GoRuntime} `{GL : GlobLib} `{HL : HealthLibs} (env : deletion_env).

Definition project_failure (e : project_error) : error := mkErr ReasonOther "cannot list the clusters of the project".

Definition updateFinalizers (fs : list string) : D unit :=
  _ ← reads (getAppProj env);
  failed ← logged (StoreFinalizers fs) (store_answer env);
  of_error failed.

(** [IsLiveResourcePermitted] *)
Definition permitted (proj : AppProject) (destCluster : Cluster) (obj : Unstructured) : project_error + bool :=
  IsResourcePermitted proj {| GKGroup := Group (gvk obj); GKKind := Kind (gvk obj) |} (GetName obj) (GetNamespace obj)
    (Some destCluster) (projectClusters env).

Definition getPermittedAppLiveObjects (proj : AppProject) (destCluster : Cluster) : D (gmap ResourceKey Unstructured) :=
  answer ← logged ListLive (live_objs env);
  objsMap ← of_answer answer;
  d_fold (go_range objsMap) objsMap (λ m '(k, v),
    match permitted proj destCluster v with
    | inl e => fails (project_failure e)
    | inr ok => mret (if ok : bool then m else delete k m)
    end).

(** *** Hooks *)

(** The hooks of the sources that are not in the cluster *)
Definition expected_hooks (hookType : HookType) (namespace : string) (running : gmap ResourceKey Unstructured)
    (targets : list Unstructured) : gmap ResourceKey Unstructured :=
  foldl (λ m obj,
    let obj := if String.eqb (GetNamespace obj) "" then SetNamespace namespace obj else obj in
    if isHookOfType obj hookType && bool_decide (running !! GetResourceKey obj = None)
    then <[GetResourceKey obj := obj]> m else m) ∅ targets.

Definition create_hook (createdCnt : nat) (e : ResourceKey * Unstructured) : D nat :=
  obj ← of_answer (track env e.2);
  answer ← logged (CreateHook obj) (create env);
  match answer with
  | Created => mret (S createdCnt)
  | AlreadyExists => mret createdCnt
  | CreateFails err => fails err
  end.

(** [nil] counts as healthy. *)
Definition hook_health (healthOverrides : option HealthOverride) (obj : Unstructured) : D HealthStatusCode :=
  match GetResourceHealth obj healthOverrides with
  | (_, Some err) => fails (mkErr ReasonOther err)
  | (hookHealth, None) => mret (default HealthStatusHealthy (Health.Status <$> hookHealth))
  end.

(** Whether some hook is progressing, and those that failed *)
Definition assess_hook (healthOverrides : option HealthOverride) (acc : nat * list Unstructured) (e : ResourceKey * Unstructured) :
    D (nat * list Unstructured) :=
  h ← hook_health healthOverrides e.2;
  mret (match h with
        | HealthStatusProgressing => (S acc.1, acc.2)
        | HealthStatusDegraded => (acc.1, acc.2 ++ [e.2])
        | _ => acc
        end).

Definition hooks_failed (hookType : HookType) (failed : list Unstructured) : error :=
  mkErr ReasonOther ((match hookType with PreDeleteHookType => "PreDelete" | PostDeleteHookType => "PostDelete" end) +:+
    " hook(s) failed: " +:+ Join (map (λ o, GetNamespace o +:+ "/" +:+ GetName o) failed) ", ").

Definition executeHooks (hookType : HookType) (namespace : string) (liveObjs : gmap ResourceKey Unstructured) : D bool :=
  _ ← of_error (settings_ok env);
  answer ← logged GetRepoObjs (repo_objs env);
  targets ← of_answer answer;
  let runningHooks := filter (λ e, isHookOfType e.2 hookType = true) liveObjs in
  let expectedHook := expected_hooks hookType namespace runningHooks targets in
  createdCnt ← d_fold (go_range expectedHook) 0 create_hook;
  if negb (Nat.eqb createdCnt 0) then mret false
  else
    healthOverrides ← of_answer (overrides env);
    '(progressing, failed) ← d_fold (go_range runningHooks) (0, []) (assess_hook healthOverrides);
    match failed with
    | _ :: _ =>
        _ ← d_fold failed tt (λ _ obj, _ ← logged (DeleteHook obj) (delete_answer env); mret tt);
        fails (hooks_failed hookType failed)
    | [] => mret (Nat.eqb progressing 0)
    end.

(** Whether the cleanup deletes a hook, given the worst health of the hooks *)
Definition cleaned_up (aggregatedHealth : HealthStatusCode) (obj : Unstructured) : bool :=
  match SyncCommon.DeletePolicies obj with
  | [] => true
  | deletePolicies =>
      existsb (λ policy,
        (bool_decide (policy = HookDeletePolicyHookFailed) && bool_decide (aggregatedHealth = HealthStatusDegraded)) ||
        (bool_decide (policy = HookDeletePolicyHookSucceeded) && bool_decide (aggregatedHealth = HealthStatusHealthy))) deletePolicies
  end.

Definition collect_hook (hookType : HookType) (healthOverrides : option HealthOverride)
    (acc : HealthStatusCode * list Unstructured) (e : ResourceKey * Unstructured) : D (HealthStatusCode * list Unstructured) :=
  if negb (isHookOfType e.2 hookType) then mret acc
  else
    h ← hook_health healthOverrides e.2;
    mret (if IsWorse acc.1 h then h else acc.1, acc.2 ++ [e.2]).

Definition clean_hook (aggregatedHealth : HealthStatusCode) (pendingDeletionCount : nat) (obj : Unstructured) : D nat :=
  if cleaned_up aggregatedHealth obj then
    match GetDeletionTimestamp obj with
    | Some _ => mret (S pendingDeletionCount)
    | None =>
        failed ← logged (DeleteHook obj) (delete_answer env);
        match failed with
        | Some err => if IsNotFound err then mret (S pendingDeletionCount) else fails err
        | None => mret (S pendingDeletionCount)
        end
    end
  else mret pendingDeletionCount.

Definition cleanupHooks (hookType : HookType) (liveObjs : gmap ResourceKey Unstructured) : D bool :=
  healthOverrides ← of_answer (overrides env);
  '(aggregatedHealth, hooks) ← d_fold (go_range liveObjs) (HealthStatusHealthy, []) (collect_hook hookType healthOverrides);
  match hooks with
  | [] => mret true
  | _ =>
      pendingDeletionCount ← d_fold hooks 0 (clean_hook aggregatedHealth);
      mret (Nat.eqb pendingDeletionCount 0)
  end.

(** *** Resources *)

(** [kube.RunAllAsync] with a call to delete each object, in the order in which the calls
    arrive: the first error *)
Fixpoint delete_all (background : bool) (objs : list Unstructured) (failed : option error) : D (option error) :=
  match objs with
  | [] => mret failed
  | obj :: rest =>
      '(err, stop) ← logged (DeleteObject obj background) (λ log, (delete_answer env log, stops env log));
      let failed := match failed with Some e => Some e | None => err end in
      match failed with
      | Some e => if stop : bool then mret (Some e) else delete_all background rest (Some e)
      | None => delete_all background rest None
      end
  end.

(** The loop over the live objects: the objects to delete, or nothing if the pass waits
    for a deletion or for a confirmation *)
Fixpoint objects_to_delete (app : deleted_app) (approved : bool) (objsMap : list (ResourceKey * Unstructured)) :
    option (list Unstructured) :=
  match objsMap with
  | [] => Some []
  | (k, obj) :: rest =>
      if bool_decide (is_Some (GetDeletionTimestamp obj)) then None
      else if shouldBeDeleted app obj then
        if default false (FindResource app k) && negb approved then None
        else cons obj <$> objects_to_delete app approved rest
      else objects_to_delete app approved rest
  end.

Definition delete_resources (app : deleted_app) (proj : AppProject) (destCluster : Cluster) (fs : list string) : D unit :=
  let deletionApproved := IsDeletionConfirmed (parse_time env) (App app) (DeletedAt app) in
  objsMap ← getPermittedAppLiveObjects proj destCluster;
  match objects_to_delete app deletionApproved (go_range objsMap) with
  | None => mret tt
  | Some objs =>
      let background := String.eqb (GetPropagationPolicy fs) BackgroundPropagationPolicyFinalizer in
      failed ← delete_all background (go_sched (FilterObjectsForDeletion objs)) None;
      _ ← of_error failed;
      objsMap ← getPermittedAppLiveObjects proj destCluster;
      if bool_decide (filter (λ e, shouldBeDeleted app e.2 = true) objsMap = ∅)
      then updateFinalizers (UnSetCascadedDeletion fs)
      else mret tt
  end.

(** *** The pass *)

(** A stage: its work, and its finalizer is removed when the work is done. *)
Definition hook_stage (proj : AppProject) (destCluster : Cluster) (work : gmap ResourceKey Unstructured → D bool)
    (finalizer : string) (fs : list string) : D (option (list string)) :=
  objsMap ← getPermittedAppLiveObjects proj destCluster;
  done ← work objsMap;
  if done : bool then
    let fs := setFinalizer finalizer false fs in
    _ ← updateFinalizers fs;
    mret (Some fs)
  else mret None.

(** After the hooks that run before *)
Definition later_stages (app : deleted_app) (proj : AppProject) (destCluster : Cluster) (fs : list string) : D unit :=
  let namespace := AppTypes.Namespace (SpecDestination (App app)) in
  let stage work finalizer := _ ← hook_stage proj destCluster work finalizer fs; mret tt in
  if CascadedDeletion fs then delete_resources app proj destCluster fs
  else if has_finalizer PostDeleteFinalizerName fs then stage (executeHooks PostDeleteHookType namespace) PostDeleteFinalizerName
  else if has_finalizer (cleanup PreDeleteFinalizerName) fs then
    stage (cleanupHooks PreDeleteHookType) (cleanup PreDeleteFinalizerName)
  else if has_finalizer (cleanup PostDeleteFinalizerName) fs then
    stage (cleanupHooks PostDeleteHookType) (cleanup PostDeleteFinalizerName)
  else if negb (has_finalizer PreDeleteFinalizerName fs) then
    _ ← logged ClearCaches (λ _, tt);
    _ ← of_error (caches_ok env);
    logged RefreshProject (λ _, tt)
  else mret tt.

Definition finalizeApplicationDeletion : D unit :=
  match get_app env with
  | AppGone | GetFails _ => mret tt
  | GotApp app =>
      let fs := Finalizers (App app) in
      proj ← reads (getAppProj env);
      match destination env with
      | inl _ => updateFinalizers (UnSetPreDeleteFinalizerAll (UnSetPostDeleteFinalizerAll (UnSetCascadedDeletion fs)))
      | inr destCluster =>
          _ ← of_error (client_ok env);
          if has_finalizer PreDeleteFinalizerName fs then
            o ← hook_stage proj destCluster
                  (executeHooks PreDeleteHookType (AppTypes.Namespace (SpecDestination (App app)))) PreDeleteFinalizerName fs;
            match o with
            | Some fs => later_stages app proj destCluster fs
            | None => mret tt
            end
          else later_stages app proj destCluster fs
      end
  end.
End pass.
