(* ===== verification/AppDeletionProofs.v ===== *)
(** * Deletion of applications: theorems

    The stages of a deletion come in their order, each ends only when its work is done, and
    only what should be deleted is. *)

From S2P Require Import Prelude GoStd GoMatch AppTypes Glob Project ProjectRules Kube SyncCommon Health ClusterCache AppRefresh Calls AppDeletion.
Local Open Scope string_scope.
Local Open Scope list_scope.
Local Open Scope nat_scope.

(** ** Finalizers *)

Lemma getFinalizerIndex_Some fs name i :
  getFinalizerIndex fs name = Some i ↔ fs !! i = Some name ∧ ∀ j, j < i → fs !! j ≠ Some name.
Proof.
  unfold getFinalizerIndex. split.
  - intros ([j x]&H&[= ->])%fmap_Some. apply list_find_Some in H as (Hi&->&Hfirst). split; [done|].
    intros k Hk Hx. by eapply Hfirst.
  - intros [Hi Hfirst]. assert (list_find (λ f, f = name) fs = Some (i, name)) as ->; [|done].
    apply list_find_Some. split_and!; [done..|]. intros j y Hj Hlt ->. by eapply Hfirst.
Qed.

Lemma getFinalizerIndex_None fs name : getFinalizerIndex fs name = None ↔ name ∉ fs.
Proof.
  unfold getFinalizerIndex. rewrite fmap_None, list_find_None, Forall_forall. split.
  - intros H Hin. by eapply H.
  - intros Hn x Hx ->. done.
Qed.

Lemma has_finalizer_in name fs : has_finalizer name fs = true ↔ name ∈ fs.
Proof.
  unfold has_finalizer. rewrite bool_decide_eq_true. destruct (getFinalizerIndex fs name) as [i|] eqn:E.
  - apply getFinalizerIndex_Some in E as [Hi _]. split; [intros _; by eapply list_elem_of_lookup_2|by eexists].
  - apply getFinalizerIndex_None in E. by split; [intros [? ?]|].
Qed.

(** What is removed in place is one occurrence. *)
Lemma remove_at_perm (l : list string) i x :
  l !! i = Some x → x :: take (length l - 1) (<[i := default "" (last l)]> l) ≡ₚ l.
Proof.
  intros Hi. pose proof (lookup_lt_Some _ _ _ Hi) as Hlt.
  destruct l as [|y l] using rev_ind; [done|]. rewrite last_snoc, length_app. cbn [default length].
  replace (length l + 1 - 1) with (length l) by lia. rewrite length_app in Hlt. cbn in Hlt.
  destruct (decide (i = length l)) as [->|Hne].
  - rewrite lookup_app_r, Nat.sub_diag in Hi by lia. injection Hi as ->.
    rewrite insert_app_r_alt, Nat.sub_diag by lia. cbn. rewrite take_app_length. by rewrite Permutation_app_comm.
  - rewrite insert_app_l by lia. rewrite take_app_length' by (by rewrite length_insert).
    rewrite lookup_app_l in Hi by lia. rewrite (Permutation_app_comm l [y]). cbn.
    rewrite <-(list_insert_id l i x) at 2 by done.
    rewrite !insert_take_drop by lia. rewrite !Permutation_middle. cbn. by rewrite perm_swap.
Qed.

(** In the loop: what is left of the slice is what stays of the finalizers visited, and
    those that are not visited yet, which are still in their places in the array. *)
Lemma unset_loop (matching : string → bool) fs i :
  i ≤ length fs →
  let '(arr, len) := foldl (unset_step matching) (fs, length fs) (seq 0 i) in
  len ≤ length arr ∧ length arr = length fs ∧ drop i arr = drop i fs ∧
  take len arr ≡ₚ filter (λ f, matching f = false) (take i fs) ++ drop i fs.
Proof.
  induction i as [|i IH]; intros Hi.
  { cbn. rewrite drop_0, firstn_all. done. }
  rewrite seq_S, foldl_app. cbn [foldl plus]. specialize (IH ltac:(lia)).
  destruct (foldl (unset_step matching) (fs, length fs) (seq 0 i)) as [arr len]. destruct IH as (Hle&Hlen&Hdrop&Hperm).
  destruct (lookup_lt_is_Some_2 fs i) as [f Hf]; [lia|].
  assert (arr !! i = Some f) as Ha by (rewrite <-(Nat.add_0_r i), <-lookup_drop, Hdrop, lookup_drop, Nat.add_0_r; done).
  assert (drop (S i) arr = drop (S i) fs) as Hd by (rewrite <-Nat.add_1_r, <-!drop_drop; by rewrite Hdrop).
  assert (drop i fs = f :: drop (S i) fs) as Hcons by by apply drop_S.
  rewrite (take_S_r _ _ _ Hf), filter_app. unfold unset_step. cbn [fst]. rewrite Ha.
  destruct (matching f) eqn:Em; cycle 1.
  { split_and!; [done..|]. rewrite Hperm, Hcons. cbn. rewrite decide_True by done. by rewrite <-app_assoc. }
  rewrite filter_cons_False by congruence. cbn [filter list_filter]. rewrite app_nil_r.
  assert (f ∈ take len arr) as Hin by (rewrite Hperm, Hcons; set_solver).
  unfold slice_remove. destruct (getFinalizerIndex (take len arr) f) as [idx|] eqn:E; [|by apply getFinalizerIndex_None in E].
  apply getFinalizerIndex_Some in E as [Hidx Hfirst].
  pose proof (lookup_lt_Some _ _ _ Hidx) as Hlt. rewrite length_take in Hlt.
  assert (idx ≤ i) as Hidi.
  { destruct (decide (idx ≤ i)); [done|]. exfalso. apply (Hfirst i); [lia|]. rewrite lookup_take_lt by lia. done. }
  split_and!.
  - rewrite length_insert. lia.
  - by rewrite length_insert.
  - by rewrite drop_insert_lt by lia.
  - pose proof (remove_at_perm (take len arr) idx f Hidx) as Hrem. rewrite length_take, Nat.min_l in Hrem by lia.
    rewrite Hcons in Hperm. pose proof (Permutation_trans Hrem Hperm) as Hp. rewrite <-Permutation_middle in Hp.
    apply Permutation_cons_inv in Hp. rewrite <-Hp. apply reflexive_eq.
    assert (last (take len arr) = arr !! (len - 1)) as ->.
    { rewrite last_lookup, length_take, Nat.min_l by lia. rewrite lookup_take_lt by lia. f_equal. lia. }
    rewrite <-take_insert_lt, take_take by lia. by rewrite Nat.min_l by lia.
Qed.

(** Removing in place while ranging over the slice removes exactly the finalizers that match. *)
Lemma unset_all_perm matching fs : unset_all matching fs ≡ₚ filter (λ f, matching f = false) fs.
Proof.
  unfold unset_all. pose proof (unset_loop matching fs (length fs) ltac:(done)) as H.
  destruct (foldl _ _ _) as [arr len]. destruct H as (_&_&_&H). by rewrite H, drop_all, app_nil_r, firstn_all.
Qed.

Lemma setFinalizer_removes name fs :
  NoDup fs → name ∈ fs → setFinalizer name false fs ≡ₚ filter (λ f, f ≠ name) fs.
Proof.
  intros Hnd Hin. unfold setFinalizer. destruct (getFinalizerIndex fs name) as [i|] eqn:E; [|by apply getFinalizerIndex_None in E].
  apply getFinalizerIndex_Some in E as [Hi _]. pose proof (remove_at_perm fs i name Hi) as Hp.
  set (l := take _ _) in *. rewrite <-Hp, filter_cons_False by tauto.
  rewrite <-Hp in Hnd. apply NoDup_cons in Hnd as [Hn _].
  by rewrite filter_all by (apply Forall_forall; by intros x Hx ->).
Qed.

(** ** The stages of a deletion *)

Inductive stage := PreHooks | Resources | PostHooks | PreCleanup | PostCleanup.

#[export] Instance stage_eq_dec : EqDecision stage.
Proof. solve_decision. Defined.

(** The stage that a finalizer stands for *)
Definition finalizer_stage (f : string) : option stage :=
  if isPropagationPolicyFinalizer f then Some Resources
  else if String.eqb f PreDeleteFinalizerName then Some PreHooks
  else if String.eqb f PostDeleteFinalizerName then Some PostHooks
  else if String.eqb f (cleanup PreDeleteFinalizerName) then Some PreCleanup
  else if String.eqb f (cleanup PostDeleteFinalizerName) then Some PostCleanup
  else None.

Definition pending (fs : list string) (s : stage) : bool := existsb (λ f, bool_decide (finalizer_stage f = Some s)) fs.
(** The first stage that is pending *)
Definition stage_of (fs : list string) : option stage :=
  List.find (pending fs) [PreHooks; Resources; PostHooks; PreCleanup; PostCleanup].
Definition without (s : stage) (fs : list string) : list string := filter (λ f, finalizer_stage f ≠ Some s) fs.

Lemma finalizer_stage_name f :
  (finalizer_stage f = Some PreHooks ↔ f = PreDeleteFinalizerName) ∧
  (finalizer_stage f = Some PostHooks ↔ f = PostDeleteFinalizerName) ∧
  (finalizer_stage f = Some PreCleanup ↔ f = cleanup PreDeleteFinalizerName) ∧
  (finalizer_stage f = Some PostCleanup ↔ f = cleanup PostDeleteFinalizerName) ∧
  (finalizer_stage f = Some Resources ↔ isPropagationPolicyFinalizer f = true).
Proof.
  unfold finalizer_stage. destruct (isPropagationPolicyFinalizer f) eqn:Ep.
  - split_and!; (split; [try done; by intros [=]|]); try done; intros ->; by vm_compute in Ep.
  - destruct (String.eqb_spec f PreDeleteFinalizerName) as [->|H1]; [split_and!; by split|].
    destruct (String.eqb_spec f PostDeleteFinalizerName) as [->|H2]; [split_and!; by split|].
    destruct (String.eqb_spec f (cleanup PreDeleteFinalizerName)) as [->|H3]; [split_and!; by split|].
    destruct (String.eqb_spec f (cleanup PostDeleteFinalizerName)) as [->|H4]; [split_and!; by split|].
    split_and!; by split.
Qed.

Lemma pending_spec fs s : pending fs s = true ↔ ∃ f, f ∈ fs ∧ finalizer_stage f = Some s.
Proof.
  unfold pending. rewrite existsb_exists. setoid_rewrite bool_decide_eq_true. by setoid_rewrite list_elem_of_In.
Qed.

Lemma bool_ext (a b : bool) : (a = true ↔ b = true) → a = b.
Proof. destruct a, b; intuition congruence. Qed.

Lemma pending_name fs s name : (∀ f, finalizer_stage f = Some s ↔ f = name) → pending fs s = has_finalizer name fs.
Proof.
  intros Hs. apply bool_ext. rewrite pending_spec, has_finalizer_in. setoid_rewrite Hs. naive_solver.
Qed.

Lemma pending_Resources fs : pending fs Resources = CascadedDeletion fs.
Proof.
  apply bool_ext. rewrite pending_spec. unfold CascadedDeletion. rewrite existsb_exists. setoid_rewrite <-list_elem_of_In.
  by setoid_rewrite (λ f, proj2 (proj2 (proj2 (proj2 (finalizer_stage_name f))))).
Qed.

(** The order of the tests of the pass *)
Lemma stage_of_tests fs :
  stage_of fs =
    if has_finalizer PreDeleteFinalizerName fs then Some PreHooks
    else if CascadedDeletion fs then Some Resources
    else if has_finalizer PostDeleteFinalizerName fs then Some PostHooks
    else if has_finalizer (cleanup PreDeleteFinalizerName) fs then Some PreCleanup
    else if has_finalizer (cleanup PostDeleteFinalizerName) fs then Some PostCleanup
    else None.
Proof.
  unfold stage_of. cbn [List.find]. rewrite pending_Resources.
  rewrite (pending_name fs PreHooks PreDeleteFinalizerName), (pending_name fs PostHooks PostDeleteFinalizerName),
    (pending_name fs PreCleanup (cleanup PreDeleteFinalizerName)), (pending_name fs PostCleanup (cleanup PostDeleteFinalizerName));
    [done|intros f; apply finalizer_stage_name..].
Qed.

(** *** What the stages do *)

Section stages.
Context {R : GoRuntime} `{GL : GlobLib} `{HL : HealthLibs} (env : deletion_env).
Context (da : deleted_app) (proj : AppProject) (destCluster : Cluster).

(** The live objects that the project permits *)
Definition is_permitted (obj : Unstructured) : bool :=
  match permitted env proj destCluster obj with inr b => b | inl _ => false end.
Definition permitted_part (objs : gmap ResourceKey Unstructured) : gmap ResourceKey Unstructured :=
  filter (λ e, is_permitted e.2 = true) objs.

(** The objects that the last listing found *)
Definition last_listed (log : list call) (m : gmap ResourceKey Unstructured) : Prop :=
  ∃ before since objs, log = before ++ ListLive :: since ∧ ListLive ∉ since ∧
    live_objs env (before ++ [ListLive]) = inr objs ∧ m = permitted_part objs.

Lemma last_listed_app log new m : ListLive ∉ new → last_listed log m → last_listed (log ++ new) m.
Proof.
  intros Hn (b&q&objs&->&Hq&Ho&Hm). exists b, (q ++ new), objs. split_and!; [by rewrite <-app_assoc| |done..].
  rewrite elem_of_app. tauto.
Qed.

Lemma getPermitted_spec log :
  wp (getPermittedAppLiveObjects env proj destCluster) log
    (λ new r, new = [ListLive] ∧ ∀ m, r = inr m → last_listed (log ++ [ListLive]) m).
Proof.
  unfold getPermittedAppLiveObjects. do 4 wp_step.
  destruct (live_objs env (log ++ [ListLive])) as [e|objs] eqn:Hlive; [done|]. rewrite app_nil_r.
  apply (wp_fold (λ done m new, new = [] ∧
      ∀ k, m !! k = (objs !! k ≫= λ v, if decide (is_permitted v = true ∨ k ∉ done.*1) then Some v else None))
    (λ _ new, new = [])).
  - split; [done|]. intros k. destruct (objs !! k) as [v|]; [|done]. cbn.
    rewrite decide_True; [done|]. right. apply not_elem_of_nil.
  - intros done [k v] rest m new Hl (->&Hm).
    assert (objs !! k = Some v) as Hk by (apply elem_of_go_range; rewrite Hl; set_solver).
    assert (k ∉ done.*1) as Hfresh.
    { intros Hin. pose proof (go_range_NoDup_fst objs) as Hnd. rewrite Hl, fmap_app in Hnd. apply NoDup_app in Hnd as (_&Hnd&_).
      apply (Hnd k Hin). by left. }
    destruct (permitted env proj destCluster v) as [e|b] eqn:Hp; [by wp_step|]. wp_step. split; [done|].
    intros k'. rewrite fmap_app. cbn [fmap list_fmap fst]. destruct (decide (k' = k)) as [->|Hne].
    + rewrite Hk. cbn [mbind option_bind]. specialize (Hm k). rewrite Hk in Hm. cbn [mbind option_bind] in Hm.
      rewrite decide_True in Hm by by right. destruct b.
      * rewrite Hm, decide_True; [done|left]. unfold is_permitted. by rewrite Hp.
      * rewrite lookup_delete_eq, decide_False; [done|]. unfold is_permitted. rewrite Hp. intros [?|Hn]; [done|]. apply Hn. set_solver.
    + assert ((if b then m else delete k m) !! k' = m !! k') as -> by (destruct b; [done|by apply lookup_delete_ne]).
      rewrite Hm. destruct (objs !! k') as [v'|]; [|done]. cbn [mbind option_bind].
      apply decide_ext. rewrite elem_of_app, list_elem_of_singleton. tauto.
  - by intros e new ->.
  - intros m new (->&Hm). split; [done|]. intros ? [= <-]. exists log, [], objs. split_and!; [done|apply not_elem_of_nil|done|].
    apply map_eq. intros k. unfold permitted_part. rewrite map_lookup_filter, Hm. destruct (objs !! k) as [v|] eqn:Hk; [|done]. cbn.
    assert (k ∈ (go_range objs).*1) as Hin by (apply (list_elem_of_fmap_2 fst _ (k, v)); by apply elem_of_go_range).
    destruct (decide (is_permitted v = true)) as [Hp|Hp].
    + rewrite decide_True by by left. by rewrite option_guard_True.
    + rewrite decide_False by (intros [?|?]; done). by rewrite option_guard_False.
Qed.

(** *** Hooks *)

Definition health_of (ov : option HealthOverride) (obj : Unstructured) : option HealthStatusCode :=
  match GetResourceHealth obj ov with
  | (_, Some _) => None
  | (h, None) => Some (default HealthStatusHealthy (Health.Status <$> h))
  end.

Lemma hook_health_spec ov obj log (Q : list call → error + HealthStatusCode → Prop) :
  (∀ e, health_of ov obj = None → Q [] (inl e)) → (∀ h, health_of ov obj = Some h → Q [] (inr h)) → wp (hook_health ov obj) log Q.
Proof.
  unfold hook_health, health_of. intros He Hh. destruct (GetResourceHealth obj ov) as [h [e|]]; wp_step; auto.
Qed.

Section hooks.
Context (t : HookType) (namespace : string) (m : gmap ResourceKey Unstructured).

(** The hooks of that type among the live objects, and those that are missing *)
Definition running : gmap ResourceKey Unstructured := filter (λ e, isHookOfType e.2 t = true) m.
Definition missing (targets : list Unstructured) : gmap ResourceKey Unstructured := expected_hooks t namespace running targets.

Lemma running_lookup k obj : running !! k = Some obj ↔ m !! k = Some obj ∧ isHookOfType obj t = true.
Proof. unfold running. by rewrite map_lookup_filter_Some. Qed.

(** All hooks are there, or were created before by someone, and none is progressing or
    degraded. *)
Definition hooks_done (log : list call) : Prop :=
  ∃ before targets ov, before ++ [GetRepoObjs] `prefix_of` log ∧ repo_objs env (before ++ [GetRepoObjs]) = inr targets ∧
    overrides env = inr ov ∧
    (∀ k o, missing targets !! k = Some o → ∃ obj b, track env o = inr obj ∧ b ++ [CreateHook obj] `prefix_of` log ∧
       create env (b ++ [CreateHook obj]) = AlreadyExists) ∧
    (∀ k obj, m !! k = Some obj → isHookOfType obj t = true →
       ∃ h, health_of ov obj = Some h ∧ h ≠ HealthStatusProgressing ∧ h ≠ HealthStatusDegraded).

(** The calls of [executeHooks] *)
Definition hook_call (c : call) : Prop :=
  c = GetRepoObjs ∨
  (∃ obj log targets k o, c = CreateHook obj ∧ repo_objs env log = inr targets ∧ missing targets !! k = Some o ∧ track env o = inr obj) ∨
  (∃ obj k, c = DeleteHook obj ∧ m !! k = Some obj ∧ isHookOfType obj t = true).

Lemma create_hooks_spec log targets (Q : list call → error + nat → Prop) :
  (∀ new r, (∀ c, c ∈ new → ∃ k o obj, c = CreateHook obj ∧ missing targets !! k = Some o ∧ track env o = inr obj) →
    (r = inr 0 → ∀ k o, missing targets !! k = Some o → ∃ obj b, track env o = inr obj ∧
       b ++ [CreateHook obj] `prefix_of` log ++ new ∧ create env (b ++ [CreateHook obj]) = AlreadyExists) → Q new r) →
  wp (d_fold (go_range (missing targets)) 0 (create_hook env)) log Q.
Proof.
  intros HQ. set (made := λ new : list call, ∀ c, c ∈ new → ∃ k o obj, c = CreateHook obj ∧ missing targets !! k = Some o ∧ track env o = inr obj).
  set (refused := λ o log', ∃ obj b, track env o = inr obj ∧ b ++ [CreateHook obj] `prefix_of` log' ∧ create env (b ++ [CreateHook obj]) = AlreadyExists).
  assert (∀ o l l', refused o l → refused o (l ++ l')) as Hmore.
  { intros o l l' (obj&b&?&?&?). exists obj, b. split_and!; [done|by apply prefix_app_r|done]. }
  apply (wp_fold (λ done cnt new, made new ∧ (cnt = 0 → ∀ k o, (k, o) ∈ done → refused o (log ++ new))) (λ _ new, made new)).
  - split; [by intros c ?%elem_of_nil|by intros _ k o ?%elem_of_nil].
  - intros done [k o] rest cnt new Hl [Hmade Hold]. unfold create_hook. cbn [snd]. do 2 wp_step.
    destruct (track env o) as [e|obj] eqn:Ht; [by rewrite app_nil_r|]. do 2 wp_step.
    set (log' := ((log ++ new) ++ []) ++ [CreateHook obj]).
    assert (made (new ++ [CreateHook obj])) as Hm.
    { intros c [Hc|Hc%list_elem_of_singleton]%elem_of_app; [by apply Hmade|]. subst c. exists k, o, obj. split_and!; [done| |done].
      apply elem_of_go_range. rewrite Hl. set_solver. }
    assert (log ++ new ++ [CreateHook obj] = log') as El by (unfold log'; by rewrite app_nil_r, app_assoc).
    destruct (create env log') eqn:Hc; wp_step; [split; [exact Hm|done]|split; [exact Hm|]|exact Hm].
    intros -> k' o' [Hin|[= -> ->]%list_elem_of_singleton]%elem_of_app.
    + cbn [app]. rewrite (app_assoc log). apply Hmore. by eapply Hold.
    + exists obj, (log ++ new). split; [done|]. cbn [app]. rewrite (app_assoc log). split; [done|].
      rewrite <-app_assoc. rewrite El. done.
  - intros e new H. apply HQ; [exact H|done].
  - intros cnt new [H1 H2]. apply HQ; [exact H1|]. intros [= ->] k o Hk. apply (H2 eq_refl k). by apply elem_of_go_range.
Qed.

Lemma assess_hooks_spec ov log (Q : list call → error + nat * list Unstructured → Prop) :
  (∀ e, Q [] (inl e)) →
  (∀ progressing failed, (∀ obj, obj ∈ failed → ∃ k, running !! k = Some obj) →
    (progressing = 0 → failed = [] → ∀ k obj, running !! k = Some obj →
       ∃ h, health_of ov obj = Some h ∧ h ≠ HealthStatusProgressing ∧ h ≠ HealthStatusDegraded) → Q [] (inr (progressing, failed))) →
  wp (d_fold (go_range running) (0, []) (assess_hook ov)) log Q.
Proof.
  intros He HQ.
  apply (wp_fold (λ done acc new, new = [] ∧ (∀ obj, obj ∈ acc.2 → ∃ k, (k, obj) ∈ done) ∧
    (acc.1 = 0 → acc.2 = [] → ∀ k obj, (k, obj) ∈ done →
       ∃ h, health_of ov obj = Some h ∧ h ≠ HealthStatusProgressing ∧ h ≠ HealthStatusDegraded)) (λ _ new, new = [])).
  - split; [done|]. split; [by intros obj ?%elem_of_nil|by intros _ _ k obj ?%elem_of_nil].
  - intros done [k obj] rest acc new Hl (->&Hfailed&Hok). unfold assess_hook. wp_step. cbn [snd]. apply hook_health_spec; [done|].
    intros h Hh. wp_step. split; [done|].
    assert (∀ o, o ∈ acc.2 → ∃ k', (k', o) ∈ done ++ [(k, obj)]) as Hf' by (intros o [k' ?]%Hfailed; exists k'; set_solver).
    assert (h ≠ HealthStatusProgressing → h ≠ HealthStatusDegraded → acc.1 = 0 → acc.2 = [] → ∀ k' o, (k', o) ∈ done ++ [(k, obj)] →
      ∃ h, health_of ov o = Some h ∧ h ≠ HealthStatusProgressing ∧ h ≠ HealthStatusDegraded) as Hok'.
    { intros ? ? Ha1 Ha2 k' o [Hin|[= -> ->]%list_elem_of_singleton]%elem_of_app; [by eapply Hok|]. by exists h. }
    destruct h; (split; [try done|try (by apply Hok'); cbn [fst snd]; try done]).
    + intros o [Ho|Ho%list_elem_of_singleton]%elem_of_app; [by apply Hf'|]. subst o. exists k. set_solver.
    + intros _ Hnil. by destruct (acc.2).
  - by intros e new ->.
  - intros [p f] new (->&Hf&Hok). apply HQ.
    + intros obj [k Hk]%Hf. exists k. by apply elem_of_go_range.
    + intros Hp Hn k obj Hk. apply (Hok Hp Hn k). by apply elem_of_go_range.
Qed.

Lemma executeHooks_spec log :
  wp (executeHooks env t namespace m) log
    (λ new r, (∀ c, c ∈ new → hook_call c) ∧ (r = inr true → hooks_done (log ++ new))).
Proof.
  unfold executeHooks. do 2 wp_step. destruct (settings_ok env) as [e|]; [split; [by intros c ?%elem_of_nil|done]|]. rewrite app_nil_r.
  do 4 wp_step. rewrite app_nil_r. set (l1 := log ++ [GetRepoObjs]).
  assert (∀ c, c ∈ [GetRepoObjs] → hook_call c) as H1 by (intros c Hc%list_elem_of_singleton; by left).
  destruct (repo_objs env l1) as [e|targets] eqn:Hrepo; [split; [exact H1|done]|]. fold running. fold (missing targets).
  wp_step. apply create_hooks_spec. intros new r Hnew Hdone.
  assert (∀ c, c ∈ [GetRepoObjs] ++ new → hook_call c) as H2.
  { intros c [Hc|(k&o&obj&->&Hk&Ht)%Hnew]%elem_of_app; [by apply H1|]. right; left. by exists obj, l1, targets, k, o. }
  destruct r as [e|cnt]; [split; [exact H2|done]|].
  destruct cnt as [|cnt]; cbn [Nat.eqb negb]; [|wp_step; rewrite !app_nil_r; split; [exact H2|done]].
  do 2 wp_step. destruct (overrides env) as [e|ov] eqn:Hov; [rewrite !app_nil_r; split; [exact H2|done]|].
  wp_step. apply assess_hooks_spec; [rewrite !app_nil_r; intros e; split; [exact H2|done]|].
  intros progressing failed Hfailed Hok. cbn match. destruct failed as [|f0 failed].
  - wp_step. cbn [app]. rewrite !app_nil_r. split; [exact H2|]. intros [= Hp%Nat.eqb_eq].
    exists log, targets, ov. split; [|split; [done|split; [done|split]]].
    + exists new. by rewrite <-app_assoc.
    + intros k o Hk. destruct (Hdone eq_refl k o Hk) as (obj&b&?&Hpre&?). exists obj, b. split_and!; [done| |done].
      unfold l1 in Hpre. by rewrite ?app_nil_r, <-app_assoc in Hpre.
    + intros k obj Hk Ht. apply (Hok Hp eq_refl k). by apply running_lookup.
  - wp_step. apply (wp_fold (λ _ _ new, ∀ c, c ∈ new → ∃ obj, c = DeleteHook obj ∧ obj ∈ f0 :: failed) (λ _ _, False)).
    + by intros c ?%elem_of_nil.
    + intros done obj rest _ new' Hl Hall. do 3 wp_step. intros c [Hc|Hc]%elem_of_app; [by apply Hall|].
      rewrite app_nil_r in Hc. apply list_elem_of_singleton in Hc as ->. exists obj. split; [done|]. rewrite Hl. set_solver.
    + done.
    + intros _ new' Hall. wp_step. split; [|done]. intros c. cbn [app]. rewrite app_nil_r. intros Hc.
      change (c ∈ ([GetRepoObjs] ++ new) ++ new') in Hc || rewrite app_assoc in Hc.
      apply elem_of_app in Hc as [Hc|(obj&->&Hobj)%Hall]; [by apply H2|]. right; right.
      destruct (Hfailed obj Hobj) as [k Hk%running_lookup]. by exists obj, k.
Qed.

(** *** Cleanup *)

(** The worst health of the hooks *)
Definition worst_health (ov : option HealthOverride) (agg : HealthStatusCode) : Prop :=
  (∀ k obj, running !! k = Some obj → ∃ h, health_of ov obj = Some h ∧ IsWorse agg h = false) ∧
  (agg = HealthStatusHealthy ∨ ∃ k obj, running !! k = Some obj ∧ health_of ov obj = Some agg).

(** The hooks that are left are those whose policies do not ask for their deletion. *)
Definition cleanup_done : Prop :=
  ∃ ov agg, overrides env = inr ov ∧ worst_health ov agg ∧
    ∀ k obj, running !! k = Some obj → cleaned_up agg obj = false.

Definition cleanup_call (c : call) : Prop :=
  ∃ obj k ov agg, c = DeleteHook obj ∧ running !! k = Some obj ∧ GetDeletionTimestamp obj = None ∧
    overrides env = inr ov ∧ worst_health ov agg ∧ cleaned_up agg obj = true.

Lemma IsWorse_false_trans a b c : IsWorse a b = false → IsWorse b c = false → IsWorse a c = false.
Proof. rewrite <-!not_true_iff_false, !IsWorse_severity. lia. Qed.

Lemma collect_hooks_spec ov log (Q : list call → error + HealthStatusCode * list Unstructured → Prop) :
  (∀ e, Q [] (inl e)) →
  (∀ agg hooks, (∀ obj, obj ∈ hooks ↔ ∃ k, running !! k = Some obj) → worst_health ov agg → Q [] (inr (agg, hooks))) →
  wp (d_fold (go_range m) (HealthStatusHealthy, []) (collect_hook t ov)) log Q.
Proof.
  intros He HQ.
  set (hook := λ (done : list (ResourceKey * Unstructured)) obj, ∃ k, (k, obj) ∈ done ∧ isHookOfType obj t = true).
  apply (wp_fold (λ done acc new, new = [] ∧ (∀ obj, obj ∈ acc.2 ↔ hook done obj) ∧
    (∀ obj, hook done obj → ∃ h, health_of ov obj = Some h ∧ IsWorse acc.1 h = false) ∧
    (acc.1 = HealthStatusHealthy ∨ ∃ obj, hook done obj ∧ health_of ov obj = Some acc.1)) (λ _ new, new = [])).
  - split; [done|]. split_and!; [|by intros obj (k&?%elem_of_nil&_)|by left].
    intros obj. split; [by intros ?%elem_of_nil|by intros (k&?%elem_of_nil&_)].
  - intros done [k obj] rest acc new Hl (->&Hhooks&Hworst&Hatt). unfold collect_hook. cbn [snd].
    assert (∀ o, hook (done ++ [(k, obj)]) o ↔ hook done o ∨ (o = obj ∧ isHookOfType obj t = true)) as Hmore.
    { intros o. unfold hook. setoid_rewrite elem_of_app. setoid_rewrite list_elem_of_singleton. naive_solver. }
    destruct (isHookOfType obj t) eqn:Et; cbn [negb].
    + wp_step. apply hook_health_spec; [done|]. intros h Hh. wp_step. cbn [fst snd].
      set (agg := if IsWorse acc.1 h then h else acc.1).
      assert (IsWorse agg acc.1 = false ∧ IsWorse agg h = false) as [Ha1 Ha2].
      { unfold agg. rewrite <-!not_true_iff_false, !IsWorse_severity. destruct (IsWorse acc.1 h) eqn:Ew; [apply IsWorse_severity in Ew; lia|].
        apply not_true_iff_false in Ew. rewrite IsWorse_severity in Ew. lia. }
      split; [done|]. split_and!.
      * intros o. rewrite Hmore, elem_of_app, list_elem_of_singleton, Hhooks. tauto.
      * intros o [(h'&?&Hw)%Hworst|[-> _]]%Hmore; [exists h'|by exists h]. split; [done|]. exact (IsWorse_false_trans _ _ _ Ha1 Hw).
      * unfold agg. destruct (IsWorse acc.1 h); [right; exists obj; split; [apply Hmore; auto|done]|].
        destruct Hatt as [?|(o&?&?)]; [by left|right]. exists o. split; [apply Hmore; auto|done].
    + wp_step. split; [done|]. split_and!.
      * intros o. rewrite Hmore, Hhooks. naive_solver.
      * intros o [?|[_ ?]]%Hmore; [by apply Hworst|done].
      * destruct Hatt as [?|(o&?&?)]; [by left|right]. exists o. split; [apply Hmore; auto|done].
  - by intros e new ->.
  - assert (∀ o, hook (go_range m) o ↔ ∃ k, running !! k = Some o) as Hrun.
    { intros o. unfold hook. setoid_rewrite elem_of_go_range. by setoid_rewrite running_lookup. }
    intros [agg hooks] new (->&Hhooks&Hworst&Hatt). apply HQ.
    + intros o. by rewrite Hhooks.
    + split; [intros k o Hk; apply Hworst, Hrun; eauto|]. destruct Hatt as [?|(o&[k Hk]%Hrun&?)]; [by left|right]. by exists k, o.
Qed.

Lemma cleanupHooks_spec log :
  wp (cleanupHooks env t m) log (λ new r, (∀ c, c ∈ new → cleanup_call c) ∧ (r = inr true → cleanup_done)).
Proof.
  unfold cleanupHooks. do 2 wp_step. destruct (overrides env) as [e|ov] eqn:Hov; [split; [by intros c ?%elem_of_nil|done]|].
  rewrite app_nil_r. wp_step. apply collect_hooks_spec; [intros e; split; [by intros c ?%elem_of_nil|done]|].
  intros agg hooks Hhooks Hworst. cbn match. rewrite app_nil_r. destruct hooks as [|h0 hooks].
  { wp_step. split; [by intros c ?%elem_of_nil|]. intros _. exists ov, agg. split; [done|]. split; [done|].
    intros k obj Hk. assert (obj ∈ []) as ?%elem_of_nil by (apply Hhooks; eauto). done. }
  wp_step. apply (wp_fold (λ done cnt new, (∀ c, c ∈ new → cleanup_call c) ∧ (cnt = 0 → ∀ obj, obj ∈ done → cleaned_up agg obj = false))
    (λ _ new, ∀ c, c ∈ new → cleanup_call c)).
  - split; [by intros c ?%elem_of_nil|by intros _ obj ?%elem_of_nil].
  - intros done obj rest cnt new Hl [Hcalls Hcnt]. unfold clean_hook.
    destruct (proj1 (Hhooks obj)) as [k Hk]; [rewrite Hl; set_solver|].
    destruct (cleaned_up agg obj) eqn:Ec; cycle 1.
    { wp_step. rewrite app_nil_r. split; [done|]. intros H0 o [Ho|Ho%list_elem_of_singleton]%elem_of_app; [by apply Hcnt|by subst]. }
    destruct (GetDeletionTimestamp obj) eqn:Ed; [wp_step; rewrite app_nil_r; by split|].
    do 2 wp_step. assert (∀ c, c ∈ new ++ [DeleteHook obj] → cleanup_call c) as Hcalls'.
    { intros c [Hc|Hc%list_elem_of_singleton]%elem_of_app; [by apply Hcalls|]. subst. by exists obj, k, ov, agg. }
    destruct (delete_answer env _) as [err|]; [destruct (IsNotFound err)|]; wp_step; cbn [app]; try (split; [exact Hcalls'|done]). exact Hcalls'.
  - intros e new H. by split.
  - intros cnt new [H1 H2]. wp_step. cbn [app]. rewrite app_nil_r. split; [exact H1|]. intros [= Hc%Nat.eqb_eq].
    exists ov, agg. split; [done|]. split; [done|]. intros k obj Hk. apply (H2 Hc), Hhooks. eauto.
Qed.
End hooks.

(** *** Resources *)

Definition deletion_approved : bool := IsDeletionConfirmed (parse_time env) (App da) (DeletedAt da).

(** What a pass may delete of the live objects: nothing while something is on its way out or
    waits for a confirmation, and then the last wave *)
Definition deletable (m : gmap ResourceKey Unstructured) (obj : Unstructured) : Prop :=
  (∃ k, m !! k = Some obj) ∧ shouldBeDeleted da obj = true ∧
  (∀ k o, m !! k = Some o → GetDeletionTimestamp o = None) ∧
  (∀ k o, m !! k = Some o → shouldBeDeleted da o = true → (Wave o ≤ Wave obj)%Z) ∧
  (∀ k o, m !! k = Some o → shouldBeDeleted da o = true → FindResource da k = Some true → deletion_approved = true).

Definition nothing_left (m : gmap ResourceKey Unstructured) : Prop := ∀ k obj, m !! k = Some obj → shouldBeDeleted da obj = false.

Lemma objects_to_delete_spec l objs :
  objects_to_delete da deletion_approved l = Some objs →
  (∀ obj, obj ∈ objs ↔ shouldBeDeleted da obj = true ∧ ∃ k, (k, obj) ∈ l) ∧
  (∀ k o, (k, o) ∈ l → GetDeletionTimestamp o = None) ∧
  (∀ k o, (k, o) ∈ l → shouldBeDeleted da o = true → FindResource da k = Some true → deletion_approved = true).
Proof.
  revert objs. induction l as [|[k o] l IH]; intros objs; cbn [objects_to_delete].
  { intros [= <-]. split_and!; [|by intros ? ? ?%elem_of_nil..]. intros obj. split; [by intros ?%elem_of_nil|by intros (_&?&?%elem_of_nil)]. }
  case_bool_decide as Hd; [done|]. assert (GetDeletionTimestamp o = None) as Hno by (destruct (GetDeletionTimestamp o); [by destruct Hd|done]).
  destruct (shouldBeDeleted da o) eqn:Es.
  - destruct (default false (FindResource da k) && negb deletion_approved) eqn:Ec; [done|].
    intros (objs'&Hobjs%IH&->)%fmap_Some. destruct Hobjs as (H1&H2&H3). split_and!.
    + intros obj. rewrite elem_of_cons, H1. split.
      * intros [->|[? [k' ?]]]; (split; [done|]); [exists k; by left|exists k'; by right].
      * intros [? [k' [[= -> ->]|?]%elem_of_cons]]; [by left|right; eauto].
    + intros k' o' [[= -> ->]|Hin]%elem_of_cons; [done|by eapply H2].
    + intros k' o' [[= -> ->]|Hin]%elem_of_cons Hs Hf; [|by eapply H3]. rewrite Hf in Ec. cbn in Ec. by apply negb_false_iff in Ec.
  - intros Hobjs%IH. destruct Hobjs as (H1&H2&H3). split_and!.
    + intros obj. rewrite H1. split.
      * intros [? [k' ?]]. split; [done|]. exists k'. by right.
      * intros [? [k' [[= -> ->]|?]%elem_of_cons]]; [congruence|eauto].
    + intros k' o' [[= -> ->]|Hin]%elem_of_cons; [done|by eapply H2].
    + intros k' o' [[= -> ->]|Hin]%elem_of_cons Hs; [congruence|by eapply H3].
Qed.

Lemma same_wave_spec w l obj : obj ∈ same_wave w l → obj ∈ l ∧ Wave obj = w.
Proof.
  induction l as [|x l IH]; cbn [same_wave]; [by intros ?%elem_of_nil|].
  destruct (Z.eqb_spec (Wave x) w) as [Hw|_]; [|by intros ?%elem_of_nil].
  intros [->|[? ?]%IH]%elem_of_cons; [split; [by left|done]|split; [by right|done]].
Qed.

(** The objects of the largest wave *)
Lemma FilterObjectsForDeletion_spec objs obj :
  obj ∈ FilterObjectsForDeletion objs → obj ∈ objs ∧ ∀ o, o ∈ objs → (Wave o ≤ Wave obj)%Z.
Proof.
  unfold FilterObjectsForDeletion. destruct objs as [|x [|y objs]]; [by intros ?%elem_of_nil| |].
  { intros Ho%list_elem_of_singleton. subst. split; [by left|]. intros o Ho%list_elem_of_singleton. by subst. }
  set (l := x :: y :: objs). set (less := λ a b, Z.ltb (Wave b) (Wave a)).
  pose proof (go_sort_perm less l) as Hperm.
  assert (sorted_by less (go_sort less l)) as Hsort.
  { apply go_sort_sorted. split; unfold less; intros; lia. }
  destruct (go_sort less l) as [|first rest] eqn:E; [by intros ?%elem_of_nil|]. intros [Hin Hw]%same_wave_spec.
  split; [by rewrite <-Hperm|]. intros o Ho. rewrite <-Hperm in Ho. rewrite Hw. clear Hin Hw.
  unfold sorted_by in Hsort. apply StronglySorted_inv in Hsort as [_ Hall]. apply elem_of_cons in Ho as [->|Ho]; [lia|].
  pose proof (proj1 (Forall_forall _ _) Hall o Ho) as Hle. unfold less in Hle. apply Z.ltb_ge in Hle. lia.
Qed.

Lemma delete_all_spec bg objs failed log :
  wp (delete_all env bg objs failed) log (λ new r, (∀ c, c ∈ new → ∃ obj, c = DeleteObject obj bg ∧ obj ∈ objs) ∧ ∃ o, r = inr o).
Proof.
  revert failed log. induction objs as [|obj objs IH]; intros failed log; cbn [delete_all].
  { wp_step. split; [by intros c ?%elem_of_nil|by eexists]. }
  do 2 wp_step.
  assert (∀ f, wp (delete_all env bg objs f) (log ++ [DeleteObject obj bg]) (λ new r,
    (∀ c, c ∈ [DeleteObject obj bg] ++ new → ∃ o, c = DeleteObject o bg ∧ o ∈ obj :: objs) ∧ ∃ o, r = inr o)) as Hrest.
  { intros f. eapply wp_mono; [apply IH|]. intros new r [Hnew Hr]. split; [|done].
    intros c [Hc%list_elem_of_singleton|(o&->&Ho)%Hnew]%elem_of_app; [exists obj|exists o]; (split; [done|set_solver]). }
  set (l1 := log ++ [DeleteObject obj bg]) in *. cbn match. cbv zeta.
  destruct failed as [e|], (delete_answer env l1) as [e'|]; cbn match; try apply Hrest;
    (destruct (stops env l1); [wp_step; split; [intros c Hc%list_elem_of_singleton; exists obj; split; [done|by left]|by eexists]|apply Hrest]).
Qed.

(** *** The pass follows the stages *)

Definition namespace_of : string := AppTypes.Namespace (SpecDestination (App da)).

(** What a pass does in a stage, in view of the objects that were listed *)
Definition work (s : stage) (fs : list string) (m : gmap ResourceKey Unstructured) (c : call) : Prop :=
  match s with
  | PreHooks => hook_call PreDeleteHookType namespace_of m c
  | PostHooks => hook_call PostDeleteHookType namespace_of m c
  | PreCleanup => cleanup_call PreDeleteHookType m c
  | PostCleanup => cleanup_call PostDeleteHookType m c
  | Resources => ∃ obj, c = DeleteObject obj (String.eqb (GetPropagationPolicy fs) BackgroundPropagationPolicyFinalizer) ∧ deletable m obj
  end.

(** When a stage is over *)
Definition completed (s : stage) (m : gmap ResourceKey Unstructured) (log : list call) : Prop :=
  match s with
  | PreHooks => hooks_done PreDeleteHookType namespace_of m log
  | PostHooks => hooks_done PostDeleteHookType namespace_of m log
  | PreCleanup => cleanup_done PreDeleteHookType m
  | PostCleanup => cleanup_done PostDeleteHookType m
  | Resources => nothing_left m
  end.

(** The calls that are allowed next, and the finalizers after them: the objects are listed and
    the work of the first pending stage is done; when it is over its finalizers are removed,
    and no others; and when no stage is pending the caches are cleared. *)
Inductive allowed (log : list call) (fs : list string) : call → list string → Prop :=
  | allowed_list s : stage_of fs = Some s → allowed log fs ListLive fs
  | allowed_work s m c : stage_of fs = Some s → last_listed log m → work s fs m c → allowed log fs c fs
  | allowed_store s m fs' :
      stage_of fs = Some s → last_listed log m → completed s m log → fs' ≡ₚ without s fs →
      allowed log fs (StoreFinalizers fs') fs'
  | allowed_end c : stage_of fs = None → c = ClearCaches ∨ c = RefreshProject → allowed log fs c fs.

Inductive follows : list call → list string → list call → list string → Prop :=
  | follows_nil log fs : follows log fs [] fs
  | follows_cons log fs c fs1 cs fs2 : allowed log fs c fs1 → follows (log ++ [c]) fs1 cs fs2 → follows log fs (c :: cs) fs2.

Lemma follows_app log fs cs fs1 cs' fs2 : follows log fs cs fs1 → follows (log ++ cs) fs1 cs' fs2 → follows log fs (cs ++ cs') fs2.
Proof.
  induction 1 as [log fs|log fs c fs1 cs fs3 Hc _ IH]; [by rewrite app_nil_r|]. intros H. econstructor; [exact Hc|].
  apply IH. by rewrite <-app_assoc.
Qed.

Lemma follows_one log fs c fs1 : allowed log fs c fs1 → follows log fs [c] fs1.
Proof. intros H. econstructor; [exact H|constructor]. Qed.

Lemma work_not_list s fs m c : work s fs m c → c ≠ ListLive.
Proof.
  assert (∀ t m, hook_call t namespace_of m c → c ≠ ListLive) as Hh.
  { intros t m' [->|[(obj&?&?&?&?&->&_)|(obj&?&->&_)]]; done. }
  assert (∀ t m, cleanup_call t m c → c ≠ ListLive) as Hc by by intros t m' (obj&?&?&?&->&_).
  destruct s; cbn [work]; [apply Hh|by intros (obj&->&_)|apply Hh|apply Hc..].
Qed.

Lemma follows_work log fs s m cs :
  stage_of fs = Some s → last_listed log m → (∀ c, c ∈ cs → work s fs m c) → follows log fs cs fs ∧ last_listed (log ++ cs) m.
Proof.
  revert log. induction cs as [|c cs IH]; intros log Hs Hm Hw; [rewrite app_nil_r; split; [constructor|done]|].
  assert (c ≠ ListLive) as Hc by (eapply work_not_list, Hw; by left).
  destruct (IH (log ++ [c]) Hs) as [H1 H2].
  - apply last_listed_app; [|done]. intros Hl%list_elem_of_singleton; congruence.
  - intros c' Hc'. apply Hw. by right.
  - rewrite <-app_assoc in H2. split; [|exact H2]. econstructor; [|exact H1]. eapply allowed_work; [done..|]. apply Hw. by left.
Qed.

Lemma updateFinalizers_spec fs log :
  wp (updateFinalizers env fs) log (λ new r, (new = [] ∧ ∃ e, r = inl e) ∨ new = [StoreFinalizers fs]).
Proof.
  unfold updateFinalizers. do 2 wp_step. destruct (getAppProj env log); [by left; eauto|]. do 3 wp_step. by right.
Qed.

(** The finalizer of a stage is removed when its work is over. *)
Lemma hook_stage_spec s (job : gmap ResourceKey Unstructured → D call bool) name fs log :
  stage_of fs = Some s → NoDup fs → (∀ f, finalizer_stage f = Some s ↔ f = name) →
  (∀ m log, wp (job m) log (λ new r, (∀ c, c ∈ new → work s fs m c) ∧ (r = inr true → completed s m (log ++ new)))) →
  wp (hook_stage env proj destCluster job name fs) log
    (λ new r, ∃ fs', follows log fs new fs' ∧ ∀ fs1, r = inr (Some fs1) → fs1 = fs' ∧ fs1 ≡ₚ without s fs).
Proof.
  intros Hs Hnd Hname Hjob. unfold hook_stage. wp_step. eapply wp_mono; [apply getPermitted_spec|]. cbn beta.
  intros ? r [-> Hlist]. assert (follows log fs [ListLive] fs) as H1 by (apply follows_one; by eapply allowed_list).
  destruct r as [e|m]; [by exists fs|]. specialize (Hlist m eq_refl).
  wp_step. eapply wp_mono; [apply Hjob|]. cbn beta. intros new r [Hw Hdone].
  destruct (follows_work _ _ _ _ _ Hs Hlist Hw) as [H2 Hlist2]. pose proof (follows_app _ _ _ _ _ _ H1 H2) as H3.
  destruct r as [e|[]]; [by exists fs| |wp_step; rewrite app_nil_r; by exists fs].
  assert (setFinalizer name false fs ≡ₚ without s fs) as Hrem.
  { rewrite setFinalizer_removes; [|done|].
    - unfold without. apply reflexive_eq, list_filter_iff. intros f. by rewrite Hname.
    - apply List.find_some in Hs as [_ [f [Hf Hfs]]%pending_spec]. apply Hname in Hfs. by subst. }
  wp_step. eapply wp_mono; [apply updateFinalizers_spec|]. cbn beta. intros ? r' [(->&e&->)| ->].
  - rewrite app_nil_r. by exists fs.
  - assert (follows log fs ([ListLive] ++ new ++ [StoreFinalizers (setFinalizer name false fs)]) (setFinalizer name false fs)) as H4.
    { rewrite app_assoc. refine (follows_app _ _ _ _ _ _ H3 _). apply follows_one.
      eapply allowed_store; [done| | |done]; [by rewrite app_assoc|]. rewrite app_assoc. by apply Hdone. }
    destruct r' as [e|u]; [by exists (setFinalizer name false fs)|]. wp_step. rewrite app_nil_r.
    exists (setFinalizer name false fs). split; [exact H4|]. by intros fs1 [= <-].
Qed.

Lemma delete_resources_spec fs log :
  stage_of fs = Some Resources →
  wp (delete_resources env da proj destCluster fs) log (λ new r, ∃ fs', follows log fs new fs').
Proof.
  intros Hs. unfold delete_resources. fold deletion_approved. wp_step. eapply wp_mono; [apply getPermitted_spec|]. cbn beta.
  intros ? r [-> Hlist]. assert (∀ log, follows log fs [ListLive] fs) as H1 by (intros l; apply follows_one; by eapply allowed_list).
  destruct r as [e|m]; [by exists fs|]. specialize (Hlist m eq_refl).
  destruct (objects_to_delete da deletion_approved (go_range m)) as [objs|] eqn:Eo; [|wp_step; rewrite app_nil_r; by exists fs].
  apply objects_to_delete_spec in Eo as (Hobjs&Hpend&Hconf). setoid_rewrite elem_of_go_range in Hobjs.
  setoid_rewrite elem_of_go_range in Hpend. setoid_rewrite elem_of_go_range in Hconf.
  set (bg := String.eqb (GetPropagationPolicy fs) BackgroundPropagationPolicyFinalizer).
  wp_step. eapply wp_mono; [apply delete_all_spec|]. cbn beta. intros dels r [Hdels [o ->]].
  assert (∀ c, c ∈ dels → work Resources fs m c) as Hw.
  { intros c (obj&->&Hobj)%Hdels. exists obj. split; [done|]. rewrite go_sched_perm in Hobj.
    apply FilterObjectsForDeletion_spec in Hobj as [[Hsh Hk]%Hobjs Hwave]. split; [done|]. split; [done|]. split; [done|].
    split; [|exact Hconf]. intros k o' Hk' Hsh'. apply Hwave, Hobjs. eauto. }
  destruct (follows_work _ _ _ _ _ Hs Hlist Hw) as [H2 _]. pose proof (follows_app _ _ _ _ _ _ (H1 log) H2) as H3.
  do 2 wp_step. destruct o as [e|]; [rewrite app_nil_r; by exists fs|]. rewrite app_nil_r.
  wp_step. eapply wp_mono; [apply getPermitted_spec|]. cbn beta. intros ? r [-> Hlist2].
  pose proof (follows_app _ _ _ _ _ _ H3 (H1 _)) as H4. rewrite <-!app_assoc in H4.
  destruct r as [e|m2]; [by exists fs|]. specialize (Hlist2 m2 eq_refl).
  case_bool_decide as He; [|wp_step; rewrite app_nil_r; by exists fs].
  eapply wp_mono; [apply updateFinalizers_spec|]. cbn beta. intros ? r' [(->&e&->)| ->].
  { rewrite app_nil_r. by exists fs. }
  exists (UnSetCascadedDeletion fs). rewrite !app_assoc. refine (follows_app _ _ _ _ _ _ _ (follows_one _ _ _ _ _)); [by rewrite <-!app_assoc|].
  eapply (allowed_store _ _ Resources m2); [done|revert Hlist2; rewrite ?app_nil_r, <-!app_assoc; done| |].
  - intros k obj Hk. destruct (shouldBeDeleted da obj) eqn:Esh; [|done].
    assert (filter (λ e, shouldBeDeleted da e.2 = true) m2 !! k = Some obj) as H by by apply map_lookup_filter_Some.
    by rewrite He in H.
  - unfold UnSetCascadedDeletion. rewrite unset_all_perm. unfold without. apply reflexive_eq, list_filter_iff. intros f.
    rewrite (proj2 (proj2 (proj2 (proj2 (finalizer_stage_name f))))). by rewrite not_true_iff_false.
Qed.

Lemma later_stages_spec fs log :
  NoDup fs → has_finalizer PreDeleteFinalizerName fs = false →
  wp (later_stages env da proj destCluster fs) log (λ new r, ∃ fs', follows log fs new fs').
Proof.
  intros Hnd Hpre. pose proof (stage_of_tests fs) as Hs. rewrite Hpre in Hs. unfold later_stages. fold namespace_of.
  assert (∀ s (job : gmap ResourceKey Unstructured → D call bool) name, stage_of fs = Some s → (∀ f, finalizer_stage f = Some s ↔ f = name) →
    (∀ m log, wp (job m) log (λ new r, (∀ c, c ∈ new → work s fs m c) ∧ (r = inr true → completed s m (log ++ new)))) →
    wp (hook_stage env proj destCluster job name fs ≫= λ _, mret tt) log (λ new (r : error + unit), ∃ fs', follows log fs new fs')) as Hstage.
  { intros s job name Hst Hn Hjob. wp_step. eapply wp_mono; [by eapply hook_stage_spec|]. cbn beta. intros new r (fs'&H&_).
    destruct r; [by exists fs'|]. wp_step. rewrite app_nil_r. by exists fs'. }
  destruct (CascadedDeletion fs); [by apply delete_resources_spec|].
  destruct (has_finalizer PostDeleteFinalizerName fs);
    [apply (Hstage PostHooks); [done|intros f; apply finalizer_stage_name|intros m l; apply executeHooks_spec]|].
  destruct (has_finalizer (cleanup PreDeleteFinalizerName) fs);
    [apply (Hstage PreCleanup); [done|intros f; apply finalizer_stage_name|]|].
  { intros m l. eapply wp_mono; [apply cleanupHooks_spec|]. auto. }
  destruct (has_finalizer (cleanup PostDeleteFinalizerName) fs);
    [apply (Hstage PostCleanup); [done|intros f; apply finalizer_stage_name|]|].
  { intros m l. eapply wp_mono; [apply cleanupHooks_spec|]. auto. }
  rewrite Hpre. cbn [negb].
  assert (∀ log c, c = ClearCaches ∨ c = RefreshProject → follows log fs [c] fs) as H1.
  { intros l c Hc. apply follows_one. by apply allowed_end. }
  do 4 wp_step. destruct (caches_ok env) as [e|]; [exists fs; apply H1; auto|]. wp_step. exists fs.
  cbn [app]. refine (follows_app _ _ [ClearCaches] _ _ _ (H1 _ _ _) (H1 _ _ _)); auto.
Qed.
End stages.

Lemma deletion_follows_stages_in {R : GoRuntime} {GL : GlobLib} {HL : HealthLibs} (env : deletion_env) da proj destCluster :
  get_app env = GotApp da → getAppProj env [] = inr proj → destination env = inr destCluster → NoDup (Finalizers (App da)) →
  ∃ fs, follows env da proj destCluster [] (Finalizers (App da)) (finalizeApplicationDeletion env []).2 fs.
Proof.
  intros Hget Hproj Hdest Hnd. set (fs := Finalizers (App da)) in *.
  enough (wp (finalizeApplicationDeletion env) [] (λ new r, ∃ fs', follows env da proj destCluster [] fs new fs')) as (new&r&->&Hf) by done.
  unfold finalizeApplicationDeletion. rewrite Hget. fold fs. do 2 wp_step. rewrite Hproj, Hdest. do 2 wp_step.
  assert (∃ fs', follows env da proj destCluster [] fs [] fs') as Hnil by (exists fs; constructor).
  destruct (client_ok env) as [e|]; [done|]. cbn [app].
  destruct (has_finalizer PreDeleteFinalizerName fs) eqn:Hpre.
  - assert (stage_of fs = Some PreHooks) as Hs by by rewrite stage_of_tests, Hpre.
    wp_step. eapply wp_mono.
    { apply (hook_stage_spec env da proj destCluster PreHooks); [done|done|intros f; apply finalizer_stage_name|].
      intros m l. apply executeHooks_spec. }
    cbn beta. intros new r (fs1&H1&Hr). destruct r as [e|[fs2|]]; [by exists fs1| |wp_step; rewrite app_nil_r; by exists fs1].
    destruct (Hr fs2 eq_refl) as [-> Hperm]. eapply wp_mono.
    + apply later_stages_spec.
      * rewrite Hperm. by apply NoDup_filter.
      * apply not_true_iff_false. rewrite has_finalizer_in, Hperm. unfold without. rewrite list_elem_of_filter. intros [Hn _].
        apply Hn. by apply finalizer_stage_name.
    + cbn beta. intros new' r' (fs3&H3). exists fs3. by eapply follows_app.
  - apply later_stages_spec; done.
Qed.

(** C7. A pass over an application that is being deleted follows the stages of its finalizers:
    hooks that run before, resources, hooks that run after, cleanup of the former, cleanup of
    the latter.  Only the work of the first pending stage is done; of the resources only live
    ones are deleted that the project permits, that no option keeps, of the last wave, when
    nothing is on its way out and what needs a confirmation has it; and the finalizers of a
    stage are removed, and only they, when its work is over: all its hooks are there and none
    is progressing or failed, nothing is left to delete, or no hook is left that its policies
    want deleted. *)
Theorem deletion_follows_stages {R : GoRuntime} {GL : GlobLib} {HL : HealthLibs} (env : deletion_env) da proj destCluster :
  get_app env = GotApp da → getAppProj env [] = inr proj → destination env = inr destCluster → NoDup (Finalizers (App da)) →
  ∃ fs, follows env da proj destCluster [] (Finalizers (App da)) (finalizeApplicationDeletion env []).2 fs.
Proof. apply deletion_follows_stages_in. Qed.
