(* ===== verification/AppDeletionEnds.v ===== *)
(** * Deletion of applications: progress

    Without a destination the application is released at once; and if the cluster does what
    it is asked to and hooks are out of the way, passes release it in the end. *)

From S2P Require Import Prelude GoStd GoMatch AppTypes Glob Windows Project ProjectRules Kube SyncCommon Health ClusterCache AppRefresh Calls AppDeletion AppDeletionProofs.
Local Open Scope string_scope.
Local Open Scope list_scope.
Local Open Scope nat_scope.

(** ** A destination that is not known *)

(** If the destination of an application that is being deleted is not known the pass makes
    no call but one: it stores the finalizers without those of the deletion, whatever their
    places in the list from which they are removed while it is walked, and keeps all others. *)
Theorem unknown_destination_releases {R : GoRuntime} {GL : GlobLib} {HL : HealthLibs} (env : deletion_env) da proj e :
  get_app env = GotApp da → getAppProj env [] = inr proj → destination env = inl e →
  ∃ fs, (finalizeApplicationDeletion env []).2 = [StoreFinalizers fs] ∧
    fs ≡ₚ filter (λ f, isPropagationPolicyFinalizer f = false ∧ HasPrefix f PostDeleteFinalizerName = false ∧
                       HasPrefix f PreDeleteFinalizerName = false) (Finalizers (App da)).
Proof.
  intros Hget Hproj Hdest. set (fs := Finalizers (App da)).
  exists (UnSetPreDeleteFinalizerAll (UnSetPostDeleteFinalizerAll (UnSetCascadedDeletion fs))). split.
  - enough (wp (finalizeApplicationDeletion env) [] (λ new _,
      new = [StoreFinalizers (UnSetPreDeleteFinalizerAll (UnSetPostDeleteFinalizerAll (UnSetCascadedDeletion fs)))])) as (new&r&->&->) by done.
    unfold finalizeApplicationDeletion. rewrite Hget. fold fs. do 2 wp_step. rewrite Hproj, Hdest.
    unfold updateFinalizers. do 2 wp_step. cbn [app]. rewrite Hproj. by do 3 wp_step.
  - unfold UnSetPreDeleteFinalizerAll, UnSetPostDeleteFinalizerAll, UnSetCascadedDeletion. rewrite !unset_all_perm.
    rewrite !list_filter_filter. apply reflexive_eq, list_filter_iff. intros f. tauto.
Qed.

(** ** A cluster that does what it is asked to *)

(** The finalizers and the live objects after some calls *)
Definition stored (fs : list string) (log : list call) : list string :=
  foldl (λ fs c, match c with StoreFinalizers fs' => fs' | _ => fs end) fs log.
Definition after (live : gmap ResourceKey Unstructured) (log : list call) : gmap ResourceKey Unstructured :=
  foldl (λ m c, match c with DeleteObject o _ => delete (GetResourceKey o) m | _ => m end) live log.

Lemma stored_app fs l1 l2 : stored fs (l1 ++ l2) = stored (stored fs l1) l2.
Proof. apply foldl_app. Qed.
Lemma after_app live l1 l2 : after live (l1 ++ l2) = after (after live l1) l2.
Proof. apply foldl_app. Qed.

Section cooperative.
Context {R : GoRuntime} `{GL : GlobLib} `{HL : HealthLibs}.
Context (da : deleted_app) (proj : AppProject) (destCluster : Cluster).

(** Nothing fails; deleted objects are gone; no hook is in the cluster or in the sources; and
    nothing is on its way out or waits for a confirmation. *)
Record cooperative (env : deletion_env) (live : gmap ResourceKey Unstructured) : Prop := {
  co_app : get_app env = GotApp da;
  co_proj log : getAppProj env log = inr proj;
  co_destination : destination env = inr destCluster;
  co_client : client_ok env = None;
  co_settings : settings_ok env = None;
  co_overrides : ∃ ov, overrides env = inr ov;
  co_caches : caches_ok env = None;
  co_live log : live_objs env log = inr (after live log);
  co_delete log : delete_answer env log = None;
  co_store log : store_answer env log = None;
  co_repo log : ∃ targets, repo_objs env log = inr targets ∧ ∀ o t, o ∈ targets → isHookOfType o t = false;
  co_permitted obj : ∃ b, permitted env proj destCluster obj = inr b;
  co_keys k o : live !! k = Some o → GetResourceKey o = k;
  co_no_hooks k o t : live !! k = Some o → isHookOfType o t = false;
  co_not_deleted k o : live !! k = Some o → GetDeletionTimestamp o = None;
  co_confirmed k o : live !! k = Some o → FindResource da k = Some true → deletion_approved env da = true;
}.

Context (env : deletion_env) (live : gmap ResourceKey Unstructured).
Hypothesis Hco : cooperative env live.

Lemma after_sub log k o : after live log !! k = Some o → live !! k = Some o.
Proof.
  induction log as [|c log IH] using rev_ind; [done|]. rewrite after_app. cbn. destruct c; try exact IH.
  intros [_ H]%lookup_delete_Some. by apply IH.
Qed.

Lemma listing_succeeds log (Q : list call → error + gmap ResourceKey Unstructured → Prop) :
  Q [ListLive] (inr (permitted_part env proj destCluster (after live (log ++ [ListLive])))) →
  wp (getPermittedAppLiveObjects env proj destCluster) log Q.
Proof.
  intros HQ. eapply wp_mono.
  { apply (wp_and _ _ _ (λ _ r, ∃ m, r = inr m) (getPermitted_spec env proj destCluster log)).
    unfold getPermittedAppLiveObjects. do 4 wp_step. rewrite (co_live _ _ Hco).
    apply (wp_fold (λ _ _ _, True) (λ _ _, False)); [done| |done|by eexists].
    intros done [k v] rest m new _ _. destruct (co_permitted _ _ Hco v) as [b ->]. by wp_step. }
  cbn beta. intros new r [(->&Hr) (m&->)]. destruct (Hr m eq_refl) as (b&q&objs&Hlog&Hq&Ho&->).
  assert (q = [] ∧ b = log) as [-> ->].
  { destruct q as [|c q _] using rev_ind; [by apply app_inj_tail in Hlog as [-> _]|].
    rewrite app_comm_cons, app_assoc in Hlog. apply app_inj_tail in Hlog as [_ <-]. set_solver. }
  rewrite (co_live _ _ Hco) in Ho. injection Ho as <-. done.
Qed.

(** ** Hooks are out of the way *)

Lemma no_running t m : (∀ k o, m !! k = Some o → live !! k = Some o) → running t m = ∅.
Proof.
  intros Hm. apply map_empty. intros k. destruct (running t m !! k) as [o|] eqn:E; [|done].
  apply running_lookup in E as [E Ht]. apply Hm in E. by rewrite (co_no_hooks _ _ Hco _ _ t E) in Ht.
Qed.

Lemma no_missing t ns run targets : (∀ o, o ∈ targets → isHookOfType o t = false) → expected_hooks t ns run targets = ∅.
Proof.
  intros Ht. unfold expected_hooks. generalize (∅ : gmap ResourceKey Unstructured) as m0.
  induction targets as [|o targets IH]; intros m0; [done|]. cbn [foldl].
  assert (isHookOfType (if String.eqb (GetNamespace o) "" then SetNamespace ns o else o) t = false) as ->.
  { destruct (String.eqb (GetNamespace o) ""); [change (isHookOfType o t = false)|]; apply Ht; by left. }
  apply IH. intros o' Ho'. apply Ht. by right.
Qed.

Lemma hooks_are_done t ns m log :
  (∀ k o, m !! k = Some o → live !! k = Some o) → wp (executeHooks env t ns m) log (λ new r, new = [GetRepoObjs] ∧ r = inr true).
Proof.
  intros Hm. unfold executeHooks. do 2 wp_step. rewrite (co_settings _ _ Hco). do 4 wp_step.
  destruct (co_repo _ _ Hco ((log ++ []) ++ [GetRepoObjs])) as (targets&->&Ht).
  fold (running t m). rewrite (no_running t m Hm), no_missing by auto.
  assert (go_range (∅ : gmap ResourceKey Unstructured) = []) as ->.
  { pose proof (go_range_perm (∅ : gmap ResourceKey Unstructured)) as Hp. rewrite map_to_list_empty in Hp. by apply Permutation_nil_r in Hp. }
  cbn [d_fold]. do 2 wp_step. cbn [Nat.eqb negb]. do 2 wp_step. destruct (co_overrides _ _ Hco) as [ov ->]. cbn match. do 2 wp_step.
  by wp_step.
Qed.

Lemma cleanup_is_done t m log :
  (∀ k o, m !! k = Some o → live !! k = Some o) → wp (cleanupHooks env t m) log (λ new r, new = [] ∧ r = inr true).
Proof.
  intros Hm. unfold cleanupHooks. do 2 wp_step. destruct (co_overrides _ _ Hco) as [ov ->]. wp_step.
  apply (wp_fold (λ _ acc new, new = [] ∧ acc = (HealthStatusHealthy, [])) (λ _ _, False)).
  - done.
  - intros done [k o] rest acc new Hl [-> ->]. unfold collect_hook. cbn [snd].
    rewrite (co_no_hooks _ _ Hco k o t); [cbn [negb]; by wp_step|]. apply Hm, elem_of_go_range. rewrite Hl. set_solver.
  - done.
  - intros acc new [-> ->]. by wp_step.
Qed.

(** ** The measure: stages that are pending, and live objects to delete *)

Definition all_stages : list stage := [PreHooks; Resources; PostHooks; PreCleanup; PostCleanup].
Definition stages_left (fs : list string) : nat := length (List.filter (pending fs) all_stages).
Definition to_delete (m : gmap ResourceKey Unstructured) : gmap ResourceKey Unstructured :=
  filter (λ e, is_permitted env proj destCluster e.2 = true ∧ shouldBeDeleted da e.2 = true) m.
Definition work_left (fs : list string) (m : gmap ResourceKey Unstructured) : nat := stages_left fs + size (to_delete m).

Lemma pending_perm fs fs' s : fs ≡ₚ fs' → pending fs s = pending fs' s.
Proof. intros Hp. apply bool_ext. rewrite !pending_spec. by setoid_rewrite Hp. Qed.

Lemma pending_without fs s s' : pending (without s fs) s' = true ↔ pending fs s' = true ∧ s' ≠ s.
Proof.
  rewrite !pending_spec. unfold without. setoid_rewrite list_elem_of_filter. split.
  - intros (f&[Hn Hin]&Hf). split; [by exists f|]. intros ->. done.
  - intros [(f&Hin&Hf) Hne]. exists f. split; [split; [|done]|done]. rewrite Hf. by intros [= ->].
Qed.

Lemma stages_left_without fs fs' s :
  stage_of fs = Some s → fs' ≡ₚ without s fs → stages_left fs' < stages_left fs.
Proof.
  intros Hs Hp. unfold stages_left. unfold stage_of in Hs. apply List.find_some in Hs as [Hin Hpend].
  apply (filter_length_lt _ _ _ s); [|by apply list_elem_of_In|done|].
  - intros s' Hs'. rewrite (pending_perm _ _ _ Hp) in Hs'. by apply pending_without in Hs' as [? _].
  - apply not_true_iff_false. rewrite (pending_perm _ _ _ Hp), pending_without. naive_solver.
Qed.

Lemma to_delete_lookup m k o : to_delete m !! k = Some o ↔ m !! k = Some o ∧ is_permitted env proj destCluster o = true ∧ shouldBeDeleted da o = true.
Proof. unfold to_delete. by rewrite map_lookup_filter_Some. Qed.

Lemma after_subseteq m log : after m log ⊆ m.
Proof.
  induction log as [|c log IH] using rev_ind; [done|]. rewrite after_app. cbn. destruct c; try exact IH.
  etransitivity; [apply delete_subseteq|exact IH].
Qed.

Lemma after_deleted m o bg log : DeleteObject o bg ∈ log → after m log !! GetResourceKey o = None.
Proof.
  induction log as [|c log IH] using rev_ind; [by intros ?%elem_of_nil|]. rewrite after_app. cbn.
  intros [Hin|Hc%list_elem_of_singleton]%elem_of_app; [|subst c; apply lookup_delete_eq].
  destruct c; try (by apply IH). apply lookup_delete_None. right. by apply IH.
Qed.

Lemma to_delete_le m log : size (to_delete (after m log)) ≤ size (to_delete m).
Proof. apply map_subseteq_size. unfold to_delete. apply map_filter_subseteq_mono, after_subseteq. Qed.

Lemma to_delete_lt m o bg log :
  DeleteObject o bg ∈ log → to_delete m !! GetResourceKey o = Some o → size (to_delete (after m log)) < size (to_delete m).
Proof.
  intros Hin Hm. apply map_subset_size. split; [apply map_filter_subseteq_mono, after_subseteq|]. intros Hsub.
  pose proof (lookup_weaken _ _ _ _ Hm Hsub) as H. apply to_delete_lookup in H as [H _]. by rewrite (after_deleted _ _ _ _ Hin) in H.
Qed.

(** ** A pass makes progress *)

Lemma stores fs log (Q : list call → error + unit → Prop) : Q [StoreFinalizers fs] (inr tt) → wp (updateFinalizers env fs) log Q.
Proof.
  intros HQ. unfold updateFinalizers. do 2 wp_step. rewrite (co_proj _ _ Hco). do 3 wp_step. by rewrite (co_store _ _ Hco).
Qed.

Lemma deletes bg objs log :
  wp (delete_all env bg objs None) log (λ new r, new = (λ o, DeleteObject o bg) <$> objs ∧ r = inr None).
Proof.
  revert log. induction objs as [|o objs IH]; intros log; cbn [delete_all]; [by wp_step|].
  do 2 wp_step. cbv zeta. rewrite (co_delete _ _ Hco). eapply wp_mono; [apply IH|]. by intros new r [-> ->].
Qed.

Lemma objects_to_delete_total l :
  (∀ k o, (k, o) ∈ l → GetDeletionTimestamp o = None ∧ (FindResource da k = Some true → deletion_approved env da = true)) →
  is_Some (objects_to_delete da (deletion_approved env da) l).
Proof.
  induction l as [|[k o] l IH]; intros Hl; cbn [objects_to_delete]; [by eexists|].
  destruct (Hl k o) as [-> Hconf]; [by left|]. rewrite bool_decide_eq_false_2 by (by intros [? ?]).
  destruct IH as [objs ->]; [intros k' o' Hin; apply Hl; by right|].
  destruct (shouldBeDeleted da o); [|by eexists].
  destruct (FindResource da k) as [[]|]; cbn; try by eexists. rewrite Hconf by done. by eexists.
Qed.

Lemma FilterObjectsForDeletion_some objs : objs ≠ [] → ∃ o, o ∈ FilterObjectsForDeletion objs.
Proof.
  intros Hne. unfold FilterObjectsForDeletion. destruct objs as [|x [|y objs]]; [done|exists x; by left|].
  destruct (go_sort _ (x :: y :: objs)) as [|first rest] eqn:E.
  - pose proof (go_sort_perm (λ x y, Z.ltb (Wave y) (Wave x)) (x :: y :: objs)) as Hp. rewrite E in Hp. by apply Permutation_nil_l in Hp.
  - exists first. cbn [same_wave]. rewrite Z.eqb_refl. by left.
Qed.

(** What a pass leaves less work, and no more in any case *)
Definition progress (fs : list string) (log new : list call) : Prop :=
  work_left (stored fs new) (after live (log ++ new)) < work_left fs (after live log).

Lemma stored_deletes fs bg (objs : list Unstructured) : stored fs ((λ o, DeleteObject o bg) <$> objs) = fs.
Proof. by induction objs. Qed.

Lemma resources_progress fs log :
  stage_of fs = Some Resources → wp (delete_resources env da proj destCluster fs) log (λ new r, r = inr tt ∧ progress fs log new).
Proof.
  intros Hs. unfold delete_resources. fold (deletion_approved env da). wp_step. apply listing_succeeds. rewrite after_app. cbn [after foldl].
  set (lv := after live log). set (m := permitted_part env proj destCluster lv).
  assert (∀ k o, m !! k = Some o → lv !! k = Some o ∧ is_permitted env proj destCluster o = true) as Hm.
  { intros k o Hk. by apply map_lookup_filter_Some in Hk. }
  destruct (objects_to_delete_total (go_range m)) as [objs Eo].
  { intros k o [Hk%after_sub _]%elem_of_go_range%Hm. split; [by eapply co_not_deleted|by eapply co_confirmed]. }
  rewrite Eo. apply objects_to_delete_spec in Eo as (Hobjs&_&_). setoid_rewrite elem_of_go_range in Hobjs.
  set (bg := String.eqb (GetPropagationPolicy fs) BackgroundPropagationPolicyFinalizer).
  set (dels := (λ o, DeleteObject o bg) <$> go_sched (FilterObjectsForDeletion objs)).
  assert (stages_left (UnSetCascadedDeletion fs) < stages_left fs) as Hst.
  { apply (stages_left_without _ _ _ Hs). unfold UnSetCascadedDeletion, without. rewrite unset_all_perm. apply reflexive_eq, list_filter_iff.
    intros f. rewrite (proj2 (proj2 (proj2 (proj2 (finalizer_stage_name f))))). by rewrite not_true_iff_false. }
  wp_step. eapply wp_mono; [apply deletes|]. cbn beta. intros ? ? [-> ->]. fold dels. do 3 wp_step. rewrite app_nil_r.
  apply listing_succeeds. set (m2 := permitted_part _ _ _ _). unfold progress, work_left.
  assert (size (to_delete (after lv dels)) ≤ size (to_delete lv)) as Hle by apply to_delete_le.
  case_bool_decide as He.
  - apply stores. cbn [app]. split; [done|].
    rewrite (after_app live log). fold lv. cbn [after foldl]. fold (after lv (dels ++ [ListLive; StoreFinalizers (UnSetCascadedDeletion fs)])).
    rewrite after_app. cbn [after foldl]. fold (after lv dels).
    assert (stored fs (ListLive :: dels ++ [ListLive; StoreFinalizers (UnSetCascadedDeletion fs)]) = UnSetCascadedDeletion fs) as ->.
    { rewrite app_comm_cons, stored_app. done. }
    lia.
  - wp_step. cbn [app]. split; [done|]. apply map_choose in He as (k&o&[Hk Hsh]%map_lookup_filter_Some). cbn [snd] in Hsh.
    apply map_lookup_filter_Some in Hk as [Hk Hperm]. cbn [snd] in Hperm.
    assert (lv !! k = Some o) as Hlv.
    { rewrite <-!app_assoc, after_app in Hk. by eapply lookup_weaken; [exact Hk|apply after_subseteq]. }
    destruct (FilterObjectsForDeletion_some objs) as [o' Ho'].
    { intros Hnil. assert (o ∈ []) as ?%elem_of_nil; [|done]. rewrite <-Hnil. apply Hobjs. split; [done|]. exists k.
      by apply map_lookup_filter_Some. }
    assert (DeleteObject o' bg ∈ dels) as Hin.
    { apply list_elem_of_fmap. exists o'. split; [done|]. by rewrite go_sched_perm. }
    apply FilterObjectsForDeletion_spec in Ho' as [[Hsh' [k' [Hk' Hp']%Hm]]%Hobjs _].
    assert (to_delete lv !! GetResourceKey o' = Some o') as Htd.
    { apply to_delete_lookup. split; [|done]. by rewrite (co_keys _ _ Hco _ _ (after_sub _ _ _ Hk')). }
    pose proof (to_delete_lt _ _ _ _ Hin Htd) as Hlt.
    rewrite (after_app live log). fold lv. change (ListLive :: dels ++ [ListLive]) with ([ListLive] ++ dels ++ [ListLive]).
    rewrite !after_app, !stored_app. cbn [after stored foldl]. fold (after lv dels). fold (stored fs dels).
    unfold dels at 1. rewrite stored_deletes. lia.
Qed.

(** A stage of hooks, with a job that has nothing to do *)
Lemma hooks_progress s (job : gmap ResourceKey Unstructured → D call bool) name quiet fs log :
  stage_of fs = Some s → NoDup fs → (∀ f, finalizer_stage f = Some s ↔ f = name) →
  (∀ l, stored l quiet = l) → (∀ m, after m quiet = m) →
  (∀ m log, (∀ k o, m !! k = Some o → live !! k = Some o) → wp (job m) log (λ new r, new = quiet ∧ r = inr true)) →
  wp (hook_stage env proj destCluster job name fs) log
    (λ new r, r = inr (Some (setFinalizer name false fs)) ∧ stored fs new = setFinalizer name false fs ∧
      (∀ m, after m new = m) ∧ setFinalizer name false fs ≡ₚ without s fs).
Proof.
  intros Hs Hnd Hname Hq1 Hq2 Hjob. unfold hook_stage. wp_step. apply listing_succeeds. wp_step.
  eapply wp_mono; [apply Hjob; by intros k o [?%after_sub _]%map_lookup_filter_Some|]. cbn beta. intros ? ? [-> ->].
  wp_step. apply stores. wp_step. split; [done|]. split; [|split].
  - cbn [app]. change (ListLive :: quiet ++ [StoreFinalizers (setFinalizer name false fs)])
      with ([ListLive] ++ quiet ++ [StoreFinalizers (setFinalizer name false fs)]). by rewrite !stored_app.
  - intros m. cbn [app]. change (ListLive :: quiet ++ [StoreFinalizers (setFinalizer name false fs)])
      with ([ListLive] ++ quiet ++ [StoreFinalizers (setFinalizer name false fs)]). rewrite !after_app. by rewrite Hq2.
  - rewrite setFinalizer_removes; [|done|].
    + unfold without. apply reflexive_eq, list_filter_iff. intros f. by rewrite Hname.
    + apply List.find_some in Hs as [_ [f [Hf Hfs]]%pending_spec]. apply Hname in Hfs. by subst.
Qed.

Lemma later_progress fs log :
  NoDup fs → has_finalizer PreDeleteFinalizerName fs = false →
  wp (later_stages env da proj destCluster fs) log (λ new r,
    r = inr tt ∧ (stage_of fs ≠ None → progress fs log new) ∧ work_left (stored fs new) (after live (log ++ new)) ≤ work_left fs (after live log)).
Proof.
  intros Hnd Hpre. pose proof (stage_of_tests fs) as Hs. rewrite Hpre in Hs. unfold later_stages.
  assert (∀ s (job : gmap ResourceKey Unstructured → D call bool) name quiet, stage_of fs = Some s → (∀ f, finalizer_stage f = Some s ↔ f = name) →
    (∀ l, stored l quiet = l) → (∀ m, after m quiet = m) →
    (∀ m log, (∀ k o, m !! k = Some o → live !! k = Some o) → wp (job m) log (λ new r, new = quiet ∧ r = inr true)) →
    wp (hook_stage env proj destCluster job name fs ≫= λ _, mret tt) log (λ new (r : error + unit), r = inr tt ∧ progress fs log new)) as Hstage.
  { intros s job name quiet Hst Hn Hq1 Hq2 Hjob. wp_step. eapply wp_mono; [by eapply hooks_progress|]. cbn beta.
    intros new r (->&Hstored&Hafter&Hp). wp_step. rewrite app_nil_r. split; [done|]. unfold progress, work_left.
    rewrite after_app, Hafter, Hstored. pose proof (stages_left_without _ _ _ Hst Hp). lia. }
  assert (∀ (p : D call unit), wp p log (λ new r, r = inr tt ∧ progress fs log new) → wp p log (λ new r,
    r = inr tt ∧ (stage_of fs ≠ None → progress fs log new) ∧ work_left (stored fs new) (after live (log ++ new)) ≤ work_left fs (after live log))) as Hweak.
  { intros p Hp. eapply wp_mono; [exact Hp|]. cbn beta. intros new r [-> H]. split; [done|]. split; [done|]. unfold progress in H. lia. }
  destruct (CascadedDeletion fs); [apply Hweak; by apply resources_progress|].
  destruct (has_finalizer PostDeleteFinalizerName fs).
  { apply Hweak, (Hstage PostHooks _ _ [GetRepoObjs]); [done|intros f; apply finalizer_stage_name|done..|]. intros m l Hm. by apply hooks_are_done. }
  destruct (has_finalizer (cleanup PreDeleteFinalizerName) fs).
  { apply Hweak, (Hstage PreCleanup _ _ []); [done|intros f; apply finalizer_stage_name|done..|]. intros m l Hm. by apply cleanup_is_done. }
  destruct (has_finalizer (cleanup PostDeleteFinalizerName) fs).
  { apply Hweak, (Hstage PostCleanup _ _ []); [done|intros f; apply finalizer_stage_name|done..|]. intros m l Hm. by apply cleanup_is_done. }
  rewrite Hpre. cbn [negb]. do 4 wp_step. rewrite (co_caches _ _ Hco). wp_step. split; [done|]. split; [done|].
  rewrite after_app. done.
Qed.

Lemma pass_progress :
  NoDup (Finalizers (App da)) →
  wp (finalizeApplicationDeletion env) [] (λ new r,
    r = inr tt ∧ (stage_of (Finalizers (App da)) ≠ None → progress (Finalizers (App da)) [] new)).
Proof.
  set (fs := Finalizers (App da)). intros Hnd. unfold finalizeApplicationDeletion. rewrite (co_app _ _ Hco). fold fs.
  do 2 wp_step. rewrite (co_proj _ _ Hco), (co_destination _ _ Hco). do 2 wp_step. rewrite (co_client _ _ Hco). cbn [app].
  destruct (has_finalizer PreDeleteFinalizerName fs) eqn:Hpre.
  - assert (stage_of fs = Some PreHooks) as Hs by by rewrite stage_of_tests, Hpre.
    wp_step. eapply wp_mono.
    { apply (hooks_progress PreHooks _ _ [GetRepoObjs]); [done|done|intros f; apply finalizer_stage_name|done..|].
      intros m l Hm. by apply hooks_are_done. }
    cbn beta. intros new r (->&Hstored&Hafter&Hp). cbn match. eapply wp_mono.
    + apply later_progress; [rewrite Hp; by apply NoDup_filter|]. apply not_true_iff_false. rewrite has_finalizer_in, Hp.
      unfold without. rewrite list_elem_of_filter. intros [Hn _]. apply Hn. by apply finalizer_stage_name.
    + cbn beta. intros new' r' (->&_&Hle). split; [done|]. intros _. unfold progress, work_left in *. rewrite stored_app, Hstored.
      cbn [app] in *. rewrite Hafter in Hle. pose proof (stages_left_without _ _ _ Hs Hp). cbn [after foldl] in *. unfold after in *. lia.
  - eapply wp_mono; [apply later_progress; done|]. cbn beta. by intros new r (->&H&_).
Qed.
End cooperative.

(** ** Passes *)

(** The application with the finalizers that were stored *)
Definition with_finalizers (fs : list string) (da : deleted_app) : deleted_app :=
  let a := App da in
  {| App := {| AppNamespace := AppNamespace a; AppName := AppName a; AppUID := AppUID a; AppAnnotations := AppAnnotations a;
               Finalizers := fs; Deleting := Deleting a; HasOperation := HasOperation a; HasMultipleSources := HasMultipleSources a;
               SpecSources := SpecSources a; TargetRevisions := TargetRevisions a; SpecDestination := SpecDestination a;
               SpecIgnoreDifferences := SpecIgnoreDifferences a; NamespaceMetadata := NamespaceMetadata a; Status := Status a |};
     PolicyOptions := PolicyOptions da; DeletedAt := DeletedAt da; StatusResources := StatusResources da |}.

Section passes.
Context {R : GoRuntime} `{GL : GlobLib} `{HL : HealthLibs} (proj : AppProject) (destCluster : Cluster).

Lemma follows_stored env da log fs cs fs' :
  follows env da proj destCluster log fs cs fs' → stored fs cs = fs' ∧ (NoDup fs → NoDup fs').
Proof.
  induction 1 as [log fs|log fs c fs1 cs fs2 Hc _ [IH1 IH2]]; [done|].
  assert (stored fs [c] = fs1 ∧ (NoDup fs → NoDup fs1)) as [H1 H2].
  { destruct Hc as [s Hs|s m c Hs _ Hw|s m fs' Hs _ _ Hp|c Hs Hc]; [done| | |by destruct Hc as [-> | ->]].
    - destruct c; try done. exfalso. clear -Hw. destruct s; cbn [work] in Hw;
        [destruct Hw as [?|[(?&?&?&?&?&?&_)|(?&?&?&_)]]|destruct Hw as (?&?&_)|
         destruct Hw as [?|[(?&?&?&?&?&?&_)|(?&?&?&_)]]|destruct Hw as (?&?&?&?&?&_)..]; done.
    - split; [done|]. intros Hnd. rewrite Hp. by apply NoDup_filter. }
  split; [|auto]. change (stored (stored fs [c]) cs = fs2). by rewrite H1.
Qed.

Lemma deletion_ends_in (envs : nat → deletion_env) (das : nat → deleted_app) (lives : nat → gmap ResourceKey Unstructured) :
  NoDup (Finalizers (App (das 0))) →
  (∀ i, cooperative (das i) proj destCluster (envs i) (lives i)) →
  (∀ i, projectClusters (envs i) = projectClusters (envs 0)) →
  (∀ i, das (S i) = with_finalizers (stored (Finalizers (App (das i))) (finalizeApplicationDeletion (envs i) []).2) (das i)) →
  (∀ i, lives (S i) = after (lives i) (finalizeApplicationDeletion (envs i) []).2) →
  ∃ i, i ≤ 5 + size (lives 0) ∧ stage_of (Finalizers (App (das i))) = None.
Proof.
  intros Hnd Hco Hcl Hdas Hlives.
  set (fs := λ i, Finalizers (App (das i))).
  assert (∀ i, NoDup (fs i) ∧ to_delete (das i) proj destCluster (envs i) = to_delete (das 0) proj destCluster (envs 0)) as Hinv.
  { induction i as [|i [IHnd IHtd]]; [done|]. split.
    - unfold fs. rewrite Hdas. cbn [App with_finalizers Finalizers].
      destruct (deletion_follows_stages_in (envs i) (das i) proj destCluster) as [fs' Hf];
        [apply Hco|apply Hco|apply Hco|exact IHnd|]. destruct (follows_stored _ _ _ _ _ _ Hf) as [-> H]. by apply H.
    - rewrite <-IHtd. unfold to_delete. rewrite Hdas. unfold is_permitted, permitted. by rewrite (Hcl (S i)), (Hcl i). }
  assert (∀ i, stage_of (fs i) ≠ None →
    stages_left (fs (S i)) + size (to_delete (das 0) proj destCluster (envs 0) (lives (S i))) <
    stages_left (fs i) + size (to_delete (das 0) proj destCluster (envs 0) (lives i))) as Hstep.
  { intros i Hs. destruct (Hinv i) as [Hndi Htd].
    destruct (pass_progress (das i) proj destCluster (envs i) (lives i) (Hco i) Hndi) as (new&r&E&_&H). specialize (H Hs).
    unfold progress, work_left in H. rewrite Htd in H. unfold fs at 1. rewrite Hdas, Hlives, E. exact H. }
  assert (∀ n i, stages_left (fs i) + size (to_delete (das 0) proj destCluster (envs 0) (lives i)) ≤ n →
    ∃ j, j ≤ i + n ∧ stage_of (fs j) = None) as Hgen.
  { induction n as [|n IH]; intros i Hn; (destruct (stage_of (fs i)) eqn:Es; [|exists i; split; [lia|done]]);
      pose proof (Hstep i ltac:(by rewrite Es)) as Hlt; [lia|].
    destruct (IH (S i)) as (j&Hj&?); [lia|]. exists j. split; [lia|done]. }
  destruct (Hgen (5 + size (lives 0)) 0) as (j&Hj&?); [|exists j; split; [lia|done]].
  assert (stages_left (fs 0) ≤ 5) by apply List.filter_length_le.
  assert (size (to_delete (das 0) proj destCluster (envs 0) (lives 0)) ≤ size (lives 0)); [|lia].
  apply map_subseteq_size. unfold to_delete. apply map_filter_subseteq.
Qed.

(** C8. The deletion of an application ends: if the cluster does what the passes ask of it,
    nothing fails, no hooks are in the way and nothing waits for a confirmation, then after
    at most five passes more than there are live objects none of the finalizers of the
    deletion is left, whatever its waves are. *)
Theorem deletion_ends (envs : nat → deletion_env) (das : nat → deleted_app) (lives : nat → gmap ResourceKey Unstructured) :
  NoDup (Finalizers (App (das 0))) →
  (∀ i, cooperative (das i) proj destCluster (envs i) (lives i)) →
  (∀ i, projectClusters (envs i) = projectClusters (envs 0)) →
  (∀ i, das (S i) = with_finalizers (stored (Finalizers (App (das i))) (finalizeApplicationDeletion (envs i) []).2) (das i)) →
  (∀ i, lives (S i) = after (lives i) (finalizeApplicationDeletion (envs i) []).2) →
  ∃ i, i ≤ 5 + size (lives 0) ∧ stage_of (Finalizers (App (das i))) = None.
Proof. apply deletion_ends_in. Qed.
End passes.

(** ** A concrete cluster *)

Module DeletionSample.
#[local] Existing Instance reference_runtime.
#[local] Existing Instance exact_globs.
#[local] Existing Instance no_libs.

Definition object (kind name : string) (annotations : gmap string string) (labels : list (string * json)) : Unstructured :=
  mkObj 0 (mkGVK "" "v1" kind) kind name "prod" "" annotations [] name "1" None [] (JObj [("metadata", JObj labels)]).
Definition config (name wave : string) : Unstructured := object "ConfigMap" name {["cd.hanzo.ai/sync-wave" := wave]} [].
Definition hook (name type policy : string) : Unstructured :=
  object "ConfigMap" name
    ({["cd.hanzo.ai/hook" := type]} ∪ (if String.eqb policy "" then ∅ else {["cd.hanzo.ai/hook-delete-policy" := policy]})) [].
Definition keyed (objs : list Unstructured) : gmap ResourceKey Unstructured := list_to_map ((λ o, (GetResourceKey o, o)) <$> objs).

Definition guestbook (fs : list string) : deleted_app := {|
  App := {| AppNamespace := "cd"; AppName := "guestbook"; AppUID := "a1"; AppAnnotations := ∅; Finalizers := fs; Deleting := true;
            HasOperation := false; HasMultipleSources := false; SpecSources := ["repo"]; TargetRevisions := ["main"];
            SpecDestination := {| Server := "https://prod"; AppTypes.Namespace := "prod"; DestName := "" |};
            SpecIgnoreDifferences := ""; NamespaceMetadata := None;
            AppRefresh.Status := {| ReconciledAt := None; Conditions := [];
              Sync := {| SyncCode := "Synced"; Revision := "abc"; Revisions := []; ComparedSources := ["repo"];
                         ComparedDestination := {| Server := "https://prod"; AppTypes.Namespace := "prod"; DestName := "" |};
                         ComparedIgnoreDifferences := "" |};
              HealthCode := "Healthy"; SyncResultMetadata := None |} |};
  PolicyOptions := None; DeletedAt := 100; StatusResources := [] |}.

Definition home : Cluster :=
  {| ClusterPtr := 1; ClusterID := ""; ClusterServer := "https://prod"; ClusterName := "prod"; ClusterShard := None; ClusterAnnotations := ∅ |}.
Definition project : AppProject :=
  {| ProjName := "demo"; Destinations := [{| Server := "https://prod"; AppTypes.Namespace := "prod"; DestName := "" |}];
     PermitOnlyProjectScopedClusters := false; SourceNamespaces := []; SourceRepos := ["repo"]; ClusterResourceWhitelist := [];
     ClusterResourceBlacklist := []; NamespaceResourceWhitelist := None; NamespaceResourceBlacklist := [];
     ProjSyncWindows := None; DestinationServiceAccounts := []; Roles := []; JWTTokensByRole := ∅ |}.

(** A cluster in which deleted objects are gone at once, with the manifests of the sources *)
Definition cluster_env (da : deleted_app) (live : gmap ResourceKey Unstructured) (sources : list Unstructured)
    (dest : error + Cluster) (created : create_answer) : deletion_env := {|
  get_app := GotApp da; getAppProj := λ _, inr project; destination := dest; client_ok := None; settings_ok := None;
  live_objs := λ log, inr (after live log); projectClusters := λ _, Some []; repo_objs := λ _, inr sources; track := inr;
  create := λ _, created; delete_answer := λ _, None; stops := λ _, false; overrides := inr None; store_answer := λ _, None;
  caches_ok := None; parse_time := λ _, None;
|}.

Definition all_finalizers : list string :=
  [PreDeleteFinalizerName; "other"; ResourcesFinalizerName; PostDeleteFinalizerName; cleanup PreDeleteFinalizerName].
Definition both_waves : gmap ResourceKey Unstructured := keyed [config "settings" "0"; config "web" "5"].

(** ** Instances *)

(** Two waves: the pass deletes the later one, and waits. *)
Lemma deletion_follows_stages_witness :
  let env := cluster_env (guestbook [ResourcesFinalizerName; "other"]) both_waves [] (inr home) Created in
  (∃ fs, follows env (guestbook [ResourcesFinalizerName; "other"]) project home [] [ResourcesFinalizerName; "other"]
           (finalizeApplicationDeletion env []).2 fs) ∧
  (finalizeApplicationDeletion env []).2 = [ListLive; DeleteObject (config "web" "5") false; ListLive].
Proof.
  intros env. split; [|vm_compute; reflexivity].
  apply (deletion_follows_stages env (guestbook [ResourcesFinalizerName; "other"]) project home); [reflexivity..|].
  apply (bool_decide_unpack _). vm_compute. exact I.
Defined.

(** Neighbours in the list are removed, although the array shrinks under the loop. *)
Lemma unknown_destination_releases_witness :
  let env := cluster_env (guestbook all_finalizers) both_waves [] (inl (mkErr ReasonNotFound "no such cluster")) Created in
  (∃ fs, (finalizeApplicationDeletion env []).2 = [StoreFinalizers fs] ∧
    fs ≡ₚ filter (λ f, isPropagationPolicyFinalizer f = false ∧ HasPrefix f PostDeleteFinalizerName = false ∧
                       HasPrefix f PreDeleteFinalizerName = false) all_finalizers) ∧
  (finalizeApplicationDeletion env []).2 = [StoreFinalizers ["other"]].
Proof.
  intros env. split; [|vm_compute; reflexivity].
  apply (unknown_destination_releases env (guestbook all_finalizers) project (mkErr ReasonNotFound "no such cluster")); reflexivity.
Defined.

(** *** Passes, one after another *)

Fixpoint run (i : nat) : deleted_app * gmap ResourceKey Unstructured :=
  match i with
  | 0 => (guestbook all_finalizers, both_waves)
  | S i => let '(da, live) := run i in
           let log := (finalizeApplicationDeletion (cluster_env da live [] (inr home) Created) []).2 in
           (with_finalizers (stored (Finalizers (App da)) log) da, after live log)
  end.
Definition env_at (i : nat) : deletion_env := cluster_env (run i).1 (run i).2 [] (inr home) Created.

Lemma run_S i : run (S i) =
  (with_finalizers (stored (Finalizers (App (run i).1)) (finalizeApplicationDeletion (env_at i) []).2) (run i).1,
   after (run i).2 (finalizeApplicationDeletion (env_at i) []).2).
Proof. unfold env_at. cbn [run]. by destruct (run i). Qed.

Lemma run_subseteq i : (run i).2 ⊆ both_waves.
Proof. induction i as [|i IH]; [done|]. rewrite run_S. cbn [snd]. etransitivity; [apply after_subseteq|exact IH]. Qed.

Lemma both_waves_well k o : both_waves !! k = Some o →
  GetResourceKey o = k ∧ GetDeletionTimestamp o = None ∧ isHookOfType o PreDeleteHookType = false ∧ isHookOfType o PostDeleteHookType = false.
Proof.
  intros H. revert k o H.
  change (map_Forall (λ k o, GetResourceKey o = k ∧ GetDeletionTimestamp o = None ∧ isHookOfType o PreDeleteHookType = false ∧
    isHookOfType o PostDeleteHookType = false) both_waves).
  apply (bool_decide_unpack _). vm_compute. exact I.
Qed.

Lemma run_status i : StatusResources (run i).1 = [].
Proof. induction i as [|i IH]; [done|]. by rewrite run_S. Qed.

Lemma run_cooperative i : cooperative (run i).1 project home (env_at i) (run i).2.
Proof.
  assert (∀ k o, (run i).2 !! k = Some o → GetResourceKey o = k ∧ GetDeletionTimestamp o = None ∧
    isHookOfType o PreDeleteHookType = false ∧ isHookOfType o PostDeleteHookType = false) as Hwell.
  { intros k o H. apply both_waves_well. by eapply lookup_weaken; [|apply run_subseteq]. }
  split; try done; try by intros k o H; apply (Hwell k o H).
  - by exists None.
  - intros log. exists []. split; [done|]. by intros o t ?%elem_of_nil.
  - intros obj. unfold permitted, IsResourcePermitted, IsDestinationPermitted. cbn [env_at cluster_env projectClusters].
    destruct (negb _); [by eexists|]. destruct (negb _); [|by eexists]. rewrite andb_false_r. by eexists.
  - intros k o [] H; apply (Hwell k o H).
  - intros k o _ H. unfold FindResource in H. by rewrite run_status in H.
Qed.

Lemma deletion_ends_witness :
  ∃ i, i ≤ 5 + size (run 0).2 ∧ stage_of (Finalizers (App (run i).1)) = None.
Proof.
  apply (deletion_ends project home env_at (λ i, (run i).1) (λ i, (run i).2)).
  - apply (bool_decide_unpack _). vm_compute. exact I.
  - exact run_cooperative.
  - intros i. reflexivity.
  - intros i. cbv beta. rewrite run_S. reflexivity.
  - intros i. cbv beta. rewrite run_S. reflexivity.
Defined.

(** The first pass runs the hooks and deletes the last wave, the second one the other wave;
    a stage goes with each of the next, and what remains is not the controller's. *)
Example passes_of_the_run :
  (finalizeApplicationDeletion (env_at 0) []).2 =
    [ListLive; GetRepoObjs;
     StoreFinalizers [cleanup PreDeleteFinalizerName; "other"; ResourcesFinalizerName; PostDeleteFinalizerName];
     ListLive; DeleteObject (config "web" "5") false; ListLive] ∧
  (finalizeApplicationDeletion (env_at 1) []).2 =
    [ListLive; DeleteObject (config "settings" "0") false; ListLive;
     StoreFinalizers [cleanup PreDeleteFinalizerName; "other"; PostDeleteFinalizerName]] ∧
  Finalizers (App (run 4).1) = ["other"] ∧ (run 4).2 = ∅ ∧
  (finalizeApplicationDeletion (env_at 4) []).2 = [ClearCaches; RefreshProject].
Proof. by vm_compute. Qed.

(** ** Behaviours at the edges *)

(** A hook that names no delete policy has [BeforeHookCreation], so the cleanup keeps it in
    any case; one that names a policy is deleted. *)
Example cleanup_without_policy h :
  cleaned_up h (hook "h" "PreDelete" "") = false ∧ cleaned_up HealthStatusHealthy (hook "h" "PreDelete" "HookSucceeded") = true.
Proof. destruct h; by vm_compute. Qed.

(** No hook is without a policy: the test for that in the cleanup never holds. *)
Lemma cleanup_policies obj : SyncCommon.DeletePolicies obj ≠ [].
Proof. unfold SyncCommon.DeletePolicies. by destruct (_ ++ _). Qed.

(** The cleanup is over although the hook is still there. *)
Example cleanup_leaves_hook :
  let live := keyed [hook "h" "PreDelete" ""] in
  (finalizeApplicationDeletion (cluster_env (guestbook [cleanup PreDeleteFinalizerName]) live [] (inr home) Created) []).2 =
    [ListLive; StoreFinalizers []].
Proof. by vm_compute. Qed.

(** A hook that someone else has put in the cluster, which this application does not list,
    counts as run: its health is not looked at. *)
Example foreign_hook_counts_as_run :
  let sources := [hook "h" "PreDelete" ""] in
  (finalizeApplicationDeletion (cluster_env (guestbook [PreDeleteFinalizerName]) ∅ sources (inr home) AlreadyExists) []).2 =
    [ListLive; GetRepoObjs; CreateHook (hook "h" "PreDelete" ""); StoreFinalizers []; ClearCaches; RefreshProject].
Proof. by vm_compute. Qed.

(** A hook that was created is waited for. *)
Example created_hook_is_waited_for :
  let sources := [hook "h" "PreDelete" ""] in
  (finalizeApplicationDeletion (cluster_env (guestbook [PreDeleteFinalizerName]) ∅ sources (inr home) Created) []).2 =
    [ListLive; GetRepoObjs; CreateHook (hook "h" "PreDelete" "")].
Proof. by vm_compute. Qed.

(** One object on its way out holds up all others, of any wave. *)
Example waits_for_deletions :
  let leaving := mkObj 0 (mkGVK "" "v1" "ConfigMap") "ConfigMap" "old" "prod" "" ∅ [] "old" "1" (Some 90%Z) [] (JObj []) in
  (finalizeApplicationDeletion
    (cluster_env (guestbook [ResourcesFinalizerName]) (keyed [leaving; config "web" "5"]) [] (inr home) Created) []).2 = [ListLive].
Proof. by vm_compute. Qed.

(** What is to be kept does not keep the finalizer. *)
Example kept_objects_stay :
  let kept := object "ConfigMap" "db" {["cd.hanzo.ai/sync-options" := "Delete=false"]} [] in
  (finalizeApplicationDeletion (cluster_env (guestbook [ResourcesFinalizerName]) (keyed [kept]) [] (inr home) Created) []).2 =
    [ListLive; ListLive; StoreFinalizers []].
Proof. by vm_compute. Qed.
End DeletionSample.
