(* ===== verification/Reconcile.v ===== *)
(** * Matching desired and live resources: [gitops-engine/pkg/sync/reconcile.go]

    [Reconcile] splits the desired objects into resources and hooks, drops
    duplicates of live objects that are served by several API groups, and pairs
    every desired resource with its live object; what stays unpaired is later
    offered for pruning, so a missed pair would delete a managed object.  The
    live objects are a map that the functions shrink in place; [None] is a nil
    pointer stored in that map. *)

From S2P Require Import Prelude GoStd Kube SyncCommon.

Local Open Scope string_scope.
Local Open Scope list_scope.

Notation live_map := (gmap ResourceKey (option Unstructured)).

(** [text.FirstNonEmpty] *)
Fixpoint FirstNonEmpty (args : list string) : string :=
  match args with
  | [] => ""
  | v :: r => if Nat.ltb 0 (String.length v) then v else FirstNonEmpty r
  end.

Fixpoint splitHooks (target : list (option Unstructured)) : list Unstructured * list Unstructured :=
  match target with
  | [] => ([], [])
  | None :: r => splitHooks r
  | Some obj :: r =>
      let '(targetObjs, hooks) := splitHooks r in
      if Ignore obj then (targetObjs, hooks)
      else if IsHook obj then (targetObjs, obj :: hooks)
      else (obj :: targetObjs, hooks)
  end.

(** The inner loop of [dedupLiveResources] over the objects of one UID *)
Fixpoint dedup_group (targetKeys : gset ResourceKey) (objs : list Unstructured)
    (duplicatesLeft : nat) (m : live_map) : live_map :=
  match objs with
  | [] => m
  | obj :: r =>
      let resourceKey := GetResourceKey obj in
      if bool_decide (resourceKey ∈ targetKeys) then dedup_group targetKeys r duplicatesLeft m
      else
        let m := delete resourceKey m in
        if Nat.eqb (duplicatesLeft - 1) 1 then m
        else dedup_group targetKeys r (duplicatesLeft - 1) m
  end.

(** [liveObjsById] *)
Definition add_by_id (b : gmap string (list Unstructured)) (kv : ResourceKey * option Unstructured)
    : gmap string (list Unstructured) :=
  match kv.2 with
  | Some obj => <[GetUID obj := default [] (b !! GetUID obj) ++ [obj]]> b
  | None => b
  end.

Definition liveObjsById `{GoRuntime} (m : live_map) : gmap string (list Unstructured) :=
  foldl add_by_id ∅ (go_range m).

Definition dedupLiveResources `{GoRuntime} (targetObjs : list Unstructured) (m : live_map) : live_map :=
  let targetKeys := list_to_set (GetResourceKey <$> targetObjs) in
  foldl (λ m io,
      if Nat.ltb 1 (length io.2) then dedup_group targetKeys io.2 (length io.2) m else m)
    m (go_range (liveObjsById m)).

Record ReconciliationResult : Type := mkReconciliation {
  rr_Live : list (option Unstructured);
  rr_Target : list (option Unstructured);
  rr_Hooks : list Unstructured }.

Section reconcile.
Context `{GoRuntime}.
(** [ResourceInfoProvider.IsNamespaced] of a group and a kind; [None]: error *)
Context (IsNamespaced : string → string → option bool) (namespace : string).

Definition keysToCheck (obj : Unstructured) : list ResourceKey :=
  let g := gvk obj in
  let ns := FirstNonEmpty [GetNamespace obj; namespace] in
  let r := IsNamespaced (Group g) (Kind g) in
  let unknownScope := match r with None => true | _ => false end in
  let namespaced := default false r in
  (if namespaced || unknownScope then [NewResourceKey (Group g) (Kind g) ns (GetName obj)] else []) ++
  (if negb namespaced || unknownScope then [NewResourceKey (Group g) (Kind g) "" (GetName obj)] else []).

(** The loop over the candidate keys of one object *)
Fixpoint find_managed (keys : list ResourceKey) (m : live_map) : option Unstructured * live_map :=
  match keys with
  | [] => (None, m)
  | key :: r =>
      match m !! key with
      | Some liveObj => (liveObj, delete key m)
      | None => find_managed r m
      end
  end.

Fixpoint match_targets (targetObjs : list Unstructured) (m : live_map)
    : list (option Unstructured) * live_map :=
  match targetObjs with
  | [] => ([], m)
  | obj :: r =>
      let '(live, m) := find_managed (keysToCheck obj) m in
      let '(lives, m) := match_targets r m in
      (live :: lives, m)
  end.

Definition Reconcile (target : list (option Unstructured)) (liveObjByKey : live_map) : ReconciliationResult :=
  let '(targetObjs, hooks) := splitHooks target in
  let m := dedupLiveResources targetObjs liveObjByKey in
  let '(managedLiveObj, rest) := match_targets targetObjs m in
  let left := (go_range rest).*2 in
  mkReconciliation (managedLiveObj ++ left) ((Some <$> targetObjs) ++ replicate (length left) None) hooks.
End reconcile.

(** ** The split *)

Lemma splitHooks_spec target :
  splitHooks target =
    (filter (λ o, IsHook o = false) (omap id target),
     filter (λ o, IsHook o = true ∧ Types o ≠ []) (omap id target)).
Proof.
  induction target as [|[o|] target IH]; [done| |done].
  cbn [splitHooks]. rewrite IH. cbn [omap list_omap id]. rewrite !filter_cons. unfold Ignore.
  destruct (IsHook o); cbn [andb].
  - destruct (Types o); simpl; repeat case_decide; naive_solver.
  - repeat case_decide; naive_solver.
Qed.

(** ** Duplicates *)

(** Every object of the map is stored under its own key. *)
Definition keyed (m : live_map) : Prop := ∀ k o, m !! k = Some (Some o) → k = GetResourceKey o.

Section dedup.
Context `{GoRuntime}.
Implicit Types (m : live_map) (tk : gset ResourceKey).

Lemma dedup_group_other tk objs left m k :
  k ∈ tk ∨ k ∉ GetResourceKey <$> objs → dedup_group tk objs left m !! k = m !! k.
Proof.
  revert left m; induction objs as [|o objs IH]; intros left m Hk; simpl; [done|].
  assert (Hk' : k ∈ tk ∨ k ∉ GetResourceKey <$> objs).
  { destruct Hk as [?|Hn]; [by left|right]. rewrite fmap_cons, not_elem_of_cons in Hn. tauto. }
  case_bool_decide as Ht; [by apply IH|].
  assert (GetResourceKey o ≠ k).
  { intros <-. destruct Hk as [?|Hn]; [done|]. rewrite fmap_cons, not_elem_of_cons in Hn. tauto. }
  case_match; [|rewrite IH by done]; by rewrite lookup_delete_ne.
Qed.

Lemma dedup_group_sub tk objs left m : dedup_group tk objs left m ⊆ m.
Proof.
  revert left m; induction objs as [|o objs IH]; intros left m; simpl; [done|].
  case_bool_decide; [apply IH|]. case_match; [apply delete_subseteq|].
  etransitivity; [apply IH|apply delete_subseteq].
Qed.

Lemma dedup_group_survivor tk objs m :
  (2 ≤ length objs)%nat → NoDup (GetResourceKey <$> objs) →
  (∀ o, o ∈ objs → m !! GetResourceKey o = Some (Some o)) →
  ∃ o, o ∈ objs ∧ dedup_group tk objs (length objs) m !! GetResourceKey o = Some (Some o).
Proof.
  revert m; induction objs as [|o objs IH]; intros m Hl Hnd Hm; simpl in Hl; [lia|].
  rewrite fmap_cons in Hnd. apply NoDup_cons in Hnd as [Hn Hnd].
  cbn [dedup_group length]. case_bool_decide as Ht.
  { exists o. split; [left|]. rewrite dedup_group_other by by left. apply Hm. left. }
  assert (Hm' : ∀ o', o' ∈ objs → delete (GetResourceKey o) m !! GetResourceKey o' = Some (Some o')).
  { intros o' Ho'. rewrite lookup_delete_ne; [apply Hm; by right|].
    intros E. apply Hn. rewrite E. by apply list_elem_of_fmap_2. }
  replace (S (length objs) - 1)%nat with (length objs) by lia.
  case_match eqn:E; breflect.
  - destruct objs as [|o' objs]; [simpl in Hl; lia|]. exists o'. split; [right; left|]. apply Hm'. left.
  - destruct (IH (delete (GetResourceKey o) m)) as (o'&Ho'&?); [lia|done..|].
    exists o'. split; [by right|done].
Qed.

(** *** Groups *)

Lemma add_by_id_lookup (l : list (ResourceKey * option Unstructured)) id :
  foldl add_by_id ∅ l !! id =
    match filter (λ o, GetUID o = id) (omap snd l) with [] => None | os => Some os end.
Proof.
  induction l as [|[k [o|]] l IH] using rev_ind; [done|..]; rewrite foldl_app, omap_app; simpl; unfold add_by_id at 1; simpl.
  - rewrite filter_app, filter_cons, filter_nil, lookup_insert. repeat case_decide; try done.
    + subst. rewrite IH. by destruct (filter _ (omap snd l)).
    + by rewrite app_nil_r.
  - by rewrite app_nil_r.
Qed.

Lemma liveObjsById_spec m id objs :
  keyed m → liveObjsById m !! id = Some objs →
  NoDup (GetResourceKey <$> objs) ∧
  ∀ o, o ∈ objs ↔ m !! GetResourceKey o = Some (Some o) ∧ GetUID o = id.
Proof.
  intros Hk. unfold liveObjsById. rewrite add_by_id_lookup. set (l := go_range m). intros E.
  assert (Ho : objs = filter (λ o, GetUID o = id) (omap snd l)).
  { by destruct (filter _ (omap snd l)); simplify_eq. }
  assert (Hin : ∀ o, o ∈ omap snd l ↔ m !! GetResourceKey o = Some (Some o)).
  { intros o. rewrite list_elem_of_omap. split.
    - intros ([k v]&Hkv%elem_of_go_range&Hv). simpl in Hv; subst v.
      by rewrite <- (Hk _ _ Hkv).
    - intros Ho'. exists (GetResourceKey o, Some o). split; [by apply elem_of_go_range|done]. }
  split; [|intros o; rewrite Ho, list_elem_of_filter, Hin; tauto].
  assert (Hnd : NoDup (GetResourceKey <$> omap snd l)).
  { apply (sublist_NoDup _ l.*1); [apply go_range_NoDup_fst|].
    assert (Hall : ∀ k o, (k, Some o) ∈ l → k = GetResourceKey o).
    { intros k o Hko. apply Hk. by apply elem_of_go_range. }
    clearbody l. clear - Hall. induction l as [|[k [o|]] l IH]; simpl; [constructor|..].
    - rewrite (Hall k o) by left. apply sublist_skip, IH. intros. apply Hall. by right.
    - apply sublist_cons, IH. intros. apply Hall. by right. }
  rewrite Ho. eapply sublist_NoDup; [exact Hnd|]. apply fmap_sublist, sublist_filter.
Qed.

(** *** The whole pass *)

Definition dedup_step tk (m : live_map) (io : string * list Unstructured) : live_map :=
  if Nat.ltb 1 (length io.2) then dedup_group tk io.2 (length io.2) m else m.

Lemma dedup_step_other tk m io k :
  k ∈ tk ∨ k ∉ GetResourceKey <$> io.2 → dedup_step tk m io !! k = m !! k.
Proof. intros Hk. unfold dedup_step. case_match; [by apply dedup_group_other|done]. Qed.

Lemma dedup_fold_other tk L m k :
  k ∈ tk ∨ (∀ io, io ∈ L → k ∉ GetResourceKey <$> io.2) → foldl (dedup_step tk) m L !! k = m !! k.
Proof.
  revert m; induction L as [|io L IH]; intros m Hk; simpl; [done|].
  rewrite IH by (destruct Hk as [?|Hk]; [by left|right; intros io' ?; apply Hk; by right]).
  apply dedup_step_other. destruct Hk as [?|Hk]; [by left|right]. apply Hk. left.
Qed.

Lemma dedup_fold_sub tk L m : foldl (dedup_step tk) m L ⊆ m.
Proof.
  revert m; induction L as [|io L IH]; intros m; simpl; [done|].
  etransitivity; [apply IH|]. unfold dedup_step. case_match; [apply dedup_group_sub|done].
Qed.

(** Some object of every UID survives. *)
Lemma dedup_survivor targetObjs m k o :
  keyed m → m !! k = Some (Some o) →
  ∃ o', dedupLiveResources targetObjs m !! GetResourceKey o' = Some (Some o') ∧ GetUID o' = GetUID o.
Proof.
  intros Hk Hm. pose proof (Hk _ _ Hm) as ->.
  set (tk := list_to_set (GetResourceKey <$> targetObjs) : gset ResourceKey).
  assert (∃ objs, liveObjsById m !! GetUID o = Some objs) as [objs Hobjs].
  { unfold liveObjsById. rewrite add_by_id_lookup.
    assert (o ∈ filter (λ o', GetUID o' = GetUID o) (omap snd (go_range m))) as Hin.
    { apply list_elem_of_filter. split; [done|]. apply list_elem_of_omap.
      exists (GetResourceKey o, Some o). by rewrite elem_of_go_range. }
    destruct (filter _ _); [by apply not_elem_of_nil in Hin|by eexists]. }
  pose proof (liveObjsById_spec m _ _ Hk Hobjs) as [Hnd Hin].
  assert (o ∈ objs) as Ho by by apply Hin.
  assert ((GetUID o, objs) ∈ go_range (liveObjsById m)) as HL by by apply elem_of_go_range.
  pose proof (go_range_NoDup_fst (liveObjsById m)) as HN.
  apply list_elem_of_split in HL as (L1&L2&HL).
  assert (Hother : ∀ io o', io ∈ L1 ∨ io ∈ L2 → o' ∈ objs → GetResourceKey o' ∉ GetResourceKey <$> io.2).
  { intros [id' objs'] o' Hio Ho'. simpl. intros (o''&Ek&Ho'')%list_elem_of_fmap.
    assert (liveObjsById m !! id' = Some objs') as Hid'.
    { apply elem_of_go_range. rewrite HL, elem_of_app, elem_of_cons. tauto. }
    apply (liveObjsById_spec m _ _ Hk Hid') in Ho'' as [Hl'' Hu'']. apply Hin in Ho' as [Hl' Hu'].
    assert (id' = GetUID o) as -> by congruence.
    rewrite HL, fmap_app, fmap_cons in HN. apply NoDup_app in HN as (_&HN1&HN2).
    apply NoDup_cons in HN2 as [HN2 _]. destruct Hio as [Hio|Hio]; apply (list_elem_of_fmap_2 fst) in Hio; simpl in Hio.
    - apply (HN1 _ Hio). left.
    - done. }
  change (dedupLiveResources targetObjs m) with (foldl (dedup_step tk) m (go_range (liveObjsById m))).
  rewrite HL, foldl_app. simpl. set (m1 := foldl (dedup_step tk) m L1).
  assert (Hm1 : ∀ o', o' ∈ objs → m1 !! GetResourceKey o' = Some (Some o')).
  { intros o' Ho'. unfold m1. rewrite dedup_fold_other; [by apply Hin|]. right. intros io ?. by apply Hother; [left|]. }
  assert (∃ o', o' ∈ objs ∧ dedup_step tk m1 (GetUID o, objs) !! GetResourceKey o' = Some (Some o')) as (o'&Ho'&Hl').
  { unfold dedup_step; simpl. case_match eqn:E; breflect.
    - apply dedup_group_survivor; [lia|done..].
    - exists o. split; [done|by apply Hm1]. }
  exists o'. split; [|by apply Hin]. rewrite dedup_fold_other; [done|].
  right. intros io ?. by apply Hother; [right|].
Qed.
End dedup.

(** [dedupLiveResources] only drops redundant views of an object: the map
    shrinks, entries for objects that are in git and nil entries stay, and for
    every object of the original map, dropped or not, an object with the same
    UID is still there. *)
Theorem dedupLiveResources_correct `{GoRuntime} (targetObjs : list Unstructured) (m : live_map) :
  keyed m →
  let m' := dedupLiveResources targetObjs m in
  m' ⊆ m ∧
  (∀ t, t ∈ targetObjs → m' !! GetResourceKey t = m !! GetResourceKey t) ∧
  (∀ k, m !! k = Some None → m' !! k = Some None) ∧
  (∀ k o, m !! k = Some (Some o) → ∃ k' o', m' !! k' = Some (Some o') ∧ GetUID o' = GetUID o).
Proof.
  intros Hk m'. split_and!.
  - apply dedup_fold_sub.
  - intros t Ht. apply dedup_fold_other. left.
    apply elem_of_list_to_set. by apply list_elem_of_fmap_2.
  - intros k Hkn. transitivity (m !! k); [|done]. apply dedup_fold_other. right.
    intros [id objs] Hio%elem_of_go_range Hin. simpl in Hin.
    apply list_elem_of_fmap in Hin as (o&->&Ho).
    apply (liveObjsById_spec m _ _ Hk Hio) in Ho as [Ho _]. congruence.
  - intros k o Ho. destruct (dedup_survivor targetObjs m k o Hk Ho) as (o'&?&?).
    by exists (GetResourceKey o'), o'.
Qed.

Definition dup_a : Unstructured :=
  mkObj 1 (mkGVK "apps" "v1" "Deployment") "Deployment" "web" "ns" "" ∅ [] "u1" "" None [] JNull.
Definition dup_b : Unstructured :=
  mkObj 2 (mkGVK "extensions" "v1beta1" "Deployment") "Deployment" "web" "ns" "" ∅ [] "u1" "" None [] JNull.
Definition dup_map : live_map :=
  <[GetResourceKey dup_a := Some dup_a]> (<[GetResourceKey dup_b := Some dup_b]> ∅).

Lemma dup_map_keyed : keyed dup_map.
Proof.
  intros k o. unfold dup_map. rewrite !lookup_insert_Some, lookup_empty. naive_solver.
Qed.

Lemma dedupLiveResources_correct_witness :
  let _ := reference_runtime in
  dedupLiveResources [dup_a] dup_map ⊆ dup_map ∧
  dedupLiveResources [dup_a] dup_map !! GetResourceKey dup_b = None.
Proof.
  intros rt. split.
  - exact (proj1 (@dedupLiveResources_correct rt [dup_a] dup_map dup_map_keyed)).
  - vm_compute. reflexivity.
Defined.

(** ** Pairing *)

Section pairing.
Context `{GoRuntime} (IsNamespaced : string → string → option bool) (namespace : string).
Implicit Types m : live_map.

Definition live_values m : list Unstructured := omap snd (map_to_list m).

Lemma omap_values {K V} (l : list (K * option V)) : omap id l.*2 = omap snd l.
Proof. induction l as [|[k [v|]] l IH]; simpl; [done|f_equal; exact IH|exact IH]. Qed.

Lemma live_values_delete m k v :
  m !! k = Some v → live_values m ≡ₚ option_list v ++ live_values (delete k m).
Proof.
  intros Hm. unfold live_values. rewrite <- (map_to_list_delete m k v) by done. simpl.
  by destruct v.
Qed.

Lemma find_managed_spec keys m :
  let '(o, m') := find_managed keys m in
  m' ⊆ m ∧ live_values m ≡ₚ option_list o ++ live_values m' ∧
  (∀ k, keys = [k] → m' !! k = None) ∧
  (∀ u, o = Some u → ∃ k, k ∈ keys ∧ m !! k = Some (Some u)).
Proof.
  induction keys as [|k keys IH]; simpl; [split_and!; naive_solver|].
  destruct (m !! k) as [v|] eqn:E.
  - split_and!; [apply delete_subseteq|by apply live_values_delete| |].
    + intros ? [= -> _]. apply lookup_delete_eq.
    + intros u ->. exists k. split; [left|done].
  - destruct (find_managed keys m) as [o m'] eqn:Ef. destruct IH as (H1&H2&H3&H4). split_and!; [done..| |].
    + intros ? [= -> ->]. simpl in Ef. congruence.
    + intros u Hu. destruct (H4 u Hu) as (k'&?&?). exists k'. split; [by right|done].
Qed.

Lemma match_targets_spec ts m :
  let '(lives, m') := match_targets IsNamespaced namespace ts m in
  length lives = length ts ∧ m' ⊆ m ∧
  live_values m ≡ₚ omap id lives ++ live_values m' ∧
  (∀ t k, t ∈ ts → keysToCheck IsNamespaced namespace t = [k] → m' !! k = None) ∧
  (∀ i t u, ts !! i = Some t → lives !! i = Some (Some u) →
     ∃ k, k ∈ keysToCheck IsNamespaced namespace t ∧ m !! k = Some (Some u)).
Proof.
  revert m; induction ts as [|t ts IH]; intros m; simpl.
  { split_and!; [done..| |]; [intros ? ? Hn; by apply not_elem_of_nil in Hn|done]. }
  pose proof (find_managed_spec (keysToCheck IsNamespaced namespace t) m) as Hf.
  destruct (find_managed _ m) as [o m1]. destruct Hf as (F1&F2&F3&F4). specialize (IH m1).
  destruct (match_targets IsNamespaced namespace ts m1) as [lives m2]. destruct IH as (I1&I2&I3&I4&I5).
  split_and!.
  - simpl; lia.
  - by etransitivity.
  - rewrite F2, I3. destruct o; done.
  - intros t' k [->|Ht']%elem_of_cons Hk; [|by eapply I4].
    specialize (F3 k Hk). destruct (m2 !! k) eqn:E; [|done]. by rewrite (lookup_weaken _ _ _ _ E I2) in F3.
  - intros [|i] t' u Ht' Hu; simplify_eq/=; [by apply F4|].
    destruct (I5 i t' u Ht' Hu) as (k&?&Hk). exists k. split; [done|]. by eapply lookup_weaken.
Qed.

Lemma Reconcile_unfold target m :
  let ts := (splitHooks target).1 in
  let d := dedupLiveResources ts m in
  let lm := match_targets IsNamespaced namespace ts d in
  Reconcile IsNamespaced namespace target m =
    mkReconciliation (lm.1 ++ (go_range lm.2).*2)
      ((Some <$> ts) ++ replicate (length (go_range lm.2).*2) None) (splitHooks target).2.
Proof.
  unfold Reconcile. destruct (splitHooks target) as [ts hs]; simpl.
  by destruct (match_targets _ _ _ _).
Qed.
End pairing.

(** C22. [Reconcile] pairs the desired resources with the live ones: targets and
    lives have the same length; the paired targets are exactly the desired
    objects that are not hooks, followed by empty targets; the hooks are the
    hook objects of a supported type; every live object left after removing
    duplicates occurs exactly once; a target is only paired with a live object
    found under one of its own keys; and a live object with no target, the
    candidate for pruning, never has the key of a desired object of known
    scope. *)
Theorem Reconcile_correct `{GoRuntime} (IsNamespaced : string → string → option bool) (namespace : string)
    (target : list (option Unstructured)) (m : live_map) :
  keyed m →
  let r := Reconcile IsNamespaced namespace target m in
  let wanted := filter (λ o, IsHook o = false) (omap id target) in
  let d := dedupLiveResources wanted m in
  length (rr_Target r) = length (rr_Live r) ∧
  (∃ n, rr_Target r = (Some <$> wanted) ++ replicate n None) ∧
  rr_Hooks r = filter (λ o, IsHook o = true ∧ Types o ≠ []) (omap id target) ∧
  omap id (rr_Live r) ≡ₚ omap snd (map_to_list d) ∧
  (∀ i t u, rr_Target r !! i = Some (Some t) → rr_Live r !! i = Some (Some u) →
     GetResourceKey u ∈ keysToCheck IsNamespaced namespace t) ∧
  (∀ i u t k, rr_Target r !! i = Some None → rr_Live r !! i = Some (Some u) →
     t ∈ wanted → keysToCheck IsNamespaced namespace t = [k] → GetResourceKey u ≠ k).
Proof.
  intros Hk r wanted d. unfold r. rewrite Reconcile_unfold, splitHooks_spec. cbn [fst snd].
  fold wanted d. pose proof (match_targets_spec IsNamespaced namespace wanted d) as Hm.
  destruct (match_targets IsNamespaced namespace wanted d) as [lives rest]. cbn [fst snd rr_Live rr_Target rr_Hooks].
  destruct Hm as (Hlen&Hsub&Hval&Hfree&Hown).
  assert (Hd : d ⊆ m) by apply dedup_fold_sub.
  split_and!.
  - rewrite !length_app, !length_fmap, length_replicate. lia.
  - by eexists.
  - done.
  - rewrite omap_app. fold (live_values d). rewrite Hval. apply Permutation_app_head.
    unfold live_values. rewrite <- (go_range_perm rest). by rewrite omap_values.
  - intros i t u Ht Hu. destruct (decide (i < length wanted)%nat) as [Hi|Hi].
    + rewrite lookup_app_l in Ht by by rewrite length_fmap. rewrite lookup_app_l in Hu by lia.
      rewrite list_lookup_fmap in Ht. destruct (wanted !! i) as [t'|] eqn:Et; simplify_eq/=.
      destruct (Hown i t u Et Hu) as (k&Hin&Hl). by rewrite <- (Hk k u) by by eapply lookup_weaken.
    + rewrite lookup_app_r in Ht by (rewrite length_fmap; lia).
      apply lookup_replicate in Ht as [? _]. done.
  - intros i u t k Ht Hu Hwant Hkeys <-. destruct (decide (i < length wanted)%nat) as [Hi|Hi].
    + rewrite lookup_app_l in Ht by by rewrite length_fmap.
      rewrite list_lookup_fmap in Ht. by destruct (wanted !! i); simplify_eq/=.
    + rewrite lookup_app_r in Hu by lia.
      apply list_elem_of_lookup_2, list_elem_of_fmap in Hu as ([k v]&Hv&Hin%elem_of_go_range). simpl in Hv; subst v.
      rewrite <- (Hk k u) in Hkeys by (eapply lookup_weaken; [exact Hin|by etransitivity]).
      by rewrite (Hfree t k Hwant Hkeys) in Hin.
Qed.

Lemma Reconcile_correct_witness :
  let _ := reference_runtime in
  let r := Reconcile (λ _ _, Some true) "ns" [Some dup_a] dup_map in
  length (rr_Target r) = length (rr_Live r) ∧ rr_Live r = [Some dup_a].
Proof.
  intros rt. split.
  - exact (proj1 (@Reconcile_correct rt (λ _ _, Some true) "ns" [Some dup_a] dup_map dup_map_keyed)).
  - vm_compute. reflexivity.
Defined.
