(* ===== verification/SyncState.v ===== *)
(** * State of a sync operation and its primitive steps

    [gitops-engine/pkg/sync/sync_context.go], first part: the fields of
    [syncContext], the calls it makes to the cluster, the recording of results
    and the operations on one task.  The fields that a sync only reads form the
    record [settings]; the ones it writes, together with the task store and the
    log of calls, form [sc_state]. *)

From S2P Require Import Prelude GoStd Kube SyncCommon SyncTask Health.

Local Open Scope string_scope.
Local Open Scope list_scope.

(** ** Calls to the cluster *)

Inductive DryRunStrategy : Type := DryRunNone | DryRunClient.

#[export] Instance DryRunStrategy_eq_dec : EqDecision DryRunStrategy.
Proof. solve_decision. Defined.

(** One constructor per call the sync makes through its client interfaces. *)
Inductive request : Type :=
  | ReqDiscover (groupVersion : string)
  | ReqGet (g : GroupVersionKind) (ns name : string)
  | ReqUpdate (o : Unstructured) (ns : string)
  | ReqDelete (g : GroupVersionKind) (ns name policy : string)
  | ReqPatch (g : GroupVersionKind) (ns name data : string)
  | ReqGetCRD (name : string)
  | ReqKubectlGet (g : GroupVersionKind) (name : string)
  | ReqKubectlDelete (g : GroupVersionKind) (name ns policy : string)
  | ReqApply (o : Unstructured) (dry : DryRunStrategy) (force validate ssa : bool) (manager : string)
  | ReqReplace (o : Unstructured) (dry : DryRunStrategy) (force : bool)
  | ReqCreate (o : Unstructured) (dry : DryRunStrategy) (validate : bool)
  | ReqUpdateResource (o : Unstructured) (dry : DryRunStrategy)
  | ReqWaveHook (p : SyncPhase) (wave : Z) (final : bool).

Definition answer (r : request) : Type :=
  match r with
  | ReqDiscover _ => (list APIResource + error)%type
  | ReqGet _ _ _ | ReqKubectlGet _ _ => (Unstructured + error)%type
  | ReqGetCRD _ => (list (string * string) + error)%type
  | ReqApply _ _ _ _ _ _ | ReqReplace _ _ _ | ReqCreate _ _ _ => (string * option error)%type
  | _ => option error
  end.

(** Requests that can change the cluster. *)
Definition mutating (r : request) : bool :=
  match r with
  | ReqUpdate _ _ | ReqDelete _ _ _ _ | ReqPatch _ _ _ _ | ReqKubectlDelete _ _ _ _ => true
  | ReqApply _ dry _ _ _ _ | ReqReplace _ dry _ | ReqCreate _ dry _ | ReqUpdateResource _ dry =>
      bool_decide (dry = DryRunNone)
  | _ => false
  end.

(** The environment of a sync.  Answers may depend on the whole history of
    calls, so that any behaviour of the API server over time is covered. *)
Class Cluster : Type := {
  api : list request → ∀ r : request, answer r;
  (** [retry.DefaultRetry.Steps - 1]: attempts after the first one *)
  retries : nat;
  (** polls of [wait.PollUntilContextTimeout] before the CRD readiness timeout *)
  crd_polls : nat;
  (** [csaupgrade.UpgradeManagedFieldsPatch]; [None]: nothing to migrate *)
  UpgradeManagedFieldsPatch : Unstructured → string → string → option string + error;
  (** [kube.ToUnstructured] of a namespace struct with the given name *)
  namespaceObj : string → Unstructured + error;
  not_found_text : GroupVersionKind → string → string;
  not_supported_text : GroupVersionKind → string → string;
}.

(** ** [syncContext] *)

Record reconciledResource : Type := mkRec {
  Target : option Unstructured; Live : option Unstructured }.

Record settings : Type := mkSettings {
  healthOverride : option HealthOverride;
  permissionValidator : Unstructured → APIResource → option error;
  hooks : list Unstructured;
  sc_namespace : string;
  dryRun : bool;
  skipDryRunOnMissingResource : bool;
  force : bool;
  validate : bool;
  skipHooks : bool;
  resourcesFilter : option (ResourceKey → option Unstructured → option Unstructured → bool);
  prune : bool;
  replace : bool;
  serverSideApply : bool;
  serverSideApplyManager : string;
  pruneLast : bool;
  prunePropagationPolicy : option string;
  pruneConfirmed : bool;
  defaultPruneOption : option string;
  clientSideApplyMigrationManager : string;
  enableClientSideApplyMigration : bool;
  startedAt : Z;
  revision : string;
  (* the callback also edits the namespace object it is given *)
  syncNamespace : option (Unstructured → option Unstructured → Unstructured * (bool + error));
  syncWaveHook : bool;                       (* a wave hook is installed *)
  applyOutOfSyncOnly : bool;
  modificationResult : gmap ResourceKey bool;
}.

Record sc_state : Type := mkState {
  resources : gmap ResourceKey reconciledResource;
  syncRes : gmap string ResourceSyncResult;
  sc_phase : OperationPhase;
  sc_message : string;
  tasks : heap;
  fresh : nat;                               (* next unused location / object identity *)
  trace : list request;                      (* calls made so far, oldest first *)
}.

Notation M := (ST sc_state).

Definition set_resources f (s : sc_state) : sc_state :=
  mkState (f (resources s)) (syncRes s) (sc_phase s) (sc_message s) (tasks s) (fresh s) (trace s).
Definition set_syncRes f (s : sc_state) : sc_state :=
  mkState (resources s) (f (syncRes s)) (sc_phase s) (sc_message s) (tasks s) (fresh s) (trace s).
Definition set_op p m (s : sc_state) : sc_state :=
  mkState (resources s) (syncRes s) p m (tasks s) (fresh s) (trace s).
Definition set_tasks f (s : sc_state) : sc_state :=
  mkState (resources s) (syncRes s) (sc_phase s) (sc_message s) (f (tasks s)) (fresh s) (trace s).
Definition set_fresh f (s : sc_state) : sc_state :=
  mkState (resources s) (syncRes s) (sc_phase s) (sc_message s) (tasks s) (f (fresh s)) (trace s).
Definition set_trace f (s : sc_state) : sc_state :=
  mkState (resources s) (syncRes s) (sc_phase s) (sc_message s) (tasks s) (fresh s) (f (trace s)).

(** ** Primitive operations *)

Definition get_heap : M heap := s ← st_get; mret (tasks s).
Definition get_task (l : loc) : M syncTask := h ← get_heap; mret (deref h l).
Definition put_task (l : loc) (t : syncTask) : M unit := st_modify (set_tasks (insert l t)).
Definition update_task (l : loc) (g : syncTask → syncTask) : M unit :=
  t ← get_task l; put_task l (g t).
Definition new_id : M nat := s ← st_get; st_modify (set_fresh S) ;; mret (fresh s).

(** [&syncTask{...}] *)
Definition alloc (t : syncTask) : M loc := l ← new_id; put_task l t ;; mret l.

(** [setOperationPhase] *)
Definition setOperationPhase (p : OperationPhase) (m : string) : M unit := st_modify (set_op p m).

Definition set_result_fields (st : ResultCode) (op : OperationPhase) (m : string) (t : syncTask) : syncTask :=
  mkTask (phase t) (liveObj t) (targetObj t) (skipDryRun t) st op
    (if String.eqb m "" then message t else m) (waveOverride t).

Definition set_live (o : option Unstructured) (t : syncTask) : syncTask :=
  mkTask (phase t) o (targetObj t) (skipDryRun t) (syncStatus t) (operationState t) (message t) (waveOverride t).

Definition set_target (o : option Unstructured) (t : syncTask) : syncTask :=
  mkTask (phase t) (liveObj t) o (skipDryRun t) (syncStatus t) (operationState t) (message t) (waveOverride t).

Definition set_skipDryRun (t : syncTask) : syncTask :=
  mkTask (phase t) (liveObj t) (targetObj t) true (syncStatus t) (operationState t) (message t) (waveOverride t).

Definition set_wave (w : Z) (t : syncTask) : syncTask :=
  mkTask (phase t) (liveObj t) (targetObj t) (skipDryRun t) (syncStatus t) (operationState t) (message t) (Some w).

(** The new content of [syncRes] after recording a task's result. *)
Definition record_result (t : syncTask) (m : gmap string ResourceSyncResult) : gmap string ResourceSyncResult :=
  match m !! resultKey t with
  | Some e =>
      <[resultKey t := mkResult (res_ResourceKey e) (res_Images e) (res_Version e) (res_Order e)
          (syncStatus t) (message t) (res_HookType e) (operationState t) (res_SyncPhase e)]> m
  | None =>
      <[resultKey t := mkResult (GetResourceKey (obj t)) (GetResourceImages (obj t)) (version t)
          (Z.of_nat (size m) + 1) (syncStatus t) (message t) (hookType t) (operationState t) (phase t)]> m
  end.

Definition setResourceResult (l : loc) (st : ResultCode) (op : OperationPhase) (m : string) : M unit :=
  update_task l (set_result_fields st op m) ;;
  t ← get_task l;
  st_modify (set_syncRes (record_result t)).

(** A live object is shared by the tasks and the resource map that point to
    it: an edit reaches every alias. *)
Definition edit_ptr (p : nat) (f : Unstructured → Unstructured) (o : option Unstructured) : option Unstructured :=
  match o with
  | Some u => if Nat.eqb (ptr u) p then Some (f u) else Some u
  | None => None
  end.

Definition mutate_live (p : nat) (f : Unstructured → Unstructured) : M unit :=
  st_modify (λ s,
    set_tasks (fmap (λ t, set_live (edit_ptr p f (liveObj t)) t))
      (set_resources (fmap (λ r, mkRec (Target r) (edit_ptr p f (Live r)))) s)).

Definition started : M bool := s ← st_get; mret (Nat.ltb 0 (size (syncRes s))).

Section calls.
Context `{Cluster} (sc : settings).

Definition call (r : request) : M (answer r) :=
  s ← st_get;
  st_modify (set_trace (λ t, t ++ [r])) ;;
  mret (api (trace s) r).

(** [retry.OnError]: at most [n] more attempts while the error is retriable. *)
Fixpoint retry_on {A} (n : nat) (retriable : A → bool) (m : M A) : M A :=
  r ← m;
  match n with
  | O => mret r
  | S n' => if retriable r then retry_on n' retriable m else mret r
  end.

Definition is_conflict (e : option error) : bool :=
  match e with Some e => IsConflict e | None => false end.

Definition discover (g : GroupVersionKind) (verb : string) : M (APIResource + error) :=
  rs ← call (ReqDiscover (gv_string g));
  mret (ServerResourceForGroupVersionKind not_found_text not_supported_text g verb rs).

(** [getResourceIf]: the namespace the client will use. *)
Definition getResourceIf (t : syncTask) (verb : string) : M (string + error) :=
  r ← discover (gvk (obj t)) verb;
  match r with
  | inr err => mret (inr (wrap "failed to get api resource: " err))
  | inl res => mret (inl (if res_Namespaced res then namespace t else ""))
  end.

Definition getResource (l : loc) : M (Unstructured + error) :=
  t ← get_task l;
  resIf ← getResourceIf t "get";
  match resIf with
  | inr err => mret (inr err)
  | inl ns =>
      r ← call (ReqGet (gvk (obj t)) ns (name t));
      match r with
      | inr err => mret (inr (wrap "failed to get resource: " err))
      | inl o => p ← new_id; mret (inl (with_ptr p o))
      end
  end.

Definition updateResource (l : loc) : M (option error) :=
  t ← get_task l;
  resIf ← getResourceIf t "update";
  match resIf with
  | inr err => mret (Some err)
  | inl ns =>
      r ← call (ReqUpdate (default nil_obj (liveObj t)) ns);
      mret (wrap "failed to update resource: " <$> r)
  end.

(** [getDeleteOptions] *)
Definition propagationPolicy : string := default "Foreground" (prunePropagationPolicy sc).

Definition deleteResource (l : loc) : M (option error) :=
  t ← get_task l;
  resIf ← getResourceIf t "delete";
  match resIf with
  | inr err => mret (Some err)
  | inl ns =>
      r ← call (ReqDelete (gvk (obj t)) ns (name t) propagationPolicy);
      mret (wrap "failed to delete resource: " <$> r)
  end.

(** The finalizers without the first hook finalizer, if there is one. *)
Fixpoint remove_first_finalizer (fs : list string) : option (list string) :=
  match fs with
  | [] => None
  | f :: r => if String.eqb f HookFinalizer then Some r else cons f <$> remove_first_finalizer r
  end.

(** One attempt of [removeHookFinalizer] *)
Definition remove_finalizer_once (l : loc) : M (option error) :=
  t ← get_task l;
  match liveObj t with
  | None => mret None
  | Some live =>
      match remove_first_finalizer (GetFinalizers live) with
      | None => mret None
      | Some fs =>
          mutate_live (ptr live) (SetFinalizers fs) ;;
          updateErr ← updateResource l;
          match updateErr with
          | None => mret None
          | Some e =>
              if IsConflict e then
                r ← getResource l;
                match r with
                | inr err =>
                    if IsNotFound err then mret None
                    else mret (Some (wrap "failed to get resource: " err))
                | inl o =>
                    update_task l (set_live (Some o)) ;;
                    mret (Some (wrap "failed to update resource: " e))
                end
              else if IsNotFound e then mret None
              else mret (Some (wrap "failed to update resource: " e))
          end
      end
  end.

Definition removeHookFinalizer (l : loc) : M (option error) :=
  t ← get_task l;
  if has_live t then retry_on retries is_conflict (remove_finalizer_once l) else mret None.

(** [deleteHooks] *)
Definition deleteHooks (ls : list loc) : M unit :=
  st_for ls (λ l,
    err ← deleteResource l;
    match err with
    | Some e =>
        if IsNotFound e then mret tt
        else
          t ← get_task l;
          setResourceResult l (syncStatus t) OperationError ("failed to delete resource: " +:+ Error e)
    | None => mret tt
    end).

(** *** Pruning *)

Definition prune_option (o : option Unstructured) : option string :=
  match o ≫= λ u, GetAnnotationOptionValue u AnnotationSyncOptions SyncOptionPrune with
  | Some v => Some v
  | None => defaultPruneOption sc
  end.

Definition objRequiresPruneConfirmation (o : option Unstructured) : bool :=
  match prune_option o with Some v => String.eqb v SyncValueConfirm | None => false end.

Definition isPruningDisabled (o : option Unstructured) : bool :=
  match prune_option o with Some v => String.eqb v SyncValueFalse | None => false end.

Definition is_deleting (o : Unstructured) : bool :=
  match GetDeletionTimestamp o with Some ts => negb (ts =? 0)%Z | None => false end.

Definition pruneObject (l : loc) (prune dry : bool) : M (ResultCode * string) :=
  t ← get_task l;
  let live := liveObj t in
  if negb prune then mret (ResultCodePruneSkipped, "ignored (requires pruning)")
  else if isPruningDisabled live then mret (ResultCodePruneSkipped, "ignored (no prune)")
  else if dry then mret (ResultCodePruned, "pruned (dry run)")
  else
    let o := default nil_obj live in
    if negb (is_deleting o) then
      err ← call (ReqKubectlDelete (gvk o) (GetName o) (GetNamespace o) propagationPolicy);
      match err with
      | Some e => mret (ResultCodeSyncFailed, Error e)
      | None => mret (ResultCodePruned, "pruned")
      end
    else mret (ResultCodePruned, "pruned").

(** *** Applying *)

Definition shouldUseServerSideApply (target : Unstructured) (dry : bool) : bool :=
  if dryRun sc || dry then false
  else if HasAnnotationOption target AnnotationSyncOptions SyncOptionDisableServerSideApply then false
  else serverSideApply sc || HasAnnotationOption target AnnotationSyncOptions SyncOptionServerSideApply.

Definition needsClientSideApplyMigration (live : option Unstructured) (fieldManager : string) : bool :=
  match live with
  | None => false
  | Some o =>
      if String.eqb fieldManager "" then false
      else existsb (λ f, String.eqb (Manager f) fieldManager && String.eqb (Operation f) "Update")
             (GetManagedFields o)
  end.

(** One attempt of the closure in [performCSAUpgradeMigration] *)
Definition csa_migrate_once (live : Unstructured) (ns csaFieldManager : string) : M (option error) :=
  r ← call (ReqGet (gvk live) ns (GetName live));
  match r with
  | inr e => mret (Some (wrap "failed to get fresh object for CSA migration: " e))
  | inl freshObj =>
      if negb (needsClientSideApplyMigration (Some freshObj) csaFieldManager) then mret None
      else
        match UpgradeManagedFieldsPatch freshObj csaFieldManager (serverSideApplyManager sc) with
        | inr e => mret (Some (wrap "failed to generate csaupgrade migration patch: " e))
        | inl None => mret None
        | inl (Some data) => call (ReqPatch (gvk live) ns (GetName live) data)
        end
  end.

Definition performCSAUpgradeMigration (live : Unstructured) (csaFieldManager : string) : M (option error) :=
  r ← discover (gvk live) "patch";
  match r with
  | inr err => mret (Some (wrap ("failed to get api resource for " +:+ gvk_string (gvk live) +:+ ": ") err))
  | inl res =>
      let ns := if res_Namespaced res then GetNamespace live else "" in
      retry_on retries is_conflict (csa_migrate_once live ns csaFieldManager)
  end.

(** [ensureCRDReady]: polls until the [Established] condition is found true,
    the call fails, or the timeout is reached; the outcome is only logged. *)
Fixpoint ensureCRDReady (n : nat) (crd : string) : M bool :=
  match n with
  | O => mret false
  | S n' =>
      r ← call (ReqGetCRD crd);
      match r with
      | inr _ => mret false
      | inl conds =>
          match List.find (λ c, String.eqb c.1 "Established") conds with
          | Some c => if String.eqb c.2 "True" then mret true else ensureCRDReady n' crd
          | None => ensureCRDReady n' crd
          end
      end
  end.

Definition opt_has (o : option Unstructured) (opt : string) : bool :=
  match o with Some u => HasAnnotationOption u AnnotationSyncOptions opt | None => false end.

(** [%s] of a [ResourceKey] value: the struct format, because [String] is a
    method of the pointer type. *)
Definition ResourceKey_fmt (k : ResourceKey) : string :=
  "{" +:+ Join [key_Group k; key_Kind k; key_Namespace k; key_Name k] " " +:+ "}".

(** The call that brings the target to the cluster: create, update in place,
    replace or apply. *)
Definition apply_call (t : syncTask) (target : Unstructured) (strategy : DryRunStrategy)
    (shouldReplace force_ validate_ ssa : bool) : M (string * option error) :=
  if shouldReplace then
    match liveObj t with
    | Some live =>
        if IsCRD target || String.eqb (GetKind target) NamespaceKind then
          err ← call (ReqUpdateResource (SetResourceVersion (GetResourceVersion live) target) strategy);
          match err with
          | None => mret (GetKind target +:+ "/" +:+ GetName target +:+ " updated", None)
          | Some e => mret ("error when updating: " +:+ Error e, Some e)
          end
        else call (ReqReplace target strategy force_)
    | None => call (ReqCreate target strategy validate_)
    end
  else call (ReqApply target strategy force_ validate_ ssa (serverSideApplyManager sc)).

Definition applyObject (l : loc) (dry validate_ : bool) : M (ResultCode * string) :=
  t ← get_task l;
  let target := default nil_obj (targetObj t) in
  let strategy := if dry then DryRunClient else DryRunNone in
  let shouldReplace := replace sc || HasAnnotationOption target AnnotationSyncOptions SyncOptionReplace
                       || opt_has (liveObj t) SyncOptionReplace in
  let force_ := force sc || HasAnnotationOption target AnnotationSyncOptions SyncOptionForce
                || opt_has (liveObj t) SyncOptionForce in
  let ssa := shouldUseServerSideApply target dry in
  migrated ←
    (if ssa && negb dry && enableClientSideApplyMigration sc &&
        needsClientSideApplyMigration (liveObj t) (clientSideApplyMigrationManager sc)
     then performCSAUpgradeMigration (default nil_obj (liveObj t)) (clientSideApplyMigrationManager sc)
     else mret None);
  match migrated with
  | Some err =>
      mret (ResultCodeSyncFailed,
        "Failed to perform client-side apply migration for " +:+
        ResourceKey_fmt (GetResourceKey (default nil_obj (liveObj t))) +:+ ": " +:+ Error err)
  | None =>
      r ← apply_call t target strategy shouldReplace force_ validate_ ssa;
      match r.2 with
      | Some err => mret (ResultCodeSyncFailed, Error err)
      | None =>
          (if IsCRD target && negb dry
           then ensureCRDReady crd_polls (GetName target) ;; mret tt else mret tt) ;;
          mret (ResultCodeSynced, r.1)
      end
  end.
End calls.
