(* ===== verification/SyncRun.v ===== *)
(** * Running tasks: [runTasks], [processCreateTasks] and [stateSync]

    [gitops-engine/pkg/sync/sync_context.go], the execution of one wave: remove
    stale hook finalizers, prune, delete hooks that must be recreated, create
    in groups of one kind.  Goroutines of a group run in an order the runtime
    chooses, each body taking effect as a whole. *)

From S2P Require Import Prelude GoStd Kube SyncCommon SyncTask Health SyncState.

Local Open Scope string_scope.
Local Open Scope list_scope.

(** ** [stateSync] *)

Inductive runState : Type := rs_successful | rs_pending | rs_failed.

#[export] Instance runState_eq_dec : EqDecision runState.
Proof. solve_decision. Defined.

(** One iteration of the receive loop of [Wait] *)
Definition wait_step (res result : runState) : runState :=
  match res with
  | rs_failed => rs_failed
  | rs_pending => match result with rs_failed => rs_failed | _ => rs_pending end
  | rs_successful => match result with rs_pending | rs_failed => result | rs_successful => res end
  end.

Definition Wait (currentState : runState) (results : list runState) : runState :=
  foldl wait_step currentState results.

(** [operationPhases] *)
Definition operationPhases (c : ResultCode) : OperationPhase :=
  match c with
  | ResultCodeSynced => OperationRunning
  | ResultCodeSyncFailed => OperationFailed
  | ResultCodePruned | ResultCodePruneSkipped => OperationSucceeded
  | ResultCodeNone => OperationNone
  end.

Section run.
Context `{GoRuntime, Cluster} (sc : settings).

(** [newStateSync(state)], one [ss.Go] per element, [ss.Wait()] *)
Definition stateSync (currentState : runState) (ls : list loc)
    (body : loc → runState → M runState) : M runState :=
  results ← st_map (go_sched ls) (λ l, body l currentState);
  mret (Wait currentState results).

Definition run_remove_finalizer (dry : bool) (l : loc) (state : runState) : M runState :=
  if negb dry then
    err ← removeHookFinalizer l;
    match err with
    | Some e =>
        t ← get_task l;
        setResourceResult l (syncStatus t) OperationError ("failed to remove hook finalizer: " +:+ Error e) ;;
        mret rs_failed
    | None => mret state
    end
  else mret state.

Definition run_prune (dry : bool) (l : loc) (state : runState) : M runState :=
  r ← pruneObject sc l (prune sc) dry;
  let failed := bool_decide (r.1 = ResultCodeSyncFailed) in
  (if negb dry || dryRun sc || failed
   then setResourceResult l r.1 (operationPhases r.1) r.2 else mret tt) ;;
  mret (if failed then rs_failed else state).

Definition run_delete_hook (dry : bool) (l : loc) (state : runState) : M runState :=
  if negb dry then
    err ← deleteResource sc l;
    match err with
    | Some e =>
        t ← get_task l;
        if negb (IsNotFound e) then
          setResourceResult l (syncStatus t) OperationError ("failed to delete resource: " +:+ Error e) ;;
          mret rs_failed
        else update_task l (set_live None) ;; mret state
    | None => mret rs_pending
    end
  else mret state.

Definition run_create (dry : bool) (l : loc) (state : runState) : M runState :=
  t ← get_task l;
  let validate_ := validate sc && negb (HasAnnotationOption (default nil_obj (targetObj t))
                     AnnotationSyncOptions SyncOptionsDisableValidation) in
  r ← applyObject sc l dry validate_;
  let failed := bool_decide (r.1 = ResultCodeSyncFailed) in
  (if negb dry || dryRun sc || failed then
     let phase := operationPhases r.1 in
     let phase := if dryRun sc && Running phase then OperationSucceeded else phase in
     setResourceResult l r.1 phase r.2
   else mret tt) ;;
  mret (if failed then rs_failed else state).

Definition processCreateTasks (state : runState) (ls : list loc) (dry : bool) : M runState :=
  h ← get_heap;
  stateSync state (Filter h (λ t, negb (dry && skipDryRun t)) ls) (run_create dry).

(** The loop that creates resources kind by kind; [grp] is [tasksGroup]. *)
Fixpoint create_groups (ls grp : list loc) (state : runState) (dry : bool) : M runState :=
  match ls with
  | [] => match grp with [] => mret state | _ => processCreateTasks state grp dry end
  | l :: r =>
      h ← get_heap;
      match grp with
      | g :: _ =>
          if negb (String.eqb (GetKind (default nil_obj (targetObj (deref h g)))) (kind (deref h l))) then
            state ← processCreateTasks state grp dry;
            create_groups r [l] state dry
          else create_groups r (grp ++ [l]) state dry
      | [] => create_groups r (grp ++ [l]) state dry
      end
  end.

(** Some prune task needs a confirmation that was not given. *)
Definition awaits_confirmation (h : heap) (pruneTasks : list loc) : bool :=
  negb (pruneConfirmed sc) && Any h (λ t, objRequiresPruneConfirmation sc (liveObj t)) pruneTasks.

Definition runTasks (ls : list loc) (dry : bool) : M runState :=
  let dry := dry || dryRun sc in
  h ← get_heap;
  let '(pruneTasks, createTasks) := SplitTasks h isPrune ls in
  let existingHooks := Filter h (λ t, isHook t && pending t && has_live t) ls in
  state ← stateSync rs_successful existingHooks (run_remove_finalizer dry);
  if negb (bool_decide (state = rs_successful)) then mret state else
  h ← get_heap;
  if awaits_confirmation h pruneTasks then mret rs_pending else
  state ← stateSync state pruneTasks (run_prune dry);
  if negb (bool_decide (state = rs_successful)) then mret state else
  h ← get_heap;
  let hooksPendingDeletion := Filter h deleteBeforeCreation createTasks in
  state ← (match hooksPendingDeletion with
           | [] => mret state
           | _ => stateSync state hooksPendingDeletion (run_delete_hook dry)
           end);
  if negb (bool_decide (state = rs_successful)) then mret state else
  create_groups createTasks [] state dry.
End run.

(** ** The outcome of a group does not depend on the order of its goroutines *)

Definition rs_rank (r : runState) : nat :=
  match r with rs_successful => 0 | rs_pending => 1 | rs_failed => 2 end.

Lemma wait_step_comm a b c : wait_step (wait_step a b) c = wait_step (wait_step a c) b.
Proof. by destruct a, b, c. Qed.

Lemma Wait_rank s rs :
  rs_rank (Wait s rs) = foldr (λ r n, (rs_rank r `max` n)%nat) (rs_rank s) rs.
Proof.
  unfold Wait. revert s; induction rs as [|r rs IH]; intros s; simpl; [done|].
  rewrite IH. assert (rs_rank (wait_step s r) = (rs_rank s `max` rs_rank r)%nat) as ->
    by by destruct s, r.
  clear IH. generalize (rs_rank s), (rs_rank r) as b. intros a b.
  induction rs as [|x rs IH]; simpl; lia.
Qed.

(** [stateSync.Wait] is independent of the order in which goroutines deliver
    their results, and its outcome is the most severe state among the current
    one and the results (failed over pending over successful). *)
Theorem Wait_order_independent (s : runState) (rs rs' : list runState) :
  rs ≡ₚ rs' →
  Wait s rs = Wait s rs' ∧
  rs_rank (Wait s rs) = max_list_with rs_rank (s :: rs).
Proof.
  intros Hp. split.
  - unfold Wait. revert s; induction Hp as [|x a b Hp IH|x y a|a b c H1 IH1 H2 IH2]; intros s; simpl.
    + done.
    + apply IH.
    + by rewrite wait_step_comm.
    + by rewrite IH1.
  - clear Hp rs'. rewrite Wait_rank. simpl. induction rs as [|r rs IH]; simpl; lia.
Qed.

Lemma Wait_order_independent_witness :
  Wait rs_successful [rs_successful; rs_failed; rs_pending] =
  Wait rs_successful [rs_pending; rs_successful; rs_failed].
Proof.
  refine (proj1 (Wait_order_independent rs_successful _ _ _)).
  etransitivity; [|apply perm_swap].
  apply perm_skip. apply perm_swap.
Defined.
