(* ===== verification/SyncTrace.v ===== *)
(** * Reasoning about the steps of a sync

    Relations between the states before and after a handler.  A relation that
    is closed under the primitive operations of the run phase ([RunClosed]) is
    kept by every handler of that phase, provided the calls the handler makes
    satisfy [P]; the lemmas below follow the handlers once and for all.
    Instances: [emits P] (what was called) and relations on the result map. *)

From S2P Require Import Prelude GoStd Kube SyncCommon SyncTask Health SyncState SyncRun.

Local Open Scope string_scope.
Local Open Scope list_scope.

(** ** What the run phase never changes about a task *)

Definition plan (t : syncTask) : SyncPhase * option Unstructured * bool * option Z :=
  (phase t, targetObj t, skipDryRun t, waveOverride t).

Definition same_plan (h h' : heap) : Prop := ∀ l, plan (deref h' l) = plan (deref h l).

#[export] Instance same_plan_preorder : PreOrder same_plan.
Proof. split; [done|]. intros h1 h2 h3 H1 H2 l. by rewrite H2, H1. Qed.

Lemma same_plan_put h l t : plan t = plan (deref h l) → same_plan h (<[l := t]> h).
Proof.
  intros Hp l'. destruct (decide (l = l')) as [->|].
  - by rewrite deref_insert.
  - by rewrite deref_insert_ne.
Qed.

Lemma same_plan_fmap h f : (∀ t, plan (f t) = plan t) → same_plan h (f <$> h).
Proof.
  intros Hf l. unfold deref. rewrite lookup_fmap. destruct (h !! l); simpl; [apply Hf|done].
Qed.

(** ** Closed relations *)

Class RunClosed (R : relation sc_state) (P : request → Prop) (K : loc → syncTask → Prop) : Prop := {
  rc_preorder :: PreOrder R;
  rc_tasks f s : same_plan (tasks s) (f (tasks s)) → R s (set_tasks f s);
  rc_resources f s : R s (set_resources f s);
  rc_fresh s : R s (set_fresh S s);
  rc_op p m s : R s (set_op p m s);
  rc_record t s : R s (set_syncRes (record_result t) s);
  rc_call r s : P r → R s (set_trace (λ tr, tr ++ [r]) s);
  rc_get A l (f : syncTask → M A) : (∀ t, K l t → keeps R (f t)) → keeps R (get_task l ≫= f);
}.

Definition is_read (r : request) : bool :=
  match r with
  | ReqDiscover _ | ReqGet _ _ _ | ReqGetCRD _ | ReqKubectlGet _ _ => true
  | _ => false
  end.

(** Every lookup satisfies [P]. *)
Definition reads_ok (P : request → Prop) : Prop := ∀ r, is_read r = true → P r.

Section run_closed.
Context `{GoRuntime, Cluster} (sc : settings).
Context (R : relation sc_state) (P : request → Prop) (K : loc → syncTask → Prop).
Context `{HR : !RunClosed R P K}.

Lemma keeps_modify f : (∀ s, R s (f s)) → keeps R (st_modify f).
Proof. intros Hf s. apply Hf. Qed.

Lemma keeps_new_id : keeps R new_id.
Proof. intros s. apply rc_fresh. Qed.

Lemma keeps_get_task l : keeps R (get_task l).
Proof. intros s. reflexivity. Qed.

Lemma keeps_get_heap : keeps R get_heap.
Proof. intros s. reflexivity. Qed.

Lemma keeps_started : keeps R started.
Proof. intros s. reflexivity. Qed.

Lemma keeps_setOperationPhase p m : keeps R (setOperationPhase p m).
Proof. intros s. apply rc_op. Qed.

Lemma keeps_call r : P r → keeps R (call r).
Proof. intros Hr s. by apply (rc_call r s). Qed.

(** Updating a task in place, plan untouched *)
Lemma keeps_update_task l g : (∀ t, plan (g t) = plan t) → keeps R (update_task l g).
Proof. intros Hg s. apply rc_tasks. by apply same_plan_put. Qed.

Lemma keeps_update_live l o : keeps R (update_task l (set_live o)).
Proof. by apply keeps_update_task. Qed.

Lemma keeps_setResourceResult l st op m : keeps R (setResourceResult l st op m).
Proof.
  apply keeps_bind; [apply _|by apply keeps_update_task|]. intros _.
  apply keeps_bind; [apply _|apply keeps_get_task|]. intros t s. apply rc_record.
Qed.

Lemma keeps_mutate_live p f : keeps R (mutate_live p f).
Proof.
  intros s. etransitivity; [apply rc_resources|]. apply rc_tasks. by apply same_plan_fmap.
Qed.

Lemma keeps_retry {A} n retriable (m : M A) : keeps R m → keeps R (retry_on n retriable m).
Proof.
  intros Hm. induction n as [|n IH]; simpl; apply keeps_bind; try apply _; try done; intros r.
  - apply keeps_ret, _.
  - case_match; [done|apply keeps_ret, _].
Qed.

Hint Resolve keeps_new_id keeps_get_task keeps_get_heap keeps_started keeps_setOperationPhase
  keeps_setResourceResult keeps_mutate_live keeps_retry keeps_update_live : keeps.

Context (Hreads : reads_ok P).

Lemma keeps_discover g verb : keeps R (discover g verb).
Proof. unfold discover. keeps_go. by apply keeps_call, Hreads. Qed.
Hint Resolve keeps_discover : keeps.

Lemma keeps_getResourceIf t verb : keeps R (getResourceIf t verb).
Proof. unfold getResourceIf. keeps_go. Qed.
Hint Resolve keeps_getResourceIf : keeps.

Lemma keeps_getResource l : keeps R (getResource l).
Proof. unfold getResource. keeps_go. by apply keeps_call, Hreads. Qed.
Hint Resolve keeps_getResource : keeps.

Lemma keeps_updateResource l : (∀ o ns, P (ReqUpdate o ns)) → keeps R (updateResource l).
Proof. intros HP. unfold updateResource. keeps_go. by apply keeps_call. Qed.

Lemma keeps_deleteResource l :
  (∀ g ns n p, P (ReqDelete g ns n p)) → keeps R (deleteResource sc l).
Proof. intros HP. unfold deleteResource. keeps_go. by apply keeps_call. Qed.

Lemma keeps_remove_finalizer_once l :
  (∀ o ns, P (ReqUpdate o ns)) → keeps R (remove_finalizer_once l).
Proof.
  intros HP. unfold remove_finalizer_once. keeps_go. by apply keeps_updateResource.
Qed.

Lemma keeps_removeHookFinalizer l :
  (∀ o ns, P (ReqUpdate o ns)) → keeps R (removeHookFinalizer l).
Proof.
  intros HP. unfold removeHookFinalizer. keeps_go.
  by apply keeps_retry, keeps_remove_finalizer_once.
Qed.

Lemma keeps_deleteHooks ls :
  (∀ g ns n p, P (ReqDelete g ns n p)) → keeps R (deleteHooks sc ls).
Proof. intros HP. unfold deleteHooks. keeps_go. by apply keeps_deleteResource. Qed.

(** The calls that bring the target of [t] to the cluster satisfy [P]. *)
Definition apply_ok (dry : bool) (t : syncTask) : Prop :=
  let o := default nil_obj (targetObj t) in
  let d := if dry then DryRunClient else DryRunNone in
  (∀ f v ssa m, P (ReqApply o d f v ssa m)) ∧ (∀ f, P (ReqReplace o d f)) ∧
  (∀ v, P (ReqCreate o d v)) ∧ (∀ rv, P (ReqUpdateResource (SetResourceVersion rv o) d)) ∧
  (dry = false → ∀ g ns n data, P (ReqPatch g ns n data)).

Lemma keeps_performCSAUpgradeMigration live m :
  (∀ g ns n data, P (ReqPatch g ns n data)) → keeps R (performCSAUpgradeMigration sc live m).
Proof.
  intros HP. unfold performCSAUpgradeMigration. keeps_go. apply keeps_retry.
  unfold csa_migrate_once. keeps_go; [by apply keeps_call, Hreads|by apply keeps_call].
Qed.

Lemma keeps_ensureCRDReady n crd : keeps R (ensureCRDReady n crd).
Proof. induction n as [|n IH]; simpl; keeps_go. by apply keeps_call, Hreads. Qed.
Hint Resolve keeps_ensureCRDReady : keeps.

Lemma keeps_apply_call dry t b f v ssa :
  apply_ok dry t →
  keeps R (apply_call sc t (default nil_obj (targetObj t))
    (if dry then DryRunClient else DryRunNone) b f v ssa).
Proof. intros (?&?&?&?&_). unfold apply_call. keeps_go; by apply keeps_call. Qed.

Lemma keeps_applyObject l dry v :
  (∀ t, K l t → apply_ok dry t) → keeps R (applyObject sc l dry v).
Proof.
  intros Hok. unfold applyObject. apply rc_get. intros t Ht. specialize (Hok t Ht).
  keeps_go.
  - apply keeps_performCSAUpgradeMigration. breflect. destruct Hok as (_&_&_&_&Hp).
    apply Hp. naive_solver.
  - by apply keeps_apply_call.
Qed.

Lemma keeps_pruneObject l prune_ dry :
  (dry = false → prune_ = true → ∀ g n ns p, P (ReqKubectlDelete g n ns p)) →
  keeps R (pruneObject sc l prune_ dry).
Proof.
  intros HP. unfold pruneObject. keeps_go. breflect. apply keeps_call. by apply HP.
Qed.

Lemma keeps_stateSync st ls body :
  (∀ l s, l ∈ ls → keeps R (body l s)) → keeps R (stateSync st ls body).
Proof.
  intros Hb. unfold stateSync. keeps_go. apply Hb. by rewrite <- (go_sched_perm ls).
Qed.

Lemma keeps_run_remove_finalizer dry l s :
  (dry = false → ∀ o ns, P (ReqUpdate o ns)) → keeps R (run_remove_finalizer dry l s).
Proof.
  intros HP. unfold run_remove_finalizer. destruct dry; simpl; keeps_go.
  apply keeps_removeHookFinalizer. auto.
Qed.

Lemma keeps_run_prune dry l s :
  (dry = false → prune sc = true → ∀ g n ns p, P (ReqKubectlDelete g n ns p)) →
  keeps R (run_prune sc dry l s).
Proof. intros HP. unfold run_prune. keeps_go. by apply keeps_pruneObject. Qed.

Lemma keeps_run_delete_hook dry l s :
  (dry = false → ∀ g ns n p, P (ReqDelete g ns n p)) → keeps R (run_delete_hook sc dry l s).
Proof.
  intros HP. unfold run_delete_hook. destruct dry; simpl; keeps_go.
  apply keeps_deleteResource. auto.
Qed.

Lemma keeps_run_create dry l s :
  (∀ t, K l t → apply_ok dry t) → keeps R (run_create sc dry l s).
Proof. intros Hok. unfold run_create. keeps_go. by apply keeps_applyObject. Qed.

Lemma keeps_processCreateTasks st ls dry :
  (∀ l t, l ∈ ls → K l t → apply_ok dry t) → keeps R (processCreateTasks sc st ls dry).
Proof.
  intros Hok. unfold processCreateTasks. keeps_go. apply keeps_stateSync. intros l s Hl.
  apply keeps_run_create. intros t. apply Hok. by apply list_elem_of_filter in Hl as [_ ?].
Qed.

Lemma keeps_create_groups ls grp st dry :
  (∀ l t, l ∈ grp ++ ls → K l t → apply_ok dry t) → keeps R (create_groups sc ls grp st dry).
Proof.
  revert grp st; induction ls as [|l ls IH]; intros grp st Hok; simpl.
  - keeps_go. apply keeps_processCreateTasks. intros l' t Hl. apply Hok. by rewrite app_nil_r.
  - keeps_go; try apply keeps_processCreateTasks; try apply IH; intros l' t Hl; apply Hok; revert Hl;
      rewrite ?elem_of_app, ?elem_of_cons, ?elem_of_nil; tauto.
Qed.

(** Calls of [runTasks]: reads, and outside a dry run the removal of hook
    finalizers, the deletion of hooks, the pruning when enabled and the
    application of the targets of its tasks. *)
Lemma keeps_runTasks ls dry0 :
  let dry := dry0 || dryRun sc in
  (dry = false → ∀ o ns, P (ReqUpdate o ns)) →
  (dry = false → ∀ g ns n p, P (ReqDelete g ns n p)) →
  (dry = false → prune sc = true → ∀ g n ns p, P (ReqKubectlDelete g n ns p)) →
  (∀ l t, l ∈ ls → K l t → apply_ok dry t) →
  keeps R (runTasks sc ls dry0).
Proof.
  intros dry Hu Hd Hp Ha. unfold runTasks, SplitTasks. fold dry.
  repeat first
    [ keeps_step
    | apply keeps_get_heap
    | apply keeps_stateSync; intros ? ? ?
    | by apply keeps_run_remove_finalizer
    | by apply keeps_run_prune
    | by apply keeps_run_delete_hook
    | apply keeps_create_groups; intros ? ? Hl ?; eapply Ha; [|done];
      by apply list_elem_of_filter in Hl as [_ ?] ].
Qed.
End run_closed.

(** ** Instance: the calls made *)

Definition emits (P : request → Prop) (s s' : sc_state) : Prop :=
  ∃ l, trace s' = trace s ++ l ∧ Forall P l.

#[export] Instance emits_preorder P : PreOrder (emits P).
Proof.
  split.
  - intros s. exists []. by rewrite app_nil_r.
  - intros s1 s2 s3 (l1&H1&F1) (l2&H2&F2). exists (l1 ++ l2).
    rewrite H2, H1, app_assoc. split; [done|by apply Forall_app].
Qed.

Lemma emits_same P s s' : trace s' = trace s → emits P s s'.
Proof. intros E. exists []. by rewrite E, app_nil_r. Qed.

Lemma emits_mono (P Q : request → Prop) s s' : (∀ r, P r → Q r) → emits P s s' → emits Q s s'.
Proof. intros HPQ (l&Hl&HF). exists l. split; [done|]. eapply Forall_impl; [done|auto]. Qed.

#[export] Instance emits_closed P : RunClosed (emits P) P (λ _ _, True).
Proof.
  split; [apply _|intros; by apply emits_same..| |].
  - intros r s Hr. exists [r]. split; [done|by repeat constructor].
  - intros A l f Hf s. apply (Hf (deref (tasks s) l)). done.
Qed.

(** ** Instance: calls about the targets of known tasks *)

(** As long as the plan of the tasks is the one of [h0], so it stays, and the
    calls satisfy [P]. *)
Definition emits_plan (h0 : heap) (P : request → Prop) (s s' : sc_state) : Prop :=
  same_plan h0 (tasks s) → same_plan h0 (tasks s') ∧ emits P s s'.

#[export] Instance emits_plan_preorder h0 P : PreOrder (emits_plan h0 P).
Proof.
  split.
  - intros s Hs. split; [done|reflexivity].
  - intros s1 s2 s3 H12 H23 Hs. destruct (H12 Hs) as [Hs2 ?], (H23 Hs2) as [? ?].
    split; [done|by etransitivity].
Qed.

#[export] Instance emits_plan_closed h0 P :
  RunClosed (emits_plan h0 P) P (λ l t, plan t = plan (deref h0 l)).
Proof.
  split; [apply _| |intros; intros ?; split; [done|by apply emits_same]..| |].
  - intros f s Hf Hs. split; [by etransitivity|by apply emits_same].
  - intros r s Hr Hs. split; [done|]. exists [r]. split; [done|by repeat constructor].
  - intros A l f Hf s Hs. by apply (Hf (deref (tasks s) l) (Hs l)).
Qed.

(** ** Instance: the result map *)

Definition same_identity (e e' : ResourceSyncResult) : Prop :=
  res_ResourceKey e' = res_ResourceKey e ∧ res_Images e' = res_Images e ∧
  res_Version e' = res_Version e ∧ res_Order e' = res_Order e ∧
  res_HookType e' = res_HookType e ∧ res_SyncPhase e' = res_SyncPhase e.

(** Results are added or updated in place, never dropped or renumbered. *)
Definition results_grow (m m' : gmap string ResourceSyncResult) : Prop :=
  ∀ k e, m !! k = Some e → ∃ e', m' !! k = Some e' ∧ same_identity e e'.

(** The recorded orders are exactly 1, ..., n. *)
Definition orders_ok (m : gmap string ResourceSyncResult) : Prop :=
  (λ kv, res_Order kv.2) <$> map_to_list m ≡ₚ Z.of_nat <$> seq 1 (size m).

(** Every result is stored under its own key. *)
Definition keys_ok (m : gmap string ResourceSyncResult) : Prop :=
  ∀ k e, m !! k = Some e → k = resourceResultKey (res_ResourceKey e) (res_SyncPhase e).

Definition results_rel (s s' : sc_state) : Prop :=
  results_grow (syncRes s) (syncRes s') ∧
  (orders_ok (syncRes s) → orders_ok (syncRes s')) ∧
  (keys_ok (syncRes s) → keys_ok (syncRes s')).

Lemma results_grow_refl m : results_grow m m.
Proof. intros k e He. exists e. repeat split; done. Qed.

Lemma results_same s s' : syncRes s' = syncRes s → results_rel s s'.
Proof. intros E. unfold results_rel. rewrite E. split; [apply results_grow_refl|done]. Qed.

#[export] Instance results_rel_preorder : PreOrder results_rel.
Proof.
  split.
  - intros s. by apply results_same.
  - intros s1 s2 s3 (G1&O1&K1) (G2&O2&K2). split; [|auto].
    intros k e He. destruct (G1 _ _ He) as (e2&He2&I2). destruct (G2 _ _ He2) as (e3&He3&I3).
    exists e3. split; [done|]. unfold same_identity in *. naive_solver congruence.
Qed.

Lemma record_result_grow t m : results_grow m (record_result t m).
Proof.
  unfold record_result. intros k e He. destruct (m !! resultKey t) as [e0|] eqn:E.
  - destruct (decide (resultKey t = k)) as [<-|].
    + rewrite E in He; injection He as ->. rewrite lookup_insert_eq. eexists. split; [done|]. repeat split.
    + rewrite lookup_insert_ne by done. exists e. repeat split; done.
  - rewrite lookup_insert_ne by congruence. exists e. repeat split; done.
Qed.

Lemma record_result_orders t m : orders_ok m → orders_ok (record_result t m).
Proof.
  unfold orders_ok, record_result. intros Ho. destruct (m !! resultKey t) as [e0|] eqn:E.
  - rewrite map_size_insert_Some by done. rewrite <- Ho. clear Ho.
    rewrite <- (insert_id m (resultKey t) e0) at 2 by done.
    rewrite <- !(insert_delete_eq m (resultKey t)).
    rewrite !map_to_list_insert by apply lookup_delete_eq. done.
  - rewrite map_size_insert_None, map_to_list_insert, seq_S by done.
    rewrite fmap_cons, fmap_app, Ho. simpl. rewrite Permutation_app_comm; simpl.
    replace (Z.of_nat (size m) + 1)%Z with (Z.of_nat (S (size m))) by lia. done.
Qed.

Lemma record_result_keys t m : keys_ok m → keys_ok (record_result t m).
Proof.
  unfold record_result. intros Hk k e. destruct (m !! resultKey t) as [e0|] eqn:E;
    rewrite lookup_insert; case_decide as Hd; try apply Hk; intros; simplify_eq/=; [by apply Hk in E|done].
Qed.

#[export] Instance results_closed : RunClosed results_rel (λ _, True) (λ _ _, True).
Proof.
  split; [apply _|intros; by apply results_same..| | |].
  - intros t s. split_and!; [apply record_result_grow|apply record_result_orders|apply record_result_keys].
  - intros r s _. by apply results_same.
  - intros A l f Hf s. by apply (Hf (deref (tasks s) l)).
Qed.

(** ** Safety of [runTasks] *)

Section run_safety.
Context `{GoRuntime, Cluster} (sc : settings).

(** A dry run of the tasks (requested by the caller or set on the
    operation) only makes calls that cannot change the cluster, whatever the
    cluster answers: it reads, or applies with the client-side dry-run
    strategy. *)
Theorem runTasks_dry_readonly (ls : list loc) (dry : bool) (s : sc_state) :
  dry || dryRun sc = true →
  emits (λ r, mutating r = false) s (runTasks sc ls dry s).2.
Proof.
  intros Hdry. revert s. change (keeps (emits (λ r, mutating r = false)) (runTasks sc ls dry)).
  eapply keeps_runTasks; [apply _|by intros []|rewrite Hdry; done..|].
  intros l t _ _. rewrite Hdry. by repeat split.
Qed.

(** A call is about the target of a task in [ls], or does not send an object;
    pruning calls are made only when pruning is on. *)
Definition targets_of (h : heap) (ls : list loc) (r : request) : Prop :=
  let is_target o := ∃ l, l ∈ ls ∧ o = default nil_obj (targetObj (deref h l)) in
  match r with
  | ReqApply o _ _ _ _ _ | ReqReplace o _ _ | ReqCreate o _ _ => is_target o
  | ReqUpdateResource o _ => ∃ o' rv, is_target o' ∧ o = SetResourceVersion rv o'
  | ReqKubectlDelete _ _ _ _ => prune sc = true
  | _ => True
  end.

(** With pruning disabled no object is deleted through [kubectl]; and
    whatever the settings, everything [runTasks] applies, replaces, creates
    or updates in place is the target object of one of its own tasks. *)
Theorem runTasks_targets (ls : list loc) (dry : bool) (s : sc_state) :
  emits (targets_of (tasks s) ls) s (runTasks sc ls dry s).2.
Proof.
  set (h0 := tasks s).
  cut (keeps (emits_plan h0 (targets_of h0 ls)) (runTasks sc ls dry)).
  { intros Hk. by apply Hk. }
  eapply keeps_runTasks; [apply _|by intros []|done..|].
  intros l t Hl Ht.
  assert (targetObj t = targetObj (deref h0 l)) as E by (unfold plan in Ht; congruence).
  unfold apply_ok. rewrite E. simpl. split_and!; try done; intros; try (exists l; done).
  eexists _, _. split; [|done]. by exists l.
Qed.
End run_safety.
