(* ===== verification/SyncPlan.v ===== *)
(** * Planning a sync: [getSyncTasks]

    [gitops-engine/pkg/sync/sync_context.go]: the tasks of managed resources
    and hooks, the automatic namespace task, the lookup of live objects, the
    permission checks, the waves of prune tasks and the final order. *)

From S2P Require Import Prelude GoStd Kube SyncCommon SyncTask Health SyncState SyncRun SyncTrace.

Local Open Scope string_scope.
Local Open Scope list_scope.

Definition isNamespaceKind (res : option Unstructured) : bool :=
  match res with
  | Some o => String.eqb (Group (gvk o)) "" && String.eqb (GetKind o) NamespaceKind
  | None => false
  end.

Definition isNamespaceWithName (res : option Unstructured) (ns : string) : bool :=
  isNamespaceKind res && String.eqb (default "" (GetName <$> res)) ns.

Definition isCRDOfGroupKind (group kind : string) (o : Unstructured) : bool :=
  if IsCRD o then
    match nested_ok (NestedString (Object o) ["spec"; "group"]),
          nested_ok (NestedString (Object o) ["spec"; "names"; "kind"]) with
    | Some crdGroup, Some crdKind => String.eqb group crdGroup && String.eqb crdKind kind
    | _, _ => false
    end
  else false.

(** [reconciledResource.key] *)
Definition resource_key (r : reconciledResource) : ResourceKey :=
  match Live r with
  | Some l => GetResourceKey l
  | None => GetResourceKey (default nil_obj (Target r))
  end.

(** ** Waves of prune tasks *)

(** [pruneTasks]: the prune tasks of a slice by wave *)
Definition add_prune (h : heap) (m : gmap Z (list loc)) (l : loc) : gmap Z (list loc) :=
  let t := deref h l in
  if isPrune t then <[wave t := default [] (m !! wave t) ++ [l]]> m else m.

Definition prune_by_wave (h : heap) (ls : list loc) : gmap Z (list loc) :=
  foldl (add_prune h) ∅ ls.

(** [uniquePruneWaves] *)
Definition uniquePruneWaves `{GoRuntime} (m : gmap Z (list loc)) : list Z :=
  sort_Ints (go_range m).*1.

(** The body of the symmetric swap for one pair of waves *)
Definition set_waves (w : Z) (ls : list loc) (h : heap) : heap :=
  foldl (λ h l, <[l := set_wave w (deref h l)]> h) h ls.

Definition swap_pair (m : gmap Z (list loc)) (waves : list Z) (h : heap) (i : nat) : heap :=
  let startWave := default 0%Z (waves !! i) in
  let endWave := default 0%Z (waves !! (length waves - 1 - i)) in
  set_waves startWave (default [] (m !! endWave)) (set_waves endWave (default [] (m !! startWave)) h).

Definition reverse_prune_waves `{GoRuntime} (ls : list loc) (h : heap) : heap :=
  let m := prune_by_wave h ls in
  let waves := uniquePruneWaves m in
  foldl (swap_pair m waves) h (seq 0 (Nat.div (length waves) 2)).

(** [syncPhaseLastWave] before the increment *)
Definition last_sync_wave (h : heap) (ls : list loc) : Z :=
  foldl (λ w l, let t := deref h l in
         if bool_decide (phase t = SyncPhaseSync) && (w <? wave t)%Z then wave t else w) 0%Z ls.

Section planning.
Context `{GoRuntime, Cluster} (sc : settings).

Definition containsResource (r : reconciledResource) : bool :=
  match resourcesFilter sc with
  | None => true
  | Some f => f (resource_key r) (Target r) (Live r)
  end.

Definition prune_last_waves (ls : list loc) (h : heap) : heap :=
  let syncPhaseLastWave := (last_sync_wave h ls +! 1)%go in
  foldl (λ h l,
    let t := deref h l in
    if isPrune t && (pruneLast sc || opt_has (liveObj t) SyncOptionPruneLast)
    then <[l := set_wave syncPhaseLastWave t]> h else h) h ls.

(** *** Tasks from managed resources and from hooks *)

Definition resource_tasks : M (list loc) :=
  s ← st_get;
  st_fold (go_range (resources s)) [] (λ acc kr,
    let r := kr.2 in
    if negb (containsResource r) then mret acc else
    let o := obj_of (Target r) (Live r) in
    if IsHook o then mret acc else
    st_fold (syncPhases o) acc (λ acc p,
      l ← alloc (newTask p (Target r) (Live r)); mret (acc ++ [l]))).

Definition syncRevision : string :=
  if Nat.leb 8 (String.length (revision sc)) then String.substring 0 7 (revision sc) else revision sc.

(** The name of a hook that only has a [generateName] *)
Definition generated_hook_name (o : Unstructured) (p : SyncPhase) : string :=
  GetGenerateName o +:+
  ToLower (syncRevision +:+ "-" +:+ SyncPhase_str p +:+ "-" +:+ pretty (startedAt sc)).

Definition hook_target (o : Unstructured) (p : SyncPhase) : Unstructured :=
  let target := if String.eqb (GetName o) "" then SetName (generated_hook_name o p) o else o in
  if HasHookFinalizer target then target
  else SetFinalizers (GetFinalizers target ++ [HookFinalizer]) target.

Definition hook_tasks : M (list loc) :=
  if skipHooks sc then mret [] else
  st_fold (hooks sc) [] (λ acc o,
    st_fold (syncPhases o) acc (λ acc p,
      q ← new_id;
      l ← alloc (newTask p (Some (hook_target (with_ptr q o) p)) None);
      mret (acc ++ [l]))).

Definition enrich_namespace (l : loc) : M unit :=
  t ← get_task l;
  match targetObj t with
  | Some o =>
      if String.eqb (GetNamespace o) "" then
        q ← new_id;
        update_task l (set_target (Some (SetNamespace (sc_namespace sc) (with_ptr q o))))
      else mret tt
  | None => mret tt
  end.

(** *** Automatic namespace creation *)

Definition appendFailedNsTask (ls : list loc) (o : Unstructured) (err : error) : M (list loc) :=
  l ← alloc (newTask SyncPhasePreSync (Some o) None);
  setResourceResult l ResultCodeSyncFailed OperationError (Error err) ;;
  mret (ls ++ [l]).

(** [syncNamespace] edits the namespace object that the task points to. *)
Definition appendNsTask (modifier : Unstructured → option Unstructured → Unstructured * (bool + error))
    (ls : list loc) (managedNs : Unstructured) (liveNs : option Unstructured) : M (list loc) :=
  let '(managedNs, r) := modifier managedNs liveNs in
  match r with
  | inr err => appendFailedNsTask ls managedNs (wrap "namespaceModifier error: " err)
  | inl true =>
      l ← alloc (newTask SyncPhasePreSync (Some managedNs) liveNs);
      mret (ls ++ [l])
  | inl false => mret ls
  end.

(** [copy(allObjs, sc.hooks)] copies into a nil slice and therefore nothing:
    only the targets of the resources are looked at. *)
Definition isNamespaceCreationNeeded (s : sc_state) : bool :=
  negb (existsb (λ kr, isNamespaceWithName (Target kr.2) (sc_namespace sc)) (go_range (resources s))).

Definition autoCreateNamespace
    (modifier : Unstructured → option Unstructured → Unstructured * (bool + error))
    (ls : list loc) : M (list loc) :=
  s ← st_get;
  if isNamespaceCreationNeeded s then
    match namespaceObj (sc_namespace sc) with
    | inr err =>
        setOperationPhase OperationFailed ("namespace auto creation failed: " +:+ Error err) ;; mret ls
    | inl ns =>
        q ← new_id;
        let managedNs := with_ptr q ns in
        r ← call (ReqKubectlGet (gvk managedNs) (GetName managedNs));
        match r with
        | inl live =>
            q ← new_id;
            appendNsTask modifier ls managedNs (Some (with_ptr q live))
        | inr err =>
            if IsNotFound err then appendNsTask modifier ls managedNs None
            else appendFailedNsTask ls managedNs (wrap "namespace auto creation failed: " err)
        end
    end
  else mret ls.

(** *** Live objects *)

Definition live_matches (o : Unstructured) (k : ResourceKey) : bool :=
  String.eqb (key_Group k) (Group (gvk o)) && String.eqb (key_Kind k) (GetKind o) &&
  (String.eqb (key_Namespace k) "" || String.eqb (key_Namespace k) (GetNamespace o)) &&
  String.eqb (key_Name k) (GetName o).

(** [liveObj] of the context: the first matching entry of the resource map *)
Definition find_live (s : sc_state) (o : Unstructured) : option Unstructured :=
  match List.find (λ kr, live_matches o kr.1) (go_range (resources s)) with
  | Some kr => Live kr.2
  | None => None
  end.

Definition enrich_live (l : loc) : M unit :=
  t ← get_task l;
  s ← st_get;
  match targetObj t, liveObj t with
  | Some o, None => update_task l (set_live (find_live s o))
  | _, _ => mret tt
  end.

(** *** Permissions *)

Definition targetObjs (s : sc_state) : list Unstructured :=
  hooks sc ++ omap (λ kr, Target kr.2) (go_range (resources s)).

Definition hasCRDOfGroupKind (s : sc_state) (group kind : string) : bool :=
  existsb (isCRDOfGroupKind group kind) (targetObjs s).

Definition shouldSkipDryRunOnMissingResource (s : sc_state) (t : syncTask) : bool :=
  skipDryRunOnMissingResource sc ||
  opt_has (targetObj t) SyncOptionSkipDryRunOnMissingResource ||
  hasCRDOfGroupKind s (group t) (kind t).

Record perm_acc : Type := mkPerm {
  serverResCache : gmap GroupVersionKind APIResource;
  serverResErrCache : gmap GroupVersionKind error;
  perm_ok : bool }.

(** [retry.OnError] around the discovery of the task's kind *)
Definition discover_retry (g : GroupVersionKind) : M (APIResource + error) :=
  retry_on retries (λ r : APIResource + error, if r is inr e then IsUnauthorized e else false)
    (discover g "get").

Definition lookup_server_res (acc : perm_acc) (g : GroupVersionKind)
    : M (perm_acc * (APIResource + error)) :=
  match serverResCache acc !! g, serverResErrCache acc !! g with
  | Some res, _ => mret (acc, inl res)
  | None, Some err => mret (acc, inr err)
  | None, None =>
      r ← discover_retry g;
      match r with
      | inl res => mret (mkPerm (<[g := res]> (serverResCache acc)) (serverResErrCache acc) (perm_ok acc), r)
      | inr err => mret (mkPerm (serverResCache acc) (<[g := err]> (serverResErrCache acc)) (perm_ok acc), r)
      end
  end.

Definition reject (l : loc) (acc : perm_acc) (err : error) : M perm_acc :=
  setResourceResult l ResultCodeSyncFailed OperationNone (Error err) ;;
  mret (mkPerm (serverResCache acc) (serverResErrCache acc) false).

Definition check_permission (acc : perm_acc) (l : loc) : M perm_acc :=
  t ← get_task l;
  s ← st_get;
  ar ← lookup_server_res acc (gvk (obj t));
  let '(acc, r) := ar in
  match r with
  | inr err =>
      if IsNotFound err && shouldSkipDryRunOnMissingResource s t
      then update_task l set_skipDryRun ;; mret acc
      else reject l acc err
  | inl res =>
      match permissionValidator sc (obj t) res with
      | Some err => reject l acc err
      | None => mret acc
      end
  end.

(** *** The plan *)

(** Status of a previous step of the operation *)
Definition enrich_result (l : loc) : M unit :=
  t ← get_task l;
  s ← st_get;
  match syncRes s !! resultKey t with
  | Some e =>
      update_task l (λ t, mkTask (phase t) (liveObj t) (targetObj t) (skipDryRun t)
        (res_Status e) (res_HookPhase e) (res_Message e) (waveOverride t))
  | None => mret tt
  end.

Definition order_tasks (ls : list loc) : M (list loc) :=
  h ← get_heap;
  let h := prune_last_waves ls (reverse_prune_waves ls h) in
  let '(ls, h) := Sort ls h in
  st_modify (set_tasks (λ _, h)) ;;
  mret ls.

(** Everything up to the ordering: the tasks with their live objects, and
    whether the permission checks passed *)
Definition plan_tasks : M (list loc * bool) :=
  resourceTasks ← resource_tasks;
  hookTasks ← hook_tasks;
  let ls := resourceTasks ++ hookTasks in
  st_for ls enrich_namespace ;;
  ls ← (match syncNamespace sc with
        | Some modifier =>
            if negb (String.eqb (sc_namespace sc) "") then autoCreateNamespace modifier ls else mret ls
        | None => mret ls
        end);
  st_for ls enrich_live ;;
  acc ← st_fold ls (mkPerm ∅ ∅ true) check_permission;
  mret (ls, perm_ok acc).

Definition getSyncTasks : M (list loc * bool) :=
  r ← plan_tasks;
  ls ← order_tasks r.1;
  st_for ls enrich_result ;;
  mret (ls, r.2).
End planning.

(** ** The waves of prune tasks are reversed *)

Section prune_waves.
Context `{GoRuntime}.

Definition prunes (h : heap) (ls : list loc) (w : Z) : list loc :=
  filter (λ l, isPrune (deref h l) = true ∧ wave (deref h l) = w) ls.

(** The map lists, per wave, the prune tasks of that wave, in order. *)
Lemma prune_by_wave_lookup h ls w :
  prune_by_wave h ls !! w = match prunes h ls w with [] => None | l => Some l end.
Proof.
  unfold prune_by_wave, prunes. induction ls as [|l ls IH] using rev_ind; [done|].
  rewrite foldl_app, filter_app. simpl. rewrite filter_cons, filter_nil. unfold add_prune at 1.
  destruct (isPrune (deref h l)) eqn:Hp.
  - rewrite lookup_insert. destruct (decide (wave (deref h l) = w)) as [Hw|Hw].
    + subst w. rewrite IH, (decide_True (P := _ ∧ _)) by done.
      by destruct (filter _ ls).
    + rewrite (decide_False (P := _ ∧ _)) by naive_solver. by rewrite app_nil_r.
  - rewrite (decide_False (P := _ ∧ _)) by naive_solver. by rewrite app_nil_r.
Qed.

Lemma elem_of_prunes h ls w l :
  l ∈ default [] (prune_by_wave h ls !! w) ↔
  l ∈ ls ∧ isPrune (deref h l) = true ∧ wave (deref h l) = w.
Proof.
  rewrite prune_by_wave_lookup.
  transitivity (l ∈ prunes h ls w); [by destruct (prunes h ls w)|].
  unfold prunes. rewrite list_elem_of_filter. tauto.
Qed.

Lemma uniquePruneWaves_spec h ls :
  let W := uniquePruneWaves (prune_by_wave h ls) in
  StronglySorted Z.lt W ∧
  ∀ w, w ∈ W ↔ ∃ l, l ∈ ls ∧ isPrune (deref h l) = true ∧ wave (deref h l) = w.
Proof.
  simpl. unfold uniquePruneWaves. split.
  - set (W := sort_Ints _). assert (NoDup W) as Hnd.
    { unfold W. rewrite sort_Ints_perm. apply go_range_NoDup_fst. }
    assert (StronglySorted Z.le W) as Hs by apply sort_Ints_sorted. clearbody W.
    induction Hs as [|x l Hl IH Hx]; constructor; apply NoDup_cons in Hnd as [Hn Hnd]; auto.
    rewrite Forall_forall in Hx |- *. intros y Hy. specialize (Hx y Hy).
    assert (x ≠ y) by (intros ->; done). lia.
  - intros w. rewrite sort_Ints_perm, list_elem_of_fmap. split.
    + intros ([w' ps]&->&Hin%elem_of_go_range). simpl.
      assert (∃ x, x ∈ default [] (prune_by_wave h ls !! w')) as [x Hx%elem_of_prunes]; [|by exists x].
      rewrite Hin; simpl. rewrite prune_by_wave_lookup in Hin.
      destruct (prunes h ls w') as [|x xs]; [done|]. simplify_eq. exists x. left.
    + intros (l&Hl%elem_of_prunes).
      destruct (prune_by_wave h ls !! w) as [ps|] eqn:E; [|by apply not_elem_of_nil in Hl].
      exists (w, ps). split; [done|]. by apply elem_of_go_range.
Qed.

(** *** One swap *)

Lemma set_waves_notin w ls h l : l ∉ ls → deref (set_waves w ls h) l = deref h l.
Proof.
  unfold set_waves. revert h; induction ls as [|x ls IH]; intros h Hl; simpl; [done|].
  apply not_elem_of_cons in Hl as [? ?]. rewrite IH by done. by rewrite deref_insert_ne.
Qed.

Lemma set_waves_in w ls h l : l ∈ ls → wave (deref (set_waves w ls h) l) = w.
Proof.
  revert h; induction ls as [|x ls IH]; intros h; [intros Hl; by apply not_elem_of_nil in Hl|].
  change (set_waves w (x :: ls) h) with (set_waves w ls (<[x := set_wave w (deref h x)]> h)).
  destruct (decide (l ∈ ls)) as [Hin|Hnin]; [intros _; by apply IH|].
  intros [->|?]%elem_of_cons; [|done].
  rewrite (set_waves_notin w ls); [|done]. by rewrite deref_insert.
Qed.

Section swap.
Context (h0 : heap) (ls : list loc).
Let m := prune_by_wave h0 ls.
Let W := uniquePruneWaves m.
Let n := length W.

Lemma W_lookup_inj i j w : W !! i = Some w → W !! j = Some w → i = j.
Proof.
  intros Hi Hj. assert (StronglySorted Z.lt W) as Hs by apply uniquePruneWaves_spec.
  destruct (lt_eq_lt_dec i j) as [[Hlt|?]|Hlt]; [|done|].
  - pose proof (StronglySorted_lookup_lt Z.lt W i j w w Hs Hi Hj Hlt); lia.
  - pose proof (StronglySorted_lookup_lt Z.lt W j i w w Hs Hj Hi Hlt); lia.
Qed.

(** Effect of the swaps of the first [k] pairs on a task of the slice whose
    wave stands at position [j] of the sorted waves. *)
Lemma swaps_effect k l j w :
  (k ≤ Nat.div n 2)%nat → l ∈ ls → isPrune (deref h0 l) = true →
  wave (deref h0 l) = w → W !! j = Some w →
  wave (deref (foldl (swap_pair m W) h0 (seq 0 k)) l) =
    if decide (j < k ∨ n - 1 - j < k)%nat then default 0%Z (W !! (n - 1 - j)%nat) else w.
Proof.
  intros Hk Hl Hp Hw Hj. assert (Hjn : (j < n)%nat) by by eapply lookup_lt_Some.
  assert (Hdiv : (Nat.div n 2 * 2 ≤ n)%nat) by (pose proof (Nat.Div0.mul_div_le n 2); lia).
  induction k as [|k IH]; [rewrite decide_False by lia; done|].
  rewrite seq_S, foldl_app; simpl. unfold swap_pair at 1. fold n.
  destruct (lookup_lt_is_Some_2 W k) as [a Ha]; [fold n; lia|].
  destruct (lookup_lt_is_Some_2 W (n - 1 - k)) as [b Hb]; [fold n; lia|].
  rewrite Ha, Hb; simpl.
  assert (Hin : ∀ i v, W !! i = Some v → l ∈ default [] (m !! v) ↔ i = j).
  { intros i v Hi. unfold m. rewrite elem_of_prunes. split.
    - intros (_&_&Hv). eapply W_lookup_inj; [done|]. congruence.
    - intros ->. split_and!; [done..|congruence]. }
  destruct (decide (j = (n - 1 - k)%nat)) as [Ej|Ej].
  { rewrite set_waves_in by by eapply Hin. rewrite decide_True by lia.
    replace (n - 1 - j)%nat with k by lia. by rewrite Ha. }
  rewrite set_waves_notin by (rewrite Hin by done; done).
  destruct (decide (j = k)) as [->|Ek].
  { rewrite set_waves_in by by eapply Hin. rewrite decide_True by lia. by rewrite Hb. }
  rewrite set_waves_notin by (rewrite Hin by done; done).
  rewrite IH by lia. repeat case_decide; first [done|lia].
Qed.

Lemma swaps_other k l :
  ¬ (l ∈ ls ∧ isPrune (deref h0 l) = true) →
  deref (foldl (swap_pair m W) h0 (seq 0 k)) l = deref h0 l.
Proof.
  intros Hn. induction k as [|k IH]; [done|].
  rewrite seq_S, foldl_app; simpl. unfold swap_pair at 1.
  rewrite !set_waves_notin; [done|..]; unfold m; rewrite elem_of_prunes; naive_solver.
Qed.
End swap.

Lemma reverse_prune_waves_at ls h l j :
  let W := uniquePruneWaves (prune_by_wave h ls) in
  l ∈ ls → isPrune (deref h l) = true → W !! j = Some (wave (deref h l)) →
  Some (wave (deref (reverse_prune_waves ls h) l)) = W !! (length W - 1 - j)%nat.
Proof.
  intros W Hl Hp Hj. unfold reverse_prune_waves.
  rewrite (swaps_effect h ls _ l j (wave (deref h l))) by done. fold W.
  assert (Hjn : (j < length W)%nat) by by eapply lookup_lt_Some.
  pose proof (Nat.div_mod_eq (length W) 2). pose proof (Nat.mod_upper_bound (length W) 2).
  destruct (lookup_lt_is_Some_2 W (length W - 1 - j)) as [b Hb]; [lia|].
  case_decide; [by rewrite Hb|]. replace (length W - 1 - j)%nat with j by lia. done.
Qed.
End prune_waves.

(** Prune tasks are deleted in the reverse order of their creation: the
    waves of the prune tasks of a plan are permuted so that a task of a smaller
    wave ends up in a strictly larger one, the set of waves in use stays the
    same, tasks of one wave stay together, and other tasks are not touched. *)
Theorem prune_waves_reversed `{GoRuntime} (ls : list loc) (h : heap) :
  let h' := reverse_prune_waves ls h in
  (∀ a b, a ∈ ls → b ∈ ls → isPrune (deref h a) = true → isPrune (deref h b) = true →
     ((wave (deref h a) < wave (deref h b))%Z ↔ (wave (deref h' b) < wave (deref h' a))%Z)) ∧
  (∀ a, a ∈ ls → isPrune (deref h a) = true →
     ∃ b, b ∈ ls ∧ isPrune (deref h b) = true ∧ wave (deref h b) = wave (deref h' a)) ∧
  (∀ a, a ∉ ls ∨ isPrune (deref h a) = false → deref h' a = deref h a).
Proof.
  intros h'. pose proof (uniquePruneWaves_spec h ls) as [Hs Hin].
  set (W := uniquePruneWaves (prune_by_wave h ls)) in *.
  assert (Hat : ∀ a, a ∈ ls → isPrune (deref h a) = true → ∃ j : nat,
    (j < length W)%nat ∧ W !! j = Some (wave (deref h a)) ∧
    W !! (length W - 1 - j)%nat = Some (wave (deref h' a))).
  { intros a Ha Hp. assert (wave (deref h a) ∈ W) as Hw by (apply Hin; eauto).
    apply list_elem_of_lookup in Hw as [j Hj]. exists j.
    split_and!; [by eapply lookup_lt_Some|done|]. symmetry. by apply reverse_prune_waves_at. }
  assert (Hmono : ∀ i j x y, W !! i = Some x → W !! j = Some y → (i < j)%nat → (x < y)%Z).
  { intros i j x y. apply StronglySorted_lookup_lt, Hs. }
  split_and!.
  - intros a b Ha Hb Hpa Hpb. destruct (Hat a Ha Hpa) as (i&?&Hi&Hi'), (Hat b Hb Hpb) as (j&?&Hj&Hj').
    destruct (lt_eq_lt_dec i j) as [[?| ->]|?].
    + pose proof (Hmono _ _ _ _ Hi Hj ltac:(lia)). pose proof (Hmono _ _ _ _ Hj' Hi' ltac:(lia)). lia.
    + assert (wave (deref h a) = wave (deref h b)) by congruence.
      assert (wave (deref h' a) = wave (deref h' b)) by congruence. lia.
    + pose proof (Hmono _ _ _ _ Hj Hi ltac:(lia)). pose proof (Hmono _ _ _ _ Hi' Hj' ltac:(lia)). lia.
  - intros a Ha Hp. destruct (Hat a Ha Hp) as (i&_&_&Hi').
    apply Hin. by eapply list_elem_of_lookup_2.
  - intros a Ha. apply swaps_other. destruct Ha as [?|Hp]; [naive_solver|]. rewrite Hp. naive_solver.
Qed.
