(* ===== verification/SyncOp.v ===== *)
(** * One step of a sync operation: [Sync], [Terminate] and [GetState]

    [gitops-engine/pkg/sync/sync_context.go], the top of the state machine: a
    call of [Sync] plans the tasks, validates them with a dry run the first
    time, refreshes the state of running tasks, and then either waits, starts
    the failure hooks, runs the next wave, or ends the operation. *)

From S2P Require Import Prelude GoStd Kube SyncCommon SyncTask Health SyncState SyncRun SyncTrace SyncPlan.

Local Open Scope string_scope.
Local Open Scope list_scope.

(** ** Grouping of the reconciliation result *)

Definition groupResources (target live : list (option Unstructured)) : gmap ResourceKey reconciledResource :=
  foldl (λ m tl,
      let res := mkRec tl.1 tl.2 in
      <[resource_key res := res]> m) ∅ (zip target live).

(** [groupDiffResults]: [unmarshal] is the decoding of one entry, the
    normalized live state or the predicted one when there is none; entries
    that do not decode are skipped. *)
Definition groupDiffResults {D} (unmarshal : D → option Unstructured) (Modified : D → bool)
    (diffs : list D) : gmap ResourceKey bool :=
  foldl (λ m res,
      match unmarshal res with
      | Some o => <[GetResourceKey o := Modified res]> m
      | None => m
      end) ∅ diffs.

Section operation.
Context `{GoRuntime, HealthLibs, Cluster} (sc : settings).

(** [getOperationPhase]: phase and message of a live hook, or an error *)
Definition getOperationPhase (o : Unstructured) : (OperationPhase * string) + string :=
  match GetResourceHealth o (healthOverride sc) with
  | (_, Some err) => inr ("failed to get resource health: " +:+ err)
  | (Some h, None) =>
      match Status h with
      | HealthStatusUnknown | HealthStatusDegraded => inl (OperationFailed, Message h)
      | HealthStatusProgressing | HealthStatusSuspended => inl (OperationRunning, Message h)
      | HealthStatusHealthy => inl (OperationSucceeded, Message h)
      | HealthStatusMissing | HealthStatusNone => inl (OperationSucceeded, GetName o +:+ " created")
      end
  | (None, None) => inl (OperationSucceeded, GetName o +:+ " created")
  end.

(** *** The message of a running operation *)

Definition running_message (h : heap) (ls : list loc) (isPendingDeletion : bool) : string :=
  let '(hooks, resources) := SplitTasks h isHook ls in
  let reason := match hooks with [] => "healthy state of" | _ => "completion of hook" end in
  let taskType := match resources with [] => "hooks" | _ => "resources" end in
  let reason := if isPendingDeletion
                then match hooks with [] => "deletion of" | _ => "deletion of hook" end
                else reason in
  let firstTask := match hooks with l :: _ => l | [] => default 0 (head resources) end in
  let tasksToPrune :=
    if pruneConfirmed sc then []
    else Filter h (λ t, isPrune t && objRequiresPruneConfirmation sc (liveObj t)) ls in
  let '(reason, firstTask, nbAdditionalTask) :=
    match tasksToPrune with
    | [] => (reason, firstTask, length ls - 1)
    | l :: r => ("pruning confirmation of", l, length r)
    end in
  let t := deref h firstTask in
  let message := "waiting for " +:+ reason +:+ " " +:+ group t +:+ "/" +:+ kind t +:+ "/" +:+ name t in
  if Nat.ltb 0 nbAdditionalTask
  then message +:+ " and " +:+ pretty nbAdditionalTask +:+ " more " +:+ taskType
  else message.

Definition setRunningPhase (ls : list loc) (isPendingDeletion : bool) : M unit :=
  h ← get_heap;
  setOperationPhase OperationRunning
    (match ls with [] => "" | _ => running_message h ls isPendingDeletion end).

(** *** Failure hooks *)

(** [errorMessageFactory] *)
Definition errorMessageFactory (h : heap) (ls : list loc) (m : string) : string :=
  match MapTasks h message ls with
  | [] => m
  | messages => m +:+ ", reason: " +:+ Join messages ","
  end.

Definition executeSyncFailPhase (syncFailTasks syncFailedTasks : list loc) (m : string) : M bool :=
  h ← get_heap;
  let errorMessage := errorMessageFactory h syncFailedTasks m in
  match syncFailTasks with
  | [] => setOperationPhase OperationFailed errorMessage ;; mret true
  | _ =>
      if All h completed syncFailTasks then
        let failedSyncFailTasks := Filter h (λ t, bool_decide (syncStatus t = ResultCodeSyncFailed)) syncFailTasks in
        let errorMessage :=
          match failedSyncFailTasks with
          | [] => errorMessage
          | _ => errorMessage +:+ bytes [10] +:+
                   errorMessageFactory h failedSyncFailTasks "one or more SyncFail hooks failed"
          end in
        setOperationPhase OperationFailed errorMessage ;; mret true
      else
        let pendingSyncFailTasks := Filter h (λ t, negb (completed t) && negb (running t)) syncFailTasks in
        runTasks sc pendingSyncFailTasks false ;;
        setRunningPhase pendingSyncFailTasks false ;;
        mret false
  end.

(** *** Preemptive termination of hooks *)

(** The last part of an iteration: the hook's own result when it has
    completed, otherwise a failure unless an error is already recorded *)
Definition report_terminated (l : loc) (t : syncTask) (st : (OperationPhase * string) + string) : M bool :=
  match (match st with
         | inl (p, msg) => if Completed p then Some (p, msg) else None
         | inr _ => None
         end) with
  | Some (p, msg) => setResourceResult l (syncStatus t) p msg
  | None =>
      if negb (bool_decide (operationState t = OperationError))
      then setResourceResult l (syncStatus t) OperationFailed "Terminated"
      else mret tt
  end ;;
  mret true.

(** The live object of a hook that was just started; [false]: it could not be
    looked up. *)
Definition fetch_hook_live (l : loc) (t : syncTask) : M bool :=
  match liveObj t with
  | Some _ => mret true
  | None =>
      r ← getResource l;
      match r with
      | inl o => update_task l (set_live (Some o)) ;; mret true
      | inr err =>
          if IsNotFound err then mret true
          else
            setResourceResult l (syncStatus t) OperationError ("Failed to get live resource: " +:+ Error err) ;;
            mret false
      end
  end.

(** One iteration; the result says whether it went without errors. *)
Definition terminate_hook (l : loc) : M bool :=
  t ← get_task l;
  if negb (isHook t) || negb (running t) then mret true else
  fetched ← fetch_hook_live l t;
  if negb (fetched : bool) then mret false else
  t ← get_task l;
  match liveObj t with
  | None => setResourceResult l (syncStatus t) OperationSucceeded "Terminated" ;; mret true
  | Some live =>
      let st := getOperationPhase live in
      (match st with
       | inr statusErr =>
           setResourceResult l (syncStatus t) OperationError ("Failed to get hook health: " +:+ statusErr)
       | inl _ => mret tt
       end) ;;
      err ← removeHookFinalizer l;
      match err with
      | Some e =>
          t ← get_task l;
          setResourceResult l (syncStatus t) OperationError ("Failed to remove hook finalizer: " +:+ Error e) ;;
          mret false
      | None =>
          t ← get_task l;
          let must_delete := match st with inr _ => true | inl (p, _) => Running p end || deleteOnPhaseFailed t in
          err ← (if must_delete then deleteResource sc l else mret None);
          let failed := match err with Some e => negb (IsNotFound e) | None => false end in
          if failed then
            setResourceResult l (syncStatus t) OperationFailed
              ("Failed to delete: " +:+ default "" (Error <$> err)) ;;
            mret false
          else
            report_terminated l t st
      end
  end.

Definition terminateHooksPreemptively (ls : list loc) : M bool :=
  st_fold ls true (λ ok l, r ← terminate_hook l; mret (ok && r)).

(** *** Pieces of [Sync] *)

Definition filterOutOfSyncTasks (h : heap) (ls : list loc) : list loc :=
  Filter h (λ t,
    isHook t ||
    match modificationResult sc !! resourceKey t with
    | Some modified => negb (negb modified && negb (isPrune t) && has_live t)
    | None => true
    end) ls.

Definition getNamespaceCreationTask (h : heap) (ls : list loc) : option loc :=
  head (Filter h (λ t, negb (has_live t) && isNamespaceWithName (targetObj t) (sc_namespace sc)) ls).

(** The distinct messages of failed results, in the order they are met *)
Definition failed_messages (rs : list ResourceSyncResult) : list string :=
  foldl (λ acc r,
      if bool_decide (res_Status r = ResultCodeSyncFailed) && negb (String.eqb (res_Message r) "")
         && negb (bool_decide (res_Message r ∈ acc))
      then acc ++ [res_Message r] else acc) [] rs.

Definition sync_invalid : M unit :=
  s ← st_get;
  let errMessages := failed_messages (go_range (syncRes s)).*2 in
  setOperationPhase OperationFailed
    (match errMessages with
     | [] => "one or more synchronization tasks are not valid"
     | _ => "one or more synchronization tasks are not valid: " +:+ Join (sort_Strings errMessages) "; "
     end).

(** The dry run before the first step; [false]: the operation has ended. *)
Definition dry_run_rest (ls : list loc) : M bool :=
  h ← get_heap;
  let ls := if applyOutOfSyncOnly sc then filterOutOfSyncTasks h ls else ls in
  r ← runTasks sc ls true;
  if bool_decide (r = rs_failed)
  then setOperationPhase OperationFailed "one or more objects failed to apply (dry run)" ;; mret false
  else mret true.

Definition dry_run_stage (ls : list loc) : M bool :=
  b ← started;
  if (b : bool) then mret true else
  h ← get_heap;
  match getNamespaceCreationTask h ls with
  | Some nsCreateTask =>
      r ← runTasks sc [nsCreateTask] false;
      if bool_decide (r = rs_failed)
      then executeSyncFailPhase [] [nsCreateTask] "the namespace failed to apply" ;; mret false
      else dry_run_rest (filter (λ l, l ≠ nsCreateTask) ls)
  | None => dry_run_rest ls
  end.

(** Refreshing the state of one running task from its live object *)
Definition update_running (l : loc) : M unit :=
  t ← get_task l;
  let live := default nil_obj (liveObj t) in
  if isHook t then
    match getOperationPhase live with
    | inr err =>
        setResourceResult l (syncStatus t) OperationError ("failed to get resource health: " +:+ err)
    | inl (p, m) => setResourceResult l (syncStatus t) p m
    end
  else
    match GetResourceHealth live (healthOverride sc) with
    | (_, Some _) => mret tt
    | (None, None) => setResourceResult l (syncStatus t) OperationSucceeded (message t)
    | (Some h, None) =>
        match Status h with
        | HealthStatusHealthy => setResourceResult l (syncStatus t) OperationSucceeded (Message h)
        | HealthStatusDegraded => setResourceResult l (syncStatus t) OperationFailed (Message h)
        | _ => mret tt
        end
    end.

(** A running task whose resource is gone *)
Definition check_missing (l : loc) : M unit :=
  t ← get_task l;
  if has_live t then mret tt else
  r ← getResource l;
  match r with
  | inl _ => mret tt
  | inr err =>
      if negb (IsNotFound err)
      then setResourceResult l (syncStatus t) OperationError ("Failed to get live resource " +:+ Error err)
      else setResourceResult l ResultCodeSyncFailed OperationError
             ("Resource " +:+ group t +:+ "/" +:+ kind t +:+ "/" +:+ name t +:+
              " is missing, it might have been deleted")
  end.

Definition finish_hook (l : loc) : M unit :=
  err ← removeHookFinalizer l;
  match err with
  | Some e =>
      t ← get_task l;
      setResourceResult l (syncStatus t) OperationError ("Failed to remove hook finalizer: " +:+ Error e)
  | None => mret tt
  end.

(** The tasks a step waits for *)
Definition waiting_tasks (h : heap) (ls : list loc) : list loc :=
  let multi := multiStep h ls in
  Filter h (λ t, (multi || isHook t) && running t) ls.

Definition pruned_pending_delete (h : heap) (ls : list loc) : list loc :=
  Filter h (λ t, pruned t && match liveObj t with
                             | Some o => if GetDeletionTimestamp o is Some _ then true else false
                             | None => false
                             end) ls.

Definition sync_failed (t : syncTask) : bool := bool_decide (syncStatus t = ResultCodeSyncFailed).

(** What follows the run of a wave *)
Definition conclude_wave (wave_tasks remaining syncFailTasks hooksOk hooksFailed : list loc)
    (state : runState) : M unit :=
  h ← get_heap;
  match state with
  | rs_failed =>
      let syncFailedTasks := Filter h sync_failed wave_tasks in
      match Filter h running wave_tasks with
      | [] =>
          completed ← executeSyncFailPhase syncFailTasks syncFailedTasks "one or more objects failed to apply";
          if (completed : bool) then deleteHooks sc hooksFailed else mret tt
      | runningHooks =>
          runningHooks ←
            (match syncFailTasks with
             | [] => mret runningHooks
             | _ =>
                 completed ← executeSyncFailPhase syncFailTasks syncFailedTasks "one or more objects failed to apply";
                 mret (if (completed : bool) then runningHooks else runningHooks ++ syncFailTasks)
             end);
          setRunningPhase runningHooks false
      end
  | rs_successful =>
      if Nat.eqb (length remaining) 0 && negb (Any h isHook wave_tasks) then
        deleteHooks sc hooksOk ;;
        setOperationPhase OperationSucceeded "successfully synced (all tasks run)"
      else setRunningPhase wave_tasks false
  | rs_pending =>
      setRunningPhase (Filter h (λ t, deleteBeforeCreation t || (isPrune t && pending t)) wave_tasks) true
  end.

(** The tasks of the first phase and wave of a slice, and the others *)
Definition split_wave (h : heap) (ls : list loc) : list loc * list loc :=
  SplitTasks h (λ t, bool_decide (Some (phase t) = first_phase h ls) && (wave t =? first_wave h ls)%Z) ls.

Definition run_next_wave (ls syncFailTasks hooksOk hooksFailed : list loc) : M unit :=
  h ← get_heap;
  let p := default SyncPhaseSync (first_phase h ls) in
  let w := first_wave h ls in
  let finalWave := bool_decide (first_phase h ls = lastPhase h ls) && (w =? lastWave h ls)%Z in
  let '(wave_tasks, remaining) := split_wave h ls in
  setOperationPhase OperationRunning "one or more tasks are running" ;;
  state ← runTasks sc wave_tasks false;
  hookErr ← (if syncWaveHook sc && negb (bool_decide (state = rs_failed))
             then call (ReqWaveHook p w finalWave) else mret None);
  match hookErr with
  | Some err =>
      h ← get_heap;
      terminateHooksPreemptively (Filter h isHook wave_tasks) ;;
      setOperationPhase OperationError ("SyncWaveHook failed: " +:+ Error err)
  | None => conclude_wave wave_tasks remaining syncFailTasks hooksOk hooksFailed state
  end.

(** [Sync] after the health of running tasks has been refreshed and nothing
    is left to wait for *)
Definition sync_continue (ls : list loc) : M unit :=
  h ← get_heap;
  st_for (Filter h (λ t, isHook t && completed t) ls) finish_hook ;;
  h ← get_heap;
  let hooksOk := Filter h (λ t, isHook t && has_live t && negb (running t) && deleteOnPhaseSuccessful t) ls in
  let hooksFailed := Filter h (λ t, isHook t && has_live t && negb (running t) && deleteOnPhaseFailed t) ls in
  let '(syncFailTasks, ls) := SplitTasks h (λ t, bool_decide (phase t = SyncPhaseSyncFail)) ls in
  let syncFailedTasks := Filter h sync_failed ls in
  if Any h (λ t, completed t && negb (successful t)) ls then
    deleteHooks sc hooksFailed ;;
    executeSyncFailPhase syncFailTasks syncFailedTasks
      "one or more synchronization tasks completed unsuccessfully" ;;
    mret tt
  else
    let ls := Filter h pending ls in
    let ls := if applyOutOfSyncOnly sc then filterOutOfSyncTasks h ls else ls in
    match ls with
    | [] =>
        deleteHooks sc hooksOk ;;
        setOperationPhase OperationSucceeded "successfully synced (no more tasks)"
    | _ => run_next_wave ls syncFailTasks hooksOk hooksFailed
    end.

Definition sync_step (ls : list loc) : M unit :=
  h ← get_heap;
  st_for (Filter h (λ t, running t && has_live t) ls) update_running ;;
  h ← get_heap;
  match waiting_tasks h ls with
  | [] =>
      match pruned_pending_delete h ls with
      | [] => sync_continue ls
      | pd => setRunningPhase pd true
      end
  | runningTasks =>
      st_for runningTasks check_missing ;;
      setRunningPhase runningTasks false
  end.

Definition Sync : M unit :=
  r ← getSyncTasks sc;
  let '(ls, ok) := r in
  if negb ok then sync_invalid else
  go ← dry_run_stage ls;
  if negb (go : bool) then mret tt else
  sync_step ls.

Definition Terminate : M unit :=
  r ← getSyncTasks sc;
  let ls := r.1 in
  h ← get_heap;
  st_for (Filter h (λ t, isHook t && completed t) ls) finish_hook ;;
  h ← get_heap;
  ok ← terminateHooksPreemptively (Filter h isHook ls);
  if (ok : bool) then setOperationPhase OperationFailed "Operation terminated"
  else setOperationPhase OperationError "Operation termination had errors".

Definition GetState (s : sc_state) : OperationPhase * string * list ResourceSyncResult :=
  (sc_phase s, sc_message s,
   go_sort (λ a b, (res_Order a <? res_Order b)%Z) (go_range (syncRes s)).*2).
End operation.
