(* ===== verification/SyncOpts.v ===== *)
(** * Building a sync context: [NewSyncContext] and its options

    [gitops-engine/pkg/sync/sync_context.go], the constructor and the [SyncOpt]
    callbacks.  A context is the pair of its read-only fields ([settings]) and
    its mutable ones ([sc_state]); an option edits the pair. *)

From S2P Require Import Prelude GoStd Kube SyncCommon SyncTask Health Reconcile SyncState SyncRun SyncTrace SyncPlan SyncOp.

Local Open Scope string_scope.
Local Open Scope list_scope.

Notation SyncOpt := (settings * sc_state → settings * sc_state) (only parsing).

(** An option that edits a read-only field *)
Definition on_settings (f : settings → settings) : SyncOpt := λ ctx, (f ctx.1, ctx.2).

Definition WithPrunePropagationPolicy (policy : option string) : SyncOpt :=
  on_settings (λ c,
    mkSettings (healthOverride c) (permissionValidator c) (hooks c) (sc_namespace c) (dryRun c)
      (skipDryRunOnMissingResource c) (force c) (validate c) (skipHooks c) (resourcesFilter c) (prune c)
      (replace c) (serverSideApply c) (serverSideApplyManager c) (pruneLast c) policy (pruneConfirmed c)
      (defaultPruneOption c) (clientSideApplyMigrationManager c) (enableClientSideApplyMigration c)
      (startedAt c) (revision c) (syncNamespace c) (syncWaveHook c) (applyOutOfSyncOnly c)
      (modificationResult c)).

Definition WithPermissionValidator (validator : Unstructured → APIResource → option error) : SyncOpt :=
  on_settings (λ c,
    mkSettings (healthOverride c) validator (hooks c) (sc_namespace c) (dryRun c)
      (skipDryRunOnMissingResource c) (force c) (validate c) (skipHooks c) (resourcesFilter c) (prune c)
      (replace c) (serverSideApply c) (serverSideApplyManager c) (pruneLast c) (prunePropagationPolicy c)
      (pruneConfirmed c) (defaultPruneOption c) (clientSideApplyMigrationManager c)
      (enableClientSideApplyMigration c) (startedAt c) (revision c) (syncNamespace c) (syncWaveHook c)
      (applyOutOfSyncOnly c) (modificationResult c)).

Definition WithHealthOverride (override : option HealthOverride) : SyncOpt :=
  on_settings (λ c,
    mkSettings override (permissionValidator c) (hooks c) (sc_namespace c) (dryRun c)
      (skipDryRunOnMissingResource c) (force c) (validate c) (skipHooks c) (resourcesFilter c) (prune c)
      (replace c) (serverSideApply c) (serverSideApplyManager c) (pruneLast c) (prunePropagationPolicy c)
      (pruneConfirmed c) (defaultPruneOption c) (clientSideApplyMigrationManager c)
      (enableClientSideApplyMigration c) (startedAt c) (revision c) (syncNamespace c) (syncWaveHook c)
      (applyOutOfSyncOnly c) (modificationResult c)).

Definition WithResourcesFilter (f : option (ResourceKey → option Unstructured → option Unstructured → bool)) : SyncOpt :=
  on_settings (λ c,
    mkSettings (healthOverride c) (permissionValidator c) (hooks c) (sc_namespace c) (dryRun c)
      (skipDryRunOnMissingResource c) (force c) (validate c) (skipHooks c) f (prune c) (replace c)
      (serverSideApply c) (serverSideApplyManager c) (pruneLast c) (prunePropagationPolicy c)
      (pruneConfirmed c) (defaultPruneOption c) (clientSideApplyMigrationManager c)
      (enableClientSideApplyMigration c) (startedAt c) (revision c) (syncNamespace c) (syncWaveHook c)
      (applyOutOfSyncOnly c) (modificationResult c)).

Definition WithSkipHooks (b : bool) : SyncOpt :=
  on_settings (λ c,
    mkSettings (healthOverride c) (permissionValidator c) (hooks c) (sc_namespace c) (dryRun c)
      (skipDryRunOnMissingResource c) (force c) (validate c) b (resourcesFilter c) (prune c) (replace c)
      (serverSideApply c) (serverSideApplyManager c) (pruneLast c) (prunePropagationPolicy c)
      (pruneConfirmed c) (defaultPruneOption c) (clientSideApplyMigrationManager c)
      (enableClientSideApplyMigration c) (startedAt c) (revision c) (syncNamespace c) (syncWaveHook c)
      (applyOutOfSyncOnly c) (modificationResult c)).

Definition WithPrune (b : bool) : SyncOpt :=
  on_settings (λ c,
    mkSettings (healthOverride c) (permissionValidator c) (hooks c) (sc_namespace c) (dryRun c)
      (skipDryRunOnMissingResource c) (force c) (validate c) (skipHooks c) (resourcesFilter c) b (replace c)
      (serverSideApply c) (serverSideApplyManager c) (pruneLast c) (prunePropagationPolicy c)
      (pruneConfirmed c) (defaultPruneOption c) (clientSideApplyMigrationManager c)
      (enableClientSideApplyMigration c) (startedAt c) (revision c) (syncNamespace c) (syncWaveHook c)
      (applyOutOfSyncOnly c) (modificationResult c)).

Definition WithDefaultPruneOption (o : option string) : SyncOpt :=
  on_settings (λ c,
    mkSettings (healthOverride c) (permissionValidator c) (hooks c) (sc_namespace c) (dryRun c)
      (skipDryRunOnMissingResource c) (force c) (validate c) (skipHooks c) (resourcesFilter c) (prune c)
      (replace c) (serverSideApply c) (serverSideApplyManager c) (pruneLast c) (prunePropagationPolicy c)
      (pruneConfirmed c) o (clientSideApplyMigrationManager c) (enableClientSideApplyMigration c)
      (startedAt c) (revision c) (syncNamespace c) (syncWaveHook c) (applyOutOfSyncOnly c)
      (modificationResult c)).

Definition WithPruneConfirmed (confirmed : bool) : SyncOpt :=
  on_settings (λ c,
    mkSettings (healthOverride c) (permissionValidator c) (hooks c) (sc_namespace c) (dryRun c)
      (skipDryRunOnMissingResource c) (force c) (validate c) (skipHooks c) (resourcesFilter c) (prune c)
      (replace c) (serverSideApply c) (serverSideApplyManager c) (pruneLast c) (prunePropagationPolicy c)
      confirmed (defaultPruneOption c) (clientSideApplyMigrationManager c) (enableClientSideApplyMigration c)
      (startedAt c) (revision c) (syncNamespace c) (syncWaveHook c) (applyOutOfSyncOnly c)
      (modificationResult c)).

Definition WithOperationSettings (dry prune_ force_ skip : bool) : SyncOpt :=
  on_settings (λ c,
    mkSettings (healthOverride c) (permissionValidator c) (hooks c) (sc_namespace c) dry
      (skipDryRunOnMissingResource c) force_ (validate c) skip (resourcesFilter c) prune_ (replace c)
      (serverSideApply c) (serverSideApplyManager c) (pruneLast c) (prunePropagationPolicy c)
      (pruneConfirmed c) (defaultPruneOption c) (clientSideApplyMigrationManager c)
      (enableClientSideApplyMigration c) (startedAt c) (revision c) (syncNamespace c) (syncWaveHook c)
      (applyOutOfSyncOnly c) (modificationResult c)).

Definition WithManifestValidation (enabled : bool) : SyncOpt :=
  on_settings (λ c,
    mkSettings (healthOverride c) (permissionValidator c) (hooks c) (sc_namespace c) (dryRun c)
      (skipDryRunOnMissingResource c) (force c) enabled (skipHooks c) (resourcesFilter c) (prune c)
      (replace c) (serverSideApply c) (serverSideApplyManager c) (pruneLast c) (prunePropagationPolicy c)
      (pruneConfirmed c) (defaultPruneOption c) (clientSideApplyMigrationManager c)
      (enableClientSideApplyMigration c) (startedAt c) (revision c) (syncNamespace c) (syncWaveHook c)
      (applyOutOfSyncOnly c) (modificationResult c)).

Definition WithPruneLast (enabled : bool) : SyncOpt :=
  on_settings (λ c,
    mkSettings (healthOverride c) (permissionValidator c) (hooks c) (sc_namespace c) (dryRun c)
      (skipDryRunOnMissingResource c) (force c) (validate c) (skipHooks c) (resourcesFilter c) (prune c)
      (replace c) (serverSideApply c) (serverSideApplyManager c) enabled (prunePropagationPolicy c)
      (pruneConfirmed c) (defaultPruneOption c) (clientSideApplyMigrationManager c)
      (enableClientSideApplyMigration c) (startedAt c) (revision c) (syncNamespace c) (syncWaveHook c)
      (applyOutOfSyncOnly c) (modificationResult c)).

Definition WithResourceModificationChecker {D} (unmarshal : D → option Unstructured) (Modified : D → bool)
    (enabled : bool) (diffResults : list D) : SyncOpt :=
  on_settings (λ c,
    mkSettings (healthOverride c) (permissionValidator c) (hooks c) (sc_namespace c) (dryRun c)
      (skipDryRunOnMissingResource c) (force c) (validate c) (skipHooks c) (resourcesFilter c) (prune c)
      (replace c) (serverSideApply c) (serverSideApplyManager c) (pruneLast c) (prunePropagationPolicy c)
      (pruneConfirmed c) (defaultPruneOption c) (clientSideApplyMigrationManager c)
      (enableClientSideApplyMigration c) (startedAt c) (revision c) (syncNamespace c) (syncWaveHook c) enabled
      (if enabled then groupDiffResults unmarshal Modified diffResults else ∅)).

Definition WithNamespaceModifier (f : option (Unstructured → option Unstructured → Unstructured * (bool + error))) : SyncOpt :=
  on_settings (λ c,
    mkSettings (healthOverride c) (permissionValidator c) (hooks c) (sc_namespace c) (dryRun c)
      (skipDryRunOnMissingResource c) (force c) (validate c) (skipHooks c) (resourcesFilter c) (prune c)
      (replace c) (serverSideApply c) (serverSideApplyManager c) (pruneLast c) (prunePropagationPolicy c)
      (pruneConfirmed c) (defaultPruneOption c) (clientSideApplyMigrationManager c)
      (enableClientSideApplyMigration c) (startedAt c) (revision c) f (syncWaveHook c) (applyOutOfSyncOnly c)
      (modificationResult c)).

Definition WithSyncWaveHook (installed : bool) : SyncOpt :=
  on_settings (λ c,
    mkSettings (healthOverride c) (permissionValidator c) (hooks c) (sc_namespace c) (dryRun c)
      (skipDryRunOnMissingResource c) (force c) (validate c) (skipHooks c) (resourcesFilter c) (prune c)
      (replace c) (serverSideApply c) (serverSideApplyManager c) (pruneLast c) (prunePropagationPolicy c)
      (pruneConfirmed c) (defaultPruneOption c) (clientSideApplyMigrationManager c)
      (enableClientSideApplyMigration c) (startedAt c) (revision c) (syncNamespace c) installed
      (applyOutOfSyncOnly c) (modificationResult c)).

Definition WithReplace (b : bool) : SyncOpt :=
  on_settings (λ c,
    mkSettings (healthOverride c) (permissionValidator c) (hooks c) (sc_namespace c) (dryRun c)
      (skipDryRunOnMissingResource c) (force c) (validate c) (skipHooks c) (resourcesFilter c) (prune c) b
      (serverSideApply c) (serverSideApplyManager c) (pruneLast c) (prunePropagationPolicy c)
      (pruneConfirmed c) (defaultPruneOption c) (clientSideApplyMigrationManager c)
      (enableClientSideApplyMigration c) (startedAt c) (revision c) (syncNamespace c) (syncWaveHook c)
      (applyOutOfSyncOnly c) (modificationResult c)).

Definition WithSkipDryRunOnMissingResource (b : bool) : SyncOpt :=
  on_settings (λ c,
    mkSettings (healthOverride c) (permissionValidator c) (hooks c) (sc_namespace c) (dryRun c) b (force c)
      (validate c) (skipHooks c) (resourcesFilter c) (prune c) (replace c) (serverSideApply c)
      (serverSideApplyManager c) (pruneLast c) (prunePropagationPolicy c) (pruneConfirmed c)
      (defaultPruneOption c) (clientSideApplyMigrationManager c) (enableClientSideApplyMigration c)
      (startedAt c) (revision c) (syncNamespace c) (syncWaveHook c) (applyOutOfSyncOnly c)
      (modificationResult c)).

Definition WithServerSideApply (b : bool) : SyncOpt :=
  on_settings (λ c,
    mkSettings (healthOverride c) (permissionValidator c) (hooks c) (sc_namespace c) (dryRun c)
      (skipDryRunOnMissingResource c) (force c) (validate c) (skipHooks c) (resourcesFilter c) (prune c)
      (replace c) b (serverSideApplyManager c) (pruneLast c) (prunePropagationPolicy c) (pruneConfirmed c)
      (defaultPruneOption c) (clientSideApplyMigrationManager c) (enableClientSideApplyMigration c)
      (startedAt c) (revision c) (syncNamespace c) (syncWaveHook c) (applyOutOfSyncOnly c)
      (modificationResult c)).

Definition WithServerSideApplyManager (manager : string) : SyncOpt :=
  on_settings (λ c,
    mkSettings (healthOverride c) (permissionValidator c) (hooks c) (sc_namespace c) (dryRun c)
      (skipDryRunOnMissingResource c) (force c) (validate c) (skipHooks c) (resourcesFilter c) (prune c)
      (replace c) (serverSideApply c) manager (pruneLast c) (prunePropagationPolicy c) (pruneConfirmed c)
      (defaultPruneOption c) (clientSideApplyMigrationManager c) (enableClientSideApplyMigration c)
      (startedAt c) (revision c) (syncNamespace c) (syncWaveHook c) (applyOutOfSyncOnly c)
      (modificationResult c)).

Definition WithClientSideApplyMigration (enabled : bool) (manager : string) : SyncOpt :=
  on_settings (λ c,
    mkSettings (healthOverride c) (permissionValidator c) (hooks c) (sc_namespace c) (dryRun c)
      (skipDryRunOnMissingResource c) (force c) (validate c) (skipHooks c) (resourcesFilter c) (prune c)
      (replace c) (serverSideApply c) (serverSideApplyManager c) (pruneLast c) (prunePropagationPolicy c)
      (pruneConfirmed c) (defaultPruneOption c)
      (if enabled && negb (String.eqb manager "") then manager else clientSideApplyMigrationManager c) enabled
      (startedAt c) (revision c) (syncNamespace c) (syncWaveHook c) (applyOutOfSyncOnly c)
      (modificationResult c)).

Definition WithInitialState (p : OperationPhase) (m : string) (results : list ResourceSyncResult)
    (started : Z) : SyncOpt :=
  λ ctx,
    let '(c, s) := ctx in
    (mkSettings (healthOverride c) (permissionValidator c) (hooks c) (sc_namespace c) (dryRun c)
      (skipDryRunOnMissingResource c) (force c) (validate c) (skipHooks c) (resourcesFilter c) (prune c)
      (replace c) (serverSideApply c) (serverSideApplyManager c) (pruneLast c) (prunePropagationPolicy c)
      (pruneConfirmed c) (defaultPruneOption c) (clientSideApplyMigrationManager c)
      (enableClientSideApplyMigration c) started (revision c) (syncNamespace c) (syncWaveHook c)
      (applyOutOfSyncOnly c) (modificationResult c),
     mkState (resources s)
       (foldl (λ syncRes r, <[resourceResultKey (res_ResourceKey r) (res_SyncPhase r) := r]> syncRes) ∅ results)
       p m (tasks s) (fresh s) (trace s)).

(** Identities above those of the given objects, for later allocations *)
Definition unused_id (objs : list (option Unstructured)) : nat :=
  S (max_list_with (λ o, default 0 (ptr <$> o)) objs).

(** The first error among the four client constructors, wrapped *)
Definition client_errors (dynamicErr discoErr extErr manageErr : option error) : option error :=
  match wrap "failed to create dynamic client: " <$> dynamicErr with
  | Some e => Some e
  | None =>
      match wrap "failed to create discovery client: " <$> discoErr with
      | Some e => Some e
      | None =>
          match wrap "failed to create extensions client: " <$> extErr with
          | Some e => Some e
          | None => wrap "failed to manage resources: " <$> manageErr
          end
      end
  end.

Definition NewSyncContext (rev : string) (recon : ReconciliationResult)
    (dynamicErr discoErr extErr manageErr : option error) (now : Z) (ns : string)
    (opts : list SyncOpt) : (settings * sc_state) + error :=
  match client_errors dynamicErr discoErr extErr manageErr with
  | Some e => inr e
  | None =>
      let c :=
        mkSettings None (λ _ _, None) (rr_Hooks recon) ns false false false true false None false false false ""
          false None false None DefaultClientSideApplyMigrationManager true now rev None false false ∅ in
      let s := mkState (groupResources (rr_Target recon) (rr_Live recon)) ∅ OperationNone "" ∅
                 (unused_id (rr_Target recon ++ rr_Live recon ++ (Some <$> rr_Hooks recon))) [] in
      inl (foldl (λ ctx opt, opt ctx) (c, s) opts)
  end.
