(* ===== verification/SyncOpTrace.v ===== *)
(** * Properties of whole steps: what [Sync] and [Terminate] call and record

    The relations of [SyncTrace] that tolerate any change of the task store
    ([PlanClosed]) are kept by planning as well, hence by complete steps. *)

From S2P Require Import Prelude GoStd Kube SyncCommon SyncTask Health Reconcile SyncState SyncRun SyncTrace SyncPlan SyncOp SyncOpts.

Local Open Scope string_scope.
Local Open Scope list_scope.

Class PlanClosed (R : relation sc_state) (P : request → Prop) (K : loc → syncTask → Prop) : Prop := {
  pc_run :: RunClosed R P K;
  pc_tasks f s : R s (set_tasks f s);
}.

#[export] Instance emits_plan_phase P : PlanClosed (emits P) P (λ _ _, True).
Proof. split; [apply _|]. intros f s. by apply emits_same. Qed.

#[export] Instance results_plan_phase : PlanClosed results_rel (λ _, True) (λ _ _, True).
Proof. split; [apply _|]. intros f s. by apply results_same. Qed.

(** The calls a step of an operation may make. *)
Definition allowed (sc : settings) (r : request) : Prop :=
  match r with
  | ReqApply _ d _ _ _ _ | ReqReplace _ d _ | ReqCreate _ d _ | ReqUpdateResource _ d =>
      d = DryRunNone → dryRun sc = false
  | ReqPatch _ _ _ _ => dryRun sc = false
  | ReqKubectlDelete _ _ _ _ => dryRun sc = false ∧ prune sc = true
  | ReqWaveHook _ _ _ => syncWaveHook sc = true
  | _ => True
  end.

(** The calls of a termination: reads, and updates and deletions of hooks. *)
Definition hook_call (r : request) : Prop :=
  is_read r = true ∨ match r with ReqUpdate _ _ | ReqDelete _ _ _ _ => True | _ => False end.

(** Applies the rule of a run-phase handler. *)
Ltac run_rule lem := eapply lem; [apply _|..]; eauto with keeps.

(** *** Handlers that leave the plan alone *)

Section op_closed.
Context `{GoRuntime, HealthLibs, Cluster} (sc : settings).
Context (R : relation sc_state) (P : request → Prop) (K : loc → syncTask → Prop).
Context `{HR : !RunClosed R P K} (Hhook : ∀ r, hook_call r → P r).

Lemma Hreads : reads_ok P.
Proof. intros r Hr. apply Hhook. by left. Qed.
Lemma Hupdate o ns : P (ReqUpdate o ns).
Proof. apply Hhook. by right. Qed.
Lemma Hdelete g ns n p : P (ReqDelete g ns n p).
Proof. apply Hhook. by right. Qed.
Hint Resolve Hreads Hupdate Hdelete : keeps.

Lemma pkeeps_getResource l : keeps R (getResource l).
Proof. run_rule keeps_getResource. Qed.
Lemma pkeeps_removeHookFinalizer l : keeps R (removeHookFinalizer l).
Proof. run_rule keeps_removeHookFinalizer. Qed.
Lemma pkeeps_deleteResource l : keeps R (deleteResource sc l).
Proof. run_rule keeps_deleteResource. Qed.
Lemma pkeeps_deleteHooks ls : keeps R (deleteHooks sc ls).
Proof. run_rule keeps_deleteHooks. Qed.
Lemma pkeeps_new_id : keeps R new_id.
Proof. run_rule keeps_new_id. Qed.
Lemma pkeeps_get_task l : keeps R (get_task l).
Proof. run_rule keeps_get_task. Qed.
Lemma pkeeps_get_heap : keeps R get_heap.
Proof. run_rule keeps_get_heap. Qed.
Lemma pkeeps_started : keeps R started.
Proof. run_rule keeps_started. Qed.
Lemma pkeeps_op p m : keeps R (setOperationPhase p m).
Proof. run_rule keeps_setOperationPhase. Qed.
Lemma pkeeps_result l st op m : keeps R (setResourceResult l st op m).
Proof. run_rule keeps_setResourceResult. Qed.
Lemma pkeeps_update_live l o : keeps R (update_task l (set_live o)).
Proof. run_rule keeps_update_live. Qed.

Hint Resolve pkeeps_getResource pkeeps_removeHookFinalizer pkeeps_deleteResource pkeeps_deleteHooks
  pkeeps_new_id pkeeps_get_task pkeeps_get_heap pkeeps_started pkeeps_op pkeeps_result
  pkeeps_update_live : keeps.

Lemma pkeeps_finish_hook l : keeps R (finish_hook l).
Proof. unfold finish_hook. keeps_go. Qed.

Lemma pkeeps_terminate_hook l : keeps R (terminate_hook sc l).
Proof. unfold terminate_hook, fetch_hook_live, report_terminated. keeps_go. Qed.

Lemma pkeeps_terminateHooks ls : keeps R (terminateHooksPreemptively sc ls).
Proof. unfold terminateHooksPreemptively. keeps_go. apply pkeeps_terminate_hook. Qed.

Lemma pkeeps_setRunningPhase ls b : keeps R (setRunningPhase sc ls b).
Proof. unfold setRunningPhase. keeps_go. Qed.
Lemma pkeeps_update_running l : keeps R (update_running sc l).
Proof. unfold update_running. keeps_go. Qed.
Lemma pkeeps_check_missing l : keeps R (check_missing l).
Proof. unfold check_missing. keeps_go. Qed.
Hint Resolve pkeeps_finish_hook pkeeps_terminateHooks pkeeps_setRunningPhase pkeeps_update_running
  pkeeps_check_missing : keeps.

(** The tasks that may be run: those of [may]. *)
Context (may : loc → Prop).
Context (Hrun : ∀ ls dry, (∀ l, l ∈ ls → may l) → keeps R (runTasks sc ls dry)).
Context (Hwave : ∀ p w b, syncWaveHook sc = true → P (ReqWaveHook p w b)).

Lemma may_Filter h f ls : (∀ l, l ∈ ls → may l) → ∀ l, l ∈ Filter h f ls → may l.
Proof. intros Hl l Hin. unfold Filter in Hin. apply list_elem_of_filter in Hin as [_ ?]. auto. Qed.

Lemma pkeeps_executeSyncFailPhase a b m :
  (∀ l, l ∈ a → may l) → keeps R (executeSyncFailPhase sc a b m).
Proof. intros Ha. unfold executeSyncFailPhase. keeps_go. apply Hrun. by apply may_Filter. Qed.
Hint Resolve pkeeps_executeSyncFailPhase : keeps.

Lemma pkeeps_conclude_wave a b c d e st :
  (∀ l, l ∈ c → may l) → keeps R (conclude_wave sc a b c d e st).
Proof. intros Hc. unfold conclude_wave. keeps_go. Qed.

(** What follows the choice of the tasks of a wave *)
Lemma pkeeps_run_wave now later p w b c d e :
  (∀ l, l ∈ now → may l) → (∀ l, l ∈ c → may l) →
  keeps R (setOperationPhase OperationRunning "one or more tasks are running" ;;
    state ← runTasks sc now false;
    hookErr ← (if syncWaveHook sc && negb (bool_decide (state = rs_failed))
               then call (ReqWaveHook p w b) else mret None);
    match hookErr with
    | Some err =>
        h ← get_heap;
        terminateHooksPreemptively sc (Filter h isHook now) ;;
        setOperationPhase OperationError ("SyncWaveHook failed: " +:+ Error err)
    | None => conclude_wave sc now later c d e state
    end).
Proof.
  intros Hnow Hc. keeps_go.
  - eapply keeps_call; [apply _|]. apply Hwave. match goal with E : _ && _ = true |- _ => by apply andb_true_iff in E as [? _] end.
  - by apply pkeeps_conclude_wave.
Qed.

Lemma pkeeps_run_next_wave ls c d e :
  (∀ l, l ∈ ls → may l) → (∀ l, l ∈ c → may l) → keeps R (run_next_wave sc ls c d e).
Proof.
  intros Hls Hc. unfold run_next_wave, split_wave, SplitTasks.
  apply keeps_bind; [apply _|apply pkeeps_get_heap|]. intros h. cbv zeta.
  apply pkeeps_run_wave; [|done]. intros l [_ Hl]%list_elem_of_filter. auto.
Qed.
End op_closed.

(** *** Planning, and complete steps *)

Section plan_closed.
Context `{GoRuntime, HealthLibs, Cluster} (sc : settings).
Context (R : relation sc_state) (P : request → Prop) (K : loc → syncTask → Prop).
Context `{HR : !PlanClosed R P K} (Hrd : reads_ok P).

Lemma plan_alloc t : keeps R (alloc t).
Proof.
  unfold alloc. apply keeps_bind; [apply _|run_rule keeps_new_id|]. intros l.
  apply keeps_bind; [apply _| |intros ?; apply keeps_ret, _]. intros s. apply pc_tasks.
Qed.

Lemma plan_update_task l g : keeps R (update_task l g).
Proof. intros s. apply pc_tasks. Qed.

Lemma plan_modify_tasks f : keeps R (st_modify (set_tasks f)).
Proof. intros s. apply pc_tasks. Qed.

Lemma plan_call r : is_read r = true → keeps R (call r).
Proof. intros Hr. eapply keeps_call; [apply _|by apply Hrd]. Qed.

Lemma plan_rule_get_task l : keeps R (get_task l).
Proof. run_rule keeps_get_task. Qed.
Lemma plan_rule_get_heap : keeps R get_heap.
Proof. run_rule keeps_get_heap. Qed.
Lemma plan_rule_new_id : keeps R new_id.
Proof. run_rule keeps_new_id. Qed.
Lemma plan_rule_op p m : keeps R (setOperationPhase p m).
Proof. run_rule keeps_setOperationPhase. Qed.
Lemma plan_rule_result l st op m : keeps R (setResourceResult l st op m).
Proof. run_rule keeps_setResourceResult. Qed.

Hint Resolve plan_alloc plan_update_task plan_modify_tasks plan_rule_get_task plan_rule_get_heap
  plan_rule_new_id plan_rule_op plan_rule_result : keeps.

Lemma pkeeps_appendFailedNsTask ls o e : keeps R (appendFailedNsTask ls o e).
Proof. unfold appendFailedNsTask. keeps_go. Qed.
Hint Resolve pkeeps_appendFailedNsTask : keeps.

Lemma pkeeps_autoCreateNamespace f ls : keeps R (autoCreateNamespace sc f ls).
Proof. unfold autoCreateNamespace, appendNsTask. keeps_go. by apply plan_call. Qed.

Lemma pkeeps_check_permission acc l : keeps R (check_permission sc acc l).
Proof.
  unfold check_permission, lookup_server_res, reject, discover_retry. keeps_go.
  run_rule keeps_retry. run_rule keeps_discover.
Qed.
Lemma pkeeps_enrich_namespace l : keeps R (enrich_namespace sc l).
Proof. unfold enrich_namespace. keeps_go. Qed.

Lemma pkeeps_enrich_live l : keeps R (enrich_live l).
Proof. unfold enrich_live. keeps_go. Qed.
Hint Resolve pkeeps_autoCreateNamespace pkeeps_check_permission pkeeps_enrich_namespace pkeeps_enrich_live : keeps.

Lemma pkeeps_getSyncTasks : keeps R (getSyncTasks sc).
Proof.
  unfold getSyncTasks, plan_tasks, resource_tasks, hook_tasks, order_tasks, enrich_result.
  keeps_go.
Qed.
Hint Resolve pkeeps_getSyncTasks : keeps.

Context (Hhook : ∀ r, hook_call r → P r).

(** Applies the rule of a handler of an operation. *)
Ltac op_rule lem := eapply lem; try apply _; try exact Hhook; eauto with keeps.

Lemma plan_finish_hook l : keeps R (finish_hook l).
Proof. op_rule pkeeps_finish_hook. Qed.
Lemma plan_terminateHooks ls : keeps R (terminateHooksPreemptively sc ls).
Proof. op_rule pkeeps_terminateHooks. Qed.
Hint Resolve plan_finish_hook plan_terminateHooks : keeps.

Lemma pkeeps_Terminate : keeps R (Terminate sc).
Proof. unfold Terminate. keeps_go. Qed.

Context (Hall : ∀ r, allowed sc r → P r).

Lemma pkeeps_runTasks ls dry : keeps R (runTasks sc ls dry).
Proof.
  eapply keeps_runTasks; [apply _|intros r Hr; apply Hhook; by left
    |intros; apply Hhook; by right..| |].
  - intros Hd Hp g n ns p. apply Hall. split; [|done]. by apply orb_false_iff in Hd as [_ ?].
  - intros l t _ _. destruct (dry || dryRun sc) eqn:Hd; repeat split; intros; apply Hall; simpl; intros; try done;
      by apply orb_false_iff in Hd as [_ ?].
Qed.
Hint Resolve pkeeps_runTasks : keeps.

Lemma plan_fail a b m : keeps R (executeSyncFailPhase sc a b m).
Proof. eapply (pkeeps_executeSyncFailPhase sc R P K (λ _, True)); auto with keeps. Qed.
Lemma plan_next_wave a b c d : keeps R (run_next_wave sc a b c d).
Proof.
  eapply (pkeeps_run_next_wave sc R P K Hhook (λ _, True)); auto with keeps.
Qed.
Lemma plan_deleteHooks ls : keeps R (deleteHooks sc ls).
Proof. op_rule pkeeps_deleteHooks. Qed.
Lemma plan_setRunningPhase ls b : keeps R (setRunningPhase sc ls b).
Proof. op_rule pkeeps_setRunningPhase. Qed.
Lemma plan_update_running l : keeps R (update_running sc l).
Proof. op_rule pkeeps_update_running. Qed.
Lemma plan_check_missing l : keeps R (check_missing l).
Proof. op_rule pkeeps_check_missing. Qed.
Lemma plan_started : keeps R started.
Proof. op_rule pkeeps_started. Qed.
Hint Resolve plan_fail plan_next_wave plan_deleteHooks plan_setRunningPhase plan_update_running
  plan_check_missing plan_started : keeps.

Lemma pkeeps_Sync : keeps R (Sync sc).
Proof.
  unfold Sync, sync_invalid, dry_run_stage, dry_run_rest, sync_step, sync_continue, SplitTasks. keeps_go.
Qed.
End plan_closed.

(** ** What is called *)

(** The calls of one step, whatever the cluster answers: an operation in
    dry-run mode never applies, replaces, creates or patches for real and never
    prunes; with pruning off nothing is pruned; the wave hook is called only
    when installed. *)
Theorem Sync_calls `{GoRuntime, HealthLibs, Cluster} (sc : settings) (s : sc_state) :
  emits (allowed sc) s (Sync sc s).2.
Proof.
  revert s. change (keeps (emits (allowed sc)) (Sync sc)). eapply pkeeps_Sync; [apply _|by intros []| |done].
  intros r [Hr|Hr]; by destruct r.
Qed.

(** Terminating an operation only reads, updates hooks (their finalizers)
    and deletes hooks: nothing is applied and nothing is pruned. *)
Theorem Terminate_calls `{GoRuntime, HealthLibs, Cluster} (sc : settings) (s : sc_state) :
  emits hook_call s (Terminate sc s).2.
Proof. revert s. change (keeps (emits hook_call) (Terminate sc)).
  eapply pkeeps_Terminate; [apply _|by left|done]. Qed.

(** ** What is recorded *)

Lemma Sync_results `{GoRuntime, HealthLibs, Cluster} sc s : results_rel s (Sync sc s).2.
Proof. revert s. change (keeps results_rel (Sync sc)). by eapply pkeeps_Sync; [apply _|..]. Qed.

Lemma Terminate_results `{GoRuntime, HealthLibs, Cluster} sc s : results_rel s (Terminate sc s).2.
Proof. revert s. change (keeps results_rel (Terminate sc)). by eapply pkeeps_Terminate; [apply _|..]. Qed.

Section results.
Context `{GoRuntime, HealthLibs, Cluster}.

Lemma order_strict_weak (l : list ResourceSyncResult) :
  strict_weak_on (λ a b, (res_Order a <? res_Order b)%Z) l.
Proof. split; intros *; intros; breflect; lia. Qed.

Lemma seq_sorted (a n : nat) : StronglySorted Z.le (Z.of_nat <$> seq a n).
Proof.
  revert a; induction n as [|n IH]; intros a; simpl; constructor; [done|].
  rewrite Forall_forall. intros x (y&->&Hy)%list_elem_of_fmap. apply elem_of_seq in Hy. lia.
Qed.

Lemma GetState_sorted s :
  orders_ok (syncRes s) →
  res_Order <$> (GetState s).2 = Z.of_nat <$> seq 1 (size (syncRes s)).
Proof.
  intros Ho. unfold GetState; simpl. set (less := λ a b : ResourceSyncResult, (res_Order a <? res_Order b)%Z).
  set (l := (go_range (syncRes s)).*2).
  apply (StronglySorted_unique Z.le).
  - pose proof (go_sort_sorted less l (order_strict_weak l)) as Hs. unfold sorted_by in Hs.
    induction Hs as [|x k Hk IH Hx]; simpl; constructor; [done|].
    apply Forall_fmap. eapply Forall_impl; [exact Hx|]. intros y Hy. unfold less in Hy. breflect. simpl. lia.
  - apply seq_sorted.
  - rewrite go_sort_perm. unfold l. rewrite go_range_perm. unfold orders_ok in Ho.
    rewrite <- Ho, <- list_fmap_compose. done.
Qed.

(** A stored map is rebuilt from the list of its values. *)
Lemma resume_map (m : gmap string ResourceSyncResult) (l : list ResourceSyncResult) :
  keys_ok m → l ≡ₚ (map_to_list m).*2 →
  foldl (λ acc r, <[resourceResultKey (res_ResourceKey r) (res_SyncPhase r) := r]> acc) ∅ l = m.
Proof.
  intros Hk Hl. set (kv r := (resourceResultKey (res_ResourceKey r) (res_SyncPhase r), r)).
  assert (E : kv <$> (map_to_list m).*2 = map_to_list m).
  { assert (Hall : ∀ k e, (k, e) ∈ map_to_list m → (k, e) = kv e).
    { intros k e Hke%elem_of_map_to_list. unfold kv. by rewrite <- (Hk k e). }
    revert Hall. generalize (map_to_list m). intros ml. induction ml as [|[k e] ml IH]; intros Hall; simpl; [done|].
    rewrite <- (Hall k e) by left. f_equal. apply IH. intros k' e' ?. apply Hall. by right. }
  assert (F : foldl (λ acc r, <[(kv r).1 := (kv r).2]> acc) ∅ l
    = (list_to_map (reverse (kv <$> l)) : gmap string ResourceSyncResult)).
  { clear Hl. induction l as [|r l IH] using rev_ind; [done|].
    rewrite foldl_app, fmap_app, reverse_app. cbn [foldl]. by rewrite IH. }
      assert (reverse (kv <$> l) ≡ₚ map_to_list m) as Hp by by rewrite reverse_Permutation, Hl, E.
  etransitivity; [exact F|]. etransitivity; [|apply list_to_map_to_list].
  apply list_to_map_proper; [|done]. rewrite Hp. apply NoDup_fst_map_to_list.
Qed.

(** Saving and resuming: the context built from the reported state of an
    operation holds exactly the results, phase and message it was saved
    with. *)
Theorem resume_roundtrip (s : sc_state) (ctx : settings * sc_state) (at_ : Z) :
  keys_ok (syncRes s) →
  let '(p, m, results) := GetState s in
  let s' := (WithInitialState p m results at_ ctx).2 in
  syncRes s' = syncRes s ∧ sc_phase s' = sc_phase s ∧ sc_message s' = sc_message s.
Proof.
  intros Hk. unfold GetState, WithInitialState. destruct ctx as [c s0]; simpl. split; [|done].
  apply resume_map; [done|]. by rewrite go_sort_perm, go_range_perm.
Qed.

(** *** Operations

    Between two steps the controller saves the reported state; the next step
    runs in a new context, with new settings and a new view of the cluster,
    resumed from it. *)
Inductive op_step : sc_state → sc_state → Prop :=
  | op_sync s p m rs at_ ctx :
      GetState s = (p, m, rs) →
      op_step s (Sync (WithInitialState p m rs at_ ctx).1 (WithInitialState p m rs at_ ctx).2).2
  | op_terminate s p m rs at_ ctx :
      GetState s = (p, m, rs) →
      op_step s (Terminate (WithInitialState p m rs at_ ctx).1 (WithInitialState p m rs at_ ctx).2).2.

Lemma op_step_results s s' : op_step s s' → keys_ok (syncRes s) → results_rel s s'.
Proof.
  assert (Hr : ∀ s p m rs at_ ctx, GetState s = (p, m, rs) → keys_ok (syncRes s) →
    syncRes (WithInitialState p m rs at_ ctx).2 = syncRes s).
  { intros s0 p m rs at_ ctx E Hk. unfold GetState in E. injection E as <- <- <-.
    destruct ctx. apply resume_map; [done|]. by rewrite go_sort_perm, go_range_perm. }
  destruct 1 as [s p m rs at_ ctx E|s p m rs at_ ctx E]; intros Hk; specialize (Hr s p m rs at_ ctx E Hk).
  - transitivity (WithInitialState p m rs at_ ctx).2; [by apply results_same|apply Sync_results].
  - transitivity (WithInitialState p m rs at_ ctx).2; [by apply results_same|apply Terminate_results].
Qed.

Lemma op_steps_results s s' : rtc op_step s s' → keys_ok (syncRes s) → results_rel s s'.
Proof.
  induction 1 as [s|s s1 s' Hs _ IH]; intros Hk; [reflexivity|].
  pose proof (op_step_results _ _ Hs Hk) as Hr. transitivity s1; [done|]. apply IH. by apply Hr.
Qed.

(** C4. Over a whole operation of any length, with arbitrary settings and
    cluster behaviour at each step: a result, once recorded, is never lost
    and keeps its resource, phase, hook type, images, version and number; and
    the results reported in order are numbered 1, 2, ..., n. *)
Theorem operation_results (s0 s1 s2 : sc_state) :
  syncRes s0 = ∅ → rtc op_step s0 s1 → rtc op_step s1 s2 →
  results_grow (syncRes s1) (syncRes s2) ∧
  res_Order <$> (GetState s2).2 = Z.of_nat <$> seq 1 (size (syncRes s2)) ∧
  (size (syncRes s1) ≤ size (syncRes s2))%nat.
Proof.
  intros E0 H01 H12. assert (keys_ok (syncRes s0)) as K0 by (rewrite E0; intros k e; by rewrite lookup_empty).
  assert (orders_ok (syncRes s0)) as O0
    by (rewrite E0; unfold orders_ok; by rewrite map_to_list_empty, map_size_empty).
  destruct (op_steps_results _ _ H01 K0) as (_&O1&K1).
  destruct (op_steps_results _ _ H12 (K1 K0)) as (G2&O2&_).
  split_and!; [done|by apply GetState_sorted; auto|].
  rewrite <- !size_dom. apply subseteq_size. intros k [e He]%elem_of_dom.
  destruct (G2 k e He) as (e'&He'&_). apply elem_of_dom. eauto.
Qed.
End results.
