(* ===== verification/SyncOrder.v ===== *)
(** * The order of a plan

    The slice that [getSyncTasks] returns has no repeated task, is sorted by
    (phase, wave), and puts prune-last tasks behind every other task of the
    Sync phase. *)

From S2P Require Import Prelude GoStd Kube SyncCommon SyncTask Health Reconcile SyncState SyncRun SyncTrace SyncPlan SyncOp SyncOpts SyncOpTrace.

Local Open Scope string_scope.
Local Open Scope list_scope.

(** ** Prune last *)

Section prune_last.
Context (sc : settings).

(** The task is pruned in the extra last wave. *)
Definition prunes_last (t : syncTask) : bool :=
  isPrune t && (pruneLast sc || opt_has (liveObj t) SyncOptionPruneLast).

Lemma last_sync_wave_bound h ls l :
  l ∈ ls → phase (deref h l) = SyncPhaseSync → (wave (deref h l) ≤ last_sync_wave h ls)%Z.
Proof.
  unfold last_sync_wave. induction ls as [|x ls IH] using rev_ind; intros Hl Hp; [by apply not_elem_of_nil in Hl|].
  rewrite foldl_app; simpl. apply elem_of_app in Hl as [Hl|Hl].
  - specialize (IH Hl Hp). case_match; breflect; lia.
  - apply list_elem_of_singleton in Hl as ->. rewrite Hp; simpl. case_match; breflect; lia.
Qed.

Lemma last_sync_wave_range h ls (b : Z) :
  (0 ≤ b)%Z → (∀ l, l ∈ ls → (wave (deref h l) ≤ b)%Z) → (0 ≤ last_sync_wave h ls ≤ b)%Z.
Proof.
  unfold last_sync_wave. induction ls as [|x ls IH] using rev_ind; intros Hb Hl; simpl; [lia|].
  rewrite foldl_app; simpl.
  specialize (IH Hb (λ l Hin, Hl l (proj2 (elem_of_app _ _ _) (or_introl Hin)))).
  specialize (Hl x). rewrite elem_of_app, list_elem_of_singleton in Hl. specialize (Hl (or_intror eq_refl)).
  case_match; breflect; lia.
Qed.

Lemma prune_last_waves_deref ls h l :
  deref (prune_last_waves sc ls h) l =
    if decide (l ∈ ls ∧ prunes_last (deref h l) = true)
    then set_wave (last_sync_wave h ls +! 1)%go (deref h l) else deref h l.
Proof.
  unfold prune_last_waves. generalize (last_sync_wave h ls +! 1)%go. intros w. cbv zeta.
  revert l; induction ls as [|x ls IH] using rev_ind; intros l.
  { rewrite decide_False; [done|]. intros [Hn _]. by apply not_elem_of_nil in Hn. }
  rewrite foldl_app. cbn [foldl]. set (h1 := foldl _ h ls) in *. fold (prunes_last (deref h1 x)).
  assert (Hx : prunes_last (deref h1 x) = prunes_last (deref h x)) by (rewrite IH; by case_decide).
  rewrite Hx. destruct (decide (x = l)) as [->|Hne].
  - destruct (prunes_last (deref h l)) eqn:E.
    + rewrite deref_insert, IH, (decide_True (P := l ∈ ls ++ [l] ∧ _)); [by case_decide|].
      split; [|done]. rewrite elem_of_app, list_elem_of_singleton. by right.
    + rewrite IH, !decide_False; [done|intros [_ ?]; congruence..].
  - transitivity (deref h1 l); [destruct (prunes_last (deref h x)); [by rewrite deref_insert_ne|done]|].
    rewrite IH. apply decide_ext. rewrite elem_of_app, list_elem_of_singleton. intuition congruence.
Qed.
End prune_last.

(** Prune-last: every task that prunes last ends up in a wave strictly
    greater than that of every other task of the Sync phase, and the other
    tasks keep their wave. *)
Theorem prune_last_is_last (sc : settings) (ls : list loc) (h : heap) :
  (∀ l, l ∈ ls → (wave (deref h l) < int_max)%Z) →
  let h' := prune_last_waves sc ls h in
  ∀ a b, a ∈ ls → b ∈ ls → prunes_last sc (deref h a) = true → prunes_last sc (deref h b) = false →
    deref h' b = deref h b ∧
    (phase (deref h b) = SyncPhaseSync → (wave (deref h' b) < wave (deref h' a))%Z).
Proof.
  intros Hmax h' a b Ha Hb Hla Hlb. unfold h'. rewrite !prune_last_waves_deref.
  rewrite (decide_True (P := a ∈ ls ∧ _)) by done. rewrite decide_False by (intros [_ ?]; congruence).
  split; [done|]. intros Hp. pose proof (last_sync_wave_bound h ls b Hb Hp) as Hle.
  pose proof (last_sync_wave_range h ls (int_max - 1)) as Hr.
  destruct Hr as [? ?]; [done|intros l Hl; specialize (Hmax l Hl); lia|].
  unfold set_wave, wave at 2; simpl. rewrite wrap64_id; [lia|]. unfold in_int64, int_min, int_max in *. lia.
Qed.

Definition prune_heap : heap :=
  list_to_map
    [ (0, newTask SyncPhaseSync None (Some (example_obj "" "ConfigMap" "a" "x"
             (<[AnnotationSyncOptions := "PruneLast=true"]> {[AnnotationSyncWave := "-2"]}) JNull)));
      (1, newTask SyncPhaseSync (Some (example_obj "" "ConfigMap" "a" "y" {[AnnotationSyncWave := "5"]} JNull)) None) ].

Definition prune_settings : settings :=
  mkSettings None (λ _ _, None) [] "ns" false false false true false None true false false "" false None
    false None "" false 0 "abc" None false false ∅.

Lemma prune_last_is_last_witness :
  let h' := prune_last_waves prune_settings [0; 1] prune_heap in
  Z.lt (wave (deref h' 1)) (wave (deref h' 0)).
Proof.
  refine (proj2 (prune_last_is_last prune_settings [0; 1] prune_heap _ 0 1 _ _ _ _) _).
  - intros l. rewrite !elem_of_cons, elem_of_nil. intros [->|[->|[]]]; vm_compute; reflexivity.
  - left.
  - right; left.
  - vm_compute; reflexivity.
  - vm_compute; reflexivity.
  - vm_compute; reflexivity.
Defined.

(** ** The waves that reach [Sort] *)

Section waves.
Context `{GoRuntime} (sc : settings).

Lemma reverse_prune_waves_from ls h l :
  wave (deref (reverse_prune_waves ls h) l) = wave (deref h l) ∨
  ∃ b, b ∈ ls ∧ wave (deref (reverse_prune_waves ls h) l) = wave (deref h b).
Proof.
  destruct (decide (l ∈ ls ∧ isPrune (deref h l) = true)) as [[Hl Hp]|Hn].
  - pose proof (uniquePruneWaves_spec h ls) as [_ Hin].
    set (W := uniquePruneWaves (prune_by_wave h ls)) in *.
    assert (wave (deref h l) ∈ W) as Hw by (apply Hin; eauto).
    apply list_elem_of_lookup in Hw as [j Hj].
    pose proof (reverse_prune_waves_at ls h l j Hl Hp Hj) as E. symmetry in E.
    apply list_elem_of_lookup_2, Hin in E as (b&Hb&_&Eb). right. by exists b.
  - left. unfold reverse_prune_waves. by rewrite swaps_other.
Qed.

(** The bound on the waves of a plan; one more bit than needed is left for
    the extra wave of prune-last tasks. *)
Definition small_wave (t : syncTask) : Prop := (- 2 ^ 61 ≤ wave t < 2 ^ 61)%Z.

Lemma adjusted_wave_ok ls h l :
  (∀ l, l ∈ ls → small_wave (deref h l)) → l ∈ ls →
  wave_ok (deref (prune_last_waves sc ls (reverse_prune_waves ls h)) l).
Proof.
  intros Hok Hl. set (h1 := reverse_prune_waves ls h).
  assert (H1 : ∀ l, l ∈ ls → small_wave (deref h1 l)).
  { intros x Hx. unfold small_wave. destruct (reverse_prune_waves_from ls h x) as [E|(b&Hb&E)];
      unfold h1; rewrite E; by apply Hok. }
  rewrite prune_last_waves_deref. case_decide.
  - pose proof (last_sync_wave_range h1 ls (2 ^ 61)) as Hr.
    destruct Hr as [? ?]; [lia|intros x Hx; specialize (H1 x Hx); unfold small_wave in H1; lia|].
    unfold wave_ok, set_wave, wave; simpl. rewrite wrap64_id; [lia|]. unfold in_int64, int_min, int_max. lia.
  - specialize (H1 l Hl). unfold wave_ok, small_wave in *. lia.
Qed.

Lemma order_tasks_eval ls s :
  let h := prune_last_waves sc ls (reverse_prune_waves ls (tasks s)) in
  (order_tasks sc ls s).1 = (Sort ls h).1 ∧ tasks (order_tasks sc ls s).2 = (Sort ls h).2.
Proof.
  unfold order_tasks. rewrite st_bind_eval. simpl.
  destruct (Sort ls (prune_last_waves sc ls (reverse_prune_waves ls (tasks s)))). done.
Qed.
End waves.

(** ** No task twice *)

Definition fresh_le (s s' : sc_state) : Prop := (fresh s ≤ fresh s')%nat.

#[export] Instance fresh_closed : PlanClosed fresh_le (λ _, True) (λ _ _, True).
Proof.
  unfold fresh_le. split; [split|]; try (intros; simpl; lia); [split; intros ?; intros; lia|].
  intros A l f Hf s. by apply (Hf (deref (tasks s) l)).
Qed.

Section nodup.
Context `{GoRuntime, HealthLibs, Cluster} (sc : settings).

(** The slice has no duplicates and none of its locations will be allocated
    again. *)
Definition own (ls : list loc) (s : sc_state) : Prop := NoDup ls ∧ ∀ l, l ∈ ls → (l < fresh s)%nat.

Lemma own_mono ls s s' : fresh_le s s' → own ls s → own ls s'.
Proof. intros Hf [Hn Hl]. split; [done|]. intros l Hin. specialize (Hl l Hin). unfold fresh_le in Hf. lia. Qed.

(** [f] appends freshly allocated locations to the slice. *)
Definition appends (f : list loc → M (list loc)) : Prop :=
  ∀ pre acc s, own (pre ++ acc) s → own (pre ++ (f acc s).1) (f acc s).2.

Lemma appends_alloc t : appends (λ acc, l ← alloc t; mret (acc ++ [l])).
Proof.
  intros pre acc s [Hn Hl]. simpl. rewrite app_assoc. split.
  - apply NoDup_app. split_and!; [done| |apply NoDup_singleton].
    intros x Hx Hx'. apply list_elem_of_singleton in Hx' as ->. specialize (Hl _ Hx). lia.
  - intros x Hx. change (x < S (fresh s))%nat. apply elem_of_app in Hx as [Hx|Hx]; [specialize (Hl x Hx); lia|].
    apply list_elem_of_singleton in Hx as ->. lia.
Qed.

Lemma appends_fold {X} (xs : list X) (body : list loc → X → M (list loc)) :
  (∀ x, appends (λ acc, body acc x)) → appends (λ acc, st_fold xs acc body).
Proof.
  intros Hb. induction xs as [|x xs IH]; intros pre acc s Ho; simpl; [done|].
  rewrite st_bind_eval. apply IH, Hb, Ho.
Qed.

Lemma appends_bind {A} (m : M A) (f : A → list loc → M (list loc)) :
  keeps fresh_le m → (∀ a, appends (f a)) → appends (λ acc, m ≫= λ a, f a acc).
Proof.
  intros Hm Hf pre acc s Ho. rewrite st_bind_eval. apply Hf. eapply own_mono; [apply Hm|done].
Qed.

Lemma appends_resource_tasks : appends (λ acc, s ← st_get;
  st_fold (go_range (resources s)) acc (λ acc kr,
    let r := kr.2 in
    if negb (containsResource sc r) then mret acc else
    let o := obj_of (Target r) (Live r) in
    if IsHook o then mret acc else
    st_fold (syncPhases o) acc (λ acc p,
      l ← alloc (newTask p (Target r) (Live r)); mret (acc ++ [l])))).
Proof.
  intros pre acc s. rewrite st_bind_eval. simpl. revert pre acc s.
  intros pre acc s. apply appends_fold. intros [k r] pre' acc' s'; simpl.
  destruct (negb _); [done|]. destruct (IsHook _); [done|]. revert pre' acc' s'.
  apply (appends_fold (syncPhases (obj_of (Target r) (Live r)))). intros p. apply appends_alloc.
Qed.

Lemma appends_hook_tasks : appends (λ acc,
  if skipHooks sc then mret acc else
  st_fold (hooks sc) acc (λ acc o,
    st_fold (syncPhases o) acc (λ acc p,
      q ← new_id;
      l ← alloc (newTask p (Some (hook_target sc (with_ptr q o) p)) None);
      mret (acc ++ [l])))).
Proof.
  destruct (skipHooks sc); [by intros pre acc s|].
  apply (appends_fold (hooks sc)). intros o. apply (appends_fold (syncPhases o)). intros p.
  apply appends_bind; [run_rule keeps_new_id|]. intros q. apply appends_alloc.
Qed.

Lemma appends_failed_ns o e : appends (λ acc, appendFailedNsTask acc o e).
Proof.
  intros pre acc s Ho. pose proof (appends_alloc (newTask SyncPhasePreSync (Some o) None) pre acc s Ho) as Ha.
  unfold appendFailedNsTask. rewrite st_bind_eval, st_bind_eval. simpl.
  eapply own_mono; [|exact Ha]. unfold fresh_le. simpl. lia.
Qed.

Lemma appends_autoCreateNamespace f : appends (λ acc, autoCreateNamespace sc f acc).
Proof.
  assert (Hns : ∀ o live, appends (λ acc, appendNsTask f acc o live)).
  { intros o live. unfold appendNsTask. destruct (f o live) as [o' [[]|e]];
      [apply appends_alloc|by intros pre acc s|apply appends_failed_ns]. }
  unfold autoCreateNamespace. apply appends_bind; [intros s; reflexivity|]. intros s.
  destruct (isNamespaceCreationNeeded sc s); [|by intros pre acc s'].
  destruct (namespaceObj (sc_namespace sc)) as [ns|e].
  - apply appends_bind; [run_rule keeps_new_id|]. intros q.
    apply appends_bind; [intros s'; unfold fresh_le; simpl; lia|]. intros [live|e].
    + apply appends_bind; [run_rule keeps_new_id|]. intros q'. apply Hns.
    + destruct (IsNotFound e); [apply Hns|apply appends_failed_ns].
  - apply appends_bind; [intros s'; unfold fresh_le; simpl; lia|]. by intros _ pre acc s'.
Qed.

Lemma plan_tasks_own s : own (plan_tasks sc s).1.1 (plan_tasks sc s).2.
Proof.
  unfold plan_tasks. rewrite st_bind_eval.
  assert (own (resource_tasks sc s).1 (resource_tasks sc s).2) as Hr.
  { apply (appends_resource_tasks [] [] s). split; [constructor|intros l Hl; by apply not_elem_of_nil in Hl]. }
  destruct (resource_tasks sc s) as [rt s1]. simpl in Hr |- *. rewrite st_bind_eval.
  assert (own (rt ++ (hook_tasks sc s1).1) (hook_tasks sc s1).2) as Hh.
  { apply (appends_hook_tasks rt [] s1). by rewrite app_nil_r. }
  destruct (hook_tasks sc s1) as [ht s2]. simpl in Hh |- *. rewrite st_bind_eval.
  set (s3 := (st_for _ _ s2).2). assert (own (rt ++ ht) s3) as H3.
  { eapply own_mono; [|exact Hh]. apply (keeps_for fresh_le _ (enrich_namespace sc)). intros l _.
    eapply pkeeps_enrich_namespace; apply _. }
  clearbody s3. rewrite st_bind_eval.
  set (m := match syncNamespace sc with Some _ => _ | None => _ end).
  assert (own (m s3).1 (m s3).2) as H4.
  { unfold m. destruct (syncNamespace sc); [|done]. destruct (negb _); [|done].
    by apply (appends_autoCreateNamespace _ []). }
  destruct (m s3) as [ls s4]. simpl in H4 |- *. rewrite st_bind_eval, st_bind_eval. simpl.
  eapply own_mono; [|exact H4]. set (s5 := (st_for _ _ s4).2). transitivity s5.
  - apply (keeps_for fresh_le _ enrich_live). intros l _. eapply pkeeps_enrich_live; apply _.
  - apply (keeps_fold fresh_le _ _ (check_permission sc)). intros acc l _. eapply pkeeps_check_permission; [apply _|done].
Qed.
End nodup.

(** ** The plan is sorted *)

(** Only the result fields of tasks differ. *)
Definition same_tasks (s s' : sc_state) : Prop :=
  ∀ l, let t := deref (tasks s) l in let t' := deref (tasks s') l in
    plan t' = plan t ∧ liveObj t' = liveObj t.

#[export] Instance same_tasks_preorder : PreOrder same_tasks.
Proof.
  split; [done|]. intros s1 s2 s3 H1 H2 l. destruct (H1 l), (H2 l). split; congruence.
Qed.

Lemma same_tasks_steps s s' ls : same_tasks s s' → steps (tasks s') ls = steps (tasks s) ls.
Proof.
  intros Hs. unfold steps. apply list_fmap_ext. intros i l _. destruct (Hs l) as [Hp Hl].
  unfold plan in Hp. injection Hp as Hp Ht _ Hw. unfold step_of, wave, obj. by rewrite Hp, Ht, Hw, Hl.
Qed.

Lemma enrich_result_same l : keeps same_tasks (enrich_result l).
Proof.
  intros s. unfold enrich_result. rewrite !st_bind_eval. simpl. case_match; [|reflexivity].
  intros l'. simpl. destruct (decide (l = l')) as [<-|]; [by rewrite deref_insert|by rewrite deref_insert_ne].
Qed.

(** C2. The plan of a step: [getSyncTasks] returns each planned task exactly
    once, in increasing order of (phase, wave), without changing the objects
    of the tasks; the reversal of prune waves, the prune-last wave and the
    pulling forward of namespaces and CRDs all respect that order.  Waves are
    bounded so that no arithmetic on them overflows. *)
Theorem getSyncTasks_sorted `{GoRuntime, Cluster} (sc : settings) (s : sc_state) :
  let planned := (plan_tasks sc s).1.1 in
  let h0 := tasks (plan_tasks sc s).2 in
  (∀ l, l ∈ planned → small_wave (deref h0 l)) →
  let ls := (getSyncTasks sc s).1.1 in
  let h := tasks (getSyncTasks sc s).2 in
  NoDup ls ∧ ls ≡ₚ planned ∧ steps_sorted h ls.
Proof.
  intros planned h0 Hok ls h. unfold ls, h, getSyncTasks.
  pose proof (plan_tasks_own sc s) as [Hnd _]. fold planned in Hnd.
  rewrite st_bind_eval. fold planned. set (s0 := (plan_tasks sc s).2) in *. rewrite st_bind_eval.
  pose proof (order_tasks_eval sc planned s0) as [E1 E2]. set (s1 := (order_tasks sc planned s0).2) in *.
  rewrite E1, st_bind_eval. simpl. set (h1 := prune_last_waves sc planned (reverse_prune_waves planned (tasks s0))) in *.
  assert (Hs : steps_sorted (tasks s1) (Sort planned h1).1).
  { rewrite E2. apply Sort_sorted; [done|]. intros l Hl. by apply adjusted_wave_ok. }
  split_and!; [by rewrite Sort_perm|apply Sort_perm|].
  unfold steps_sorted. rewrite (same_tasks_steps s1); [done|].
  apply (keeps_for same_tasks _ enrich_result). intros l _. apply enrich_result_same.
Qed.

(** A plan with two waves of config maps, in a cluster that knows the kind *)
Definition cm_cluster : Cluster := {|
  api := λ _ r, match r as r return answer r with
                | ReqDiscover _ => inl [mkAPIResource "configmaps" "ConfigMap" true ["get"]]
                | ReqGet _ _ _ | ReqKubectlGet _ _ => inr (mkErr ReasonNotFound "not found")
                | ReqGetCRD _ => inl []
                | ReqApply _ _ _ _ _ _ | ReqReplace _ _ _ | ReqCreate _ _ _ => ("", None)
                | ReqUpdate _ _ | ReqDelete _ _ _ _ | ReqPatch _ _ _ _ | ReqKubectlDelete _ _ _ _
                | ReqUpdateResource _ _ | ReqWaveHook _ _ _ => None
                end;
  retries := 4; crd_polls := 1;
  UpgradeManagedFieldsPatch := λ _ _ _, inl None;
  namespaceObj := λ n, inl (example_obj "" "Namespace" "" n ∅ JNull);
  not_found_text := λ _ _, "not found"; not_supported_text := λ _ _, "not supported" |}.

Definition wave_cm (n w : string) : Unstructured :=
  example_obj "" "ConfigMap" "ns" n {[AnnotationSyncWave := w]} JNull.

Definition two_resources : sc_state :=
  mkState (<[GetResourceKey (wave_cm "a" "3") := mkRec (Some (wave_cm "a" "3")) None]>
           {[GetResourceKey (wave_cm "b" "-1") := mkRec (Some (wave_cm "b" "-1")) None]})
    ∅ OperationNone "" ∅ 100 [].

Lemma getSyncTasks_sorted_witness :
  let _ := reference_runtime in let _ := cm_cluster in
  let r := getSyncTasks prune_settings two_resources in
  steps_sorted (tasks r.2) r.1.1 ∧ (λ l, wave (deref (tasks r.2) l)) <$> r.1.1 = [-1; 3]%Z.
Proof.
  intros rt cl r. split; [|vm_compute; reflexivity].
  refine (proj2 (proj2 (@getSyncTasks_sorted rt cl prune_settings two_resources _))).
  assert (∀ l : nat, l ∈ [100; 101]%nat → small_wave (deref (tasks (plan_tasks prune_settings two_resources).2) l)) as Hall.
  { intros l. rewrite !elem_of_cons, elem_of_nil. unfold small_wave.
    intros [->|[->|[]]]; vm_compute; split; congruence. }
  exact Hall.
Defined.
