(* ===== verification/SyncStep.v ===== *)
(** * The decisions of a step

    What [Sync] and [Terminate] decide: which tasks run next, when a step
    waits, when the operation ends and how, and what terminating leaves
    behind. *)

From S2P Require Import Prelude GoStd Kube SyncCommon SyncTask Health Reconcile SyncState SyncRun SyncTrace SyncPlan SyncOp SyncOpts SyncOpTrace.

Local Open Scope string_scope.
Local Open Scope list_scope.

(** ** Frames

    The operations on one task never set the operation phase, and touch other
    tasks only through a live object they share, whose finalizers they edit. *)

Class FrameClosed (R : relation sc_state) (may : loc → Prop) : Prop := {
  fc_preorder :: PreOrder R;
  fc_put l t s : may l → R s (set_tasks (insert l t) s);
  fc_live p fs s :
    R s (set_tasks (fmap (λ t, set_live (edit_ptr p (SetFinalizers fs) (liveObj t)) t))
          (set_resources (fmap (λ r, mkRec (Target r) (edit_ptr p (SetFinalizers fs) (Live r)))) s));
  fc_fresh s : R s (set_fresh S s);
  fc_results f s : R s (set_syncRes f s);
  fc_trace f s : R s (set_trace f s);
}.

Section frame.
Context `{GoRuntime, HealthLibs, Cluster} (sc : settings).
Context (R : relation sc_state) (may : loc → Prop) `{HR : !FrameClosed R may}.

Lemma fkeeps_get_task l : keeps R (get_task l).
Proof. intros s. reflexivity. Qed.
Lemma fkeeps_get_heap : keeps R get_heap.
Proof. intros s. reflexivity. Qed.
Lemma fkeeps_new_id : keeps R new_id.
Proof. intros s. apply fc_fresh. Qed.
Lemma fkeeps_call r : keeps R (call r).
Proof. intros s. apply fc_trace. Qed.
Lemma fkeeps_mutate p fs : keeps R (mutate_live p (SetFinalizers fs)).
Proof. intros s. apply fc_live. Qed.
Lemma fkeeps_update_task l g : may l → keeps R (update_task l g).
Proof. intros Hl s. by apply fc_put. Qed.
Hint Resolve fkeeps_get_task fkeeps_get_heap fkeeps_new_id fkeeps_mutate fkeeps_update_task : keeps.
Hint Extern 1 (keeps _ (call _)) => apply fkeeps_call : keeps.

Lemma fkeeps_setResourceResult l st op m : may l → keeps R (setResourceResult l st op m).
Proof. intros Hl. unfold setResourceResult. keeps_go. intros s. apply fc_results. Qed.

Lemma fkeeps_retry {A} n (b : A → bool) (m : M A) : keeps R m → keeps R (retry_on n b m).
Proof. intros Hm. induction n as [|n IH]; simpl; keeps_go. Qed.
Hint Resolve fkeeps_setResourceResult fkeeps_retry : keeps.

Lemma fkeeps_getResourceIf t verb : keeps R (getResourceIf t verb).
Proof. unfold getResourceIf, discover. keeps_go. Qed.
Hint Resolve fkeeps_getResourceIf : keeps.

Lemma fkeeps_getResource l : keeps R (getResource l).
Proof. unfold getResource. keeps_go. Qed.
Lemma fkeeps_updateResource l : keeps R (updateResource l).
Proof. unfold updateResource. keeps_go. Qed.
Lemma fkeeps_deleteResource l : keeps R (deleteResource sc l).
Proof. unfold deleteResource. keeps_go. Qed.
Hint Resolve fkeeps_getResource fkeeps_updateResource fkeeps_deleteResource : keeps.

Lemma fkeeps_removeHookFinalizer l : may l → keeps R (removeHookFinalizer l).
Proof.
  intros Hl. unfold removeHookFinalizer. keeps_go. apply fkeeps_retry.
  unfold remove_finalizer_once. keeps_go.
Qed.
Hint Resolve fkeeps_removeHookFinalizer : keeps.

Lemma fkeeps_deleteHooks ls : (∀ l, l ∈ ls → may l) → keeps R (deleteHooks sc ls).
Proof. intros Hl. unfold deleteHooks. keeps_go. Qed.

Lemma fkeeps_finish_hook l : may l → keeps R (finish_hook l).
Proof. intros Hl. unfold finish_hook. keeps_go. Qed.

Lemma fkeeps_terminate_hook l : may l → keeps R (terminate_hook sc l).
Proof. intros Hl. unfold terminate_hook, fetch_hook_live, report_terminated. keeps_go. Qed.

Lemma fkeeps_update_running l : may l → keeps R (update_running sc l).
Proof. intros Hl. unfold update_running. keeps_go. Qed.

Lemma fkeeps_check_missing l : may l → keeps R (check_missing l).
Proof. intros Hl. unfold check_missing. keeps_go. Qed.

Lemma fkeeps_run_remove_finalizer dry l st : may l → keeps R (run_remove_finalizer dry l st).
Proof. intros Hl. unfold run_remove_finalizer. keeps_go. Qed.
End frame.

(** *** Frame of one task *)

(** All fields are as before, the live object up to its finalizers. *)
Definition framed (t t' : syncTask) : Prop :=
  ∃ o, t' = set_live o t ∧ (SetFinalizers [] <$> o) = (SetFinalizers [] <$> liveObj t).

#[export] Instance framed_preorder : PreOrder framed.
Proof.
  split.
  - intros t. exists (liveObj t). split; [by destruct t|done].
  - intros t1 t2 t3 (o2&->&E2) (o3&->&E3). exists o3. split; [done|]. by rewrite E3, <- E2.
Qed.

Definition frame_rel (l0 : loc) (s s' : sc_state) : Prop := framed (deref (tasks s) l0) (deref (tasks s') l0).

#[export] Instance frame_rel_closed l0 : FrameClosed (frame_rel l0) (λ l, l ≠ l0).
Proof.
  split.
  - split; [intros s; unfold frame_rel; reflexivity|].
    intros s1 s2 s3 H12 H23. unfold frame_rel in *. by etransitivity.
  - intros l t s Hl. unfold frame_rel; simpl. by rewrite deref_insert_ne.
  - intros p fs s. unfold frame_rel; simpl. unfold deref. rewrite lookup_fmap.
    destruct (tasks s !! l0) as [t|]; simpl; [|reflexivity].
    exists (edit_ptr p (SetFinalizers fs) (liveObj t)). split; [done|].
    unfold edit_ptr. destruct (liveObj t) as [o|]; [|done]. by case_match.
  - intros s. unfold frame_rel. reflexivity.
  - intros f s. unfold frame_rel. reflexivity.
  - intros f s. unfold frame_rel. reflexivity.
Qed.

Definition same_op (s s' : sc_state) : Prop := sc_phase s' = sc_phase s ∧ sc_message s' = sc_message s.

#[export] Instance same_op_closed : FrameClosed same_op (λ _, True).
Proof.
  split; [|done..]. split; [done|]. intros s1 s2 s3 [? ?] [? ?]. split; congruence.
Qed.

(** What a reader of the task's object sees is the same in a frame. *)
Lemma framed_obj t t' : framed t t' → SetFinalizers [] (obj t') = SetFinalizers [] (obj t).
Proof.
  intros (o&->&E). unfold obj, obj_of; simpl. destruct (targetObj t); [done|].
  destruct o as [o|], (liveObj t) as [lo|]; [|done..]. by apply (inj Some) in E.
Qed.

Lemma finalizers_isHook o o' : SetFinalizers [] o' = SetFinalizers [] o → IsHook o' = IsHook o.
Proof.
  intros E. assert (GetAnnotations o' = GetAnnotations o) as Ea by (destruct o, o'; by simplify_eq/=).
  unfold IsHook, Skip, Helm.IsHook, Types, Helm.Types, GetAnnotationCSVs. by rewrite Ea.
Qed.

Lemma framed_isHook t t' : framed t t' → isHook t' = isHook t.
Proof. intros Hf. apply finalizers_isHook. by apply framed_obj. Qed.

Lemma framed_state t t' : framed t t' → operationState t' = operationState t.
Proof. by intros (o&->&_). Qed.

(** ** Postconditions *)

Definition post {A} (Q : sc_state → Prop) (m : M A) : Prop := ∀ s, Q (m s).2.

Lemma post_bind {A B} Q (m : M A) (f : A → M B) : (∀ a, post Q (f a)) → post Q (m ≫= f).
Proof. intros Hf s. unfold mbind, st_bind. destruct (m s) as [a s']. apply Hf. Qed.

Lemma post_keep {A B} Q R (m : M A) (f : A → M B) :
  (∀ s s', R s s' → Q s → Q s') → post Q m → (∀ a, keeps R (f a)) → post Q (m ≫= f).
Proof.
  intros HR Hm Hf s. unfold mbind, st_bind. specialize (Hm s). destruct (m s) as [a s'].
  eapply HR; [apply Hf|done].
Qed.

Lemma post_op (Q : OperationPhase → Prop) p m : Q p → post (λ s, Q (sc_phase s)) (setOperationPhase p m).
Proof. by intros HQ s. Qed.

Create HintDb post.
#[export] Hint Resolve post_op : post.

(** Looks at the last statement of a program. *)
Ltac post_go :=
  repeat first
    [ progress (eauto with post)
    | match goal with
      | |- post _ (_ ≫= (λ _, mret _)) =>
          apply (post_keep _ (=)); [by intros ? ? ->| |intros ? ?; reflexivity]
      | |- post _ (_ ≫= _) => apply post_bind; intros ?
      | |- post _ (match ?x with _ => _ end) => destruct x eqn:?
      | |- post _ (let _ := _ in _) => cbv zeta
      end ].

(** ** Termination leaves no hook running *)

Section terminate.
Context `{GoRuntime, HealthLibs, Cluster} (sc : settings).

Definition idle (l : loc) (s : sc_state) : Prop := running (deref (tasks s) l) = false.

Lemma setResourceResult_idle l st op m :
  Running op = false → post (idle l) (setResourceResult l st op m).
Proof. intros Hop s. unfold idle, running; simpl. by rewrite deref_insert. Qed.

Lemma Completed_idle p : Completed p = true → Running p = false.
Proof. by destruct p. Qed.

Hint Resolve setResourceResult_idle Completed_idle : post.

Lemma post_idle_frame {A B} l (m : M A) (f : A → M B) :
  post (idle l) m → (∀ a, keeps (frame_rel l) (f a)) → post (idle l) (m ≫= f).
Proof.
  apply post_keep. intros s s' Hf. unfold idle, running. by rewrite (framed_state _ _ Hf).
Qed.

Lemma report_terminated_idle l t st s :
  operationState t = operationState (deref (tasks s) l) → idle l (report_terminated l t st s).2.
Proof.
  intros Ht. unfold report_terminated.
  destruct (match st with inl (p, msg) => _ | inr _ => _ end) as [[p msg]|] eqn:E.
  - apply setResourceResult_idle, Completed_idle. by repeat case_match; simplify_eq.
  - case_bool_decide as Hd; simpl; [|by apply setResourceResult_idle].
    unfold idle, running. by rewrite <- Ht, Hd.
Qed.

Lemma fetch_hook_live_idle l t s :
  (fetch_hook_live l t s).1 = false → idle l (fetch_hook_live l t s).2.
Proof.
  unfold fetch_hook_live. destruct (liveObj t); [done|]. rewrite st_bind_eval.
  destruct (getResource l s) as [[o|err] s']; simpl; [done|].
  case_match; [done|]. intros _. by apply setResourceResult_idle.
Qed.

Lemma terminate_hook_idle l s :
  isHook (deref (tasks s) l) = true → idle l (terminate_hook sc l s).2.
Proof.
  intros Hh. unfold terminate_hook. rewrite st_bind_eval. simpl. rewrite Hh; simpl.
  destruct (running (deref (tasks s) l)) eqn:Hr; simpl; [clear Hh Hr|done].
  rewrite st_bind_eval. pose proof (fetch_hook_live_idle l (deref (tasks s) l) s) as Hfetch.
  destruct (fetch_hook_live l (deref (tasks s) l) s) as [[] s1]; simpl in Hfetch |- *; [clear Hfetch|auto].
  rewrite st_bind_eval. simpl. generalize (deref (tasks s1) l). intros t.
  destruct (liveObj t) as [live|]; [|rewrite st_bind_eval; by apply setResourceResult_idle].
  apply (post_bind (idle l)). intros _. apply post_bind. intros [e|].
  { apply post_bind. intros t'. by apply post_idle_frame; [apply setResourceResult_idle|intros; apply keeps_ret, _]. }
  clear s1. intros s1. rewrite st_bind_eval. simpl. set (t' := deref (tasks s1) l).
  rewrite st_bind_eval.
  match goal with |- context [(if ?b then deleteResource sc l else ?r) s1] =>
    assert (Hf : frame_rel l s1 ((if b then deleteResource sc l else r) s1).2) end.
  { case_match; [by eapply (fkeeps_deleteResource sc (frame_rel l) (λ l', l' ≠ l))|unfold frame_rel; reflexivity]. }
  match goal with |- idle _ ((if ?c then _ else _) _).2 => destruct c end;
    [rewrite st_bind_eval; by apply setResourceResult_idle|].
  apply report_terminated_idle. by rewrite (framed_state _ _ Hf).
Qed.

(** Terminating one hook does not start another. *)
Lemma terminate_hook_other l l' s : idle l s → idle l (terminate_hook sc l' s).2.
Proof.
  intros Hi. destruct (decide (l' = l)) as [->|Hne].
  - unfold terminate_hook. rewrite st_bind_eval. simpl. unfold idle in Hi. rewrite Hi, orb_true_r. done.
  - assert (frame_rel l s (terminate_hook sc l' s).2) as Hf
      by by eapply (fkeeps_terminate_hook sc (frame_rel l) (λ l', l' ≠ l)).
    unfold idle, running. rewrite (framed_state _ _ Hf). apply Hi.
Qed.

Lemma terminate_loop ls acc l s :
  idle l s ∨ l ∈ ls ∧ isHook (deref (tasks s) l) = true →
  idle l (st_fold ls acc (λ ok l, r ← terminate_hook sc l; mret (ok && r)) s).2.
Proof.
  revert acc s; induction ls as [|x ls IH]; intros acc s Hl; simpl.
  { destruct Hl as [?|[Hn _]]; [done|by apply not_elem_of_nil in Hn]. }
  rewrite !st_bind_eval. simpl. apply IH.
  destruct Hl as [Hi|[Hin Hh]]; [left; by apply terminate_hook_other|].
  destruct (decide (x = l)) as [->|Hne]; [left; by apply terminate_hook_idle|right].
  apply elem_of_cons in Hin as [?|Hin]; [done|]. split; [done|].
  assert (frame_rel l s (terminate_hook sc x s).2) as Hf
    by by eapply (fkeeps_terminate_hook sc (frame_rel l) (λ l', l' ≠ l)).
  by rewrite (framed_isHook _ _ Hf).
Qed.
End terminate.

(** Terminating hooks preemptively leaves none of them running, whatever
    the cluster answers: each hook of the list ends with a completed state,
    whether or not the termination reports success. *)
Theorem terminated_hooks_idle `{GoRuntime, HealthLibs, Cluster} (sc : settings) (ls : list loc) (s : sc_state) (l : loc) :
  l ∈ ls → isHook (deref (tasks s) l) = true →
  running (deref (tasks (terminateHooksPreemptively sc ls s).2) l) = false.
Proof. intros Hl Hh. apply terminate_loop. by right. Qed.

Definition hook_task : syncTask :=
  mkTask SyncPhaseSync None
    (Some (example_obj "batch" "Job" "ns" "migrate" {["cd.hanzo.ai/hook" := "Sync"]} JNull))
    false ResultCodeSynced OperationRunning "" None.

(** A cluster in which every lookup says that nothing is there. *)
Definition empty_cluster : Cluster := {|
  api := λ _ r, match r as r return answer r with
                | ReqDiscover _ => inl []
                | ReqGet _ _ _ | ReqKubectlGet _ _ => inr (mkErr ReasonNotFound "not found")
                | ReqGetCRD _ => inl []
                | ReqApply _ _ _ _ _ _ | ReqReplace _ _ _ | ReqCreate _ _ _ => ("", None)
                | ReqUpdate _ _ | ReqDelete _ _ _ _ | ReqPatch _ _ _ _ | ReqKubectlDelete _ _ _ _
                | ReqUpdateResource _ _ | ReqWaveHook _ _ _ => None
                end;
  retries := 4; crd_polls := 1;
  UpgradeManagedFieldsPatch := λ _ _ _, inl None;
  namespaceObj := λ n, inl (example_obj "" "Namespace" "" n ∅ JNull);
  not_found_text := λ _ _, "not found"; not_supported_text := λ _ _, "not supported" |}.

Definition plain_settings : settings :=
  mkSettings None (λ _ _, None) [] "ns" false false false true false None false false false "" false None
    false None "" false 0 "abc" None false false ∅.

Definition state_of (h : heap) : sc_state := mkState ∅ ∅ OperationRunning "" h 100 [].

Lemma terminated_hooks_idle_witness :
  let _ := reference_runtime in let _ := no_libs in let _ := empty_cluster in
  running (deref (tasks (terminateHooksPreemptively plain_settings [0] (state_of {[0 := hook_task]})).2) 0) = false.
Proof.
  intros rt libs cl. apply (@terminated_hooks_idle rt libs cl); [left|vm_compute; reflexivity].
Defined.

(** ** Failure hooks *)

Section outcome.
Context `{GoRuntime, HealthLibs, Cluster} (sc : settings).

Lemma setRunningPhase_running ls b : post (λ s, sc_phase s = OperationRunning) (setRunningPhase sc ls b).
Proof. intros s. done. Qed.

Lemma executeSyncFailPhase_phase a b m s :
  sc_phase (executeSyncFailPhase sc a b m s).2 =
    if (executeSyncFailPhase sc a b m s).1 then OperationFailed else OperationRunning.
Proof.
  unfold executeSyncFailPhase. rewrite st_bind_eval; simpl. destruct a as [|l a]; [done|].
  destruct (All _ completed _); [done|]. by rewrite !st_bind_eval.
Qed.
End outcome.

Lemma All_spec h f ls : All h f ls = true ↔ ∀ l, l ∈ ls → f (deref h l) = true.
Proof. unfold All. rewrite forallb_forall. by setoid_rewrite <- list_elem_of_In. Qed.

Lemma Any_spec h f ls : Any h f ls = true ↔ ∃ l, l ∈ ls ∧ f (deref h l) = true.
Proof. unfold Any. rewrite existsb_exists. by setoid_rewrite <- list_elem_of_In. Qed.

Lemma elem_of_Filter h f ls l : l ∈ Filter h f ls ↔ f (deref h l) = true ∧ l ∈ ls.
Proof. unfold Filter. by rewrite list_elem_of_filter. Qed.

(** The failure phase of a sync is complete exactly when every [SyncFail]
    hook has completed (in particular when there is none); it then fails the
    operation without calling the cluster, and otherwise starts the pending
    hooks and leaves the operation running. *)
Theorem executeSyncFailPhase_outcome `{GoRuntime, HealthLibs, Cluster} (sc : settings)
    (syncFailTasks syncFailedTasks : list loc) (m : string) (s : sc_state) :
  let r := executeSyncFailPhase sc syncFailTasks syncFailedTasks m s in
  (r.1 = true ↔ ∀ l, l ∈ syncFailTasks → completed (deref (tasks s) l) = true) ∧
  sc_phase r.2 = (if r.1 then OperationFailed else OperationRunning) ∧
  (r.1 = true → trace r.2 = trace s ∧ tasks r.2 = tasks s).
Proof.
  intros r. split_and!; [|apply executeSyncFailPhase_phase|]; unfold r, executeSyncFailPhase;
    rewrite st_bind_eval; simpl; (destruct syncFailTasks as [|l ls]; [simpl|]).
  - split; [|done]. intros _ l Hl. by apply not_elem_of_nil in Hl.
  - rewrite <- All_spec. destruct (All _ completed _); [done|]. rewrite !st_bind_eval. done.
  - done.
  - destruct (All _ completed _); [done|]. by rewrite !st_bind_eval.
Qed.

(** ** The phase a step ends in *)

Section phase.
Context `{GoRuntime, HealthLibs, Cluster} (sc : settings).

Definition step_phase (p : OperationPhase) : Prop :=
  match p with
  | OperationRunning | OperationSucceeded | OperationFailed => True
  | OperationError => syncWaveHook sc = true
  | _ => False
  end.

Notation ends := (post (λ s, step_phase (sc_phase s))).

Lemma ends_setRunningPhase ls b : ends (setRunningPhase sc ls b).
Proof. intros s. done. Qed.

Lemma ends_fail a b m : ends (executeSyncFailPhase sc a b m).
Proof. intros s. cbv beta. rewrite executeSyncFailPhase_phase. by case_match. Qed.

(** Deleting hooks does not change the phase of the operation. *)
Lemma deleteHooks_op ls : keeps same_op (deleteHooks sc ls).
Proof. by eapply (fkeeps_deleteHooks sc same_op (λ _, True)). Qed.

Lemma ends_then_delete {A} (m : M A) (f : A → M unit) :
  ends m → (∀ a, keeps same_op (f a)) → ends (m ≫= f).
Proof. apply post_keep. by intros s s' [-> _]. Qed.

Hint Resolve ends_setRunningPhase ends_fail : post.

Lemma ends_conclude_wave a b c d e st : ends (conclude_wave sc a b c d e st).
Proof.
  unfold conclude_wave. apply post_bind. intros h. destruct st; [|post_go|].
  - post_go; by apply (post_op step_phase).
  - cbv zeta. destruct (Filter h running a); [|post_go].
    apply ends_then_delete; [apply ends_fail|]. intros x. case_match; [apply deleteHooks_op|done].
Qed.
Hint Resolve ends_conclude_wave : post.

Lemma ends_run_next_wave a b c d : ends (run_next_wave sc a b c d).
Proof.
  unfold run_next_wave. apply post_bind. intros h. cbv zeta. destruct (split_wave h a) as [w r].
  destruct (syncWaveHook sc) eqn:Hw.
  - post_go; by apply (post_op step_phase).
  - apply post_bind. intros _. apply post_bind. intros st s.
    rewrite st_bind_eval. apply ends_conclude_wave.
Qed.
Hint Resolve ends_run_next_wave : post.

Lemma ends_sync_continue ls : ends (sync_continue sc ls).
Proof.
  unfold sync_continue, SplitTasks. post_go; by apply (post_op step_phase).
Qed.
Hint Resolve ends_sync_continue : post.

Lemma ends_sync_step ls : ends (sync_step sc ls).
Proof. unfold sync_step. post_go. Qed.

Lemma dry_run_rest_failed ls s :
  (dry_run_rest sc ls s).1 = false → sc_phase (dry_run_rest sc ls s).2 = OperationFailed.
Proof. unfold dry_run_rest. rewrite !st_bind_eval; simpl. by case_bool_decide. Qed.

Lemma dry_run_stage_failed ls s :
  (dry_run_stage sc ls s).1 = false → sc_phase (dry_run_stage sc ls s).2 = OperationFailed.
Proof.
  unfold dry_run_stage. rewrite st_bind_eval; simpl. case_match; [done|]. rewrite st_bind_eval; simpl.
  case_match; [|apply dry_run_rest_failed]. rewrite st_bind_eval. case_bool_decide; [done|].
  apply dry_run_rest_failed.
Qed.
End phase.

(** C40. Every step leaves the operation in a definite phase: running, succeeded
    or failed, or in error, and the latter only when a wave hook is installed
    (the wave hook is the only source of that phase). *)
Theorem Sync_phase `{GoRuntime, HealthLibs, Cluster} (sc : settings) (s : sc_state) :
  let p := sc_phase (Sync sc s).2 in
  (p = OperationRunning ∨ p = OperationSucceeded ∨ p = OperationFailed ∨ p = OperationError) ∧
  (p = OperationError → syncWaveHook sc = true).
Proof.
  assert (step_phase sc (sc_phase (Sync sc s).2)) as Hp.
  { unfold Sync. rewrite st_bind_eval. destruct (getSyncTasks sc s) as [[ls ok] s1]; simpl.
    destruct ok; simpl; [|done]. rewrite st_bind_eval.
    pose proof (dry_run_stage_failed sc ls s1) as Hf.
    destruct (dry_run_stage sc ls s1) as [[] s2]; simpl in *; [apply ends_sync_step|].
    by rewrite Hf. }
  unfold step_phase in Hp. destruct (sc_phase _); naive_solver.
Qed.

(** ** The next wave *)

Lemma step_of_inj_phase t t' : step_of t = step_of t' → phase t = phase t' ∧ wave t = wave t'.
Proof. unfold step_of. intros [= Hp Hw]. split; [|done]. by destruct (phase t), (phase t'). Qed.

(** Membership in the first wave is equality of steps. *)
Lemma elem_of_split_wave h l0 ls l :
  (l ∈ (split_wave h (l0 :: ls)).1 ↔ l ∈ l0 :: ls ∧ step_of (deref h l) = step_of (deref h l0)) ∧
  (l ∈ (split_wave h (l0 :: ls)).2 ↔ l ∈ l0 :: ls ∧ step_of (deref h l) ≠ step_of (deref h l0)).
Proof.
  unfold split_wave, SplitTasks, first_phase, first_wave.
  cbn [fst snd head fmap option_fmap option_map default]. rewrite !list_elem_of_filter.
  set (b := bool_decide _ && _).
  assert (b = true ↔ step_of (deref h l) = step_of (deref h l0)) as Hb.
  { unfold b. rewrite andb_true_iff, bool_decide_eq_true, Z.eqb_eq. split.
    - intros [[= Hp] Hw]. unfold step_of. by rewrite Hp, Hw.
    - intros [-> ->]%step_of_inj_phase. done. }
  clearbody b. destruct b; intuition congruence.
Qed.

Lemma split_wave_spec h ls :
  steps_sorted h ls →
  (∀ a b, a ∈ (split_wave h ls).1 → b ∈ ls → step_le (step_of (deref h a)) (step_of (deref h b))) ∧
  (∀ a b, a ∈ (split_wave h ls).1 → b ∈ (split_wave h ls).2 →
     ¬ step_le (step_of (deref h b)) (step_of (deref h a))).
Proof.
  intros Hs. destruct ls as [|l0 ls]; [split; intros a b Ha; by apply not_elem_of_nil in Ha|].
  assert (Hmin : ∀ b, b ∈ l0 :: ls → step_le (step_of (deref h l0)) (step_of (deref h b))).
  { intros b [->|Hb]%elem_of_cons; [reflexivity|]. unfold steps_sorted, steps in Hs. rewrite fmap_cons in Hs.
    apply StronglySorted_inv in Hs as [_ Hs]. rewrite Forall_fmap, Forall_forall in Hs. by apply Hs. }
  split.
  - intros a b Ha Hb. apply elem_of_split_wave in Ha as [_ ->]. by apply Hmin.
  - intros a b Ha Hb Hle. apply elem_of_split_wave in Ha as [_ Ea]. apply elem_of_split_wave in Hb as [Hb Nb].
    rewrite Ea in Hle. specialize (Hmin b Hb). apply Nb. unfold step_le in *.
    destruct (step_of (deref h b)), (step_of (deref h l0)); simpl in *. f_equal; lia.
Qed.

Section waves.
Context `{GoRuntime, HealthLibs, Cluster} (sc : settings).

(** [l] is a task of the slice that no other precedes in (phase, wave). *)
Definition next_task (h : heap) (ls : list loc) (l : loc) : Prop :=
  l ∈ ls ∧ ∀ b, b ∈ ls → step_le (step_of (deref h l)) (step_of (deref h b)).

(** The object is the target of one of the tasks in [may]. *)
Definition sends_only (h : heap) (may : loc → Prop) (r : request) : Prop :=
  let is_target o := ∃ l, may l ∧ o = default nil_obj (targetObj (deref h l)) in
  match r with
  | ReqApply o _ _ _ _ _ | ReqReplace o _ _ | ReqCreate o _ _ => is_target o
  | ReqUpdateResource o _ => ∃ o' rv, is_target o' ∧ o = SetResourceVersion rv o'
  | _ => True
  end.

Lemma runTasks_sends h0 (may : loc → Prop) ls dry :
  (∀ l, l ∈ ls → may l) → keeps (emits_plan h0 (sends_only h0 may)) (runTasks sc ls dry).
Proof.
  intros Hmay. eapply keeps_runTasks; [apply _|by intros []|done..|].
  intros l t Hl Ht.
  assert (targetObj t = targetObj (deref h0 l)) as E by (unfold plan in Ht; congruence).
  unfold apply_ok. rewrite E. simpl. split_and!; try done; intros; try (exists l; auto; done).
  eexists _, _. split; [|done]. exists l. auto.
Qed.
End waves.

(** C1. Wave discipline: running the next wave of a sorted slice sends to the
    cluster only target objects of tasks with the smallest (phase, wave) of the
    slice, or of [SyncFail] hooks; tasks of a later phase or wave are not
    applied, whatever the cluster answers. *)
Theorem run_next_wave_discipline `{GoRuntime, HealthLibs, Cluster} (sc : settings)
    (ls syncFailTasks hooksOk hooksFailed : list loc) (s : sc_state) :
  steps_sorted (tasks s) ls →
  emits (sends_only (tasks s) (λ l, next_task (tasks s) ls l ∨ l ∈ syncFailTasks)) s
    (run_next_wave sc ls syncFailTasks hooksOk hooksFailed s).2.
Proof.
  intros Hs. set (h0 := tasks s). set (may := λ l, next_task h0 ls l ∨ l ∈ syncFailTasks).
  unfold run_next_wave. rewrite st_bind_eval. cbn [get_heap]. simpl.
  match goal with |- emits _ _ (?m s).2 => cut (keeps (emits_plan h0 (sends_only h0 may)) m); [intros Hk; by apply Hk|] end.
  apply (pkeeps_run_wave sc _ (sends_only h0 may) (λ l t, plan t = plan (deref h0 l))) with (may := may).
  - intros r [Hr|Hr]; by destruct r.
  - intros ls' dry. apply runTasks_sends.
  - done.
  - intros l Hl. left. pose proof (split_wave_spec _ _ Hs) as [Hmin _].
    split; [by apply list_elem_of_filter in Hl as [_ ?]|intros b Hb; by apply (Hmin l b)].
  - intros l Hl. by right.
Qed.

(** ** Waiting *)

Section waiting.
Context `{GoRuntime, HealthLibs, Cluster} (sc : settings).
Notation reads := (emits (λ r, is_read r = true)).

Lemma reads_check_missing l : keeps reads (check_missing l).
Proof.
  unfold check_missing. keeps_go; try (by intros ?; apply emits_same).
  eapply keeps_getResource; [apply _|by intros r Hr].
Qed.

Lemma reads_update_running l : keeps reads (update_running sc l).
Proof. unfold update_running. keeps_go; by intros ?; apply emits_same. Qed.

(** The state in which a step decides whether to wait *)
Definition refreshed (ls : list loc) (s : sc_state) : sc_state :=
  (st_for (Filter (tasks s) (λ t, running t && has_live t) ls) (update_running sc) s).2.

Lemma sync_step_eval ls s :
  (sync_step sc ls s).2 =
    (match waiting_tasks (tasks (refreshed ls s)) ls with
     | [] => match pruned_pending_delete (tasks (refreshed ls s)) ls with
             | [] => sync_continue sc ls
             | pd => setRunningPhase sc pd true
             end
     | rt => st_for rt check_missing ;; setRunningPhase sc rt false
     end (refreshed ls s)).2.
Proof.
  unfold sync_step. rewrite st_bind_eval; simpl. rewrite st_bind_eval. fold (refreshed ls s).
  rewrite st_bind_eval. simpl. destruct (waiting_tasks _ ls); [|done].
  by destruct (pruned_pending_delete _ ls).
Qed.
End waiting.

(** C6. A step waits before it goes on: while a hook is running, while any task
    is running in an operation of several steps, or while a pruned object is
    still being deleted, the step changes nothing in the cluster (it only
    reads) and leaves the operation running. *)
Theorem sync_step_waits `{GoRuntime, HealthLibs, Cluster} (sc : settings) (ls : list loc) (s : sc_state) :
  let h := tasks (refreshed sc ls s) in
  (∃ l, l ∈ ls ∧ running (deref h l) = true ∧ (isHook (deref h l) = true ∨ multiStep h ls = true)) ∨
  (∃ l o, l ∈ ls ∧ syncStatus (deref h l) = ResultCodePruned ∧ liveObj (deref h l) = Some o ∧
     is_Some (GetDeletionTimestamp o)) →
  sc_phase (sync_step sc ls s).2 = OperationRunning ∧
  emits (λ r, is_read r = true) s (sync_step sc ls s).2.
Proof.
  intros h Hwait. rewrite sync_step_eval.
  assert (Hr : emits (λ r, is_read r = true) s (refreshed sc ls s)).
  { apply (keeps_for (emits (λ r, is_read r = true)) _ (update_running sc)). intros l _. apply reads_update_running. }
  fold h. destruct (waiting_tasks h ls) as [|l0 rt] eqn:Ew.
  - destruct Hwait as [(l&Hl&Hrun&Hor)|(l&o&Hl&Hp&Ho&[ts Hts])].
    { exfalso. assert (l ∈ waiting_tasks h ls) as Hin.
      { unfold waiting_tasks. apply elem_of_Filter. split; [|done]. rewrite Hrun, andb_true_r.
        apply orb_true_iff. tauto. }
      rewrite Ew in Hin. by apply not_elem_of_nil in Hin. }
    assert (l ∈ pruned_pending_delete h ls) as Hin.
    { unfold pruned_pending_delete. apply elem_of_Filter. split; [|done]. unfold pruned.
      by rewrite Hp, Ho, Hts. }
    destruct (pruned_pending_delete h ls); [by apply not_elem_of_nil in Hin|]. split; [done|].
    etransitivity; [exact Hr|]. by apply emits_same.
  - rewrite st_bind_eval. split; [done|]. etransitivity; [exact Hr|].
    etransitivity; [|by apply emits_same].
    apply (keeps_for (emits (λ r, is_read r = true)) (l0 :: rt) check_missing). intros l _. apply reads_check_missing.
Qed.

(** ** Success *)

Section success.
Context `{GoRuntime, HealthLibs, Cluster} (sc : settings).

(** The state after the finalizers of completed hooks have been removed *)
Definition hooks_finished (ls : list loc) (s : sc_state) : sc_state :=
  (st_for (Filter (tasks s) (λ t, isHook t && completed t) ls) finish_hook s).2.

(** The tasks that are still to be run, failure hooks apart *)
Definition todo (h : heap) (ls : list loc) : list loc :=
  let main := (SplitTasks h (λ t, bool_decide (phase t = SyncPhaseSyncFail)) ls).2 in
  let waiting := Filter h pending main in
  if applyOutOfSyncOnly sc then filterOutOfSyncTasks sc h waiting else waiting.

Lemma conclude_wave_succeeded now later c d e st s :
  sc_phase (conclude_wave sc now later c d e st s).2 = OperationSucceeded →
  st = rs_successful ∧ later = [] ∧ ∀ l, l ∈ now → isHook (deref (tasks s) l) = false.
Proof.
  unfold conclude_wave. rewrite st_bind_eval; simpl. destruct st.
  - case_match eqn:E; [|done]. intros _. apply andb_true_iff in E as [El Eh].
    split_and!; [done|by destruct later|]. intros l Hl. apply not_true_iff_false. intros Hh.
    apply negb_true_iff in Eh. assert (Any (tasks s) isHook now = true) by (apply Any_spec; eauto). congruence.
  - done.
  - destruct (Filter (tasks s) running now); [|by rewrite st_bind_eval].
    rewrite st_bind_eval. intros Hs.
    assert (sc_phase (executeSyncFailPhase sc c (Filter (tasks s) sync_failed now)
      "one or more objects failed to apply" s).2 = OperationSucceeded) as Hp.
    { rewrite <- Hs. case_match; [|done]. symmetry. apply (deleteHooks_op sc). }
    rewrite executeSyncFailPhase_phase in Hp. by case_match.
Qed.

Lemma run_next_wave_succeeded ls c d e s :
  sc_phase (run_next_wave sc ls c d e s).2 = OperationSucceeded →
  (split_wave (tasks s) ls).2 = [] ∧
  ∃ s2 s3, runTasks sc (split_wave (tasks s) ls).1 false s2 = (rs_successful, s3) ∧ tasks s2 = tasks s.
Proof.
  unfold run_next_wave. rewrite st_bind_eval. cbn [get_heap]. unfold split_wave, SplitTasks. simpl.
  rewrite !st_bind_eval. simpl. set (now := filter _ ls). set (later := filter _ ls).
  set (s2 := set_op _ _ s). destruct (runTasks sc now false s2) as [r s3] eqn:Er. simpl.
  match goal with |- sc_phase (match ?q with Some _ => _ | None => _ end _).2 = _ → _ =>
    destruct q as [err|] end; [by rewrite !st_bind_eval|].
  intros (->&->&_)%conclude_wave_succeeded. split; [done|]. by exists s2, s3.
Qed.
End success.

(** An operation is reported as succeeded only when it is finished: every
    task other than a failure hook that has completed was successful, and
    either nothing is left to run, or the wave that was just run is the last
    one and all its tasks were applied successfully. *)
Theorem sync_continue_succeeded `{GoRuntime, HealthLibs, Cluster} (sc : settings) (ls : list loc) (s : sc_state) :
  let s1 := hooks_finished ls s in
  let h := tasks s1 in
  let now := (split_wave h (todo sc h ls)).1 in
  sc_phase (sync_continue sc ls s).2 = OperationSucceeded →
  (∀ l, l ∈ ls → phase (deref h l) ≠ SyncPhaseSyncFail → completed (deref h l) = true →
     successful (deref h l) = true) ∧
  (todo sc h ls = [] ∨
   (split_wave h (todo sc h ls)).2 = [] ∧
   ∃ s2 s3, runTasks sc now false s2 = (rs_successful, s3) ∧ tasks s2 = h).
Proof.
  intros s1 h now. unfold sync_continue. rewrite st_bind_eval; simpl. rewrite st_bind_eval.
  fold (hooks_finished ls s). fold s1. rewrite st_bind_eval; simpl. fold h.
  case_match eqn:Eany.
  { rewrite !st_bind_eval. simpl. rewrite executeSyncFailPhase_phase. by case_match. }
  intros Hs. split.
  - intros l Hl Hp Hc. apply not_false_is_true. intros Hu.
    apply not_true_iff_false in Eany. apply Eany, Any_spec. exists l. split.
    + apply list_elem_of_filter. split; [by apply bool_decide_eq_false|done].
    + by rewrite Hc, Hu.
  - change (if applyOutOfSyncOnly sc then _ else _) with (todo sc h ls) in Hs.
    destruct (todo sc h ls) as [|l0 td] eqn:Et; [by left|right].
    unfold now. by apply run_next_wave_succeeded in Hs.
Qed.

(** ** The first step validates before it changes anything *)

Section validation.
Context `{GoRuntime, HealthLibs, Cluster} (sc : settings).
Notation readonly := (emits (λ r, mutating r = false)).

Lemma getSyncTasks_readonly : keeps readonly (getSyncTasks sc).
Proof. eapply pkeeps_getSyncTasks; [apply _|by intros []]. Qed.

Lemma runTasks_dry_keeps ls : keeps readonly (runTasks sc ls true).
Proof.
  eapply keeps_runTasks; [apply _|by intros []|done..|]. intros l t _ _. by repeat split.
Qed.

Lemma dry_run_rest_readonly ls : keeps readonly (dry_run_rest sc ls).
Proof.
  unfold dry_run_rest. apply keeps_bind; [apply _|by intros s; apply emits_same|]. intros h. cbv zeta.
  apply keeps_bind; [apply _|apply runTasks_dry_keeps|]. intros r.
  keeps_go. intros s. by apply emits_same.
Qed.
End validation.

(** C5. Validation comes first: on the first step of an operation that does not
    have to create its namespace, if planning rejects a task or the dry run of
    the tasks fails, the operation fails and nothing in the cluster has been
    changed. *)
Theorem Sync_invalid_readonly `{GoRuntime, HealthLibs, Cluster} (sc : settings) (s : sc_state)
    (ls : list loc) (ok : bool) (s1 : sc_state) :
  getSyncTasks sc s = ((ls, ok), s1) →
  ok = false ∨
    syncRes s1 = ∅ ∧ getNamespaceCreationTask sc (tasks s1) ls = None ∧ (dry_run_stage sc ls s1).1 = false →
  sc_phase (Sync sc s).2 = OperationFailed ∧ emits (λ r, mutating r = false) s (Sync sc s).2.
Proof.
  intros Hp Hcase. pose proof (getSyncTasks_readonly sc s) as Hr. rewrite Hp in Hr. simpl in Hr.
  unfold Sync. rewrite st_bind_eval, Hp. simpl. destruct ok; simpl.
  - destruct Hcase as [?|(E&Hns&Hd)]; [done|]. rewrite st_bind_eval.
    pose proof (dry_run_stage_failed sc ls s1 Hd) as Hf. rewrite Hd. simpl. split; [done|].
    etransitivity; [exact Hr|]. unfold dry_run_stage. rewrite st_bind_eval. simpl. rewrite E, map_size_empty. simpl.
    rewrite st_bind_eval. simpl. rewrite Hns. apply dry_run_rest_readonly.
  - split; [done|]. etransitivity; [exact Hr|]. by apply emits_same.
Qed.
