(* ===== verification/SyncExamples.v ===== *)
(** * Concrete operations

    Runs of the model on small clusters: instances of the theorems about steps,
    and the behaviours found that differ from what the code intends. *)

From S2P Require Import Prelude GoStd Kube SyncCommon SyncTask Health Reconcile SyncState SyncRun SyncTrace SyncPlan SyncOp SyncOpts SyncOpTrace SyncStep.

Local Open Scope string_scope.
Local Open Scope list_scope.

(** A config map, plain or in a wave *)
Definition cm (n wave : string) : Unstructured :=
  example_obj "" "ConfigMap" "ns" n {[AnnotationSyncWave := wave]} JNull.

Definition two_waves : heap :=
  list_to_map [ (0, newTask SyncPhaseSync (Some (cm "a" "0")) None);
                (1, newTask SyncPhaseSync (Some (cm "b" "1")) None) ].

(** The number of objects sent with the apply verb *)
Definition applies (tr : list request) : nat :=
  length (filter (λ r, match r with ReqApply _ _ _ _ _ _ => true | _ => false end = true) tr).

Lemma runTasks_dry_readonly_witness :
  let _ := reference_runtime in let _ := empty_cluster in
  let r := runTasks plain_settings [0; 1] true (state_of two_waves) in
  emits (λ r, mutating r = false) (state_of two_waves) r.2 ∧ applies (trace r.2) = 2.
Proof.
  intros rt cl r. split.
  - apply (@runTasks_dry_readonly rt cl). vm_compute. reflexivity.
  - vm_compute. reflexivity.
Defined.

Lemma run_next_wave_discipline_witness :
  let _ := reference_runtime in let _ := no_libs in let _ := empty_cluster in
  let s := state_of two_waves in
  let r := run_next_wave plain_settings [0; 1] [] [] [] s in
  emits (sends_only (tasks s) (λ l, next_task (tasks s) [0; 1] l ∨ l ∈ [])) s r.2 ∧
  applies (trace r.2) = 1.
Proof.
  intros rt libs cl s r. split.
  - apply (@run_next_wave_discipline rt libs cl).
    vm_compute. repeat constructor; intros; discriminate.
  - vm_compute. reflexivity.
Defined.

Lemma sync_step_waits_witness :
  let _ := reference_runtime in let _ := no_libs in let _ := empty_cluster in
  sc_phase (sync_step plain_settings [0] (state_of {[0 := hook_task]})).2 = OperationRunning.
Proof.
  intros rt libs cl. apply (@sync_step_waits rt libs cl plain_settings [0] (state_of {[0 := hook_task]})).
  left. exists 0. split; [left|]. split; [vm_compute; reflexivity|]. left. vm_compute. reflexivity.
Defined.

Lemma sync_continue_succeeded_witness :
  let _ := reference_runtime in let _ := no_libs in let _ := empty_cluster in
  let s := state_of {[0 := newTask SyncPhaseSync (Some (cm "a" "0")) None]} in
  let h := tasks (hooks_finished [0] s) in
  todo plain_settings h [0] = [] ∨
   (split_wave h (todo plain_settings h [0])).2 = [] ∧
   ∃ s2 s3, runTasks plain_settings (split_wave h (todo plain_settings h [0])).1 false s2 = (rs_successful, s3) ∧ tasks s2 = h.
Proof.
  intros rt libs cl s h.
  refine (proj2 (@sync_continue_succeeded rt libs cl plain_settings [0] s _)). vm_compute. reflexivity.
Defined.

(** A state whose only resource is a config map that is not in the cluster *)
Definition one_resource : sc_state :=
  mkState {[GetResourceKey (cm "a" "0") := mkRec (Some (cm "a" "0")) None]} ∅ OperationNone "" ∅ 100 [].

Lemma Sync_invalid_readonly_witness :
  let _ := reference_runtime in let _ := no_libs in let _ := empty_cluster in
  sc_phase (Sync plain_settings one_resource).2 = OperationFailed ∧
  emits (λ r, mutating r = false) one_resource (Sync plain_settings one_resource).2.
Proof.
  intros rt libs cl. set (r := getSyncTasks plain_settings one_resource).
  apply (@Sync_invalid_readonly rt libs cl plain_settings one_resource r.1.1 r.1.2 r.2).
  - unfold r. destruct (getSyncTasks plain_settings one_resource) as [[? ?] ?]. reflexivity.
  - left. vm_compute. reflexivity.
Defined.

(** One result, stored under its key *)
Definition one_result : ResourceSyncResult :=
  mkResult (GetResourceKey (cm "a" "0")) [] "v1" 1 ResultCodeSynced "created" None OperationRunning SyncPhaseSync.
Definition one_result_state : sc_state :=
  mkState ∅ {[resourceResultKey (GetResourceKey (cm "a" "0")) SyncPhaseSync := one_result]}
    OperationRunning "running" ∅ 100 [].

Lemma resume_roundtrip_witness :
  let _ := reference_runtime in
  let '(p, m, results) := GetState one_result_state in
  syncRes (WithInitialState p m results 7 (plain_settings, state_of ∅)).2 = syncRes one_result_state.
Proof.
  intros rt.
  refine (proj1 (@resume_roundtrip rt one_result_state (plain_settings, state_of ∅) 7 _)).
  intros k e He. unfold one_result_state in He. cbn [syncRes] in He.
  rewrite lookup_singleton_Some in He. destruct He as [<- <-]. reflexivity.
Defined.

Lemma operation_results_witness :
  let _ := reference_runtime in let _ := no_libs in let _ := empty_cluster in
  let ctx := WithInitialState OperationRunning "" [] 0 (plain_settings, one_resource) in
  res_Order <$> (GetState (Sync ctx.1 ctx.2).2).2 =
    Z.of_nat <$> seq 1 (size (syncRes (Sync ctx.1 ctx.2).2)).
Proof.
  intros rt libs cl ctx.
  refine (proj1 (proj2 (@operation_results rt libs cl (state_of ∅) (state_of ∅) _ eq_refl (rtc_refl _ _) _))).
  apply rtc_once. refine (@op_sync rt libs cl (state_of ∅) OperationRunning "" [] 0 (plain_settings, one_resource) _).
  vm_compute. reflexivity.
Defined.

(** ** Found behaviours *)

(** A cluster that serves jobs *)
Definition job_cluster : Cluster := {|
  api := λ _ r, match r as r return answer r with
                | ReqDiscover _ => inl [mkAPIResource "jobs" "Job" true ["get"; "update"; "delete"]]
                | ReqGet _ _ _ | ReqKubectlGet _ _ => inr (mkErr ReasonNotFound "not found")
                | ReqGetCRD _ => inl []
                | ReqApply _ _ _ _ _ _ | ReqReplace _ _ _ | ReqCreate _ _ _ => ("", None)
                | ReqUpdate _ _ | ReqDelete _ _ _ _ | ReqPatch _ _ _ _ | ReqKubectlDelete _ _ _ _
                | ReqUpdateResource _ _ | ReqWaveHook _ _ _ => None
                end;
  retries := 4; crd_polls := 1;
  UpgradeManagedFieldsPatch := λ _ _ _, inl None;
  namespaceObj := λ n, inl (example_obj "" "Namespace" "" n ∅ JNull);
  not_found_text := λ _ _, "not found"; not_supported_text := λ _ _, "not supported" |}.

Definition job_hook : Unstructured :=
  example_obj "batch" "Job" "ns" "migrate"
    (<["cd.hanzo.ai/hook-delete-policy" := "HookSucceeded"]> {["cd.hanzo.ai/hook" := "Sync"]}) JNull.

(** An operation in dry-run mode with that hook *)
Definition dry_settings : settings :=
  mkSettings None (λ _ _, None) [job_hook] "ns" true false false true false None false false false "" false None
    false None "" false 0 "abc" None false false ∅.

(** The job of an earlier sync is still in the cluster. *)
Definition leftover_job : sc_state :=
  mkState {[GetResourceKey job_hook := mkRec None (Some (with_ptr 7 job_hook))]} ∅ OperationNone "" ∅ 100 [].

Definition is_delete (r : request) : bool :=
  match r with ReqDelete _ _ _ _ => true | _ => false end.

(** An operation in dry-run mode can delete a hook for real: the dry-run
    result of the hook counts as its completion, and the job an earlier sync
    left in the cluster is deleted by the hook's delete policy; the operation
    then reports success. *)
Theorem dry_run_deletes_hook :
  let _ := reference_runtime in let _ := no_libs in let _ := job_cluster in
  let s := (Sync dry_settings leftover_job).2 in
  dryRun dry_settings = true ∧ existsb is_delete (trace s) = true ∧ sc_phase s = OperationSucceeded.
Proof. vm_compute. repeat split; reflexivity. Qed.

(** The automatic creation of the namespace does not see hooks: a namespace
    that is defined by a hook is created automatically all the same, because
    the slice the hooks are copied into is empty. *)
Theorem namespace_hook_not_seen `{GoRuntime} (sc : settings) (s : sc_state) :
  (∀ k r o, resources s !! k = Some r → Target r = Some o → isNamespaceWithName (Some o) (sc_namespace sc) = false) →
  isNamespaceCreationNeeded sc s = true.
Proof.
  intros Hn. unfold isNamespaceCreationNeeded. apply negb_true_iff, not_true_iff_false.
  intros ([k r]&Hin&Hr)%existsb_exists. apply list_elem_of_In, elem_of_go_range in Hin. simpl in Hr.
  destruct (Target r) as [o|] eqn:Et; [|done]. by rewrite (Hn k r o Hin Et) in Hr.
Qed.

Definition ns_hook_settings : settings :=
  mkSettings None (λ _ _, None) [example_obj "" "Namespace" "" "ns" {["cd.hanzo.ai/hook" := "PreSync"]} JNull]
    "ns" false false false true false None false false false "" false None
    false None "" false 0 "abc" None false false ∅.

Lemma namespace_hook_not_seen_witness :
  let _ := reference_runtime in
  existsb (λ o, isNamespaceWithName (Some o) "ns") (hooks ns_hook_settings) = true ∧
  isNamespaceCreationNeeded ns_hook_settings one_resource = true.
Proof.
  intros rt. split; [vm_compute; reflexivity|].
  apply (@namespace_hook_not_seen rt). intros k r o Hk Ho.
  unfold one_resource in Hk. cbn [resources] in Hk. rewrite lookup_singleton_Some in Hk.
  destruct Hk as [<- <-]. simpl in Ho. injection Ho as <-. vm_compute. reflexivity.
Defined.
