(* ===== verification/Rollout.v ===== *)
(** * Progressive sync of application sets: steps and selection

    An application set generates applications; with the [RollingSync] strategy
    their syncs are triggered step by step
    (src/applicationset/progressivesync/progressive_sync.go).  This file has the
    data, the assignment of applications to steps with its validation issues
    (validation_issues.go), and the choice of the steps that may sync.
    [RolloutStatus] has the state machine of one application and the handlers. *)

From S2P Require Import Prelude GoStd GoTime Kube SyncCommon Health.
Local Open Scope string_scope.
Local Open Scope list_scope.
Local Open Scope Z_scope.

(** ** Outcomes of Go code: a value, an error, or a panic *)

Inductive outcome (A : Type) : Type :=
  | Returns (a : A)
  | Fails
  | Panics.
Arguments Returns {_} _.
Arguments Fails {_}.
Arguments Panics {_}.

#[export] Instance outcome_ret : MRet outcome := λ A a, Returns a.
#[export] Instance outcome_bind : MBind outcome := λ A B f m,
  match m with Returns a => f a | Fails => Fails | Panics => Panics end.

(** An index or a nil pointer that Go checks *)
Definition or_panic {A} (o : option A) : outcome A :=
  match o with Some a => Returns a | None => Panics end.

Lemma outcome_bind_Returns {A B} (m : outcome A) (f : A → outcome B) b :
  m ≫= f = Returns b → ∃ a, m = Returns a ∧ f a = Returns b.
Proof. destruct m; simpl; [eauto|done..]. Qed.

Lemma or_panic_Returns {A} (o : option A) a : or_panic o = Returns a → o = Some a.
Proof. destruct o; simpl; congruence. Qed.

(** ** Data (src/pkg/apis/application/v1alpha1/applicationset_types.go, types.go) *)

(** [intstr.IntOrString] *)
Inductive IntOrString := IntVal (n : Z) | StrVal (s : string).

Record ApplicationMatchExpression := { Key : string; Operator : string; Values : list string }.
Record ApplicationSetRolloutStep := {
  MatchExpressions : list ApplicationMatchExpression;
  MaxUpdate : option IntOrString;
}.
(** [RollingSync] is a pointer to a struct with the steps. *)
Record ApplicationSetStrategy := {
  StrategyType : string;
  RollingSync : option (list ApplicationSetRolloutStep);
  DeletionOrder : string;
}.

Inductive ProgressiveSyncStatusCode :=
  | ProgressiveSyncWaiting | ProgressiveSyncPending | ProgressiveSyncProgressing | ProgressiveSyncHealthy
  | ProgressiveSyncOther (s : string).
#[export] Instance ProgressiveSyncStatusCode_eq_dec : EqDecision ProgressiveSyncStatusCode.
Proof. solve_decision. Defined.

(** [TargetRevisions] is [None] for a nil slice. *)
Record ApplicationSetApplicationStatus := {
  Application : string;
  LastTransitionTime : option Z;
  StatusMessage : string;
  StatusCode : ProgressiveSyncStatusCode;
  StatusStep : string;
  TargetRevisions : option (list string);
}.

Record ApplicationSetCondition := {
  ConditionType : string;
  ConditionMessage : string;
  ConditionStatus : string;
  ConditionReason : string;
}.

(** The fields of an application set that progressive sync reads *)
Record ApplicationSet := {
  Strategy : option ApplicationSetStrategy;
  ApplicationStatus : list ApplicationSetApplicationStatus;
}.

Record SyncPolicyAutomated := { Prune : option bool; Enabled : option bool }.
Record RetryStrategy := { Limit : Z; RetryFields : string }.
Record SyncPolicy := {
  AutomatedPolicy : option SyncPolicyAutomated;
  SyncOptions : option (list string);
  Retry : option RetryStrategy;
}.
(** [SpecFields] stands for the fields of the specification that are only
    compared. *)
Record ApplicationSpec := { SpecSyncPolicy : option SyncPolicy; SpecFields : string }.

Record Operation := {
  InitiatedByUsername : string;
  InitiatedAutomated : bool;
  Info : list (string * string);
  SyncPrune : bool;
  SyncSyncOptions : option (list string);
  OperationRetry : RetryStrategy;
}.

(** The fields of an application that progressive sync reads *)
Record App := {
  Name : string;
  Labels : gmap string string;
  Spec : ApplicationSpec;
  SyncStatus : string;
  SyncRevision : string;
  SyncRevisions : list string;
  HealthCode : HealthStatusCode;
  ReconciledAt : option Z;
  AppOperationState : option (OperationPhase * Z);
  AppConditions : list string;
  AppOperation : option Operation;
}.

Definition SyncStatusCodeSynced : string := "Synced".

(** [GetRevisions] never returns a nil slice. *)
Definition GetRevisions (a : App) : list string :=
  if negb (Nat.eqb (length (SyncRevisions a)) 0) then SyncRevisions a
  else if negb (String.eqb (SyncRevision a) "") then [SyncRevision a] else [].

(** ** Strategy *)
Definition steps_of (a : ApplicationSet) : list ApplicationSetRolloutStep :=
  default [] (s ← Strategy a; RollingSync s).

Definition IsRollingSyncStrategy (a : ApplicationSet) : bool :=
  match Strategy a with
  | Some s => String.eqb (StrategyType s) "RollingSync" && (if RollingSync s is Some _ then true else false)
  | None => false
  end.

Definition RollingSyncStrategyEnabled (a : ApplicationSet) : bool :=
  IsRollingSyncStrategy a && negb (Nat.eqb (length (steps_of a)) 0).

Definition ReverseDeletionOrder : string := "Reverse".

Definition IsDeletionOrderReversed (a : ApplicationSet) : bool :=
  RollingSyncStrategyEnabled a &&
  match Strategy a with Some s => EqualFold (DeletionOrder s) ReverseDeletionOrder | None => false end.

(** ** Validation issues (validation_issues.go) *)
Record InvalidMatchExpression := { IME_StepIndex : nat; IME_Operator : string }.
Record InvalidMaxUpdate := { IMU_StepIndex : nat; IMU_MaxUpdate : IntOrString; IMU_Error : string }.

Record ValidationIssues := {
  InvalidMatchExpressions : list InvalidMatchExpression;
  DuplicateAppSelections : gmap string (list nat);
  EmptySteps : list nat;
  InvalidMaxUpdates : list InvalidMaxUpdate;
}.

Definition no_issues : ValidationIssues :=
  {| InvalidMatchExpressions := []; DuplicateAppSelections := ∅; EmptySteps := []; InvalidMaxUpdates := [] |}.

Definition HasIssues (v : ValidationIssues) : bool :=
  negb (Nat.eqb (length (InvalidMatchExpressions v)) 0) ||
  negb (Nat.eqb (size (DuplicateAppSelections v)) 0) ||
  negb (Nat.eqb (length (EmptySteps v)) 0) ||
  negb (Nat.eqb (length (InvalidMaxUpdates v)) 0).

Definition alreadyExists (v : ValidationIssues) (stepIndex : nat) (operator : string) : bool :=
  existsb (λ i, Nat.eqb (IME_StepIndex i) stepIndex && String.eqb (IME_Operator i) operator)
    (InvalidMatchExpressions v).

Definition add_invalid_match (stepIndex : nat) (operator : string) (v : ValidationIssues) : ValidationIssues :=
  {| InvalidMatchExpressions :=
       InvalidMatchExpressions v ++ [{| IME_StepIndex := stepIndex; IME_Operator := operator |}];
     DuplicateAppSelections := DuplicateAppSelections v; EmptySteps := EmptySteps v;
     InvalidMaxUpdates := InvalidMaxUpdates v |}.

(** The second and later steps that select an application; the first entry is
    the step the application is in. *)
Definition add_duplicate (name : string) (first i : nat) (v : ValidationIssues) : ValidationIssues :=
  {| InvalidMatchExpressions := InvalidMatchExpressions v;
     DuplicateAppSelections :=
       <[name := default [first] (DuplicateAppSelections v !! name) ++ [i]]> (DuplicateAppSelections v);
     EmptySteps := EmptySteps v; InvalidMaxUpdates := InvalidMaxUpdates v |}.

Definition add_empty_step (i : nat) (v : ValidationIssues) : ValidationIssues :=
  {| InvalidMatchExpressions := InvalidMatchExpressions v;
     DuplicateAppSelections := DuplicateAppSelections v; EmptySteps := EmptySteps v ++ [i];
     InvalidMaxUpdates := InvalidMaxUpdates v |}.

Definition add_invalid_max_update (i : nat) (m : IntOrString) (err : string) (v : ValidationIssues)
    : ValidationIssues :=
  if existsb (λ x, Nat.eqb (IMU_StepIndex x) i) (InvalidMaxUpdates v) then v
  else
    {| InvalidMatchExpressions := InvalidMatchExpressions v;
       DuplicateAppSelections := DuplicateAppSelections v; EmptySteps := EmptySteps v;
       InvalidMaxUpdates := InvalidMaxUpdates v ++
         [{| IMU_StepIndex := i; IMU_MaxUpdate := m; IMU_Error := err |}] |}.

(** *** Messages; [n + 1] is the number of step [n] shown to the user. *)
Definition step_num (i : nat) : string := pretty (i + 1)%nat.

Definition formatInvalidMatchExpressionMessage (v : ValidationIssues) : string :=
  let stepNums := (λ m, step_num (IME_StepIndex m)) <$> InvalidMatchExpressions v in
  let invalidOperators := IME_Operator <$> InvalidMatchExpressions v in
  let supported := ". Supported Operators are 'In' and 'NotIn'" in
  match stepNums with
  | [n] => "Step " +:+ n +:+ " has invalid matchExpression operators: " +:+ Join invalidOperators ", " +:+ supported
  | _ => "Steps " +:+ Join stepNums ", " +:+ " have invalid matchExpression operators: " +:+
         Join invalidOperators ", " +:+ supported
  end.

Definition formatDuplicateAppSelectionMessage (v : ValidationIssues) : string :=
  let keys := sort_Strings (map_to_list (DuplicateAppSelections v)).*1 in
  let stepNums :=
    (λ k, Join (step_num <$> default [] (DuplicateAppSelections v !! k)) "-") <$> keys in
  match keys with
  | [n] => "Application '" +:+ n +:+ "' is selected by multiple steps: (" +:+ Join stepNums ", " +:+ ")"
  | _ => "Applications '" +:+ Join keys "', '" +:+ "' are selected by multiple steps: [(" +:+
         Join stepNums "), (" +:+ ")]"
  end.

(** [IntOrString.String] *)
Definition IntOrString_String (m : IntOrString) : string :=
  match m with IntVal n => pretty n | StrVal s => s end.

Definition formatInvalidMaxUpdateMessage (v : ValidationIssues) : string :=
  let stepNums := (λ m, step_num (IMU_StepIndex m)) <$> InvalidMaxUpdates v in
  let values := (λ m, IntOrString_String (IMU_MaxUpdate m)) <$> InvalidMaxUpdates v in
  match stepNums with
  | [_] => "Step " +:+ Join stepNums ", " +:+ " has an invalid maxUpdate value: " +:+ Join values ", "
  | _ => "Steps " +:+ Join stepNums ", " +:+ " have invalid maxUpdate values: [" +:+ Join values ", " +:+ "]"
  end.

(** [%v] of a slice of strings: its elements between brackets, separated by a
    space *)
Definition formatEmptyStepsMessage (v : ValidationIssues) : string :=
  "Steps [" +:+ Join (step_num <$> EmptySteps v) " " +:+ "] have no applications matching their criteria".

Definition getConditionMessage (v : ValidationIssues) : string :=
  if negb (Nat.eqb (length (InvalidMatchExpressions v)) 0) then formatInvalidMatchExpressionMessage v
  else if negb (Nat.eqb (size (DuplicateAppSelections v)) 0) then formatDuplicateAppSelectionMessage v
  else if negb (Nat.eqb (length (InvalidMaxUpdates v)) 0) then formatInvalidMaxUpdateMessage v
  else if negb (Nat.eqb (length (EmptySteps v)) 0) then formatEmptyStepsMessage v
  else "".

(** ** Steps of applications *)

(** Whether the value of a label matches, and whether the operator is invalid *)
Definition labelMatchedExpression (val : string) (m : ApplicationMatchExpression) : bool * bool :=
  if negb (String.eqb (Operator m) "In") && negb (String.eqb (Operator m) "NotIn") then (false, true)
  else if existsb (String.eqb val) (Values m) then (String.eqb (Operator m) "In", false)
  else (String.eqb (Operator m) "NotIn", false).

(** The loop over the expressions of step [i] *)
Fixpoint match_step (app : App) (i : nat) (l : list ApplicationMatchExpression) (issues : ValidationIssues)
    : bool * ValidationIssues :=
  match l with
  | [] => (true, issues)
  | m :: r =>
      match Labels app !! Key m with
      | Some val =>
          let '(valueMatched, operatorErr) := labelMatchedExpression val m in
          if operatorErr && negb (alreadyExists issues i (Operator m)) then
            (false, add_invalid_match i (Operator m) issues)
          else if negb valueMatched then (false, issues)
          else match_step app i r issues
      | None => if String.eqb (Operator m) "In" then (false, issues) else match_step app i r issues
      end
  end.

Record build := {
  appDependencyList : list (list string);
  appStepMap : gmap string nat;
  build_issues : ValidationIssues;
}.

Definition build_step (app : App) (st : build) (i : nat) (step : ApplicationSetRolloutStep) : build :=
  let '(selected, issues) := match_step app i (MatchExpressions step) (build_issues st) in
  if selected : bool then
    let deps := alter (λ l, l ++ [Name app]) i (appDependencyList st) in
    match appStepMap st !! Name app with
    | Some val =>
        {| appDependencyList := deps; appStepMap := appStepMap st;
           build_issues := add_duplicate (Name app) val i issues |}
    | None =>
        {| appDependencyList := deps; appStepMap := <[Name app := i]> (appStepMap st);
           build_issues := issues |}
    end
  else {| appDependencyList := appDependencyList st; appStepMap := appStepMap st; build_issues := issues |}.

(** A loop over a slice with its index *)
Fixpoint fold_index {A S} (f : S → nat → A → S) (i : nat) (l : list A) (st : S) : S :=
  match l with [] => st | x :: r => fold_index f (Datatypes.S i) r (f st i x) end.

Definition build_app (steps : list ApplicationSetRolloutStep) (st : build) (app : App) : build :=
  fold_index (build_step app) 0 steps st.

Definition empty_steps (deps : list (list string)) (issues : ValidationIssues) : ValidationIssues :=
  fold_index (λ v i names, if Nat.eqb (length names) 0 then add_empty_step i v else v) 0 deps issues.

Definition buildAppDependencyList (a : ApplicationSet) (applications : list App) : build :=
  let empty := {| appDependencyList := []; appStepMap := ∅; build_issues := no_issues |} in
  match Strategy a with
  | None => empty
  | Some s =>
      if String.eqb (StrategyType s) "" || String.eqb (StrategyType s) "AllAtOnce" then empty
      else
        let steps := if RollingSyncStrategyEnabled a then steps_of a else [] in
        let st := foldl (build_app steps)
          {| appDependencyList := (λ _, []) <$> steps; appStepMap := ∅; build_issues := no_issues |}
          applications in
        {| appDependencyList := appDependencyList st; appStepMap := appStepMap st;
           build_issues := empty_steps (appDependencyList st) (build_issues st) |}
  end.

(** The number shown for the step of an application: -1 when no step selects it *)
Definition getAppStep (name : string) (m : gmap string nat) : Z :=
  match m !! name with Some s => Z.of_nat s + 1 | None => -1 end.

(** ** Statuses by name (src/applicationset/utils/utils.go) *)
Definition FindApplicationStatusIndex (l : list ApplicationSetApplicationStatus) (name : string) : option nat :=
  fst <$> list_find (λ s, Application s = name) l.

Definition status_of (l : list ApplicationSetApplicationStatus) (name : string)
    : option ApplicationSetApplicationStatus :=
  i ← FindApplicationStatusIndex l name; l !! i.

(** ** The steps that may sync

    [map[string]bool] maps with only true values are sets. *)
Definition has_status (l : list ApplicationSetApplicationStatus) (name : string)
    (code : ProgressiveSyncStatusCode) : bool :=
  match status_of l name with Some s => bool_decide (StatusCode s = code) | None => false end.

Definition wave_done (a : ApplicationSet) (current : gset string) (names : list string) : bool :=
  forallb (λ n, bool_decide (n ∈ current) && has_status (ApplicationStatus a) n ProgressiveSyncHealthy) names.

Fixpoint sync_waves (a : ApplicationSet) (current : gset string) (deps : list (list string))
    (appSyncMap : gset string) : gset string :=
  match deps with
  | [] => appSyncMap
  | names :: rest =>
      let appSyncMap := appSyncMap ∪ list_to_set names in
      if wave_done a current names then sync_waves a current rest appSyncMap else appSyncMap
  end.

Definition getAppsToSync (a : ApplicationSet) (deps : list (list string)) (currentApplications : list App)
    : gset string :=
  sync_waves a (list_to_set (Name <$> currentApplications)) deps ∅.

(** ** What the steps select *)

(** An expression holds of an application: a present label must have a value the
    operator accepts; a missing one only rules out [In]. *)
Definition expression_holds (app : App) (m : ApplicationMatchExpression) : bool :=
  match Labels app !! Key m with
  | Some val =>
      if String.eqb (Operator m) "In" then existsb (String.eqb val) (Values m)
      else String.eqb (Operator m) "NotIn" && negb (existsb (String.eqb val) (Values m))
  | None => negb (String.eqb (Operator m) "In")
  end.

Definition selects (app : App) (step : ApplicationSetRolloutStep) : bool :=
  forallb (expression_holds app) (MatchExpressions step).

Lemma labelMatchedExpression_spec app m val :
  Labels app !! Key m = Some val →
  (labelMatchedExpression val m).1 = expression_holds app m ∧
  ((labelMatchedExpression val m).2 = true → expression_holds app m = false).
Proof.
  intros Hl. unfold labelMatchedExpression, expression_holds. rewrite Hl.
  destruct (String.eqb_spec (Operator m) "In") as [->|]; simpl.
  - by destruct (existsb _ _).
  - destruct (String.eqb (Operator m) "NotIn"); simpl; [|done]. by destruct (existsb _ _).
Qed.

Lemma match_step_selects app i l issues : (match_step app i l issues).1 = forallb (expression_holds app) l.
Proof.
  revert issues. induction l as [|m l IH]; intros issues; simpl; [done|].
  destruct (Labels app !! Key m) as [val|] eqn:Hl.
  - destruct (labelMatchedExpression_spec app m val Hl) as [Hm He].
    destruct (labelMatchedExpression val m) as [matched err]. simpl in Hm, He. subst matched.
    destruct err; simpl; [|by destruct (expression_holds app m); simpl; [apply IH|]].
    rewrite (He eq_refl). by destruct (alreadyExists _ _ _).
  - unfold expression_holds at 1. rewrite Hl. by destruct (String.eqb (Operator m) "In"); simpl; [|apply IH].
Qed.

Lemma build_step_deps app st i step :
  appDependencyList (build_step app st i step) =
    if selects app step then alter (λ l, l ++ [Name app]) i (appDependencyList st) else appDependencyList st.
Proof.
  unfold build_step, selects. rewrite <-(match_step_selects app i _ (build_issues st)).
  destruct (match_step _ _ _ _) as [[] issues]; simpl; [|done]. by destruct (appStepMap st !! _).
Qed.

Lemma build_step_map app st i step :
  appStepMap (build_step app st i step) =
    match appStepMap st !! Name app with
    | Some _ => appStepMap st
    | None => if selects app step then <[Name app := i]> (appStepMap st) else appStepMap st
    end.
Proof.
  unfold build_step, selects. rewrite <-(match_step_selects app i _ (build_issues st)).
  destruct (match_step _ _ _ _) as [[] issues]; simpl; destruct (appStepMap st !! _) eqn:E; done.
Qed.

(** The steps from [i] on add the application to their lists. *)
Definition added (app : App) (i : nat) (l : list ApplicationSetRolloutStep) (k : nat) : list string :=
  match l !! (k - i)%nat with
  | Some step => if Nat.leb i k && selects app step then [Name app] else []
  | None => []
  end.

Lemma build_app_deps app l i st k :
  appDependencyList (fold_index (build_step app) i l st) !! k =
    (λ names, names ++ added app i l k) <$> appDependencyList st !! k.
Proof.
  revert i st. induction l as [|step l IH]; intros i st; simpl.
  - unfold added. simpl. destruct (appDependencyList st !! k); simpl; [|done]. by rewrite app_nil_r.
  - rewrite IH, build_step_deps. unfold added.
    destruct (decide (k < i)%nat) as [Hlt|Hge].
    { rewrite (proj2 (Nat.leb_gt i k)), (proj2 (Nat.leb_gt (S i) k)) by lia.
      replace (k - i)%nat with 0%nat by lia. replace (k - S i)%nat with 0%nat by lia. simpl.
      assert ((if selects app step then alter (λ l0, l0 ++ [Name app]) i (appDependencyList st)
              else appDependencyList st) !! k = appDependencyList st !! k) as ->.
      { destruct (selects app step); [|done]. apply list_lookup_alter_ne. lia. }
      destruct (l !! 0%nat); done. }
    destruct (decide (k = i)) as [->|Hne].
    + rewrite Nat.sub_diag. replace (i - S i)%nat with 0%nat by lia.
      rewrite Nat.leb_refl, (proj2 (Nat.leb_gt (S i) i)) by lia. simpl.
      destruct (selects app step); [rewrite list_lookup_alter_eq|];
        destruct (appDependencyList st !! i); simpl; destruct (l !! 0%nat); simpl; by rewrite ?app_nil_r.
    + replace (k - i)%nat with (S (k - S i)) by lia.
      rewrite (proj2 (Nat.leb_le i k)), (proj2 (Nat.leb_le (S i) k)) by lia. simpl.
      destruct (selects app step); [|done]. by rewrite list_lookup_alter_ne by lia.
Qed.

Lemma build_app_map app l i st :
  appStepMap (fold_index (build_step app) i l st) =
    match appStepMap st !! Name app with
    | Some _ => appStepMap st
    | None =>
        match list_find (λ step, selects app step = true) l with
        | Some (k, _) => <[Name app := (i + k)%nat]> (appStepMap st)
        | None => appStepMap st
        end
    end.
Proof.
  revert i st. induction l as [|step l IH]; intros i st; simpl; [by destruct (appStepMap st !! _)|].
  rewrite IH, build_step_map. destruct (appStepMap st !! Name app) eqn:E; [by rewrite E|].
  destruct (selects app step) eqn:Hs.
  - rewrite lookup_insert_eq, decide_True by done. by rewrite Nat.add_0_r.
  - rewrite E, decide_False by done.
    destruct (list_find _ l) as [[k s]|]; simpl; [|done]. by rewrite Nat.add_succ_r.
Qed.

Lemma build_apps_deps steps apps st k step :
  steps !! k = Some step →
  appDependencyList (foldl (build_app steps) st apps) !! k =
    (λ names, names ++ (Name <$> filter (λ app, selects app step = true) apps)) <$> appDependencyList st !! k.
Proof.
  intros Hk. revert st. induction apps as [|app apps IH]; intros st; cbn [foldl].
  - destruct (appDependencyList st !! k); simpl; [|done]. by rewrite app_nil_r.
  - rewrite IH. unfold build_app. rewrite build_app_deps, <-option_fmap_compose.
    apply option_fmap_ext. intros names. simpl. unfold added. rewrite Nat.sub_0_r, Hk. simpl.
    rewrite <-(assoc_L (++)). f_equal. rewrite filter_cons.
    by destruct (selects app step).
Qed.

Lemma build_app_length app l i st :
  length (appDependencyList (fold_index (build_step app) i l st)) = length (appDependencyList st).
Proof.
  revert i st. induction l as [|s l IH]; intros i st; simpl; [done|]. rewrite IH, build_step_deps.
  destruct (selects app s); [apply length_alter|done].
Qed.

Lemma build_apps_length steps apps st :
  length (appDependencyList (foldl (build_app steps) st apps)) = length (appDependencyList st).
Proof.
  revert st. induction apps as [|app apps IH]; intros st; cbn [foldl]; [done|].
  rewrite IH. apply build_app_length.
Qed.

(** The step that an application is in: the first that selects it *)
Definition first_step (steps : list ApplicationSetRolloutStep) (app : App) : option nat :=
  fst <$> list_find (λ step, selects app step = true) steps.

Lemma build_apps_map steps apps st n :
  NoDup (Name <$> apps) →
  appStepMap (foldl (build_app steps) st apps) !! n =
    match appStepMap st !! n with
    | Some k => Some k
    | None => app ← snd <$> list_find (λ app, Name app = n) apps; first_step steps app
    end.
Proof.
  revert st. induction apps as [|app apps IH]; intros st Hnd; cbn [foldl].
  - simpl. by destruct (appStepMap st !! n).
  - rewrite fmap_cons, NoDup_cons in Hnd. destruct Hnd as [Hnin Hnd].
    rewrite IH by done. unfold build_app. rewrite build_app_map. clear IH.
    assert (Name app = n → list_find (λ app, Name app = n) apps = None) as Hnone.
    { intros <-. apply list_find_None, Forall_forall. intros x Hx Heq. apply Hnin.
      rewrite <-Heq. by apply list_elem_of_fmap_2. }
    cbn [list_find]. destruct (decide (Name app = n)) as [Heq|Hne].
    + rewrite (Hnone Heq). subst n. cbn.
      destruct (appStepMap st !! Name app) eqn:E; [by rewrite E|].
      unfold first_step. destruct (list_find _ steps) as [[k s]|]; cbn.
      * by rewrite lookup_insert_eq.
      * by rewrite E.
    + destruct (appStepMap st !! Name app) eqn:E.
      * destruct (appStepMap st !! n); [done|]. by destruct (list_find _ apps) as [[??]|].
      * destruct (list_find (λ step, _) steps) as [[k s]|]; [rewrite lookup_insert_ne by done|];
          destruct (appStepMap st !! n); try done; by destruct (list_find (λ app0, _) apps) as [[??]|].
Qed.

Lemma enabled_strategy a :
  RollingSyncStrategyEnabled a = true →
  ∃ s, Strategy a = Some s ∧ StrategyType s = "RollingSync" ∧ (0 < length (steps_of a))%nat.
Proof.
  unfold RollingSyncStrategyEnabled, IsRollingSyncStrategy. intros [H Hlen]%andb_prop.
  destruct (Strategy a) as [s|]; [|done]. apply andb_prop in H as [Ht%String.eqb_eq _].
  exists s. split_and!; [done..|]. destruct (Nat.eqb_spec (length (steps_of a)) 0); [done|lia].
Qed.

Lemma build_enabled a apps :
  RollingSyncStrategyEnabled a = true →
  let st := foldl (build_app (steps_of a))
    {| appDependencyList := (λ _, []) <$> steps_of a; appStepMap := ∅; build_issues := no_issues |} apps in
  appDependencyList (buildAppDependencyList a apps) = appDependencyList st ∧
  appStepMap (buildAppDependencyList a apps) = appStepMap st.
Proof.
  intros Hen. cbn zeta. unfold buildAppDependencyList. rewrite Hen.
  by destruct (enabled_strategy a Hen) as (s & -> & -> & _).
Qed.

Lemma build_deps a apps :
  RollingSyncStrategyEnabled a = true →
  appDependencyList (buildAppDependencyList a apps) =
    (λ step, Name <$> filter (λ app, selects app step = true) apps) <$> steps_of a.
Proof.
  intros Hen. rewrite (proj1 (build_enabled a apps Hen)). apply list_eq. intros k.
  rewrite list_lookup_fmap. destruct (steps_of a !! k) as [step|] eqn:Hk; simpl.
  - rewrite (build_apps_deps _ _ _ _ step Hk). simpl. by rewrite list_lookup_fmap, Hk.
  - apply lookup_ge_None_2. rewrite build_apps_length. simpl. rewrite length_fmap.
    by apply lookup_ge_None_1.
Qed.

Lemma build_map a apps n :
  RollingSyncStrategyEnabled a = true → NoDup (Name <$> apps) →
  appStepMap (buildAppDependencyList a apps) !! n =
    app ← snd <$> list_find (λ app, Name app = n) apps; first_step (steps_of a) app.
Proof.
  intros Hen Hnd. rewrite (proj2 (build_enabled a apps Hen)), build_apps_map by done.
  cbn [appStepMap]. by rewrite lookup_empty.
Qed.

Lemma find_by_name (apps : list App) app :
  NoDup (Name <$> apps) → app ∈ apps → snd <$> list_find (λ x, Name x = Name app) apps = Some app.
Proof.
  induction apps as [|x apps IH]; [by intros _ ?%not_elem_of_nil|].
  rewrite fmap_cons, NoDup_cons. intros [Hnin Hnd] Hin. cbn [list_find].
  destruct (decide (Name x = Name app)) as [Heq|Hne].
  - apply elem_of_cons in Hin as [->|Hin]; [done|]. destruct Hnin. rewrite Heq.
    by apply list_elem_of_fmap_2.
  - apply elem_of_cons in Hin as [->|Hin]; [done|]. specialize (IH Hnd Hin).
    destruct (list_find _ apps) as [[k y]|]; cbn in *; done.
Qed.

(** The steps of a rollout: with the rolling strategy, the list of a step has
    the applications its expressions select, in their order, and the step of an
    application is the first that selects it; applications no step selects have
    none. *)
Theorem buildAppDependencyList_correct a apps :
  RollingSyncStrategyEnabled a = true → NoDup (Name <$> apps) →
  appDependencyList (buildAppDependencyList a apps) =
    ((λ step, Name <$> filter (λ app, selects app step = true) apps) <$> steps_of a) ∧
  (∀ app, app ∈ apps →
    appStepMap (buildAppDependencyList a apps) !! Name app =
      fst <$> list_find (λ step, selects app step = true) (steps_of a)) ∧
  (∀ n, n ∉ Name <$> apps → appStepMap (buildAppDependencyList a apps) !! n = None).
Proof.
  intros Hen Hnd. split_and!; [by apply build_deps| |].
  - intros app Hin. rewrite build_map by done. by rewrite find_by_name.
  - intros n Hnin. rewrite build_map by done.
    destruct (list_find _ apps) as [[k x]|] eqn:Hf; [|done].
    apply list_find_Some in Hf as (Hk & Hx & _). destruct Hnin. rewrite <-Hx.
    by apply list_elem_of_fmap_2, list_elem_of_lookup_2 with k.
Qed.

(** ** The waves that may sync *)
Lemma sync_waves_spec a current deps acc n :
  n ∈ sync_waves a current deps acc ↔
    n ∈ acc ∨ ∃ j names, deps !! j = Some names ∧ n ∈ names ∧
      ∀ i names', (i < j)%nat → deps !! i = Some names' → wave_done a current names' = true.
Proof.
  revert acc. induction deps as [|names deps IH]; intros acc; simpl.
  - split; [by left|]. by intros [?|(j & ? & ? & _)].
  - destruct (wave_done a current names) eqn:Hdone.
    + rewrite IH, elem_of_union, elem_of_list_to_set. split.
      * intros [[?|?]|(j & names' & Hj & Hn & Hall)]; [by left|right..].
        -- exists 0%nat, names. split_and!; [done..|lia].
        -- exists (S j), names'. split_and!; [done..|]. intros [|i] names'' Hi; simpl; [congruence|].
           apply Hall. lia.
      * intros [?|([|j] & names' & Hj & Hn & Hall)]; [by left; left|left; right|right].
        -- simpl in Hj. congruence.
        -- exists j, names'. split_and!; [done..|]. intros i names'' Hi. apply (Hall (S i)). lia.
    + rewrite elem_of_union, elem_of_list_to_set. split.
      * intros [?|?]; [by left|right]. exists 0%nat, names. split_and!; [done..|lia].
      * intros [?|([|j] & names' & Hj & Hn & Hall)]; [by left|simpl in Hj; right; congruence|].
        exfalso. specialize (Hall 0%nat names ltac:(lia) eq_refl). congruence.
Qed.

Lemma wave_done_spec a current names :
  wave_done a current names = true ↔
    ∀ n, n ∈ names → n ∈ current ∧ has_status (ApplicationStatus a) n ProgressiveSyncHealthy = true.
Proof.
  unfold wave_done. rewrite forallb_forall. setoid_rewrite <-list_elem_of_In.
  split; intros H n Hn; specialize (H n Hn).
  - apply andb_prop in H as [?%bool_decide_eq_true ?]. done.
  - apply andb_true_intro. rewrite bool_decide_eq_true. done.
Qed.

Lemma getAppsToSync_spec a deps apps n :
  n ∈ getAppsToSync a deps apps ↔
    ∃ j names, deps !! j = Some names ∧ n ∈ names ∧
      ∀ i names' n', (i < j)%nat → deps !! i = Some names' → n' ∈ names' →
        n' ∈ Name <$> apps ∧ has_status (ApplicationStatus a) n' ProgressiveSyncHealthy = true.
Proof.
  unfold getAppsToSync. rewrite sync_waves_spec. split.
  - intros [?%elem_of_empty|(j & names & Hj & Hn & Hall)]; [done|]. exists j, names. split_and!; [done..|].
    intros i names' n' Hi Hi' Hn'. specialize (Hall i names' Hi Hi').
    rewrite wave_done_spec in Hall. setoid_rewrite elem_of_list_to_set in Hall. by apply Hall.
  - intros (j & names & Hj & Hn & Hall). right. exists j, names. split_and!; [done..|].
    intros i names' Hi Hi'. rewrite wave_done_spec. setoid_rewrite elem_of_list_to_set. eauto.
Qed.
