(* ===== verification/RolloutStatus.v ===== *)
(** * Progressive sync of application sets: statuses and handlers

    The state machine of one application (Waiting, Pending, Progressing,
    Healthy), the two passes over the statuses of an application set, the
    conditions that are reported, the triggering of syncs and the deletion in
    reverse order (src/applicationset/progressivesync/progressive_sync.go).  The
    manager stores statuses through the interface [Dependencies]; the controller's
    implementation (src/applicationset/controllers/applicationset_controller.go)
    is an instance that satisfies its laws. *)

From S2P Require Import Prelude GoStd GoTime Kube SyncCommon Health Rollout.
Local Open Scope string_scope.
Local Open Scope list_scope.
Local Open Scope Z_scope.

(** ** Interfaces *)

(** What the manager asks of the controller: the numbered call returns the
    application set in memory after the statuses have been stored. *)
Class Dependencies : Type := {
  SetAppSetApplicationStatus :
    nat → ApplicationSet → list ApplicationSetApplicationStatus → outcome ApplicationSet;
}.

(** The part of a status that the rollout decides on, and all of it but times *)
Definition view (s : ApplicationSetApplicationStatus) : string * ProgressiveSyncStatusCode * string * string :=
  (Application s, StatusCode s, StatusStep s, StatusMessage s).
Definition same_record (s t : ApplicationSetApplicationStatus) : Prop :=
  view s = view t ∧ TargetRevisions s = TargetRevisions t ∧
  (LastTransitionTime s = None ↔ LastTransitionTime t = None).

Class DependenciesLaws (D : Dependencies) : Prop := {
  set_views n a l a' :
    SetAppSetApplicationStatus n a l = Returns a' → NoDup (Application <$> l) →
    view <$> ApplicationStatus a' ≡ₚ view <$> l;
  set_records n a l a' s :
    SetAppSetApplicationStatus n a l = Returns a' → s ∈ ApplicationStatus a' →
    ∃ t, t ∈ l ++ ApplicationStatus a ∧ same_record s t;
  set_no_panic n a l : SetAppSetApplicationStatus n a l ≠ Panics;
}.

(** [intstr.GetScaledValueFromIntOrPercent], rounding down: the value, 0 when
    there is an error, and the error *)
Class IntStr : Type := {
  GetScaledValueFromIntOrPercent : IntOrString → Z → Z * option string;
}.
Class IntStrLaws (I : IntStr) : Prop := {
  scaled_int n total : GetScaledValueFromIntOrPercent (IntVal n) total = (n, None);
}.

(** ** One application *)

Definition revisionAndSpecChangedMsg : string :=
  "Application has pending changes (revision and spec differ), setting status to Waiting".
Definition revisionChangedMsg : string := "Application has pending changes, setting status to Waiting".
Definition specChangedMsg : string :=
  "Application has pending changes (spec differs), setting status to Waiting".

(** A transition: status and message at the time [now] *)
Definition move (now : Z) (code : ProgressiveSyncStatusCode) (msg : string)
    (s : ApplicationSetApplicationStatus) : ApplicationSetApplicationStatus :=
  {| Application := Application s; LastTransitionTime := Some now; StatusMessage := msg; StatusCode := code;
     StatusStep := StatusStep s; TargetRevisions := TargetRevisions s |}.
Definition with_step (step : string) (s : ApplicationSetApplicationStatus) : ApplicationSetApplicationStatus :=
  {| Application := Application s; LastTransitionTime := LastTransitionTime s; StatusMessage := StatusMessage s;
     StatusCode := StatusCode s; StatusStep := step; TargetRevisions := TargetRevisions s |}.
Definition with_revisions (l : list string) (s : ApplicationSetApplicationStatus)
    : ApplicationSetApplicationStatus :=
  {| Application := Application s; LastTransitionTime := LastTransitionTime s; StatusMessage := StatusMessage s;
     StatusCode := StatusCode s; StatusStep := StatusStep s; TargetRevisions := Some l |}.

Definition isApplicationWithError (app : App) : bool :=
  existsb (λ t, String.eqb t "InvalidSpecError" || String.eqb t "UnknownError") (AppConditions app).

(** The stored status, or the one of an application without *)
Definition current_status (l : list ApplicationSetApplicationStatus) (now : Z) (m : gmap string nat) (app : App)
    : ApplicationSetApplicationStatus :=
  match status_of l (Name app) with
  | Some s => s
  | None =>
      {| Application := Name app; LastTransitionTime := Some now;
         StatusMessage := "No Application status found, defaulting status to Waiting";
         StatusCode := ProgressiveSyncWaiting; StatusStep := pretty (getAppStep (Name app) m);
         TargetRevisions := Some (GetRevisions app) |}
  end.

Section manager.
(** [cmp.Equal] on specifications *)
Context (cmp_Equal : ApplicationSpec → ApplicationSpec → bool).
Context `{D : Dependencies} `{I : IntStr} `{RT : GoRuntime}.

Definition desiredAppsMap (desired : list App) : gmap string App :=
  foldl (λ m d, <[Name d := d]> m) ∅ desired.

Definition spec_changed (desired : gmap string App) (app : App) : bool :=
  match desired !! Name app with Some d => negb (cmp_Equal (Spec d) (Spec app)) | None => false end.

Definition revisions_changed (s : ApplicationSetApplicationStatus) (app : App) : bool :=
  negb (bool_decide (TargetRevisions s = Some (GetRevisions app))).

Definition is_synced (app : App) : bool := String.eqb (SyncStatus app) SyncStatusCodeSynced.
Definition is_healthy (app : App) : bool := bool_decide (HealthCode app = HealthStatusHealthy).

(** The status after a change of revisions or specification has been noticed *)
Definition notice_changes (now : Z) (desired : gmap string App) (app : App)
    (current new : ApplicationSetApplicationStatus) : ApplicationSetApplicationStatus :=
  let revisionsChanged := revisions_changed current app in
  let specChanged := spec_changed desired app in
  if revisionsChanged || specChanged then
    let msg := if revisionsChanged && specChanged then revisionAndSpecChangedMsg
               else if revisionsChanged then revisionChangedMsg else specChangedMsg in
    move now ProgressiveSyncWaiting msg (with_revisions (GetRevisions app) new)
  else new.

Definition leave_waiting (now : Z) (app : App) (new : ApplicationSetApplicationStatus)
    : ApplicationSetApplicationStatus :=
  if is_synced app then
    if is_healthy app then
      move now ProgressiveSyncHealthy "Application resource has synced, updating status to Healthy" new
    else move now ProgressiveSyncProgressing "Application resource has synced, updating status to Progressing" new
  else new.

Definition error_progress (now : Z) (app : App) (new : ApplicationSetApplicationStatus)
    : ApplicationSetApplicationStatus :=
  if isApplicationWithError app then
    move now ProgressiveSyncProgressing
      "Application resource has error and cannot sync, updating status to Progressing" new
  else new.

Definition progress_message (phase : OperationPhase) : string :=
  if Successful phase then
    "Application resource completed a sync successfully, updating status from Pending to Progressing"
  else if Completed phase then
    "Application resource completed a sync, updating status from Pending to Progressing"
  else "Application resource became Progressing, updating status from Pending to Progressing".

(** The application has been reconciled since the last transition. *)
Definition evaluated_since (app : App) (new : ApplicationSetApplicationStatus) : bool :=
  match ReconciledAt app, LastTransitionTime new with
  | None, _ => true
  | Some r, Some t => time_Before t r
  | Some _, None => false
  end.

(** A Pending application moves on when a sync started after it became Pending,
    or cannot start; the time of the transition is read through a pointer. *)
Definition leave_pending (now : Z) (app : App) (current new : ApplicationSetApplicationStatus)
    : outcome ApplicationSetApplicationStatus :=
  if evaluated_since app new then
    match AppOperationState app with
    | Some (phase, startedAt) =>
        t ← or_panic (LastTransitionTime current);
        mret (if time_Before t startedAt then move now ProgressiveSyncProgressing (progress_message phase) new
              else error_progress now app new)
    | None => mret (error_progress now app new)
    end
  else mret new.

Definition leave_progressing (now : Z) (app : App) (new : ApplicationSetApplicationStatus)
    : ApplicationSetApplicationStatus :=
  if is_healthy app && is_synced app then
    move now ProgressiveSyncHealthy
      "Application resource became Healthy, updating status from Progressing to Healthy" new
  else new.

(** The body of the loop of [UpdateApplicationSetApplicationStatus] *)
Definition next_status (l : list ApplicationSetApplicationStatus) (now : Z) (m : gmap string nat)
    (desired : gmap string App) (app : App) : outcome ApplicationSetApplicationStatus :=
  let current := current_status l now m app in
  let new := with_step (pretty (getAppStep (Application current) m)) current in
  let new := notice_changes now desired app current new in
  if bool_decide (StatusCode new = ProgressiveSyncWaiting) then mret (leave_waiting now app new)
  else
    new ← (if bool_decide (StatusCode current = ProgressiveSyncPending)
           then leave_pending now app current new else mret new);
    mret (if bool_decide (StatusCode current = ProgressiveSyncProgressing)
          then leave_progressing now app new else new).

Definition UpdateApplicationSetApplicationStatus (call : nat) (now : Z) (a : ApplicationSet)
    (applications desired : list App) (m : gmap string nat) : outcome ApplicationSet :=
  statuses ← mapM (next_status (ApplicationStatus a) now m (desiredAppsMap desired)) applications;
  SetAppSetApplicationStatus call a statuses.

(** ** Promotion to Pending *)

(** [appStepMap[name]]: the zero value for a name that is not in the map *)
Definition step_index (m : gmap string nat) (name : string) : nat := default 0%nat (m !! name).

Definition updating (s : ApplicationSetApplicationStatus) : bool :=
  bool_decide (StatusCode s = ProgressiveSyncPending) || bool_decide (StatusCode s = ProgressiveSyncProgressing).

(** [counts[i]++] *)
Definition increment (l : list Z) (i : nat) : outcome (list Z) :=
  _ ← or_panic (l !! i); mret (alter (λ n, n + 1) i l).

(** The counts of all and of the updating applications of each step *)
Fixpoint count_statuses (m : gmap string nat) (l : list ApplicationSetApplicationStatus)
    (totalCount updateCount : list Z) : outcome (list Z * list Z) :=
  match l with
  | [] => mret (totalCount, updateCount)
  | s :: r =>
      let k := step_index m (Application s) in
      totalCount ← increment totalCount k;
      updateCount ← (if updating s then increment updateCount k else mret updateCount);
      count_statuses m r totalCount updateCount
  end.

(** The number of applications of a step that may update at once *)
Definition max_update_value (mu : IntOrString) (total : Z) : Z :=
  let v := (GetScaledValueFromIntOrPercent mu total).1 in
  match mu with
  | StrVal s => if negb (String.eqb s "0%") && (v <? 1) then 1 else v
  | IntVal _ => v
  end.

Definition note_invalid (k : nat) (mu : IntOrString) (total : Z) (issues : ValidationIssues) : ValidationIssues :=
  match (GetScaledValueFromIntOrPercent mu total).2 with
  | Some err => add_invalid_max_update k mu err issues
  | None => issues
  end.

(** The body of the second loop: the status and the new counts and issues *)
Definition promote (now : Z) (appsToSync : gset string) (m : gmap string nat)
    (steps : list ApplicationSetRolloutStep) (totalCount : list Z) (s : ApplicationSetApplicationStatus)
    (updateCount : list Z) (issues : ValidationIssues)
    : outcome (ApplicationSetApplicationStatus * list Z * ValidationIssues) :=
  let k := step_index m (Application s) in
  step ← or_panic (steps !! k);
  '(allowed, issues) ←
    match MaxUpdate step with
    | None => mret (true, issues)
    | Some mu =>
        total ← or_panic (totalCount !! k);
        count ← or_panic (updateCount !! k);
        mret (negb (max_update_value mu total <=? count), note_invalid k mu total issues)
    end;
  if bool_decide (StatusCode s = ProgressiveSyncWaiting) && bool_decide (Application s ∈ appsToSync) && allowed
  then
    updateCount ← increment updateCount k;
    mret (move now ProgressiveSyncPending
            "Application moved to Pending status, watching for the Application resource to start Progressing" s,
          updateCount, issues)
  else mret (s, updateCount, issues).

Fixpoint promote_all (now : Z) (appsToSync : gset string) (m : gmap string nat)
    (steps : list ApplicationSetRolloutStep) (totalCount : list Z) (l : list ApplicationSetApplicationStatus)
    (updateCount : list Z) (issues : ValidationIssues)
    : outcome (list ApplicationSetApplicationStatus * ValidationIssues) :=
  match l with
  | [] => mret ([], issues)
  | s :: r =>
      '(s, updateCount, issues) ← promote now appsToSync m steps totalCount s updateCount issues;
      '(l, issues) ← promote_all now appsToSync m steps totalCount r updateCount issues;
      mret (s :: l, issues)
  end.

Definition UpdateApplicationSetApplicationStatusProgress (call : nat) (now : Z) (a : ApplicationSet)
    (appsToSync : gset string) (m : gmap string nat) (issues : ValidationIssues)
    : outcome (ApplicationSet * ValidationIssues) :=
  '(statuses, issues) ←
    (if RollingSyncStrategyEnabled a then
       let zeros := replicate (length (steps_of a)) 0 in
       '(totalCount, updateCount) ← count_statuses m (ApplicationStatus a) zeros zeros;
       promote_all now appsToSync m (steps_of a) totalCount (ApplicationStatus a) updateCount issues
     else mret ([], issues));
  a ← SetAppSetApplicationStatus call a statuses;
  mret (a, issues).

(** ** Conditions *)
Definition completedWaves (l : list ApplicationSetApplicationStatus) : gmap string bool :=
  foldl (λ m s,
    let healthy := bool_decide (StatusCode s = ProgressiveSyncHealthy) in
    match m !! StatusStep s with
    | None => <[StatusStep s := healthy]> m
    | Some v => <[StatusStep s := v && healthy]> m
    end) ∅ l.

(** The first step that has applications and is not completed *)
Fixpoint progressing_step (m : gmap string bool) (i : nat) (steps : list ApplicationSetRolloutStep)
    : option string :=
  match steps with
  | [] => None
  | _ :: r =>
      let step := pretty (i + 1)%nat in
      match m !! step with
      | Some false => Some step
      | _ => progressing_step m (S i) r
      end
  end.

Definition getProgressingCondition (a : ApplicationSet) : option ApplicationSetCondition :=
  if IsRollingSyncStrategy a then
    Some
      match progressing_step (completedWaves (ApplicationStatus a)) 0 (steps_of a) with
      | Some step =>
          {| ConditionType := "RolloutProgressing"; ConditionStatus := "True";
             ConditionMessage := "ApplicationSet is performing rollout of step " +:+ step;
             ConditionReason := "ApplicationSetModified" |}
      | None =>
          {| ConditionType := "RolloutProgressing"; ConditionStatus := "False";
             ConditionMessage := "ApplicationSet Rollout has completed";
             ConditionReason := "ApplicationSetRolloutComplete" |}
      end
  else None.

Definition getInvalidRolloutConfig (a : ApplicationSet) (issues : ValidationIssues)
    : option ApplicationSetCondition :=
  if IsRollingSyncStrategy a then
    Some
      (if HasIssues issues then
         {| ConditionType := "InvalidRolloutConfig"; ConditionStatus := "True";
            ConditionReason := "ApplicationSetInvalidRolloutConfig"; ConditionMessage := getConditionMessage issues |}
       else
         {| ConditionType := "InvalidRolloutConfig"; ConditionStatus := "False";
            ConditionReason := "ApplicationSetValidRolloutConfig"; ConditionMessage := "Rolling Sync Configured correctly" |})
  else None.

(** ** One pass

    The application set is passed by value: the caller keeps its old statuses.
    The result has the applications that may sync, the application set of the
    manager and the conditions it reports. *)
Definition PerformProgressiveSyncs (now1 now2 : Z) (a : ApplicationSet) (applications desired : list App)
    : outcome (gset string * ApplicationSet * list ApplicationSetCondition) :=
  let b := buildAppDependencyList a desired in
  a ← UpdateApplicationSetApplicationStatus 0 now1 a applications desired (appStepMap b);
  let appsToSync := getAppsToSync a (appDependencyList b) applications in
  '(a, issues) ← UpdateApplicationSetApplicationStatusProgress 1 now2 a appsToSync (appStepMap b) (build_issues b);
  mret (appsToSync, a, omap id [getInvalidRolloutConfig a issues; getProgressingCondition a]).

(** ** Triggering syncs *)
Definition IsAutomatedSyncEnabled (p : SyncPolicy) : bool :=
  match AutomatedPolicy p with Some au => default true (Enabled au) | None => false end.
Definition GetPrune (au : option SyncPolicyAutomated) : bool := default false (au ≫= Prune).

Definition syncApplication (app : App) (prune : bool) : App :=
  let policy := SpecSyncPolicy (Spec app) in
  {| Name := Name app; Labels := Labels app; Spec := Spec app; SyncStatus := SyncStatus app;
     SyncRevision := SyncRevision app; SyncRevisions := SyncRevisions app; HealthCode := HealthCode app;
     ReconciledAt := ReconciledAt app; AppOperationState := AppOperationState app;
     AppConditions := AppConditions app;
     AppOperation := Some
       {| InitiatedByUsername := "applicationset-controller"; InitiatedAutomated := true;
          Info := [("Reason", "ApplicationSet RollingSync triggered a sync of this Application resource")];
          SyncPrune := if policy is Some _ then prune else false;
          SyncSyncOptions := policy ≫= SyncOptions;
          OperationRetry := default {| Limit := 5; RetryFields := "" |} (policy ≫= Retry) |} |}.

(** The automated sync of the application itself is switched off. *)
Definition disable_automated (app : App) : App :=
  let spec :=
    {| SpecSyncPolicy :=
         (λ p, {| AutomatedPolicy := (λ au, {| Prune := Prune au; Enabled := Some false |}) <$> AutomatedPolicy p;
                  SyncOptions := SyncOptions p; Retry := Retry p |}) <$> SpecSyncPolicy (Spec app);
       SpecFields := SpecFields (Spec app) |} in
  {| Name := Name app; Labels := Labels app; Spec := spec; SyncStatus := SyncStatus app;
     SyncRevision := SyncRevision app; SyncRevisions := SyncRevisions app; HealthCode := HealthCode app;
     ReconciledAt := ReconciledAt app; AppOperationState := AppOperationState app;
     AppConditions := AppConditions app; AppOperation := AppOperation app |}.

Definition sync_desired (a : ApplicationSet) (appsToSync : gset string) (app : App) : App :=
  let '(pruneEnabled, app) :=
    match SpecSyncPolicy (Spec app) with
    | Some p => if IsAutomatedSyncEnabled p then (GetPrune (AutomatedPolicy p), disable_automated app) else (false, app)
    | None => (false, app)
    end in
  if bool_decide (Name app ∈ appsToSync) && has_status (ApplicationStatus a) (Name app) ProgressiveSyncPending
  then syncApplication app pruneEnabled else app.

Definition SyncDesiredApplications (a : ApplicationSet) (appsToSync : gset string) (desired : list App) : list App :=
  sync_desired a appsToSync <$> desired.

(** ** Deletion in reverse order

    What the API server answers about an application: whether it is there, with
    the time of its deletion, and to its deletion *)
Inductive get_answer := GotApp (deletionTimestamp : option Z) | GetNotFound | GetError.
Inductive delete_answer := Deleted | DeleteNotFound | DeleteError.

Record deleteInOrder := { DeleteAppName : string; DeleteStep : Z }.

(** The loop: the applications whose deletion is requested in this call, and the time to the next one
    (0 when all are gone); [None] is an error. *)
Fixpoint delete_loop (get : string → get_answer) (del : string → delete_answer) (now : Z)
    (l : list deleteInOrder) : option Z * list string :=
  match l with
  | [] => (Some 0, [])
  | s :: r =>
      match get (DeleteAppName s) with
      | GetNotFound => delete_loop get del now r
      | GetError => (None, [])
      | GotApp ts =>
          if match ts with Some t => 2 * Minute <? now - t | None => false end then (None, [])
          else
            match del (DeleteAppName s) with
            | DeleteNotFound =>
                let '(res, names) := delete_loop get del now r in (res, DeleteAppName s :: names)
            | DeleteError => (None, [DeleteAppName s])
            | Deleted => (Some (10 * Second), [DeleteAppName s])
            end
      end
  end.

Definition deletion_order (a : ApplicationSet) (currentApps : list App) : list deleteInOrder :=
  let stepLength := Z.of_nat (length (steps_of a)) in
  let steps := go_range (appStepMap (buildAppDependencyList a currentApps)) in
  go_sort (λ x y, DeleteStep x <? DeleteStep y)
    ((λ '(n, s), {| DeleteAppName := n; DeleteStep := stepLength - Z.of_nat s - 1 |}) <$> steps).

Definition PerformReverseDeletion (get : string → get_answer) (del : string → delete_answer) (now : Z)
    (a : ApplicationSet) (currentApps : list App) : option Z * list string :=
  delete_loop get del now (deletion_order a currentApps).
End manager.

(** ** The controller's implementation of the interface *)

(** Answers of the API server to one call: the attempt that decides it gets the
    application set as it is stored (its strategy may have been edited), or
    fails.  A failure to read it that is not its absence is swallowed. *)
Inductive status_answer :=
  | Stored (strategy : option ApplicationSetStrategy)
  | ReadError
  | SetGone
  | UpdateError.

(** Times are stored with whole seconds. *)
Definition stored_status (s : ApplicationSetApplicationStatus) : ApplicationSetApplicationStatus :=
  {| Application := Application s; LastTransitionTime := (λ t, t - t mod Second) <$> LastTransitionTime s;
     StatusMessage := StatusMessage s; StatusCode := StatusCode s; StatusStep := StatusStep s;
     TargetRevisions := TargetRevisions s |}.

Definition status_differs (l : list ApplicationSetApplicationStatus) (s : ApplicationSetApplicationStatus) : bool :=
  match status_of l (Application s) with
  | None => true
  | Some c =>
      negb (bool_decide (StatusCode c = StatusCode s)) || negb (String.eqb (StatusStep c) (StatusStep s)) ||
      negb (String.eqb (StatusMessage c) (StatusMessage s))
  end.

Section controller.
Context `{RT : GoRuntime}.

Definition needToUpdateStatus (a : ApplicationSet) (l : list ApplicationSetApplicationStatus) : bool :=
  if negb (Nat.eqb (length l) (length (ApplicationStatus a))) then true
  else existsb (status_differs (ApplicationStatus a)) l.

Definition setAppSetApplicationStatus (answer : status_answer) (a : ApplicationSet)
    (l : list ApplicationSetApplicationStatus) : outcome ApplicationSet :=
  if needToUpdateStatus a l then
    let sorted := go_sort (λ x y, string_lt (Application x) (Application y)) l in
    match answer with
    | Stored strategy => Returns {| Strategy := strategy; ApplicationStatus := stored_status <$> sorted |}
    | ReadError => Returns {| Strategy := Strategy a; ApplicationStatus := sorted |}
    | SetGone | UpdateError => Fails
    end
  else Returns a.

(** The manager's calls to an API server that gives these answers *)
Definition controller (answers : nat → status_answer) : Dependencies :=
  {| SetAppSetApplicationStatus n := setAppSetApplicationStatus (answers n) |}.
End controller.
