(* ===== verification/RolloutProofs.v ===== *)
(** * Progressive sync: theorems

    The controller's storage of statuses satisfies the interface of the manager;
    rollouts respect the order of their steps and the limits on concurrent
    updates, make progress, and a status Healthy records that the application was
    synced and healthy at its target revisions; deletion in reverse order. *)

From S2P Require Import Prelude GoStd GoTime Kube SyncCommon Health Rollout RolloutStatus.
Local Open Scope string_scope.
Local Open Scope list_scope.
Local Open Scope Z_scope.

(** ** Statuses by name *)
Lemma status_of_Some l n s :
  status_of l n = Some s → s ∈ l ∧ Application s = n.
Proof.
  unfold status_of, FindApplicationStatusIndex. destruct (list_find _ l) as [[i t]|] eqn:Hf; [|done].
  apply list_find_Some in Hf as (Hi & Ht & _). simpl. rewrite Hi. intros [= <-].
  split; [by eapply list_elem_of_lookup_2|done].
Qed.

Lemma status_of_None l n : status_of l n = None → n ∉ Application <$> l.
Proof.
  unfold status_of, FindApplicationStatusIndex. destruct (list_find _ l) as [[i t]|] eqn:Hf.
  - apply list_find_Some in Hf as (Hi & _). simpl. by rewrite Hi.
  - intros _ (s & -> & Hs)%list_elem_of_fmap. apply list_find_None in Hf.
    rewrite Forall_forall in Hf. by apply (Hf s Hs).
Qed.

Lemma status_of_elem l s :
  NoDup (Application <$> l) → s ∈ l → status_of l (Application s) = Some s.
Proof.
  intros Hnd Hs. destruct (status_of l (Application s)) as [t|] eqn:Ht.
  - apply status_of_Some in Ht as [Hin Heq]. f_equal.
    apply list_elem_of_lookup in Hs as [i Hi], Hin as [j Hj].
    assert (j = i) as ->; [|congruence]. eapply NoDup_lookup; [done|..];
      rewrite list_lookup_fmap; [by rewrite Hj|by rewrite Hi, Heq].
  - apply status_of_None in Ht. destruct Ht. by apply list_elem_of_fmap_2.
Qed.

Lemma has_status_elem l n c :
  NoDup (Application <$> l) →
  has_status l n c = true ↔ ∃ s, s ∈ l ∧ Application s = n ∧ StatusCode s = c.
Proof.
  intros Hnd. unfold has_status. split.
  - destruct (status_of l n) as [s|] eqn:Hs; [|done]. apply status_of_Some in Hs as [??].
    intros ?%bool_decide_eq_true. eauto.
  - intros (s & Hs & <- & <-). rewrite status_of_elem by done. by apply bool_decide_eq_true.
Qed.

(** Lists with the same views name the same applications, with the same codes. *)
Lemma views_names l k : view <$> l ≡ₚ view <$> k → Application <$> l ≡ₚ Application <$> k.
Proof.
  intros Hp. apply (fmap_Permutation (λ v : string * ProgressiveSyncStatusCode * string * string, v.1.1.1)) in Hp.
  by rewrite <-!list_fmap_compose in Hp.
Qed.

Lemma views_elem l k s :
  view <$> l ≡ₚ view <$> k → s ∈ l → ∃ t, t ∈ k ∧ view t = view s.
Proof.
  intros Hp Hs. assert (view s ∈ view <$> k) as (t & ? & ?)%list_elem_of_fmap; [|eauto].
  rewrite <-Hp. by apply list_elem_of_fmap_2.
Qed.

Lemma views_has_status l k n c :
  NoDup (Application <$> k) → view <$> l ≡ₚ view <$> k → has_status l n c = has_status k n c.
Proof.
  intros Hnd Hp. assert (NoDup (Application <$> l)) as Hnd' by by rewrite (views_names l k).
  apply eq_iff_eq_true. rewrite !has_status_elem by done.
  split; intros (s & Hs & Hn & Hc).
  - destruct (views_elem l k s Hp Hs) as (t & Ht & [= ? ? ? ?]). exists t. split_and!; congruence.
  - destruct (views_elem k l s (symmetry Hp) Hs) as (t & Ht & [= ? ? ? ?]). exists t. split_and!; congruence.
Qed.

(** ** The controller satisfies the interface *)
Lemma status_differs_false l s :
  status_differs l s = false → ∃ c, c ∈ l ∧ view c = view s.
Proof.
  unfold status_differs. destruct (status_of l _) as [c|] eqn:Hc; [|done].
  apply status_of_Some in Hc as [Hin Hn]. intros H.
  apply orb_false_elim in H as [H H3]. apply orb_false_elim in H as [H1 H2].
  apply negb_false_iff in H1, H2, H3. apply bool_decide_eq_true in H1. apply String.eqb_eq in H2, H3.
  exists c. split; [done|]. unfold view. congruence.
Qed.

Lemma unchanged_views a l :
  needToUpdateStatus a l = false → NoDup (Application <$> l) → view <$> ApplicationStatus a ≡ₚ view <$> l.
Proof.
  unfold needToUpdateStatus. destruct (Nat.eqb_spec (length l) (length (ApplicationStatus a))) as [Hlen|]; [|done].
  simpl. intros Hex Hnd. symmetry. apply submseteq_length_Permutation.
  - apply NoDup_submseteq.
    + apply (NoDup_fmap_1 (λ v : string * ProgressiveSyncStatusCode * string * string, v.1.1.1)).
      by rewrite <-list_fmap_compose.
    + intros v (s & -> & Hs)%list_elem_of_fmap.
      assert (status_differs (ApplicationStatus a) s = false) as (c & Hc & <-)%status_differs_false.
      { destruct (status_differs _ s) eqn:E; [|done]. exfalso. revert Hex. apply not_false_iff_true.
        apply existsb_exists. exists s. by rewrite <-list_elem_of_In. }
      by apply list_elem_of_fmap_2.
  - rewrite !length_fmap. lia.
Qed.

Lemma stored_view s : view (stored_status s) = view s.
Proof. done. Qed.

Lemma stored_record s : same_record (stored_status s) s.
Proof. split_and!; [done..|]. simpl. destruct (LastTransitionTime s); simpl; [by split|done]. Qed.

Lemma same_record_refl s : same_record s s.
Proof. by split_and!. Qed.

#[export] Instance controller_laws `{RT : GoRuntime} answers : DependenciesLaws (controller answers).
Proof.
  split.
  - intros n a l a'. simpl. unfold setAppSetApplicationStatus.
    destruct (needToUpdateStatus a l) eqn:E; [|intros [= <-]; by apply unchanged_views].
    destruct (answers n); intros [= <-] _; simpl; [rewrite <-list_fmap_compose|];
      apply fmap_Permutation, go_sort_perm.
  - intros n a l a' s. simpl. unfold setAppSetApplicationStatus.
    destruct (needToUpdateStatus a l).
    + destruct (answers n); intros [= <-]; simpl.
      * intros (t & -> & Ht)%list_elem_of_fmap. rewrite go_sort_perm in Ht. exists t.
        split; [apply elem_of_app; by left|apply stored_record].
      * rewrite go_sort_perm. intros Hs. exists s. split; [apply elem_of_app; by left|apply same_record_refl].
    + intros [= <-] Hs. exists s. split; [apply elem_of_app; by right|apply same_record_refl].
  - intros n a l. simpl. unfold setAppSetApplicationStatus.
    destruct (needToUpdateStatus a l); [|done]. by destruct (answers n).
Qed.

(** ** Loops with outcomes *)
Lemma mapM_Returns {A B} (f : A → outcome B) l k :
  mapM f l = Returns k → Forall2 (λ x y, f x = Returns y) l k.
Proof.
  revert k. induction l as [|x l IH]; intros k; simpl.
  - intros [= <-]. constructor.
  - intros (y & Hy & (k' & Hk & [= <-])%outcome_bind_Returns)%outcome_bind_Returns.
    constructor; auto.
Qed.

Lemma mapM_no_panic {A B} (f : A → outcome B) l :
  (∀ x, x ∈ l → ∃ y, f x = Returns y) → ∃ k, mapM f l = Returns k.
Proof.
  induction l as [|x l IH]; intros H; simpl; [by eexists|].
  destruct (H x) as [y ->]; [by left|]. destruct IH as [k ->]; [|by eexists].
  intros z Hz. apply H. by right.
Qed.

(** ** One application *)
Section application.
Context (cmp_Equal : ApplicationSpec → ApplicationSpec → bool).

Lemma current_status_name l now m app : Application (current_status l now m app) = Name app.
Proof.
  unfold current_status. destruct (status_of l (Name app)) eqn:E; [|done]. by apply status_of_Some in E as [_ ?].
Qed.

Lemma notice_changes_name now desired app c new :
  Application (notice_changes cmp_Equal now desired app c new) = Application new.
Proof. unfold notice_changes. by destruct (_ || _). Qed.

Lemma leave_waiting_name now app new : Application (leave_waiting now app new) = Application new.
Proof. unfold leave_waiting. by destruct (is_synced app), (is_healthy app). Qed.

Lemma error_progress_name now app new : Application (error_progress now app new) = Application new.
Proof. unfold error_progress. by destruct (isApplicationWithError app). Qed.

Lemma leave_progressing_name now app new : Application (leave_progressing now app new) = Application new.
Proof. unfold leave_progressing. by destruct (is_healthy app), (is_synced app). Qed.

Lemma leave_pending_cases now app c new s :
  leave_pending now app c new = Returns s →
  s = new ∨ ∃ msg, s = move now ProgressiveSyncProgressing msg new.
Proof.
  assert (∀ s, Returns (error_progress now app new) = Returns s →
            s = new ∨ ∃ msg, s = move now ProgressiveSyncProgressing msg new) as Herr.
  { intros s' [= <-]. unfold error_progress. destruct (isApplicationWithError app); eauto. }
  unfold leave_pending. destruct (evaluated_since app new); [|intros [= <-]; by left].
  destruct (AppOperationState app) as [[phase started]|]; [|apply Herr].
  intros (t & _ & Ht)%outcome_bind_Returns. destruct (time_Before t started); [|by apply Herr].
  injection Ht as <-. eauto.
Qed.

Lemma next_status_name l now m desired app s :
  next_status cmp_Equal l now m desired app = Returns s → Application s = Name app.
Proof.
  unfold next_status. set (c := current_status l now m app).
  set (n := notice_changes _ _ _ _ _ _).
  assert (Application n = Name app) as Hn by (unfold n; rewrite notice_changes_name; apply current_status_name).
  destruct (bool_decide (StatusCode n = _)).
  - intros [= <-]. by rewrite leave_waiting_name.
  - intros (s' & Hs' & [= <-])%outcome_bind_Returns.
    assert (Application s' = Name app).
    { destruct (bool_decide _); [|by injection Hs' as <-].
      by apply leave_pending_cases in Hs' as [->|[msg ->]]. }
    destruct (bool_decide (StatusCode c = ProgressiveSyncProgressing)); [by rewrite leave_progressing_name|done].
Qed.

(** A status that becomes Healthy records the revisions at which the application
    is synced and healthy now; a status that stays Healthy keeps them. *)
Lemma next_status_healthy l now m desired app s :
  next_status cmp_Equal l now m desired app = Returns s → StatusCode s = ProgressiveSyncHealthy →
  TargetRevisions s = Some (GetRevisions app) ∧
  (is_synced app = true ∧ is_healthy app = true ∨
   StatusCode (current_status l now m app) = ProgressiveSyncHealthy ∧
   TargetRevisions (current_status l now m app) = Some (GetRevisions app)).
Proof.
  unfold next_status. set (c := current_status l now m app). set (n := notice_changes _ _ _ _ _ _).
  assert (TargetRevisions n = Some (GetRevisions app)) as Hrev.
  { unfold n, notice_changes, revisions_changed.
    destruct (bool_decide_reflect (TargetRevisions c = Some (GetRevisions app))); simpl; [|done].
    by destruct (spec_changed _ _ _). }
  destruct (bool_decide_reflect (StatusCode n = ProgressiveSyncWaiting)) as [Hw|Hw].
  - intros [= <-]. unfold leave_waiting. destruct (is_synced app); [|rewrite Hw; done].
    destruct (is_healthy app); simpl; [auto|done].
  - assert (n = with_step (pretty (getAppStep (Application c) m)) c ∧
            TargetRevisions c = Some (GetRevisions app)) as [Hn Hc].
    { revert Hw. unfold n, notice_changes, revisions_changed.
      destruct (bool_decide_reflect (TargetRevisions c = Some (GetRevisions app))); simpl; [|done].
      by destruct (spec_changed _ _ _). }
    intros (s' & Hs' & [= <-])%outcome_bind_Returns.
    assert (TargetRevisions s' = TargetRevisions n ∧
            (StatusCode s' = ProgressiveSyncHealthy → StatusCode c = ProgressiveSyncHealthy)) as [Hr Hh].
    { destruct (bool_decide_reflect (StatusCode c = ProgressiveSyncPending)).
      - apply leave_pending_cases in Hs' as [->|[msg ->]]; [|done]. by rewrite Hn.
      - injection Hs' as <-. by rewrite Hn. }
    destruct (bool_decide_reflect (StatusCode c = ProgressiveSyncProgressing)) as [Hp|Hp].
    + unfold leave_progressing. destruct (is_healthy app) eqn:E1, (is_synced app) eqn:E2; simpl;
        intros Hcode; (split; [congruence|]); try (by left); right; auto.
    + intros Hcode. split; [congruence|]. right. auto.
Qed.

(** The only panic is a nil transition time of a Pending application. *)
Lemma next_status_returns l now m desired app :
  (∀ s, s ∈ l → StatusCode s = ProgressiveSyncPending → LastTransitionTime s ≠ None) →
  ∃ s, next_status cmp_Equal l now m desired app = Returns s.
Proof.
  intros Ht. unfold next_status. set (c := current_status l now m app). set (n := notice_changes _ _ _ _ _ _).
  destruct (bool_decide (StatusCode n = _)); [by eexists|].
  destruct (bool_decide_reflect (StatusCode c = ProgressiveSyncPending)) as [Hp|Hp]; [|by eexists].
  assert (LastTransitionTime c ≠ None) as Hc.
  { unfold c, current_status in *. destruct (status_of l (Name app)) as [s|] eqn:Hs; [|done].
    apply status_of_Some in Hs as [Hs _]. by apply Ht. }
  assert (∃ s, leave_pending now app c n = Returns s) as [s ->]; [|by eexists].
  unfold leave_pending. destruct (evaluated_since app n); [|by eexists].
  destruct (AppOperationState app) as [[phase started]|]; [|by eexists].
  destruct (LastTransitionTime c); [by eexists|done].
Qed.
End application.

(** ** Promotion *)
Section promotion.
Context `{I : IntStr}.

(** What promotion may do to a status *)
Definition promoted (toSync : gset string) (s s' : ApplicationSetApplicationStatus) : Prop :=
  s' = s ∨
  StatusCode s = ProgressiveSyncWaiting ∧ Application s ∈ toSync ∧
    Application s' = Application s ∧ StatusCode s' = ProgressiveSyncPending ∧ StatusStep s' = StatusStep s ∧
    TargetRevisions s' = TargetRevisions s ∧ LastTransitionTime s' ≠ None.

(** Whether the limit of a step lets one more application update *)
Definition room (step : ApplicationSetRolloutStep) (total count : Z) : bool :=
  match MaxUpdate step with
  | None => true
  | Some mu => negb (max_update_value mu total <=? count)
  end.

Lemma increment_Returns l k l' :
  increment l k = Returns l' → ∃ c, l !! k = Some c ∧ l' = alter (λ n, n + 1) k l.
Proof. unfold increment. intros (c & Hc%or_panic_Returns & [= <-])%outcome_bind_Returns. eauto. Qed.

Lemma promote_spec now toSync m steps total s upd issues s' upd' issues' step t c :
  let k := step_index m (Application s) in
  steps !! k = Some step → total !! k = Some t → upd !! k = Some c →
  promote now toSync m steps total s upd issues = Returns (s', upd', issues') →
  if bool_decide (StatusCode s = ProgressiveSyncWaiting) && bool_decide (Application s ∈ toSync) && room step t c
  then promoted toSync s s' ∧ StatusCode s' = ProgressiveSyncPending ∧ upd' = alter (λ n, n + 1) k upd
  else s' = s ∧ upd' = upd.
Proof.
  intros k Hstep Ht Hc. unfold promote. fold k. rewrite Hstep. cbn [or_panic mbind outcome_bind].
  intros ([allowed issues0] & Hal & H)%outcome_bind_Returns.
  assert (allowed = room step t c) as ->.
  { unfold room. destruct (MaxUpdate step) as [mu|]; [|by injection Hal as <- _].
    rewrite Ht, Hc in Hal. by injection Hal as <- _. }
  destruct (bool_decide_reflect (StatusCode s = ProgressiveSyncWaiting)) as [Hw|Hw]; simpl in *;
    [|by injection H as <- <- _].
  destruct (bool_decide_reflect (Application s ∈ toSync)) as [Hin|Hin]; simpl in *; [|by injection H as <- <- _].
  destruct (room step t c); simpl in *; [|by injection H as <- <- _].
  apply outcome_bind_Returns in H as (u & (c' & _ & ->)%increment_Returns & H). injection H as <- <- _.
  split_and!; [|done..]. right. by split_and!.
Qed.

(** The number of updating applications of step [k] *)
Definition updating_in (m : gmap string nat) (k : nat) (l : list ApplicationSetApplicationStatus) : Z :=
  Z.of_nat (length (filter (λ s, updating s = true ∧ step_index m (Application s) = k) l)).
Definition total_in (m : gmap string nat) (k : nat) (l : list ApplicationSetApplicationStatus) : Z :=
  Z.of_nat (length (filter (λ s, step_index m (Application s) = k) l)).

Lemma updating_in_cons m k s l :
  updating_in m k (s :: l) =
    (if updating s && Nat.eqb (step_index m (Application s)) k then 1 else 0) + updating_in m k l.
Proof.
  unfold updating_in. rewrite filter_cons.
  destruct (updating s) eqn:E, (Nat.eqb_spec (step_index m (Application s)) k); cbn [andb];
    first [rewrite decide_True by done; cbn [length]; lia|rewrite decide_False by naive_solver; lia].
Qed.

Lemma total_in_cons m k s l :
  total_in m k (s :: l) = (if Nat.eqb (step_index m (Application s)) k then 1 else 0) + total_in m k l.
Proof.
  unfold total_in. rewrite filter_cons.
  destruct (Nat.eqb_spec (step_index m (Application s)) k); simpl;
    [rewrite decide_True by done; simpl; lia|rewrite decide_False by done; lia].
Qed.

(** Every index of the statuses is a step. *)
Definition in_range (m : gmap string nat) (n : nat) (l : list ApplicationSetApplicationStatus) : Prop :=
  ∀ s, s ∈ l → (step_index m (Application s) < n)%nat.

Lemma in_range_cons m n s l :
  in_range m n (s :: l) ↔ (step_index m (Application s) < n)%nat ∧ in_range m n l.
Proof.
  unfold in_range. split.
  - intros H. split; [apply H; by left|]. intros t Ht. apply H. by right.
  - intros [Hs H] t [->|Ht]%elem_of_cons; auto.
Qed.

Lemma increment_in_range l k : (k < length l)%nat → increment l k = Returns (alter (λ n, n + 1) k l).
Proof. intros [c Hc]%lookup_lt_is_Some. unfold increment. by rewrite Hc. Qed.

Lemma alter_count (l : list Z) i k c :
  l !! k = Some c → alter (λ n, n + 1) i l !! k = Some ((if Nat.eqb i k then 1 else 0) + c).
Proof.
  intros Hk. destruct (Nat.eqb_spec i k) as [->|].
  - rewrite list_lookup_alter_eq, Hk. simpl. f_equal. lia.
  - by rewrite list_lookup_alter_ne.
Qed.

(** The counts are those of the statuses. *)
Lemma count_statuses_spec m n l total upd :
  in_range m n l → length total = n → length upd = n →
  ∃ total' upd', count_statuses m l total upd = Returns (total', upd') ∧
    length total' = n ∧ length upd' = n ∧
    (∀ k t u, total !! k = Some t → upd !! k = Some u →
       total' !! k = Some (t + total_in m k l) ∧ upd' !! k = Some (u + updating_in m k l)).
Proof.
  revert total upd. induction l as [|s l IH]; intros total upd Hr Ht Hu; cbn [count_statuses].
  - exists total, upd. split_and!; [done..|]. intros k t u -> ->. unfold total_in, updating_in. simpl.
    by rewrite !Z.add_0_r.
  - apply in_range_cons in Hr as [Hs Hr]. rewrite (increment_in_range total) by lia. cbn [mbind outcome_bind].
    set (i := step_index m (Application s)) in *.
    assert ((if updating s then increment upd i else mret upd) =
            Returns (if updating s then alter (λ n, n + 1) i upd else upd)) as ->.
    { destruct (updating s); [|done]. apply increment_in_range. lia. }
    cbn [mbind outcome_bind]. destruct (IH (alter (λ n, n + 1) i total) (if updating s then alter (λ n, n + 1) i upd else upd))
      as (total' & upd' & Hc & Hlt & Hlu & Hk); [done|by rewrite length_alter|
      by destruct (updating s); [rewrite length_alter|]|].
    exists total', upd'. split_and!; [done..|]. intros k t u Ht0 Hu0.
    rewrite total_in_cons, updating_in_cons. fold i.
    assert ((if updating s then alter (λ n, n + 1) i upd else upd) !! k =
            Some ((if updating s && Nat.eqb i k then 1 else 0) + u)) as Hu1.
    { destruct (updating s); simpl; [by apply alter_count|done]. }
    destruct (Hk k _ _ (alter_count total i k t Ht0) Hu1) as [-> ->]. split; f_equal; lia.
Qed.

(** The second loop, in general: it returns, and each status is promoted or kept. *)
Lemma promote_returns now toSync m steps total s upd issues n :
  (step_index m (Application s) < n)%nat → length steps = n → length total = n → length upd = n →
  ∃ r, promote now toSync m steps total s upd issues = Returns r.
Proof.
  intros Hs Hst Ht Hu. unfold promote. set (k := step_index m (Application s)) in *.
  destruct (lookup_lt_is_Some_2 steps k ltac:(lia)) as [step ->].
  destruct (lookup_lt_is_Some_2 total k ltac:(lia)) as [t ->].
  destruct (lookup_lt_is_Some_2 upd k ltac:(lia)) as [c Hc]. rewrite Hc.
  unfold increment. rewrite Hc. cbn. destruct (MaxUpdate step); cbn; destruct (_ && _); by eexists.
Qed.

Lemma promote_all_returns now toSync m steps total l upd issues n :
  in_range m n l → length steps = n → length total = n → length upd = n →
  ∃ l' issues', promote_all now toSync m steps total l upd issues = Returns (l', issues') ∧
    Forall2 (promoted toSync) l l'.
Proof.
  intros Hr Hst Ht. revert upd issues. induction l as [|s l IH]; intros upd issues Hu; cbn [promote_all].
  - by exists [], issues.
  - apply in_range_cons in Hr as [Hs Hr].
    destruct (promote_returns now toSync m steps total s upd issues n) as [[[s' upd'] issues'] Hp]; [done..|].
    set (k := step_index m (Application s)) in *.
    destruct (lookup_lt_is_Some_2 steps k ltac:(lia)) as [step Hstep].
    destruct (lookup_lt_is_Some_2 total k ltac:(lia)) as [t Htk].
    destruct (lookup_lt_is_Some_2 upd k ltac:(lia)) as [c Hc].
    pose proof (promote_spec _ _ _ _ _ _ _ _ _ _ _ step t c Hstep Htk Hc Hp) as Hspec.
    rewrite Hp. cbn [mbind outcome_bind].
    assert (promoted toSync s s' ∧ length upd' = n) as [Hs' Hu'].
    { destruct (_ && _); [destruct Hspec as (? & _ & ->); by rewrite length_alter|].
      destruct Hspec as [-> ->]. split; [by left|done]. }
    destruct (IH Hr upd' issues' Hu') as (l' & issues'' & -> & Hl'). cbn.
    exists (s' :: l'), issues''. split; [done|by constructor].
Qed.

Lemma promoted_updating toSync s s' :
  promoted toSync s s' → Application s' = Application s ∧
    (StatusCode s' = ProgressiveSyncPending → updating s' = true).
Proof.
  intros Hp. split; [by destruct Hp as [->|(_ & _ & ? & _)]|]. intros Hc. unfold updating. by rewrite Hc.
Qed.

(** The first iteration *)
Lemma promote_all_cons now toSync m steps total s l upd issues l' issues' n :
  in_range m n (s :: l) → length steps = n → length total = n → length upd = n →
  promote_all now toSync m steps total (s :: l) upd issues = Returns (l', issues') →
  let i := step_index m (Application s) in
  ∃ s' l1 upd' issues1 step t c, l' = s' :: l1 ∧
    steps !! i = Some step ∧ total !! i = Some t ∧ upd !! i = Some c ∧ length upd' = n ∧
    promote_all now toSync m steps total l upd' issues1 = Returns (l1, issues') ∧
    if bool_decide (StatusCode s = ProgressiveSyncWaiting) && bool_decide (Application s ∈ toSync) && room step t c
    then promoted toSync s s' ∧ StatusCode s' = ProgressiveSyncPending ∧ upd' = alter (λ n, n + 1) i upd
    else s' = s ∧ upd' = upd.
Proof.
  intros [Hs Hr]%in_range_cons Hst Ht Hu Hall. cbn [promote_all] in Hall. cbn zeta.
  apply outcome_bind_Returns in Hall as ([[s' upd'] issues1] & Hp & Hall).
  apply outcome_bind_Returns in Hall as ([l1 issues2] & Hall & [= <- <-]).
  set (i := step_index m (Application s)) in *.
  destruct (lookup_lt_is_Some_2 steps i ltac:(lia)) as [step Hstep].
  destruct (lookup_lt_is_Some_2 total i ltac:(lia)) as [t Hti].
  destruct (lookup_lt_is_Some_2 upd i ltac:(lia)) as [c Hci].
  pose proof (promote_spec _ _ _ _ _ _ _ _ _ _ _ step t c Hstep Hti Hci Hp) as Hspec. fold i in Hspec.
  exists s', l1, upd', issues1, step, t, c. split_and!; [done..| |done|done].
  destruct (_ && _); [destruct Hspec as (_ & _ & ->); by rewrite length_alter|by destruct Hspec as [_ ->]].
Qed.

(** The loop keeps within the limit of a step. *)
Lemma promote_all_bound now toSync m steps total l upd issues l' issues' n k step mu t c :
  in_range m n l → length steps = n → length total = n → length upd = n →
  promote_all now toSync m steps total l upd issues = Returns (l', issues') →
  steps !! k = Some step → MaxUpdate step = Some mu → total !! k = Some t → upd !! k = Some c →
  updating_in m k l' + c <= updating_in m k l + Z.max c (max_update_value mu t).
Proof.
  intros Hr Hst Ht Hu Hall Hk Hmu Htk. revert upd issues l' c Hu Hall.
  induction l as [|s l IH]; intros upd issues l' c Hu Hall Hc; [injection Hall as <- <-; lia|].
  apply (promote_all_cons _ _ _ _ _ _ _ _ _ _ _ n) in Hall
    as (s' & l1 & upd' & issues1 & stepi & ti & ci & -> & Hstepi & Hti & Hci & Hu' & Hall & Hspec); [|done..].
  apply in_range_cons in Hr as [Hs Hr]. rewrite !updating_in_cons.
  set (i := step_index m (Application s)) in *.
  destruct (_ && _ && _) eqn:Hcond.
  - destruct Hspec as (Hpr & Hpend & ->). destruct (promoted_updating _ _ _ Hpr) as [Hname Hup].
    rewrite Hname, (Hup Hpend). fold i.
    pose proof (IH Hr _ _ _ _ Hu' Hall (alter_count _ i k c Hc)) as IH'.
    apply andb_prop in Hcond as [Hw Hroom]. apply andb_prop in Hw as [Hw _]. apply bool_decide_eq_true in Hw.
    assert (updating s = false) as -> by (unfold updating; by rewrite Hw).
    destruct (Nat.eqb_spec i k) as [Heq|]; cbn [andb] in *; [|lia].
    rewrite Heq in *. assert (stepi = step ∧ ti = t ∧ ci = c) as (-> & -> & ->) by (split_and!; congruence).
    unfold room in Hroom. rewrite Hmu in Hroom. destruct (Z.leb_spec (max_update_value mu t) c); [done|lia].
  - destruct Hspec as [-> ->]. fold i. pose proof (IH Hr _ _ _ _ Hu Hall Hc). lia.
Qed.

(** The loop promotes an application of a step with room. *)
Lemma promote_all_progress now toSync m steps total l upd issues l' issues' n k step t c s :
  in_range m n l → length steps = n → length total = n → length upd = n →
  promote_all now toSync m steps total l upd issues = Returns (l', issues') →
  steps !! k = Some step → total !! k = Some t → upd !! k = Some c → room step t c = true →
  s ∈ l → StatusCode s = ProgressiveSyncWaiting → Application s ∈ toSync → step_index m (Application s) = k →
  ∃ s0 s', s0 ∈ l ∧ s' ∈ l' ∧ Application s' = Application s0 ∧ step_index m (Application s0) = k ∧
    StatusCode s0 = ProgressiveSyncWaiting ∧ StatusCode s' = ProgressiveSyncPending.
Proof.
  intros Hr Hst Ht Hu Hall Hk Htk Hc Hroom Hin Hw Hsync Hidx. revert upd issues l' Hu Hall Hc.
  induction l as [|x l IH]; intros upd issues l' Hu Hall Hc; [by apply not_elem_of_nil in Hin|].
  apply (promote_all_cons _ _ _ _ _ _ _ _ _ _ _ n) in Hall
    as (x' & l1 & upd' & issues1 & stepi & ti & ci & -> & Hstepi & Hti & Hci & Hu' & Hall & Hspec); [|done..].
  apply in_range_cons in Hr as [Hx Hr]. set (i := step_index m (Application x)) in *.
  assert (∀ Hin' : s ∈ l, upd' !! k = Some c → ∃ s0 s', s0 ∈ x :: l ∧ s' ∈ x' :: l1 ∧
    Application s' = Application s0 ∧ step_index m (Application s0) = k ∧
    StatusCode s0 = ProgressiveSyncWaiting ∧ StatusCode s' = ProgressiveSyncPending) as Hrest.
  { intros Hin' Hupd. destruct (IH Hr Hin' upd' issues1 l1 Hu' Hall Hupd) as (s0 & s' & ? & ? & ?).
    exists s0, s'. split; [by right|]. split; [by right|done]. }
  destruct (_ && _ && _) eqn:Hcond.
  - destruct Hspec as (Hpr & Hpend & ->). destruct (promoted_updating _ _ _ Hpr) as [Hname _].
    apply andb_prop in Hcond as [Hwx _]. apply andb_prop in Hwx as [Hwx _]. apply bool_decide_eq_true in Hwx.
    destruct (Nat.eqb_spec i k) as [Heq|Hne].
    + exists x, x'. split; [by left|]. split; [by left|done].
    + apply Hrest; [|by rewrite list_lookup_alter_ne].
      apply elem_of_cons in Hin as [->|]; [by destruct Hne|done].
  - destruct Hspec as [-> ->]. apply Hrest; [|done].
    apply elem_of_cons in Hin as [<-|]; [|done]. exfalso. subst k. fold i in Hk, Htk, Hc.
    assert (stepi = step ∧ ti = t ∧ ci = c) as (-> & -> & ->) by (split_and!; congruence).
    rewrite Hroom, (bool_decide_eq_true_2 _ Hw), (bool_decide_eq_true_2 _ Hsync) in Hcond. done.
Qed.
End promotion.

(** ** The second pass *)
Lemma updating_in_views m k l l' : view <$> l ≡ₚ view <$> l' → updating_in m k l = updating_in m k l'.
Proof.
  intros Hp. unfold updating_in. f_equal.
  set (P := λ v : string * ProgressiveSyncStatusCode * string * string,
    (bool_decide (v.1.1.2 = ProgressiveSyncPending) || bool_decide (v.1.1.2 = ProgressiveSyncProgressing)) = true ∧
    step_index m v.1.1.1 = k).
  assert (∀ x, length (filter (λ s, updating s = true ∧ step_index m (Application s) = k) x) =
               length (filter P (view <$> x))) as Hv.
  { intros x. induction x as [|s x IH]; [done|]. rewrite fmap_cons, !filter_cons.
    unfold P at 1, view at 1, updating at 1. simpl. destruct (decide _); simpl; [f_equal|]; apply IH. }
  rewrite !Hv. apply Permutation_length. by rewrite Hp.
Qed.

(** Indices into the steps *)
Definition steps_known (m : gmap string nat) (steps : list ApplicationSetRolloutStep) : Prop :=
  (0 < length steps)%nat ∧ ∀ n k, m !! n = Some k → (k < length steps)%nat.

Lemma steps_known_range m steps l : steps_known m steps → in_range m (length steps) l.
Proof.
  intros [H0 H] s _. unfold step_index. destruct (m !! Application s) as [k|] eqn:E; simpl; [eauto|done].
Qed.

Lemma build_map_known a desired :
  RollingSyncStrategyEnabled a = true → steps_known (appStepMap (buildAppDependencyList a desired)) (steps_of a).
Proof.
  intros Hen. split; [by destruct (enabled_strategy a Hen) as (? & _ & _ & ?)|].
  rewrite (proj2 (build_enabled a desired Hen)).
  assert (∀ st, (∀ n k, appStepMap st !! n = Some k → (k < length (steps_of a))%nat) →
    ∀ n k, appStepMap (foldl (build_app (steps_of a)) st desired) !! n = Some k →
      (k < length (steps_of a))%nat) as Hgen; [|apply Hgen; simpl; intros n k; by rewrite lookup_empty].
  induction desired as [|app apps IH]; intros st Hst; cbn [foldl]; [done|].
  apply IH. intros n k. unfold build_app. rewrite build_app_map.
  destruct (appStepMap st !! Name app); [apply Hst|].
  destruct (list_find _ (steps_of a)) as [[j s]|] eqn:Hf; [|apply Hst].
  apply list_find_Some in Hf as (Hj%lookup_lt_Some & _).
  intros [[_ <-]|[_ ?]]%lookup_insert_Some; [done|eauto].
Qed.

Section second_pass.
Context `{D : Dependencies} `{DL : !DependenciesLaws D} `{I : IntStr}.
Variables (call : nat) (now : Z) (a a' : ApplicationSet) (toSync : gset string) (m : gmap string nat).
Variables (issues issues' : ValidationIssues).
Hypothesis enabled : RollingSyncStrategyEnabled a = true.
Hypothesis known : steps_known m (steps_of a).
Hypothesis run : UpdateApplicationSetApplicationStatusProgress call now a toSync m issues = Returns (a', issues').

(** The counts the loop starts from, and what it stores *)
Lemma second_pass_inv :
  ∃ total upd l' issues1, length total = length (steps_of a) ∧ length upd = length (steps_of a) ∧
    (∀ k, (k < length (steps_of a))%nat →
      total !! k = Some (total_in m k (ApplicationStatus a)) ∧
      upd !! k = Some (updating_in m k (ApplicationStatus a))) ∧
    promote_all now toSync m (steps_of a) total (ApplicationStatus a) upd issues = Returns (l', issues1) ∧
    Forall2 (promoted toSync) (ApplicationStatus a) l' ∧
    SetAppSetApplicationStatus call a l' = Returns a'.
Proof.
  pose proof run as H. unfold UpdateApplicationSetApplicationStatusProgress in H. rewrite enabled in H.
  set (n := length (steps_of a)) in *. set (zeros := replicate n 0) in *.
  pose proof (steps_known_range m (steps_of a) (ApplicationStatus a) known) as Hr.
  assert (length zeros = n) as Hz by apply length_replicate.
  destruct (count_statuses_spec m n (ApplicationStatus a) zeros zeros Hr Hz Hz)
    as (total & upd & Hc & Ht & Hu & Hk).
  destruct (promote_all_returns now toSync m (steps_of a) total (ApplicationStatus a) upd issues n)
    as (l' & issues1 & Hp & Hf); [done..|].
  rewrite Hc in H. cbn [mbind outcome_bind] in H. rewrite Hp in H. cbn [mbind outcome_bind] in H.
  apply outcome_bind_Returns in H as (a1 & Hset & [= <- _]).
  exists total, upd, l', issues1. split_and!; [done..| |done|done|done].
  intros k Hkn. assert (zeros !! k = Some 0) as H0 by by apply lookup_replicate_2.
  by apply (Hk k 0 0).
Qed.

Lemma promoted_names l l' : Forall2 (promoted toSync) l l' → Application <$> l' = Application <$> l.
Proof. induction 1 as [|s s' l l' Hs _ IH]; simpl; [done|]. f_equal; [|done]. by apply promoted_updating in Hs as [? _]. Qed.

Hypothesis distinct : NoDup (Application <$> ApplicationStatus a).

Lemma second_pass_limit k step mu :
  steps_of a !! k = Some step → MaxUpdate step = Some mu →
  updating_in m k (ApplicationStatus a') <=
    Z.max (updating_in m k (ApplicationStatus a)) (max_update_value mu (total_in m k (ApplicationStatus a))).
Proof.
  intros Hk Hmu. destruct second_pass_inv as (total & upd & l' & issues1 & Ht & Hu & Hc & Hp & Hf & Hset).
  destruct (Hc k (lookup_lt_Some _ _ _ Hk)) as [Htk Huk].
  rewrite (updating_in_views m k _ l').
  - pose proof (promote_all_bound _ _ _ _ _ _ _ _ _ _ _ _ _ _ _ _ (steps_known_range _ _ _ known)
      eq_refl Ht Hu Hp Hk Hmu Htk Huk). lia.
  - eapply set_views; [done|]. by rewrite (promoted_names _ _ Hf).
Qed.

Lemma second_pass_progress k step s :
  steps_of a !! k = Some step → s ∈ ApplicationStatus a → StatusCode s = ProgressiveSyncWaiting →
  Application s ∈ toSync → step_index m (Application s) = k →
  room step (total_in m k (ApplicationStatus a)) (updating_in m k (ApplicationStatus a)) = true →
  ∃ n, step_index m n = k ∧ has_status (ApplicationStatus a) n ProgressiveSyncWaiting = true ∧
    has_status (ApplicationStatus a') n ProgressiveSyncPending = true.
Proof.
  intros Hk Hin Hw Hsync Hidx Hroom.
  destruct second_pass_inv as (total & upd & l' & issues1 & Ht & Hu & Hc & Hp & Hf & Hset).
  destruct (Hc k (lookup_lt_Some _ _ _ Hk)) as [Htk Huk].
  destruct (promote_all_progress _ _ _ _ _ _ _ _ _ _ _ _ _ _ _ _ (steps_known_range _ _ _ known)
    eq_refl Ht Hu Hp Hk Htk Huk Hroom Hin Hw Hsync Hidx) as (s0 & s' & Hs0 & Hs' & Hname & Hi & Hw0 & Hpend).
  assert (NoDup (Application <$> l')) as Hnd by by rewrite (promoted_names _ _ Hf).
  exists (Application s0). split_and!; [done| |].
  - apply has_status_elem; eauto.
  - rewrite (views_has_status _ l') by (done || by eapply set_views).
    apply has_status_elem; eauto.
Qed.
End second_pass.

(** ** A whole pass *)
Section pass.
Context (cmp_Equal : ApplicationSpec → ApplicationSpec → bool).
Context `{D : Dependencies} `{DL : !DependenciesLaws D} `{I : IntStr} `{IL : !IntStrLaws I}.

(** The strategy of the application set is not edited while the pass runs. *)
Definition unedited (a : ApplicationSet) : Prop :=
  ∀ n a1 l a2, Strategy a1 = Strategy a → SetAppSetApplicationStatus n a1 l = Returns a2 → Strategy a2 = Strategy a.
(** Every status that is Pending has the time of its transition. *)
Definition timed (l : list ApplicationSetApplicationStatus) : Prop :=
  ∀ s, s ∈ l → StatusCode s = ProgressiveSyncPending → LastTransitionTime s ≠ None.

Lemma same_strategy a b :
  Strategy a = Strategy b → steps_of a = steps_of b ∧ RollingSyncStrategyEnabled a = RollingSyncStrategyEnabled b.
Proof.
  unfold RollingSyncStrategyEnabled, IsRollingSyncStrategy, steps_of. by intros ->.
Qed.

Lemma next_status_pending l now m desired app s :
  next_status cmp_Equal l now m desired app = Returns s → StatusCode s = ProgressiveSyncPending →
  has_status l (Name app) ProgressiveSyncPending = true.
Proof.
  intros Hs Hp. assert (StatusCode (current_status l now m app) = ProgressiveSyncPending) as Hc.
  { revert Hs. unfold next_status. set (c := current_status l now m app). set (n := notice_changes _ _ _ _ _ _).
    assert (StatusCode n = ProgressiveSyncWaiting ∨ StatusCode n = StatusCode c) as Hn.
    { unfold n, notice_changes. destruct (_ || _); [by left|by right]. }
    destruct (bool_decide_reflect (StatusCode n = ProgressiveSyncWaiting)) as [Hw|Hw].
    - intros [= <-]. revert Hp. unfold leave_waiting.
      destruct (is_synced app), (is_healthy app); simpl; congruence.
    - destruct Hn as [?|Hn]; [done|].
      destruct (bool_decide_reflect (StatusCode c = ProgressiveSyncPending)); [done|].
      intros [= <-]. revert Hp. destruct (bool_decide _); [|congruence].
      unfold leave_progressing. destruct (is_healthy app), (is_synced app); simpl; congruence. }
  revert Hc. unfold current_status, has_status.
  destruct (status_of l (Name app)); [|done]. intros ?. by apply bool_decide_eq_true_2.
Qed.

(** What the first pass leaves *)
Lemma first_pass_inv call now a apps desired m a1 :
  UpdateApplicationSetApplicationStatus cmp_Equal call now a apps desired m = Returns a1 →
  NoDup (Name <$> apps) →
  ∃ statuses,
    Forall2 (λ app s, next_status cmp_Equal (ApplicationStatus a) now m (desiredAppsMap desired) app = Returns s)
      apps statuses ∧
    SetAppSetApplicationStatus call a statuses = Returns a1 ∧ Application <$> statuses = Name <$> apps ∧
    view <$> ApplicationStatus a1 ≡ₚ view <$> statuses ∧ NoDup (Application <$> ApplicationStatus a1).
Proof.
  intros (statuses & Hf%mapM_Returns & Hset)%outcome_bind_Returns Hnd. exists statuses.
  assert (Application <$> statuses = Name <$> apps) as Hnames.
  { clear -Hf. induction Hf as [|app s ? ? Hs _ IH]; simpl; [done|]. f_equal; [|done].
    by eapply next_status_name. }
  assert (view <$> ApplicationStatus a1 ≡ₚ view <$> statuses) as Hv.
  { eapply set_views; [done|]. by rewrite Hnames. }
  split_and!; [done..|]. rewrite (views_names _ _ Hv), Hnames. done.
Qed.

Lemma first_pass_pending call now a apps desired m a1 n :
  UpdateApplicationSetApplicationStatus cmp_Equal call now a apps desired m = Returns a1 →
  NoDup (Name <$> apps) → has_status (ApplicationStatus a1) n ProgressiveSyncPending = true →
  has_status (ApplicationStatus a) n ProgressiveSyncPending = true.
Proof.
  intros H Hnd Hp. destruct (first_pass_inv _ _ _ _ _ _ _ H Hnd) as (statuses & Hf & _ & Hnames & Hv & Hnd1).
  assert (NoDup (Application <$> statuses)) as Hnd2 by by rewrite Hnames.
  rewrite (views_has_status _ _ _ _ Hnd2 Hv) in Hp. apply has_status_elem in Hp as (s & Hs & <- & Hc); [|done].
  apply list_elem_of_lookup in Hs as [i Hi]. destruct (Forall2_lookup_r _ _ _ _ _ Hf Hi) as (app & Happ & Hs).
  rewrite (next_status_name _ _ _ _ _ _ _ Hs). by eapply next_status_pending.
Qed.

Lemma promoted_has_status toSync l l' n c :
  Forall2 (promoted toSync) l l' → NoDup (Application <$> l) → has_status l' n c = true →
  has_status l n c = true ∨ c = ProgressiveSyncPending ∧ n ∈ toSync.
Proof.
  intros Hf Hnd Hs. assert (NoDup (Application <$> l')) as Hnd' by by rewrite (promoted_names _ _ _ Hf).
  apply has_status_elem in Hs as (s' & Hs' & <- & <-); [|done].
  apply list_elem_of_lookup in Hs' as [i Hi]. destruct (Forall2_lookup_r _ _ _ _ _ Hf Hi) as (s & Hs & Hp).
  destruct Hp as [->|(Hw & Hin & Hname & Hpend & _)].
  - left. apply has_status_elem; [done|]. exists s. split; [by eapply list_elem_of_lookup_2|done].
  - right. by rewrite Hname, Hpend.
Qed.

(** Promotion leaves every other status as it is. *)
Lemma promoted_keeps toSync l l' n c :
  Forall2 (promoted toSync) l l' → NoDup (Application <$> l) → c ≠ ProgressiveSyncWaiting →
  has_status l n c = true → has_status l' n c = true.
Proof.
  intros Hf Hnd Hc Hs. assert (NoDup (Application <$> l')) as Hnd' by by rewrite (promoted_names _ _ _ Hf).
  apply has_status_elem in Hs as (s & Hs & <- & Hcs); [|done].
  apply list_elem_of_lookup in Hs as [i Hi]. destruct (Forall2_lookup_l _ _ _ _ _ Hf Hi) as (s' & Hs' & Hp).
  destruct Hp as [->|(Hw & _)]; [|congruence].
  apply has_status_elem; [done|]. exists s. split; [by eapply list_elem_of_lookup_2|done].
Qed.

(** The stages of a pass that returns *)
Lemma pass_inv now1 now2 a apps desired toSync a' conds :
  RollingSyncStrategyEnabled a = true → unedited a → NoDup (Name <$> apps) →
  PerformProgressiveSyncs cmp_Equal now1 now2 a apps desired = Returns (toSync, a', conds) →
  let b := buildAppDependencyList a desired in
  ∃ a1 issues', UpdateApplicationSetApplicationStatus cmp_Equal 0 now1 a apps desired (appStepMap b) = Returns a1 ∧
    UpdateApplicationSetApplicationStatusProgress 1 now2 a1 toSync (appStepMap b) (build_issues b) =
      Returns (a', issues') ∧
    toSync = getAppsToSync a1 (appDependencyList b) apps ∧ Strategy a1 = Strategy a ∧ steps_of a1 = steps_of a ∧
    RollingSyncStrategyEnabled a1 = true ∧ NoDup (Application <$> ApplicationStatus a1).
Proof.
  intros Hen Hun Hnd H. cbn zeta. unfold PerformProgressiveSyncs in H. cbn zeta in H.
  apply outcome_bind_Returns in H as (a1 & H1 & H).
  apply outcome_bind_Returns in H as ([a2 issues'] & H2 & [= <- <- _]).
  exists a1, issues'.
  destruct (first_pass_inv _ _ _ _ _ _ _ H1 Hnd) as (statuses & _ & Hset & _ & _ & Hnd1).
  assert (Strategy a1 = Strategy a) as Ha by by eapply Hun.
  destruct (same_strategy a1 a Ha) as [Hsteps Hen1]. split_and!; [done..|by rewrite Hen1|done].
Qed.

(** Only applications that may sync and are Pending are given an operation. *)
Lemma sync_desired_changes a toSync app :
  AppOperation (sync_desired a toSync app) ≠ AppOperation app →
  Name app ∈ toSync ∧ has_status (ApplicationStatus a) (Name app) ProgressiveSyncPending = true.
Proof.
  unfold sync_desired.
  assert (∀ prune app1, Name app1 = Name app → AppOperation app1 = AppOperation app →
    AppOperation (if bool_decide (Name app1 ∈ toSync) &&
        has_status (ApplicationStatus a) (Name app1) ProgressiveSyncPending
      then syncApplication app1 prune else app1) ≠ AppOperation app →
    Name app ∈ toSync ∧ has_status (ApplicationStatus a) (Name app) ProgressiveSyncPending = true) as Hgen.
  { intros prune app1 -> Hop. destruct (bool_decide_reflect (Name app ∈ toSync)); [|done].
    simpl. by destruct (has_status _ _ _). }
  destruct (SpecSyncPolicy (Spec app)) as [p|]; [|by apply Hgen].
  destruct (IsAutomatedSyncEnabled p); by apply Hgen.
Qed.

(** All applications that the steps before [j] select exist and are Healthy. *)
Definition earlier_steps_healthy (a a' : ApplicationSet) (apps desired : list App) (j : nat) : Prop :=
  ∀ i step app, (i < j)%nat → steps_of a !! i = Some step → app ∈ desired → selects app step = true →
    Name app ∈ Name <$> apps ∧ has_status (ApplicationStatus a') (Name app) ProgressiveSyncHealthy = true.

(** An application may sync exactly when it is in a step whose earlier steps are
    done. *)
Lemma to_sync_spec a a1 apps desired n :
  RollingSyncStrategyEnabled a = true →
  n ∈ getAppsToSync a1 (appDependencyList (buildAppDependencyList a desired)) apps ↔
    ∃ j step app, steps_of a !! j = Some step ∧ app ∈ desired ∧ Name app = n ∧ selects app step = true ∧
      earlier_steps_healthy a a1 apps desired j.
Proof.
  intros Hen. rewrite getAppsToSync_spec, build_deps by done. split.
  - intros (j & names & Hj & Hn & Hall). rewrite list_lookup_fmap in Hj.
    apply fmap_Some in Hj as (step & Hstep & ->).
    apply list_elem_of_fmap in Hn as (app & -> & [Hsel Hin]%list_elem_of_filter).
    exists j, step, app. split_and!; [done..|]. intros i step' app' Hi Hi' Hin' Hsel'.
    eapply (Hall i); [done|by rewrite list_lookup_fmap, Hi'|].
    by apply list_elem_of_fmap_2, list_elem_of_filter.
  - intros (j & step & app & Hj & Hin & <- & Hsel & Hall).
    exists j, (Name <$> filter (λ app, selects app step = true) desired).
    split_and!; [by rewrite list_lookup_fmap, Hj|by apply list_elem_of_fmap_2, list_elem_of_filter|].
    intros i names n' Hi Hnames Hn'. rewrite list_lookup_fmap in Hnames.
    apply fmap_Some in Hnames as (step' & Hstep' & ->).
    apply list_elem_of_fmap in Hn' as (app' & -> & [Hsel' Hin']%list_elem_of_filter).
    by eapply Hall.
Qed.

(** Healthy statuses are the same before and after the second pass. *)
Lemma second_pass_healthy call now a1 toSync m issues a' issues' n :
  RollingSyncStrategyEnabled a1 = true → steps_known m (steps_of a1) →
  UpdateApplicationSetApplicationStatusProgress call now a1 toSync m issues = Returns (a', issues') →
  NoDup (Application <$> ApplicationStatus a1) →
  has_status (ApplicationStatus a') n ProgressiveSyncHealthy =
    has_status (ApplicationStatus a1) n ProgressiveSyncHealthy.
Proof.
  intros Hen Hkn H Hnd.
  destruct (second_pass_inv _ _ _ _ _ _ _ _ Hen Hkn H) as (total & upd & l' & issues1 & _ & _ & _ & _ & Hf & Hset).
  assert (NoDup (Application <$> l')) as Hnd' by by rewrite (promoted_names _ _ _ Hf).
  rewrite (views_has_status _ l') by (done || by eapply set_views).
  apply eq_iff_eq_true. split.
  - intros [?|[? _]]%(promoted_has_status toSync _ _ _ _ Hf Hnd); done.
  - by apply (promoted_keeps toSync).
Qed.

(** C39. Rollouts respect the order of their steps: an application that becomes
    Pending in a pass, or that is given a sync operation on the strength of it
    whatever statuses the caller still holds, is selected by a step whose earlier
    steps are done: all applications they select exist and are Healthy. *)
Theorem rollout_order now1 now2 a apps desired toSync a' conds n :
  RollingSyncStrategyEnabled a = true → unedited a → NoDup (Name <$> apps) →
  PerformProgressiveSyncs cmp_Equal now1 now2 a apps desired = Returns (toSync, a', conds) →
  has_status (ApplicationStatus a') n ProgressiveSyncPending = true ∧
    has_status (ApplicationStatus a) n ProgressiveSyncPending = false ∨
  (∃ a0 app, Name app = n ∧ AppOperation (sync_desired a0 toSync app) ≠ AppOperation app) →
  ∃ j step app, steps_of a !! j = Some step ∧ app ∈ desired ∧ Name app = n ∧ selects app step = true ∧
    earlier_steps_healthy a a' apps desired j.
Proof.
  intros Hen Hun Hnd Hpass Htrig.
  destruct (pass_inv _ _ _ _ _ _ _ _ Hen Hun Hnd Hpass) as (a1 & issues' & H1 & H2 & Hts & Ha & Hsteps & Hen1 & Hnd1).
  pose proof (build_map_known a desired Hen) as Hkn. rewrite <-Hsteps in Hkn.
  assert (n ∈ toSync) as Hin.
  { destruct Htrig as [[Hp Hold]|(a0 & app & <- & Hop)].
    - destruct (second_pass_inv _ _ _ _ _ _ _ _ Hen1 Hkn H2)
        as (total & upd & l' & issues1 & _ & _ & _ & _ & Hf & Hset).
      rewrite (views_has_status _ l') in Hp
        by (by rewrite (promoted_names _ _ _ Hf) || (eapply set_views; [done|by rewrite (promoted_names _ _ _ Hf)])).
      apply (promoted_has_status toSync _ _ _ _ Hf Hnd1) in Hp as [Hp|[_ ?]]; [|done].
      apply (first_pass_pending _ _ _ _ _ _ _ _ H1 Hnd) in Hp. congruence.
    - by apply sync_desired_changes in Hop as [? _]. }
  rewrite Hts in Hin. apply to_sync_spec in Hin as (j & step & app & Hj & Happ & Hn & Hsel & Hall); [|done].
  exists j, step, app. split_and!; [done..|]. intros i step' app' Hi Hi' Hin' Hsel'.
  rewrite (second_pass_healthy _ _ _ _ _ _ _ _ _ Hen1 Hkn H2 Hnd1). by eapply Hall.
Qed.

(** Limits on concurrent updates: promotion never leaves more applications of
    a step updating (Pending or Progressing) than its [maxUpdate] allows, except
    those that were updating before. *)
Theorem max_update_respected call now a toSync desired issues a' issues' k step mu :
  let m := appStepMap (buildAppDependencyList a desired) in
  RollingSyncStrategyEnabled a = true → NoDup (Application <$> ApplicationStatus a) →
  UpdateApplicationSetApplicationStatusProgress call now a toSync m issues = Returns (a', issues') →
  steps_of a !! k = Some step → MaxUpdate step = Some mu →
  updating_in m k (ApplicationStatus a') <=
    Z.max (updating_in m k (ApplicationStatus a)) (max_update_value mu (total_in m k (ApplicationStatus a))).
Proof.
  intros m Hen Hnd H Hk Hmu. eapply second_pass_limit; [done|by apply build_map_known|done..].
Qed.

(** ** A pass returns *)

(** The API server stores what it is given. *)
Definition stores (a : ApplicationSet) : Prop :=
  ∀ n a1 l, Strategy a1 = Strategy a →
    ∃ a2, SetAppSetApplicationStatus n a1 l = Returns a2 ∧ Strategy a2 = Strategy a.

Lemma stores_unedited a : stores a → unedited a.
Proof.
  intros Hst n a1 l a2 Ha H. destruct (Hst n a1 l Ha) as (a3 & H3 & <-). congruence.
Qed.

Lemma first_pass_returns a apps desired now m :
  stores a → timed (ApplicationStatus a) →
  ∃ a1, UpdateApplicationSetApplicationStatus cmp_Equal 0 now a apps desired m = Returns a1 ∧
    Strategy a1 = Strategy a.
Proof.
  intros Hst Ht. unfold UpdateApplicationSetApplicationStatus.
  destruct (mapM_no_panic (next_status cmp_Equal (ApplicationStatus a) now m (desiredAppsMap desired)) apps)
    as [k ->]; [intros app _; by apply next_status_returns|]. simpl. by apply Hst.
Qed.

Lemma second_pass_returns a a1 now toSync m issues :
  stores a → Strategy a1 = Strategy a → RollingSyncStrategyEnabled a1 = true → steps_known m (steps_of a1) →
  ∃ a2 issues', UpdateApplicationSetApplicationStatusProgress 1 now a1 toSync m issues = Returns (a2, issues').
Proof.
  intros Hst Ha Hen Hkn. unfold UpdateApplicationSetApplicationStatusProgress. rewrite Hen.
  set (n := length (steps_of a1)).
  pose proof (steps_known_range m (steps_of a1) (ApplicationStatus a1) Hkn) as Hr.
  destruct (count_statuses_spec m n (ApplicationStatus a1) (replicate n 0) (replicate n 0) Hr)
    as (total & upd & -> & Ht & Hu & _); [apply length_replicate..|]. cbn [mbind outcome_bind].
  destruct (promote_all_returns now toSync m (steps_of a1) total (ApplicationStatus a1) upd issues n)
    as (l' & issues1 & -> & _); [done..|]. cbn [mbind outcome_bind].
  destruct (Hst 1%nat a1 l' Ha) as (a2 & -> & _). by exists a2, issues1.
Qed.

Lemma pass_returns a apps desired now1 now2 :
  RollingSyncStrategyEnabled a = true → stores a → timed (ApplicationStatus a) →
  ∃ toSync a' conds, PerformProgressiveSyncs cmp_Equal now1 now2 a apps desired = Returns (toSync, a', conds).
Proof.
  intros Hen Hst Ht. unfold PerformProgressiveSyncs. set (b := buildAppDependencyList a desired). cbn zeta.
  destruct (first_pass_returns a apps desired now1 (appStepMap b) Hst Ht) as (a1 & -> & Ha).
  cbn [mbind outcome_bind]. destruct (same_strategy a1 a Ha) as [Hsteps Hen1].
  destruct (second_pass_returns a a1 now2 (getAppsToSync a1 (appDependencyList b) apps) (appStepMap b)
    (build_issues b)) as (a2 & issues' & ->); [done|done|by rewrite Hen1|
    rewrite Hsteps; by apply build_map_known|]. cbn. by eexists _, _, _.
Qed.

(** Updating applications stay so. *)
Lemma updating_in_mono toSync m k l l' :
  Forall2 (promoted toSync) l l' → updating_in m k l <= updating_in m k l'.
Proof.
  induction 1 as [|s s' l l' Hs _ IH]; [done|]. rewrite !updating_in_cons.
  destruct Hs as [->|(Hw & _ & -> & _)]; [lia|].
  assert (updating s = false) as -> by (unfold updating; by rewrite Hw). simpl.
  destruct (updating s' && _); lia.
Qed.

Lemma updating_in_pos m k l n :
  NoDup (Application <$> l) → has_status l n ProgressiveSyncPending = true → step_index m n = k →
  1 <= updating_in m k l.
Proof.
  intros Hnd Hs Hk. apply has_status_elem in Hs as (s & Hs & <- & Hc); [|done].
  apply list_elem_of_split in Hs as (l1 & l2 & ->). unfold updating_in.
  rewrite filter_app, filter_cons, decide_True, length_app
    by (split; [unfold updating; by rewrite Hc|done]). simpl. lia.
Qed.

(** In an open step with room, some application becomes Pending. *)
Lemma open_step_promotes a a1 a' apps desired toSync now issues issues' k step app :
  let m := appStepMap (buildAppDependencyList a desired) in
  RollingSyncStrategyEnabled a = true → NoDup (Name <$> desired) →
  Strategy a1 = Strategy a → NoDup (Application <$> ApplicationStatus a1) →
  toSync = getAppsToSync a1 (appDependencyList (buildAppDependencyList a desired)) apps →
  UpdateApplicationSetApplicationStatusProgress 1 now a1 toSync m issues = Returns (a', issues') →
  steps_of a !! k = Some step → app ∈ desired → first_step (steps_of a) app = Some k →
  earlier_steps_healthy a a1 apps desired k →
  has_status (ApplicationStatus a1) (Name app) ProgressiveSyncWaiting = true →
  room step (total_in m k (ApplicationStatus a1)) (updating_in m k (ApplicationStatus a1)) = true →
  ∃ n, step_index m n = k ∧ has_status (ApplicationStatus a') n ProgressiveSyncPending = true.
Proof.
  intros m Hen Hndd Ha Hnd1 Hts H2 Hk Happ Hfirst Hearlier Hwait Hroom.
  destruct (same_strategy a1 a Ha) as [Hsteps Hen1]. rewrite Hen in Hen1.
  pose proof (build_map_known a desired Hen) as Hkn. fold m in Hkn. rewrite <-Hsteps in Hkn.
  assert (step_index m (Name app) = k) as Hidx.
  { unfold step_index, m. rewrite build_map, find_by_name by done. simpl. by rewrite Hfirst. }
  apply has_status_elem in Hwait as (s & Hs & Hname & Hw); [|done].
  destruct (second_pass_progress 1 now a1 a' toSync m issues issues' Hen1 Hkn H2 Hnd1 k step s)
    as (n & Hn & _ & Hp); [by rewrite Hsteps|done|done| |by rewrite Hname|done|eauto].
  rewrite Hts, Hname. apply to_sync_spec; [done|]. exists k, step, app. split_and!; [done..| |done].
  unfold first_step in Hfirst. destruct (list_find _ (steps_of a)) as [[k' step']|] eqn:Hfind; [|done].
  injection Hfirst as ->. apply list_find_Some in Hfind as (Hk' & Hsel & _). congruence.
Qed.

(** Only a limit of zero stops a step. *)
Lemma max_update_zero mu total :
  max_update_value mu total <= 0 → mu = StrVal "0%" ∨ ∃ n, mu = IntVal n ∧ n <= 0.
Proof.
  unfold max_update_value. destruct mu as [n|s].
  - rewrite scaled_int. simpl. eauto.
  - destruct (String.eqb_spec s "0%") as [->|]; [by left|]. simpl.
    destruct (Z.ltb_spec (GetScaledValueFromIntOrPercent (StrVal s) total).1 1); lia.
Qed.

(** Rollouts make progress: while the API server stores the statuses, a pass
    returns, and in a step whose earlier steps are done, if some application of
    it is still Waiting afterwards, then at least one is updating, unless the
    [maxUpdate] of the step is zero. *)
Theorem rollout_progresses now1 now2 a apps desired :
  RollingSyncStrategyEnabled a = true → stores a → timed (ApplicationStatus a) →
  NoDup (Name <$> apps) → NoDup (Name <$> desired) →
  ∃ toSync a' conds, PerformProgressiveSyncs cmp_Equal now1 now2 a apps desired = Returns (toSync, a', conds) ∧
    ∀ k step app, steps_of a !! k = Some step → app ∈ desired →
      fst <$> list_find (λ step, selects app step = true) (steps_of a) = Some k →
      earlier_steps_healthy a a' apps desired k →
      has_status (ApplicationStatus a') (Name app) ProgressiveSyncWaiting = true →
      1 <= updating_in (appStepMap (buildAppDependencyList a desired)) k (ApplicationStatus a') ∨
      MaxUpdate step = Some (StrVal "0%") ∨ ∃ n, MaxUpdate step = Some (IntVal n) ∧ n <= 0.
Proof.
  intros Hen Hst Ht Hnd Hndd.
  destruct (pass_returns a apps desired now1 now2 Hen Hst Ht) as (toSync & a' & conds & Hpass).
  exists toSync, a', conds. split; [done|]. intros k step app Hk Happ Hfirst Hearlier Hwait.
  destruct (pass_inv _ _ _ _ _ _ _ _ Hen (stores_unedited a Hst) Hnd Hpass)
    as (a1 & issues' & H1 & H2 & Hts & Ha & Hsteps & Hen1 & Hnd1).
  pose proof (build_map_known a desired Hen) as Hkn. rewrite <-Hsteps in Hkn.
  set (m := appStepMap (buildAppDependencyList a desired)) in *.
  destruct (second_pass_inv _ _ _ _ _ _ _ _ Hen1 Hkn H2) as (total & upd & l' & issues1 & _ & _ & _ & _ & Hf & Hset).
  assert (NoDup (Application <$> l')) as Hnd' by by rewrite (promoted_names _ _ _ Hf).
  assert (view <$> ApplicationStatus a' ≡ₚ view <$> l') as Hv by by eapply set_views.
  pose proof (updating_in_mono _ m k _ _ Hf) as Hmono. rewrite <-(updating_in_views m k _ _ Hv) in Hmono.
  destruct (decide (1 <= updating_in m k (ApplicationStatus a1))) as [|Hzero]; [left; lia|].
  destruct (room step (total_in m k (ApplicationStatus a1)) (updating_in m k (ApplicationStatus a1))) eqn:Hroom.
  - left. assert (has_status (ApplicationStatus a1) (Name app) ProgressiveSyncWaiting = true) as Hwait1.
    { rewrite (views_has_status _ l') in Hwait by done.
      by destruct (promoted_has_status toSync _ _ _ _ Hf Hnd1 Hwait) as [?|[? _]]. }
    destruct (open_step_promotes a a1 a' apps desired toSync now2
      (build_issues (buildAppDependencyList a desired)) issues' k step app) as (n & Hn & Hp); try done.
    + intros i step' app' Hi Hi' Hin' Hsel'.
      rewrite <-(second_pass_healthy _ _ _ _ _ _ _ _ _ Hen1 Hkn H2 Hnd1). by eapply Hearlier.
    + apply (updating_in_pos _ _ _ n); [|done|done]. by rewrite (views_names _ _ Hv).
  - right. unfold room in Hroom. destruct (MaxUpdate step) as [mu|]; [|done].
    apply negb_false_iff, Z.leb_le in Hroom.
    assert (mu = StrVal "0%" ∨ ∃ n, mu = IntVal n ∧ n <= 0) as [->|(n & -> & ?)]; [|eauto..].
    apply (max_update_zero mu (total_in m k (ApplicationStatus a1))). lia.
Qed.

(** ** What Healthy means *)

(** The application sets of a controller over time, with all applications it has
    observed: statuses may be cleared and the strategy edited between passes. *)
Inductive history : ApplicationSet → list App → Prop :=
  | history_start a obs : ApplicationStatus a = [] → history a obs
  | history_edit a obs strategy :
      history a obs → history {| Strategy := strategy; ApplicationStatus := ApplicationStatus a |} obs
  | history_pass a obs now1 now2 apps desired toSync a' conds :
      history a obs →
      PerformProgressiveSyncs cmp_Equal now1 now2 a apps desired = Returns (toSync, a', conds) →
      history a' (apps ++ obs).

Definition healthy_observed (obs : list App) (s : ApplicationSetApplicationStatus) : Prop :=
  StatusCode s = ProgressiveSyncHealthy →
  ∃ app, app ∈ obs ∧ Name app = Application s ∧ is_synced app = true ∧ is_healthy app = true ∧
    TargetRevisions s = Some (GetRevisions app).

Lemma healthy_observed_same obs s t : same_record s t → healthy_observed obs t → healthy_observed obs s.
Proof.
  intros ([= Hn Hc _ _] & Hr & _) Ht Hs. destruct Ht as (app & ? & ? & ? & ? & ?); [congruence|].
  exists app. split_and!; congruence.
Qed.

Lemma first_pass_healthy call now a apps desired m a1 obs :
  UpdateApplicationSetApplicationStatus cmp_Equal call now a apps desired m = Returns a1 →
  Forall (healthy_observed obs) (ApplicationStatus a) → Forall (healthy_observed (apps ++ obs)) (ApplicationStatus a1).
Proof.
  intros (statuses & Hf%mapM_Returns & Hset)%outcome_bind_Returns Hobs.
  assert (∀ s, s ∈ ApplicationStatus a → healthy_observed (apps ++ obs) s) as Hold.
  { intros s Hs Hh. rewrite Forall_forall in Hobs. destruct (Hobs s Hs Hh) as (app & ? & ?).
    exists app. split; [apply elem_of_app; by right|done]. }
  apply Forall_forall. intros s Hs.
  destruct (set_records _ _ _ _ _ Hset Hs) as (t & [Ht|Ht]%elem_of_app & Hst);
    [|by eapply healthy_observed_same; [|apply Hold]].
  eapply healthy_observed_same; [done|]. apply list_elem_of_lookup in Ht as [i Hi].
  destruct (Forall2_lookup_r _ _ _ _ _ Hf Hi) as (app & Happ & Hnext). intros Hh.
  pose proof (next_status_name _ _ _ _ _ _ _ Hnext) as Hname.
  destruct (next_status_healthy _ _ _ _ _ _ _ Hnext Hh) as [Hrev [[Hsy Hhe]|[Hcur Hcrev]]].
  - exists app. split_and!; [|done..]. apply elem_of_app. left. by eapply list_elem_of_lookup_2.
  - revert Hcur Hcrev. unfold current_status. destruct (status_of _ (Name app)) as [c|] eqn:Hc; [|done].
    apply status_of_Some in Hc as [Hin Hcn]. intros Hcode Hcrev.
    destruct (Hold c Hin Hcode) as (app' & ? & ? & ? & ? & ?). exists app'. split_and!; congruence.
Qed.

Lemma promote_all_records now toSync m steps total l upd issues l' issues' s' :
  promote_all now toSync m steps total l upd issues = Returns (l', issues') → s' ∈ l' →
  StatusCode s' = ProgressiveSyncHealthy → s' ∈ l.
Proof.
  revert upd issues l'. induction l as [|s l IH]; intros upd issues l' H Hin Hh; cbn [promote_all] in H.
  { injection H as <- <-. by apply not_elem_of_nil in Hin. }
  apply outcome_bind_Returns in H as ([[s1 upd1] issues1] & Hp & H).
  apply outcome_bind_Returns in H as ([l1 issues2] & Hall & [= <- <-]).
  apply elem_of_cons in Hin as [->|Hin]; [|right; by eapply IH].
  unfold promote in Hp. apply outcome_bind_Returns in Hp as (step & _ & Hp).
  apply outcome_bind_Returns in Hp as ([allowed issues3] & _ & Hp).
  destruct (_ && _); [|injection Hp as <- _ _; by left].
  apply outcome_bind_Returns in Hp as (u & _ & Hp). by injection Hp as <- _ _.
Qed.

Lemma second_pass_observed call now a toSync m issues a' issues' obs :
  UpdateApplicationSetApplicationStatusProgress call now a toSync m issues = Returns (a', issues') →
  Forall (healthy_observed obs) (ApplicationStatus a) → Forall (healthy_observed obs) (ApplicationStatus a').
Proof.
  intros ([l' issues1] & Hl & (a2 & Hset & [= <- _])%outcome_bind_Returns)%outcome_bind_Returns Hobs.
  apply Forall_forall. intros s Hs. rewrite Forall_forall in Hobs.
  destruct (set_records _ _ _ _ _ Hset Hs) as (t & [Ht|Ht]%elem_of_app & Hst);
    [|by eapply healthy_observed_same; [|apply Hobs]].
  eapply healthy_observed_same; [done|]. intros Hh. apply Hobs; [|done].
  destruct (RollingSyncStrategyEnabled a); [|injection Hl as <- _; by apply not_elem_of_nil in Ht].
  apply outcome_bind_Returns in Hl as ([total upd] & _ & Hl). by eapply promote_all_records.
Qed.

(** Healthy is earned: over any history of an application set, an application
    whose status is Healthy has been observed in sync and healthy, at exactly the
    target revisions that the status records. *)
Theorem healthy_was_observed a obs s :
  history a obs → s ∈ ApplicationStatus a → StatusCode s = ProgressiveSyncHealthy →
  ∃ app, app ∈ obs ∧ Name app = Application s ∧ SyncStatus app = "Synced" ∧
    HealthCode app = HealthStatusHealthy ∧ TargetRevisions s = Some (GetRevisions app).
Proof.
  intros Hh Hs Hcode. assert (Forall (healthy_observed obs) (ApplicationStatus a)) as Hobs.
  { clear s Hs Hcode. induction Hh as [a obs Ha|a obs st _ IH|a obs n1 n2 apps desired ts a' cs _ IH Hpass];
      [by rewrite Ha|done|].
    unfold PerformProgressiveSyncs in Hpass. cbn zeta in Hpass.
    apply outcome_bind_Returns in Hpass as (a1 & H1 & Hpass).
    apply outcome_bind_Returns in Hpass as ([a2 issues'] & H2 & [= _ <- _]).
    eapply second_pass_observed; [done|]. by eapply first_pass_healthy. }
  rewrite Forall_forall in Hobs. destruct (Hobs s Hs Hcode) as (app & ? & ? & Hsy & Hhe & ?).
  exists app. split_and!; [done..|by apply String.eqb_eq|by apply (bool_decide_eq_true_1 _ Hhe)|done].
Qed.
End pass.

(** ** Deletion in reverse order *)
Section deletion.
Context `{RT : GoRuntime}.

Definition gone (get : string → get_answer) (del : string → delete_answer) (n : string) : Prop :=
  get n = GetNotFound ∨ del n = DeleteNotFound.

Lemma delete_loop_prefix get del now l n :
  n ∈ (delete_loop get del now l).2 →
  ∃ l1 s l2, l = l1 ++ s :: l2 ∧ DeleteAppName s = n ∧ Forall (λ t, gone get del (DeleteAppName t)) l1.
Proof.
  induction l as [|s l IH]; simpl; [by intros ?%not_elem_of_nil|].
  assert (gone get del (DeleteAppName s) → n ∈ (delete_loop get del now l).2 →
    ∃ l1 t l2, s :: l = l1 ++ t :: l2 ∧ DeleteAppName t = n ∧ Forall (λ t, gone get del (DeleteAppName t)) l1)
    as Hskip.
  { intros Hg (l1 & t & l2 & -> & Ht & Hall)%IH. exists (s :: l1), t, l2. split_and!; [done..|by constructor]. }
  destruct (get (DeleteAppName s)) as [ts| |] eqn:Hget; [|apply Hskip; by left|by intros ?%not_elem_of_nil].
  destruct (match ts with Some t => _ | None => false end); [by intros ?%not_elem_of_nil|].
  destruct (del (DeleteAppName s)) eqn:Hdel.
  - intros ->%list_elem_of_singleton. by exists [], s, l.
  - destruct (delete_loop get del now l) as [res names]. simpl in *.
    intros [->|Hn]%elem_of_cons; [by exists [], s, l|]. apply Hskip; [by right|done].
  - intros ->%list_elem_of_singleton. by exists [], s, l.
Qed.

Lemma delete_loop_done get del now l :
  (delete_loop get del now l).1 = Some 0 → Forall (λ t, gone get del (DeleteAppName t)) l.
Proof.
  induction l as [|s l IH]; simpl; [constructor|].
  destruct (get (DeleteAppName s)) as [ts| |] eqn:Hget; [|constructor; [by left|auto]|done].
  destruct (match ts with Some t => _ | None => false end); [done|].
  destruct (del (DeleteAppName s)) eqn:Hdel; [done| |done].
  destruct (delete_loop get del now l) as [res names]. simpl in *. constructor; [by right|auto].
Qed.

Lemma deletion_order_elem a apps n k :
  appStepMap (buildAppDependencyList a apps) !! n = Some k →
  {| DeleteAppName := n; DeleteStep := Z.of_nat (length (steps_of a)) - Z.of_nat k - 1 |} ∈ deletion_order a apps.
Proof.
  intros Hk. unfold deletion_order. rewrite go_sort_perm. apply list_elem_of_fmap.
  exists (n, k). split; [done|]. by apply elem_of_go_range.
Qed.

Lemma deletion_order_inv a apps s :
  s ∈ deletion_order a apps → ∃ k, appStepMap (buildAppDependencyList a apps) !! DeleteAppName s = Some k ∧
    DeleteStep s = Z.of_nat (length (steps_of a)) - Z.of_nat k - 1.
Proof.
  unfold deletion_order. rewrite go_sort_perm. intros ([n k] & -> & Hin%elem_of_go_range)%list_elem_of_fmap. eauto.
Qed.

Lemma deletion_order_sorted a apps :
  sorted_by (λ x y, DeleteStep x <? DeleteStep y) (deletion_order a apps).
Proof. apply go_sort_sorted. split; intros; breflect; lia. Qed.

(** An application of a later step comes before one of an earlier step. *)
Lemma deletion_order_before a apps l1 s l2 k n' k' :
  let m := appStepMap (buildAppDependencyList a apps) in
  deletion_order a apps = l1 ++ s :: l2 → m !! DeleteAppName s = Some k → m !! n' = Some k' → (k < k')%nat →
  ∃ t, t ∈ l1 ∧ DeleteAppName t = n'.
Proof.
  intros m Hl Hk Hk' Hlt. pose proof (deletion_order_sorted a apps) as Hsorted.
  assert (s ∈ deletion_order a apps) as Hs by (rewrite Hl; apply elem_of_app; right; by left).
  apply deletion_order_inv in Hs as (k0 & Hk0 & Hstep). fold m in Hk0. rewrite Hk in Hk0. injection Hk0 as <-.
  pose proof (deletion_order_elem a apps n' k' Hk') as Hin. set (t := {| DeleteAppName := n' |}) in Hin. exists t. split; [|done].
  rewrite Hl in Hin, Hsorted. apply elem_of_app in Hin as [Hin|[Heq|Hin]%elem_of_cons]; [done|..]; exfalso.
  - rewrite <-Heq in Hstep. simpl in Hstep. lia.
  - apply StronglySorted_app_1_r in Hsorted. apply StronglySorted_inv in Hsorted as [_ Hs].
    rewrite Forall_forall in Hs. specialize (Hs t Hin). apply Z.ltb_ge in Hs. simpl in Hs. lia.
Qed.

(** Deletion in reverse order: the deletion of an application is requested
    only when every application of a later step is gone, and the controller goes
    on to remove the application set only when all applications of the steps are
    gone. *)
Theorem reverse_deletion_order get del now a apps :
  let m := appStepMap (buildAppDependencyList a apps) in
  (∀ n k n' k', n ∈ (PerformReverseDeletion get del now a apps).2 → m !! n = Some k → m !! n' = Some k' →
     (k < k')%nat → gone get del n') ∧
  ((PerformReverseDeletion get del now a apps).1 = Some 0 → ∀ n k, m !! n = Some k → gone get del n).
Proof.
  intros m. unfold PerformReverseDeletion. split.
  - intros n k n' k' (l1 & s & l2 & Hl & <- & Hall)%delete_loop_prefix Hk Hk' Hlt.
    destruct (deletion_order_before a apps l1 s l2 k n' k' Hl Hk Hk' Hlt) as (t & Ht & <-).
    rewrite Forall_forall in Hall. by apply Hall.
  - intros Hd n k Hk. apply delete_loop_done in Hd. rewrite Forall_forall in Hd.
    apply (Hd _ (deletion_order_elem a apps n k Hk)).
Qed.
End deletion.
