(* ===== verification/RolloutExamples.v ===== *)
(** * Progressive sync: concrete rollouts

    A rollout over a development and a production step, used to show that the
    hypotheses of the theorems can be met, and two behaviours of the code: an
    application that no step selects takes part in the limit of the first step,
    and a new revision of an application that stays Healthy is not recorded. *)

From S2P Require Import Prelude GoStd GoTime Kube SyncCommon Health Rollout RolloutStatus RolloutProofs.
Local Open Scope string_scope.
Local Open Scope list_scope.
Local Open Scope Z_scope.

(** ** Libraries *)

(** Percentages of a total, rounded down *)
Definition scaled_value (m : IntOrString) (total : Z) : Z * option string :=
  match m with
  | IntVal n => (n, None)
  | StrVal s =>
      match (if HasSuffix s "%" then Atoi (Join (Split s (byte 37)) "") else None) with
      | Some v => (v * total / 100, None)
      | None => (0, Some "invalid value for IntOrString")
      end
  end.
#[local] Instance sample_intstr : IntStr := {| GetScaledValueFromIntOrPercent := scaled_value |}.
#[local] Instance sample_intstr_laws : IntStrLaws sample_intstr.
Proof. by split. Qed.
#[local] Instance sample_runtime : GoRuntime := reference_runtime.

Definition sample_Equal (x y : ApplicationSpec) : bool := String.eqb (SpecFields x) (SpecFields y).

Lemma controller_stores a : stores (D := controller (λ _, Stored (Strategy a))) a.
Proof.
  intros n a1 l Ha. simpl. unfold setAppSetApplicationStatus.
  destruct (needToUpdateStatus a1 l); [by eexists|by exists a1].
Qed.

(** ** Applications *)
Definition app (name env rev sync : string) (code : HealthStatusCode) : App :=
  {| Name := name; Labels := {[ "env" := env ]};
     Spec := {| SpecSyncPolicy := None; SpecFields := "spec" |};
     SyncStatus := sync; SyncRevision := rev; SyncRevisions := []; HealthCode := code;
     ReconciledAt := None; AppOperationState := None; AppConditions := []; AppOperation := None |}.

Definition in_env (env : string) (limit : option IntOrString) : ApplicationSetRolloutStep :=
  {| MatchExpressions := [{| Key := "env"; Operator := "In"; Values := [env] |}]; MaxUpdate := limit |}.

Definition rolling (steps : list ApplicationSetRolloutStep) : option ApplicationSetStrategy :=
  Some {| StrategyType := "RollingSync"; RollingSync := Some steps; DeletionOrder := "reverse" |}.

Definition status (name : string) (code : ProgressiveSyncStatusCode) (step rev : string)
    : ApplicationSetApplicationStatus :=
  {| Application := name; LastTransitionTime := Some 0; StatusMessage := ""; StatusCode := code;
     StatusStep := step; TargetRevisions := Some [rev] |}.

Module RolloutSample.
(** Two development applications, one at a time, then production *)
Definition fleet : ApplicationSet :=
  {| Strategy := rolling [in_env "dev" (Some (StrVal "50%")); in_env "prod" None];
     ApplicationStatus :=
       [status "d1" ProgressiveSyncHealthy "1" "r1"; status "d2" ProgressiveSyncHealthy "1" "r1";
        status "p1" ProgressiveSyncHealthy "2" "r1"] |}.
#[local] Instance deps : Dependencies := controller (λ _, Stored (Strategy fleet)).

(** Revision [r2] arrives everywhere. *)
Definition observed : list App :=
  [app "d1" "dev" "r2" "OutOfSync" HealthStatusHealthy; app "d2" "dev" "r2" "OutOfSync" HealthStatusHealthy;
   app "p1" "prod" "r2" "OutOfSync" HealthStatusHealthy].

Definition pass : outcome (gset string * ApplicationSet * list ApplicationSetCondition) :=
  PerformProgressiveSyncs sample_Equal 1000 2000 fleet observed observed.

(** The first development application becomes Pending; the others wait. *)
Example pass_result :
  match pass with
  | Returns (toSync, a, conds) =>
      (elements toSync, StatusCode <$> ApplicationStatus a, ConditionMessage <$> conds)
  | _ => ([], [], [])
  end =
  (["d1"; "d2"],
   [ProgressiveSyncPending; ProgressiveSyncWaiting; ProgressiveSyncWaiting],
   ["Rolling Sync Configured correctly"; "ApplicationSet is performing rollout of step 1"]).
Proof. vm_compute. reflexivity. Qed.

Lemma observed_distinct : NoDup (Name <$> observed).
Proof. apply (bool_decide_unpack _). vm_compute. exact I. Qed.

Lemma buildAppDependencyList_correct_witness :
  appDependencyList (buildAppDependencyList fleet observed) = [["d1"; "d2"]; ["p1"]] ∧
  appStepMap (buildAppDependencyList fleet observed) !! "p1" = Some 1%nat.
Proof.
  destruct (buildAppDependencyList_correct fleet observed) as (H1 & H2 & _);
    [reflexivity|apply observed_distinct|].
  split; [rewrite H1; vm_compute; reflexivity|].
  apply (H2 (app "p1" "prod" "r2" "OutOfSync" HealthStatusHealthy)).
  apply list_elem_of_lookup_2 with 2%nat. reflexivity.
Defined.

Lemma timed_fleet : timed (ApplicationStatus fleet).
Proof.
  intros s Hs. unfold fleet in Hs. simpl in Hs.
  repeat (apply elem_of_cons in Hs as [->|Hs]; [discriminate|]). by apply not_elem_of_nil in Hs.
Qed.

Definition after : ApplicationSet := match pass with Returns (_, a, _) => a | _ => fleet end.
Definition may_sync : gset string := match pass with Returns (s, _, _) => s | _ => ∅ end.
Definition reported : list ApplicationSetCondition := match pass with Returns (_, _, c) => c | _ => [] end.

Lemma pass_returns_after :
  PerformProgressiveSyncs sample_Equal 1000 2000 fleet observed observed = Returns (may_sync, after, reported).
Proof. vm_compute. reflexivity. Qed.

Lemma rollout_order_witness :
  ∃ j step x, steps_of fleet !! j = Some step ∧ x ∈ observed ∧ Name x = "d1" ∧ selects x step = true ∧
    earlier_steps_healthy fleet after observed observed j.
Proof.
  apply (rollout_order sample_Equal 1000 2000 fleet observed observed may_sync after reported "d1").
  - reflexivity.
  - apply stores_unedited, controller_stores.
  - apply observed_distinct.
  - apply pass_returns_after.
  - left. vm_compute. split; reflexivity.
Defined.

(** The statuses after the first half of the pass *)
Definition waiting : ApplicationSet :=
  {| Strategy := Strategy fleet;
     ApplicationStatus :=
       [status "d1" ProgressiveSyncWaiting "1" "r2"; status "d2" ProgressiveSyncWaiting "1" "r2";
        status "p1" ProgressiveSyncWaiting "2" "r2"] |}.
Definition steps_map : gmap string nat := appStepMap (buildAppDependencyList waiting observed).
Definition promoted_set : ApplicationSet :=
  match UpdateApplicationSetApplicationStatusProgress 1 2000 waiting may_sync steps_map no_issues with
  | Returns (a, _) => a | _ => waiting end.

Lemma max_update_respected_witness :
  updating_in steps_map 0 (ApplicationStatus promoted_set) = 1 ∧
  updating_in steps_map 0 (ApplicationStatus promoted_set) <=
    Z.max (updating_in steps_map 0 (ApplicationStatus waiting))
      (max_update_value (StrVal "50%") (total_in steps_map 0 (ApplicationStatus waiting))).
Proof.
  split; [vm_compute; reflexivity|].
  apply (max_update_respected 1 2000 waiting may_sync observed no_issues promoted_set no_issues 0
    (in_env "dev" (Some (StrVal "50%"))) (StrVal "50%")).
  - reflexivity.
  - apply (bool_decide_unpack _). vm_compute. exact I.
  - vm_compute. reflexivity.
  - reflexivity.
  - reflexivity.
Defined.

Lemma rollout_progresses_witness :
  ∃ toSync a' conds, pass = Returns (toSync, a', conds) ∧
    (has_status (ApplicationStatus a') "d2" ProgressiveSyncWaiting = true →
     1 <= updating_in (appStepMap (buildAppDependencyList fleet observed)) 0 (ApplicationStatus a')).
Proof.
  destruct (rollout_progresses sample_Equal 1000 2000 fleet observed observed)
    as (toSync & a' & conds & Hp & Hprog).
  - reflexivity.
  - apply controller_stores.
  - apply timed_fleet.
  - apply observed_distinct.
  - apply observed_distinct.
  - exists toSync, a', conds. split; [exact Hp|]. intros Hw.
    destruct (Hprog 0%nat (in_env "dev" (Some (StrVal "50%")))
      (app "d2" "dev" "r2" "OutOfSync" HealthStatusHealthy)) as [H|[H|(n & H & _)]].
    + reflexivity.
    + apply list_elem_of_lookup_2 with 1%nat. reflexivity.
    + vm_compute. reflexivity.
    + intros i step x Hi. lia.
    + exact Hw.
    + exact H.
    + discriminate H.
    + discriminate H.
Defined.

(** Revision [r1] was reached before. *)
Definition unstarted : ApplicationSet := {| Strategy := Strategy fleet; ApplicationStatus := [] |}.
Definition healthy_apps : list App :=
  [app "d1" "dev" "r1" "Synced" HealthStatusHealthy; app "p1" "prod" "r1" "Synced" HealthStatusDegraded].
Definition rolled : ApplicationSet :=
  match PerformProgressiveSyncs sample_Equal 10 20 unstarted healthy_apps healthy_apps with
  | Returns (_, a, _) => a | _ => unstarted end.
Definition first_status : ApplicationSetApplicationStatus :=
  default (status "" ProgressiveSyncWaiting "" "") (ApplicationStatus rolled !! 0%nat).

Lemma healthy_was_observed_witness :
  Application first_status = "d1" ∧ StatusCode first_status = ProgressiveSyncHealthy ∧
  ∃ x, x ∈ healthy_apps ++ [] ∧ Name x = Application first_status ∧ SyncStatus x = "Synced" ∧
    HealthCode x = HealthStatusHealthy ∧ TargetRevisions first_status = Some (GetRevisions x).
Proof.
  split; [vm_compute; reflexivity|]. split; [vm_compute; reflexivity|].
  apply (healthy_was_observed sample_Equal rolled (healthy_apps ++ [])).
  - set (r := PerformProgressiveSyncs sample_Equal 10 20 unstarted healthy_apps healthy_apps).
    apply (history_pass sample_Equal unstarted [] 10 20 healthy_apps healthy_apps
      (match r with Returns (s, _, _) => s | _ => ∅ end) rolled
      (match r with Returns (_, _, c) => c | _ => [] end)).
    + apply history_start. reflexivity.
    + vm_compute. reflexivity.
  - apply list_elem_of_lookup_2 with 0%nat. vm_compute. reflexivity.
  - vm_compute. reflexivity.
Defined.
End RolloutSample.

(** ** Behaviours *)

Definition codes_after (a : ApplicationSet) (apps desired : list App) : option (list (string * ProgressiveSyncStatusCode)) :=
  let D := controller (λ _, Stored (Strategy a)) in
  match PerformProgressiveSyncs (D := D) sample_Equal 1000 2000 a apps desired with
  | Returns (_, a, _) => Some ((λ s, (Application s, StatusCode s)) <$> ApplicationStatus a)
  | _ => None
  end.

(** An application that no step selects counts as one of the first step: with a
    limit of one, [d1] is held back as long as [x] is not healthy, although both
    may sync. *)
Module Unselected.
Definition one_step : ApplicationSet :=
  {| Strategy := rolling [in_env "dev" (Some (IntVal 1))]; ApplicationStatus := [] |}.
Definition d1 : App := app "d1" "dev" "r1" "OutOfSync" HealthStatusHealthy.
Definition x : App := app "x" "other" "r1" "Synced" HealthStatusDegraded.

Lemma unselected_app_holds_back :
  appStepMap (buildAppDependencyList one_step [d1; x]) !! "x" = None ∧
  codes_after one_step [d1; x] [d1; x] =
    Some [("d1", ProgressiveSyncWaiting); ("x", ProgressiveSyncProgressing)] ∧
  codes_after one_step [d1] [d1] = Some [("d1", ProgressiveSyncPending)].
Proof. vm_compute. split_and!; reflexivity. Qed.
End Unselected.

(** The stored statuses are compared by code, step and message only.  An
    application that reaches a new revision without leaving Healthy keeps the old
    target revision, so a later drift without any new revision restarts its
    rollout; where the revision had been recorded it would not. *)
Module StaleRevision.
Definition healthy_at (rev : string) : ApplicationSet :=
  {| Strategy := rolling [in_env "dev" None];
     ApplicationStatus :=
       [{| Application := "d1"; LastTransitionTime := Some 0;
           StatusMessage := "Application resource has synced, updating status to Healthy";
           StatusCode := ProgressiveSyncHealthy; StatusStep := "1"; TargetRevisions := Some [rev] |}] |}.
Definition at_r2 (sync : string) : list App := [app "d1" "dev" "r2" sync HealthStatusHealthy].

Definition recorded : option (list (option (list string))) :=
  let D := controller (λ _, Stored (Strategy (healthy_at "r1"))) in
  match PerformProgressiveSyncs (D := D) sample_Equal 1000 2000 (healthy_at "r1") (at_r2 "Synced") (at_r2 "Synced") with
  | Returns (_, a, _) => Some (TargetRevisions <$> ApplicationStatus a)
  | _ => None
  end.

Lemma revision_not_recorded :
  recorded = Some [Some ["r1"]] ∧
  codes_after (healthy_at "r1") (at_r2 "OutOfSync") (at_r2 "OutOfSync") = Some [("d1", ProgressiveSyncPending)] ∧
  codes_after (healthy_at "r2") (at_r2 "OutOfSync") (at_r2 "OutOfSync") = Some [("d1", ProgressiveSyncHealthy)].
Proof. vm_compute. split_and!; reflexivity. Qed.
End StaleRevision.
