(* ===== verification/AppSetSelector.v ===== *)
(** * Label selectors of application sets (src/applicationset/utils/selector.go)

    A copy of the label selectors of Kubernetes that puts no restriction on values, so that
    it can match cluster URLs.  Theorem: what a converted selector matches. *)

From S2P Require Import Prelude GoStd Kube.
Local Open Scope string_scope.
Local Open Scope list_scope.

(** ** Data *)

(** [selection.Operator] *)
Inductive Operator := In | NotIn | Equals | DoubleEquals | NotEquals | Exists | DoesNotExist | GreaterThan | LessThan.

Record Requirement := { key : string; operator : Operator; strValues : list string }.

(** A selector that matches nothing, or the conjunction of requirements *)
Inductive Selector := nothingSelector | internalSelector (requirements : list Requirement).

(** [metav1.LabelSelector]; the operator of an expression is a text. *)
Record LabelSelectorRequirement := { ExprKey : string; ExprOperator : string; ExprValues : list string }.
Record LabelSelector := { MatchLabels : gmap string string; MatchExpressions : list LabelSelectorRequirement }.

(** Why a requirement is refused: its key, or its number of values or one of them *)
Inductive requirement_error := InvalidKey (k : string) | InvalidValues (vals : list string) | InvalidValue (i : nat) (v : string).
Inductive selector_error := InvalidOperator (o : string) | InvalidRequirement (errs : list requirement_error).

(** [validation.IsQualifiedName] of Kubernetes *)
Class LabelKeys : Type := { IsQualifiedName : string → bool }.

Section selectors.
Context {LK : LabelKeys}.

(** ** Matching *)

Definition hasValue (r : Requirement) (value : string) : bool := existsb (String.eqb value) (strValues r).

Definition Requirement_Matches (r : Requirement) (ls : gmap string string) : bool :=
  match operator r with
  | In | Equals | DoubleEquals => match ls !! key r with Some v => hasValue r v | None => false end
  | NotIn | NotEquals => match ls !! key r with Some v => negb (hasValue r v) | None => true end
  | Exists => match ls !! key r with Some _ => true | None => false end
  | DoesNotExist => match ls !! key r with Some _ => false | None => true end
  | GreaterThan | LessThan =>
      match ls !! key r with
      | None => false
      | Some v =>
          match Atoi v, strValues r with
          | Some lsValue, [w] =>
              match Atoi w with
              | Some rValue =>
                  match operator r with GreaterThan => (rValue <? lsValue)%Z | _ => (lsValue <? rValue)%Z end
              | None => false
              end
          | _, _ => false
          end
      end
  end.

Definition Matches (s : Selector) (ls : gmap string string) : bool :=
  match s with
  | nothingSelector => false
  | internalSelector rs => forallb (λ r, Requirement_Matches r ls) rs
  end.

(** ** Construction *)

Definition validateLabelKey (k : string) : list requirement_error := if IsQualifiedName k then [] else [InvalidKey k].

Definition value_errors (op : Operator) (vals : list string) : list requirement_error :=
  match op with
  | In | NotIn => match vals with [] => [InvalidValues vals] | _ => [] end
  | Equals | DoubleEquals | NotEquals => match vals with [_] => [] | _ => [InvalidValues vals] end
  | Exists | DoesNotExist => match vals with [] => [] | _ => [InvalidValues vals] end
  | GreaterThan | LessThan =>
      match vals with [_] => [] | _ => [InvalidValues vals] end ++
      concat (imap (λ i v, match Atoi v with Some _ => [] | None => [InvalidValue i v] end) vals)
  end.

Definition newRequirement (k : string) (op : Operator) (vals : list string) : list requirement_error + Requirement :=
  match validateLabelKey k ++ value_errors op vals with
  | [] => inr {| key := k; operator := op; strValues := vals |}
  | allErrs => inl allErrs
  end.

Context {R : GoRuntime}.

Definition Add (s : Selector) (reqs : list Requirement) : Selector :=
  match s with
  | nothingSelector => nothingSelector
  | internalSelector rs => internalSelector (go_sort (λ a b, string_lt (key a) (key b)) (rs ++ reqs))
  end.

Fixpoint label_requirements (l : list (string * string)) : selector_error + list Requirement :=
  match l with
  | [] => inr []
  | (k, v) :: rest =>
      match newRequirement k Equals [v] with
      | inl errs => inl (InvalidRequirement errs)
      | inr r => match label_requirements rest with inl e => inl e | inr rs => inr (r :: rs) end
      end
  end.

Definition expression_operator (o : string) : option Operator :=
  if String.eqb o "In" then Some In else if String.eqb o "NotIn" then Some NotIn
  else if String.eqb o "Exists" then Some Exists else if String.eqb o "DoesNotExist" then Some DoesNotExist else None.

Fixpoint expression_requirements (l : list LabelSelectorRequirement) : selector_error + list Requirement :=
  match l with
  | [] => inr []
  | expr :: rest =>
      match expression_operator (ExprOperator expr) with
      | None => inl (InvalidOperator (ExprOperator expr))
      | Some op =>
          match newRequirement (ExprKey expr) op (ExprValues expr) with
          | inl errs => inl (InvalidRequirement errs)
          | inr r => match expression_requirements rest with inl e => inl e | inr rs => inr (r :: rs) end
          end
      end
  end.

Definition LabelSelectorAsSelector (ps : option LabelSelector) : selector_error + Selector :=
  match ps with
  | None => inr nothingSelector
  | Some ps =>
      if Nat.eqb (size (MatchLabels ps) + length (MatchExpressions ps)) 0 then inr (internalSelector [])
      else
        match label_requirements (go_range (MatchLabels ps)) with
        | inl e => inl e
        | inr rs =>
            match expression_requirements (MatchExpressions ps) with
            | inl e => inl e
            | inr rs' => inr (Add (internalSelector []) (rs ++ rs'))
            end
        end
  end.
End selectors.

(** ** What a selector says *)

Definition expression_holds (ls : gmap string string) (e : LabelSelectorRequirement) : Prop :=
  (ExprOperator e = "In" ∧ ∃ v, ls !! ExprKey e = Some v ∧ v ∈ ExprValues e) ∨
  (ExprOperator e = "NotIn" ∧ ∀ v, ls !! ExprKey e = Some v → v ∉ ExprValues e) ∨
  (ExprOperator e = "Exists" ∧ is_Some (ls !! ExprKey e)) ∨
  (ExprOperator e = "DoesNotExist" ∧ ls !! ExprKey e = None).

Definition selected (ps : LabelSelector) (ls : gmap string string) : Prop :=
  MatchLabels ps ⊆ ls ∧ Forall (expression_holds ls) (MatchExpressions ps).

Definition expression_valid `{LabelKeys} (e : LabelSelectorRequirement) : Prop :=
  IsQualifiedName (ExprKey e) = true ∧
  ((ExprOperator e ∈ ["In"; "NotIn"] ∧ ExprValues e ≠ []) ∨ (ExprOperator e ∈ ["Exists"; "DoesNotExist"] ∧ ExprValues e = [])).

Definition selector_valid `{LabelKeys} (ps : LabelSelector) : Prop :=
  (∀ k v, MatchLabels ps !! k = Some v → IsQualifiedName k = true) ∧ Forall expression_valid (MatchExpressions ps).

Section proofs.
Context {LK : LabelKeys} {R : GoRuntime}.

Lemma hasValue_spec r v : hasValue r v = true ↔ v ∈ strValues r.
Proof.
  unfold hasValue. rewrite existsb_exists. setoid_rewrite <-list_elem_of_In. split.
  - by intros (x&Hx&->%String.eqb_eq).
  - intros Hv. exists v. by rewrite String.eqb_refl.
Qed.

(** A requirement is built exactly from a proper key and fitting values. *)
Lemma newRequirement_inr k op vals r :
  newRequirement k op vals = inr r ↔
  r = {| key := k; operator := op; strValues := vals |} ∧ IsQualifiedName k = true ∧ value_errors op vals = [].
Proof.
  unfold newRequirement, validateLabelKey. destruct (IsQualifiedName k); cbn [app]; [|naive_solver].
  destruct (value_errors op vals); naive_solver.
Qed.

Lemma label_requirements_inr l rs :
  label_requirements l = inr rs ↔
  rs = (λ '(k, v), {| key := k; operator := Equals; strValues := [v] |}) <$> l ∧ Forall (λ kv, IsQualifiedName kv.1 = true) l.
Proof.
  revert rs. induction l as [|[k v] l IH]; intros rs; cbn [label_requirements fmap list_fmap].
  { split; [intros [= <-]; by split|by intros [-> _]]. }
  rewrite Forall_cons. cbn [fst]. destruct (newRequirement k Equals [v]) as [errs|r] eqn:E.
  - split; [done|]. intros (_&Hk&_). assert (newRequirement k Equals [v] = inr {| key := k; operator := Equals; strValues := [v] |}) as H
      by by apply newRequirement_inr. congruence.
  - apply newRequirement_inr in E as (->&Hk&_). destruct (label_requirements l) as [e|rs'].
    + split; [done|]. intros (->&_&Hl). discriminate (proj2 (IH _) (conj eq_refl Hl)).
    + destruct (proj1 (IH rs') eq_refl) as [-> Hl]. split; [intros [= <-]; done|]. by intros [-> _].
Qed.

Definition expression_requirement (e : LabelSelectorRequirement) : option Requirement :=
  (λ op, {| key := ExprKey e; operator := op; strValues := ExprValues e |}) <$> expression_operator (ExprOperator e).

Lemma expression_operator_Some o op :
  expression_operator o = Some op ↔
  (o = "In" ∧ op = In) ∨ (o = "NotIn" ∧ op = NotIn) ∨ (o = "Exists" ∧ op = Exists) ∨ (o = "DoesNotExist" ∧ op = DoesNotExist).
Proof.
  unfold expression_operator. destruct (String.eqb_spec o "In") as [->|]; [naive_solver|].
  destruct (String.eqb_spec o "NotIn") as [->|]; [naive_solver|].
  destruct (String.eqb_spec o "Exists") as [->|]; [naive_solver|].
  destruct (String.eqb_spec o "DoesNotExist") as [->|]; naive_solver.
Qed.

Lemma expression_valid_spec e :
  expression_valid e ↔ ∃ op, expression_operator (ExprOperator e) = Some op ∧ IsQualifiedName (ExprKey e) = true ∧
    value_errors op (ExprValues e) = [].
Proof.
  unfold expression_valid. setoid_rewrite expression_operator_Some. split.
  - intros (Hk&[[Ho Hv]|[Ho Hv]]); apply list_elem_of_In in Ho; cbn in Ho; destruct Ho as [<-|[<-|[]]].
    + exists In. cbn. by destruct (ExprValues e); [|tauto].
    + exists NotIn. cbn. by destruct (ExprValues e); [|tauto].
    + exists Exists. rewrite Hv. cbn. tauto.
    + exists DoesNotExist. rewrite Hv. cbn. tauto.
  - intros (op&[[-> ->]|[[-> ->]|[[-> ->]|[-> ->]]]]&Hk&Hv); (split; [done|]).
    + left. split; [set_solver|]. cbn in Hv. by destruct (ExprValues e).
    + left. split; [set_solver|]. cbn in Hv. by destruct (ExprValues e).
    + right. split; [set_solver|]. cbn in Hv. by destruct (ExprValues e).
    + right. split; [set_solver|]. cbn in Hv. by destruct (ExprValues e).
Qed.

Lemma expression_requirements_inr l rs :
  expression_requirements l = inr rs ↔ Forall2 (λ e r, expression_requirement e = Some r) l rs ∧ Forall expression_valid l.
Proof.
  revert rs. induction l as [|e l IH]; intros rs; cbn [expression_requirements].
  { split; [intros [= <-]; by split; constructor|]. by intros [->%Forall2_nil_inv_l _]. }
  rewrite Forall_cons, expression_valid_spec. unfold expression_requirement at 1.
  destruct (expression_operator (ExprOperator e)) as [op|] eqn:Eo; [|naive_solver].
  destruct (newRequirement (ExprKey e) op (ExprValues e)) as [errs|r] eqn:E.
  { split; [done|]. intros (_&(op'&[= <-]&Hk&Hv)&_).
    assert (newRequirement (ExprKey e) op (ExprValues e) = inr {| key := ExprKey e; operator := op; strValues := ExprValues e |}) as H
      by by apply newRequirement_inr. congruence. }
  apply newRequirement_inr in E as (->&Hk&Hv). destruct (expression_requirements l) as [e'|rs'].
  - split; [done|]. intros (H2&_&Hl). apply Forall2_cons_inv_l in H2 as (r&rs'&_&H2&->).
    discriminate (proj2 (IH rs') (conj H2 Hl)).
  - destruct (proj1 (IH rs') eq_refl) as [H2 Hl]. split.
    + intros [= <-]. split; [constructor; [by rewrite Eo|exact H2]|]. split; [by exists op|exact Hl].
    + intros (H2'&_&_). apply Forall2_cons_inv_l in H2' as (r&rs''&Hr&H2'&->). rewrite Eo in Hr. injection Hr as <-.
      pose proof (proj2 (IH rs'') (conj H2' Hl)) as [= ->]. done.
Qed.

Lemma label_matches k v ls :
  Requirement_Matches {| key := k; operator := Equals; strValues := [v] |} ls = true ↔ ls !! k = Some v.
Proof.
  unfold Requirement_Matches. cbn [operator key]. destruct (ls !! k) as [w|]; [|done].
  rewrite hasValue_spec. cbn [strValues]. rewrite list_elem_of_singleton. naive_solver.
Qed.

Lemma expression_matches e r ls : expression_requirement e = Some r → Requirement_Matches r ls = true ↔ expression_holds ls e.
Proof.
  unfold expression_requirement, expression_holds, Requirement_Matches. intros (op&Ho&->)%fmap_Some. apply expression_operator_Some in Ho.
  cbn [operator key].
  destruct Ho as [[-> ->]|[[-> ->]|[[-> ->]|[-> ->]]]]; destruct (ls !! ExprKey e) as [v|];
    rewrite ?negb_true_iff, <-?not_true_iff_false, ?hasValue_spec; cbn [strValues]; naive_solver.
Qed.

Lemma Matches_perm rs rs' ls : rs ≡ₚ rs' → Matches (internalSelector rs) ls = Matches (internalSelector rs') ls.
Proof.
  intros Hp. apply eq_true_iff_eq. cbn. rewrite !forallb_forall. setoid_rewrite <-list_elem_of_In. by setoid_rewrite Hp.
Qed.

Definition label_requirement : string * string → Requirement := λ '(k, v), {| key := k; operator := Equals; strValues := [v] |}.

Lemma convert_valid ps : (∃ s, LabelSelectorAsSelector (Some ps) = inr s) ↔ selector_valid ps.
Proof.
  unfold LabelSelectorAsSelector, selector_valid. destruct (Nat.eqb_spec (size (MatchLabels ps) + length (MatchExpressions ps)) 0) as [Hz|Hz].
  - split; [intros _|by eexists]. assert (length (MatchExpressions ps) = 0) as Hx0 by lia. assert (MatchLabels ps = ∅) as -> by (apply map_size_empty_iff; lia).
    split; [done|]. apply length_zero_iff_nil in Hx0 as ->. by apply Forall_nil.
  - assert ((∀ k v, MatchLabels ps !! k = Some v → IsQualifiedName k = true) ↔
      Forall (λ kv, IsQualifiedName kv.1 = true) (go_range (MatchLabels ps))) as ->.
    { rewrite Forall_forall. setoid_rewrite <-elem_of_go_range. split; [intros H [k v]; apply H|intros H k v; apply (H (k, v))]. }
    destruct (label_requirements (go_range (MatchLabels ps))) as [e|rs] eqn:El.
    { split; [by intros [? ?]|]. intros [Hl _]. pose proof (proj2 (label_requirements_inr _ _) (conj eq_refl Hl)). congruence. }
    apply label_requirements_inr in El as [_ Hl].
    destruct (expression_requirements (MatchExpressions ps)) as [e|rs'] eqn:Ee.
    + split; [by intros [? ?]|]. intros [_ He].
      assert (∃ rs, Forall2 (λ e r, expression_requirement e = Some r) (MatchExpressions ps) rs) as [rs' H2].
      { clear -He. induction He as [|x l Hx _ [rs IH]]; [by eexists|]. apply expression_valid_spec in Hx as (op&Ho&_).
        eexists (_ :: rs). constructor; [|exact IH]. unfold expression_requirement. by rewrite Ho. }
      pose proof (proj2 (expression_requirements_inr _ _) (conj H2 He)). congruence.
    + apply expression_requirements_inr in Ee as [_ He]. split; [done|by eexists].
Qed.

Lemma convert_requirements ps s :
  LabelSelectorAsSelector (Some ps) = inr s →
  ∃ reqs rs, s = internalSelector reqs ∧ reqs ≡ₚ (label_requirement <$> go_range (MatchLabels ps)) ++ rs ∧
    Forall2 (λ e r, expression_requirement e = Some r) (MatchExpressions ps) rs.
Proof.
  unfold LabelSelectorAsSelector. destruct (Nat.eqb_spec (size (MatchLabels ps) + length (MatchExpressions ps)) 0) as [Hz|Hz].
  - intros [= <-]. exists [], []. assert (MatchLabels ps = ∅) as -> by (apply map_size_empty_iff; lia). split; [done|]. split.
    + pose proof (go_range_perm (∅ : gmap string string)) as Hp. rewrite map_to_list_empty in Hp. apply Permutation_nil_r in Hp. by rewrite Hp.
    + assert (length (MatchExpressions ps) = 0) as Hx0 by lia. apply length_zero_iff_nil in Hx0 as ->. by apply Forall2_nil.
  - destruct (label_requirements _) as [e|rs] eqn:El; [done|]. apply label_requirements_inr in El as [-> _].
    destruct (expression_requirements _) as [e|rs'] eqn:Ee; [done|]. apply expression_requirements_inr in Ee as [H2 _].
    intros [= <-]. eexists _, rs'. split; [done|]. split; [|done]. by rewrite go_sort_perm.
Qed.

Lemma convert_matches ps s ls : LabelSelectorAsSelector (Some ps) = inr s → Matches s ls = true ↔ selected ps ls.
Proof.
  intros (reqs&rs&->&Hp&H2)%convert_requirements. rewrite (Matches_perm _ _ ls Hp). cbn [Matches].
  rewrite forallb_app, andb_true_iff, !forallb_forall. setoid_rewrite <-list_elem_of_In. unfold selected. f_equiv.
  - rewrite map_subseteq_spec. split.
    + intros H k v Hk. apply label_matches. apply (H (label_requirement (k, v))), list_elem_of_fmap_2, elem_of_go_range, Hk.
    + intros H r ([k v]&->&Hk%elem_of_go_range)%list_elem_of_fmap. by apply label_matches, H.
  - rewrite Forall_forall. split.
    + intros H e He. destruct (list_elem_of_lookup_1 _ _ He) as [i Hi]. destruct (Forall2_lookup_l _ _ _ _ _ H2 Hi) as (r&Hr&Er).
      apply (expression_matches _ _ _ Er), H. by eapply list_elem_of_lookup_2.
    + intros H r Hr. destruct (list_elem_of_lookup_1 _ _ Hr) as [i Hi]. destruct (Forall2_lookup_r _ _ _ _ _ H2 Hi) as (e&He&Er).
      apply (expression_matches _ _ _ Er), H. by eapply list_elem_of_lookup_2.
Qed.

(** C29. A label selector converts exactly if its keys are proper names and its expressions have
    known operators with fitting values, and then it matches the labels that have all its
    labels with their values and satisfy all its expressions, in whatever order maps are
    walked and requirements sorted.  No selector at all matches nothing. *)
Theorem LabelSelectorAsSelector_correct (ps : LabelSelector) :
  ((∃ s, LabelSelectorAsSelector (Some ps) = inr s) ↔ selector_valid ps) ∧
  (∀ s ls, LabelSelectorAsSelector (Some ps) = inr s → Matches s ls = true ↔ selected ps ls) ∧
  (∃ s, LabelSelectorAsSelector None = inr s ∧ ∀ ls, Matches s ls = false).
Proof.
  split; [apply convert_valid|]. split; [|by exists nothingSelector]. intros s ls. apply convert_matches.
Qed.
End proofs.
