(* ===== verification/AppSetTypes.v ===== *)
(** * Application sets: data (src/pkg/apis/application/v1alpha1/applicationset_types.go, types.go)

    Parameters, generators with their two levels of nesting, templates, applications and
    application sets, as far as the application set controller reads or writes them. *)

From S2P Require Import Prelude GoStd GoTime Kube SyncCommon Health Rollout AppSetSelector.
Local Open Scope string_scope.
Local Open Scope list_scope.
Local Open Scope Z_scope.

(** ** Parameters

    A value of type [any]: what JSON and YAML decode to (numbers are float64, here whole
    numbers of at most 2^53 in absolute value, which these hold exactly), and the maps of
    strings that generators put there.  The keys of a map are different. *)
Inductive value :=
  | VNull
  | VBool (b : bool)
  | VNum (n : Z)
  | VStr (s : string)
  | VStrMap (m : list (string * string))
  | VMap (m : list (string * value))
  | VList (l : list value).

(** [map[string]any] *)
Notation params := (gmap string value).

Fixpoint value_tree (v : value) : gen_tree (bool + (Z + string)) :=
  match v with
  | VNull => GenNode 0 []
  | VBool b => GenLeaf (inl b)
  | VNum n => GenLeaf (inr (inl n))
  | VStr s => GenLeaf (inr (inr s))
  | VStrMap m => GenNode 1 (map (λ e, GenNode 4 [GenLeaf (inr (inr e.1)); GenLeaf (inr (inr e.2))]) m)
  | VMap m => GenNode 2 (map (λ e, GenNode 4 [GenLeaf (inr (inr e.1)); value_tree e.2]) m)
  | VList l => GenNode 3 (map value_tree l)
  end.

Fixpoint tree_value (t : gen_tree (bool + (Z + string))) : value :=
  match t with
  | GenLeaf (inl b) => VBool b
  | GenLeaf (inr (inl n)) => VNum n
  | GenLeaf (inr (inr s)) => VStr s
  | GenNode 1 l => VStrMap (map (λ t, match t with
      | GenNode _ [GenLeaf (inr (inr k)); GenLeaf (inr (inr s))] => (k, s) | _ => ("", "") end) l)
  | GenNode 2 l => VMap (map (λ t, match t with
      | GenNode _ [GenLeaf (inr (inr k)); t] => (k, tree_value t) | _ => ("", VNull) end) l)
  | GenNode 3 l => VList (map tree_value l)
  | GenNode _ _ => VNull
  end.

Lemma tree_value_tree : ∀ v, tree_value (value_tree v) = v.
Proof.
  fix IH 1. intros [|b|n|s|m|m|l]; cbn; try reflexivity; f_equal; rewrite map_map.
  - induction m as [|[k s] m IHm]; cbn; [reflexivity|]. f_equal. exact IHm.
  - induction m as [|[k v] m IHm]; cbn; [reflexivity|]. rewrite IH. f_equal. exact IHm.
  - induction l as [|v l IHl]; cbn; [reflexivity|]. rewrite IH. f_equal. exact IHl.
Qed.

#[export] Instance value_eq_dec : EqDecision value.
Proof. intros x y. destruct (decide (value_tree x = value_tree y)) as [E|E]; [left|right; congruence].
  by rewrite <-(tree_value_tree x), <-(tree_value_tree y), E. Defined.
#[export] Instance value_countable : Countable value := inj_countable' value_tree tree_value tree_value_tree.

(** ** Applications *)

(** Helm and Kustomize options: the fields that [IsZero] looks at, where they are set, and
    the others *)
Record SourceOptions := { CountingFields : list (string * string); OtherFields : list (string * string) }.
(** [Jsonnet]: external variables, top-level arguments, libraries *)
Record ApplicationSourceDirectory := {
  Recurse : bool;
  Jsonnet : list string * list string * list string;
  Exclude : string;
  Include : string;
}.
Record ApplicationSource := {
  SourceFields : list (string * string);
  Helm : option SourceOptions;
  Kustomize : option SourceOptions;
  Directory : option ApplicationSourceDirectory;
}.
Record ApplicationDestination := { DestServer : string; DestNamespace : string; DestName : string }.

(** [OtherSpec] stands for the fields that are only compared. *)
Record ApplicationSpec := {
  Project : string;
  Destination : ApplicationDestination;
  Source : option ApplicationSource;
  Sources : list ApplicationSource;
  AppSyncPolicy : option Rollout.SyncPolicy;
  ManagedNamespaceMetadata : option string;
  OtherSpec : string;
}.

Record OwnerReference := { OwnerAPIVersion : string; OwnerKind : string; OwnerName : string; OwnerUID : string; OwnerController : bool }.

Record ApplicationStatus := {
  AppSyncStatus : string;
  AppRevision : string;
  AppRevisions : list string;
  AppHealth : HealthStatusCode;
  AppReconciledAt : option Z;
  AppPhase : option (OperationPhase * Z);
  AppConditionTypes : list string;
}.

Record Application := {
  AppName : string;
  AppNamespace : string;
  AppLabels : gmap string string;
  AppAnnotations : gmap string string;
  AppFinalizers : list string;
  AppOwners : list OwnerReference;
  AppSpec : ApplicationSpec;
  AppOperation : option Rollout.Operation;
  AppStatus : ApplicationStatus;
}.

#[export] Instance SourceOptions_eq_dec : EqDecision SourceOptions.
Proof. solve_decision. Defined.
#[export] Instance ApplicationSourceDirectory_eq_dec : EqDecision ApplicationSourceDirectory.
Proof. solve_decision. Defined.
#[export] Instance ApplicationSource_eq_dec : EqDecision ApplicationSource.
Proof. solve_decision. Defined.
#[export] Instance ApplicationDestination_eq_dec : EqDecision ApplicationDestination.
Proof. solve_decision. Defined.
#[export] Instance RetryStrategy_eq_dec : EqDecision Rollout.RetryStrategy.
Proof. solve_decision. Defined.
#[export] Instance SyncPolicyAutomated_eq_dec : EqDecision Rollout.SyncPolicyAutomated.
Proof. solve_decision. Defined.
#[export] Instance SyncPolicy_eq_dec : EqDecision Rollout.SyncPolicy.
Proof. solve_decision. Defined.
#[export] Instance Operation_eq_dec : EqDecision Rollout.Operation.
Proof. solve_decision. Defined.
#[export] Instance ApplicationSpec_eq_dec : EqDecision ApplicationSpec.
Proof. solve_decision. Defined.
#[export] Instance OwnerReference_eq_dec : EqDecision OwnerReference.
Proof. solve_decision. Defined.
#[export] Instance ApplicationStatus_eq_dec : EqDecision ApplicationStatus.
Proof. solve_decision. Defined.
#[export] Instance Application_eq_dec : EqDecision Application.
Proof. solve_decision. Defined.

Definition QualifiedName (app : Application) : string :=
  if String.eqb (AppNamespace app) "" then AppName app else AppNamespace app +:+ "/" +:+ AppName app.

(** *** Normalization of specifications (src/util/cd/cd.go) *)

Definition SourceOptions_IsZero (o : SourceOptions) : bool := match CountingFields o with [] => true | _ => false end.
Definition Directory_IsZero (d : ApplicationSourceDirectory) : bool :=
  negb (Recurse d) && bool_decide (Jsonnet d = ([], [], [])).

Definition drop_zero (o : option SourceOptions) : option SourceOptions :=
  o ≫= λ o, if SourceOptions_IsZero o then None else Some o.

Definition NormalizeSource (source : ApplicationSource) : ApplicationSource :=
  {| SourceFields := SourceFields source;
     Helm := drop_zero (Helm source);
     Kustomize := drop_zero (Kustomize source);
     Directory :=
       match Directory source with
       | Some d =>
           if Directory_IsZero d then
             if negb (String.eqb (Exclude d) "") || negb (String.eqb (Include d) "")
             then Some {| Recurse := false; Jsonnet := ([], [], []); Exclude := Exclude d; Include := Include d |}
             else None
           else Some d
       | None => None
       end |}.

Definition DefaultAppProjectName : string := "default".

Definition SyncPolicy_IsZero (p : option Rollout.SyncPolicy) (managed : option string) : bool :=
  match p with
  | None => true
  | Some p =>
      bool_decide (AutomatedPolicy p = None) && bool_decide (default [] (SyncOptions p) = []) &&
      bool_decide (Retry p = None) && bool_decide (managed = None)
  end.

(** A list of sources stays as it is: the loop normalizes copies, and only the pointer
    fields of the copies change. *)
Definition NormalizeApplicationSpec (spec : ApplicationSpec) : ApplicationSpec :=
  let zero := SyncPolicy_IsZero (AppSyncPolicy spec) (ManagedNamespaceMetadata spec) in
  {| Project := if String.eqb (Project spec) "" then DefaultAppProjectName else Project spec;
     Destination := Destination spec;
     Source := match Sources spec with [] => NormalizeSource <$> Source spec | _ => Source spec end;
     Sources := Sources spec;
     AppSyncPolicy := if zero then None else AppSyncPolicy spec;
     ManagedNamespaceMetadata := if zero then None else ManagedNamespaceMetadata spec;
     OtherSpec := OtherSpec spec |}.

(** *** What progressive sync sees of an application

    [print] renders the fields of a specification that are only compared. *)
Definition rollout_app (print : ApplicationSpec → string) (app : Application) : App :=
  {| Name := AppName app; Labels := AppLabels app;
     Spec := {| SpecSyncPolicy := AppSyncPolicy (AppSpec app); SpecFields := print (AppSpec app) |};
     SyncStatus := AppSyncStatus (AppStatus app); SyncRevision := AppRevision (AppStatus app);
     SyncRevisions := AppRevisions (AppStatus app); HealthCode := AppHealth (AppStatus app);
     ReconciledAt := AppReconciledAt (AppStatus app); AppOperationState := AppPhase (AppStatus app);
     AppConditions := AppConditionTypes (AppStatus app); Rollout.AppOperation := AppOperation app |}.

Definition with_policy (p : option Rollout.SyncPolicy) (s : ApplicationSpec) : ApplicationSpec :=
  {| Project := Project s; Destination := Destination s; Source := Source s; Sources := Sources s; AppSyncPolicy := p;
     ManagedNamespaceMetadata := ManagedNamespaceMetadata s; OtherSpec := OtherSpec s |}.

(** The fields that progressive sync sets *)
Definition with_rollout (app : Application) (r : App) : Application :=
  {| AppName := AppName app; AppNamespace := AppNamespace app; AppLabels := AppLabels app; AppAnnotations := AppAnnotations app;
     AppFinalizers := AppFinalizers app; AppOwners := AppOwners app; AppSpec := with_policy (SpecSyncPolicy (Spec r)) (AppSpec app);
     AppOperation := Rollout.AppOperation r; AppStatus := AppStatus app |}.

(** ** Generators *)

Record ApplicationSetTemplate := {
  TemplateName : string;
  TemplateNamespace : string;
  TemplateLabels : gmap string string;
  TemplateAnnotations : gmap string string;
  TemplateFinalizers : list string;
  TemplateSpec : ApplicationSpec;
}.

(** Elements are raw JSON. *)
Record ListGenerator := { Elements : list string; ListTemplate : ApplicationSetTemplate; ElementsYaml : string }.
Record ClusterGenerator := {
  ClusterSelector : LabelSelector;
  ClusterTemplate : ApplicationSetTemplate;
  ClusterValues : gmap string string;
  FlatList : bool;
}.
(** The fields of the label selector are nil or not. *)
Record DuckTypeGenerator := {
  ConfigMapRef : string;
  DuckName : string;
  RequeueAfterSeconds : option Z;
  DuckMatchLabels : option (gmap string string);
  DuckMatchExpressions : option (list LabelSelectorRequirement);
  DuckTemplate : ApplicationSetTemplate;
  DuckValues : gmap string string;
}.
(** The generators that ask repositories, providers and plugins *)
Record external_spec := { ExternalTemplate : ApplicationSetTemplate; ExternalFields : list (string * string) }.

(** The fields that generators of all levels have *)
Record terminal_fields := {
  List : option ListGenerator;
  Clusters : option ClusterGenerator;
  Git : option external_spec;
  SCMProvider : option external_spec;
  ClusterDecisionResource : option DuckTypeGenerator;
  PullRequest : option external_spec;
  Plugin : option external_spec;
}.

Record ApplicationSetTerminalGenerator := { Terminal_fields : terminal_fields; TerminalSelector : option LabelSelector }.
(** [Matrix] and [Merge] are raw JSON. *)
Record ApplicationSetNestedGenerator := {
  Nested_fields : terminal_fields;
  NestedMatrix : option string;
  NestedMerge : option string;
  NestedSelector : option LabelSelector;
}.
Record NestedMatrixGenerator := { NMGenerators : list ApplicationSetTerminalGenerator }.
Record NestedMergeGenerator := { NGGenerators : list ApplicationSetTerminalGenerator; NGMergeKeys : list string }.
Record MatrixGenerator := { MatrixGenerators : list ApplicationSetNestedGenerator; MatrixTemplate : ApplicationSetTemplate }.
Record MergeGenerator := {
  MergeGenerators : list ApplicationSetNestedGenerator;
  MergeKeys : list string;
  MergeTemplate : ApplicationSetTemplate;
}.
Record ApplicationSetGenerator := {
  Top_fields : terminal_fields;
  Matrix : option MatrixGenerator;
  Merge : option MergeGenerator;
  TopSelector : option LabelSelector;
}.

#[export] Instance LabelSelectorRequirement_eq_dec : EqDecision LabelSelectorRequirement.
Proof. solve_decision. Defined.
#[export] Instance LabelSelector_eq_dec : EqDecision LabelSelector.
Proof. solve_decision. Defined.
#[export] Instance ApplicationSetTemplate_eq_dec : EqDecision ApplicationSetTemplate.
Proof. solve_decision. Defined.
#[export] Instance ListGenerator_eq_dec : EqDecision ListGenerator.
Proof. solve_decision. Defined.
#[export] Instance ClusterGenerator_eq_dec : EqDecision ClusterGenerator.
Proof. solve_decision. Defined.
#[export] Instance DuckTypeGenerator_eq_dec : EqDecision DuckTypeGenerator.
Proof. solve_decision. Defined.
#[export] Instance external_spec_eq_dec : EqDecision external_spec.
Proof. solve_decision. Defined.
#[export] Instance terminal_fields_eq_dec : EqDecision terminal_fields.
Proof. solve_decision. Defined.
#[export] Instance ApplicationSetNestedGenerator_eq_dec : EqDecision ApplicationSetNestedGenerator.
Proof. solve_decision. Defined.
#[export] Instance MatrixGenerator_eq_dec : EqDecision MatrixGenerator.
Proof. solve_decision. Defined.
#[export] Instance MergeGenerator_eq_dec : EqDecision MergeGenerator.
Proof. solve_decision. Defined.
#[export] Instance ApplicationSetGenerator_eq_dec : EqDecision ApplicationSetGenerator.
Proof. solve_decision. Defined.

Definition no_spec : ApplicationSpec :=
  {| Project := ""; Destination := {| DestServer := ""; DestNamespace := ""; DestName := "" |}; Source := None; Sources := [];
     AppSyncPolicy := None; ManagedNamespaceMetadata := None; OtherSpec := "" |}.
Definition no_template : ApplicationSetTemplate :=
  {| TemplateName := ""; TemplateNamespace := ""; TemplateLabels := ∅; TemplateAnnotations := ∅; TemplateFinalizers := [];
     TemplateSpec := no_spec |}.

Definition toApplicationSetNestedGenerators (g : list ApplicationSetTerminalGenerator) : list ApplicationSetNestedGenerator :=
  (λ t, {| Nested_fields := Terminal_fields t; NestedMatrix := None; NestedMerge := None; NestedSelector := TerminalSelector t |}) <$> g.
Definition ToMatrixGenerator (g : NestedMatrixGenerator) : MatrixGenerator :=
  {| MatrixGenerators := toApplicationSetNestedGenerators (NMGenerators g); MatrixTemplate := no_template |}.
Definition ToMergeGenerator (g : NestedMergeGenerator) : MergeGenerator :=
  {| MergeGenerators := toApplicationSetNestedGenerators (NGGenerators g); MergeKeys := NGMergeKeys g; MergeTemplate := no_template |}.

(** ** Application sets *)

Inductive ApplicationsSyncPolicy :=
  | ApplicationsSyncPolicyCreateOnly | ApplicationsSyncPolicyCreateUpdate | ApplicationsSyncPolicyCreateDelete
  | ApplicationsSyncPolicySync | OtherPolicy (s : string).

Definition AllowUpdate (p : ApplicationsSyncPolicy) : bool :=
  match p with ApplicationsSyncPolicyCreateUpdate | ApplicationsSyncPolicySync => true | _ => false end.
Definition AllowDelete (p : ApplicationsSyncPolicy) : bool :=
  match p with ApplicationsSyncPolicySync | ApplicationsSyncPolicyCreateDelete => true | _ => false end.

Record ApplicationSetSyncPolicy := { PreserveResourcesOnDeletion : bool; ApplicationsSync : option ApplicationsSyncPolicy }.

#[export] Instance ApplicationsSyncPolicy_eq_dec : EqDecision ApplicationsSyncPolicy.
Proof. solve_decision. Defined.
#[export] Instance ApplicationSetSyncPolicy_eq_dec : EqDecision ApplicationSetSyncPolicy.
Proof. solve_decision. Defined.
#[export] Instance IntOrString_eq_dec : EqDecision Rollout.IntOrString.
Proof. solve_decision. Defined.
#[export] Instance ApplicationMatchExpression_eq_dec : EqDecision Rollout.ApplicationMatchExpression.
Proof. solve_decision. Defined.
#[export] Instance ApplicationSetRolloutStep_eq_dec : EqDecision Rollout.ApplicationSetRolloutStep.
Proof. solve_decision. Defined.
#[export] Instance ApplicationSetStrategy_eq_dec : EqDecision Rollout.ApplicationSetStrategy.
Proof. solve_decision. Defined.
#[export] Instance ApplicationSetApplicationStatus_eq_dec : EqDecision Rollout.ApplicationSetApplicationStatus.
Proof. solve_decision. Defined.

Record SetCondition := {
  CondType : string;
  CondMessage : string;
  CondTime : option Z;
  CondStatus : string;
  CondReason : string;
}.

Record ResourceStatus := { ResName : string; ResNamespace : string; ResSync : string; ResHealth : HealthStatusCode }.

(** Conditions, health, resources and their number *)
Record set_status := {
  StatusConditions : list SetCondition;
  StatusHealth : HealthStatusCode * string;
  StatusResources : list ResourceStatus;
  StatusResourcesCount : Z;
}.

(** [SetRollout] has the strategy and the statuses of the applications. *)
Record AppSet := {
  SetName : string;
  SetNamespace : string;
  SetLabels : gmap string string;
  SetAnnotations : gmap string string;
  SetFinalizers : list string;
  SetDeletionTimestamp : option Z;
  SetGenerators : list ApplicationSetGenerator;
  SetTemplate : ApplicationSetTemplate;
  SetTemplatePatch : option string;
  GoTemplate : bool;
  GoTemplateOptions : list string;
  SetSyncPolicy : option ApplicationSetSyncPolicy;
  PreservedAnnotations : list string;
  PreservedLabels : list string;
  IgnoreApplicationDifferences : list string;
  SetRollout : Rollout.ApplicationSet;
  SetStatus : set_status;
}.

(** What the controller changes of a set *)
Definition with_set (annotations : gmap string string) (finalizers : list string) (rollout : Rollout.ApplicationSet) (status : set_status)
    (s : AppSet) : AppSet :=
  {| SetName := SetName s; SetNamespace := SetNamespace s; SetLabels := SetLabels s; SetAnnotations := annotations;
     SetFinalizers := finalizers; SetDeletionTimestamp := SetDeletionTimestamp s; SetGenerators := SetGenerators s;
     SetTemplate := SetTemplate s; SetTemplatePatch := SetTemplatePatch s; GoTemplate := GoTemplate s;
     GoTemplateOptions := GoTemplateOptions s; SetSyncPolicy := SetSyncPolicy s; PreservedAnnotations := PreservedAnnotations s;
     PreservedLabels := PreservedLabels s; IgnoreApplicationDifferences := IgnoreApplicationDifferences s;
     SetRollout := rollout; SetStatus := status |}.

Definition with_set_finalizers (fs : list string) (s : AppSet) : AppSet := with_set (SetAnnotations s) fs (SetRollout s) (SetStatus s) s.
Definition with_set_annotations (m : gmap string string) (s : AppSet) : AppSet := with_set m (SetFinalizers s) (SetRollout s) (SetStatus s) s.
Definition with_set_status (st : set_status) (s : AppSet) : AppSet := with_set (SetAnnotations s) (SetFinalizers s) (SetRollout s) st s.
Definition with_statuses (l : list ApplicationSetApplicationStatus) (s : AppSet) : AppSet :=
  with_set (SetAnnotations s) (SetFinalizers s) {| Strategy := Strategy (SetRollout s); Rollout.ApplicationStatus := l |} (SetStatus s) s.

(** The specification of a set *)
Definition set_spec (s : AppSet) :=
  (SetGenerators s, SetTemplate s, SetTemplatePatch s, GoTemplate s, GoTemplateOptions s, SetSyncPolicy s,
   (PreservedAnnotations s, PreservedLabels s, IgnoreApplicationDifferences s, Strategy (SetRollout s))).
