(* ===== verification/AppSetGenerators.v ===== *)
(** * Generators of application sets (src/applicationset/generators, template and utils)

    Generators turn a specification into sets of parameters: lists, clusters, clusters that
    other resources decide on, and the two combinations [Matrix] and [Merge], which nest
    once more.  [Transform] runs the generators
    of one specification, and [GenerateApplications] renders the applications of all. *)

From S2P Require Import Prelude GoStd GoMatch GoTime Kube SyncCommon Health AppSetSelector AppSetTypes.
From Stdlib Require Import Ascii.
Local Open Scope string_scope.
Local Open Scope list_scope.

(** ** Results: a value, an error, or a panic (of a type assertion, or of a generator that
    is not registered) *)

Inductive generator_error :=
  | ErrEmptyAppSetGenerator | ErrLessThanTwoGenerators | ErrMoreThanTwoGenerators | ErrMoreThenOneInnerGenerators
  | ErrLessThanTwoGeneratorsInMerge | ErrNoMergeKeys | ErrNonUniqueParamSets (key : list (string * value))
  | ErrDuplicateKey (key a b : string) | ErrNoParameters | ErrElement (text : string) | ErrSelector (e : selector_error)
  | ErrFrom (part text : string).

Inductive res (A : Type) := Ok (a : A) | Err (e : generator_error) | Panic.
Arguments Ok {_} _.
Arguments Err {_} _.
Arguments Panic {_}.

#[export] Instance res_ret : MRet res := λ A a, Ok a.
#[export] Instance res_bind : MBind res := λ A B f m,
  match m with Ok a => f a | Err e => Err e | Panic => Panic end.

Fixpoint mapR {A B} (f : A → res B) (l : list A) : res (list B) :=
  match l with
  | [] => Ok []
  | x :: rest => y ← f x; ys ← mapR f rest; Ok (y :: ys)
  end.

(** ** Libraries

    Third-party: [mergo], [flatten], YAML and the template engines; of the program, the
    replacement of texts all over a Go structure by reflection ([deeplyReplace]) and the
    strategic merge patch of an application, neither of which looks at names or namespaces. *)
Class AppSetLibs : Type := {
  (** [mergo.Merge] of templates (fills what is empty), and of parameters with override *)
  mergo_template : ApplicationSetTemplate → ApplicationSetTemplate → generator_error + ApplicationSetTemplate;
  mergo_params : params → params → generator_error + params;
  flatten : params → generator_error + params;
  json_object : string → option params;
  yaml_objects : string → option (list params);
  json_matrix : string → option NestedMatrixGenerator;
  json_merge : string → option NestedMergeGenerator;
  fasttemplate : string → (string → string) → option string;
  go_template : list string → string → params → option string;
  replace_generator : bool → list string → params → ApplicationSetGenerator → generator_error + ApplicationSetGenerator;
  replace_application : bool → list string → params → Application → generator_error + Application;
  strategic_patch : Application → string → generator_error + Application;
}.

Definition of_sum {A} (r : generator_error + A) : res A := match r with inl e => Err e | inr a => Ok a end.
Definition of_option {A} (e : generator_error) (o : option A) : res A := match o with Some a => Ok a | None => Err e end.

(** ** Texts *)

Fixpoint trim_zeros (s : string) : string :=
  match s with
  | "" => ""
  | String c r => match trim_zeros r with
                  | "" => if Ascii.eqb c "0"%char then "" else String c ""
                  | t => String c t
                  end
  end.

(** A float64 that is a whole number, as [%v] prints it: with the exponent from 1e+06 on *)
Definition sprint_number (n : Z) : string :=
  let digits := pretty (Z.abs n) in
  let exp := Nat.pred (String.length digits) in
  let text :=
    if Nat.ltb exp 6 then digits
    else match trim_zeros digits with
         | "" => ""
         | String d "" => String d ""
         | String d rest => String d ("." +:+ rest)
         end +:+ "e+" +:+ (if Nat.ltb exp 10 then "0" else "") +:+ pretty exp in
  if Z.ltb n 0 then "-" +:+ text else text.

(** [fmt.Sprintf("%v", x)]; maps print with sorted keys. *)
Fixpoint sprint_with (number : Z → string) (v : value) : string :=
  match v with
  | VNull => "<nil>"
  | VBool b => if b then "true" else "false"
  | VNum n => number n
  | VStr s => s
  | VStrMap m =>
      "map[" +:+ Join ((λ '(k, s), k +:+ ":" +:+ s) <$> insertion_sort (λ x y, string_lt x.1 y.1) m) " " +:+ "]"
  | VMap m =>
      "map[" +:+ Join ((λ '(k, s), k +:+ ":" +:+ s) <$>
        insertion_sort (λ x y, string_lt x.1 y.1) (map (λ e, (e.1, sprint_with number e.2)) m)) " " +:+ "]"
  | VList l => "[" +:+ Join (map (sprint_with number) l) " " +:+ "]"
  end.

Definition sprint : value → string := sprint_with sprint_number.
(** In resources that a dynamic client has read, whole numbers are int64. *)
Definition sprint_resource : value → string := sprint_with (λ n, pretty n).

Definition ConvertToMapStringString (m : params) : gmap string string := sprint <$> m.

(** Names of ASCII characters *)
Definition dns_char (c : ascii) : bool :=
  let n := nat_of_ascii c in
  (Nat.leb 97 n && Nat.leb n 122) || (Nat.leb 48 n && Nat.leb n 57) || Nat.eqb n 45 || Nat.eqb n 46.
Fixpoint replace_invalid (s : string) : string :=
  match s with "" => "" | String c r => String (if dns_char c then c else "-"%char) (replace_invalid r) end.
Fixpoint trim_left_chars (s : string) : string :=
  match s with
  | String c r => if (Ascii.eqb c "-"%char || Ascii.eqb c "."%char)%bool then trim_left_chars r else s
  | "" => ""
  end.
Definition SanitizeName (name : string) : string :=
  let name := replace_invalid (ToLower name) in
  let name := String.substring 0 253 name in
  string_rev (trim_left_chars (string_rev (trim_left_chars name))).

(** What follows the first occurrence of a text *)
Fixpoint after_text (sep s : string) : option string :=
  match CutPrefix sep s with
  | Some r => Some r
  | None => match s with String _ r => after_text sep r | "" => None end
  end.

(** [isTemplatedRegex]: a line has braces that open and close. *)
Definition is_templated (tmpl : string) : bool :=
  existsb (λ line, match after_text "{{" line with Some r => Contains r "}}" | None => false end) (Split tmpl "010"%char).

Section generators.
Context {R : GoRuntime} {L : AppSetLibs} {LK : LabelKeys}.

Definition replacement (replaceMap : params) (tag : string) : string :=
  let trimmedTag := TrimSpace tag in
  match replaceMap !! trimmedTag with
  | Some (VStr replacement) => if String.eqb trimmedTag "" then "{{" +:+ tag +:+ "}}" else replacement
  | _ => "{{" +:+ tag +:+ "}}"
  end.

Definition Replace (tmpl : string) (replaceMap : params) (useGoTemplate : bool) (options : list string) : res string :=
  if useGoTemplate then of_option (ErrFrom "template" tmpl) (go_template options tmpl replaceMap)
  else if negb (is_templated tmpl) then Ok tmpl
  else of_option (ErrFrom "template" tmpl) (fasttemplate tmpl (replacement replaceMap)).

(** The values are rendered from the parameters as they were, then added to them. *)
Fixpoint templated_values (values : list (string * string)) (p : params) (useGoTemplate : bool) (options : list string) :
    res (list (string * string)) :=
  match values with
  | [] => Ok []
  | (key, v) :: rest =>
      result ← Replace v p useGoTemplate options;
      rest ← templated_values rest p useGoTemplate options;
      Ok ((key, result) :: rest)
  end.

Definition appendTemplatedValues (values : gmap string string) (p : params) (useGoTemplate : bool) (options : list string) :
    res params :=
  tmp ← templated_values (go_range values) p useGoTemplate options;
  Ok (if useGoTemplate then match tmp with [] => p | _ => <["values" := VStrMap tmp]> p end
      else list_to_map ((λ '(k, r), ("values." +:+ k, VStr r)) <$> tmp) ∪ p).

(** ** The interface of generators *)

Record Generator := {
  GenerateParams : ApplicationSetGenerator → AppSet → res (list params);
  (** [None] is a panic: the field of the generator is nil, or one in it is not registered. *)
  GetRequeueAfter : ApplicationSetGenerator → option Z;
  GetTemplate : ApplicationSetGenerator → option ApplicationSetTemplate;
}.

Definition NoRequeueAfter : Z := 0.

Inductive generator_kind :=
  | KList | KClusters | KGit | KSCMProvider | KClusterDecisionResource | KPullRequest | KMatrix | KMerge | KPlugin.

#[export] Instance generator_kind_eq_dec : EqDecision generator_kind.
Proof. solve_decision. Defined.

(** The fields that are set, of those that generators of all levels have *)
Definition fields_set (f : terminal_fields) (k : generator_kind) : bool :=
  match k with
  | KList => bool_decide (is_Some (List f))
  | KClusters => bool_decide (is_Some (Clusters f))
  | KGit => bool_decide (is_Some (Git f))
  | KSCMProvider => bool_decide (is_Some (SCMProvider f))
  | KClusterDecisionResource => bool_decide (is_Some (ClusterDecisionResource f))
  | KPullRequest => bool_decide (is_Some (PullRequest f))
  | KPlugin => bool_decide (is_Some (Plugin f))
  | KMatrix | KMerge => false
  end.

(** The fields of the struct, in order, that are set; the selector is not a generator. *)
Definition field_set (g : ApplicationSetGenerator) (k : generator_kind) : bool :=
  match k with
  | KMatrix => bool_decide (is_Some (Matrix g))
  | KMerge => bool_decide (is_Some (Merge g))
  | k => fields_set (Top_fields g) k
  end.

Definition generator_fields : list generator_kind :=
  [KList; KClusters; KGit; KSCMProvider; KClusterDecisionResource; KPullRequest; KMatrix; KMerge; KPlugin].

(** A generator that is not in the map is nil. *)
Definition GetRelevantGenerators (requestedGenerator : ApplicationSetGenerator) (generators : generator_kind → option Generator) :
    list (option Generator) :=
  generators <$> List.filter (field_set requestedGenerator) generator_fields.

(** ** Transform *)

Record TransformResult := { Params : list params; Template : ApplicationSetTemplate }.

(** Maps of strings become maps of any values. *)
Fixpoint normalize_value (v : value) : value :=
  match v with
  | VStrMap m => VMap (map (λ e, (e.1, VStr e.2)) m)
  | VMap m => VMap (map (λ e, (e.1, normalize_value e.2)) m)
  | v => v
  end.
Definition normalizeMapForFlatten (m : params) : params := normalize_value <$> m.

Definition flattenParameters (m : params) : res (gmap string string) :=
  match flatten (normalizeMapForFlatten m) with
  | inl e => Err e
  | inr flat => Ok (sprint <$> flat)
  end.

Definition mergeGeneratorTemplate (g : Generator) (requestedGenerator : ApplicationSetGenerator) (template : ApplicationSetTemplate) :
    res ApplicationSetTemplate :=
  match GetTemplate g requestedGenerator with
  | None => Panic
  | Some dest => of_sum (mergo_template dest template)
  end.

Definition RenderGeneratorParams (gen : ApplicationSetGenerator) (p : params) (useGoTemplate : bool) (options : list string) :
    res ApplicationSetGenerator :=
  if bool_decide (p = ∅) then Ok gen else of_sum (replace_generator useGoTemplate options p gen).

Definition note_error (firstError : option generator_error) (e : generator_error) : option generator_error :=
  match firstError with Some e' => Some e' | None => Some e end.

(** The parameters that the selector lets pass; one that cannot be flattened is dropped,
    and its error kept if it is the first. *)
Fixpoint filter_params (selector : Selector) (selects : bool) (ps : list params) (firstError : option generator_error) :
    res (list params * option generator_error) :=
  match ps with
  | [] => Ok ([], firstError)
  | param :: rest =>
      match flattenParameters param with
      | Panic => Panic
      | Err e => filter_params selector selects rest (note_error firstError e)
      | Ok flatParam =>
          if selects && negb (Matches selector flatParam) then filter_params selector selects rest firstError
          else '(rest, e) ← filter_params selector selects rest firstError; Ok (param :: rest, e)
      end
  end.

Fixpoint transform_loop (generators : list (option Generator)) (requestedGenerator : ApplicationSetGenerator) (selector : Selector)
    (baseTemplate : ApplicationSetTemplate) (appSet : AppSet) (genParams : params) (firstError : option generator_error) :
    res (list TransformResult * option generator_error) :=
  let next := λ generators, transform_loop generators requestedGenerator selector baseTemplate appSet genParams in
  match generators with
  | [] => Ok ([], firstError)
  | None :: _ => Panic
  | Some g :: rest =>
      match mergeGeneratorTemplate g requestedGenerator baseTemplate with
      | Panic => Panic
      | Err e => next rest (note_error firstError e)
      | Ok mergedTemplate =>
          match RenderGeneratorParams requestedGenerator genParams (GoTemplate appSet) (GoTemplateOptions appSet) with
          | Panic => Panic
          | Err e => next rest (note_error firstError e)
          | Ok interpolatedGenerator =>
              match GenerateParams g interpolatedGenerator appSet with
              | Panic => Panic
              | Err e => next rest (note_error firstError e)
              | Ok ps =>
                  '(filterParams, firstError) ←
                    filter_params selector (bool_decide (is_Some (TopSelector requestedGenerator))) ps firstError;
                  '(results, e) ← next rest firstError;
                  Ok ({| Params := filterParams; Template := mergedTemplate |} :: results, e)
              end
          end
      end
  end.

Definition Transform (requestedGenerator : ApplicationSetGenerator) (allGenerators : generator_kind → option Generator)
    (baseTemplate : ApplicationSetTemplate) (appSet : AppSet) (genParams : params) :
    res (list TransformResult * option generator_error) :=
  match LabelSelectorAsSelector (TopSelector requestedGenerator) with
  | inl e => Ok ([], Some (ErrSelector e))
  | inr selector =>
      transform_loop (GetRelevantGenerators requestedGenerator allGenerators) requestedGenerator selector baseTemplate appSet genParams None
  end.

(** ** List *)

Definition as_string (v : value) : res string := match v with VStr s => Ok s | _ => Err (ErrElement "error parsing value as string") end.

(** An element without Go templates: texts, and the map [values] with texts *)
Fixpoint element_params (element : list (string * value)) (p : params) : res params :=
  match element with
  | [] => Ok p
  | (key, v) :: rest =>
      p ← (if String.eqb key "values" then
             match v with
             | VMap values =>
                 texts ← mapR (λ '(k, v), s ← as_string v; Ok ("values." +:+ k, VStr s)) (go_range (list_to_map values : gmap string value));
                 Ok (foldl (λ p '(k, v), <[k := v]> p) p texts)
             | VNull | _ => Err (ErrElement "error parsing values map")
             end
           else s ← as_string v; Ok (<[key := VStr s]> p));
      element_params rest p
  end.

Definition list_element (useGoTemplate : bool) (raw : string) : res params :=
  match json_object raw with
  | None => Err (ErrElement "error unmarshling list element")
  | Some element => if useGoTemplate then Ok element else element_params (go_range element) ∅
  end.

Definition ListGenerateParams (g : ApplicationSetGenerator) (appSet : AppSet) : res (list params) :=
  match List (Top_fields g) with
  | None => Err ErrEmptyAppSetGenerator
  | Some l =>
      elements ← mapR (list_element (GoTemplate appSet)) (Elements l);
      if String.eqb (ElementsYaml l) "" then Ok elements
      else
        yamlElements ← of_option (ErrElement "error unmarshling decoded ElementsYaml") (yaml_objects (ElementsYaml l));
        Ok (elements ++ yamlElements)
  end.

Definition NewListGenerator : Generator :=
  {| GenerateParams := ListGenerateParams; GetRequeueAfter := λ _, Some NoRequeueAfter;
     GetTemplate := λ g, ListTemplate <$> List (Top_fields g) |}.

(** ** Clusters *)

(** A cluster secret *)
Record Secret := { SecretLabels : gmap string string; SecretAnnotations : gmap string string; Data : gmap string string }.

Definition LabelKeySecretType : string := "apps.hanzo.ai/secret-type".
Definition LabelValueSecretTypeCluster : string := "cluster".
Definition KubernetesInClusterName : string := "in-cluster".
Definition KubernetesInternalAPIServerAddr : string := "https://kubernetes.default.svc".

Definition SecretsContainInClusterCredentials (secrets : list Secret) : bool :=
  existsb (λ s, String.eqb (default "" (Data s !! "server")) KubernetesInternalAPIServerAddr) secrets.

Section clusters.
(** The secrets in the namespace of the controller that a selector of Kubernetes matches *)
Context (list_secrets : LabelSelector → generator_error + list Secret).

(** Of clusters with one name the last one counts. *)
Definition getSecretsByClusterName (g : ClusterGenerator) : res (gmap string Secret) :=
  let selector :=
    {| MatchLabels := <[LabelKeySecretType := LabelValueSecretTypeCluster]> (MatchLabels (ClusterSelector g));
       MatchExpressions := MatchExpressions (ClusterSelector g) |} in
  secrets ← of_sum (list_secrets selector);
  Ok (foldl (λ m s, <[default "" (Data s !! "name") := s]> m) ∅ secrets).

Definition getClusterParameters (cluster : Secret) (appSet : AppSet) : params :=
  let name := default "" (Data cluster !! "name") in
  let p := {["name" := VStr name; "nameNormalized" := VStr (SanitizeName name);
             "server" := VStr (default "" (Data cluster !! "server")); "project" := VStr (default "" (Data cluster !! "project"))]} in
  if GoTemplate appSet then
    let meta :=
      (if bool_decide (SecretAnnotations cluster = ∅) then [] else [("annotations", VStrMap (map_to_list (SecretAnnotations cluster)))]) ++
      (if bool_decide (SecretLabels cluster = ∅) then [] else [("labels", VStrMap (map_to_list (SecretLabels cluster)))]) in
    <["metadata" := VMap meta]> p
  else
    foldl (λ p '(k, v), <["metadata.labels." +:+ k := VStr v]> p)
      (foldl (λ p '(k, v), <["metadata.annotations." +:+ k := VStr v]> p) p (go_range (SecretAnnotations cluster)))
      (go_range (SecretLabels cluster)).

Definition local_cluster_params : params :=
  {["name" := VStr KubernetesInClusterName; "nameNormalized" := VStr KubernetesInClusterName;
    "server" := VStr KubernetesInternalAPIServerAddr; "project" := VStr ""]}.

(** [FlatList] puts all parameter sets into one. *)
Definition consolidate (isFlatMode : bool) (ps : list params) : list params :=
  if isFlatMode then [{["clusters" := VList ((λ p : params, VMap (map_to_list p)) <$> ps)]}] else ps.

Definition ClusterGenerateParams (g : ApplicationSetGenerator) (appSet : AppSet) : res (list params) :=
  match Clusters (Top_fields g) with
  | None => Err ErrEmptyAppSetGenerator
  | Some c =>
      let ignoreLocalClusters :=
        negb (Nat.eqb (length (MatchExpressions (ClusterSelector c))) 0) || negb (Nat.eqb (size (MatchLabels (ClusterSelector c))) 0) in
      let values p := appendTemplatedValues (ClusterValues c) p (GoTemplate appSet) (GoTemplateOptions appSet) in
      clusterSecrets ← getSecretsByClusterName c;
      ps ← mapR (λ '(_, cluster), values (getClusterParameters cluster appSet)) (go_range clusterSecrets);
      local ← (if negb ignoreLocalClusters && negb (SecretsContainInClusterCredentials (snd <$> go_range clusterSecrets))
               then p ← values local_cluster_params; Ok [p] else Ok []);
      Ok (consolidate (FlatList c) (ps ++ local))
  end.

Definition NewClusterGenerator : Generator :=
  {| GenerateParams := ClusterGenerateParams; GetRequeueAfter := λ _, Some NoRequeueAfter;
     GetTemplate := λ g, ClusterTemplate <$> Clusters (Top_fields g) |}.
End clusters.

(** ** Clusters that other resources decide on (duck_type.go) *)

Record ClusterSpecifier := { SpecifierName : string; SpecifierServer : string }.

(** The clusters of the informer, and the local one if none has its address *)
Definition with_in_cluster (clusters : list ClusterSpecifier) : list ClusterSpecifier :=
  if existsb (λ c, String.eqb (SpecifierServer c) KubernetesInternalAPIServerAddr) clusters then clusters
  else clusters ++ [{| SpecifierName := KubernetesInClusterName; SpecifierServer := KubernetesInternalAPIServerAddr |}].

(** Resources are asked for by their name or by a selector. *)
Inductive selection := ByName (name : string) | ByLabels (selector : LabelSelector).

(** What the generator asks: config maps and resources of the namespace of the controller,
    and the time set in the environment *)
Record decision_resources := {
  config_map : string → generator_error + gmap string string;
  list_resources : string → string → string → selection → generator_error + list (gmap string value);
  default_requeue : Z;
}.

Definition entry (key : string) (m : list (string * value)) : option value :=
  snd <$> List.find (λ e, String.eqb e.1 key) m.

(** The group and the version of an API, split at the first slash; [None]: no group *)
Definition split_api_version (apiVersion : string) : option (string * string) :=
  match Split apiVersion "/"%char with
  | "" :: _ | [_] | [] => None
  | group :: version => Some (group, Join version "/")
  end.

Definition duck_selection (c : DuckTypeGenerator) : option selection :=
  match DuckMatchLabels c, DuckMatchExpressions c with
  | None, None => if String.eqb (DuckName c) "" then None else Some (ByName (DuckName c))
  | labels, exprs =>
      if String.eqb (DuckName c) "" then Some (ByLabels {| MatchLabels := default ∅ labels; MatchExpressions := default [] exprs |})
      else None
  end.

(** The decisions in the status of a resource: the type assertions panic. *)
Definition status_decisions (statusListKey : string) (duckResource : gmap string value) : res (list value) :=
  match duckResource !! "status" with
  | None | Some VNull | Some (VMap []) => Ok []
  | Some (VMap status) => match entry statusListKey status with Some (VList l) => Ok l | _ => Panic end
  | Some _ => Panic
  end.

Definition buildClusterDecisions (duckResources : list (gmap string value)) (statusListKey : string) : res (list value) :=
  decisions ← mapR (status_decisions statusListKey) duckResources;
  Ok (concat decisions).

Definition findCluster (clustersFromArgoCD : list ClusterSpecifier) (cluster : value) (matchKey : string) :
    res (option ClusterSpecifier) :=
  match cluster with
  | VMap decision =>
      match entry matchKey decision with
      | None | Some VNull => Ok None
      | Some matchValue =>
          if String.eqb (sprint_resource matchValue) "" then Ok None
          else Ok (List.find (λ c, String.eqb (SpecifierName c) (sprint_resource matchValue)) clustersFromArgoCD)
      end
  | _ => Panic
  end.

(** With Go templates [values] must be a map of texts if it is there already. *)
Definition collectParams (useGoTemplate : bool) (p : params) (key v : string) : res params :=
  if useGoTemplate then
    match p !! "values" with
    | None | Some VNull => Ok (<["values" := VStrMap [(key, v)]]> p)
    | Some (VStrMap m) => Ok (<["values" := VStrMap (List.filter (λ e, negb (String.eqb e.1 key)) m ++ [(key, v)])]> p)
    | Some _ => Panic
    end
  else Ok (<["values." +:+ key := VStr v]> p).

Fixpoint collect_values (useGoTemplate : bool) (values : list (string * string)) (p : params) : res params :=
  match values with
  | [] => Ok p
  | (key, v) :: rest => p ← collectParams useGoTemplate p key v; collect_values useGoTemplate rest p
  end.

Definition decision_params (c : DuckTypeGenerator) (appSet : AppSet) (clustersFromArgoCD : list ClusterSpecifier) (matchKey : string)
    (clusterDecision : value) : res (option params) :=
  cluster ← findCluster clustersFromArgoCD clusterDecision matchKey;
  match cluster, clusterDecision with
  | None, _ => Ok None
  | Some cluster, VMap decision =>
      let p : params := {["name" := VStr (SpecifierName cluster); "server" := VStr (SpecifierServer cluster)]} in
      let p := foldl (λ p '(k, v), <[k := VStr (sprint_resource v)]> p) p (go_range (list_to_map decision : gmap string value)) in
      p ← collect_values (GoTemplate appSet) (go_range (DuckValues c)) p;
      Ok (Some p)
  | Some _, _ => Panic
  end.

Definition bad_decision (text : string) : generator_error := ErrFrom "clusterDecisionResource" text.
Definition default_text (d s : string) : string := if String.eqb s "" then d else s.

Section decisions.
Context (informed : generator_error + list ClusterSpecifier) (asked : decision_resources).

(** The resources of the kind that the config map names; none is an error. *)
Definition find_resources (c : DuckTypeGenerator) (cm : gmap string string) : res (list (gmap string value)) :=
  let kind := default "" (cm !! "kind") in
  if String.eqb kind "" then Err (bad_decision "there is a problem with the apiVersion, kind or resourceName provided")
  else
    match split_api_version (default "" (cm !! "apiVersion")) with
    | None => Err (bad_decision "there is a problem with the apiVersion, kind or resourceName provided")
    | Some (group, version) =>
        match duck_selection c with
        | None => Err (bad_decision "there is a problem with the definition of the ClusterDecisionResource generator")
        | Some by_what =>
            duckResources ← of_sum (list_resources asked group version kind by_what);
            match duckResources with
            | [] => Err (bad_decision "no clusterDecisionResources found")
            | _ => Ok duckResources
            end
        end
    end.

Definition DuckTypeGenerateParams (g : ApplicationSetGenerator) (appSet : AppSet) : res (list params) :=
  match ClusterDecisionResource (Top_fields g) with
  | None => Err ErrEmptyAppSetGenerator
  | Some c =>
      clusters ← of_sum informed;
      cm ← of_sum (config_map asked (ConfigMapRef c));
      duckResources ← find_resources c cm;
      let matchKey := default "" (cm !! "matchKey") in
      if String.eqb matchKey "" then Ok []
      else
        clusterDecisions ← buildClusterDecisions duckResources (default_text "clusters" (default "" (cm !! "statusListKey")));
        sets ← mapR (decision_params c appSet (with_in_cluster clusters) matchKey) clusterDecisions;
        Ok (omap (M := list) id sets)
  end.

Definition NewDuckTypeGenerator : Generator :=
  {| GenerateParams := DuckTypeGenerateParams;
     GetRequeueAfter := λ g, (λ c, match RequeueAfterSeconds c with
                                   | Some n => wrap64 (n * Second)
                                   | None => default_requeue asked
                                   end) <$> ClusterDecisionResource (Top_fields g);
     GetTemplate := λ g, DuckTemplate <$> ClusterDecisionResource (Top_fields g) |}.
End decisions.

(** ** Combinations *)

Section combinations.
Context (supportedGenerators : generator_kind → option Generator).

Definition getMatrixGenerator (r : ApplicationSetNestedGenerator) : res (option MatrixGenerator) :=
  match NestedMatrix r with
  | None => Ok None
  | Some raw => m ← of_option (ErrFrom "matrix" raw) (json_matrix raw); Ok (Some (ToMatrixGenerator m))
  end.
Definition getMergeGenerator (r : ApplicationSetNestedGenerator) : res (option MergeGenerator) :=
  match NestedMerge r with
  | None => Ok None
  | Some raw => m ← of_option (ErrFrom "merge" raw) (json_merge raw); Ok (Some (ToMergeGenerator m))
  end.

(** A nested generator as one of the top level, and its only list of parameters *)
Definition getParams (appSetBaseGenerator : ApplicationSetNestedGenerator) (appSet : AppSet) (p : params) : res (list params) :=
  matrixGen ← getMatrixGenerator appSetBaseGenerator;
  mergeGen ← getMergeGenerator appSetBaseGenerator;
  '(t, err) ← Transform
    {| Top_fields := Nested_fields appSetBaseGenerator; Matrix := matrixGen; Merge := mergeGen;
       TopSelector := NestedSelector appSetBaseGenerator |} supportedGenerators no_template appSet p;
  match err, t with
  | Some e, _ => Err e
  | None, [] => Err ErrNoParameters
  | None, [r] => Ok (Params r)
  | None, _ => Err ErrMoreThenOneInnerGenerators
  end.

Definition ok_or_none {A} (r : res (option A)) : option A := match r with Ok o => o | _ => None end.

Definition requeue_times (base : ApplicationSetGenerator) (generators : generator_kind → option Generator) : list (option Z) :=
  (λ g : option Generator, g ≫= λ g, GetRequeueAfter g base) <$> GetRelevantGenerators base generators.

Definition nested_base (r : ApplicationSetNestedGenerator) : ApplicationSetGenerator :=
  {| Top_fields := Nested_fields r; Matrix := ok_or_none (getMatrixGenerator r); Merge := ok_or_none (getMergeGenerator r);
     TopSelector := None |}.

(** The smallest time that a nested generator asks for *)
Definition nested_requeue (nested : list ApplicationSetNestedGenerator) : option Z :=
  times ← mapM id (concat ((λ r, requeue_times (nested_base r) supportedGenerators) <$> nested));
  let '(res, found) := foldl (λ '(res, found) temp,
    if ((temp <? res) && negb (temp =? NoRequeueAfter))%Z then (temp, true) else (res, found)) (int_max, false) times in
  Some (if found : bool then res else NoRequeueAfter).

(** *** Matrix *)

(** [CombineStringMaps]: texts of both, which must agree where both have one *)
Fixpoint combine_loop (b : list (string * string)) (acc : gmap string string) : res (gmap string string) :=
  match b with
  | [] => Ok acc
  | (k, v) :: rest =>
      match acc !! k with
      | Some current => if String.eqb current v then combine_loop rest (<[k := v]> acc) else Err (ErrDuplicateKey k current v)
      | None => combine_loop rest (<[k := v]> acc)
      end
  end.

Definition CombineStringMaps (a b : params) : res params :=
  acc ← combine_loop (go_range (ConvertToMapStringString b)) (ConvertToMapStringString a);
  Ok (fmap (M := gmap string) VStr acc).

(** With Go templates the second set is put into an empty map and the first over it. *)
Definition combine (useGoTemplate : bool) (a b : params) : res params :=
  if useGoTemplate then tmp ← of_sum (mergo_params ∅ b); of_sum (mergo_params tmp a)
  else CombineStringMaps a b.

Definition MatrixGenerateParams (g : ApplicationSetGenerator) (appSet : AppSet) : res (list params) :=
  match Matrix g with
  | None => Err ErrEmptyAppSetGenerator
  | Some m =>
      match MatrixGenerators m with
      | [first; second] =>
          g0 ← getParams first appSet ∅;
          combined ← mapR (λ a, g1 ← getParams second appSet a; mapR (combine (GoTemplate appSet) a) g1) g0;
          Ok (concat combined)
      | [] | [_] => Err ErrLessThanTwoGenerators
      | _ => Err ErrMoreThanTwoGenerators
      end
  end.

Definition NewMatrixGenerator : Generator :=
  {| GenerateParams := MatrixGenerateParams;
     GetRequeueAfter := λ g, m ← Matrix g; nested_requeue (MatrixGenerators m);
     GetTemplate := λ g, MatrixTemplate <$> Matrix g |}.

(** *** Merge *)

(** JSON does not tell maps of strings from maps of any values, and sorts their keys. *)
Fixpoint canonical (v : value) : value :=
  match v with
  | VStrMap m => VMap (insertion_sort (λ x y, string_lt x.1 y.1) (map (λ e, (e.1, VStr e.2)) m))
  | VMap m => VMap (insertion_sort (λ x y, string_lt x.1 y.1) (map (λ e, (e.1, canonical e.2)) m))
  | VList l => VList (map canonical l)
  | v => v
  end.

(** The values at the merge keys, as they are in JSON: a missing value is null. *)
Definition merge_key (mergeKeys : list string) (paramSet : params) : params :=
  list_to_map ((λ k, (k, canonical (default VNull (paramSet !! k)))) <$> mergeKeys).

Fixpoint keyed_loop (mergeKeys : list string) (paramSets : list params) (acc : gmap params params) : res (gmap params params) :=
  match paramSets with
  | [] => Ok acc
  | paramSet :: rest =>
      let k := merge_key mergeKeys paramSet in
      if bool_decide (is_Some (acc !! k)) then Err (ErrNonUniqueParamSets (map_to_list k))
      else keyed_loop mergeKeys rest (<[k := paramSet]> acc)
  end.

Definition getParamSetsByMergeKey (mergeKeys : list string) (paramSets : list params) : res (gmap params params) :=
  match mergeKeys with [] => Err ErrNoMergeKeys | _ => keyed_loop mergeKeys paramSets ∅ end.

(** The later set over the base set *)
Definition override (useGoTemplate : bool) (base overriding : params) : res params :=
  if useGoTemplate then of_sum (mergo_params base overriding) else Ok (overriding ∪ base).

Fixpoint merge_matching (useGoTemplate : bool) (overrides : gmap params params) (base : list (params * params)) (acc : gmap params params) :
    res (gmap params params) :=
  match base with
  | [] => Ok acc
  | (k, baseParamSet) :: rest =>
      match overrides !! k with
      | Some overrideParamSet =>
          p ← override useGoTemplate baseParamSet overrideParamSet;
          merge_matching useGoTemplate overrides rest (<[k := p]> acc)
      | None => merge_matching useGoTemplate overrides rest acc
      end
  end.

Fixpoint merge_loop (useGoTemplate : bool) (mergeKeys : list string) (paramSetsFromGenerators : list (list params)) (base : gmap params params) :
    res (gmap params params) :=
  match paramSetsFromGenerators with
  | [] => Ok base
  | paramSets :: rest =>
      overrides ← getParamSetsByMergeKey mergeKeys paramSets;
      base ← merge_matching useGoTemplate overrides (go_range base) base;
      merge_loop useGoTemplate mergeKeys rest base
  end.

Definition MergeGenerateParams (g : ApplicationSetGenerator) (appSet : AppSet) : res (list params) :=
  match Merge g with
  | None => Err ErrEmptyAppSetGenerator
  | Some m =>
      if Nat.ltb (length (MergeGenerators m)) 2 then Err ErrLessThanTwoGeneratorsInMerge
      else
        paramSetsFromGenerators ← mapR (λ g, getParams g appSet ∅) (MergeGenerators m);
        base ← getParamSetsByMergeKey (MergeKeys m) (default [] (head paramSetsFromGenerators));
        merged ← merge_loop (GoTemplate appSet) (MergeKeys m) (tail paramSetsFromGenerators) base;
        Ok (snd <$> go_range merged)
  end.

Definition NewMergeGenerator : Generator :=
  {| GenerateParams := MergeGenerateParams;
     GetRequeueAfter := λ g, m ← Merge g; nested_requeue (MergeGenerators m);
     GetTemplate := λ g, MergeTemplate <$> Merge g |}.
End combinations.

(** ** The registered generators

    The generators that ask repositories, providers and plugins are parameters. *)
Section registered.
Context (list_secrets : LabelSelector → generator_error + list Secret) (informed : generator_error + list ClusterSpecifier)
  (asked : decision_resources) (external : generator_kind → Generator).

Definition terminalGenerators (k : generator_kind) : option Generator :=
  match k with
  | KList => Some NewListGenerator
  | KClusters => Some (NewClusterGenerator list_secrets)
  | KClusterDecisionResource => Some (NewDuckTypeGenerator informed asked)
  | KMatrix | KMerge => None
  | k => Some (external k)
  end.

Definition nestedGenerators (k : generator_kind) : option Generator :=
  match k with
  | KMatrix => Some (NewMatrixGenerator terminalGenerators)
  | KMerge => Some (NewMergeGenerator terminalGenerators)
  | k => terminalGenerators k
  end.

Definition GetGenerators (k : generator_kind) : option Generator :=
  match k with
  | KMatrix => Some (NewMatrixGenerator nestedGenerators)
  | KMerge => Some (NewMergeGenerator nestedGenerators)
  | k => terminalGenerators k
  end.
End registered.

(** ** Applications (src/applicationset/controllers/template) *)

Definition ResourcesFinalizerName : string := "resources-finalizer.apps.hanzo.ai".

Definition no_status : ApplicationStatus :=
  {| AppSyncStatus := ""; AppRevision := ""; AppRevisions := []; AppHealth := HealthStatusNone; AppReconciledAt := None;
     AppPhase := None; AppConditionTypes := [] |}.

Definition GetTempApplication (t : ApplicationSetTemplate) : Application :=
  {| AppName := TemplateName t; AppNamespace := TemplateNamespace t; AppLabels := TemplateLabels t;
     AppAnnotations := TemplateAnnotations t; AppFinalizers := TemplateFinalizers t; AppOwners := []; AppSpec := TemplateSpec t;
     AppOperation := None; AppStatus := no_status |}.

Definition with_finalizers (fs : list string) (app : Application) : Application :=
  {| AppName := AppName app; AppNamespace := AppNamespace app; AppLabels := AppLabels app; AppAnnotations := AppAnnotations app;
     AppFinalizers := fs; AppOwners := AppOwners app; AppSpec := AppSpec app; AppOperation := AppOperation app; AppStatus := AppStatus app |}.

(** No parameters leave the template as it is, without the finalizer as well. *)
Definition RenderTemplateParams (tmpl : Application) (appSet : AppSet) (p : params) : res Application :=
  if bool_decide (p = ∅) then Ok tmpl
  else
    replacedTmpl ← of_sum (replace_application (GoTemplate appSet) (GoTemplateOptions appSet) p tmpl);
    Ok (if negb (match SetSyncPolicy appSet with Some s => PreserveResourcesOnDeletion s | None => false end) &&
           Nat.eqb (length (AppFinalizers replacedTmpl)) 0
        then with_finalizers [ResourcesFinalizerName] replacedTmpl else replacedTmpl).

Definition with_project (project : string) (app : Application) : Application :=
  let s := AppSpec app in
  {| AppName := AppName app; AppNamespace := AppNamespace app; AppLabels := AppLabels app; AppAnnotations := AppAnnotations app;
     AppFinalizers := AppFinalizers app; AppOwners := AppOwners app;
     AppSpec := {| Project := project; Destination := Destination s; Source := Source s; Sources := Sources s;
                   AppSyncPolicy := AppSyncPolicy s; ManagedNamespaceMetadata := ManagedNamespaceMetadata s; OtherSpec := OtherSpec s |};
     AppOperation := AppOperation app; AppStatus := AppStatus app |}.

Definition applyTemplatePatch (app : Application) (templatePatch : string) : res Application :=
  finalApp ← of_sum (strategic_patch app templatePatch);
  Ok (with_project (Project (AppSpec app)) finalApp).

Definition renderTemplatePatch (app : Application) (appSet : AppSet) (templatePatch : string) (p : params) : res Application :=
  replacedTemplate ← Replace templatePatch p (GoTemplate appSet) (GoTemplateOptions appSet);
  applyTemplatePatch app replacedTemplate.

Definition with_namespace (ns : string) (app : Application) : Application :=
  {| AppName := AppName app; AppNamespace := ns; AppLabels := AppLabels app; AppAnnotations := AppAnnotations app;
     AppFinalizers := AppFinalizers app; AppOwners := AppOwners app; AppSpec := AppSpec app; AppOperation := AppOperation app;
     AppStatus := AppStatus app |}.

Definition render_app (appSet : AppSet) (t : ApplicationSetTemplate) (p : params) : res Application :=
  app ← RenderTemplateParams (GetTempApplication t) appSet p;
  app ← match SetTemplatePatch appSet with
        | Some patch => renderTemplatePatch app appSet patch p
        | None => Ok app
        end;
  Ok (with_namespace (SetNamespace appSet) app).

Inductive reason := ParamsGenerationError | RenderTemplateParamsError.

Definition note_failure (first : option (generator_error * reason)) (e : generator_error) (r : reason) : option (generator_error * reason) :=
  match first with Some x => Some x | None => Some (e, r) end.

(** The applications that could be generated, and the first error *)
Fixpoint render_all (appSet : AppSet) (l : list (ApplicationSetTemplate * params)) (first : option (generator_error * reason)) :
    res (list Application * option (generator_error * reason)) :=
  match l with
  | [] => Ok ([], first)
  | (t, p) :: rest =>
      match render_app appSet t p with
      | Panic => Panic
      | Err e => render_all appSet rest (note_failure first e RenderTemplateParamsError)
      | Ok app => '(apps, first) ← render_all appSet rest first; Ok (app :: apps, first)
      end
  end.

Fixpoint generate_loop (g : generator_kind → option Generator) (appSet : AppSet) (requested : list ApplicationSetGenerator)
    (first : option (generator_error * reason)) : res (list Application * option (generator_error * reason)) :=
  match requested with
  | [] => Ok ([], first)
  | requestedGenerator :: rest =>
      '(t, err) ← Transform requestedGenerator g (SetTemplate appSet) appSet ∅;
      match err with
      | Some e => generate_loop g appSet rest (note_failure first e ParamsGenerationError)
      | None =>
          '(apps, first) ← render_all appSet (concat ((λ a, (Template a,.) <$> Params a) <$> t)) first;
          '(more, first) ← generate_loop g appSet rest first;
          Ok (apps ++ more, first)
      end
  end.

Definition GenerateApplications (g : generator_kind → option Generator) (appSet : AppSet) :
    res (list Application * option (generator_error * reason)) :=
  generate_loop g appSet (SetGenerators appSet) None.

(** [getMinRequeueAfter] of the controller *)
Definition getMinRequeueAfter (g : generator_kind → option Generator) (appSet : AppSet) : option Z :=
  times ← mapM id (concat ((λ r, requeue_times r g) <$> SetGenerators appSet));
  Some (foldl (λ res t, if (res =? 0)%Z then t else if (negb (t =? 0) && (t <? res))%Z then t else res) 0%Z times).
End generators.
