(* ===== verification/AppSetGeneratorsProofs.v ===== *)
(** * Generators of application sets: theorems

    What the combinations compute, that no generator is missing at any level of nesting, and
    what is known of generated applications. *)

From S2P Require Import Prelude GoStd GoMatch GoTime Kube SyncCommon Health AppSetSelector AppSetTypes AppSetGenerators.
Local Open Scope string_scope.
Local Open Scope list_scope.

(** ** Results *)

Lemma bind_Ok {A B} (m : res A) (f : A → res B) b : m ≫= f = Ok b ↔ ∃ a, m = Ok a ∧ f a = Ok b.
Proof. destruct m; cbn; naive_solver. Qed.

Lemma bind_Panic {A B} (m : res A) (f : A → res B) : m ≫= f = Panic ↔ m = Panic ∨ ∃ a, m = Ok a ∧ f a = Panic.
Proof. destruct m; cbn; naive_solver. Qed.

Lemma mapR_Ok {A B} (f : A → res B) l ys : mapR f l = Ok ys ↔ Forall2 (λ x y, f x = Ok y) l ys.
Proof.
  revert ys. induction l as [|x l IH]; intros ys; cbn [mapR].
  { split; [intros [= <-]; constructor|by intros ->%Forall2_nil_inv_l]. }
  rewrite bind_Ok. setoid_rewrite bind_Ok. split.
  - intros (y&Hy&ys'&Hys&[= <-]). constructor; [done|by apply IH].
  - intros (y&ys'&Hy&Hys&->)%Forall2_cons_inv_l. exists y. split; [done|]. exists ys'. by rewrite IH.
Qed.

Lemma mapR_Panic {A B} (f : A → res B) l : mapR f l = Panic → ∃ x, x ∈ l ∧ f x = Panic.
Proof.
  induction l as [|x l IH]; cbn [mapR]; [done|]. rewrite bind_Panic.
  intros [Hx|(y&_&[Hl|(ys&_&?)]%bind_Panic)]; [|destruct (IH Hl) as (z&?&?)|done].
  - exists x. by split; [left|].
  - exists z. by split; [right|].
Qed.

Section proofs.
Context {R : GoRuntime} {L : AppSetLibs} {LK : LabelKeys}.

(** ** Matrix *)

(** The texts of a parameter set *)
Definition texts (p : params) : params := VStr <$> ConvertToMapStringString p.

Definition agree (a b : params) : Prop := ∀ k x y, a !! k = Some x → b !! k = Some y → sprint x = sprint y.

Lemma combine_loop_Ok b acc r :
  NoDup b.*1 →
  combine_loop b acc = Ok r ↔ (∀ k v w, (k, v) ∈ b → acc !! k = Some w → w = v) ∧ r = list_to_map b ∪ acc.
Proof.
  revert acc. induction b as [|[k v] b IH]; intros acc Hnd; cbn [combine_loop].
  { rewrite list_to_map_nil, (left_id_L ∅ (∪)). split; [intros [= <-]; split; [by intros ? ? ? ?%elem_of_nil|done]|by intros [_ ->]]. }
  cbn [fmap list_fmap fst] in Hnd. apply NoDup_cons in Hnd as [Hk Hnd].
  assert (∀ k' v', (k', v') ∈ b → k' ≠ k) as Hne.
  { intros k' v' Hin ->. apply Hk. apply (list_elem_of_fmap_2 fst _ (k, v')), Hin. }
  assert ((∀ k' v' w, (k', v') ∈ b → <[k := v]> acc !! k' = Some w → w = v') ∧ r = list_to_map b ∪ <[k := v]> acc ↔
          (∀ k' v' w, (k', v') ∈ b → acc !! k' = Some w → w = v') ∧ r = list_to_map ((k, v) :: b) ∪ acc) as Hstep.
  { cbn [list_to_map fold_right fst snd]. rewrite <-insert_union_l, insert_union_r by by apply not_elem_of_list_to_map_1.
    f_equiv. split; intros H k' v' w Hin Hw; apply (H _ _ _ Hin); [rewrite lookup_insert_ne; [done|]|rewrite lookup_insert_ne in Hw; [done|]];
      by apply not_eq_sym, (Hne _ _ Hin). }
  destruct (acc !! k) as [w|] eqn:Hw.
  - destruct (String.eqb_spec w v) as [->|Hwv].
    + rewrite IH, Hstep by done. split; intros [H ->]; (split; [|done]).
      * intros k' v' w [[= -> ->]|Hin]%elem_of_cons Hw'; [congruence|by eapply H].
      * intros k' v' w Hin. apply H. by right.
    + split; [done|]. intros [H _]. exfalso. apply Hwv. apply (H k v w); [by left|done].
  - rewrite IH, Hstep by done. split; intros [H ->]; (split; [|done]).
    + intros k' v' w [[= -> ->]|Hin]%elem_of_cons Hw'; [congruence|by eapply H].
    + intros k' v' w Hin. apply H. by right.
Qed.

Lemma CombineStringMaps_Ok a b r : CombineStringMaps a b = Ok r ↔ agree a b ∧ r = texts b ∪ texts a.
Proof.
  unfold CombineStringMaps. rewrite bind_Ok. setoid_rewrite combine_loop_Ok; [|apply go_range_NoDup_fst].
  setoid_rewrite elem_of_go_range. unfold ConvertToMapStringString. setoid_rewrite lookup_fmap.
  assert (list_to_map (go_range (sprint <$> b)) = sprint <$> b) as Hb.
  { rewrite <-(list_to_map_to_list (sprint <$> b)) at 2. apply list_to_map_proper; [apply go_range_NoDup_fst|apply go_range_perm]. }
  assert (agree a b ↔ ∀ k v w, sprint <$> b !! k = Some v → sprint <$> a !! k = Some w → w = v) as Hagree.
  { unfold agree. split.
    - intros H k v w (y&Hy&->)%fmap_Some (x&Hx&->)%fmap_Some. by eapply H.
    - intros H k x y Hx Hy. apply (H k); [by rewrite Hy|by rewrite Hx]. }
  rewrite Hagree, Hb. unfold texts, ConvertToMapStringString. split.
  - intros (acc&[H ->]&[= <-]). split; [exact H|]. by rewrite map_fmap_union.
  - intros [H ->]. eexists. split; [by split|]. by rewrite map_fmap_union.
Qed.

(** One set of parameters of each *)
Definition combined (useGoTemplate : bool) (a b r : params) : Prop :=
  if useGoTemplate then ∃ tmp, mergo_params ∅ b = inr tmp ∧ mergo_params tmp a = inr r
  else agree a b ∧ r = texts b ∪ texts a.

Lemma of_sum_Ok {A} (s : generator_error + A) a : of_sum s = Ok a ↔ s = inr a.
Proof. destruct s; cbn; naive_solver. Qed.

Lemma combine_Ok go a b r : combine go a b = Ok r ↔ combined go a b r.
Proof.
  unfold combine, combined. destruct go; [|apply CombineStringMaps_Ok]. rewrite bind_Ok. by setoid_rewrite of_sum_Ok.
Qed.

(** Each set of the first generator with those the second one makes of it *)
Definition pairs (g0 : list params) (g1s : list (list params)) : list (params * params) :=
  concat (zip_with (λ a bs, (a,.) <$> bs) g0 g1s).

Lemma Forall2_concat {A B} (P : A → B → Prop) (ls : list (list A)) (l' : list B) :
  Forall2 P (concat ls) l' ↔ ∃ ls', l' = concat ls' ∧ Forall2 (Forall2 P) ls ls'.
Proof.
  revert l'. induction ls as [|l ls IH]; intros l'; cbn.
  - split; [intros ->%Forall2_nil_inv_l; exists []; by split; [|constructor]|by intros (?&->&->%Forall2_nil_inv_l)].
  - split.
    + intros (k&k'&H&(ls'&->&H')%IH&->)%Forall2_app_inv_l. exists (k :: ls'). by split; [|constructor].
    + intros (ls'&->&(k&k'&H&H'&->)%Forall2_cons_inv_l). cbn. apply Forall2_app; [done|]. apply IH. by exists k'.
Qed.

Lemma matrix_rows (second : params → res (list params)) (comb : params → params → res params) (P : params → params → params → Prop) g0 rs :
  (∀ a b r, comb a b = Ok r ↔ P a b r) →
  mapR (λ a, g1 ← second a; mapR (comb a) g1) g0 = Ok rs ↔
  ∃ g1s, Forall2 (λ a bs, second a = Ok bs) g0 g1s ∧
    Forall2 (Forall2 (λ ab r, P ab.1 ab.2 r)) (zip_with (λ a bs, (a,.) <$> bs) g0 g1s) rs.
Proof.
  intros HP. rewrite mapR_Ok. revert rs. induction g0 as [|a g0 IH]; intros rs.
  - split; [intros ->%Forall2_nil_inv_l; exists []; split; constructor|by intros (?&->%Forall2_nil_inv_l&->%Forall2_nil_inv_l)].
  - split.
    + intros (r&rs'&(g1&Hg1&Hr%mapR_Ok)%bind_Ok&(g1s&H1&H2)%IH&->)%Forall2_cons_inv_l. exists (g1 :: g1s). split; [by constructor|].
      cbn [zip_with]. constructor; [|exact H2]. apply Forall2_fmap_l. eapply Forall2_impl; [exact Hr|]. by intros x y ?%HP.
    + intros (g1s&(g1&g1s'&Hg1&H1&->)%Forall2_cons_inv_l&H2). cbn [zip_with] in H2.
      apply Forall2_cons_inv_l in H2 as (r&rs'&Hr&H2&->). constructor; [|apply IH; by exists g1s'].
      apply bind_Ok. exists g1. split; [done|]. apply mapR_Ok. apply Forall2_fmap_l in Hr. eapply Forall2_impl; [exact Hr|].
      cbn. intros x y ?. by apply HP.
Qed.

(** C17. The matrix generator combines exactly two generators: each set of parameters of the
    first with each set that the second makes when it is rendered with that set, in this
    order; without Go templates a combination has the texts of both, and two sets with
    different texts for one parameter are an error. *)
Theorem matrix_is_product supported g appSet result :
  MatrixGenerateParams supported g appSet = Ok result ↔
  ∃ m first second g0 g1s, Matrix g = Some m ∧ MatrixGenerators m = [first; second] ∧
    getParams supported first appSet ∅ = Ok g0 ∧
    Forall2 (λ a bs, getParams supported second appSet a = Ok bs) g0 g1s ∧
    Forall2 (λ ab r, combined (GoTemplate appSet) ab.1 ab.2 r) (pairs g0 g1s) result.
Proof.
  unfold MatrixGenerateParams. destruct (Matrix g) as [m|]; [|split; [done|by intros (?&?&?&?&?&?&_)]].
  assert (∀ e, (∀ first second, MatrixGenerators m ≠ [first; second]) → Err e = Ok result ↔ ∃ m' first second g0 g1s, Some m = Some m' ∧
    MatrixGenerators m' = [first; second] ∧ getParams supported first appSet ∅ = Ok g0 ∧
    Forall2 (λ a bs, getParams supported second appSet a = Ok bs) g0 g1s ∧
    Forall2 (λ ab r, combined (GoTemplate appSet) ab.1 ab.2 r) (pairs g0 g1s) result) as Hno.
  { intros e Hm. split; [done|]. intros (?&?&?&?&?&[= <-]&H&_). by apply Hm in H. }
  destruct (MatrixGenerators m) as [|first [|second [|third rest]]] eqn:Em; [by apply Hno..| |by apply Hno]. clear Hno.
  rewrite bind_Ok. split.
  - intros (g0&Hg0&(rs&Hrs&[= <-])%bind_Ok). apply (matrix_rows _ _ (combined (GoTemplate appSet))) in Hrs as (g1s&H1&H2); [|apply combine_Ok].
    exists m, first, second, g0, g1s. split_and!; [done..|]. apply Forall2_concat. by exists rs.
  - intros (m'&f&s&g0&g1s&[= <-]&Hm&Hg0&H1&(rs&->&H2)%Forall2_concat). rewrite Em in Hm. injection Hm as <- <-. exists g0. split; [done|].
    apply bind_Ok. exists rs. split; [|done]. apply (matrix_rows _ _ (combined (GoTemplate appSet))); [apply combine_Ok|]. by exists g1s.
Qed.
(** ** Merge *)

Section merge.
Context (mergeKeys : list string).
Local Notation key := (merge_key mergeKeys).

Definition by_key (ps : list params) : list (params * params) := (λ p, (key p, p)) <$> ps.

Lemma by_key_fst ps : (by_key ps).*1 = key <$> ps.
Proof. unfold by_key. by rewrite <-list_fmap_compose. Qed.

Lemma keyed_loop_Ok ps acc m :
  keyed_loop mergeKeys ps acc = Ok m ↔
  NoDup (key <$> ps) ∧ (∀ p, p ∈ ps → acc !! key p = None) ∧ m = list_to_map (by_key ps) ∪ acc.
Proof.
  revert acc. induction ps as [|p ps IH]; intros acc; cbn [keyed_loop].
  { unfold by_key. cbn. rewrite (left_id_L ∅ (∪)). split; [intros [= <-]; split_and!; [constructor|by intros ? ?%elem_of_nil|done]|by intros (_&_&->)]. }
  case_bool_decide as Hk.
  { split; [done|]. intros (_&H&_). destruct Hk as [q Hq]. by rewrite (H p) in Hq by by left. }
  apply eq_None_not_Some in Hk. rewrite IH. cbn [fmap list_fmap]. rewrite NoDup_cons.
  assert (key p ∉ key <$> ps →
    list_to_map (by_key ps) ∪ <[key p := p]> acc = (list_to_map (by_key (p :: ps)) ∪ acc : gmap params params)) as Heq.
  { intros Hn. unfold by_key at 2. cbn [fmap list_fmap list_to_map fold_right fst snd]. fold (by_key ps).
    rewrite <-insert_union_l, insert_union_r; [done|]. apply not_elem_of_list_to_map_1. by rewrite by_key_fst. }
  split.
  - intros (Hnd&Hacc&->). assert (key p ∉ key <$> ps) as Hn.
    { intros (q&Hq&Hin)%list_elem_of_fmap. apply Hacc in Hin. by rewrite <-Hq, lookup_insert_eq in Hin. }
    split; [by split|]. split; [|by apply Heq]. intros q [->|Hin]%elem_of_cons; [done|]. apply Hacc in Hin.
    by apply lookup_insert_None in Hin as [? _].
  - intros ([Hn Hnd]&Hacc&->). split; [done|]. split; [|by rewrite Heq]. intros q Hin. rewrite lookup_insert_ne.
    + apply Hacc. by right.
    + intros Hq. apply Hn. rewrite Hq. by apply list_elem_of_fmap_2.
Qed.

Lemma getParamSets_Ok ps m :
  getParamSetsByMergeKey mergeKeys ps = Ok m ↔ mergeKeys ≠ [] ∧ NoDup (key <$> ps) ∧ m = list_to_map (by_key ps).
Proof.
  destruct (decide (mergeKeys = [])) as [E|Hne]; [unfold getParamSetsByMergeKey; rewrite E; by split; [|intros [? _]]|].
  assert (getParamSetsByMergeKey mergeKeys ps = keyed_loop mergeKeys ps ∅) as -> by (unfold getParamSetsByMergeKey; by destruct mergeKeys).
  rewrite keyed_loop_Ok, (right_id_L ∅ (∪)). split; [intros (?&_&?)|intros (_&?&?)]; done.
Qed.

(** The set with the same values at the merge keys *)
Definition matching (k : params) (set : list params) : option params := List.find (λ o, bool_decide (key o = k)) set.

Lemma matching_lookup set k : NoDup (key <$> set) → (list_to_map (by_key set) : gmap params params) !! k = matching k set.
Proof.
  induction set as [|p set IH]; intros Hnd; [done|]. cbn [fmap list_fmap] in Hnd. apply NoDup_cons in Hnd as [Hn Hnd].
  unfold by_key, matching. cbn [fmap list_fmap list_to_map fold_right fst snd List.find]. case_bool_decide as Hk.
  - subst k. by rewrite lookup_insert_eq.
  - rewrite lookup_insert_ne by done. by apply IH.
Qed.

(** What the later generators make of a set of the base *)
Definition overridden (k : params) (p : params) (others : list (list params)) : params :=
  foldl (λ acc set, match matching k set with Some o => o ∪ acc | None => acc end) p others.

Lemma merge_matching_spec overrides l acc m :
  NoDup l.*1 → merge_matching false overrides l acc = Ok m →
  ∀ k, m !! k = match (list_to_map l : gmap params params) !! k, overrides !! k with
                | Some p, Some o => Some (o ∪ p)
                | _, _ => acc !! k
                end.
Proof.
  revert acc. induction l as [|[k p] l IH]; intros acc Hnd; cbn [merge_matching]; [by intros [= <-]|].
  cbn [fmap list_fmap fst] in Hnd. apply NoDup_cons in Hnd as [Hn Hnd]. cbn [list_to_map fold_right fst snd].
  assert ((list_to_map l : gmap params params) !! k = None) as Hnone by by apply not_elem_of_list_to_map_1.
  destruct (overrides !! k) as [o|] eqn:Ho.
  - cbn. intros Hm k'. rewrite (IH _ Hnd Hm k'). destruct (decide (k' = k)) as [->|Hk].
    + by rewrite Hnone, lookup_insert_eq, Ho, lookup_insert_eq.
    + by rewrite !lookup_insert_ne by done.
  - intros Hm k'. rewrite (IH _ Hnd Hm k'). destruct (decide (k' = k)) as [->|Hk].
    + by rewrite Hnone, lookup_insert_eq, Ho.
    + by rewrite lookup_insert_ne by done.
Qed.

Lemma merge_matching_total overrides l acc : ∃ m, merge_matching false overrides l acc = Ok m.
Proof.
  revert acc. induction l as [|[k p] l IH]; intros acc; cbn [merge_matching]; [by eexists|].
  destruct (overrides !! k); cbn; apply IH.
Qed.

Lemma merge_loop_Ok sets base m :
  mergeKeys ≠ [] →
  merge_loop false mergeKeys sets base = Ok m ↔
  Forall (λ set, NoDup (key <$> set)) sets ∧ ∀ k, m !! k = (λ p, overridden k p sets) <$> base !! k.
Proof.
  intros Hne. revert base. induction sets as [|set sets IH]; intros base; cbn [merge_loop].
  - split.
    + intros [= <-]. split; [constructor|]. intros k. by destruct (base !! k).
    + intros [_ H]. f_equal. apply map_eq. intros k. rewrite H. by destruct (base !! k).
  - rewrite bind_Ok. setoid_rewrite getParamSets_Ok. rewrite Forall_cons.
    destruct (merge_matching_total (list_to_map (by_key set)) (go_range base) base) as [base' Hb].
    assert (∀ k, NoDup (key <$> set) → base' !! k = (λ p, match matching k set with Some o => o ∪ p | None => p end) <$> base !! k) as Hb'.
    { intros k Hnd. rewrite (merge_matching_spec _ _ _ _ (go_range_NoDup_fst base) Hb k), (matching_lookup _ _ Hnd).
      assert ((list_to_map (go_range base) : gmap params params) !! k = base !! k) as ->.
      { rewrite <-(list_to_map_to_list base) at 2. f_equal. apply list_to_map_proper; [apply go_range_NoDup_fst|apply go_range_perm]. }
      destruct (base !! k), (matching k set); done. }
    split.
    + intros (ov&(_&Hnd&->)&(b&Hb2&Hm)%bind_Ok). rewrite Hb in Hb2. injection Hb2 as <-. apply IH in Hm as [Hs Hm].
      split; [by split|]. intros k. rewrite Hm, Hb' by done. by destruct (base !! k).
    + intros [[Hnd Hs] Hm]. exists (list_to_map (by_key set)). split; [done|]. apply bind_Ok. exists base'. split; [done|].
      apply IH. split; [done|]. intros k. rewrite Hm, Hb' by done. by destruct (base !! k).
Qed.

Lemma merge_loop_total sets base :
  mergeKeys ≠ [] → Forall (λ set, NoDup (key <$> set)) sets → ∃ m, merge_loop false mergeKeys sets base = Ok m.
Proof.
  intros Hne. revert base. induction sets as [|set sets IH]; intros base; cbn [merge_loop]; [by eexists|].
  rewrite Forall_cons. intros [Hnd Hs]. assert (getParamSetsByMergeKey mergeKeys set = Ok (list_to_map (by_key set))) as -> by by apply getParamSets_Ok.
  cbn [mbind res_bind]. destruct (merge_matching_total (list_to_map (by_key set)) (go_range base) base) as [base' ->].
  cbn [mbind res_bind]. by apply IH.
Qed.

(** The base sets, each overridden *)
Definition joined (base : list params) (others : list (list params)) : list params :=
  (λ p, overridden (key p) p others) <$> base.

Lemma merged_list base others m :
  NoDup (key <$> base) → (∀ k, m !! k = (λ p, overridden k p others) <$> (list_to_map (by_key base) : gmap params params) !! k) →
  snd <$> go_range m ≡ₚ joined base others.
Proof.
  intros Hnd Hm. set (l := (λ p, (key p, overridden (key p) p others)) <$> base).
  assert (l.*1 = key <$> base) as Hl by (unfold l; by rewrite <-list_fmap_compose).
  assert (m = list_to_map l) as ->.
  { apply map_eq. intros k. rewrite Hm, matching_lookup by done. clear Hm. unfold l, matching. clear l Hl.
    induction base as [|p base IH]; [done|]. cbn [fmap list_fmap] in Hnd. apply NoDup_cons in Hnd as [Hn Hnd].
    cbn [fmap list_fmap list_to_map fold_right fst snd List.find]. case_bool_decide as Hk.
    - subst k. by rewrite lookup_insert_eq.
    - rewrite lookup_insert_ne by done. by apply IH. }
  rewrite go_range_perm, map_to_list_to_map by by rewrite Hl. unfold l, joined. by rewrite <-list_fmap_compose.
Qed.
End merge.

(** C18. The merge generator, without Go templates, succeeds exactly if it has two generators or
    more that succeed, some merge key, and no generator makes two sets with the same values
    at the merge keys.  Its result is, in some order, the sets of the first generator, each
    overridden by the sets of the later ones with the same values at the merge keys, later
    ones over earlier; sets that match no base set are left out. *)
Theorem merge_is_left_join supported g appSet :
  GoTemplate appSet = false →
  let ready m base others :=
    Merge g = Some m ∧ others ≠ [] ∧ MergeKeys m ≠ [] ∧
    Forall2 (λ nested ps, getParams supported nested appSet ∅ = Ok ps) (MergeGenerators m) (base :: others) ∧
    Forall (λ set, NoDup (merge_key (MergeKeys m) <$> set)) (base :: others) in
  ((∃ result, MergeGenerateParams supported g appSet = Ok result) ↔ ∃ m base others, ready m base others) ∧
  (∀ result m base others, MergeGenerateParams supported g appSet = Ok result → ready m base others →
     result ≡ₚ joined (MergeKeys m) base others).
Proof.
  intros Hgo. cbv zeta.
  assert (∀ result, MergeGenerateParams supported g appSet = Ok result → ∃ m base others,
    (Merge g = Some m ∧ others ≠ [] ∧ MergeKeys m ≠ [] ∧
     Forall2 (λ nested ps, getParams supported nested appSet ∅ = Ok ps) (MergeGenerators m) (base :: others) ∧
     Forall (λ set, NoDup (merge_key (MergeKeys m) <$> set)) (base :: others)) ∧ result ≡ₚ joined (MergeKeys m) base others) as Hfwd.
  { intros result. unfold MergeGenerateParams. destruct (Merge g) as [m|]; [|done].
    destruct (Nat.ltb_spec (length (MergeGenerators m)) 2) as [|Hlen]; [done|]. rewrite Hgo.
    intros (sets&Hsets%mapR_Ok&(b&(Hk&Hnd&->)%getParamSets_Ok&(mg&(Hs&Hmg)%merge_loop_Ok&[= <-])%bind_Ok)%bind_Ok)%bind_Ok; [|done].
    pose proof (Forall2_length _ _ _ Hsets) as Hl. destruct sets as [|base [|o others]]; [cbn in Hl; lia..|].
    cbn [default head tail] in *. exists m, base, (o :: others). split; [split_and!; [done..|by constructor]|]. by apply merged_list. }
  split; [split|].
  - intros [result (m&base&others&H&_)%Hfwd]. by exists m, base, others.
  - intros (m&base&others&Hm&Ho&Hk&H2&[Hb Hs]%Forall_cons). unfold MergeGenerateParams. rewrite Hm.
    pose proof (Forall2_length _ _ _ H2) as Hl. cbn in Hl. destruct others as [|o others]; [done|].
    destruct (Nat.ltb_spec (length (MergeGenerators m)) 2) as [Hlt|_]; [cbn in Hl; lia|].
    apply mapR_Ok in H2. rewrite H2. cbn [mbind res_bind head tail from_option]. unfold default, id. rewrite Hgo.
    assert (getParamSetsByMergeKey (MergeKeys m) base = Ok (list_to_map (by_key (MergeKeys m) base))) as -> by by apply getParamSets_Ok.
    cbn [mbind res_bind].
    destruct (merge_loop_total (MergeKeys m) (o :: others) (list_to_map (by_key (MergeKeys m) base))) as [mg ->]; [done..|]. by eexists.
  - intros result m base others Hr (Hm&Ho&Hk&H2&_). apply Hfwd in Hr as (m'&base'&others'&(Hm'&_&_&H2'&_)&Hp).
    rewrite Hm in Hm'. injection Hm' as <-.
    apply mapR_Ok in H2, H2'. rewrite H2 in H2'. injection H2' as <- <-. done.
Qed.

(** ** Where panics come from

    [fine]: a panic has the cause [Culprit]. *)

Section panics.
Context (Culprit : Prop) (s : AppSet).

Definition fine {A} (m : res A) : Prop := m = Panic → Culprit.

Lemma fine_bind {A B} (m : res A) (f : A → res B) : fine m → (∀ a, fine (f a)) → fine (m ≫= f).
Proof. intros Hm Hf [H|(a&_&H)]%bind_Panic; [by apply Hm|by eapply Hf]. Qed.
Lemma fine_mapR {A B} (f : A → res B) l : (∀ x, fine (f x)) → fine (mapR f l).
Proof. intros Hf (x&_&Hx)%mapR_Panic. by apply (Hf x). Qed.
Lemma fine_of_sum {A} (x : generator_error + A) : fine (of_sum x).
Proof. by destruct x. Qed.
Lemma fine_of_option {A} e (o : option A) : fine (of_option e o).
Proof. by destruct o. Qed.
Lemma fine_Ok {A} (a : A) : fine (Ok a).
Proof. done. Qed.
Lemma fine_Err {A} e : fine (@Err A e).
Proof. done. Qed.
End panics.

Create HintDb fine.
#[local] Hint Resolve fine_of_sum fine_of_option fine_Ok fine_Err : fine.
Ltac fine :=
  repeat match goal with
  | |- fine _ (_ ≫= _) => apply fine_bind; [|intros ?]
  | |- fine _ (mapR _ _) => apply fine_mapR; intros ?
  | |- fine _ (let '(_, _) := ?x in _) => destruct x
  | |- fine _ (if ?b then _ else _) => destruct b
  end; auto with fine.

Section panics.
Context (Culprit : Prop) (s : AppSet).
Local Notation fine := (fine Culprit).

Lemma Replace_fine t p go opts : fine (Replace t p go opts).
Proof. unfold Replace. fine. Qed.
#[local] Hint Resolve Replace_fine : fine.

Lemma templated_values_fine vs p go opts : fine (templated_values vs p go opts).
Proof. induction vs as [|[k v] vs IH]; cbn [templated_values]; fine. Qed.

Lemma list_fine g : fine (ListGenerateParams g s).
Proof.
  unfold ListGenerateParams. destruct (List (Top_fields g)) as [lg|]; [|done]. fine.
  unfold list_element. destruct (json_object _) as [element|]; [|done]. fine.
  generalize (∅ : params) as p. induction (go_range element) as [|[k v] el IH]; intros p; cbn [element_params]; fine.
  - destruct v; fine. unfold as_string. destruct v; fine.
  - unfold as_string. destruct v; fine.
Qed.

Lemma cluster_fine secrets g : fine (ClusterGenerateParams secrets g s).
Proof.
  unfold ClusterGenerateParams, getSecretsByClusterName, appendTemplatedValues.
  destruct (Clusters (Top_fields g)); [|done]. fine; apply templated_values_fine.
Qed.

Lemma filter_params_fine sel b ps e : fine (filter_params sel b ps e).
Proof.
  revert e. induction ps as [|p ps IH]; intros e; cbn [filter_params]; [done|].
  unfold flattenParameters. destruct (flatten _); [apply IH|]. fine.
Qed.

(** A map of generators that serves the specifications of a level *)
Definition serves (P : ApplicationSetGenerator → Prop) (generators : generator_kind → option Generator) : Prop :=
  ∀ g k, P g → field_set g k = true → ∃ G, generators k = Some G ∧
    ((GetTemplate G g = None → Culprit) ∧ (GetRequeueAfter G g = None → Culprit)) ∧ ∀ g', P g' → fine (GenerateParams G g' s).
Definition kept_by_replacing (P : ApplicationSetGenerator → Prop) : Prop :=
  ∀ go opts p g g', P g → replace_generator go opts p g = inr g' → P g'.

Lemma rendered_kept P g p g' : kept_by_replacing P → P g → RenderGeneratorParams g p (GoTemplate s) (GoTemplateOptions s) = Ok g' → P g'.
Proof.
  intros Hkept Hg. unfold RenderGeneratorParams. case_bool_decide; [by intros [= <-]|]. intros Hr%of_sum_Ok. by eapply Hkept.
Qed.

Lemma Transform_fine P generators g template p :
  (∀ g', RenderGeneratorParams g p (GoTemplate s) (GoTemplateOptions s) = Ok g' → P g') → serves P generators → P g →
  fine (Transform g generators template s p).
Proof.
  intros Hkept Hserves Hg. unfold Transform. destruct (LabelSelectorAsSelector _) as [e|sel]; [done|].
  unfold GetRelevantGenerators.
  assert (∀ ks e, (∀ k, k ∈ ks → field_set g k = true) → fine (transform_loop (generators <$> ks) g sel template s p e)) as Hloop.
  { induction ks as [|k ks IH]; intros e Hks; cbn [fmap list_fmap transform_loop]; [done|].
    destruct (Hserves g k Hg) as (G&->&[Ht _]&HG); [apply Hks; by left|].
    assert (∀ e, fine (transform_loop (generators <$> ks) g sel template s p e)) as Hnext.
    { intros e'. apply IH. intros k' Hk'. apply Hks. by right. }
    unfold mergeGeneratorTemplate. destruct (GetTemplate G g); [|by intros _; apply Ht].
    destruct (mergo_template _ _); [apply Hnext|]. cbn [of_sum].
    destruct (RenderGeneratorParams g p _ _) as [g'|e'|] eqn:Er; [|apply Hnext|].
    - specialize (HG g' (Hkept g' eq_refl)). destruct (GenerateParams G g' s); [|apply Hnext|by intros _; apply HG]. fine. apply filter_params_fine.
    - unfold RenderGeneratorParams in Er. case_bool_decide; [done|]. by destruct (replace_generator _ _ _ _). }
  apply Hloop. intros k Hk%list_elem_of_In. by apply filter_In in Hk as [_ ?].
Qed.

(** A nested generator as one of the top level *)
Definition unnested (r : ApplicationSetNestedGenerator) (sel : option LabelSelector) : ApplicationSetGenerator :=
  {| Top_fields := Nested_fields r; Matrix := ok_or_none (getMatrixGenerator r); Merge := ok_or_none (getMergeGenerator r);
     TopSelector := sel |}.

Lemma getParams_fine P generators r p :
  kept_by_replacing P → serves P generators → (∀ sel, P (unnested r sel)) → fine (getParams generators r s p).
Proof.
  intros Hkept Hserves HP. specialize (HP (NestedSelector r)). unfold unnested, getParams in *.
  destruct (getMatrixGenerator r) as [mx|e|] eqn:Ex; [|done|].
  2:{ unfold getMatrixGenerator in Ex. destruct (NestedMatrix r); [|done]. by destruct (json_matrix _). }
  destruct (getMergeGenerator r) as [mg|e|] eqn:Eg; [|done|].
  2:{ unfold getMergeGenerator in Eg. destruct (NestedMerge r); [|done]. by destruct (json_merge _). }
  cbn [mbind res_bind].
  pose proof (Transform_fine P generators _ no_template p (λ g', rendered_kept P _ p g' Hkept HP) Hserves HP) as H.
  cbn [ok_or_none] in H. destruct (Transform _ _ _ _ _) as [[t [e|]]|e|]; cbn; [done| |done|by intros _; apply H].
  by destruct t as [|? [|]].
Qed.

Lemma requeue_times_fine P generators g : serves P generators → P g → None ∈ requeue_times g generators → Culprit.
Proof.
  intros Hserves Hg. unfold requeue_times, GetRelevantGenerators. intros (G&HG&Hin)%list_elem_of_fmap.
  apply list_elem_of_fmap in Hin as (k&->&[_ Hk]%list_elem_of_In%filter_In).
  destruct (Hserves g k Hg Hk) as (G'&E&[_ Ht]&_). rewrite E in HG. by apply Ht.
Qed.

Lemma requeue_all_None (ls : list (list (option Z))) : mapM id (concat ls) = None → ∃ l, l ∈ ls ∧ None ∈ l.
Proof.
  intros (x&Hx&Hn)%mapM_None%Exists_exists. change (x = None) in Hn. subst x.
  apply list_elem_of_In, in_concat in Hx as (l&Hl&Hx). exists l. by rewrite !list_elem_of_In.
Qed.

Lemma nested_requeue_fine P generators l :
  serves P generators → (∀ r, r ∈ l → P (unnested r None)) → nested_requeue generators l = None → Culprit.
Proof.
  intros Hserves HP. unfold nested_requeue. destruct (mapM id _) as [ts|] eqn:E; [cbn; by destruct (foldl _ _ _)|]. intros _.
  apply requeue_all_None in E as (l'&(r&->&Hr)%list_elem_of_fmap&Hn). by eapply (requeue_times_fine P), Hn; [|apply HP].
Qed.

Lemma matrix_fine generators g :
  (∀ m r p, Matrix g = Some m → r ∈ MatrixGenerators m → fine (getParams generators r s p)) → fine (MatrixGenerateParams generators g s).
Proof.
  intros H. unfold MatrixGenerateParams. destruct (Matrix g) as [m|] eqn:Em; [|done].
  destruct (MatrixGenerators m) as [|a [|b [|c l]]] eqn:El; [done|done| |done]. apply fine_bind; [apply (H m); [done|]; rewrite El; set_solver|].
  intros g0. apply fine_bind; [|done]. apply fine_mapR. intros x. apply fine_bind; [apply (H m); [done|]; rewrite El; set_solver|].
  intros g1. apply fine_mapR. intros y. unfold combine, CombineStringMaps. fine.
  generalize (ConvertToMapStringString x). induction (go_range (ConvertToMapStringString y)) as [|[k v] l IH]; intros acc; [done|].
  cbn [combine_loop]. destruct (acc !! k); [|apply IH]. destruct (String.eqb _ _); [apply IH|done].
Qed.

Lemma merge_fine generators g :
  (∀ m r p, Merge g = Some m → r ∈ MergeGenerators m → fine (getParams generators r s p)) → fine (MergeGenerateParams generators g s).
Proof.
  intros H. unfold MergeGenerateParams. destruct (Merge g) as [m|] eqn:Em; [|done]. destruct (Nat.ltb _ _); [done|].
  assert (∀ ps, fine (getParamSetsByMergeKey (MergeKeys m) ps)) as Hset.
  { intros ps. unfold getParamSetsByMergeKey. destruct (MergeKeys m) as [|k ks]; [done|]. generalize (∅ : gmap params params).
    induction ps as [|p ps IH]; intros acc; cbn [keyed_loop]; [done|]. case_bool_decide; [done|apply IH]. }
  apply fine_bind.
  { intros (r&Hr&Hp)%mapR_Panic. by apply (H m r ∅ eq_refl Hr). }
  intros sets. apply fine_bind; [apply Hset|]. intros base. apply fine_bind; [|done].
  revert base. induction (tail sets) as [|x l IH]; intros base; cbn [merge_loop]; [done|]. apply fine_bind; [apply Hset|]. intros ov.
  apply fine_bind; [|intros b; apply IH]. generalize base at 2. induction (go_range base) as [|[k p] l' IH']; intros acc; cbn [merge_matching]; [done|].
  destruct (ov !! k); [|apply IH']. apply fine_bind; [unfold override; fine|]. intros q. apply IH'.
Qed.

(** The generators in a combination *)
Definition inner (g : ApplicationSetGenerator) (r : ApplicationSetNestedGenerator) : Prop :=
  (∃ m, Matrix g = Some m ∧ r ∈ MatrixGenerators m) ∨ (∃ m, Merge g = Some m ∧ r ∈ MergeGenerators m).

(** A combination over a level of generators *)
Lemma combinations_serve (P Q : ApplicationSetGenerator → Prop) generators g k :
  kept_by_replacing P → serves P generators → k = KMatrix ∨ k = KMerge → Q g → field_set g k = true →
  (∀ g' r sel, Q g' → inner g' r → P (unnested r sel)) →
  ∃ G, (match k with KMatrix => Some (NewMatrixGenerator generators) | _ => Some (NewMergeGenerator generators) end) = Some G ∧
    ((GetTemplate G g = None → Culprit) ∧ (GetRequeueAfter G g = None → Culprit)) ∧ ∀ g', Q g' → fine (GenerateParams G g' s).
Proof.
  intros Hkept Hserves Hk Hg Hset HQ. destruct Hk as [-> | ->].
  - eexists. split; [done|]. split.
    + cbn in *. destruct (Matrix g) as [m|] eqn:Em; [|done]. split; [done|]. cbn. apply (nested_requeue_fine P); [done|].
      intros r Hr. apply (HQ g); [done|left]. by exists m.
    + intros g' Hg'. apply matrix_fine. intros m r p Hm Hr. apply (getParams_fine P); [done..|]. intros sel.
      apply (HQ g'); [done|left]. by exists m.
  - eexists. split; [done|]. split.
    + cbn in *. destruct (Merge g) as [m|] eqn:Em; [|done]. split; [done|]. cbn. apply (nested_requeue_fine P); [done|].
      intros r Hr. apply (HQ g); [done|right]. by exists m.
    + intros g' Hg'. apply merge_fine. intros m r p Hm Hr. apply (getParams_fine P); [done..|]. intros sel.
      apply (HQ g'); [done|right]. by exists m.
Qed.

Lemma render_app_fine t p : fine (render_app s t p).
Proof.
  unfold render_app, RenderTemplateParams, renderTemplatePatch, applyTemplatePatch. fine.
  destruct (SetTemplatePatch s); [|done]. fine.
Qed.

Lemma render_all_fine l e : fine (render_all s l e).
Proof.
  revert e. induction l as [|[t p] l IH]; intros e; cbn [render_all]; [done|].
  pose proof (render_app_fine t p) as H. destruct (render_app s t p); [|apply IH|by intros _; apply H]. fine.
Qed.
End panics.

(** *** Decisions that panic *)

(** A status that the generator of cluster decisions can read: none, or a list of maps under
    its key.  With Go templates a decision should have no values of its own. *)
Definition readable (go : bool) (statusListKey : string) (duckResource : gmap string value) : Prop :=
  match duckResource !! "status" with
  | None | Some VNull | Some (VMap []) => True
  | Some (VMap status) =>
      ∃ l, entry statusListKey status = Some (VList l) ∧
        Forall (λ d, ∃ m, d = VMap m ∧ (go = true → entry "values" m = None)) l
  | Some _ => False
  end.

(** A cluster decision generator can find a resource with another status. *)
Definition unreadable_decisions (asked : decision_resources) (go : bool) : Prop :=
  ∃ c cm duckResources duckResource, config_map asked (ConfigMapRef c) = inr cm ∧ find_resources asked c cm = Ok duckResources ∧
    duckResource ∈ duckResources ∧
    ¬ readable go (default_text "clusters" (default "" (cm !! "statusListKey"))) duckResource.

Lemma entry_None k m : entry k m = None → (list_to_map m : gmap string value) !! k = None.
Proof.
  unfold entry. destruct (List.find _ m) as [|] eqn:E; [done|]. intros _. apply not_elem_of_list_to_map.
  intros ([k' v]&->&Hin%list_elem_of_In)%list_elem_of_fmap. apply (List.find_none _ _ E) in Hin. cbn in Hin. by rewrite String.eqb_refl in Hin.
Qed.

Lemma foldl_insert_other (f : value → value) k l (p : params) :
  (∀ v, (k, v) ∉ l) → foldl (λ p '(k, v), <[k := f v]> p) p l !! k = p !! k.
Proof.
  revert p. induction l as [|[k' v] l IH]; intros p Hl; [done|]. cbn [foldl]. rewrite IH.
  - rewrite lookup_insert_ne; [done|]. intros ->. apply (Hl v). by left.
  - intros v' Hv. apply (Hl v'). by right.
Qed.

Lemma collect_values_total go vs (p : params) :
  (go = true → ∀ v, p !! "values" = Some v → ∃ m, v = VStrMap m) → collect_values go vs p ≠ Panic.
Proof.
  revert p. induction vs as [|[k v] vs IH]; intros p Hp; cbn [collect_values]; [done|]. unfold collectParams. destruct go; cbn [mbind res_bind].
  - assert (∀ l, collect_values true vs (<["values" := VStrMap l]> p) ≠ Panic) as Hnext.
    { intros l. apply IH. intros _ v'. rewrite lookup_insert_eq. intros [= <-]. by exists l. }
    destruct (p !! "values") as [v'|] eqn:Ev; [|apply Hnext]. destruct (Hp eq_refl v' eq_refl) as [l ->]. apply Hnext.
  - by apply IH.
Qed.

Lemma decision_params_total c s clusters matchKey m :
  (GoTemplate s = true → entry "values" m = None) → decision_params c s clusters matchKey (VMap m) ≠ Panic.
Proof.
  intros Hm. unfold decision_params. destruct (findCluster _ _ _) as [[cl|]|e|] eqn:Ef; cbn [mbind res_bind]; [|done..|].
  2:{ cbn in Ef. destruct (entry matchKey m) as [[]|]; try done; by destruct (String.eqb _ _). }
  intros [H|(p&_&?)]%bind_Panic; [|done]. revert H. apply collect_values_total. intros Hgo v.
  rewrite (foldl_insert_other (λ v, VStr (sprint_resource v))); [done|].
  intros v' Hin%elem_of_go_range. rewrite (entry_None _ _ (Hm Hgo)) in Hin. done.
Qed.

Lemma status_unreadable go key r : status_decisions key r = Panic → ¬ readable go key r.
Proof.
  unfold status_decisions, readable. destruct (r !! "status") as [[| | | | |[|e st]|]|]; try done; try tauto.
  intros H (l&E&_). by rewrite E in H.
Qed.

Lemma decision_unreadable c s clusters matchKey key r l d :
  status_decisions key r = Ok l → d ∈ l → decision_params c s clusters matchKey d = Panic → ¬ readable (GoTemplate s) key r.
Proof.
  unfold status_decisions, readable. intros Hl Hd Hp.
  destruct (r !! "status") as [[| | | | |[|e st]|]|]; try done; try (injection Hl as <-; by apply elem_of_nil in Hd).
  intros (l'&E&Hall). rewrite E in Hl. injection Hl as <-. rewrite Forall_forall in Hall.
  destruct (Hall d Hd) as (m&->&Hm). by eapply decision_params_total.
Qed.

Lemma duck_fine (Culprit : Prop) s informed asked g :
  (unreadable_decisions asked (GoTemplate s) → Culprit) → fine Culprit (DuckTypeGenerateParams informed asked g s).
Proof.
  intros HC. unfold DuckTypeGenerateParams. destruct (ClusterDecisionResource _) as [c|]; [|done].
  apply fine_bind; [apply fine_of_sum|]. intros clusters. destruct (config_map asked _) as [e|cm] eqn:Ec; [done|]. cbn [of_sum mbind res_bind].
  destruct (find_resources asked c cm) as [rs|e|] eqn:Er; cbn [mbind res_bind]; [|done|].
  2:{ exfalso. unfold find_resources in Er. destruct (String.eqb _ _); [done|]. destruct (split_api_version _) as [[]|]; [|done].
      destruct (duck_selection c); [|done]. destruct (list_resources _ _ _ _ _) as [|[]]; done. }
  destruct (String.eqb _ _); [done|].
  set (key := default_text _ _).
  assert (∀ r, r ∈ rs → ¬ readable (GoTemplate s) key r → Culprit) as Hbad by (intros r ? ?; apply HC; by exists c, cm, rs, r).
  destruct (mapR (status_decisions key) rs) as [ls|e|] eqn:El.
  - unfold buildClusterDecisions. rewrite El. cbn [mbind res_bind]. intros [(d&Hd&Hp)%mapR_Panic|(?&_&?)]%bind_Panic; [|done].
    apply list_elem_of_In, in_concat in Hd as (l&Hl&Hd). apply list_elem_of_In in Hl, Hd.
    apply mapR_Ok in El. apply list_elem_of_lookup in Hl as [i Hi]. destruct (Forall2_lookup_r _ _ _ _ _ El Hi) as (r&Hr&Hst).
    apply (Hbad r); [by eapply list_elem_of_lookup_2|]. by eapply decision_unreadable.
  - unfold buildClusterDecisions. by rewrite El.
  - intros _. apply mapR_Panic in El as (r&Hr&Hst). apply (Hbad r Hr). by apply status_unreadable.
Qed.

(** *** Nesting

    The kinds of generators that a specification uses, in combinations too, after their JSON
    is read *)
Definition nested_uses (r : ApplicationSetNestedGenerator) (k : generator_kind) : Prop :=
  fields_set (Nested_fields r) k = true ∨
  (∃ raw m t, NestedMatrix r = Some raw ∧ json_matrix raw = Some m ∧ t ∈ NMGenerators m ∧ fields_set (Terminal_fields t) k = true) ∨
  (∃ raw m t, NestedMerge r = Some raw ∧ json_merge raw = Some m ∧ t ∈ NGGenerators m ∧ fields_set (Terminal_fields t) k = true).
Definition generator_uses (g : ApplicationSetGenerator) (k : generator_kind) : Prop :=
  fields_set (Top_fields g) k = true ∨ ∃ r, inner g r ∧ nested_uses r k.
Definition set_uses (s : AppSet) (k : generator_kind) : Prop := ∃ g, g ∈ SetGenerators s ∧ generator_uses g k.

(** What is nil in a generator stays nil when texts are replaced. *)
Definition same_nil (r r' : ApplicationSetNestedGenerator) : Prop :=
  (NestedMatrix r = None → NestedMatrix r' = None) ∧ (NestedMerge r = None → NestedMerge r' = None) ∧
  ∀ k, fields_set (Nested_fields r') k = true → fields_set (Nested_fields r) k = true.
Definition replaces_texts : Prop := ∀ go opts p g g', replace_generator go opts p g = inr g' →
  (∀ m', Matrix g' = Some m' → ∃ m, Matrix g = Some m ∧ Forall2 same_nil (MatrixGenerators m) (MatrixGenerators m')) ∧
  (∀ m', Merge g' = Some m' → ∃ m, Merge g = Some m ∧ Forall2 same_nil (MergeGenerators m) (MergeGenerators m')) ∧
  ∀ k, fields_set (Top_fields g') k = true → fields_set (Top_fields g) k = true.

(** The levels of nesting, with generators of the kinds [K] only: plain generators,
    combinations of these, and any. *)
Definition within (K : generator_kind → Prop) (f : terminal_fields) : Prop := ∀ k, fields_set f k = true → K k.
Definition bottom (r : ApplicationSetNestedGenerator) : Prop := NestedMatrix r = None ∧ NestedMerge r = None.
Definition flat (K : generator_kind → Prop) (g : ApplicationSetGenerator) : Prop :=
  Matrix g = None ∧ Merge g = None ∧ within K (Top_fields g).
Definition shallow (K : generator_kind → Prop) (g : ApplicationSetGenerator) : Prop :=
  within K (Top_fields g) ∧ ∀ r, inner g r → bottom r ∧ within K (Nested_fields r).
Definition deep (K : generator_kind → Prop) (g : ApplicationSetGenerator) : Prop := ∀ k, generator_uses g k → K k.

Lemma shallow_inner K g r sel : shallow K g → inner g r → flat K (unnested r sel).
Proof.
  intros [_ H] Hr. destruct (H r Hr) as [[E1 E2] HK]. unfold flat, unnested, getMatrixGenerator, getMergeGenerator. by rewrite E1, E2.
Qed.

(** A combination in a combination is read as one of plain generators. *)
Lemma deep_inner K g r sel : deep K g → inner g r → shallow K (unnested r sel).
Proof.
  intros HK Hr. assert (∀ k, nested_uses r k → K k) as HKr by (intros k Hk; apply HK; right; by exists r).
  split; [intros k Hk; apply HKr; by left|]. unfold unnested, getMatrixGenerator, getMergeGenerator, inner. cbn [Matrix Merge].
  intros x [(m&Hm&Hx)|(m&Hm&Hx)].
  - destruct (NestedMatrix r) as [raw|] eqn:E; [|done]. destruct (json_matrix raw) as [m'|] eqn:Ej; [|done]. injection Hm as <-.
    apply list_elem_of_fmap in Hx as (t&->&Ht). split; [done|]. intros k Hk. apply HKr. right. left. by exists raw, m', t.
  - destruct (NestedMerge r) as [raw|] eqn:E; [|done]. destruct (json_merge raw) as [m'|] eqn:Ej; [|done]. injection Hm as <-.
    apply list_elem_of_fmap in Hx as (t&->&Ht). split; [done|]. intros k Hk. apply HKr. right. right. by exists raw, m', t.
Qed.

Section registered.
Context (Hreplace : replaces_texts).

Lemma flat_kept K : kept_by_replacing (flat K).
Proof.
  intros go opts p g g' (H1&H2&HK) Hr. destruct (Hreplace _ _ _ _ _ Hr) as (Hm&Hg&Hf). split_and!.
  - destruct (Matrix g') as [m|]; [|done]. destruct (Hm m eq_refl) as (?&?&_). congruence.
  - destruct (Merge g') as [m|]; [|done]. destruct (Hg m eq_refl) as (?&?&_). congruence.
  - intros k Hk. by apply HK, Hf.
Qed.

Lemma elements_kept K l l' :
  Forall2 same_nil l l' → (∀ r, r ∈ l → bottom r ∧ within K (Nested_fields r)) → ∀ r', r' ∈ l' → bottom r' ∧ within K (Nested_fields r').
Proof.
  intros H2 Hl r' Hr'. destruct (list_elem_of_lookup_1 _ _ Hr') as [i Hi].
  destruct (Forall2_lookup_r _ _ _ _ _ H2 Hi) as (r&Hr&H1&H3&H4).
  destruct (Hl r) as [[? ?] HK]; [by eapply list_elem_of_lookup_2|]. split; [split; auto|]. intros k Hk. by apply HK, H4.
Qed.

Lemma shallow_kept K : kept_by_replacing (shallow K).
Proof.
  intros go opts p g g' [HK H] Hr. destruct (Hreplace _ _ _ _ _ Hr) as (Hm&Hg&Hf). split; [intros k Hk; by apply HK, Hf|].
  intros r' [(m'&Hm'&Hr')|(m'&Hm'&Hr')].
  - destruct (Hm m' Hm') as (m&E&H2). eapply elements_kept; [exact H2| |exact Hr']. intros r Hin. apply H. left. by exists m.
  - destruct (Hg m' Hm') as (m&E&H2). eapply elements_kept; [exact H2| |exact Hr']. intros r Hin. apply H. right. by exists m.
Qed.

Context (list_secrets : LabelSelector → generator_error + list Secret) (informed : generator_error + list ClusterSpecifier)
  (asked : decision_resources) (external : generator_kind → Generator).

(** A generator that the set uses, and that asks a repository, a provider or a plugin,
    panics. *)
Definition external_panics (s : AppSet) : Prop :=
  ∃ k g, k ∈ [KGit; KSCMProvider; KPullRequest; KPlugin] ∧ set_uses s k ∧
    (GenerateParams (external k) g s = Panic ∨
     fields_set (Top_fields g) k = true ∧ (GetTemplate (external k) g = None ∨ GetRequeueAfter (external k) g = None)).

Definition panic_cause (s : AppSet) : Prop :=
  external_panics s ∨ set_uses s KClusterDecisionResource ∧ unreadable_decisions asked (GoTemplate s).

Local Notation serves s := (serves (panic_cause s) s).

Lemma terminal_serves (P : ApplicationSetGenerator → Prop) s g k :
  k ≠ KMatrix → k ≠ KMerge → field_set g k = true → set_uses s k →
  ∃ G, terminalGenerators list_secrets informed asked external k = Some G ∧
    ((GetTemplate G g = None → panic_cause s) ∧ (GetRequeueAfter G g = None → panic_cause s)) ∧
    ∀ g', P g' → fine (panic_cause s) (GenerateParams G g' s).
Proof.
  intros Hx Hg Hk Hu.
  assert (k ∈ [KGit; KSCMProvider; KPullRequest; KPlugin] →
    ((GetTemplate (external k) g = None → panic_cause s) ∧ (GetRequeueAfter (external k) g = None → panic_cause s)) ∧
    ∀ g', P g' → fine (panic_cause s) (GenerateParams (external k) g' s)) as Hext.
  { intros Hin. assert (fields_set (Top_fields g) k = true) as Hk' by by destruct k. split_and!.
    - intros H. left. exists k, g. split_and!; [done..|]. right. split; [done|by left].
    - intros H. left. exists k, g. split_and!; [done..|]. right. split; [done|by right].
    - intros g' _ H. left. exists k, g'. split_and!; [done..|by left]. }
  destruct k; try done; try (eexists; split; [done|]; apply Hext; set_solver).
  - eexists. split; [done|]. split; [|intros; apply list_fine]. cbn in *. by destruct (List (Top_fields g)).
  - eexists. split; [done|]. split; [|intros; apply cluster_fine]. cbn in *. by destruct (Clusters (Top_fields g)).
  - eexists. split; [done|]. split; [|intros; apply duck_fine; by right]. cbn in *. by destruct (ClusterDecisionResource (Top_fields g)).
Qed.

Lemma terminal_set g k : k ≠ KMatrix → k ≠ KMerge → field_set g k = true → fields_set (Top_fields g) k = true.
Proof. by destruct k. Qed.

Lemma terminalGenerators_serve s : serves s (flat (set_uses s)) (terminalGenerators list_secrets informed asked external).
Proof.
  intros g k (H1&H2&HK) Hk.
  assert (k ≠ KMatrix ∧ k ≠ KMerge) as [? ?] by (split; intros ->; cbn in Hk; by rewrite ?H1, ?H2 in Hk).
  apply terminal_serves; [done..|]. by apply HK, terminal_set.
Qed.

Lemma nestedGenerators_serve s : serves s (shallow (set_uses s)) (nestedGenerators list_secrets informed asked external).
Proof.
  intros g k Hg Hk. destruct (decide (k = KMatrix ∨ k = KMerge)) as [Hc|Hc].
  - destruct (combinations_serve _ s (flat (set_uses s)) (shallow (set_uses s)) _ g k (flat_kept _) (terminalGenerators_serve s) Hc Hg Hk) as (G&HG&H).
    { intros. by eapply shallow_inner. }
    exists G. split; [|done]. by destruct Hc as [-> | ->].
  - destruct (terminal_serves (shallow (set_uses s)) s g k) as (G&HG&H); [tauto..|done| |].
    + apply Hg, terminal_set; tauto.
    + exists G. split; [|done]. destruct k; done || tauto.
Qed.

Lemma GetGenerators_serve s : serves s (deep (set_uses s)) (GetGenerators list_secrets informed asked external).
Proof.
  intros g k Hg Hk. destruct (decide (k = KMatrix ∨ k = KMerge)) as [Hc|Hc].
  - destruct (combinations_serve _ s (shallow (set_uses s)) (deep (set_uses s)) _ g k (shallow_kept _) (nestedGenerators_serve s) Hc Hg Hk) as (G&HG&H).
    { intros. by eapply deep_inner. }
    exists G. split; [|done]. by destruct Hc as [-> | ->].
  - destruct (terminal_serves (deep (set_uses s)) s g k) as (G&HG&H); [tauto..|done| |].
    + apply Hg. left. apply terminal_set; tauto.
    + exists G. split; [|done]. destruct k; done || tauto.
Qed.

(** C20. However the generators of a set are nested - a combination in a combination in a
    combination included - no generator that is asked for is missing.  If generating the
    applications or finding the time of the next run panics at all, the cause is one of two:
    a generator that the set uses, and that asks a repository, a provider or a plugin,
    panics itself, or the set uses a generator of cluster decisions, and there are resources
    for it with a status that it cannot read: one that is not a map, without a list of maps
    under its key, or, with Go templates, with a decision that has values of its own. *)
Theorem panics_have_a_cause s :
  GenerateApplications (GetGenerators list_secrets informed asked external) s = Panic ∨
  getMinRequeueAfter (GetGenerators list_secrets informed asked external) s = None →
  external_panics s ∨ set_uses s KClusterDecisionResource ∧ unreadable_decisions asked (GoTemplate s).
Proof.
  change (external_panics s ∨ _) with (panic_cause s).
  assert (∀ g, g ∈ SetGenerators s → deep (set_uses s) g) as Hdeep by (intros g Hg k Hk; by exists g). intros [H|H]; revert H.
  - unfold GenerateApplications.
    change (fine (panic_cause s) (generate_loop (GetGenerators list_secrets informed asked external) s (SetGenerators s) None)).
    generalize (None : option (generator_error * reason)) as e. revert Hdeep.
    generalize (SetGenerators s). intros l Hl. induction l as [|g l IH]; intros e; cbn [generate_loop]; [done|].
    assert (∀ e, fine (panic_cause s) (generate_loop (GetGenerators list_secrets informed asked external) s l e)) as Hnext
      by (apply IH; intros g' Hg'; apply Hl; by right).
    assert (deep (set_uses s) g) as Hg by (apply Hl; left).
    apply fine_bind; [|intros [t [e'|]]; [apply Hnext|fine; apply render_all_fine]].
    by apply (Transform_fine _ s (deep (set_uses s))); [intros g' [= <-]|apply GetGenerators_serve|].
  - unfold getMinRequeueAfter. destruct (mapM id _) eqn:E; [done|]. intros _.
    apply requeue_all_None in E as (l&(r&->&Hr)%list_elem_of_fmap&Hn).
    eapply (requeue_times_fine _ s (deep (set_uses s))), Hn; [apply GetGenerators_serve|by apply Hdeep].
Qed.
End registered.
End proofs.
