(* ===== verification/AppSetRendering.v ===== *)
(** * Generated applications: theorems

    Which parameters [Transform] lets pass, and what is known of the applications that
    [GenerateApplications] makes of them. *)

From S2P Require Import Prelude GoStd GoMatch GoTime Kube SyncCommon Health AppSetSelector AppSetTypes AppSetGenerators AppSetGeneratorsProofs.
Local Open Scope string_scope.
Local Open Scope list_scope.

(** A list and those of its elements that have a property *)
Inductive filtered {A} (P : A → Prop) : list A → list A → Prop :=
  | filtered_nil : filtered P [] []
  | filtered_keep x l k : P x → filtered P l k → filtered P (x :: l) (x :: k)
  | filtered_drop x l k : ¬ P x → filtered P l k → filtered P (x :: l) k.

Lemma filtered_iff {A} (P Q : A → Prop) l k : (∀ x, x ∈ l → P x ↔ Q x) → filtered P l k → filtered Q l k.
Proof.
  intros H Hf. induction Hf as [|x l k Hx Hf IH|x l k Hx Hf IH]; [constructor|..].
  - constructor; [by apply H; [left|]|]. apply IH. intros y Hy. apply H. by right.
  - constructor; [by rewrite <-H by by left|]. apply IH. intros y Hy. apply H. by right.
Qed.

Section proofs.
Context {R : GoRuntime} {L : AppSetLibs} {LK : LabelKeys}.

(** ** Transform *)

Definition selector_fits (requested : ApplicationSetGenerator) : Prop :=
  match TopSelector requested with None => True | Some ls => selector_valid ls end.

(** The selector lets a set of parameters pass. *)
Definition passes (requested : ApplicationSetGenerator) (p : params) : Prop :=
  match TopSelector requested with
  | None => True
  | Some ls => ∃ flat, flattenParameters p = Ok flat ∧ selected ls flat
  end.

Definition flattens (p : params) : Prop := ∃ flat, flattenParameters p = Ok flat.

(** What a generator contributes to the result *)
Definition produces (requested : ApplicationSetGenerator) (template : ApplicationSetTemplate) (appSet : AppSet) (p : params)
    (G : option Generator) (r : TransformResult) : Prop :=
  ∃ G' requested' ps, G = Some G' ∧ mergeGeneratorTemplate G' requested template = Ok (Template r) ∧
    RenderGeneratorParams requested p (GoTemplate appSet) (GoTemplateOptions appSet) = Ok requested' ∧
    GenerateParams G' requested' appSet = Ok ps ∧ Forall flattens ps ∧ filtered (passes requested) ps (Params r).

Lemma note_error_not_None first e : note_error first e ≠ None.
Proof. by destruct first. Qed.

Lemma filter_params_error sel b ps first qs e : first ≠ None → filter_params sel b ps first = Ok (qs, e) → e ≠ None.
Proof.
  revert first qs. induction ps as [|p ps IH]; intros first qs Hf; cbn [filter_params]; [by intros [= <- <-]|].
  destruct (flattenParameters p) as [flat|err|]; [|apply IH, note_error_not_None|done].
  destruct (_ && _); [by apply IH|]. intros ([qs' e']&H&[= <- <-])%bind_Ok. by apply IH in H.
Qed.

Lemma filter_params_None sel (b : bool) (P : params → Prop) ps qs :
  (∀ p flat, flattenParameters p = Ok flat → P p ↔ (b = true → Matches sel flat = true)) →
  filter_params sel b ps None = Ok (qs, None) ↔ Forall flattens ps ∧ filtered P ps qs.
Proof.
  intros HP. revert qs. induction ps as [|p ps IH]; intros qs; cbn [filter_params].
  { split; [intros [= <-]; split; constructor|]. intros [_ H]. by inversion H. }
  rewrite Forall_cons. destruct (flattenParameters p) as [flat|e|] eqn:Ef.
  - assert (flattens p) as Hfl by by exists flat. specialize (HP p flat Ef).
    destruct (b && negb (Matches sel flat)) eqn:Eb.
    + apply andb_true_iff in Eb as [-> Hm%negb_true_iff]. assert (¬ P p) as Hn by (rewrite HP; intros H; rewrite H in Hm; done).
      rewrite IH. split; [intros [? ?]; split; [done|by constructor]|]. intros [[_ ?] Hf]. inversion Hf; subst; [done|by split].
    + assert (P p) as Hy by (rewrite HP; intros ->; by destruct (Matches sel flat)).
      rewrite bind_Ok. split.
      * intros ([rest e]&H&[= <- ->]). apply IH in H as [? ?]. split; [done|by constructor].
      * intros [[_ ?] Hf]. inversion Hf; subst; [|done]. eexists (_, None). split; [by apply IH|done].
  - split; [intros H; by apply filter_params_error in H|]. intros [[[? ?] _] _]. congruence.
  - split; [done|]. intros [[[? ?] _] _]. congruence.
Qed.

Lemma transform_loop_error gens requested sel template s p first rs e :
  first ≠ None → transform_loop gens requested sel template s p first = Ok (rs, e) → e ≠ None.
Proof.
  revert first rs. induction gens as [|[G|] gens IH]; intros first rs Hf; cbn [transform_loop]; [by intros [= <- <-]| |done].
  destruct (mergeGeneratorTemplate G requested template) as [merged|err|]; [|apply IH, note_error_not_None|done].
  destruct (RenderGeneratorParams _ _ _ _) as [g'|err|]; [|apply IH, note_error_not_None|done].
  destruct (GenerateParams G g' s) as [ps|err|]; [|apply IH, note_error_not_None|done].
  intros ([qs e1]&H1&([rs' e2]&H2&[= <- <-])%bind_Ok)%bind_Ok. apply (IH e1 rs'); [|done]. by apply filter_params_error in H1.
Qed.

Lemma transform_loop_None gens requested sel template s p rs :
  (∀ q flat, flattenParameters q = Ok flat →
     passes requested q ↔ (bool_decide (is_Some (TopSelector requested)) = true → Matches sel flat = true)) →
  transform_loop gens requested sel template s p None = Ok (rs, None) ↔ Forall2 (produces requested template s p) gens rs.
Proof.
  intros Hsel. revert rs. induction gens as [|[G|] gens IH]; intros rs; cbn [transform_loop].
  { split; [intros [= <-]; constructor|by intros ->%Forall2_nil_inv_l]. }
  2:{ split; [done|]. by intros (?&?&(?&?&?&?&_)&_&_)%Forall2_cons_inv_l. }
  assert (∀ e, transform_loop gens requested sel template s p (note_error None e) ≠ Ok (rs, None)) as Hno.
  { intros e H. by apply transform_loop_error in H. }
  destruct (mergeGeneratorTemplate G requested template) as [merged|err|] eqn:Em.
  2-3: split; [try done; intros H; by apply Hno in H|]; intros (?&?&(?&?&?&[= <-]&?&_)&_&_)%Forall2_cons_inv_l; congruence.
  destruct (RenderGeneratorParams _ _ _ _) as [g'|err|] eqn:Er.
  2-3: split; [try done; intros H; by apply Hno in H|]; intros (?&?&(?&?&?&[= <-]&?&?&_)&_&_)%Forall2_cons_inv_l; congruence.
  destruct (GenerateParams G g' s) as [ps|err|] eqn:Eg.
  2-3: split; [try done; intros H; by apply Hno in H|]; intros (?&?&(?&?&?&[= <-]&?&?&?&_)&_&_)%Forall2_cons_inv_l; congruence.
  rewrite bind_Ok. split.
  - intros ([qs [e|]]&H1&([rs' e2]&H2&[= <- ->])%bind_Ok); [by apply transform_loop_error in H2|].
    apply (filter_params_None _ _ (passes requested)) in H1 as [Hfl Hfi]; [|done]. constructor; [|by apply IH].
    by exists G, g', ps.
  - intros (r&rs'&(G'&g2&ps2&[= <-]&Em2&Er2&Eg2&Hfl&Hfi)&H2&->)%Forall2_cons_inv_l.
    rewrite Em in Em2. rewrite Er in Er2. injection Er2 as <-. rewrite Eg in Eg2. injection Em2 as Em2. injection Eg2 as <-.
    exists (Params r, None). split; [by apply (filter_params_None _ _ (passes requested))|]. apply bind_Ok. exists (rs', None).
    split; [by apply IH|]. rewrite Em2. by destruct r.
Qed.

Lemma Transform_Ok requested gens template s p rs :
  Transform requested gens template s p = Ok (rs, None) ↔
  selector_fits requested ∧ Forall2 (produces requested template s p) (GetRelevantGenerators requested gens) rs.
Proof.
  unfold Transform, selector_fits. pose proof (λ ps, proj1 (convert_valid ps)) as Hv1. pose proof (λ ps, proj2 (convert_valid ps)) as Hv2.
  destruct (LabelSelectorAsSelector (TopSelector requested)) as [e|sel] eqn:Es.
  - split; [done|]. intros [H _]. destruct (TopSelector requested) as [ls|]; [|done]. destruct (Hv2 ls H). congruence.
  - rewrite transform_loop_None.
    + split; [|tauto]. intros H. split; [|done]. destruct (TopSelector requested) as [ls|]; [|done]. apply Hv1. by exists sel.
    + intros q flat Hq. unfold passes. destruct (TopSelector requested) as [ls|]; cbn.
      * rewrite (convert_matches ls sel) by done. split; [intros (?&?&?) _; congruence|eauto].
      * by split.
Qed.

(** ** Applications *)

(** The templates and parameters to render *)
Definition inputs (results : list TransformResult) : list (ApplicationSetTemplate * params) :=
  concat ((λ a, (Template a,.) <$> Params a) <$> results).

Lemma note_failure_not_None first e r : note_failure first e r ≠ None.
Proof. by destruct first. Qed.

Lemma render_all_error s l first apps e : first ≠ None → render_all s l first = Ok (apps, e) → e ≠ None.
Proof.
  revert first apps. induction l as [|[t p] l IH]; intros first apps Hf; cbn [render_all]; [by intros [= <- <-]|].
  destruct (render_app s t p) as [app|err|]; [|apply IH, note_failure_not_None|done].
  intros ([apps' e']&H&[= <- <-])%bind_Ok. by apply IH in H.
Qed.

Lemma render_all_None s l apps :
  render_all s l None = Ok (apps, None) ↔ Forall2 (λ tp app, render_app s tp.1 tp.2 = Ok app) l apps.
Proof.
  revert apps. induction l as [|[t p] l IH]; intros apps; cbn [render_all].
  { split; [intros [= <-]; constructor|by intros ->%Forall2_nil_inv_l]. }
  destruct (render_app s t p) as [app|err|] eqn:Er.
  - rewrite bind_Ok. split.
    + intros ([apps' e]&H&[= <- ->]). constructor; [done|by apply IH].
    + intros (app'&apps'&Ha&H&->)%Forall2_cons_inv_l. cbn in Ha. rewrite Er in Ha. injection Ha as <-.
      exists (apps', None). split; [by apply IH|done].
  - split; [intros H; by apply render_all_error in H|]. intros (?&?&H&_)%Forall2_cons_inv_l. cbn in H. congruence.
  - split; [done|]. intros (?&?&H&_)%Forall2_cons_inv_l. cbn in H. congruence.
Qed.

Lemma generate_loop_error gens s rs first apps e : first ≠ None → generate_loop gens s rs first = Ok (apps, e) → e ≠ None.
Proof.
  revert first apps. induction rs as [|r rs IH]; intros first apps Hf; cbn [generate_loop]; [by intros [= <- <-]|].
  intros ([t [err|]]&_&H)%bind_Ok; [by apply IH in H; [|apply note_failure_not_None]|].
  apply bind_Ok in H as ([a1 e1]&H1&([a2 e2]&H2&[= <- <-])%bind_Ok). apply render_all_error in H1; [|done]. by apply IH in H2.
Qed.

Lemma generate_loop_None gens s rs apps :
  generate_loop gens s rs None = Ok (apps, None) ↔
  ∃ results, Forall2 (λ r t, Transform r gens (SetTemplate s) s ∅ = Ok (t, None)) rs results ∧
    Forall2 (λ tp app, render_app s tp.1 tp.2 = Ok app) (inputs (concat results)) apps.
Proof.
  revert apps. induction rs as [|r rs IH]; intros apps; cbn [generate_loop].
  { split; [intros [= <-]; exists []; split; constructor|]. by intros (?&->%Forall2_nil_inv_l&->%Forall2_nil_inv_l). }
  rewrite bind_Ok. split.
  - intros ([t [err|]]&Ht&H); [by apply generate_loop_error in H|].
    apply bind_Ok in H as ([a1 [e1|]]&H1&([a2 e2]&H2&[= <- ->])%bind_Ok); [by apply generate_loop_error in H2|].
    apply IH in H2 as (results&Hr&H2). exists (t :: results). split; [by constructor|]. unfold inputs. cbn [concat].
    rewrite fmap_app, concat_app. apply Forall2_app; [by apply render_all_None|done].
  - intros (?&(t&results&Ht&Hr&->)%Forall2_cons_inv_l&H). unfold inputs in H. cbn [concat] in H. rewrite fmap_app, concat_app in H.
    apply Forall2_app_inv_l in H as (a1&a2&H1&H2&->). exists (t, None). split; [done|]. apply bind_Ok. exists (a1, None).
    split; [by apply render_all_None|]. apply bind_Ok. exists (a2, None). split; [|done]. apply IH. by exists results.
Qed.

(** C19. Generating the applications of a set succeeds exactly if the selector of every generator
    is valid, every generator succeeds and all its parameters can be flattened, and every
    template can be rendered; then the applications are, in order, the template rendered
    with each set of parameters that the selector of its generator selects, one each. *)
Theorem GenerateApplications_complete gens s apps :
  GenerateApplications gens s = Ok (apps, None) ↔
  ∃ results, Forall selector_fits (SetGenerators s) ∧
    Forall2 (λ r t, Forall2 (produces r (SetTemplate s) s ∅) (GetRelevantGenerators r gens) t) (SetGenerators s) results ∧
    Forall2 (λ tp app, render_app s tp.1 tp.2 = Ok app) (inputs (concat results)) apps.
Proof.
  unfold GenerateApplications. rewrite generate_loop_None. f_equiv. intros results.
  assert (∀ gs, Forall2 (λ r t, Transform r gens (SetTemplate s) s ∅ = Ok (t, None)) gs results ↔
    Forall selector_fits gs ∧ Forall2 (λ r t, Forall2 (produces r (SetTemplate s) s ∅) (GetRelevantGenerators r gens) t) gs results) as ->; [|tauto].
  induction results as [|t results IH]; intros gs.
  - split; [intros ->%Forall2_nil_inv_r; split; constructor|by intros [_ ->%Forall2_nil_inv_r]].
  - split.
    + intros (r&gs'&[Hf Ht]%Transform_Ok&[Hfs H]%IH&->)%Forall2_cons_inv_r. by split; constructor.
    + intros [Hf (r&gs'&Ht&H&->)%Forall2_cons_inv_r]. apply Forall_cons in Hf as [? ?]. constructor; [by apply Transform_Ok|by apply IH].
Qed.

(** What every application is made of *)
Definition made_of (s : AppSet) (t : ApplicationSetTemplate) (p : params) (app : Application) : Prop :=
  AppNamespace app = SetNamespace s ∧
  ∃ base, RenderTemplateParams (GetTempApplication t) s p = Ok base ∧ Project (AppSpec app) = Project (AppSpec base) ∧
    (SetTemplatePatch s = None → app = with_namespace (SetNamespace s) base).

Lemma render_app_made s t p app : render_app s t p = Ok app → made_of s t p app.
Proof.
  unfold render_app. intros (base&Hb&(patched&Hp&[= <-])%bind_Ok)%bind_Ok. split; [done|]. exists base. split; [done|].
  destruct (SetTemplatePatch s) as [patch|]; [|injection Hp as <-; by split].
  unfold renderTemplatePatch, applyTemplatePatch in Hp.
  by apply bind_Ok in Hp as (text&_&(final&_&[= <-])%bind_Ok).
Qed.

Lemma render_all_made s l first apps e :
  render_all s l first = Ok (apps, e) → Forall (λ app, ∃ tp, tp ∈ l ∧ made_of s tp.1 tp.2 app) apps.
Proof.
  revert first apps. induction l as [|[t p] l IH]; intros first apps; cbn [render_all]; [by intros [= <- <-]|].
  assert (∀ apps, Forall (λ app, ∃ tp, tp ∈ l ∧ made_of s tp.1 tp.2 app) apps →
    Forall (λ app, ∃ tp, tp ∈ (t, p) :: l ∧ made_of s tp.1 tp.2 app) apps) as Hmore.
  { intros apps' Ha. eapply Forall_impl; [exact Ha|]. intros app (tp&Hin&Hm). exists tp. split; [by right|done]. }
  destruct (render_app s t p) as [app|err|] eqn:Er; [|by intros H; eapply Hmore, IH|done].
  intros ([apps' e']&H&[= <- <-])%bind_Ok. constructor; [|by eapply Hmore, IH].
  exists (t, p). split; [by left|by apply render_app_made].
Qed.

Lemma generate_loop_made gens s rs first apps e :
  generate_loop gens s rs first = Ok (apps, e) →
  Forall (λ app, ∃ r results tp, r ∈ rs ∧ Transform r gens (SetTemplate s) s ∅ = Ok (results, None) ∧ tp ∈ inputs results ∧
    made_of s tp.1 tp.2 app) apps.
Proof.
  revert first apps. induction rs as [|r rs IH]; intros first apps; cbn [generate_loop]; [by intros [= <- <-]|].
  assert (∀ first apps, generate_loop gens s rs first = Ok (apps, e) →
    Forall (λ app, ∃ r' results tp, r' ∈ r :: rs ∧ Transform r' gens (SetTemplate s) s ∅ = Ok (results, None) ∧ tp ∈ inputs results ∧
      made_of s tp.1 tp.2 app) apps) as Hmore.
  { intros f a Ha. eapply Forall_impl; [by eapply IH|]. intros app (r'&results&tp&Hr&?). exists r', results, tp. split; [by right|done]. }
  intros ([t [err|]]&Ht&H)%bind_Ok; [by eapply Hmore|].
  apply bind_Ok in H as ([a1 e1]&H1&([a2 e2]&H2&[= <- ->])%bind_Ok). apply Forall_app. split; [|by eapply Hmore].
  eapply Forall_impl; [by eapply render_all_made|]. intros app (tp&Hin&Hm). exists r, t, tp. split; [by left|done].
Qed.

(** C21. Every application that is generated, with an error elsewhere or not, is in the namespace
    of its set and in the project that its template renders to - neither parameters nor a
    template patch move it - and comes from a generator without an error.  Where no patch
    applies, an application rendered with some parameter of a set that deletes the resources
    of its applications has a finalizer. *)
Theorem generated_applications_confined gens s apps e :
  GenerateApplications gens s = Ok (apps, e) →
  Forall (λ app, AppNamespace app = SetNamespace s ∧
    ∃ r results t p base, r ∈ SetGenerators s ∧ Transform r gens (SetTemplate s) s ∅ = Ok (results, None) ∧ (t, p) ∈ inputs results ∧
      RenderTemplateParams (GetTempApplication t) s p = Ok base ∧ Project (AppSpec app) = Project (AppSpec base) ∧
      (SetTemplatePatch s = None → p ≠ ∅ →
       (∀ policy, SetSyncPolicy s = Some policy → PreserveResourcesOnDeletion policy = false) → AppFinalizers app ≠ [])) apps.
Proof.
  intros H%generate_loop_made. eapply Forall_impl; [exact H|].
  intros app (r&results&[t p]&Hr&Ht&Hin&[Hns (base&Hb&Hp&Hno)]). split; [done|].
  exists r, results, t, p, base. split_and!; [done..|]. intros Hpatch Hne Hpol. rewrite (Hno Hpatch). cbn [fst snd] in Hb. clear Hp Hno.
  unfold RenderTemplateParams in Hb. rewrite bool_decide_false in Hb by done. apply bind_Ok in Hb as (a&_&[= <-]).
  assert (match SetSyncPolicy s with Some s => PreserveResourcesOnDeletion s | None => false end = false) as ->
    by (destruct (SetSyncPolicy s); auto).
  cbn [negb andb]. destruct (AppFinalizers a) as [|f fs] eqn:Ea; cbn; [done|]. by rewrite Ea.
Qed.
End proofs.
