(* ===== verification/AppSetConditions.v ===== *)
(** * Status of application sets: conditions, health, resources

    The part of the status that the application set controller reports
    (src/applicationset/controllers/applicationset_controller.go, status/resource_status.go and
    src/pkg/apis/application/v1alpha1/applicationset_types.go). *)

From S2P Require Import Prelude GoStd GoTime Kube SyncCommon Health Rollout AppSetTypes.
Local Open Scope string_scope.
Local Open Scope list_scope.

Definition ErrorOccurred : string := "ErrorOccurred".
Definition ParametersGenerated : string := "ParametersGenerated".
Definition ResourcesUpToDate : string := "ResourcesUpToDate".
Definition RolloutProgressing : string := "RolloutProgressing".
Definition InvalidRolloutConfig : string := "InvalidRolloutConfig".
Definition StatusTrue : string := "True".
Definition StatusFalse : string := "False".

(** ** Storing conditions *)

Definition is_evaluated (evaluatedTypes : gmap string bool) (c : SetCondition) : bool := default false (evaluatedTypes !! CondType c).

Definition findCondition (t : string) (conditions : list SetCondition) : option SetCondition :=
  List.find (λ c, String.eqb (CondType c) t) conditions.

Definition dated (now : Z) (c : SetCondition) : SetCondition :=
  match CondTime c with
  | Some _ => c
  | None => {| CondType := CondType c; CondMessage := CondMessage c; CondTime := Some now; CondStatus := CondStatus c; CondReason := CondReason c |}
  end.

Definition same_text (c d : SetCondition) : bool :=
  String.eqb (CondMessage c) (CondMessage d) && String.eqb (CondReason c) (CondReason d) && String.eqb (CondStatus c) (CondStatus d).

(** A condition that did not change keeps its time. *)
Definition incoming (now : Z) (old : list SetCondition) (c : SetCondition) : SetCondition :=
  match findCondition (CondType c) old with
  | Some o => if same_text o c then o else dated now c
  | None => dated now c
  end.

Definition condition_before (l r : SetCondition) : bool :=
  if negb (String.eqb (CondType l) (CondType r)) then string_lt (CondType l) (CondType r)
  else if negb (String.eqb (CondStatus l) (CondStatus r)) then string_lt (CondStatus l) (CondStatus r)
  else if negb (String.eqb (CondReason l) (CondReason r)) then string_lt (CondReason l) (CondReason r)
  else if negb (String.eqb (CondMessage l) (CondMessage r)) then string_lt (CondMessage l) (CondMessage r)
  else match CondTime l, CondTime r with Some t, Some u => (t <? u)%Z | _, _ => false end.

Definition SetConditions {R : GoRuntime} (now : Z) (conditions : list SetCondition) (evaluatedTypes : gmap string bool)
    (old : list SetCondition) : list SetCondition :=
  go_sort condition_before
    ((dated now <$> List.filter (λ c, negb (is_evaluated evaluatedTypes c)) old) ++
     (incoming now old <$> List.filter (is_evaluated evaluatedTypes) conditions)).

(** ** Health *)

(** The loop: the first error ends it; the last rollout and the last success count. *)
Fixpoint health_loop (l : list SetCondition) (progressing healthy : option SetCondition) : HealthStatusCode * string :=
  match l with
  | [] =>
      match progressing, healthy with
      | Some c, _ => (HealthStatusProgressing, CondMessage c)
      | None, Some c => (HealthStatusHealthy, CondMessage c)
      | None, None => (HealthStatusUnknown, "Waiting for health status to be determined")
      end
  | c :: rest =>
      if negb (String.eqb (CondStatus c) StatusTrue) then health_loop rest progressing healthy
      else if String.eqb (CondType c) ErrorOccurred then (HealthStatusDegraded, CondMessage c)
      else if String.eqb (CondType c) RolloutProgressing then health_loop rest (Some c) healthy
      else if String.eqb (CondType c) ResourcesUpToDate then health_loop rest progressing (Some c)
      else health_loop rest progressing healthy
  end.

Definition CalculateHealth (conditions : list SetCondition) : HealthStatusCode * string :=
  match conditions with
  | [] => (HealthStatusUnknown, "No status conditions found for ApplicationSet")
  | _ => health_loop conditions None None
  end.

Definition set_conditions {R : GoRuntime} (now : Z) (conditions : list SetCondition) (evaluatedTypes : gmap string bool) (s : AppSet) : AppSet :=
  let st := SetStatus s in
  let conditions := SetConditions now conditions evaluatedTypes (StatusConditions st) in
  with_set_status {| StatusConditions := conditions; StatusHealth := CalculateHealth conditions;
                     StatusResources := StatusResources st; StatusResourcesCount := StatusResourcesCount st |} s.

(** ** The conditions that one call evaluates *)

Definition condition (t status reason message : string) : SetCondition :=
  {| CondType := t; CondMessage := message; CondTime := None; CondStatus := status; CondReason := reason |}.

Definition getParametersGeneratedCondition (parametersGenerated : bool) (message : string) : SetCondition :=
  if parametersGenerated then
    condition ParametersGenerated StatusTrue "ParametersGenerated" "Successfully generated parameters for all Applications"
  else condition ParametersGenerated StatusFalse "ErrorOccurred" message.

(** Whether [ParametersGenerated] is given, and the message of the last error before it *)
Fixpoint params_message (l : list SetCondition) (message : string) : bool * string :=
  match l with
  | [] => (false, message)
  | c :: rest =>
      if String.eqb (CondType c) ParametersGenerated then (true, message)
      else params_message rest (if String.eqb (CondType c) ErrorOccurred then CondMessage c else message)
  end.

Fixpoint evaluate (rolling : bool) (l : list SetCondition) (ev : gmap string bool) (acc : list SetCondition) :
    gmap string bool * list SetCondition :=
  match l with
  | [] => (ev, acc)
  | c :: rest =>
      let ev := <[CondType c := true]> ev in
      let acc := acc ++ [c] in
      let '(ev, acc) :=
        if String.eqb (CondType c) ResourcesUpToDate then
          if String.eqb (CondStatus c) StatusTrue then
            (<[ErrorOccurred := true]> ev, acc ++ [condition ErrorOccurred StatusFalse (CondReason c) (CondMessage c)])
          else (ev, acc)
        else if String.eqb (CondType c) ErrorOccurred then
          if String.eqb (CondStatus c) StatusTrue then
            (<[ResourcesUpToDate := true]> ev, acc ++ [condition ResourcesUpToDate StatusFalse "ErrorOccurred" (CondMessage c)])
          else (ev, acc)
        else if String.eqb (CondType c) RolloutProgressing || String.eqb (CondType c) InvalidRolloutConfig then
          (if rolling then ev else <[CondType c := false]> ev, acc)
        else (ev, acc) in
      evaluate rolling rest ev acc
  end.

Definition default_types (rolling : bool) : gmap string bool :=
  let ev := list_to_map [(ParametersGenerated, true); (ErrorOccurred, false); (ResourcesUpToDate, false); (RolloutProgressing, false);
                         (InvalidRolloutConfig, false)] in
  if rolling then ev else <[InvalidRolloutConfig := true]> (<[RolloutProgressing := true]> ev).

Definition new_conditions (rolling : bool) (conditions : list SetCondition) (parametersGenerated : bool) : gmap string bool * list SetCondition :=
  let '(hasParamsGenerated, paramsMsg) := params_message conditions "progressive sync" in
  evaluate rolling conditions (default_types rolling)
    (if hasParamsGenerated : bool then [] else [getParametersGeneratedCondition parametersGenerated paramsMsg]).

Definition conditions_differ (l previous : list SetCondition) : bool :=
  negb (Nat.eqb (length l) (length previous)) ||
  existsb (λ '(c, p), negb (String.eqb (CondType c) (CondType p)) || negb (same_text c p)) (zip l previous).

(** ** Resources (status/resource_status.go) *)

Definition GetResourceStatusMap (resources : list ResourceStatus) : gmap string ResourceStatus :=
  foldl (λ m r, <[ResName r := r]> m) ∅ resources.

Definition app_resource (app : Application) : ResourceStatus :=
  {| ResName := AppName app; ResNamespace := AppNamespace app; ResSync := AppSyncStatus (AppStatus app); ResHealth := AppHealth (AppStatus app) |}.

Definition BuildResourceStatus (statusMap : gmap string ResourceStatus) (apps : list Application) : gmap string ResourceStatus :=
  let appMap : gset string := list_to_set (AppName <$> apps) in
  let statusMap := foldl (λ m app, <[AppName app := app_resource app]> m) statusMap apps in
  filter (λ kv, kv.1 ∈ appMap) statusMap.

Definition resources_status {R : GoRuntime} (max : Z) (apps : list Application) (s : AppSet) : list ResourceStatus * Z :=
  let statuses := go_sort (λ a b, string_lt (ResName a) (ResName b))
    (snd <$> go_range (BuildResourceStatus (GetResourceStatusMap (StatusResources (SetStatus s))) apps)) in
  (if ((0 <? max) && (max <? Z.of_nat (length statuses)))%Z then take (Z.to_nat max) statuses else statuses, Z.of_nat (length statuses)).

Definition with_resources (r : list ResourceStatus * Z) (s : AppSet) : AppSet :=
  let st := SetStatus s in
  with_set_status {| StatusConditions := StatusConditions st; StatusHealth := StatusHealth st; StatusResources := r.1;
                     StatusResourcesCount := r.2 |} s.
