(* ===== verification/AppSetController.v ===== *)
(** * The application set controller (src/applicationset/controllers/applicationset_controller.go)

    One pass over an application set, as a program of calls ([Calls]): it generates the
    applications, validates them, advances a progressive sync, creates, updates and deletes
    applications as the policy allows, and stores the status of the set.  An error that a
    caller wraps keeps its kind; of the texts that are put before it only those are kept
    that the innermost function adds. *)

From S2P Require Import Prelude GoStd GoMatch GoTime Kube SyncCommon Health Rollout RolloutStatus AppSetSelector AppSetTypes AppSetGenerators AppSetConditions Calls.
From Stdlib Require Import Ascii.
Local Open Scope string_scope.
Local Open Scope list_scope.

(** ** Policies (applicationset/utils/policy.go) *)

Definition DefaultPolicy (appSetSyncPolicy : option ApplicationSetSyncPolicy) (controllerPolicy : ApplicationsSyncPolicy)
    (enablePolicyOverride : bool) : ApplicationsSyncPolicy :=
  match appSetSyncPolicy with
  | Some p => match ApplicationsSync p with
              | Some policy => if enablePolicyOverride then policy else controllerPolicy
              | None => controllerPolicy
              end
  | None => controllerPolicy
  end.

(** ** Libraries and answers

    Of [controllerutil] and apimachinery: owner references and finalizers; of the program, the
    comparison with ignored differences. *)
Class ControllerLibs : Type := {
  GetControllerOf : list OwnerReference → option OwnerReference;
  (** the owners with the set as the controller *)
  SetControllerReference : AppSet → list OwnerReference → error + list OwnerReference;
  ContainsFinalizer : list string → string → bool;
  AddFinalizer : list string → string → list string;
  RemoveFinalizer : list string → string → list string;
  BuildIgnoreDiffConfig : list string → option error;
  (** the live and the desired application without what is ignored *)
  normalize_pair : list string → Application → Application → error + (Application * Application);
  (** [errors.Is] with the errors of a cancelled or expired context *)
  is_canceled : error → bool;
  generator_error_text : generator_error → string;
  (** the fields of a specification that progressive sync only compares *)
  print_spec : AppSetTypes.ApplicationSpec → string;
  equal_spec : Rollout.ApplicationSpec → Rollout.ApplicationSpec → bool;
}.

Inductive call :=
  | GetSet
  | StoreSetStatus (s : AppSet)
  | UpdateSet (s : AppSet)
  | GetProject (name : string)
  | GetClusterServersByName (name : string)
  | GetCluster (server : string)
  | ListClusterSecrets
  | ListApps (owner namespace : string)
  | GetApp (namespace name : string)
  | CreateApp (app : AppSetTypes.Application)
  | PatchApp (live desired : AppSetTypes.Application)
  | PatchFinalizers (app : AppSetTypes.Application) (finalizers : list string)
  | UpdateApp (app : AppSetTypes.Application)
  | DeleteApp (namespace name : string).

(** What the pass is told, as a function of the calls made so far *)
Record set_env := {
  clock : list call → Z;
  get_set : list call → error + AppSet;
  (** a set that is stored comes back as the server has it *)
  store_status : list call → error + AppSet;
  update_set : list call → error + AppSet;
  get_project : list call → option error;
  servers_by_name : list call → error + list string;
  get_cluster : list call → error + ClusterSpecifier;
  informed_clusters : list call → error + list ClusterSpecifier;
  list_apps : list call → error + list AppSetTypes.Application;
  (** with the time of its deletion *)
  get_app : list call → error + (AppSetTypes.Application * option Z);
  write_app : list call → option error;
}.

(** The configuration of the controller *)
Record reconciler := {
  Policy : ApplicationsSyncPolicy;
  EnablePolicyOverride : bool;
  ControllerNamespace : string;
  EnableProgressiveSyncs : bool;
  GlobalPreservedAnnotations : list string;
  GlobalPreservedLabels : list string;
  MaxResourcesStatusCount : Z;
}.

Definition PreDeleteFinalizerName : string := "pre-delete-finalizer.apps.hanzo.ai".
Definition PostDeleteFinalizerName : string := "post-delete-finalizer.apps.hanzo.ai".
Definition NotifiedAnnotationKey : string := "notified.notifications.apps.hanzo.ai".
Definition AnnotationKeyRefresh : string := "apps.hanzo.ai/refresh".
Definition AnnotationKeyHydrate : string := "apps.hanzo.ai/hydrate".
Definition AnnotationApplicationSetRefresh : string := "apps.hanzo.ai/application-set-refresh".
Definition defaultPreservedFinalizers : list string := [PreDeleteFinalizerName; PostDeleteFinalizerName].
Definition defaultPreservedAnnotations : list string := [NotifiedAnnotationKey; AnnotationKeyRefresh; AnnotationKeyHydrate].
Definition ReconcileRequeueOnValidationError : Z := 3 * Minute.

Local Notation D := (Calls.D call).
Local Notation Application := AppSetTypes.Application.

(** The map of the errors of applications, and the error of the first name *)
Definition firstAppError (appErrors : gmap string error) : option error :=
  match sort_Strings (map_to_list appErrors).*1 with
  | [] => None
  | name :: _ => appErrors !! name
  end.

Section pass.
Context {R : GoRuntime} {L : AppSetLibs} {LK : LabelKeys} {C : ControllerLibs} {I : IntStr}.
Context (r : reconciler) (env : set_env) (generators : generator_kind → option Generator).

Definition tick : D Z := reads (λ log, inr (clock env log)).
Definition panicked : error := mkErr ReasonOther "panic".
Definition policy (s : AppSet) : ApplicationsSyncPolicy := DefaultPolicy (SetSyncPolicy s) (Policy r) (EnablePolicyOverride r).

(** ** The status of the set *)

(** [retry.RetryOnConflict]: the set is read and its changed status stored, up to [n] times.
    A set that cannot be read, but is there, counts as stored; one that is gone is an error. *)
Fixpoint update_status (n : nat) (change : Z → AppSet → AppSet) (s : AppSet) : D (AppSet * option error) :=
  match n with
  | 0 => mret (s, None)
  | S n =>
      got ← logged GetSet (get_set env);
      match got with
      | inl e => if IsNotFound e then mret (s, Some (wrap "error fetching updated application set: " e)) else mret (s, None)
      | inr fresh =>
          now ← tick;
          stored ← logged (StoreSetStatus (change now fresh)) (store_status env);
          match stored with
          | inr s => mret (s, None)
          | inl e => if IsConflict e && negb (Nat.eqb n 0) then update_status n change s else mret (s, Some e)
          end
      end
  end.

Definition DefaultRetrySteps : nat := 5.

(** The set with its new conditions, and the error *)
Definition setApplicationSetStatusCondition (s : AppSet) (conditions : list SetCondition) (parametersGenerated : bool) :
    D (AppSet * option error) :=
  let '(evaluatedTypes, newConditions) := new_conditions (IsRollingSyncStrategy (SetRollout s)) conditions parametersGenerated in
  let previous := StatusConditions (SetStatus s) in
  now ← tick;
  let s := set_conditions now newConditions evaluatedTypes s in
  if negb (conditions_differ (StatusConditions (SetStatus s)) previous) then mret (s, None)
  else
    '(s, e) ← update_status DefaultRetrySteps (λ now, set_conditions now newConditions evaluatedTypes) s;
    mret (s, match e with
             | Some e => if IsNotFound e then None else Some (wrap "unable to set application set condition: " e)
             | None => None
             end).

(** A condition whose error is ignored *)
Definition report (s : AppSet) (reason message : string) (parametersGenerated : bool) : D AppSet :=
  '(s, _) ← setApplicationSetStatusCondition s [condition ErrorOccurred StatusTrue reason message] parametersGenerated;
  mret s.

Definition setAppSetApplicationStatus (s : AppSet) (l : list ApplicationSetApplicationStatus) : D AppSet :=
  if needToUpdateStatus (SetRollout s) l then
    let sorted := go_sort (λ x y, string_lt (Rollout.Application x) (Rollout.Application y)) l in
    '(s, e) ← update_status DefaultRetrySteps (λ _, with_statuses sorted) (with_statuses sorted s);
    match e with Some e => fails (wrap "unable to set application set status: " e) | None => mret s end
  else mret s.

Definition with_target_revisions (st : ApplicationSetApplicationStatus) : ApplicationSetApplicationStatus :=
  with_revisions (default [] (TargetRevisions st)) st.

Definition migrateStatus (s : AppSet) : D AppSet :=
  let l := Rollout.ApplicationStatus (SetRollout s) in
  if existsb (λ st, bool_decide (TargetRevisions st = None)) l then
    let l := with_target_revisions <$> l in
    '(s, e) ← update_status DefaultRetrySteps (λ _, with_statuses l) (with_statuses l s);
    match e with
    | Some e => if IsNotFound e then mret s else fails (wrap "unable to set application set condition: " e)
    | None => mret s
    end
  else mret s.

Definition updateResourcesStatus (s : AppSet) (apps : list Application) : D AppSet :=
  let res := resources_status (MaxResourcesStatusCount r) apps s in
  '(s, e) ← update_status DefaultRetrySteps (λ _, with_resources res) (with_resources res s);
  match e with Some e => fails (wrap "unable to set application set status: " e) | None => mret s end.

(** ** Clusters *)

Fixpoint trim_slashes (s : string) : string :=
  match s with String c r => if Ascii.eqb c "/"%char then trim_slashes r else s | "" => "" end.
(** [strings.TrimRight(s, "/")] *)
Definition TrimRightSlash (s : string) : string := string_rev (trim_slashes (string_rev s)).

Definition bad_destination (text : string) : error := mkErr ReasonOther text.

Definition GetDestinationServer (d : ApplicationDestination) : D string :=
  if negb (String.eqb (DestName d) "") && negb (String.eqb (DestServer d) "") then
    fails (bad_destination "application destination can't have both name and server defined")
  else if negb (String.eqb (DestServer d) "") then mret (TrimRightSlash (DestServer d))
  else if negb (String.eqb (DestName d) "") then
    answer ← logged (GetClusterServersByName (DestName d)) (servers_by_name env);
    match answer with
    | inl e => fails (wrap "error getting cluster by name: " e)
    | inr [] => fails (bad_destination ("there are no clusters with this name: " +:+ DestName d))
    | inr [server] => mret server
    | inr _ => fails (bad_destination "there are several clusters with the same name")
    end
  else fails (bad_destination "Destination server missing from app spec").

Definition GetDestinationCluster (d : ApplicationDestination) : D ClusterSpecifier :=
  server ← GetDestinationServer d;
  answer ← logged (GetCluster server) (get_cluster env);
  match answer with inl e => fails (wrap "error getting cluster: " e) | inr c => mret c end.

Definition ListClusters : D (list ClusterSpecifier) :=
  answer ← logged ListClusterSecrets (informed_clusters env);
  match answer with
  | inl e => fails (wrap "error listing clusters: " e)
  | inr clusters => mret (with_in_cluster clusters)
  end.

(** ** Validation *)

Definition no_such_project (project : string) : error :=
  mkErr ReasonOther ("application references project " +:+ project +:+ " which does not exist").
Definition duplicate_name (s : AppSet) (name : string) : error :=
  mkErr ReasonOther ("ApplicationSet " +:+ SetName s +:+ " contains applications with duplicate name: " +:+ name).

(** The loop: names seen and errors by qualified name *)
Definition validate_app (s : AppSet) (acc : gset string * gmap string error) (app : Application) : D (gset string * gmap string error) :=
  let '(namesSet, errorsByApp) := acc in
  if bool_decide (AppName app ∈ namesSet) then mret (namesSet, <[QualifiedName app := duplicate_name s (AppName app)]> errorsByApp)
  else
    let namesSet := {[AppName app]} ∪ namesSet in
    failed ← logged (GetProject (Project (AppSpec app))) (get_project env);
    match failed with
    | Some e =>
        if IsNotFound e then mret (namesSet, <[QualifiedName app := no_such_project (Project (AppSpec app))]> errorsByApp) else fails e
    | None =>
        found ← caught (GetDestinationCluster (Destination (AppSpec app)));
        match found with
        | inl e => mret (namesSet, <[QualifiedName app := bad_destination ("application destination spec is invalid: " +:+ Error e)]> errorsByApp)
        | inr _ => mret (namesSet, errorsByApp)
        end
    end.

Definition validateGeneratedApplications (desired : list Application) (s : AppSet) : D (gmap string error) :=
  acc ← d_fold desired (∅, ∅) (validate_app s);
  mret acc.2.

(** ** Creating and updating *)

(** What is kept of the live map *)
Definition preserve (keys : list string) (live generated : gmap string string) : gmap string string :=
  foldl (λ m key, match live !! key with Some state => <[key := state]> m | None => m end) generated keys.

Definition preserved_finalizers (live : list string) : list string :=
  concat ((λ finalizer, List.filter (λ f, HasPrefix f finalizer) live) <$> defaultPreservedFinalizers).

(** The function that [CreateOrUpdate] runs on the application that it found *)
Definition mutate_found (s : AppSet) (generated found : Application) : error + Application :=
  match SetControllerReference s (AppOwners found) with
  | inl e => inl (wrap "error while wrapping using MutateFn: " e)
  | inr owners => inr
      {| AppName := AppName found; AppNamespace := AppNamespace found;
         AppLabels := preserve (PreservedLabels s ++ GlobalPreservedLabels r) (AppLabels found) (AppLabels generated);
         AppAnnotations := preserve (PreservedAnnotations s ++ GlobalPreservedAnnotations r ++ defaultPreservedAnnotations)
                             (AppAnnotations found) (AppAnnotations generated);
         AppFinalizers := AppFinalizers generated ++ preserved_finalizers (AppFinalizers found);
         AppOwners := owners; AppSpec := AppSpec generated;
         AppOperation := match AppOperation generated with Some o => Some o | None => AppOperation found end;
         AppStatus := AppStatus found |}
  end.

Definition empty_app (namespace name : string) : Application :=
  {| AppName := name; AppNamespace := namespace; AppLabels := ∅; AppAnnotations := ∅; AppFinalizers := []; AppOwners := [];
     AppSpec := no_spec; AppOperation := None; AppStatus := no_status |}.

Definition with_spec (spec : AppSetTypes.ApplicationSpec) (app : Application) : Application :=
  {| AppName := AppName app; AppNamespace := AppNamespace app; AppLabels := AppLabels app; AppAnnotations := AppAnnotations app;
     AppFinalizers := AppFinalizers app; AppOwners := AppOwners app; AppSpec := spec; AppOperation := AppOperation app;
     AppStatus := AppStatus app |}.

(** Ignored differences never change the name, the namespace or the operation. *)
Definition applyIgnoreDifferences (s : AppSet) (found generated : Application) : error + (Application * Application) :=
  match IgnoreApplicationDifferences s with
  | [] => inr (found, generated)
  | rules =>
      match normalize_pair rules found generated with
      | inl e => inl (wrap "failed to apply ignore differences: " e)
      | inr (found, g) => inr (found,
          {| AppName := AppName generated; AppNamespace := AppNamespace generated; AppLabels := AppLabels g;
             AppAnnotations := AppAnnotations g; AppFinalizers := AppFinalizers g; AppOwners := AppOwners g; AppSpec := AppSpec g;
             AppOperation := AppOperation generated; AppStatus := AppStatus g |})
      end
  end.

Definition CreateOrUpdate (s : AppSet) (generated : Application) : D unit :=
  got ← logged (GetApp (AppNamespace generated) (AppName generated)) (get_app env);
  match got with
  | inl e =>
      if negb (IsNotFound e) then fails e
      else
        app ← of_answer (mutate_found s generated (empty_app (AppNamespace generated) (AppName generated)));
        failed ← logged (CreateApp app) (write_app env);
        of_error failed
  | inr (live, _) =>
      app ← of_answer (mutate_found s generated live);
      '(live, app) ← of_answer (applyIgnoreDifferences s (with_spec (NormalizeApplicationSpec (AppSpec live)) live) app);
      if bool_decide (live = app) then mret tt
      else
        failed ← logged (PatchApp live app) (write_app env);
        of_error failed
  end.

(** Work on each application: errors by name, and the first error of a cancelled context *)
Definition each_step (work : Application → D unit) (acc : option error * gmap string error) (app : Application) :
    D (option error * gmap string error) :=
  let '(canceled, appErrors) := acc in
  done ← caught (work app);
  mret (match done with
        | inr _ => (canceled, appErrors)
        | inl e => if is_canceled e then (match canceled with Some e => Some e | None => Some e end, appErrors)
                   else (canceled, <[AppName app := e]> appErrors)
        end).

Definition for_each (apps : list Application) (work : Application → D unit) : D unit :=
  '(canceled, appErrors) ← d_fold apps (None, ∅) (each_step work);
  match canceled with Some e => fails e | None => of_error (firstAppError appErrors) end.

Definition createOrUpdateInCluster (s : AppSet) (desired : list Application) : D unit :=
  match BuildIgnoreDiffConfig (IgnoreApplicationDifferences s) with
  | Some e => fails (wrap "failed to build ignore diff config: " e)
  | None => for_each desired (λ app, CreateOrUpdate s (with_spec (NormalizeApplicationSpec (AppSpec app)) app))
  end.

Definition getCurrentApplications (s : AppSet) : D (list Application) :=
  answer ← logged (ListApps (SetName s) (SetNamespace s)) (list_apps env);
  match answer with inl e => fails (wrap "error retrieving applications: " e) | inr l => mret l end.

Definition not_in (apps : list Application) (app : Application) : bool := negb (bool_decide (AppName app ∈ AppName <$> apps)).

Definition createInCluster (s : AppSet) (desired : list Application) : D unit :=
  current ← getCurrentApplications s;
  createOrUpdateInCluster s (List.filter (not_in current) desired).

(** ** Deleting *)

Definition cluster_matches (dest cluster : ClusterSpecifier) : bool :=
  String.eqb (SpecifierServer dest) (SpecifierServer cluster) ||
  (negb (String.eqb (SpecifierName dest) "") && negb (String.eqb (SpecifierName cluster) "") &&
   String.eqb (SpecifierName dest) (SpecifierName cluster)).

Definition removeFinalizerOnInvalidDestination (app : Application) (clusterList : list ClusterSpecifier) : D unit :=
  match AppFinalizers app with
  | [] => mret tt
  | _ =>
      found ← caught (GetDestinationCluster (Destination (AppSpec app)));
      let validDestination := match found with inl _ => false | inr dest => existsb (cluster_matches dest) clusterList end in
      let newFinalizers := List.filter (λ f, negb (String.eqb f AppSetGenerators.ResourcesFinalizerName)) (AppFinalizers app) in
      if negb validDestination && negb (Nat.eqb (length newFinalizers) (length (AppFinalizers app))) then
        failed ← logged (PatchFinalizers app newFinalizers) (write_app env);
        match failed with Some e => fails (wrap "error updating finalizers: " e) | None => mret tt end
      else mret tt
  end.

Definition delete_app (clusterList : list ClusterSpecifier) (app : Application) : D unit :=
  _ ← removeFinalizerOnInvalidDestination app clusterList;
  failed ← logged (DeleteApp (AppNamespace app) (AppName app)) (write_app env);
  of_error failed.

Definition deleteInCluster (s : AppSet) (desired : list Application) : D unit :=
  clusterList ← ListClusters;
  current ← getCurrentApplications s;
  for_each (List.filter (not_in desired) current) (delete_app clusterList).

(** ** A set that is being deleted *)

Definition without_owners (app : Application) : Application :=
  {| AppName := AppName app; AppNamespace := AppNamespace app; AppLabels := AppLabels app; AppAnnotations := AppAnnotations app;
     AppFinalizers := AppFinalizers app; AppOwners := []; AppSpec := AppSpec app; AppOperation := AppOperation app;
     AppStatus := AppStatus app |}.

Definition removeOwnerReferencesOnDeleteAppSet (s : AppSet) : D unit :=
  applications ← getCurrentApplications s;
  d_fold applications tt (λ _ app,
    failed ← logged (UpdateApp (without_owners app)) (write_app env);
    of_error failed).

Definition as_rollout (app : Application) : App := rollout_app print_spec app.

(** The last application with a name *)
Definition named (apps : list Application) (name : string) : option Application := last (List.filter (λ a, String.eqb (AppName a) name) apps).

Fixpoint reverse_deletion (apps : list Application) (l : list deleteInOrder) : D Z :=
  match l with
  | [] => mret 0%Z
  | step :: rest =>
      match named apps (DeleteAppName step) with
      | None => fails panicked
      | Some app =>
          got ← logged (GetApp (AppNamespace app) (AppName app)) (get_app env);
          match got with
          | inl e => if IsNotFound e then reverse_deletion apps rest else fails e
          | inr (retrieved, deletionTimestamp) =>
              now ← tick;
              if match deletionTimestamp with Some t => (2 * Minute <? now - t)%Z | None => false end then
                fails (mkErr ReasonOther "application has not been deleted in over 2 minutes")
              else
                failed ← logged (DeleteApp (AppNamespace retrieved) (AppName retrieved)) (write_app env);
                match failed with
                | Some e => if IsNotFound e then reverse_deletion apps rest else fails e
                | None => mret (10 * Second)%Z
                end
          end
      end
  end.

Definition PerformReverseDeletion (s : AppSet) (currentApps : list Application) : D Z :=
  reverse_deletion currentApps (deletion_order (SetRollout s) (as_rollout <$> currentApps)).

Definition delete_set (s : AppSet) : D Z :=
  _ ← (if negb (AllowDelete (policy s)) then removeOwnerReferencesOnDeleteAppSet s else mret tt);
  requeueTime ← (if IsDeletionOrderReversed (SetRollout s)
                 then current ← getCurrentApplications s; PerformReverseDeletion s current else mret 0%Z);
  if (0 <? requeueTime)%Z then mret requeueTime
  else
    answer ← logged (UpdateSet (with_set_finalizers (RemoveFinalizer (SetFinalizers s) AppSetGenerators.ResourcesFinalizerName) s)) (update_set env);
    _ ← of_answer answer;
    mret 0%Z.

(** ** Progressive sync *)

Definition lift {A} (o : outcome A) : D A := match o with Returns a => mret a | Fails | Panics => fails panicked end.

(** The manager's calls to store statuses are made here, after what it computes. *)
Definition computed : Dependencies :=
  {| SetAppSetApplicationStatus _ a l := Returns {| Strategy := Strategy a; Rollout.ApplicationStatus := l |} |}.

Definition rollout_condition (c : ApplicationSetCondition) : SetCondition :=
  condition (ConditionType c) (ConditionStatus c) (ConditionReason c) (ConditionMessage c).

Definition PerformProgressiveSyncs (s : AppSet) (applications desired : list Application) : D (gset string) :=
  let b := buildAppDependencyList (SetRollout s) (as_rollout <$> desired) in
  now ← tick;
  a ← lift (UpdateApplicationSetApplicationStatus (D := computed) equal_spec 0 now (SetRollout s) (as_rollout <$> applications)
              (as_rollout <$> desired) (appStepMap b));
  s ← setAppSetApplicationStatus s (Rollout.ApplicationStatus a);
  let appsToSync := getAppsToSync (SetRollout s) (appDependencyList b) (as_rollout <$> applications) in
  now ← tick;
  '(a, issues) ← lift (UpdateApplicationSetApplicationStatusProgress (D := computed) 1 now (SetRollout s) appsToSync (appStepMap b)
                         (build_issues b));
  s ← setAppSetApplicationStatus s (Rollout.ApplicationStatus a);
  match omap id [getInvalidRolloutConfig (SetRollout s) issues; getProgressingCondition (SetRollout s)] with
  | [] => mret appsToSync
  | conditions => _ ← setApplicationSetStatusCondition s (rollout_condition <$> conditions) true; mret appsToSync
  end.

(** The set and the applications that may sync, or the set when the pass stops *)
Definition progressive_stage (s : AppSet) (current generated : list Application) : D (AppSet + AppSet * gset string) :=
  let statuses := Rollout.ApplicationStatus (SetRollout s) in
  let clear := if Nat.eqb (length statuses) 0 then mret s else setAppSetApplicationStatus s [] in
  if EnableProgressiveSyncs r then
    if IsRollingSyncStrategy (SetRollout s) then
      if Nat.eqb (length (steps_of (SetRollout s))) 0 then
        s ← report s "ApplicationSetRolloutError" "No steps defined for rollout" true; mret (inl s)
      else appsToSync ← PerformProgressiveSyncs s current generated; mret (inr (s, appsToSync))
    else s ← clear; mret (inr (s, ∅))
  else s ← clear; mret (inr (s, ∅)).

(** ** The pass *)

Definition error_message (errors : gmap string error) : string :=
  let message := default "" (n ← last (sort_Strings (map_to_list errors).*1); Error <$> errors !! n) in
  if Nat.ltb 1 (size errors) then message +:+ " (and " +:+ pretty (size errors - 1)%nat +:+ " more)" else message.

Definition reason_text (re : reason) : string :=
  match re with
  | ParamsGenerationError => "ApplicationGenerationFromParamsError"
  | RenderTemplateParamsError => "RenderTemplateParamsError"
  end.

(** A stage whose error is reported before it ends the pass *)
Definition or_report {A} (s : AppSet) (reason : string) (m : D A) : D A :=
  done ← caught m;
  match done with
  | inr a => mret a
  | inl e => _ ← report s reason (Error e) true; fails e
  end.

Definition apply_stage (s : AppSet) (validApps : list Application) : D unit :=
  if AllowUpdate (policy s) then or_report s "UpdateApplicationError" (createOrUpdateInCluster s validApps)
  else or_report s "CreateApplicationError" (createInCluster s validApps).

Definition delete_stage (s : AppSet) (generated : list Application) : D unit :=
  if AllowDelete (policy s) then or_report s "DeleteApplicationError" (deleteInCluster s generated) else mret tt.

Definition refresh_stage (s : AppSet) : D AppSet :=
  if bool_decide (is_Some (SetAnnotations s !! AnnotationApplicationSetRefresh)) then
    let s := with_set_annotations (delete AnnotationApplicationSetRefresh (SetAnnotations s)) s in
    answer ← logged (UpdateSet s) (update_set env);
    or_report s "RefreshApplicationError" (of_answer answer)
  else mret s.

Definition valid_apps (errors : gmap string error) (generated : list Application) : list Application :=
  List.filter (λ app, bool_decide (errors !! QualifiedName app = None)) generated.

(** The applications to create or update, in the order of their names *)
Definition desired_apps (s : AppSet) (appSyncMap : gset string) (errors : gmap string error) (generated : list Application) : list Application :=
  let validApps := valid_apps errors generated in
  go_sort (λ x y, string_lt (AppName x) (AppName y))
    (if EnableProgressiveSyncs r && RollingSyncStrategyEnabled (SetRollout s)
     then zip_with with_rollout validApps (SyncDesiredApplications (SetRollout s) appSyncMap (as_rollout <$> validApps))
     else validApps).

(** After the generated applications have been validated *)
Definition sync_set (s : AppSet) (generated : list Application) (errors : gmap string error) : D Z :=
  current ← getCurrentApplications s;
  stage ← progressive_stage s current generated;
  match stage with
  | inl _ => mret ReconcileRequeueOnValidationError
  | inr (s, appSyncMap) =>
      s ← (if Nat.eqb (size errors) 0 then mret s else report s "ApplicationValidationError" (error_message errors) true);
      _ ← apply_stage s (desired_apps s appSyncMap errors generated);
      _ ← delete_stage s generated;
      current ← getCurrentApplications s;
      s ← updateResourcesStatus s current;
      s ← refresh_stage s;
      requeueAfter ← lift (match getMinRequeueAfter generators s with Some t => Returns t | None => Panics end);
      if Nat.eqb (size errors) 0 then
        '(_, e) ← setApplicationSetStatusCondition s
          [condition ResourcesUpToDate StatusTrue "ApplicationSetUpToDate" "All applications have been generated successfully"] true;
        _ ← of_error e;
        mret requeueAfter
      else mret (if (requeueAfter =? 0)%Z then ReconcileRequeueOnValidationError else requeueAfter)
  end.

Definition generate_stage (s : AppSet) : D Z :=
  match GenerateApplications generators s with
  | Panic => fails panicked
  | Err e =>
      _ ← report s (reason_text ParamsGenerationError) (generator_error_text e) false;
      mret ReconcileRequeueOnValidationError
  | Ok (_, Some (e, re)) =>
      _ ← report s (reason_text re) (generator_error_text e) false;
      mret ReconcileRequeueOnValidationError
  | Ok (generated, None) =>
      validated ← caught (validateGeneratedApplications generated s);
      match validated with
      | inl e =>
          _ ← report s "ApplicationValidationError" (Error e) true;
          mret ReconcileRequeueOnValidationError
      | inr errors => sync_set s generated errors
      end
  end.

Definition reconcile_set (s : AppSet) : D Z :=
  s ← migrateStatus s;
  s ← (if EnableProgressiveSyncs r && IsDeletionOrderReversed (SetRollout s) &&
          negb (ContainsFinalizer (SetFinalizers s) AppSetGenerators.ResourcesFinalizerName) then
         answer ← logged (UpdateSet (with_set_finalizers (AddFinalizer (SetFinalizers s) AppSetGenerators.ResourcesFinalizerName) s)) (update_set env);
         of_answer answer
       else mret s);
  generate_stage s.

(** The time after which the set is reconciled again (0: when it changes) *)
Definition Reconcile : D Z :=
  got ← logged GetSet (get_set env);
  match got with
  | inl e => if IsNotFound e then mret 0%Z else fails e
  | inr s => match SetDeletionTimestamp s with Some _ => delete_set s | None => reconcile_set s end
  end.
End pass.
