(* ===== verification/AppSetControllerProofs.v ===== *)
(** * The application set controller: theorems

    Which calls a pass makes, whatever the API server answers: what it creates, updates and
    deletes follows from sets, lists and checks that it has been told of before. *)

From S2P Require Import Prelude GoStd GoMatch GoTime Kube SyncCommon Health Rollout RolloutStatus RolloutProofs AppSetSelector AppSetTypes AppSetGenerators AppSetGeneratorsProofs AppSetRendering AppSetConditions AppSetController Calls.
Local Open Scope string_scope.
Local Open Scope list_scope.

Local Notation Application := AppSetTypes.Application.

Section proofs.
Context {R : GoRuntime} {L : AppSetLibs} {LK : LabelKeys} {C : ControllerLibs} {I : IntStr}.
Context (r : reconciler) (env : set_env) (generators : generator_kind → option Generator) (log0 : list call).

(** ** What the pass has been told

    [log0]: the calls before the pass. *)

Definition answered (tr : list call) (c : call) (P : list call → Prop) : Prop :=
  ∃ pre, (log0 ++ pre ++ [c]) `prefix_of` tr ∧ P (log0 ++ pre ++ [c]).

(** What the pass uses of a set: which set it is, and its specification *)
Definition set_identity (s : AppSet) := (SetName s, SetNamespace s, set_spec s).

(** The API server has answered with this set, its metadata and status aside. *)
Definition source (tr : list call) (s : AppSet) : Prop :=
  ∃ c s0, set_identity s = set_identity s0 ∧
    answered tr c (λ l, (c = GetSet ∧ get_set env l = inr s0) ∨ (∃ x, c = StoreSetStatus x ∧ store_status env l = inr s0) ∨
                        (∃ x, c = UpdateSet x ∧ update_set env l = inr s0)).

(** These applications are generated without an error. *)
Definition generated (tr : list call) (gen : list Application) : Prop :=
  ∃ s, source tr s ∧ GenerateApplications generators s = Ok (gen, None).

(** The cluster of a destination has been found. *)
Definition destination_found (tr : list call) (d : ApplicationDestination) : Prop :=
  ∃ server, answered tr (GetCluster server) (λ l, ∃ c, get_cluster env l = inr c) ∧
    ((DestName d = "" ∧ DestServer d ≠ "" ∧ server = TrimRightSlash (DestServer d)) ∨
     (DestServer d = "" ∧ answered tr (GetClusterServersByName (DestName d)) (λ l, servers_by_name env l = inr [server]))).

Definition valid (tr : list call) (gen : list Application) (g : Application) : Prop :=
  g ∈ gen ∧ (∃ before after, gen = before ++ g :: after ∧ AppName g ∉ AppName <$> before ++ after) ∧
  answered tr (GetProject (Project (AppSpec g))) (λ l, get_project env l = None) ∧ destination_found tr (Destination (AppSpec g)).

(** The API server has listed these as the applications that the set controls, in the
    namespace of the set. *)
Definition listed (tr : list call) (s : AppSet) (owned : list Application) : Prop :=
  answered tr (ListApps (SetName s) (SetNamespace s)) (λ l, list_apps env l = inr owned).

(** An application that the set no longer generates, and whose deletion the policy allows *)
Definition deletable (tr : list call) (app : Application) : Prop :=
  ∃ s gen owned, source tr s ∧ AllowDelete (policy r s) = true ∧ generated tr gen ∧ AppName app ∉ AppName <$> gen ∧
    listed tr s owned ∧ app ∈ owned.

(** The set is being deleted. *)
Definition set_deleted (tr : list call) (s : AppSet) : Prop :=
  answered tr GetSet (λ l, get_set env l = inr s) ∧ SetDeletionTimestamp s ≠ None.

(** The application has been read, as [found]. *)
Definition retrieved (tr : list call) (app found : Application) : Prop :=
  answered tr (GetApp (AppNamespace app) (AppName app)) (λ l, ∃ t, get_app env l = inr (found, t)).

(** The application was not there to be read or to be deleted. *)
Definition is_gone (tr : list call) (app : Application) : Prop :=
  answered tr (GetApp (AppNamespace app) (AppName app)) (λ l, ∃ e, get_app env l = inl e ∧ IsNotFound e = true) ∨
  ∃ found, retrieved tr app found ∧
    answered tr (DeleteApp (AppNamespace found) (AppName found)) (λ l, ∃ e, write_app env l = Some e ∧ IsNotFound e = true).

(** The steps of the rollout that the applications belong to, by name *)
Definition rollout_step (s : AppSet) (apps : list Application) : gmap string nat :=
  appStepMap (buildAppDependencyList (SetRollout s) (as_rollout <$> apps)).

(** The application is the next to delete in reversed order: it belongs to a step, and all
    applications of later steps are gone. *)
Definition next_to_delete (tr : list call) (s : AppSet) (current : list Application) (app : Application) : Prop :=
  app ∈ current ∧ ∃ k, rollout_step s current !! AppName app = Some k ∧
    ∀ name' k', rollout_step s current !! name' = Some k' → (k < k')%nat →
      ∃ app', app' ∈ current ∧ AppName app' = name' ∧ is_gone tr app'.

Definition justified (tr : list call) (c : call) : Prop :=
  match c with
  | CreateApp app =>
      ∃ gen g, generated tr gen ∧ valid tr gen g ∧ AppName app = AppName g ∧ AppNamespace app = AppNamespace g ∧
        Destination (AppSpec app) = Destination (AppSpec g) ∧ Project (AppSpec app) = Project (NormalizeApplicationSpec (AppSpec g))
  | PatchApp _ app =>
      ∃ gen g, generated tr gen ∧ valid tr gen g ∧
        (∃ found, retrieved tr g found ∧ AppName app = AppName found ∧ AppNamespace app = AppNamespace found) ∧
        ((∃ s, source tr s ∧ AllowUpdate (policy r s) = true) ∨
         (∃ s owned, source tr s ∧ listed tr s owned ∧ AppName g ∉ AppName <$> owned))
  | PatchFinalizers app fs =>
      deletable tr app ∧ fs = List.filter (λ f, negb (String.eqb f AppSetGenerators.ResourcesFinalizerName)) (AppFinalizers app)
  | DeleteApp ns name =>
      (∃ app, deletable tr app ∧ AppNamespace app = ns ∧ AppName app = name) ∨
      (∃ s current app found, set_deleted tr s ∧ IsDeletionOrderReversed (SetRollout s) = true ∧ listed tr s current ∧
         next_to_delete tr s current app ∧ retrieved tr app found ∧ AppNamespace found = ns ∧ AppName found = name)
  | UpdateApp app =>
      ∃ s current app0, set_deleted tr s ∧ AllowDelete (policy r s) = false ∧ listed tr s current ∧ app0 ∈ current ∧
        app = without_owners app0
  | _ => True
  end.

(** ** The knowledge grows *)

Lemma answered_mono tr tr' c (P : list call → Prop) : tr `prefix_of` tr' → answered tr c P → answered tr' c P.
Proof. intros Hp (pre&H&HP). exists pre. split; [by etrans|done]. Qed.

Lemma told tr c (P : list call → Prop) : log0 `prefix_of` tr → P (tr ++ [c]) → answered (tr ++ [c]) c P.
Proof. intros [pre ->] HP. exists pre. by rewrite <-app_assoc in *. Qed.

Lemma source_mono tr tr' s : tr `prefix_of` tr' → source tr s → source tr' s.
Proof. intros Hp (c&s0&E&H). exists c, s0. split; [done|]. by eapply answered_mono. Qed.

Lemma source_spec tr s s' : set_identity s' = set_identity s → source tr s → source tr s'.
Proof. intros E (c&s0&E'&H). exists c, s0. split; [congruence|done]. Qed.

Lemma generated_mono tr tr' gen : tr `prefix_of` tr' → generated tr gen → generated tr' gen.
Proof. intros Hp (s&Hs&H). exists s. split; [by eapply source_mono|done]. Qed.

Lemma destination_mono tr tr' d : tr `prefix_of` tr' → destination_found tr d → destination_found tr' d.
Proof.
  intros Hp (server&Ha&H). exists server. split; [by eapply answered_mono|]. destruct H as [?|[? ?]]; [by left|right].
  split; [done|]. by eapply answered_mono.
Qed.

Lemma valid_mono tr tr' gen g : tr `prefix_of` tr' → valid tr gen g → valid tr' gen g.
Proof. intros Hp (?&?&?&?). split_and!; [done..|by eapply answered_mono|by eapply destination_mono]. Qed.

Lemma listed_mono tr tr' s owned : tr `prefix_of` tr' → listed tr s owned → listed tr' s owned.
Proof. apply answered_mono. Qed.

Lemma deletable_mono tr tr' app : tr `prefix_of` tr' → deletable tr app → deletable tr' app.
Proof.
  intros Hp (s&gen&owned&?&?&?&?&?&?). exists s, gen, owned.
  split_and!; [by eapply source_mono|done|by eapply generated_mono|done|by eapply listed_mono|done].
Qed.

Lemma set_deleted_mono tr tr' s : tr `prefix_of` tr' → set_deleted tr s → set_deleted tr' s.
Proof. intros Hp [H ?]. split; [by eapply answered_mono|done]. Qed.

Lemma retrieved_mono tr tr' app found : tr `prefix_of` tr' → retrieved tr app found → retrieved tr' app found.
Proof. apply answered_mono. Qed.

Lemma is_gone_mono tr tr' app : tr `prefix_of` tr' → is_gone tr app → is_gone tr' app.
Proof.
  intros Hp [H|(found&?&H)]; [left|right; exists found; split; [by eapply retrieved_mono|]]; by eapply answered_mono.
Qed.

Lemma prefix_snoc {A} (l : list A) x : l `prefix_of` l ++ [x].
Proof. by exists [x]. Qed.

Local Notation sound m log Q := (safe justified m log Q).

(** ** The status of the set *)

(** The set that a part of the program leaves *)
Definition stays (tr : list call) (res : error + (AppSet * option error)) : Prop := ∃ s e, res = inr (s, e) ∧ source tr s.
Definition stays_unless_error (tr : list call) (res : error + AppSet) : Prop := match res with inl _ => True | inr s => source tr s end.

Lemma update_status_sound n change s log : log0 `prefix_of` log → source log s → sound (update_status env n change s) log stays.
Proof.
  revert s log. induction n as [|n IH]; intros s log Hp Hs; cbn [update_status].
  { safe_step. by exists s, None. }
  assert (source (log ++ [GetSet]) s) as Hs' by (eapply source_mono; [apply prefix_snoc|done]).
  do 2 safe_step; [done|]. destruct (get_set env (log ++ [GetSet])) as [e|fresh].
  { destruct (IsNotFound e); safe_step; by eexists s, _. }
  safe_step. apply safe_read. cbn beta iota. safe_step. safe_step; [done|].
  set (c := StoreSetStatus _). set (tr := (log ++ [GetSet]) ++ [c]).
  assert (log0 `prefix_of` log ++ [GetSet]) as Hp1 by (etrans; [done|apply prefix_snoc]).
  assert (source tr s) as Hs'' by (eapply source_mono; [apply prefix_snoc|done]).
  destruct (store_status env tr) as [e|s'] eqn:E.
  - destruct (IsConflict e && _); [|safe_step; by eexists s, _]. apply IH; [|done]. etrans; [done|apply prefix_snoc].
  - safe_step. exists s', None. split; [done|]. exists c, s'. split; [done|]. apply told; [done|]. right. left. by eexists.
Qed.

Lemma setCondition_sound s cs b log :
  log0 `prefix_of` log → source log s → sound (setApplicationSetStatusCondition env s cs b) log stays.
Proof.
  intros Hp Hs. unfold setApplicationSetStatusCondition. destruct (new_conditions _ _ _) as [ev new]. safe_step. apply safe_read. cbn beta iota.
  destruct (negb _); [safe_step; by eexists _, _|]. safe_step.
  eapply safe_mono; [by apply update_status_sound|]. cbn beta. intros tr res _ (s'&e&->&Hs'). safe_step. by eexists s', _.
Qed.

Lemma report_sound s reason message b log :
  log0 `prefix_of` log → source log s → sound (report env s reason message b) log (λ tr res, ∃ s', res = inr s' ∧ source tr s').
Proof.
  intros Hp Hs. unfold report. safe_step. eapply safe_mono; [by apply setCondition_sound|]. cbn beta.
  intros tr res _ (s'&e&->&Hs'). safe_step. by exists s'.
Qed.

Lemma setStatuses_sound s l log :
  log0 `prefix_of` log → source log s → sound (setAppSetApplicationStatus env s l) log stays_unless_error.
Proof.
  intros Hp Hs. unfold setAppSetApplicationStatus. destruct (needToUpdateStatus _ _); [|by safe_step]. safe_step.
  eapply safe_mono; [by apply update_status_sound|]. cbn beta. intros tr res _ (s'&[e|]&->&Hs'); by safe_step.
Qed.

Lemma migrateStatus_sound s log : log0 `prefix_of` log → source log s → sound (migrateStatus env s) log stays_unless_error.
Proof.
  intros Hp Hs. unfold migrateStatus. destruct (existsb _ _); [|by safe_step]. safe_step.
  eapply safe_mono; [by apply update_status_sound|]. cbn beta. intros tr res _ (s'&[e|]&->&Hs'); [destruct (IsNotFound e)|]; by safe_step.
Qed.

Lemma updateResources_sound s apps log :
  log0 `prefix_of` log → source log s → sound (updateResourcesStatus r env s apps) log stays_unless_error.
Proof.
  intros Hp Hs. unfold updateResourcesStatus. safe_step.
  eapply safe_mono; [by apply update_status_sound|]. cbn beta. intros tr res _ (s'&[e|]&->&Hs'); by safe_step.
Qed.

(** ** Validation *)

Definition if_found {A} (P : list call → A → Prop) (tr : list call) (res : error + A) : Prop := match res with inl _ => True | inr a => P tr a end.

Lemma GetDestinationCluster_sound d log :
  log0 `prefix_of` log → sound (GetDestinationCluster env d) log (if_found (λ tr _, destination_found tr d)).
Proof.
  intros Hp. unfold GetDestinationCluster. safe_step.
  apply (safe_mono _ _ _ (if_found (λ tr server,
    (DestName d = "" ∧ DestServer d ≠ "" ∧ server = TrimRightSlash (DestServer d)) ∨
    (DestServer d = "" ∧ answered tr (GetClusterServersByName (DestName d)) (λ l, servers_by_name env l = inr [server]))))).
  - unfold GetDestinationServer.
    destruct (String.eqb_spec (DestName d) "") as [En|En], (String.eqb_spec (DestServer d) "") as [Es|Es]; cbn [negb andb];
      [by safe_step|by safe_step; left| |by safe_step].
    safe_step. safe_step; [done|]. destruct (servers_by_name env _) as [e|[|server [|]]] eqn:E; [by safe_step..| |by safe_step].
    safe_step. right. split; [done|]. by apply told.
  - intros tr [e|server] Hp' H; [done|]. cbn beta iota. safe_step. safe_step; [done|].
    destruct (get_cluster env _) as [e|c] eqn:E; safe_step; [done|]. exists server. split.
    + apply told; [by etrans|]. by exists c.
    + destruct H as [?|[? ?]]; [by left|right]. split; [done|]. eapply answered_mono; [apply prefix_snoc|done].
Qed.

(** The applications of a set have one namespace, so a name is a qualified name. *)
Lemma QualifiedName_inj a b : AppNamespace a = AppNamespace b → QualifiedName a = QualifiedName b ↔ AppName a = AppName b.
Proof.
  intros E. unfold QualifiedName. rewrite E. destruct (String.eqb _ _); [done|]. split; [|by intros ->].
  intros H. change (AppNamespace b +:+ "/" +:+ AppName a) with (String.append (AppNamespace b) (String.append "/" (AppName a))) in H.
  by apply (inj (String.append _)), (inj (String.append _)) in H.
Qed.

Definition without_error (gen : list Application) (errors : gmap string error) (tr : list call) : Prop :=
  ∀ g, g ∈ gen → errors !! QualifiedName g = None → valid tr gen g.

Lemma valid_snoc tr gen g x : valid tr gen g → AppName g ≠ AppName x → valid tr (gen ++ [x]) g.
Proof.
  intros (Hg&(b&a&->&Hn)&Hpr&Hd) Hx. split; [by apply elem_of_app; left|]. split; [|done].
  exists b, (a ++ [x]). split; [by rewrite <-app_assoc|]. rewrite app_assoc, fmap_app, not_elem_of_app. split; [done|].
  cbn. by rewrite list_elem_of_singleton.
Qed.

Lemma validate_sound gen s ns log :
  log0 `prefix_of` log → Forall (λ g, AppNamespace g = ns) gen →
  sound (validateGeneratedApplications env gen s) log (if_found (λ tr errors, without_error gen errors tr)).
Proof.
  intros Hp Hns. unfold validateGeneratedApplications. safe_step.
  apply (safe_fold _ (λ done acc tr, (∀ n, n ∈ acc.1 ↔ n ∈ AppName <$> done) ∧ without_error done acc.2 tr)).
  { split; [cbn; set_solver|]. by intros g ?%elem_of_nil. }
  2:{ intros [names errors] tr [_ H] _. by safe_step. }
  intros done x rest [names errors] tr Hl Hp' [Hn Hv]. cbn [fst snd] in *. unfold validate_app.
  assert (log0 `prefix_of` tr) as Hp0 by by etrans.
  assert (∀ g, g ∈ done ++ [x] → AppNamespace g = AppNamespace x) as Hsame.
  { intros g Hg. rewrite Forall_forall in Hns. rewrite !Hns; [done|rewrite Hl; set_solver|rewrite Hl; set_solver]. }
  (* a later error of [x] *)
  assert (∀ tr' e, tr `prefix_of` tr' → without_error (done ++ [x]) (<[QualifiedName x := e]> errors) tr') as Hbad.
  { intros tr' e Hpt g Hg [Herr Hne]%lookup_insert_None. apply elem_of_app in Hg as [Hg|Hg%list_elem_of_singleton]; [|by subst].
    apply valid_snoc; [by eapply valid_mono, Hv|]. rewrite <-QualifiedName_inj; [congruence|]. apply Hsame, elem_of_app. by left. }
  case_bool_decide as Hin.
  { safe_step. cbn [fst snd]. split; [|by apply Hbad]. intros n. rewrite Hn, fmap_app, elem_of_app. cbn. rewrite list_elem_of_singleton.
    split; [by left|]. intros [? | ->]; [done|by apply Hn]. }
  assert (∀ n, n ∈ {[AppName x]} ∪ names ↔ n ∈ AppName <$> (done ++ [x])) as Hn'.
  { intros n. rewrite elem_of_union, elem_of_singleton, fmap_app, elem_of_app, Hn. cbn. rewrite list_elem_of_singleton. tauto. }
  safe_step. safe_step; [done|]. destruct (get_project env _) as [e|] eqn:Epr.
  { destruct (IsNotFound e); safe_step; [|done]. split; [done|]. apply Hbad, prefix_snoc. }
  safe_step. safe_step. eapply safe_mono; [apply GetDestinationCluster_sound; etrans; [done|apply prefix_snoc]|]. cbn beta.
  intros tr' [e|c] Hpt Hd; safe_step; (split; [done|]); cbn [snd].
  { apply Hbad. etrans; [apply prefix_snoc|done]. }
  intros g Hg Herr. apply elem_of_app in Hg as [Hg|Hg%list_elem_of_singleton].
  - apply valid_snoc; [eapply valid_mono, Hv; [etrans; [apply prefix_snoc|done]|done..]|].
    intros E. apply Hin, Hn. rewrite <-E. by apply list_elem_of_fmap_2.
  - subst g. split; [by apply elem_of_app; right; left|]. split; [|split; [|done]].
    + exists done, []. split; [done|]. rewrite app_nil_r, <-Hn. done.
    + eapply answered_mono; [done|]. by apply told.
Qed.

(** ** Creating and updating *)

Definition anything {A} (tr : list call) (res : error + A) : Prop := True.

Lemma for_each_sound apps work log :
  log0 `prefix_of` log → (∀ app tr, app ∈ apps → log `prefix_of` tr → sound (work app) tr anything) →
  sound (for_each apps work) log anything.
Proof.
  intros Hp Hw. unfold for_each. safe_step. apply (safe_fold _ (λ _ _ _, True)); [done| |].
  - intros done x rest [canceled errs] tr -> Hp' _. cbn [each_step]. safe_step. safe_step. eapply safe_mono; [apply Hw; [set_solver|done]|].
    intros tr' res _ _. by safe_step.
  - intros [canceled errs] tr _ _. destruct canceled; by safe_step.
Qed.

(** An application to create or update is a valid one that was generated; progressive sync
    and normalization do not touch where it goes. *)
Definition desired (tr : list call) (a : Application) : Prop :=
  ∃ gen g, generated tr gen ∧ valid tr gen g ∧ AppName a = AppName g ∧ AppNamespace a = AppNamespace g ∧
    Destination (AppSpec a) = Destination (AppSpec g) ∧
    Project (NormalizeApplicationSpec (AppSpec a)) = Project (NormalizeApplicationSpec (AppSpec g)).

Lemma desired_mono tr tr' a : tr `prefix_of` tr' → desired tr a → desired tr' a.
Proof. intros Hp (gen&g&?&?&?). exists gen, g. split_and!; [by eapply generated_mono|by eapply valid_mono|naive_solver..]. Qed.

(** The policy of the set allows updates, or its applications have been listed and the
    application is none of them. *)
Definition may_change (tr : list call) (a : Application) : Prop :=
  (∃ s, source tr s ∧ AllowUpdate (policy r s) = true) ∨
  (∃ s owned, source tr s ∧ listed tr s owned ∧ AppName a ∉ AppName <$> owned).

Lemma may_change_mono tr tr' a : tr `prefix_of` tr' → may_change tr a → may_change tr' a.
Proof.
  intros Hp [(s&?&?)|(s&owned&?&?&?)]; [left; exists s|right; exists s, owned].
  - split; [by eapply source_mono|done].
  - split; [by eapply source_mono|]. split; [by eapply listed_mono|done].
Qed.

Lemma CreateOrUpdate_sound s a log :
  log0 `prefix_of` log → desired log a → may_change log a →
  sound (CreateOrUpdate r env s (with_spec (NormalizeApplicationSpec (AppSpec a)) a)) log anything.
Proof.
  intros Hp Ha Hm. unfold CreateOrUpdate. safe_step. safe_step; [done|]. cbn [with_spec AppNamespace AppName].
  set (c := GetApp _ _). assert (log `prefix_of` log ++ [c]) as Hpc by apply prefix_snoc.
  destruct (get_app env (log ++ [c])) as [e|[live t]] eqn:Eg.
  - destruct (negb (IsNotFound e)); [by safe_step|]. safe_step. safe_step. destruct (mutate_found _ _ _ _) as [e'|app] eqn:Em; [done|].
    safe_step. safe_step; [|by safe_step]. unfold mutate_found in Em. destruct (SetControllerReference _ _); [done|]. injection Em as <-.
    cbn [justified AppName AppNamespace AppSpec empty_app with_spec].
    destruct Ha as (gen&g&Hgen&Hv&En&Ens&Ed&Epr). exists gen, g.
    split_and!; [eapply generated_mono; [|done]; etrans; [exact Hpc|apply prefix_snoc]
                |eapply valid_mono; [|done]; etrans; [exact Hpc|apply prefix_snoc]|done..].
  - safe_step. safe_step. destruct (mutate_found _ _ _ _) as [e'|app] eqn:Em; [done|]. safe_step. safe_step.
    destruct (applyIgnoreDifferences _ _ _) as [e'|[live' app']] eqn:Ei; [done|]. case_bool_decide; [by safe_step|].
    safe_step. safe_step; [|by safe_step].
    cbn [justified]. destruct Ha as (gen&g&Hgen&Hv&En&Ens&Ed&Epr). exists gen, g. set (tr := _ ++ [PatchApp _ _]).
    assert (log `prefix_of` tr) as Hpt by (etrans; [exact Hpc|apply prefix_snoc]).
    split; [by eapply generated_mono|]. split; [by eapply valid_mono|]. split.
    + unfold retrieved. rewrite <-En, <-Ens. exists live. split.
      * eapply answered_mono; [apply prefix_snoc|]. apply told; [done|]. by exists t.
      * unfold mutate_found in Em. destruct (SetControllerReference _ _); [done|]. injection Em as <-.
        unfold applyIgnoreDifferences in Ei. destruct (IgnoreApplicationDifferences s); [by injection Ei as _ <-|].
        destruct (normalize_pair _ _ _) as [|[f g']]; [done|]. by injection Ei as _ <-.
    + rewrite <-En. by apply (may_change_mono _ _ _ Hpt).
Qed.

Lemma createOrUpdate_sound s apps log :
  log0 `prefix_of` log → (∀ a, a ∈ apps → desired log a ∧ may_change log a) →
  sound (createOrUpdateInCluster r env s apps) log anything.
Proof.
  intros Hp Ha. unfold createOrUpdateInCluster. destruct (BuildIgnoreDiffConfig _); [by safe_step|].
  apply for_each_sound; [done|]. intros app tr Hin Hpt. destruct (Ha app Hin).
  apply CreateOrUpdate_sound; [by etrans|by eapply desired_mono|by eapply may_change_mono].
Qed.

Lemma getCurrent_sound s log :
  log0 `prefix_of` log → sound (getCurrentApplications env s) log (if_found (λ tr l, listed tr s l)).
Proof.
  intros Hp. unfold getCurrentApplications. safe_step. safe_step; [done|]. destruct (list_apps env _) as [e|l] eqn:E; safe_step; [done|].
  by apply told.
Qed.

Lemma not_in_spec apps a : not_in apps a = true ↔ AppName a ∉ AppName <$> apps.
Proof. unfold not_in. rewrite negb_true_iff. apply bool_decide_eq_false. Qed.

Lemma createInCluster_sound s apps log :
  log0 `prefix_of` log → source log s → (∀ a, a ∈ apps → desired log a) → sound (createInCluster r env s apps) log anything.
Proof.
  intros Hp Hs Ha. unfold createInCluster. safe_step. eapply safe_mono; [by apply getCurrent_sound|]. cbn beta.
  intros tr [e|current] Hpt Hl; [done|]. apply createOrUpdate_sound; [by etrans|]. intros a [Hin Hn]%list_elem_of_In%filter_In.
  apply list_elem_of_In in Hin. split; [by eapply desired_mono, Ha|]. right. exists s, current.
  split; [by eapply source_mono|]. split; [done|by apply not_in_spec].
Qed.

(** ** Deleting *)

Lemma delete_app_sound clusters app log :
  log0 `prefix_of` log → deletable log app → sound (delete_app env clusters app) log anything.
Proof.
  intros Hp Hd. unfold delete_app. safe_step.
  apply (safe_mono _ _ _ anything).
  - unfold removeFinalizerOnInvalidDestination. destruct (AppFinalizers app) as [|f fs] eqn:Ef; [by safe_step|]. do 2 safe_step.
    eapply safe_mono; [by apply GetDestinationCluster_sound|]. cbn beta. intros tr res Hpt _.
    destruct (_ && _); [|by safe_step]. safe_step. safe_step; [|by destruct (write_app env _); safe_step].
    split; [|by rewrite Ef]. eapply deletable_mono; [|done]. etrans; [exact Hpt|apply prefix_snoc].
  - intros tr [e|[]] Hpt _; [done|]. safe_step. safe_step; [|by safe_step]. left. exists app. split; [|done].
    eapply deletable_mono; [|done]. etrans; [exact Hpt|apply prefix_snoc].
Qed.

Lemma ListClusters_sound log : sound (ListClusters env) log anything.
Proof. unfold ListClusters. safe_step. safe_step; [done|]. by destruct (informed_clusters env _); safe_step. Qed.

Lemma deleteInCluster_sound s gen log :
  log0 `prefix_of` log → source log s → AllowDelete (policy r s) = true → generated log gen →
  sound (deleteInCluster env s gen) log anything.
Proof.
  intros Hp Hs Hpol Hg. unfold deleteInCluster. safe_step. eapply safe_mono; [apply ListClusters_sound|]. cbn beta.
  intros tr [e|clusters] Hpt _; [done|]. safe_step. eapply safe_mono; [apply getCurrent_sound; by etrans|]. cbn beta.
  intros tr' [e|current] Hpt' Hl; [done|]. apply for_each_sound; [etrans; [exact Hp|]; etrans; [exact Hpt|exact Hpt']|].
  intros app tr2 [Hin Hn]%list_elem_of_In%filter_In Hpt2. apply list_elem_of_In in Hin.
  assert (log `prefix_of` tr2) as Hlt by (etrans; [exact Hpt|]; etrans; [exact Hpt'|done]).
  apply delete_app_sound; [by etrans|]. exists s, gen, current.
  split_and!; [by eapply source_mono|done|by eapply generated_mono|by apply not_in_spec|by eapply listed_mono, Hl|done].
Qed.

(** ** A set that is being deleted *)

Lemma removeOwners_sound s log :
  log0 `prefix_of` log → set_deleted log s → AllowDelete (policy r s) = false →
  sound (removeOwnerReferencesOnDeleteAppSet env s) log anything.
Proof.
  intros Hp Hd Ha. unfold removeOwnerReferencesOnDeleteAppSet. safe_step. eapply safe_mono; [by apply getCurrent_sound|]. cbn beta.
  intros tr [e|apps] Hpt Hl; [done|]. apply (safe_fold _ (λ _ _ _, True)); [done| |done].
  intros done x rest acc tr' -> Hpt' _. safe_step. safe_step; [|by safe_step; destruct (write_app env _)].
  set (tr2 := tr' ++ [UpdateApp _]). assert (tr `prefix_of` tr2) as Hp2 by (etrans; [exact Hpt'|apply prefix_snoc]).
  exists s, (done ++ x :: rest), x. split; [|split; [exact Ha|split; [|split; [|reflexivity]]]].
  - eapply set_deleted_mono; [|exact Hd]. by etrans.
  - by eapply listed_mono, Hl.
  - apply elem_of_app. right. by left.
Qed.

Lemma named_spec apps name app : named apps name = Some app → app ∈ apps ∧ AppName app = name.
Proof.
  intros H%last_Some_elem_of. apply list_elem_of_In, filter_In in H as [?%list_elem_of_In ?%String.eqb_eq]. done.
Qed.

(** [done]: the part of the order that has been gone through *)
Lemma reverse_deletion_sound s apps done l log :
  log0 `prefix_of` log → set_deleted log s → IsDeletionOrderReversed (SetRollout s) = true → listed log s apps →
  deletion_order (SetRollout s) (as_rollout <$> apps) = done ++ l →
  (∀ t, t ∈ done → ∃ app, app ∈ apps ∧ AppName app = DeleteAppName t ∧ is_gone log app) →
  sound (reverse_deletion env apps l) log anything.
Proof.
  revert done log. induction l as [|step l IH]; intros done log Hp Hd Hr Hl Ho Hdone; cbn [reverse_deletion]; [by safe_step|].
  destruct (named apps _) as [app|] eqn:En; [|by safe_step]. apply named_spec in En as [Hin En].
  assert (∀ tr, log `prefix_of` tr → is_gone tr app → sound (reverse_deletion env apps l) tr anything) as Hnext.
  { intros tr Hpt Hg. apply (IH (done ++ [step])); [by etrans|by eapply set_deleted_mono|done|by eapply listed_mono| |].
    - by rewrite <-app_assoc.
    - intros t [Ht| ->%list_elem_of_singleton]%elem_of_app; [|by exists app].
      destruct (Hdone t Ht) as (a&?&?&?). exists a. split_and!; [done..|by eapply is_gone_mono]. }
  safe_step. safe_step; [done|]. set (c := GetApp _ _).
  assert (log `prefix_of` log ++ [c]) as Hpc by apply prefix_snoc.
  destruct (get_app env _) as [e|[found t]] eqn:Eg.
  { destruct (IsNotFound e) eqn:Ee; [|by safe_step]. apply Hnext; [done|]. left. apply told; [done|]. by exists e. }
  assert (retrieved (log ++ [c]) app found) as Hf by (apply told; [done|by exists t]).
  safe_step. apply safe_read. cbn beta iota. destruct (match t with Some _ => _ | None => _ end); [by safe_step|].
  set (d := DeleteApp _ _). assert (log `prefix_of` (log ++ [c]) ++ [d]) as Hpd by (etrans; [exact Hpc|apply prefix_snoc]).
  safe_step. safe_step.
  - right. exists s, apps, app, found. split; [by eapply set_deleted_mono|]. split; [done|]. split; [by eapply listed_mono|].
    split; [|split; [eapply retrieved_mono, Hf; apply prefix_snoc|done]]. split; [done|].
    assert (step ∈ deletion_order (SetRollout s) (as_rollout <$> apps)) as Hs by (rewrite Ho; apply elem_of_app; right; by left).
    apply deletion_order_inv in Hs as (k&Hk&_). exists k. rewrite En. split; [done|]. intros name' k' Hk' Hlt.
    destruct (deletion_order_before _ _ done step l k name' k' Ho Hk Hk' Hlt) as (t'&Ht'&<-).
    destruct (Hdone t' Ht') as (a&?&?&?). exists a. split_and!; [done..|by eapply is_gone_mono].
  - destruct (write_app env _) as [e|] eqn:Ew; [|by safe_step]. destruct (IsNotFound e) eqn:Ee; [|by safe_step].
    apply Hnext; [done|]. right. exists found. split; [eapply retrieved_mono, Hf; apply prefix_snoc|].
    apply told; [by etrans|]. by exists e.
Qed.

Lemma delete_set_sound s log :
  log0 `prefix_of` log → set_deleted log s → sound (delete_set r env s) log anything.
Proof.
  intros Hp Hs. unfold delete_set. safe_step. apply (safe_mono _ _ _ anything).
  { destruct (AllowDelete (policy r s)) eqn:Ea; cbn [negb]; [by safe_step|]. by apply removeOwners_sound. }
  intros tr [e|[]] Hpt _; [done|]. safe_step. apply (safe_mono _ _ _ anything).
  - destruct (IsDeletionOrderReversed (SetRollout s)) eqn:Er; [|by safe_step]. safe_step.
    eapply safe_mono; [apply getCurrent_sound; by etrans|]. cbn beta. intros tr' [e|current] Hpt' Hl; [done|].
    apply (reverse_deletion_sound s current []); [| |done..|by intros t ?%elem_of_nil].
    + etrans; [exact Hp|]. by etrans.
    + eapply set_deleted_mono, Hs. by etrans.
  - intros tr' [e|t] Hpt' _; [done|]. destruct (Z.ltb _ _); [by safe_step|]. safe_step. safe_step; [done|]. safe_step. safe_step.
    by destruct (update_set env _); [|safe_step].
Qed.

(** ** Progressive sync and the stages *)

Lemma lift_sound {A} (o : outcome A) log : sound (lift o) log anything.
Proof. by destruct o; cbn [lift]; safe_step. Qed.

Lemma PerformProgressiveSyncs_sound s apps gen log :
  log0 `prefix_of` log → source log s → sound (PerformProgressiveSyncs env s apps gen) log anything.
Proof.
  intros Hp Hs. unfold PerformProgressiveSyncs. safe_step. apply safe_read. cbn beta iota. safe_step.
  eapply safe_mono; [apply lift_sound|]. cbn beta. intros tr [e|a] Hpt _; [done|]. safe_step.
  eapply safe_mono; [apply setStatuses_sound; [by etrans|by eapply source_mono]|]. cbn beta. intros tr1 [e|s1] Hpt1 Hs1; [done|]. cbn [stays_unless_error] in Hs1.
  safe_step. apply safe_read. cbn beta iota. safe_step. eapply safe_mono; [apply lift_sound|]. cbn beta. intros tr2 [e|[a' issues]] Hpt2 _; [done|].
  assert (log0 `prefix_of` tr2) as Hp2 by (etrans; [exact Hp|]; etrans; [exact Hpt|]; etrans; [exact Hpt1|done]).
  safe_step. eapply safe_mono; [apply setStatuses_sound; [done|eapply source_mono; [exact Hpt2|exact Hs1]]|]. cbn beta. intros tr3 [e|s3] Hpt3 Hs3; [done|]. cbn [stays_unless_error] in Hs3.
  destruct (omap id _); [by safe_step|]. safe_step. eapply safe_mono; [apply setCondition_sound; [by etrans|done]|]. cbn beta.
  intros tr4 [e'|] _ _; [done|by safe_step].
Qed.

Definition stage_stays (tr : list call) (st : AppSet + AppSet * gset string) : Prop := match st with inl s | inr (s, _) => source tr s end.

Lemma progressive_sound s current gen log :
  log0 `prefix_of` log → source log s → sound (progressive_stage r env s current gen) log (if_found stage_stays).
Proof.
  intros Hp Hs. unfold progressive_stage.
  assert (sound (s ← (if Nat.eqb (length (Rollout.ApplicationStatus (SetRollout s))) 0 then mret s else setAppSetApplicationStatus env s []);
                 mret (inr (s, ∅) : AppSet + AppSet * gset string)) log (if_found stage_stays)) as Hclear.
  { safe_step. apply (safe_mono _ _ _ stays_unless_error).
    - destruct (Nat.eqb _ _); [by safe_step|by apply setStatuses_sound].
    - intros tr [e|s'] _ H; [done|by safe_step]. }
  destruct (EnableProgressiveSyncs r); [|exact Hclear]. destruct (IsRollingSyncStrategy _); [|exact Hclear].
  destruct (Nat.eqb (length (steps_of _)) 0).
  - safe_step. eapply safe_mono; [by apply report_sound|]. cbn beta. intros tr res _ (s'&->&H). by safe_step.
  - safe_step. eapply safe_mono; [by apply PerformProgressiveSyncs_sound|]. cbn beta. intros tr [e|m] Hpt _; [done|].
    safe_step. by eapply source_mono.
Qed.

Lemma or_report_sound {A} s reason (m : D call A) log (Q : list call → error + A → Prop) :
  log0 `prefix_of` log → source log s → sound m log Q → (∀ tr e, Q tr (inl e)) → sound (or_report env s reason m) log Q.
Proof.
  intros Hp Hs Hm HQ. unfold or_report. safe_step. safe_step. eapply safe_mono; [exact Hm|]. cbn beta.
  intros tr [e|a] Hpt H; [|by safe_step]. safe_step.
  eapply safe_mono; [apply report_sound; [by etrans|by eapply source_mono]|]. cbn beta. intros tr' res _ (s'&->&_). by safe_step.
Qed.

Lemma valid_apps_spec errors gen a : a ∈ valid_apps errors gen ↔ a ∈ gen ∧ errors !! QualifiedName a = None.
Proof. unfold valid_apps. by rewrite list_elem_of_In, filter_In, <-list_elem_of_In, bool_decide_eq_true. Qed.

Lemma generated_is_desired tr gen g : generated tr gen → valid tr gen g → desired tr g.
Proof. intros. by exists gen, g. Qed.

Lemma desired_apps_sound tr s m errors gen a :
  generated tr gen → without_error gen errors tr → a ∈ desired_apps r s m errors gen → desired tr a.
Proof.
  intros Hg Hw. unfold desired_apps. rewrite go_sort_perm.
  assert (∀ x, x ∈ valid_apps errors gen → desired tr x) as Hv.
  { intros x [Hx He]%valid_apps_spec. by eapply generated_is_desired, Hw. }
  destruct (_ && _); [|apply Hv]. intros (i&x&y&->&Hx&_)%elem_of_lookup_zip_with.
  destruct (Hv x) as (gen'&g&?&?&?); [by eapply list_elem_of_lookup_2|]. by exists gen', g.
Qed.

Lemma apply_sound s apps log :
  log0 `prefix_of` log → source log s → (∀ a, a ∈ apps → desired log a) → sound (apply_stage r env s apps) log anything.
Proof.
  intros Hp Hs Ha. unfold apply_stage. destruct (AllowUpdate (policy r s)) eqn:Eu; (apply or_report_sound; [done..| |done]).
  - apply createOrUpdate_sound; [done|]. intros a Hin. split; [by apply Ha|]. left. by exists s.
  - by apply createInCluster_sound.
Qed.

Lemma delete_sound s gen log :
  log0 `prefix_of` log → source log s → generated log gen → sound (delete_stage r env s gen) log anything.
Proof.
  intros Hp Hs Hg. unfold delete_stage. destruct (AllowDelete (policy r s)) eqn:Ed; [|by safe_step].
  apply or_report_sound; [done..| |done]. by apply deleteInCluster_sound.
Qed.

Lemma UpdateSet_sound s log :
  log0 `prefix_of` log → sound (answer ← logged (UpdateSet s) (update_set env); of_answer answer) log stays_unless_error.
Proof.
  intros Hp. safe_step. safe_step; [done|]. safe_step. destruct (update_set env _) as [e|s'] eqn:E; [done|].
  exists (UpdateSet s), s'. split; [done|]. apply told; [done|]. right. right. by exists s.
Qed.

Lemma refresh_sound s log : log0 `prefix_of` log → source log s → sound (refresh_stage env s) log stays_unless_error.
Proof.
  intros Hp Hs. unfold refresh_stage. case_bool_decide; [|by safe_step]. safe_step. safe_step; [done|].
  set (s' := with_set_annotations _ s). set (tr := log ++ [UpdateSet s']).
  assert (log0 `prefix_of` tr) as Hpt by (etrans; [exact Hp|apply prefix_snoc]).
  apply or_report_sound; [done| | |done].
  - apply (source_spec _ s); [done|]. eapply source_mono; [apply prefix_snoc|done].
  - safe_step. destruct (update_set env tr) as [e|s2] eqn:E; [done|]. exists (UpdateSet s'), s2. split; [done|].
    apply told; [done|]. right. right. by exists s'.
Qed.

Lemma sync_set_sound s gen errors log :
  log0 `prefix_of` log → source log s → generated log gen → without_error gen errors log →
  sound (sync_set r env generators s gen errors) log anything.
Proof.
  intros Hp Hs Hg Hw. unfold sync_set. safe_step. eapply safe_mono; [by apply getCurrent_sound|]. cbn beta.
  intros tr [e|current] Hpt _; [done|]. safe_step. eapply safe_mono; [apply progressive_sound; [by etrans|by eapply source_mono]|]. cbn beta.
  intros tr1 [e|[s1|[s1 m]]] Hpt1 H1; [done|by safe_step|].
  assert (log0 `prefix_of` tr1) as Hp1 by (etrans; [exact Hp|]; etrans; [exact Hpt|done]).
  safe_step. apply (safe_mono _ _ _ stays_unless_error).
  { destruct (Nat.eqb _ _); [by safe_step|]. eapply safe_mono; [by apply report_sound|]. cbn beta. by intros tr' res _ (s'&->&?). }
  intros tr2 [e|s2] Hpt2 Hs2; [done|]. cbn [stays_unless_error] in Hs2.
  assert (log `prefix_of` tr2) as Hl2 by (etrans; [exact Hpt|]; etrans; [exact Hpt1|done]).
  assert (generated tr2 gen) as Hg2 by by eapply generated_mono.
  assert (without_error gen errors tr2) as Hw2 by by intros g ? ?; eapply valid_mono, Hw.
  safe_step. eapply safe_mono; [apply apply_sound; [by etrans|done|]|].
  { intros a Ha. by eapply desired_apps_sound. }
  cbn beta. intros tr3 [e|[]] Hpt3 _; [done|].
  assert (log0 `prefix_of` tr3) as Hp3 by (etrans; [exact Hp|]; etrans; [exact Hl2|done]).
  safe_step. eapply safe_mono; [apply delete_sound; [done|eapply source_mono; [exact Hpt3|exact Hs2]|eapply generated_mono; [exact Hpt3|exact Hg2]]|]. cbn beta.
  intros tr4 [e|[]] Hpt4 _; [done|]. safe_step. eapply safe_mono; [apply getCurrent_sound; by etrans|]. cbn beta.
  intros tr5 [e|apps] Hpt5 _; [done|].
  assert (log0 `prefix_of` tr5) as Hp5 by (etrans; [exact Hp3|]; etrans; [exact Hpt4|done]).
  safe_step. eapply safe_mono; [apply updateResources_sound; [done|]|].
  { eapply source_mono; [|exact Hs2]. etrans; [exact Hpt3|]. etrans; [exact Hpt4|done]. }
  cbn beta. intros tr6 [e|s6] Hpt6 Hs6; [done|]. cbn [stays_unless_error] in Hs6. safe_step. eapply safe_mono; [apply refresh_sound; [by etrans|done]|]. cbn beta.
  intros tr7 [e|s7] Hpt7 Hs7; [done|]. cbn [stays_unless_error] in Hs7.
  assert (log0 `prefix_of` tr7) as Hp7 by (etrans; [exact Hp5|]; etrans; [exact Hpt6|done]).
  safe_step. eapply safe_mono; [apply lift_sound|]. cbn beta. intros tr8 [e|t] Hpt8 _; [done|].
  destruct (Nat.eqb _ _); [|by safe_step]. safe_step.
  eapply safe_mono; [apply setCondition_sound; [by etrans|by eapply source_mono]|]. cbn beta.
  intros tr9 res _ (s9&e9&->&_). safe_step. safe_step. by destruct e9; [|safe_step].
Qed.

Lemma generate_sound s log : log0 `prefix_of` log → source log s → sound (generate_stage r env generators s) log anything.
Proof.
  intros Hp Hs. unfold generate_stage.
  assert (∀ reason message b tr, log0 `prefix_of` tr → source tr s →
    sound (_ ← report env s reason message b; mret ReconcileRequeueOnValidationError) tr anything) as Hreport.
  { intros reason message b tr Hpt Hst. safe_step. eapply safe_mono; [by apply report_sound|]. cbn beta.
    intros tr' res _ (s'&->&_). by safe_step. }
  destruct (GenerateApplications generators s) as [[gen [[e re]|]]|e|] eqn:Eg; [by apply Hreport| |by apply Hreport|by safe_step].
  do 2 safe_step. eapply safe_mono; [apply (validate_sound gen s (SetNamespace s)); [done|]|].
  { apply generate_loop_made in Eg. eapply Forall_impl; [exact Eg|]. by intros app (?&?&?&_&_&_&[? _]). }
  cbn beta. intros tr [e|errors] Hpt Hw; [apply Hreport; [by etrans|by eapply source_mono]|].
  apply sync_set_sound; [by etrans|by eapply source_mono| |done]. exists s. split; [by eapply source_mono|done].
Qed.

Lemma reconcile_set_sound s log : log0 `prefix_of` log → source log s → sound (reconcile_set r env generators s) log anything.
Proof.
  intros Hp Hs. unfold reconcile_set. safe_step. eapply safe_mono; [by apply migrateStatus_sound|]. cbn beta.
  intros tr [e|s'] Hpt Hs'; [done|]. cbn [stays_unless_error] in Hs'. safe_step. apply (safe_mono _ _ _ stays_unless_error).
  { destruct (_ && _); [apply UpdateSet_sound; by etrans|by safe_step]. }
  intros tr' [e|s2] Hpt' Hs2; [done|]. cbn [stays_unless_error] in Hs2. apply generate_sound; [|done]. etrans; [exact Hp|]. by etrans.
Qed.

(** C9. Whatever the API server and the databases answer, a pass of the application set
    controller only
    - creates applications that a set it was given generates without any error, none of whose
      names repeats, whose project exists and whose cluster is found, with their names and
      destinations;
    - patches such applications, under the name and in the namespace they were found, if the
      policy allows updates or the application was not in the list of those that the set
      controls in its namespace;
    - deletes applications, and takes the resources finalizer from them and nothing else,
      that were in this list, when the policy allows deletion and all applications were
      generated without an error and have other names;
    - or, when the set is being deleted in reversed order, deletes an application of this
      list, as it was found, that belongs to a step, only after all applications of the later
      steps were not found;
    - or, when the set is being deleted and the policy does not allow deletion, stores the
      applications of this list without their owners. *)
Theorem reconcile_calls_justified :
  ∃ new res, Reconcile r env generators log0 = (res, log0 ++ new) ∧
    ∀ pre c post, new = pre ++ c :: post → justified (log0 ++ pre ++ [c]) c.
Proof.
  assert (sound (Reconcile r env generators) log0 anything) as (new&res&E&HJ&_); [|by exists new, res].
  unfold Reconcile. safe_step. safe_step; [done|]. assert (log0 `prefix_of` log0 ++ [GetSet]) as Hp by apply prefix_snoc.
  destruct (get_set env (log0 ++ [GetSet])) as [e|s] eqn:E; [destruct (IsNotFound e); by safe_step|].
  destruct (SetDeletionTimestamp s) eqn:Ed.
  - apply delete_set_sound; [done|]. split; [by apply told|congruence].
  - apply reconcile_set_sound; [done|]. exists GetSet, s. split; [done|]. apply told; [done|]. by left.
Qed.
End proofs.
