(* ===== verification/AppSetOutcomes.v ===== *)
(** * The application set controller: outcomes

    What a pass leaves: applications that the next pass does not touch, work on every
    application whatever fails, and conditions that do not contradict each other. *)

From S2P Require Import Prelude GoStd GoMatch GoTime Kube SyncCommon Health Rollout RolloutStatus AppSetSelector AppSetTypes AppSetGenerators AppSetConditions AppSetController Calls.
From Stdlib Require Import Ascii.
Local Open Scope string_scope.
Local Open Scope list_scope.

Local Notation Application := AppSetTypes.Application.

(** ** Normalization *)

Lemma drop_zero_idem o : drop_zero (drop_zero o) = drop_zero o.
Proof. destruct o as [o|]; [|done]. cbn. destruct (SourceOptions_IsZero o) eqn:E; cbn; [done|by rewrite E]. Qed.

Lemma NormalizeSource_idem src : NormalizeSource (NormalizeSource src) = NormalizeSource src.
Proof.
  unfold NormalizeSource. cbn [Helm Kustomize Directory SourceFields]. rewrite !drop_zero_idem. f_equal.
  destruct (Directory src) as [d|]; [|done]. destruct (Directory_IsZero d) eqn:Ed; [|by rewrite Ed].
  destruct (_ || _) eqn:Ee; [|done]. cbn. by rewrite Ee.
Qed.

Lemma NormalizeApplicationSpec_idem spec : NormalizeApplicationSpec (NormalizeApplicationSpec spec) = NormalizeApplicationSpec spec.
Proof.
  unfold NormalizeApplicationSpec. cbn [AppSetTypes.Project Sources Source AppSyncPolicy ManagedNamespaceMetadata Destination OtherSpec].
  f_equal.
  - destruct (String.eqb (Project spec) "") eqn:E; [done|by rewrite E].
  - destruct (Sources spec); [|done]. destruct (Source spec); cbn; [by rewrite NormalizeSource_idem|done].
  - destruct (SyncPolicy_IsZero (AppSyncPolicy spec) (ManagedNamespaceMetadata spec)) eqn:E; [done|by rewrite E].
  - destruct (SyncPolicy_IsZero (AppSyncPolicy spec) (ManagedNamespaceMetadata spec)) eqn:E; [done|by rewrite E].
Qed.

(** ** Preserved fields *)

Lemma preserve_lookup keys live gen k :
  preserve keys live gen !! k = if decide (k ∈ keys ∧ is_Some (live !! k)) then live !! k else gen !! k.
Proof.
  unfold preserve. revert gen. induction keys as [|key keys IH]; intros gen; cbn [foldl].
  { rewrite decide_False; [done|]. by intros [?%elem_of_nil _]. }
  rewrite IH. destruct (decide (k ∈ keys ∧ is_Some (live !! k))) as [[Hk Hs]|Hn].
  { rewrite decide_True; [done|]. split; [by right|done]. }
  destruct (decide (k = key)) as [->|Hne].
  - destruct (live !! key) as [v|] eqn:El; [rewrite lookup_insert_eq, decide_True; [done|split; [by left|done]]|].
    rewrite decide_False; [done|]. by intros [_ [? ?]].
  - assert (match live !! key with Some state => <[key:=state]> gen | None => gen end !! k = gen !! k) as ->.
    { destruct (live !! key); [by rewrite lookup_insert_ne|done]. }
    rewrite decide_False; [done|]. intros [[->|?]%elem_of_cons ?]; [done|]. by apply Hn.
Qed.

Lemma preserve_again keys live gen : preserve keys (preserve keys live gen) gen = preserve keys live gen.
Proof.
  apply map_eq. intros k. rewrite preserve_lookup, preserve_lookup.
  destruct (decide (k ∈ keys ∧ is_Some (live !! k))) as [[? ?]|Hn].
  - by rewrite decide_True.
  - by destruct (decide _).
Qed.

Lemma filter_filter_same {A} (f : A → bool) l : List.filter f (List.filter f l) = List.filter f l.
Proof. induction l as [|x l IH]; [done|]. cbn. destruct (f x) eqn:E; [cbn; by rewrite E, IH|done]. Qed.
Lemma filter_disjoint {A} (f g : A → bool) l : (∀ x, g x = true → f x = false) → List.filter f (List.filter g l) = [].
Proof. intros H. induction l as [|x l IH]; [done|]. cbn. destruct (g x) eqn:E; [cbn; by rewrite (H x E)|done]. Qed.

Lemma stages_differ f : HasPrefix f PreDeleteFinalizerName = true → HasPrefix f PostDeleteFinalizerName = true → False.
Proof.
  unfold HasPrefix, PreDeleteFinalizerName, PostDeleteFinalizerName. destruct f as [|a [|b f]]; cbn [CutPrefix]; [done|by destruct (Ascii.eqb _ _)|].
  destruct (Ascii.eqb _ a); [|done]. destruct (Ascii.eqb_spec "r"%char b) as [<-|]; [|done]. done.
Qed.

(** ** A pass that finds what the last one left *)

Section settles.
Context {R : GoRuntime} {L : AppSetLibs} {LK : LabelKeys} {C : ControllerLibs}.
Context (r : reconciler) (s : AppSet).

(** A set that is the controller already stays it. *)
Definition reference_idempotent : Prop :=
  ∀ owners owners', SetControllerReference s owners = inr owners' → SetControllerReference s owners' = inr owners'.

(** The template brings no finalizer of the kind that is preserved. *)
Definition no_stage_finalizers (fs : list string) : Prop := preserved_finalizers fs = [].

Lemma preserved_cases fs :
  preserved_finalizers fs = List.filter (λ f, HasPrefix f PreDeleteFinalizerName) fs ++ List.filter (λ f, HasPrefix f PostDeleteFinalizerName) fs.
Proof.
  unfold preserved_finalizers, defaultPreservedFinalizers. cbn [fmap list_fmap concat]. by rewrite app_nil_r.
Qed.

Lemma preserved_again gen live :
  no_stage_finalizers gen → preserved_finalizers (gen ++ preserved_finalizers live) = preserved_finalizers live.
Proof.
  unfold no_stage_finalizers. rewrite !preserved_cases.
  assert (∀ x, HasPrefix x PostDeleteFinalizerName = true → HasPrefix x PreDeleteFinalizerName = false) as H1.
  { intros x H. apply not_true_is_false. intros E. exact (stages_differ x E H). }
  assert (∀ x, HasPrefix x PreDeleteFinalizerName = true → HasPrefix x PostDeleteFinalizerName = false) as H2.
  { intros x H. apply not_true_is_false. intros E. exact (stages_differ x H E). }
  set (pre := λ f, HasPrefix f PreDeleteFinalizerName) in *. set (post := λ f, HasPrefix f PostDeleteFinalizerName) in *.
  change (∀ x, post x = true → pre x = false) in H1. change (∀ x, pre x = true → post x = false) in H2. clearbody pre post.
  intros [E1 E2]%app_eq_nil. by rewrite !List.filter_app, E1, E2, !filter_filter_same, !filter_disjoint, app_nil_r by done.
Qed.

(** An application that the application controller has worked on: its status is new, and an
    operation that was there may have begun or ended. *)
Definition worked_on (app : Application) (operation : option Rollout.Operation) (status : ApplicationStatus) : Application :=
  {| AppName := AppName app; AppNamespace := AppNamespace app; AppLabels := AppLabels app; AppAnnotations := AppAnnotations app;
     AppFinalizers := AppFinalizers app; AppOwners := AppOwners app; AppSpec := AppSpec app; AppOperation := operation; AppStatus := status |}.

Lemma mutate_again gen live app operation status :
  reference_idempotent → no_stage_finalizers (AppFinalizers gen) → AppOperation gen = None →
  mutate_found r s gen live = inr app → mutate_found r s gen (worked_on app operation status) = inr (worked_on app operation status).
Proof.
  intros Href Hfin Hop. unfold mutate_found. destruct (SetControllerReference s (AppOwners live)) as [e|owners] eqn:Eo; [done|].
  intros [= <-]. cbn [worked_on AppOwners AppLabels AppAnnotations AppFinalizers AppName AppNamespace AppSpec AppOperation AppStatus].
  rewrite (Href _ _ Eo), !preserve_again, preserved_again, Hop by done. done.
Qed.

(** C27. An application that the controller has created or updated is not touched by its next
    pass: where the generated application and the set are the same, nothing is ignored in
    the comparison, and the template neither brings finalizers of deletion hooks nor a
    sync operation, the next pass reads the application and writes nothing, whatever the
    application controller has done to its status and its operation in between. *)
Theorem CreateOrUpdate_settles env g live app operation status log :
  reference_idempotent → no_stage_finalizers (AppFinalizers g) → AppOperation g = None → IgnoreApplicationDifferences s = [] →
  let generated := with_spec (NormalizeApplicationSpec (AppSpec g)) g in
  mutate_found r s generated live = inr app →
  let c := GetApp (AppNamespace g) (AppName g) in
  (∃ t, get_app env (log ++ [c]) = inr (worked_on app operation status, t)) →
  CreateOrUpdate r env s generated log = (inr tt, log ++ [c]).
Proof.
  intros Href Hfin Hop Hign generated Hm c [t Ht]. unfold CreateOrUpdate, mbind, D_bind, logged. cbn [generated with_spec AppNamespace AppName].
  fold c. rewrite Ht. unfold of_answer. rewrite (mutate_again generated live app operation status) by done. cbn.
  assert (AppSpec app = NormalizeApplicationSpec (AppSpec g)) as Espec.
  { unfold mutate_found in Hm. destruct (SetControllerReference _ _); [done|]. by injection Hm as <-. }
  unfold applyIgnoreDifferences. rewrite Hign, bool_decide_true; [done|].
  unfold with_spec, worked_on. cbn. by rewrite Espec, NormalizeApplicationSpec_idem.
Qed.
End settles.

(** ** Conditions *)

Section conditions.
Context {R : GoRuntime}.

Definition shows (t : string) (l : list SetCondition) : Prop := ∃ c, c ∈ l ∧ CondType c = t ∧ CondStatus c = StatusTrue.

(** Not both an error and resources that are up to date *)
Definition exclusive (l : list SetCondition) : Prop := ¬ (shows ErrorOccurred l ∧ shows ResourcesUpToDate l).

(** The two types that exclude each other *)
Definition other_type (t : string) : string := if String.eqb t ErrorOccurred then ResourcesUpToDate else ErrorOccurred.
Definition exclusive_type (t : string) : Prop := t = ErrorOccurred ∨ t = ResourcesUpToDate.

Lemma evaluate_grows rolling cs ev acc t :
  exclusive_type t → ev !! t = Some true → (evaluate rolling cs ev acc).1 !! t = Some true.
Proof.
  intros Ht. revert ev acc. induction cs as [|c cs IH]; intros ev acc Hev; cbn [evaluate]; [done|].
  assert (<[CondType c := true]> ev !! t = Some true) as Hc.
  { destruct (decide (CondType c = t)) as [->|]; [by rewrite lookup_insert_eq|by rewrite lookup_insert_ne]. }
  destruct (String.eqb_spec (CondType c) ResourcesUpToDate) as [Er|Er].
  { destruct (String.eqb _ _); apply IH; [|done]. destruct (decide (ErrorOccurred = t)) as [->|]; [by rewrite lookup_insert_eq|by rewrite lookup_insert_ne]. }
  destruct (String.eqb_spec (CondType c) ErrorOccurred) as [Ee|Ee].
  { destruct (String.eqb _ _); apply IH; [|done]. destruct (decide (ResourcesUpToDate = t)) as [->|]; [by rewrite lookup_insert_eq|by rewrite lookup_insert_ne]. }
  destruct (_ || _); [|by apply IH]. apply IH. destruct rolling; [done|]. rewrite lookup_insert_ne; [done|]. destruct Ht as [-> | ->]; congruence.
Qed.

(** A condition of one of the two types is evaluated, with the other type if it is true. *)
Lemma evaluate_types rolling cs ev acc c :
  c ∈ cs → exclusive_type (CondType c) →
  (evaluate rolling cs ev acc).1 !! CondType c = Some true ∧
  (CondStatus c = StatusTrue → (evaluate rolling cs ev acc).1 !! other_type (CondType c) = Some true).
Proof.
  intros Hin Ht. revert ev acc. induction cs as [|d cs IH]; intros ev acc; [by apply elem_of_nil in Hin|].
  apply elem_of_cons in Hin as [<-|Hin]; cbn [evaluate]; [clear IH|].
  - destruct Ht as [Et|Et]; rewrite Et; cbn [other_type String.eqb].
    + change (String.eqb ErrorOccurred ResourcesUpToDate) with false. change (String.eqb ErrorOccurred ErrorOccurred) with true. cbn iota.
      destruct (String.eqb_spec (CondStatus c) StatusTrue) as [Es|Es].
      * split; [|intros _]; apply evaluate_grows; [by left| |by right|by rewrite lookup_insert_eq].
        by rewrite lookup_insert_ne, lookup_insert_eq by done.
      * split; [|done]. apply evaluate_grows; [by left|by rewrite lookup_insert_eq].
    + change (String.eqb ResourcesUpToDate ResourcesUpToDate) with true. cbn iota.
      destruct (String.eqb_spec (CondStatus c) StatusTrue) as [Es|Es].
      * split; [|intros _]; apply evaluate_grows; [by right| |by left|by rewrite lookup_insert_eq].
        by rewrite lookup_insert_ne, lookup_insert_eq by done.
      * split; [|done]. apply evaluate_grows; [by right|by rewrite lookup_insert_eq].
  - destruct (if String.eqb _ ResourcesUpToDate then _ else _) as [ev' acc']. by apply IH.
Qed.

Lemma evaluate_conditions rolling cs ev acc c :
  (c ∈ acc ∨ c ∈ cs → c ∈ (evaluate rolling cs ev acc).2) ∧
  (c ∈ (evaluate rolling cs ev acc).2 → CondStatus c = StatusTrue → c ∈ acc ∨ c ∈ cs).
Proof.
  revert ev acc. induction cs as [|d cs IH]; intros ev acc; cbn [evaluate]; [set_solver|].
  assert (∀ ev' acc', (∃ e, CondStatus e = StatusFalse ∧ acc' = (acc ++ [d]) ++ [e]) ∨ acc' = acc ++ [d] →
    (c ∈ acc ∨ c ∈ d :: cs → c ∈ (evaluate rolling cs ev' acc').2) ∧
    (c ∈ (evaluate rolling cs ev' acc').2 → CondStatus c = StatusTrue → c ∈ acc ∨ c ∈ d :: cs)) as Hstep.
  { intros ev' acc' Hacc. destruct (IH ev' acc') as [H1 H2]. rewrite elem_of_cons. split.
    - intros H. apply H1. destruct Hacc as [(e&_&->)| ->]; rewrite ?elem_of_app, ?list_elem_of_singleton; tauto.
    - intros Hin Hs. destruct (H2 Hin Hs) as [Ha|?]; [|tauto]. destruct Hacc as [(e&He&->)| ->];
        rewrite ?elem_of_app, ?list_elem_of_singleton in Ha; [|tauto]. destruct Ha as [[?|?]| ->]; [tauto..|]. by rewrite He in Hs. }
  destruct (String.eqb _ ResourcesUpToDate).
  { destruct (String.eqb _ StatusTrue); apply Hstep; [left; eexists; split; [|reflexivity]; done|by right]. }
  destruct (String.eqb _ ErrorOccurred).
  { destruct (String.eqb _ StatusTrue); apply Hstep; [left; eexists; split; [|reflexivity]; done|by right]. }
  destruct (_ || _); apply Hstep; by right.
Qed.

Definition same_condition (c d : SetCondition) : Prop :=
  CondType c = CondType d ∧ CondStatus c = CondStatus d ∧ CondReason c = CondReason d ∧ CondMessage c = CondMessage d.

Lemma dated_same now c : same_condition (dated now c) c.
Proof. unfold dated. by destruct (CondTime c). Qed.

Lemma incoming_same now old c : same_condition (incoming now old c) c.
Proof.
  unfold incoming. destruct (findCondition _ _) as [o|] eqn:Ef; [|apply dated_same]. destruct (same_text o c) eqn:E; [|apply dated_same].
  apply List.find_some in Ef as [_ Et%String.eqb_eq]. unfold same_text in E. apply andb_true_iff in E as [E Es%String.eqb_eq].
  apply andb_true_iff in E as [Em%String.eqb_eq Er%String.eqb_eq]. done.
Qed.

Lemma SetConditions_elem now cs ev old c :
  c ∈ SetConditions now cs ev old ↔
  (∃ o, o ∈ old ∧ is_evaluated ev o = false ∧ c = dated now o) ∨ (∃ n, n ∈ cs ∧ is_evaluated ev n = true ∧ c = incoming now old n).
Proof.
  unfold SetConditions. rewrite go_sort_perm, elem_of_app, !list_elem_of_fmap. setoid_rewrite list_elem_of_In. setoid_rewrite filter_In.
  setoid_rewrite negb_true_iff. setoid_rewrite <-list_elem_of_In. naive_solver.
Qed.

Lemma health_loop_degraded l p h : (health_loop l p h).1 = HealthStatusDegraded ↔ shows ErrorOccurred l.
Proof.
  revert p h. induction l as [|c l IH]; intros p h; cbn [health_loop].
  { split; [by destruct p; [|destruct h]|]. by intros (?&?%elem_of_nil&_). }
  assert (shows ErrorOccurred (c :: l) ↔ (CondType c = ErrorOccurred ∧ CondStatus c = StatusTrue) ∨ shows ErrorOccurred l) as ->.
  { unfold shows. setoid_rewrite elem_of_cons. naive_solver. }
  destruct (String.eqb_spec (CondStatus c) StatusTrue) as [Es|Es]; cbn [negb]; [|rewrite IH; tauto].
  destruct (String.eqb_spec (CondType c) ErrorOccurred) as [Ee|Ee]; [tauto|].
  destruct (String.eqb _ RolloutProgressing); [rewrite IH; tauto|]. destruct (String.eqb _ ResourcesUpToDate); rewrite IH; tauto.
Qed.

Lemma health_loop_healthy l p h :
  (health_loop l p h).1 = HealthStatusHealthy → p = None ∧ ¬ shows RolloutProgressing l ∧ (is_Some h ∨ shows ResourcesUpToDate l).
Proof.
  revert p h. induction l as [|c l IH]; intros p h; cbn [health_loop].
  { destruct p; [done|]. destruct h; [|done]. intros _. split; [done|]. split; [by intros (?&?%elem_of_nil&_)|by left]. }
  assert (∀ t, shows t (c :: l) ↔ (CondType c = t ∧ CondStatus c = StatusTrue) ∨ shows t l) as Hs.
  { intros t. unfold shows. setoid_rewrite elem_of_cons. naive_solver. }
  rewrite !Hs. destruct (String.eqb_spec (CondStatus c) StatusTrue) as [Es|Es]; cbn [negb]; [|intros H%IH; tauto].
  destruct (String.eqb_spec (CondType c) ErrorOccurred) as [Ee|Ee]; [done|].
  destruct (String.eqb_spec (CondType c) RolloutProgressing) as [Er|Er]; [by intros [? _]%IH|].
  destruct (String.eqb_spec (CondType c) ResourcesUpToDate) as [Eu|Eu]; intros H%IH; [tauto|].
  destruct H as (?&?&[?|?]); tauto.
Qed.

(** A set never shows both that an error occurred and that its resources are up to date, if
    it did not before: of the conditions that are reported one of the two, when true, makes
    the other false, whatever was stored by others.  What is reported is stored; the health is
    degraded exactly if an error is shown, and healthy only if no error and no rollout is,
    and the resources are up to date. *)
Theorem conditions_consistent rolling cs parametersGenerated now s :
  exclusive cs → exclusive (StatusConditions (SetStatus s)) →
  let '(ev, new) := new_conditions rolling cs parametersGenerated in
  let st := SetStatus (set_conditions now new ev s) in
  exclusive (StatusConditions st) ∧
  (∀ c, c ∈ cs → exclusive_type (CondType c) → ∃ d, d ∈ StatusConditions st ∧ same_condition d c) ∧
  ((StatusHealth st).1 = HealthStatusDegraded ↔ shows ErrorOccurred (StatusConditions st)) ∧
  ((StatusHealth st).1 = HealthStatusHealthy →
    shows ResourcesUpToDate (StatusConditions st) ∧ ¬ shows ErrorOccurred (StatusConditions st) ∧
    ¬ shows RolloutProgressing (StatusConditions st)).
Proof.
  intros Hcs Hold. unfold new_conditions. destruct (params_message cs "progressive sync") as [has msg].
  set (acc := if has then [] else _). destruct (evaluate rolling cs (default_types rolling) acc) as [ev new] eqn:E.
  pose proof (λ c, evaluate_types rolling cs (default_types rolling) acc c) as Htypes.
  pose proof (λ c, evaluate_conditions rolling cs (default_types rolling) acc c) as Hconds. rewrite E in Htypes, Hconds. cbn [fst snd] in *.
  assert (∀ t, exclusive_type t → shows t new → shows t cs) as Hnew.
  { intros t Ht (c&Hc&Et&Es). exists c. split; [|done]. destruct (proj2 (Hconds c) Hc Es) as [Ha|]; [|done]. exfalso. subst acc.
    destruct has; [by apply elem_of_nil in Ha|]. apply list_elem_of_singleton in Ha as ->. rewrite <-Et in Ht.
    destruct parametersGenerated, Ht; done. }
  set (old := StatusConditions (SetStatus s)) in *.
  (* where a true condition of the result comes from *)
  assert (∀ t, exclusive_type t → shows t (SetConditions now new ev old) →
    (shows t old ∧ ev !! t ≠ Some true) ∨ (shows t cs ∧ ev !! other_type t = Some true)) as Horigin.
  { intros t Ht (c&Hc&Et&Es). apply SetConditions_elem in Hc as [(o&Ho&He&->)|(n&Hn&He&->)].
    - left. destruct (dated_same now o) as (Eot&Eos&_). split; [exists o; split; [done|]; split; congruence|].
      unfold is_evaluated in He. rewrite <-Eot, Et in He. intros Hev. by rewrite Hev in He.
    - right. destruct (incoming_same now old n) as (Ent&Ens&_).
      assert (shows t cs) as Hshow by (apply Hnew; [done|]; exists n; split; [done|]; split; congruence).
      split; [done|]. destruct Hshow as (c&Hc&<-&Esc). by apply Htypes. }
  cbn [set_conditions with_set_status with_set SetStatus StatusConditions StatusHealth]. fold old.
  assert (exclusive (SetConditions now new ev old)) as Hexcl.
  { intros [H1 H2]. apply Horigin in H1; [|by left]. apply Horigin in H2; [|by right].
    destruct H1 as [[? Hn1]|[? Hv1]], H2 as [[? Hn2]|[? Hv2]]; [by apply Hold|by apply Hn1|by apply Hn2|by apply Hcs]. }
  split; [exact Hexcl|]. split; [|split].
  - intros c Hc Ht. exists (incoming now old c). split; [|apply incoming_same]. apply SetConditions_elem. right. exists c.
    split; [apply Hconds; by right|]. split; [|done]. unfold is_evaluated. by rewrite (proj1 (Htypes c Hc Ht)).
  - unfold CalculateHealth. destruct (SetConditions now new ev old) as [|c l] eqn:El; [|rewrite <-El; apply health_loop_degraded].
    split; [done|]. by intros (?&?%elem_of_nil&_).
  - unfold CalculateHealth. destruct (SetConditions now new ev old) as [|c l] eqn:El; [done|]. rewrite <-El in *.
    intros Hh. destruct (health_loop_healthy _ _ _ Hh) as (_&Hr&[[? ?]|Hu]); [done|]. split_and!; [done| |done].
    intros He. by apply Hexcl.
Qed.
End conditions.

(** ** Work on every application *)

Section every.
Context {R : GoRuntime} {L : AppSetLibs} {LK : LabelKeys} {C : ControllerLibs}.

(** The applications one after the other, with the result for each *)
Fixpoint worked (work : Application → D call unit) (apps : list Application) (results : list (error + unit)) (log log' : list call) : Prop :=
  match apps, results with
  | [], [] => log' = log
  | a :: apps, res :: results => ∃ mid, work a log = (res, mid) ∧ worked work apps results mid log'
  | _, _ => False
  end.

(** The error for some results: a cancelled context first, else the error of the first name *)
Definition overall (named : list (string * (error + unit))) (res : error + unit) : Prop :=
  (res = inr tt ↔ ∀ n e, (n, inl e) ∉ named) ∧
  (∀ e, res = inl e → ∃ n, (n, inl e) ∈ named ∧
     ((∃ n' e', (n', inl e') ∈ named ∧ is_canceled e' = true) → is_canceled e = true) ∧
     (is_canceled e = false → ∀ n' e', (n', inl e') ∈ named → string_lt n' n = false)).

Lemma firstAppError_spec m :
  match firstAppError m with
  | None => m = ∅
  | Some e => ∃ n, m !! n = Some e ∧ ∀ n', is_Some (m !! n') → string_lt n' n = false
  end.
Proof.
  unfold firstAppError. pose proof (insertion_sort_perm string_lt (map_to_list m).*1) as Hp.
  assert (strict_weak_on string_lt (map_to_list m).*1) as Hsw.
  { split; intros; [apply string_lt_irrefl|by apply string_lt_asym|by eapply string_lt_cotrans]. }
  pose proof (insertion_sort_sorted string_lt _ Hsw) as Hs. unfold sort_Strings.
  assert (∀ n, is_Some (m !! n) ↔ n ∈ insertion_sort string_lt (map_to_list m).*1) as Hin.
  { intros n. rewrite Hp, list_elem_of_fmap. split.
    - intros [e He]. exists (n, e). by rewrite elem_of_map_to_list.
    - intros ([n' e]&->&He%elem_of_map_to_list). by exists e. }
  destruct (insertion_sort string_lt (map_to_list m).*1) as [|n l].
  - apply map_eq. intros n. rewrite lookup_empty. apply eq_None_not_Some. rewrite Hin. apply not_elem_of_nil.
  - destruct (m !! n) as [e|] eqn:En; [|exfalso; assert (is_Some (m !! n)) as [? ?] by (apply Hin; by left); congruence].
    exists n. split; [done|]. intros n'. rewrite Hin, elem_of_cons. intros [->|Hl]; [apply string_lt_irrefl|].
    apply StronglySorted_inv in Hs as [_ Hs]. rewrite Forall_forall in Hs. by apply Hs.
Qed.

(** What the loop knows after some results *)
Definition collected (named : list (string * (error + unit))) (canceled : option error) (errs : gmap string error) : Prop :=
  (canceled = None → ∀ n e, (n, inl e) ∈ named → is_canceled e = false) ∧
  (∀ e, canceled = Some e → ∃ n, (n, inl e) ∈ named ∧ is_canceled e = true) ∧
  (∀ n, is_Some (errs !! n) ↔ ∃ e, (n, inl e) ∈ named ∧ is_canceled e = false) ∧
  (∀ n e, errs !! n = Some e → (n, inl e) ∈ named).

Definition next_collected (n : string) (res : error + unit) (canceled : option error) (errs : gmap string error) :
    option error * gmap string error :=
  match res with
  | inr _ => (canceled, errs)
  | inl e => if is_canceled e then (match canceled with Some e => Some e | None => Some e end, errs) else (canceled, <[n := e]> errs)
  end.

Lemma collected_next named n res canceled errs :
  collected named canceled errs →
  collected (named ++ [(n, res)]) (next_collected n res canceled errs).1 (next_collected n res canceled errs).2.
Proof.
  intros (H1&H2&H3&H4). assert (∀ n' e', (n', inl e') ∈ named ++ [(n, res)] ↔ (n', inl e') ∈ named ∨ (n' = n ∧ res = inl e')) as Hin.
  { intros n' e'. rewrite elem_of_app, list_elem_of_singleton. naive_solver. }
  unfold collected. setoid_rewrite Hin. destruct res as [e|[]]; cbn [next_collected fst snd].
  - destruct (is_canceled e) eqn:Ec; cbn [fst snd].
    + split; [by destruct canceled|]. split.
      * intros e' He'. destruct canceled as [e0|]; injection He' as <-; [destruct (H2 e0 eq_refl) as (n'&?&?); exists n'; auto|].
        exists n. auto.
      * split; [|intros n' e' He'; left; by apply H4]. intros n'. rewrite H3. split.
        -- intros (e'&?&?). exists e'. auto.
        -- intros (e'&[?|[_ [= <-]]]&?); [by exists e'|congruence].
    + split; [intros Hc n' e' [?|[_ [= <-]]]; [by eapply H1|done]|]. split.
      * intros e' He'. destruct (H2 e' He') as (n'&?&?). exists n'. auto.
      * split.
        -- intros n'. destruct (decide (n' = n)) as [->|Hn].
           ++ rewrite lookup_insert_eq. split; [intros _; exists e; auto|by eexists].
           ++ rewrite lookup_insert_ne, H3 by done. split; [intros (e'&?&?); exists e'; auto|].
              intros (e'&[?|[? _]]&?); [by exists e'|done].
        -- intros n' e' He'. destruct (decide (n' = n)) as [->|Hn].
           ++ rewrite lookup_insert_eq in He'. injection He' as <-. auto.
           ++ rewrite lookup_insert_ne in He' by done. left. by apply H4.
  - split; [intros Hc n' e' [?|[_ ?]]; [by eapply H1|done]|]. split.
    + intros e' He'. destruct (H2 e' He') as (n'&?&?). exists n'. auto.
    + split; [|intros n' e' He'; left; by apply H4]. intros n'. rewrite H3. split.
      * intros (e'&?&?). exists e'. auto.
      * intros (e'&[?|[_ ?]]&?); [by exists e'|done].
Qed.

Lemma for_each_worked work apps log :
  ∃ results log' res, for_each apps work log = (res, log') ∧ worked work apps results log log' ∧
    overall (zip (AppName <$> apps) results) res.
Proof.
  unfold for_each, mbind, D_bind. set (body := each_step work).
  assert (∀ apps named canceled errs log, collected named canceled errs →
    ∃ results log' canceled' errs', d_fold apps (canceled, errs) body log = (inr (canceled', errs'), log') ∧
      worked work apps results log log' ∧ length results = length apps ∧
      collected (named ++ zip (AppName <$> apps) results) canceled' errs') as Hgen.
  { clear. induction apps as [|a apps IH]; intros named canceled errs log Hc; cbn [d_fold].
    - exists [], log, canceled, errs. split_and!; [done..|]. by rewrite app_nil_r.
    - destruct (work a log) as [res mid] eqn:Ew. pose proof (collected_next named (AppName a) res canceled errs Hc) as Hn.
      assert (body (canceled, errs) a log = (inr (next_collected (AppName a) res canceled errs), mid)) as Eb.
      { unfold body, each_step, mbind, D_bind, caught. rewrite Ew. by destruct res. }
      destruct (next_collected (AppName a) res canceled errs) as [c1 e1]. cbn [fst snd] in Hn.
      destruct (IH _ _ _ mid Hn) as (results&log'&c2&e2&E&Hw&Hl&Hcol). exists (res :: results), log', c2, e2.
      unfold mbind, D_bind. rewrite Eb, E. split; [done|]. split; [by exists mid|]. split; [cbn; by rewrite Hl|].
      cbn [fmap list_fmap zip zip_with]. by rewrite <-app_assoc in Hcol. }
  destruct (Hgen apps [] None ∅ log) as (results&log'&canceled&errs&E&Hw&_&H1&H2&H3&H4).
  { unfold collected. split_and!; [by intros _ n e ?%elem_of_nil|done| |done]. intros n. rewrite lookup_empty.
    split; [by intros [? ?]|]. by intros (?&?%elem_of_nil&_). }
  cbn [app] in *. rewrite E. exists results, log'. pose proof (firstAppError_spec errs) as Hf.
  destruct canceled as [e|].
  - exists (inl e). destruct (H2 e eq_refl) as (n&Hn&Hc). split; [done|]. split; [done|]. split.
    + split; [done|]. intros Hno. by destruct (Hno n e).
    + intros e' [= <-]. exists n. split; [done|]. split; [done|]. congruence.
  - unfold of_error. destruct (firstAppError errs) as [e|].
    + exists (inl e). destruct Hf as (n&Hn&Hmin). split; [done|]. split; [done|]. split.
      * split; [done|]. intros Hno. destruct (Hno n e). by apply H4.
      * intros e' [= <-]. exists n. split; [by apply H4|]. split.
        -- intros (n'&e'&Hin&Hc'). specialize (H1 eq_refl n' e' Hin). congruence.
        -- intros _ n' e' Hin. apply Hmin, H3. exists e'. split; [done|]. by apply (H1 eq_refl n').
    + exists (inr tt). split; [done|]. split; [done|]. split; [|done]. split; [|done]. intros _ n e Hin.
      assert (is_Some (errs !! n)) as [e' He'] by (apply H3; exists e; split; [done|]; by apply (H1 eq_refl n)). by rewrite Hf, lookup_empty in He'.
Qed.

(** The failure of one application does not keep the others from being served: creating and
    updating works on every desired application, and deleting on every application of the
    set that is no longer generated, one after the other; they succeed exactly if all the
    work does.  The error that is reported is that of a cancelled context, or else the one
    of the first failing application by name, whatever the order of the work. *)
Theorem every_application_served r env s apps log :
  (BuildIgnoreDiffConfig (IgnoreApplicationDifferences s) = None →
   ∃ results log' res, createOrUpdateInCluster r env s apps log = (res, log') ∧
     worked (λ a, CreateOrUpdate r env s (with_spec (NormalizeApplicationSpec (AppSpec a)) a)) apps results log log' ∧
     overall (zip (AppName <$> apps) results) res) ∧
  (let clusters := log ++ [ListClusterSecrets] in
   let lists := clusters ++ [ListApps (SetName s) (SetNamespace s)] in
   ∀ informed current, informed_clusters env clusters = inr informed → list_apps env lists = inr current →
   ∃ known results log' res, informed `prefix_of` known ∧ deleteInCluster env s apps log = (res, log') ∧
     worked (delete_app env known) (List.filter (not_in apps) current) results lists log' ∧
     overall (zip (AppName <$> List.filter (not_in apps) current) results) res).
Proof.
  split.
  - intros Hb. unfold createOrUpdateInCluster. rewrite Hb. apply for_each_worked.
  - cbv zeta. intros informed current Hi Hc. unfold deleteInCluster, ListClusters, getCurrentApplications, mbind, D_bind, logged.
    rewrite Hi. cbn [mret D_ret]. rewrite Hc.
    set (known := with_in_cluster informed). exists known.
    assert (informed `prefix_of` known) as Hk by (subst known; unfold with_in_cluster; destruct (existsb _ _); [done|by eexists]).
    destruct (for_each_worked (delete_app env known) (List.filter (not_in apps) current)
      ((log ++ [ListClusterSecrets]) ++ [ListApps (SetName s) (SetNamespace s)])) as (results&log'&res&E&H).
    by exists results, log', res.
Qed.
End every.
