(* ===== verification/AppSetEvents.v ===== *)
(** * Events that reconcile application sets (src/applicationset/controllers)

    Which changes of applications, of sets and of cluster secrets make the controller
    reconcile a set; a set that an event of a cluster secret does not reach does not depend
    on the secrets. *)

From S2P Require Import Prelude GoStd GoMatch GoTime Kube SyncCommon Health Rollout AppSetSelector AppSetTypes AppSetGenerators AppSetGeneratorsProofs AppSetConditions AppSetController.
Local Open Scope string_scope.
Local Open Scope list_scope.

(** ** Applications *)

(** The index by which the controller lists the applications of a set *)
Definition appControllerIndexer {C : ControllerLibs} (owners : list OwnerReference) : list string :=
  match GetControllerOf owners with
  | None => []
  | Some owner =>
      if negb (String.eqb (OwnerAPIVersion owner) "apps.hanzo.ai/v1alpha1") || negb (String.eqb (OwnerKind owner) "ApplicationSet") then []
      else [OwnerName owner]
  end.

Definition shouldRequeueForApplication (appOld appNew : AppSetTypes.Application) (enableProgressiveSyncs : bool) : bool :=
  if negb (bool_decide (AppSpec appOld = AppSpec appNew)) || negb (bool_decide (AppAnnotations appOld = AppAnnotations appNew)) ||
     negb (bool_decide (AppLabels appOld = AppLabels appNew)) || negb (bool_decide (AppFinalizers appOld = AppFinalizers appNew))
  then true
  else if enableProgressiveSyncs then
    let o := AppStatus appOld in
    let n := AppStatus appNew in
    if negb (bool_decide (AppHealth o = AppHealth n)) || negb (String.eqb (AppSyncStatus o) (AppSyncStatus n)) then true
    else match AppPhase o, AppPhase n with
         | Some (phase, started), Some (phase', started') => negb (bool_decide (phase = phase')) || negb (started =? started')%Z
         | _, _ => false
         end
  else false.

Inductive app_event :=
  | AppCreated | AppDeleted | AppGeneric
  | AppUpdated (appOld appNew : AppSetTypes.Application).

Definition getApplicationOwnsHandler (enableProgressiveSyncs : bool) (e : app_event) : bool :=
  match e with
  | AppCreated => false
  | AppDeleted | AppGeneric => true
  | AppUpdated o n => shouldRequeueForApplication o n enableProgressiveSyncs
  end.

(** ** Sets *)

Definition shouldRequeueForApplicationSet (appSetOld appSetNew : AppSet) (enableProgressiveSyncs : bool) : bool :=
  if enableProgressiveSyncs &&
     negb (bool_decide (Rollout.ApplicationStatus (SetRollout appSetOld) = Rollout.ApplicationStatus (SetRollout appSetNew))) then true
  else if negb (bool_decide (set_spec appSetOld = set_spec appSetNew)) || negb (bool_decide (SetLabels appSetOld = SetLabels appSetNew)) ||
          negb (bool_decide (SetFinalizers appSetOld = SetFinalizers appSetNew)) ||
          negb (bool_decide (SetDeletionTimestamp appSetOld = SetDeletionTimestamp appSetNew)) then true
  else if negb (bool_decide (SetAnnotations appSetOld = SetAnnotations appSetNew)) then
    negb (bool_decide (is_Some (SetAnnotations appSetOld !! AnnotationApplicationSetRefresh)) &&
          negb (bool_decide (is_Some (SetAnnotations appSetNew !! AnnotationApplicationSetRefresh))))
  else false.

Inductive set_event := SetCreated | SetDeleted | SetGeneric | SetUpdated (appSetOld appSetNew : AppSet).

Definition getApplicationSetOwnsHandler (enableProgressiveSyncs : bool) (e : set_event) : bool :=
  match e with
  | SetCreated | SetDeleted | SetGeneric => true
  | SetUpdated o n => shouldRequeueForApplicationSet o n enableProgressiveSyncs
  end.

(** ** Cluster secrets (clustereventhandler.go) *)

Section clusters.
Context {L : AppSetLibs} (IsNamespaceAllowed : string → bool).

(** The loop over generators: the first that has one, or an error, ends it. *)
Fixpoint first_found {A} (has : A → res bool) (l : list A) : res bool :=
  match l with
  | [] => Ok false
  | g :: rest => match has g with Ok false => first_found has rest | found => found end
  end.

(** [n] bounds the nesting: a combination in a combination has plain generators only. *)
Fixpoint nestedGeneratorHasClusterGenerator (n : nat) (nested : ApplicationSetNestedGenerator) : res bool :=
  match n with
  | 0 => Ok false
  | S n =>
      if bool_decide (is_Some (Clusters (Nested_fields nested))) then Ok true
      else
        match NestedMatrix nested with
        | Some raw =>
            m ← of_option (ErrFrom "matrix" raw) (json_matrix raw);
            first_found (nestedGeneratorHasClusterGenerator n) (MatrixGenerators (ToMatrixGenerator m))
        | None =>
            match NestedMerge nested with
            | Some raw =>
                m ← of_option (ErrFrom "merge" raw) (json_merge raw);
                first_found (nestedGeneratorHasClusterGenerator n) (MergeGenerators (ToMergeGenerator m))
            | None => Ok false
            end
        end
  end.

Definition nestedGeneratorsHaveClusterGenerator (generators : list ApplicationSetNestedGenerator) : res bool :=
  first_found (nestedGeneratorHasClusterGenerator 2) generators.

(** An error is logged, and counts as no. *)
Definition found_or_false (o : option (res bool)) : bool := match o with Some (Ok b) => b | _ => false end.

Definition generator_has_cluster (g : ApplicationSetGenerator) : bool :=
  bool_decide (is_Some (Clusters (Top_fields g))) ||
  found_or_false ((λ m, nestedGeneratorsHaveClusterGenerator (MatrixGenerators m)) <$> Matrix g) ||
  found_or_false ((λ m, nestedGeneratorsHaveClusterGenerator (MergeGenerators m)) <$> Merge g).

(** The sets that are queued; [None]: the sets cannot be listed. *)
Definition queueRelatedAppGenerators (labels : gmap string string) (listed : option (list AppSet)) : list (string * string) :=
  if negb (String.eqb (default "" (labels !! LabelKeySecretType)) LabelValueSecretTypeCluster) then []
  else
    match listed with
    | None => []
    | Some sets =>
        (λ s, (SetNamespace s, SetName s)) <$>
          List.filter (λ s, IsNamespaceAllowed (SetNamespace s) && existsb generator_has_cluster (SetGenerators s)) sets
    end.
End clusters.

(** ** Generators that agree *)

Section agreement.
Context {R : GoRuntime} {L : AppSetLibs} {LK : LabelKeys}.

(** Two maps of generators with the same behaviour on the specifications of a level *)
Definition agrees (P : ApplicationSetGenerator → Prop) (gens gens' : generator_kind → option Generator) : Prop :=
  ∀ g k, P g → field_set g k = true →
    match gens k, gens' k with
    | Some G, Some G' => GetTemplate G g = GetTemplate G' g ∧ ∀ g' s, P g' → GenerateParams G g' s = GenerateParams G' g' s
    | None, None => True
    | _, _ => False
    end.

Lemma transform_agrees P gens gens' g template s p :
  agrees P gens gens' → P g → (∀ g', RenderGeneratorParams g p (GoTemplate s) (GoTemplateOptions s) = Ok g' → P g') →
  Transform g gens template s p = Transform g gens' template s p.
Proof.
  intros Ha Hg Hkept. unfold Transform. destruct (LabelSelectorAsSelector _) as [e|sel]; [done|]. unfold GetRelevantGenerators.
  assert (∀ ks e, (∀ k, k ∈ ks → field_set g k = true) →
    transform_loop (gens <$> ks) g sel template s p e = transform_loop (gens' <$> ks) g sel template s p e) as Hloop.
  { induction ks as [|k ks IH]; intros e Hks; cbn [fmap list_fmap transform_loop]; [done|].
    assert (∀ e, transform_loop (gens <$> ks) g sel template s p e = transform_loop (gens' <$> ks) g sel template s p e) as Hnext.
    { intros e'. apply IH. intros k' Hk'. apply Hks. by right. }
    assert (field_set g k = true) as Hk by (apply Hks; by left). specialize (Ha g k Hg Hk).
    destruct (gens k) as [G|], (gens' k) as [G'|]; [|done..]. destruct Ha as [Ht HG]. unfold mergeGeneratorTemplate. rewrite <-Ht.
    destruct (GetTemplate G g); [|done]. destruct (of_sum _); [|apply Hnext|done].
    destruct (RenderGeneratorParams g p _ _) as [g'|e'|] ; [|apply Hnext|done].
    rewrite <-(HG g' s (Hkept _ eq_refl)). destruct (GenerateParams G g' s); [|apply Hnext|done].
    destruct (filter_params _ _ _ _) as [[ps e1]|e1|]; cbn; [|done..]. by rewrite Hnext. }
  apply Hloop. intros k Hk%list_elem_of_In. by apply filter_In in Hk as [_ ?].
Qed.

Lemma getParams_agrees P gens gens' r s p :
  kept_by_replacing P → agrees P gens gens' → (∀ sel, P (unnested r sel)) → getParams gens r s p = getParams gens' r s p.
Proof.
  intros Hkept Ha HP. specialize (HP (NestedSelector r)). unfold unnested, getParams in *.
  destruct (getMatrixGenerator r) as [mx|e|]; cbn [mbind res_bind]; [|done..]. destruct (getMergeGenerator r) as [mg|e|]; cbn [mbind res_bind]; [|done..].
  cbn [ok_or_none] in HP. rewrite (transform_agrees P gens gens'); [done..|]. intros g' Hr. by eapply (rendered_kept s).
Qed.

(** The search for a cluster generator ends at an element that cannot be read, and so do the
    combinations. *)
Definition element_agrees (has : ApplicationSetNestedGenerator → res bool) (gens gens' : generator_kind → option Generator)
    (r : ApplicationSetNestedGenerator) : Prop :=
  match has r with
  | Ok true => True
  | Ok false => ∀ s p, getParams gens r s p = getParams gens' r s p
  | Err _ | Panic => ∀ s p, getParams gens r s p = getParams gens' r s p ∧ ∀ ps, getParams gens r s p ≠ Ok ps
  end.

Lemma elements_agree has gens gens' l s p :
  first_found has l ≠ Ok true → Forall (element_agrees has gens gens') l →
  mapR (λ r, getParams gens r s p) l = mapR (λ r, getParams gens' r s p) l.
Proof.
  intros Hf Hl. induction Hl as [|r l Hr Hl IH]; [done|]. cbn [first_found mapR] in *. unfold element_agrees in Hr.
  destruct (has r) as [[]|e|].
  - done.
  - by rewrite Hr, IH.
  - destruct (Hr s p) as [<- Hn]. destruct (getParams gens r s p); [by destruct (Hn a)|done..].
  - destruct (Hr s p) as [<- Hn]. destruct (getParams gens r s p); [by destruct (Hn a)|done..].
Qed.

Lemma matrix_agrees has gens gens' g s :
  (∀ m, Matrix g = Some m → first_found has (MatrixGenerators m) ≠ Ok true ∧ Forall (element_agrees has gens gens') (MatrixGenerators m)) →
  MatrixGenerateParams gens g s = MatrixGenerateParams gens' g s.
Proof.
  unfold MatrixGenerateParams. destruct (Matrix g) as [m|]; [|done]. intros H. destruct (H m eq_refl) as [Hf Hl]. clear H.
  destruct (MatrixGenerators m) as [|a [|b [|c l]]]; [done..| |done]. cbn [first_found] in Hf.
  rewrite !Forall_cons in Hl. destruct Hl as (Ha&Hb&_). unfold element_agrees in Ha.
  assert (getParams gens a s ∅ = getParams gens' a s ∅) as Hab.
  { destruct (has a) as [[]|e|]; [done|apply Ha|by destruct (Ha s ∅)..]. }
  rewrite <-Hab. destruct (getParams gens a s ∅) as [g0|e|] eqn:Eg; cbn [mbind res_bind]; [|done..].
  assert (∀ x, getParams gens b s x = getParams gens' b s x) as Hbb.
  { destruct (has a) as [[]|e|]; [done| |by destruct (Ha s ∅) as [_ Hn]; destruct (Hn g0)..].
    intros x. unfold element_agrees in Hb. destruct (has b) as [[]|e|]; [done|apply Hb|by destruct (Hb s x)..]. }
  f_equal. clear -Hbb. induction g0 as [|x g0 IH]; cbn [mapR]; [done|]. by rewrite Hbb, IH.
Qed.

Lemma merge_agrees has gens gens' g s :
  (∀ m, Merge g = Some m → first_found has (MergeGenerators m) ≠ Ok true ∧ Forall (element_agrees has gens gens') (MergeGenerators m)) →
  MergeGenerateParams gens g s = MergeGenerateParams gens' g s.
Proof.
  unfold MergeGenerateParams. destruct (Merge g) as [m|]; [|done]. intros H. destruct (H m eq_refl) as [Hf Hl].
  destruct (Nat.ltb _ _); [done|]. by rewrite (elements_agree has gens gens').
Qed.
End agreement.

(** ** Sets without cluster generators *)

Section independence.
Context {R : GoRuntime} {L : AppSetLibs} {LK : LabelKeys}.
Context (Hreplace : replaces_texts) (asked : decision_resources) (external : generator_kind → Generator)
  (secrets secrets' : LabelSelector → generator_error + list Secret) (informed informed' : generator_error + list ClusterSpecifier).

(** The generators that do not look at the secrets of clusters *)
Definition no_clusters (k : generator_kind) : Prop := k ≠ KClusters ∧ k ≠ KClusterDecisionResource.

Lemma no_clusters_within f : Clusters f = None → fields_set f KClusterDecisionResource = false → within no_clusters f.
Proof. intros Hc Hd k Hk. split; intros ->; [cbn in Hk; by rewrite Hc in Hk|congruence]. Qed.

(** A plain nested generator *)
Definition plain_nested (r : ApplicationSetNestedGenerator) : Prop := bottom r ∧ within no_clusters (Nested_fields r).

Local Notation terminal := (λ s i, terminalGenerators s i asked external).
Local Notation nested := (λ s i, nestedGenerators s i asked external).

Lemma terminal_agrees (P : ApplicationSetGenerator → Prop) g k :
  k ≠ KMatrix → k ≠ KMerge → within no_clusters (Top_fields g) → field_set g k = true →
  match terminal secrets informed k, terminal secrets' informed' k with
  | Some G, Some G' => GetTemplate G g = GetTemplate G' g ∧ ∀ g' s, P g' → GenerateParams G g' s = GenerateParams G' g' s
  | None, None => True
  | _, _ => False
  end.
Proof.
  intros Hx Hg Hc Hk%terminal_set; [|done..]. destruct (Hc k Hk). by destruct k.
Qed.

Lemma plain_agrees : agrees (flat no_clusters) (terminal secrets informed) (terminal secrets' informed').
Proof.
  intros g k (H1&H2&Hc) Hk. apply terminal_agrees; [| |done..]; intros ->; cbn in Hk; by rewrite ?H1, ?H2 in Hk.
Qed.

Lemma plain_nested_element r :
  plain_nested r → element_agrees (λ _, Ok false) (terminal secrets informed) (terminal secrets' informed') r.
Proof.
  intros [[E1 E2] Hc] s p. apply (getParams_agrees (flat no_clusters)); [by apply flat_kept|apply plain_agrees|]. intros sel.
  unfold flat, unnested, getMatrixGenerator, getMergeGenerator. by rewrite E1, E2.
Qed.

Lemma first_found_false {A} (l : list A) : first_found (λ _, Ok false) l ≠ Ok true.
Proof. by induction l. Qed.

Lemma combined_agrees : agrees (shallow no_clusters) (nested secrets informed) (nested secrets' informed').
Proof.
  intros g k [Hc Hi] Hk. destruct (decide (k = KMatrix ∨ k = KMerge)) as [[-> | ->]|Hn].
  - split; [done|]. intros g' s [_ Hi']. cbn [GenerateParams NewMatrixGenerator]. apply (matrix_agrees (λ _, Ok false)).
    intros m Hm. split; [apply first_found_false|]. apply Forall_forall. intros r Hr. apply plain_nested_element, Hi'. left. by exists m.
  - split; [done|]. intros g' s [_ Hi']. cbn [GenerateParams NewMergeGenerator]. apply (merge_agrees (λ _, Ok false)).
    intros m Hm. split; [apply first_found_false|]. apply Forall_forall. intros r Hr. apply plain_nested_element, Hi'. right. by exists m.
  - pose proof (terminal_agrees (shallow no_clusters) g k ltac:(tauto) ltac:(tauto) Hc Hk) as H. destruct k; first [exact H|exfalso; tauto].
Qed.

(** Each nested generator is one combination at most. *)
Definition one_combination (g : ApplicationSetGenerator) : Prop := ∀ r, inner g r → NestedMatrix r = None ∨ NestedMerge r = None.

Lemma has_S n r :
  nestedGeneratorHasClusterGenerator (S n) r =
    if bool_decide (is_Some (Clusters (Nested_fields r))) then Ok true
    else
      match NestedMatrix r with
      | Some raw =>
          m ← of_option (ErrFrom "matrix" raw) (json_matrix raw);
          first_found (nestedGeneratorHasClusterGenerator n) (toApplicationSetNestedGenerators (NMGenerators m))
      | None =>
          match NestedMerge r with
          | Some raw =>
              m ← of_option (ErrFrom "merge" raw) (json_merge raw);
              first_found (nestedGeneratorHasClusterGenerator n) (toApplicationSetNestedGenerators (NGGenerators m))
          | None => Ok false
          end
      end.
Proof. done. Qed.

(** What the search finds of a nested generator *)
Lemma found_nested r :
  NestedMatrix r = None ∨ NestedMerge r = None → ¬ nested_uses r KClusterDecisionResource →
  element_agrees (nestedGeneratorHasClusterGenerator 2) (nested secrets informed) (nested secrets' informed') r.
Proof.
  intros Hone Hdec. unfold element_agrees.
  assert (∀ l, (∀ t, t ∈ l → fields_set (Terminal_fields t) KClusterDecisionResource = false) →
    first_found (nestedGeneratorHasClusterGenerator 1) (toApplicationSetNestedGenerators l) ≠ Ok true →
    first_found (nestedGeneratorHasClusterGenerator 1) (toApplicationSetNestedGenerators l) = Ok false ∧
    ∀ x, x ∈ toApplicationSetNestedGenerators l → plain_nested x) as Hterm.
  { intros l Hl0. assert (∀ x, bottom x → nestedGeneratorHasClusterGenerator 1 x = Ok (bool_decide (is_Some (Clusters (Nested_fields x))))) as Hhas.
    { intros x [E1 E2]. cbn. rewrite E1, E2. by case_bool_decide. }
    assert (∀ x, x ∈ toApplicationSetNestedGenerators l → bottom x ∧ fields_set (Nested_fields x) KClusterDecisionResource = false) as Hb.
    { intros x (t&->&Ht)%list_elem_of_fmap. by split; [|apply Hl0]. }
    induction (toApplicationSetNestedGenerators l) as [|x l' IH]; [intros _; by split; [|intros x ?%elem_of_nil]|].
    cbn [first_found]. destruct (Hb x) as [Hx Hd]; [by left|]. rewrite (Hhas x Hx). case_bool_decide as Hc; [done|]. intros H.
    destruct IH as [-> Hl]; [intros y Hy; apply Hb; by right|done|]. split; [done|].
    intros y [->|Hy]%elem_of_cons; [|by apply Hl]. split; [done|]. apply no_clusters_within; [by apply eq_None_not_Some|done]. }
  assert (∀ sel, shallow no_clusters (unnested r sel) →
    ∀ s p, getParams (nested secrets informed) r s p = getParams (nested secrets' informed') r s p) as Hagree.
  { intros sel Hcp s p. apply (getParams_agrees (shallow no_clusters)); [by apply shallow_kept|apply combined_agrees|].
    intros sel'. destruct Hcp as [? Hcp]. split; [done|]. exact Hcp. }
  rewrite has_S. case_bool_decide as Hc; [done|]. apply eq_None_not_Some in Hc.
  assert (within no_clusters (Nested_fields r)) as Hw.
  { apply no_clusters_within; [done|]. apply not_true_iff_false. intros Hd. apply Hdec. by left. }
  assert (∀ raw m, NestedMatrix r = Some raw → json_matrix raw = Some m →
    ∀ t, t ∈ NMGenerators m → fields_set (Terminal_fields t) KClusterDecisionResource = false) as Hdx.
  { intros raw m E Ej t Ht. apply not_true_iff_false. intros Hd. apply Hdec. right. left. by exists raw, m, t. }
  assert (∀ raw m, NestedMerge r = Some raw → json_merge raw = Some m →
    ∀ t, t ∈ NGGenerators m → fields_set (Terminal_fields t) KClusterDecisionResource = false) as Hdg.
  { intros raw m E Ej t Ht. apply not_true_iff_false. intros Hd. apply Hdec. right. right. by exists raw, m, t. }
  clear Hdec. unfold unnested, getParams, getMatrixGenerator, getMergeGenerator, shallow, inner in *.
  destruct (NestedMatrix r) as [raw|] eqn:Ex.
  - destruct Hone as [|Hone]; [done|]. rewrite Hone in *. destruct (json_matrix raw) as [m|] eqn:Ej; cbn [of_option mbind res_bind]; [|done].
    specialize (Hdx raw m eq_refl Ej). destruct (first_found _ _) as [[]|e|] eqn:Ef; [done|..].
    all: destruct (Hterm (NMGenerators m) Hdx) as [Hok Hpl]; [by rewrite Ef|]; rewrite Ef in Hok; try done.
    apply (Hagree None). split; [done|]. intros x [(m'&[= <-]&Hx)|(m'&?&_)]; [by apply Hpl|done].
  - destruct (NestedMerge r) as [raw|] eqn:Eg; cbn [of_option mbind res_bind] in *.
    + destruct (json_merge raw) as [m|] eqn:Ej; cbn [of_option mbind res_bind]; [|done].
      specialize (Hdg raw m eq_refl Ej). destruct (first_found _ _) as [[]|e|] eqn:Ef; [done|..].
      all: destruct (Hterm (NGGenerators m) Hdg) as [Hok Hpl]; [by rewrite Ef|]; rewrite Ef in Hok; try done.
      apply (Hagree None). split; [done|]. intros x [(m'&?&_)|(m'&[= <-]&Hx)]; [done|by apply Hpl].
    + apply (Hagree None). split; [done|]. intros x [(m'&?&_)|(m'&?&_)]; done.
Qed.

(** Found to have no cluster generator *)
Definition unqueued (g : ApplicationSetGenerator) : Prop :=
  generator_has_cluster g = false ∧ one_combination g ∧ ¬ generator_uses g KClusterDecisionResource.

Lemma unqueued_inner g r : unqueued g → inner g r → ¬ nested_uses r KClusterDecisionResource.
Proof. intros (_&_&Hd) Hr Hu. apply Hd. right. by exists r. Qed.

Lemma top_agrees : agrees unqueued
  (GetGenerators secrets informed asked external) (GetGenerators secrets' informed' asked external).
Proof.
  assert (∀ o, found_or_false o = false → ∀ l, o = Some (nestedGeneratorsHaveClusterGenerator l) →
    first_found (nestedGeneratorHasClusterGenerator 2) l ≠ Ok true) as Hfound.
  { intros o Ho l ->. cbn in Ho. unfold nestedGeneratorsHaveClusterGenerator in *. by destruct (first_found _ l) as [[]|e|]. }
  intros g k Hun Hk. destruct (decide (k = KMatrix ∨ k = KMerge)) as [[-> | ->]|Hn].
  - split; [done|]. intros g' s Hun'. pose proof Hun' as (Hh'&Hone&_). cbn [GenerateParams NewMatrixGenerator]. apply (matrix_agrees (nestedGeneratorHasClusterGenerator 2)).
    intros m Hm. apply orb_false_iff in Hh' as [Hh' _]. apply orb_false_iff in Hh' as [_ Hx]. rewrite Hm in Hx. split; [by eapply Hfound|].
    apply Forall_forall. intros x Hr. assert (inner g' x) as Hin by (left; by exists m).
    apply found_nested; [by apply Hone|by eapply unqueued_inner].
  - split; [done|]. intros g' s Hun'. pose proof Hun' as (Hh'&Hone&_). cbn [GenerateParams NewMergeGenerator]. apply (merge_agrees (nestedGeneratorHasClusterGenerator 2)).
    intros m Hm. apply orb_false_iff in Hh' as [_ Hx]. rewrite Hm in Hx. split; [by eapply Hfound|].
    apply Forall_forall. intros x Hr. assert (inner g' x) as Hin by (right; by exists m).
    apply found_nested; [by apply Hone|by eapply unqueued_inner].
  - destruct Hun as (Hh&_&Hd). assert (within no_clusters (Top_fields g)) as Hc.
    { apply no_clusters_within; [|apply not_true_iff_false; intros Hd'; apply Hd; by left].
      apply orb_false_iff in Hh as [Hh _]. apply orb_false_iff in Hh as [Hh%bool_decide_eq_false _]. by apply eq_None_not_Some. }
    pose proof (terminal_agrees unqueued g k ltac:(tauto) ltac:(tauto) Hc Hk) as H.
    destruct k; first [exact H|exfalso; tauto].
Qed.

(** C28. When the secret of a cluster changes, the sets in allowed namespaces that are not queued
    do not depend on the secrets of clusters: whatever those are, and the clusters that the
    informer makes of them, the same applications are generated, with the same error.  Here
    each nested generator is one combination at most, a generator that cannot be read may be
    anywhere, and the set has no generator of cluster decisions, which the handler does not
    look for although it reads the clusters ([decisions_not_queued]). *)
Theorem unqueued_set_ignores_clusters IsNamespaceAllowed labels sets s :
  labels !! LabelKeySecretType = Some LabelValueSecretTypeCluster → s ∈ sets → IsNamespaceAllowed (SetNamespace s) = true →
  (∀ g, g ∈ SetGenerators s → one_combination g) → ¬ set_uses s KClusterDecisionResource →
  (SetNamespace s, SetName s) ∉ queueRelatedAppGenerators IsNamespaceAllowed labels (Some sets) →
  GenerateApplications (GetGenerators secrets informed asked external) s =
  GenerateApplications (GetGenerators secrets' informed' asked external) s.
Proof.
  intros Hl Hs Hns Hone Hdec Hq. unfold queueRelatedAppGenerators in Hq. rewrite Hl in Hq. cbn in Hq.
  assert (existsb generator_has_cluster (SetGenerators s) = false) as Hno.
  { destruct (existsb _ (SetGenerators s)) eqn:E; [|done]. exfalso. apply Hq. apply (list_elem_of_fmap_2 (λ s, (SetNamespace s, SetName s))).
    apply list_elem_of_In, filter_In. rewrite Hns, E. split; [by apply list_elem_of_In|done]. }
  assert (∀ g, g ∈ SetGenerators s → unqueued g) as Hun.
  { intros g Hg. split_and!; [|by apply Hone|intros Hu; apply Hdec; by exists g].
    apply not_true_iff_false. intros H. rewrite <-not_true_iff_false in Hno. apply Hno, existsb_exists.
    exists g. split; [by apply list_elem_of_In|done]. }
  unfold GenerateApplications. clear -Hreplace Hun. generalize (None : option (generator_error * AppSetGenerators.reason)) as e.
  revert Hun. induction (SetGenerators s) as [|g l IH]; intros Hun e; cbn [generate_loop]; [done|].
  assert (∀ e, generate_loop (GetGenerators secrets informed asked external) s l e =
               generate_loop (GetGenerators secrets' informed' asked external) s l e) as Hl'.
  { apply IH. intros g' Hg'. apply Hun. by right. }
  rewrite (transform_agrees _ _ _ g (SetTemplate s) s ∅ top_agrees); [|apply Hun; by left|].
  - destruct (Transform _ _ _ _ _) as [[t [e'|]]|e'|]; cbn [mbind res_bind]; [apply Hl'| |done..].
    destruct (render_all _ _ _) as [[apps e1]|e1|]; cbn [mbind res_bind]; [|done..]. by rewrite Hl'.
  - intros g' [= <-]. apply Hun. by left.
Qed.
End independence.
