(* ===== verification/AppSetExamples.v ===== *)
(** * Application sets: concrete sets and passes

    Inputs at which the hypotheses of the theorems hold, and behaviours at the edges: an
    element without parameters, a missing merge key, a combination nested too deep, and a
    template with a finalizer of deletion hooks. *)

From S2P Require Import Prelude GoStd GoMatch GoTime Kube SyncCommon Health Rollout RolloutStatus AppSetSelector AppSetTypes AppSetGenerators AppSetGeneratorsProofs AppSetRendering AppSetConditions AppSetController AppSetControllerProofs AppSetOutcomes AppSetEvents Calls.
From Stdlib Require Import Ascii.
Local Open Scope string_scope.
Local Open Scope list_scope.

Local Notation Application := AppSetTypes.Application.

Module AppSetSample.
(** ** Libraries *)

#[local] Instance sample_runtime : GoRuntime := reference_runtime.
#[local] Instance sample_keys : LabelKeys := {| IsQualifiedName k := negb (String.eqb k "") |}.

(** The text between the first braces is replaced. *)
Fixpoint until (sep s : string) : string :=
  match CutPrefix sep s, s with
  | Some _, _ | None, "" => ""
  | None, String c rest => String c (until sep rest)
  end.
Definition fill (f : string → string) (t : string) : string :=
  match after_text "{{" t with
  | Some rest => until "{{" t +:+ f (until "}}" rest) +:+ default "" (after_text "}}" rest)
  | None => t
  end.

Definition element (name env : string) : params := {["name" := VStr name; "env" := VStr env]}.

#[local] Instance sample_libs : AppSetLibs := {|
  mergo_template dest src := inr (if bool_decide (dest = no_template) then src else dest);
  mergo_params dst src := inr (src ∪ dst);
  flatten p := inr p;
  json_object raw :=
    if String.eqb raw "{}" then Some ∅ else if String.eqb raw "east" then Some (element "east" "dev")
    else if String.eqb raw "west" then Some (element "west" "prod") else None;
  yaml_objects _ := None;
  json_matrix _ := None;
  json_merge _ := None;
  fasttemplate t f := Some (fill f t);
  go_template _ t _ := Some t;
  replace_generator _ _ _ g := inr g;
  replace_application _ _ p app := inr
    {| AppName := fill (replacement p) (AppName app); AppNamespace := AppNamespace app; AppLabels := AppLabels app;
       AppAnnotations := AppAnnotations app; AppFinalizers := AppFinalizers app; AppOwners := AppOwners app;
       AppSpec := AppSpec app; AppOperation := AppOperation app; AppStatus := AppStatus app |};
  strategic_patch app _ := inr app;
|}.

(** Another controller is refused; else the set takes the place of the controller. *)
Definition reference (s : AppSet) : OwnerReference :=
  {| OwnerAPIVersion := "apps.hanzo.ai/v1alpha1"; OwnerKind := "ApplicationSet"; OwnerName := SetName s; OwnerUID := "";
     OwnerController := true |}.
#[local] Instance sample_controller : ControllerLibs := {|
  GetControllerOf := List.find OwnerController;
  SetControllerReference s owners :=
    if existsb (λ o, OwnerController o && negb (String.eqb (OwnerName o) (SetName s))) owners then inl (mkErr ReasonOther "already owned")
    else inr (reference s :: List.filter (λ o, negb (OwnerController o)) owners);
  ContainsFinalizer l f := existsb (String.eqb f) l;
  AddFinalizer l f := if existsb (String.eqb f) l then l else l ++ [f];
  RemoveFinalizer l f := List.filter (λ x, negb (String.eqb x f)) l;
  BuildIgnoreDiffConfig _ := None;
  normalize_pair _ live app := inr (live, app);
  is_canceled _ := false;
  generator_error_text _ := "generator";
  print_spec s := OtherSpec s;
  equal_spec a b := String.eqb (SpecFields a) (SpecFields b);
|}.
#[local] Instance sample_scaled : IntStr := {| GetScaledValueFromIntOrPercent m _ := match m with IntVal n => (n, None) | StrVal _ => (0%Z, None) end |}.

(** ** Specifications *)

Definition no_fields : terminal_fields :=
  {| List := None; Clusters := None; Git := None; SCMProvider := None; ClusterDecisionResource := None; PullRequest := None; Plugin := None |}.
Definition of_elements (l : list string) : terminal_fields :=
  {| List := Some {| Elements := l; ListTemplate := no_template; ElementsYaml := "" |};
     Clusters := None; Git := None; SCMProvider := None; ClusterDecisionResource := None; PullRequest := None; Plugin := None |}.
Definition of_clusters : terminal_fields :=
  {| List := None;
     Clusters := Some {| ClusterSelector := {| MatchLabels := ∅; MatchExpressions := [] |}; ClusterTemplate := no_template; ClusterValues := ∅;
                         FlatList := false |};
     Git := None; SCMProvider := None; ClusterDecisionResource := None; PullRequest := None; Plugin := None |}.
Definition only (f : terminal_fields) : ApplicationSetGenerator := {| Top_fields := f; Matrix := None; Merge := None; TopSelector := None |}.
Definition nested (f : terminal_fields) : ApplicationSetNestedGenerator :=
  {| Nested_fields := f; NestedMatrix := None; NestedMerge := None; NestedSelector := None |}.
Definition merge_of (keys : list string) (l : list terminal_fields) : ApplicationSetGenerator :=
  {| Top_fields := no_fields; Matrix := None;
     Merge := Some {| MergeGenerators := nested <$> l; MergeKeys := keys; MergeTemplate := no_template |}; TopSelector := None |}.

Definition sample_spec : AppSetTypes.ApplicationSpec :=
  {| Project := ""; Destination := {| DestServer := "https://kubernetes.default.svc"; DestNamespace := "shop"; DestName := "" |};
     Source := None; Sources := []; AppSyncPolicy := None; ManagedNamespaceMetadata := None; OtherSpec := "spec" |}.
Definition sample_template (name : string) (finalizers : list string) : ApplicationSetTemplate :=
  {| TemplateName := name; TemplateNamespace := ""; TemplateLabels := ∅; TemplateAnnotations := ∅; TemplateFinalizers := finalizers;
     TemplateSpec := sample_spec |}.

Definition set_of (l : list ApplicationSetGenerator) (t : ApplicationSetTemplate) : AppSet :=
  {| SetName := "shop"; SetNamespace := "cd"; SetLabels := ∅; SetAnnotations := ∅; SetFinalizers := []; SetDeletionTimestamp := None;
     SetGenerators := l; SetTemplate := t; SetTemplatePatch := None; GoTemplate := false; GoTemplateOptions := []; SetSyncPolicy := None;
     PreservedAnnotations := []; PreservedLabels := []; IgnoreApplicationDifferences := [];
     SetRollout := {| Strategy := None; Rollout.ApplicationStatus := [] |};
     SetStatus := {| StatusConditions := []; StatusHealth := (HealthStatusNone, ""); StatusResources := []; StatusResourcesCount := 0 |} |}.

Definition no_secrets (_ : LabelSelector) : generator_error + list Secret := inr [].
(** A generator of other resources, without access to them *)
Definition offline (_ : generator_kind) : Generator :=
  {| GenerateParams _ _ := Err ErrNoParameters; GetRequeueAfter _ := Some 1800%Z; GetTemplate _ := Some no_template |}.
(** No cluster is known but the local one, and no resource can be read. *)
Definition none_informed : generator_error + list ClusterSpecifier := inr [].
Definition none_asked : decision_resources :=
  {| config_map _ := inl ErrNoParameters; list_resources _ _ _ _ := inl ErrNoParameters; default_requeue := 180%Z |}.
Definition generators := GetGenerators no_secrets none_informed none_asked offline.
Definition nested_level := nestedGenerators no_secrets none_informed none_asked offline.

Lemma sample_replaces : replaces_texts.
Proof.
  intros go opts p g g' [= <-]. split; [|split; [|done]]; intros m Hm; exists m; (split; [done|]);
    apply Forall2_same_length_lookup; (split; [done|]); by intros i x y -> [= <-].
Qed.

(** ** Generators *)

Definition two := set_of [only (of_elements ["east"; "west"])] (sample_template "shop-{{name}}" []).
Definition rendered (name : string) (finalizers : list string) : Application :=
  {| AppName := name; AppNamespace := "cd"; AppLabels := ∅; AppAnnotations := ∅; AppFinalizers := finalizers; AppOwners := [];
     AppSpec := sample_spec; AppOperation := None; AppStatus := no_status |}.

Example two_applications :
  GenerateApplications generators two =
    Ok ([rendered "shop-east" [AppSetGenerators.ResourcesFinalizerName]; rendered "shop-west" [AppSetGenerators.ResourcesFinalizerName]], None).
Proof. vm_compute. reflexivity. Qed.

(** An element without parameters: the application has no finalizer, so its resources stay
    when it is deleted. *)
Example empty_element :
  GenerateApplications generators (set_of [only (of_elements ["{}"])] (sample_template "shop" [])) = Ok ([rendered "shop" []], None).
Proof. vm_compute. reflexivity. Qed.

(** Sets without the merge key match each other. *)
Example missing_keys_match :
  MergeGenerateParams nested_level (merge_of ["region"] [of_elements ["east"]; of_elements ["west"]]) two =
    Ok [element "west" "prod"].
Proof. vm_compute. reflexivity. Qed.

(** Sets with different values of the merge key do not merge. *)
Example different_keys_do_not_merge :
  MergeGenerateParams nested_level (merge_of ["name"] [of_elements ["east"]; of_elements ["west"]]) two =
    Ok [element "east" "dev"].
Proof. vm_compute. reflexivity. Qed.

Lemma merge_is_left_join_witness :
  GoTemplate two = false ∧
  ∃ result, MergeGenerateParams nested_level (merge_of ["name"] [of_elements ["east"; "west"]; of_elements ["west"]]) two = Ok result ∧
    result ≡ₚ joined ["name"] [element "east" "dev"; element "west" "prod"] [[element "west" "prod"]].
Proof.
  split; [reflexivity|]. eexists. split; [vm_compute; reflexivity|].
  apply (proj2 (merge_is_left_join nested_level
    (merge_of ["name"] [of_elements ["east"; "west"]; of_elements ["west"]]) two eq_refl) _
    {| MergeGenerators := nested <$> [of_elements ["east"; "west"]; of_elements ["west"]]; MergeKeys := ["name"]; MergeTemplate := no_template |}).
  - vm_compute. reflexivity.
  - split; [reflexivity|]. split; [discriminate|]. split; [discriminate|]. split.
    + repeat constructor; vm_compute; reflexivity.
    + apply (bool_decide_unpack _). vm_compute. exact I.
Defined.

Lemma matrix_is_product_witness :
  let g := {| Top_fields := no_fields; Merge := None; TopSelector := None;
              Matrix := Some {| MatrixGenerators := nested <$> [of_elements ["east"]; of_elements ["east"; "east"]]; MatrixTemplate := no_template |} |} in
  ∃ m first second g0 g1s, Matrix g = Some m ∧ MatrixGenerators m = [first; second] ∧
    getParams nested_level first two ∅ = Ok g0 ∧
    Forall2 (λ a bs, getParams nested_level second two a = Ok bs) g0 g1s ∧
    Forall2 (λ ab r, combined false ab.1 ab.2 r) (pairs g0 g1s) [element "east" "dev"; element "east" "dev"].
Proof.
  cbv zeta. apply (proj1 (matrix_is_product nested_level
    {| Top_fields := no_fields; Merge := None; TopSelector := None;
       Matrix := Some {| MatrixGenerators := nested <$> [of_elements ["east"]; of_elements ["east"; "east"]]; MatrixTemplate := no_template |} |}
    two [element "east" "dev"; element "east" "dev"])).
  vm_compute. reflexivity.
Defined.

Definition in_development : LabelSelector :=
  {| MatchLabels := {["env" := "dev"]}; MatchExpressions := [{| ExprKey := "tier"; ExprOperator := "NotIn"; ExprValues := ["db"] |}] |}.

Lemma LabelSelectorAsSelector_correct_witness :
  ∃ s, LabelSelectorAsSelector (Some in_development) = inr s ∧ (Matches s {["env" := "dev"]} = true ↔ selected in_development {["env" := "dev"]}).
Proof.
  eexists. split; [vm_compute; reflexivity|]. apply (proj1 (proj2 (LabelSelectorAsSelector_correct in_development))). vm_compute. reflexivity.
Defined.

(** *** Numbers and decisions *)

(** What JSON has as numbers prints as floats do. *)
Example numbers_print_as_floats :
  sprint_number <$> [0; -7; 999999; 1000000; 123456789; -12345678901]%Z =
    ["0"; "-7"; "999999"; "1e+06"; "1.23456789e+08"; "-1.2345678901e+10"].
Proof. vm_compute. reflexivity. Qed.

Definition placement : DuckTypeGenerator :=
  {| ConfigMapRef := "placements"; DuckName := "shop"; RequeueAfterSeconds := None; DuckMatchLabels := None;
     DuckMatchExpressions := None; DuckTemplate := no_template; DuckValues := {["tier" := "web"]} |}.
Definition of_decisions : terminal_fields :=
  {| List := None; Clusters := None; Git := None; SCMProvider := None; ClusterDecisionResource := Some placement;
     PullRequest := None; Plugin := None |}.
(** The placement has this status. *)
Definition placed (status : list (string * value)) : decision_resources :=
  {| config_map _ := inr {["apiVersion" := "placements.io/v1"; "kind" := "placements"; "matchKey" := "clusterName"; "statusListKey" := "decisions"]};
     list_resources _ _ _ _ := inr [{["status" := VMap status]}]; default_requeue := 180%Z |}.
Definition decided (clusters : list string) : list (string * value) :=
  [("decisions", VList ((λ c, VMap [("clusterName", VStr c); ("generation", VNum 1000000)]) <$> clusters))].
Definition east_known : generator_error + list ClusterSpecifier :=
  inr [{| SpecifierName := "east"; SpecifierServer := "https://east" |}].

(** Of the clusters decided on those that are known count; whole numbers of a resource print
    in full. *)
Example decisions_generate :
  DuckTypeGenerateParams east_known (placed (decided ["east"; "gone"])) (only of_decisions) two =
    Ok [{["name" := VStr "east"; "server" := VStr "https://east"; "clusterName" := VStr "east"; "generation" := VStr "1000000";
          "values.tier" := VStr "web"]}].
Proof. vm_compute. reflexivity. Qed.

Definition places := set_of [only of_decisions] (sample_template "shop-{{name}}" []).
Definition deciding (asked : decision_resources) := GetGenerators no_secrets east_known asked offline.

(** A status without decisions yet: the generator panics, and so does the pass. *)
Definition undecided : decision_resources := placed [("conditions", VList [])].
Example undecided_panics : GenerateApplications (deciding undecided) places = Panic.
Proof. vm_compute. reflexivity. Qed.

Lemma panics_have_a_cause_witness :
  GenerateApplications (deciding undecided) places = Panic ∧
  (external_panics offline places ∨ set_uses places KClusterDecisionResource ∧ unreadable_decisions undecided (GoTemplate places)).
Proof.
  split; [vm_compute; reflexivity|].
  apply (panics_have_a_cause sample_replaces no_secrets east_known undecided offline). left. vm_compute. reflexivity.
Defined.

(** With Go templates a decision may not have values of its own. *)
Example own_values_panic :
  let go := {| SetName := "shop"; SetNamespace := "cd"; SetLabels := ∅; SetAnnotations := ∅; SetFinalizers := []; SetDeletionTimestamp := None;
     SetGenerators := []; SetTemplate := no_template; SetTemplatePatch := None; GoTemplate := true; GoTemplateOptions := [];
     SetSyncPolicy := None; PreservedAnnotations := []; PreservedLabels := []; IgnoreApplicationDifferences := [];
     SetRollout := SetRollout two; SetStatus := SetStatus two |} in
  DuckTypeGenerateParams east_known (placed [("decisions", VList [VMap [("clusterName", VStr "east"); ("values", VMap [])]])])
    (only of_decisions) go = Panic.
Proof. vm_compute. reflexivity. Qed.

Lemma GenerateApplications_complete_witness :
  ∃ results, Forall selector_fits (SetGenerators two) ∧
    Forall2 (λ r t, Forall2 (produces r (SetTemplate two) two ∅) (GetRelevantGenerators r generators) t) (SetGenerators two) results ∧
    Forall2 (λ tp app, render_app two tp.1 tp.2 = Ok app) (inputs (concat results))
      [rendered "shop-east" [AppSetGenerators.ResourcesFinalizerName]; rendered "shop-west" [AppSetGenerators.ResourcesFinalizerName]].
Proof.
  apply (proj1 (GenerateApplications_complete generators two
    [rendered "shop-east" [AppSetGenerators.ResourcesFinalizerName]; rendered "shop-west" [AppSetGenerators.ResourcesFinalizerName]])).
  vm_compute. reflexivity.
Defined.

Lemma generated_applications_confined_witness :
  ∃ apps, GenerateApplications generators two = Ok (apps, None) ∧ Forall (λ app, AppNamespace app = "cd") apps.
Proof.
  eexists. split; [vm_compute; reflexivity|].
  eapply Forall_impl; [apply (generated_applications_confined generators two _ None); vm_compute; reflexivity|].
  cbn beta. intros app [H _]. exact H.
Defined.

Definition cluster_secret : gmap string string := {[LabelKeySecretType := LabelValueSecretTypeCluster]}.

Lemma unqueued_set_ignores_clusters_witness :
  (SetNamespace two, SetName two) ∉ queueRelatedAppGenerators (λ _, true) cluster_secret (Some [two]) ∧
  GenerateApplications generators two =
  GenerateApplications (GetGenerators (λ _, inl ErrNoParameters) east_known none_asked offline) two.
Proof.
  assert ((SetNamespace two, SetName two) ∉ queueRelatedAppGenerators (λ _, true) cluster_secret (Some [two])) as Hq
    by (apply (bool_decide_unpack _); vm_compute; exact I).
  split; [exact Hq|].
  apply (unqueued_set_ignores_clusters sample_replaces none_asked offline no_secrets (λ _, inl ErrNoParameters) none_informed east_known
           (λ _, true) cluster_secret [two]); [reflexivity|by left|reflexivity| | |exact Hq].
  - intros g Hg r Hr. left. apply list_elem_of_singleton in Hg as ->. by destruct Hr as [(m&Hm&_)|(m&Hm&_)].
  - intros (g&Hg&Hu). apply list_elem_of_singleton in Hg as ->.
    destruct Hu as [Hu|(r&[(m&Hm&_)|(m&Hm&_)]&_)]; discriminate.
Defined.

(** A set with a generator of cluster decisions is not queued although it depends on the
    clusters. *)
Example decisions_not_queued :
  queueRelatedAppGenerators (λ _, true) cluster_secret (Some [places]) = [] ∧
  GenerateApplications (GetGenerators no_secrets none_informed (placed (decided ["east"])) offline) places = Ok ([], None) ∧
  GenerateApplications (deciding (placed (decided ["east"]))) places =
    Ok ([rendered "shop-east" [AppSetGenerators.ResourcesFinalizerName]], None).
Proof. vm_compute. split_and!; reflexivity. Qed.

(** A set that a cluster secret reaches *)
Example queued : queueRelatedAppGenerators (λ _, true) {[LabelKeySecretType := LabelValueSecretTypeCluster]}
  (Some [two; set_of [merge_of ["name"] [of_elements ["east"]; of_clusters]] (sample_template "shop" [])]) = [("cd", "shop")].
Proof. vm_compute. reflexivity. Qed.

(** ** Passes *)

Definition sample_config : reconciler :=
  {| Policy := ApplicationsSyncPolicySync; EnablePolicyOverride := false; ControllerNamespace := "cd"; EnableProgressiveSyncs := false;
     GlobalPreservedAnnotations := []; GlobalPreservedLabels := []; MaxResourcesStatusCount := 0 |}.

Definition missing : error := mkErr ReasonNotFound "not found".

(** A cluster with an application of the set that is not generated any more *)
Definition sample_env (set : AppSet) (apps : list Application) : set_env :=
  {| clock _ := 0%Z; get_set _ := inr set; store_status log := match last log with Some (StoreSetStatus s) => inr s | _ => inr set end;
     update_set log := match last log with Some (UpdateSet s) => inr s | _ => inr set end;
     get_project _ := None; servers_by_name _ := inr [];
     get_cluster _ := inr {| SpecifierName := "in-cluster"; SpecifierServer := "https://kubernetes.default.svc" |};
     informed_clusters _ := inr []; list_apps _ := inr apps;
     get_app log := match last log with
                    | Some (GetApp ns n) => match List.find (λ a, String.eqb (AppName a) n) apps with Some a => inr (a, None) | None => inl missing end
                    | _ => inl missing
                    end;
     write_app _ := None |}.

Definition writes (log : list call) : list (string * string) :=
  omap (λ c, match c with
             | CreateApp a => Some ("create", AppName a)
             | PatchApp _ a => Some ("patch", AppName a)
             | DeleteApp _ n => Some ("delete", n)
             | _ => None
             end) log.

Definition pass_of (set : AppSet) (apps : list Application) : (error + Z) * list call :=
  Reconcile sample_config (sample_env set apps) generators [].

Example one_pass :
  (λ out, (out.1, writes out.2)) (pass_of two [rendered "shop-old" []]) =
    (inr 0%Z, [("create", "shop-east"); ("create", "shop-west"); ("delete", "shop-old")]).
Proof. vm_compute. reflexivity. Qed.

(** A generator with an error: nothing is written. *)
Example failed_generation :
  writes (pass_of (set_of [only (of_elements ["unknown"])] (sample_template "shop" [])) [rendered "shop-old" []]).2 = [].
Proof. vm_compute. reflexivity. Qed.

(** The application of the last pass, which runs an operation now *)
Definition created : Application :=
  {| AppName := "shop-east"; AppNamespace := "cd"; AppLabels := ∅; AppAnnotations := ∅;
     AppFinalizers := [AppSetGenerators.ResourcesFinalizerName]; AppOwners := [reference two];
     AppSpec := NormalizeApplicationSpec sample_spec; AppOperation := None; AppStatus := no_status |}.

Lemma sample_reference : reference_idempotent two.
Proof.
  intros owners owners'. cbn. destruct (existsb _ owners) eqn:E; [done|]. intros [= <-]. cbn.
  assert (existsb (λ o, OwnerController o && negb (String.eqb (OwnerName o) "shop")) (List.filter (λ o, negb (OwnerController o)) owners) = false) as ->.
  { clear E. induction owners as [|o l IH]; [done|]. cbn. destruct (OwnerController o) eqn:Eo; cbn; [done|]. by rewrite Eo. }
  by rewrite filter_filter_same.
Qed.

Definition first_app : Application := rendered "shop-east" [AppSetGenerators.ResourcesFinalizerName].
Definition running : Rollout.Operation :=
  {| InitiatedByUsername := "admin"; InitiatedAutomated := false; Info := []; SyncPrune := false; SyncSyncOptions := None;
     OperationRetry := {| Limit := 0; RetryFields := "" |} |}.
Definition after_creation : set_env := sample_env two [worked_on created (Some running) no_status].

Lemma CreateOrUpdate_settles_witness :
  CreateOrUpdate sample_config after_creation two (with_spec (NormalizeApplicationSpec sample_spec) first_app) [] =
    (inr tt, [GetApp "cd" "shop-east"]).
Proof.
  apply (CreateOrUpdate_settles sample_config two after_creation first_app (empty_app "cd" "shop-east") created (Some running) no_status []).
  - exact sample_reference.
  - vm_compute. reflexivity.
  - reflexivity.
  - reflexivity.
  - vm_compute. reflexivity.
  - exists None. vm_compute. reflexivity.
Defined.

(** A finalizer of deletion hooks in the template is added again by every pass. *)
Definition hooked (name : string) (n : nat) : Application :=
  {| AppName := name; AppNamespace := "cd"; AppLabels := ∅; AppAnnotations := ∅; AppFinalizers := replicate n PostDeleteFinalizerName;
     AppOwners := [reference two]; AppSpec := NormalizeApplicationSpec sample_spec; AppOperation := None; AppStatus := no_status |}.
Example finalizers_grow :
  mutate_found sample_config two (hooked "shop-east" 1) (hooked "shop-east" 1) = inr (hooked "shop-east" 2) ∧
  mutate_found sample_config two (hooked "shop-east" 1) (hooked "shop-east" 2) = inr (hooked "shop-east" 3).
Proof. vm_compute. split; reflexivity. Qed.

(** With the policy that only creates, an application of the same name without an owner is
    patched: it is in no list of the set. *)
Example create_only_patches :
  let foreign := rendered "shop-east" [] in
  let env := sample_env two [foreign] in
  let config := {| Policy := ApplicationsSyncPolicyCreateOnly; EnablePolicyOverride := false; ControllerNamespace := "cd";
                   EnableProgressiveSyncs := false; GlobalPreservedAnnotations := []; GlobalPreservedLabels := []; MaxResourcesStatusCount := 0 |} in
  let unlisted := {| clock := clock env; get_set := get_set env; store_status := store_status env; update_set := update_set env;
                     get_project := get_project env; servers_by_name := servers_by_name env; get_cluster := get_cluster env;
                     informed_clusters := informed_clusters env; list_apps := λ _, inr []; get_app := get_app env; write_app := write_app env |} in
  writes (Reconcile config unlisted generators []).2 = [("patch", "shop-east"); ("create", "shop-west")].
Proof. vm_compute. reflexivity. Qed.

(** A set that is deleted in reverse order deletes an application that a stale list still
    has, also where its policy does not allow deletion. *)
Example stale_list_deletes :
  let strategy := Some {| StrategyType := "RollingSync"; DeletionOrder := "Reverse";
                          RollingSync := Some [{| Rollout.MatchExpressions := []; MaxUpdate := None |}] |} in
  let deleted := {| SetName := "shop"; SetNamespace := "cd"; SetLabels := ∅; SetAnnotations := ∅; SetFinalizers := [];
                    SetDeletionTimestamp := Some 1%Z; SetGenerators := []; SetTemplate := no_template; SetTemplatePatch := None;
                    GoTemplate := false; GoTemplateOptions := [];
                    SetSyncPolicy := None; PreservedAnnotations := []; PreservedLabels := []; IgnoreApplicationDifferences := [];
                    SetRollout := {| Strategy := strategy; Rollout.ApplicationStatus := [] |};
                    SetStatus := SetStatus two |} in
  let config := {| Policy := ApplicationsSyncPolicyCreateOnly; EnablePolicyOverride := false; ControllerNamespace := "cd";
                   EnableProgressiveSyncs := true; GlobalPreservedAnnotations := []; GlobalPreservedLabels := []; MaxResourcesStatusCount := 0 |} in
  writes (Reconcile config (sample_env deleted [created]) generators []).2 = [("delete", "shop-east")].
Proof. vm_compute. reflexivity. Qed.

(** ** Status *)

Definition an_error : list SetCondition := [condition ErrorOccurred StatusTrue "ApplicationValidationError" "no such project"].

Lemma conditions_consistent_witness :
  exclusive an_error ∧
  ∃ ev new, new_conditions false an_error true = (ev, new) ∧
    let st := SetStatus (set_conditions 0 new ev two) in
    exclusive (StatusConditions st) ∧ ((StatusHealth st).1 = HealthStatusDegraded ↔ shows ErrorOccurred (StatusConditions st)).
Proof.
  assert (exclusive an_error) as He by (intros [_ (c&Hc%list_elem_of_singleton&Ht&_)]; subst c; discriminate).
  assert (exclusive (StatusConditions (SetStatus two))) as Ho by (intros [(c&Hc%elem_of_nil&_) _]; exact Hc).
  split; [exact He|]. pose proof (conditions_consistent false an_error true 0 two He Ho) as H.
  destruct (new_conditions false an_error true) as [ev new]. exists ev, new. split; [reflexivity|].
  split; [apply H|apply H].
Defined.

Lemma every_application_served_witness :
  ∃ results log' res, createOrUpdateInCluster sample_config (sample_env two []) two [first_app] [] = (res, log') ∧
    worked (λ a, CreateOrUpdate sample_config (sample_env two []) two (with_spec (NormalizeApplicationSpec (AppSpec a)) a)) [first_app] results [] log' ∧
    overall (zip (AppName <$> [first_app]) results) res.
Proof. apply (proj1 (every_application_served sample_config (sample_env two []) two [first_app] [])). reflexivity. Defined.
End AppSetSample.
