(* ===== verification/AppOperation.v ===== *)
(** * The life of an operation in the application controller

    [processRequestedAppOperation] of src/controller/appcontroller.go starts,
    resumes, retries, times out and completes the operation of an application;
    [setOperationState] stores its state with a JSON merge patch;
    [SetAppOperation] (src/util/cd/cd.go) requests one, [TerminateOperation]
    (src/server/application/application.go) stops it.  The sync itself
    ([SyncAppState]) is a parameter: it reports through phase, message and result. *)

From S2P Require Import Prelude GoStd GoTime Kube SyncCommon.
Local Open Scope string_scope.
Local Open Scope list_scope.
Local Open Scope Z_scope.

(** ** Data (src/pkg/apis/application/v1alpha1/types.go) *)

Record Backoff := { BackoffDuration : string; BackoffFactor : option Z; BackoffMaxDuration : string }.
Record RetryStrategy := { Limit : Z; RetryBackoff : option Backoff; Refresh : bool }.

(** A source is only compared. *)
Definition ApplicationSource : Type := string.

Record SyncOperationResource := { ResGroup : string; ResKind : string; ResName : string }.
(** [Revisions], [SyncOptions] and [Sources] are nil slices when [None] or
    empty. *)
Record SyncOperation := {
  SyncRevision : string;
  SyncRevisions : list string;
  SyncPrune : bool;
  SyncDryRun : bool;
  SyncSyncOptions : list string;
  SyncSource : option ApplicationSource;
  SyncSources : list ApplicationSource;
  SyncResources : list SyncOperationResource;
  SelfHealAttemptsCount : Z;
}.
Record Operation := { OpSync : option SyncOperation; OpAutomated : bool; OpRetry : RetryStrategy }.

Record SyncOperationResult := {
  ResultRevision : string;
  ResultRevisions : list string;
  ResultSource : ApplicationSource;
  ResultSources : list ApplicationSource;
}.
Record OperationState := {
  StateOperation : Operation;
  Phase : OperationPhase;
  Message : string;
  SyncResult : option SyncOperationResult;
  StartedAt : Z;
  FinishedAt : option Z;
  RetryCount : Z;
}.

#[export] Instance Backoff_eq_dec : EqDecision Backoff.
Proof. solve_decision. Defined.
#[export] Instance RetryStrategy_eq_dec : EqDecision RetryStrategy.
Proof. solve_decision. Defined.
#[export] Instance SyncOperationResource_eq_dec : EqDecision SyncOperationResource.
Proof. solve_decision. Defined.
#[export] Instance SyncOperation_eq_dec : EqDecision SyncOperation.
Proof. solve_decision. Defined.
#[export] Instance Operation_eq_dec : EqDecision Operation.
Proof. solve_decision. Defined.
#[export] Instance SyncOperationResult_eq_dec : EqDecision SyncOperationResult.
Proof. solve_decision. Defined.
#[export] Instance OperationState_eq_dec : EqDecision OperationState.
Proof. solve_decision. Defined.

(** The stored application, as far as its operation goes *)
Record app := { AppOperation : option Operation; AppState : option OperationState }.
#[export] Instance app_eq_dec : EqDecision app.
Proof. solve_decision. Defined.

(** ** Retries *)
Definition DefaultSyncRetryMaxDuration : Z := 180000000000.
Definition DefaultSyncRetryDuration : Z := 5000000000.
Definition DefaultSyncRetryFactor : Z := 2.

(** Without a unit a duration is a number of seconds; [inl] is an error. *)
Definition parseStringToDuration (s : string) : string + Z :=
  match Atoi s with
  | Some v => inr (wrap64 (v * Second))
  | None =>
      match ParseDuration s with
      | Some d => inr d
      | None => inl ("unable to parse " +:+ s +:+ " as a duration")
      end
  end.

(** A field of the backoff that may be left empty *)
Definition duration_or (text : string) (d : Z) : string + Z :=
  if String.eqb text "" then inr d else parseStringToDuration text.

(** The wait before a retry.  The code computes it in double precision, which is
    exact below 2^53 nanoseconds (104 days); with a positive [maxDuration] below
    that, the result is exact whatever the count. *)
Definition timeToWait (duration factor maxDuration retryCounts : Z) : Z :=
  let w := duration * factor ^ retryCounts in
  if 0 <? maxDuration then Z.min maxDuration w else w.

Definition NextRetryAt (r : RetryStrategy) (lastAttempt retryCounts : Z) : string + Z :=
  match RetryBackoff r with
  | None =>
      inr (lastAttempt + timeToWait DefaultSyncRetryDuration DefaultSyncRetryFactor
             DefaultSyncRetryMaxDuration retryCounts)
  | Some b =>
      match duration_or (BackoffDuration b) DefaultSyncRetryDuration with
      | inl err => inl err
      | inr duration =>
          match duration_or (BackoffMaxDuration b) DefaultSyncRetryMaxDuration with
          | inl err => inl err
          | inr maxDuration =>
              let factor := default DefaultSyncRetryFactor (BackoffFactor b) in
              inr (lastAttempt + timeToWait duration factor maxDuration retryCounts)
          end
      end
  end.

(** ** Storing a state

    Empty fields are left out of the patch (their tags have [omitempty]), and a
    merge patch keeps what it does not mention. *)
Definition keep_empty {A} (new old : list A) : list A := match new with [] => old | _ => new end.
Definition keep_string (new old : string) : string := if String.eqb new "" then old else new.
Definition keep_Z (new old : Z) : Z := if new =? 0 then old else new.
Definition keep_opt {A} (new old : option A) : option A := if new is Some _ then new else old.

Definition merge_sync (new old : SyncOperation) : SyncOperation :=
  {| SyncRevision := keep_string (SyncRevision new) (SyncRevision old);
     SyncRevisions := keep_empty (SyncRevisions new) (SyncRevisions old);
     SyncPrune := SyncPrune new || SyncPrune old; SyncDryRun := SyncDryRun new || SyncDryRun old;
     SyncSyncOptions := keep_empty (SyncSyncOptions new) (SyncSyncOptions old);
     SyncSource := keep_opt (SyncSource new) (SyncSource old);
     SyncSources := keep_empty (SyncSources new) (SyncSources old);
     SyncResources := keep_empty (SyncResources new) (SyncResources old);
     SelfHealAttemptsCount := keep_Z (SelfHealAttemptsCount new) (SelfHealAttemptsCount old) |}.

Definition merge_backoff (new old : option Backoff) : option Backoff :=
  match new, old with
  | Some n, Some o =>
      Some {| BackoffDuration := keep_string (BackoffDuration n) (BackoffDuration o);
              BackoffFactor := keep_opt (BackoffFactor n) (BackoffFactor o);
              BackoffMaxDuration := keep_string (BackoffMaxDuration n) (BackoffMaxDuration o) |}
  | Some n, None => Some n
  | None, o => o
  end.

Definition merge_operation (new old : Operation) : Operation :=
  {| OpSync :=
       match OpSync new, OpSync old with
       | Some n, Some o => Some (merge_sync n o)
       | Some n, None => Some n
       | None, o => o
       end;
     OpAutomated := OpAutomated new || OpAutomated old;
     OpRetry :=
       {| Limit := keep_Z (Limit (OpRetry new)) (Limit (OpRetry old));
          RetryBackoff := merge_backoff (RetryBackoff (OpRetry new)) (RetryBackoff (OpRetry old));
          Refresh := Refresh (OpRetry new) || Refresh (OpRetry old) |} |}.

(** The revision has no [omitempty]; a source is stored whole. *)
Definition merge_result (new old : option SyncOperationResult) : option SyncOperationResult :=
  match new, old with
  | Some n, Some o =>
      Some {| ResultRevision := ResultRevision n; ResultRevisions := keep_empty (ResultRevisions n) (ResultRevisions o);
              ResultSource := ResultSource n; ResultSources := keep_empty (ResultSources n) (ResultSources o) |}
  | Some n, None => Some n
  | None, o => o
  end.

(** Times are stored with whole seconds. *)
Definition seconds (t : Z) : Z := t - t mod Second.

(** [clear]: the patch has an explicit null for [finishedAt]. *)
Definition merge_state (clear : bool) (new old : OperationState) : OperationState :=
  {| StateOperation := merge_operation (StateOperation new) (StateOperation old);
     Phase := Phase new;
     Message := keep_string (Message new) (Message old);
     SyncResult := merge_result (SyncResult new) (SyncResult old);
     StartedAt := seconds (StartedAt new);
     FinishedAt := match FinishedAt new with
                   | Some t => Some (seconds t)
                   | None => if clear then None else FinishedAt old
                   end;
     RetryCount := keep_Z (RetryCount new) (RetryCount old) |}.

Definition stored_state (new : OperationState) : OperationState :=
  {| StateOperation := StateOperation new; Phase := Phase new; Message := Message new;
     SyncResult := SyncResult new; StartedAt := seconds (StartedAt new);
     FinishedAt := seconds <$> FinishedAt new; RetryCount := RetryCount new |}.

Definition set_phase (p : OperationPhase) (m : string) (st : OperationState) : OperationState :=
  {| StateOperation := StateOperation st; Phase := p; Message := m; SyncResult := SyncResult st;
     StartedAt := StartedAt st; FinishedAt := FinishedAt st; RetryCount := RetryCount st |}.
Definition set_FinishedAt (t : option Z) (st : OperationState) : OperationState :=
  {| StateOperation := StateOperation st; Phase := Phase st; Message := Message st; SyncResult := SyncResult st;
     StartedAt := StartedAt st; FinishedAt := t; RetryCount := RetryCount st |}.

(** [setOperationState] on the stored application; [orig] is the state of the
    application the handler was given, [now] the time of the call.  The result
    has the state as it is in memory afterwards. *)
Definition setOperationState (now : Z) (orig : option OperationState) (st : OperationState) (stored : app)
    : app * OperationState :=
  let st := if Completed (Phase st) then set_FinishedAt (Some now) st else st in
  if bool_decide (orig = Some st) then (stored, st)
  else
    let clear := match orig with
                 | Some o => (if FinishedAt o is Some _ then true else false) &&
                             (if FinishedAt st is Some _ then false else true)
                 | None => false
                 end in
    ({| AppOperation := if Completed (Phase st) then None else AppOperation stored;
        AppState := Some match AppState stored with
                         | Some old => merge_state clear st old
                         | None => stored_state st
                         end |}, st).

(** ** Processing *)

Inductive sync_outcome :=
  | SyncDone (p : OperationPhase) (m : string) (r : option SyncOperationResult)
  | SyncPanic (m : string).

(** What one call meets: the clock at the points where it is read, the project,
    the sync, and what other clients do to the stored application meanwhile *)
Record env := {
  syncTimeout : Z;
  t_timeout : Z; t_until : Z; t_started : Z; t_failed : Z; t_set1 : Z; t_set2 : Z; t_requeue : Z;
  projectError : option string;
  SyncAppState : OperationState → sync_outcome;
  others : app → app;
  freshFails : bool;
}.

Inductive CompareWith := CompareWithLatest | CompareWithLatestForceResolve.

(** The stored application after the call, the delay of the next one, a refresh
    that is requested, and the state given to [SyncAppState] *)
Record result := {
  res_app : app;
  res_requeue : Z;
  res_refresh : option CompareWith;
  res_synced : option OperationState;
}.

Definition appOperationMaxRequeueInterval : Z := 30 * Second.

Definition NewOperationState (now : Z) (op : Operation) : OperationState :=
  {| StateOperation := op; Phase := OperationRunning; Message := ""; SyncResult := None; StartedAt := now;
     FinishedAt := None; RetryCount := 0 |}.

(** The state in which a retry starts: no results, and the latest revisions if
    asked for *)
Definition retry_state (st : OperationState) : OperationState :=
  let op := StateOperation st in
  let refresh := Refresh (OpRetry op) in
  let sync := (λ s, if refresh then
    {| SyncRevision := ""; SyncRevisions := []; SyncPrune := SyncPrune s; SyncDryRun := SyncDryRun s;
       SyncSyncOptions := SyncSyncOptions s; SyncSource := SyncSource s; SyncSources := SyncSources s;
       SyncResources := SyncResources s; SelfHealAttemptsCount := SelfHealAttemptsCount s |} else s) <$> OpSync op in
  {| StateOperation := {| OpSync := sync; OpAutomated := OpAutomated op; OpRetry := OpRetry op |};
     Phase := Phase st;
     Message := "Retrying operation" +:+ (if refresh then " with latest revisions" else "") +:+
                ". Attempt #" +:+ pretty (RetryCount st);
     SyncResult := None; StartedAt := StartedAt st; FinishedAt := None; RetryCount := RetryCount st |}.

Inductive begun :=
  | Stopped (stored : app) (st : OperationState) (requeueAfter : Z)
  | Continues (stored : app) (st : OperationState) (terminatingCause : string).

Section controller.
(** [time.Kitchen] *)
Context (kitchen : Z → string).

(** A retry that refreshes revisions writes them through the pointer
    [state.Operation.Sync]; a nil pointer panics, and the recovery stores an
    error. *)
Definition refresh_panics (st : OperationState) : bool :=
  Refresh (OpRetry (StateOperation st)) && (if OpSync (StateOperation st) is Some _ then false else true).
Definition nil_dereference : string := "runtime error: invalid memory address or nil pointer dereference".

(** The first part: start, resume, time out or retry *)
Definition begin_operation (e : env) (op : Operation) (a : app) : begun :=
  match AppState a with
  | Some st =>
      if Completed (Phase st) then
        let '(stored, st) := setOperationState (t_set1 e) (Some st) (NewOperationState (t_started e) op) a in
        Continues stored st ""
      else if bool_decide (Phase st = OperationTerminating) then Continues a st ""
      else if negb (syncTimeout e =? 0) && time_Before (StartedAt st + syncTimeout e) (t_timeout e) then
        let '(stored, st') := setOperationState (t_set1 e) (Some st)
          (set_phase OperationTerminating "operation is terminating due to timeout" st) a in
        Continues stored st' "controller sync timeout"
      else
        match Phase st, FinishedAt st with
        | OperationRunning, Some finished =>
            match NextRetryAt (OpRetry (StateOperation st)) finished (RetryCount st) with
            | inl err =>
                let '(stored, st') := setOperationState (t_set1 e) (Some st) (set_phase OperationError err st) a in
                Stopped stored st' appOperationMaxRequeueInterval
            | inr retryAt =>
                if 0 <? retryAt - t_until e then Stopped a st (retryAt - t_until e)
                else if refresh_panics st then
                  let '(stored, st') := setOperationState (t_set1 e) (Some st)
                    (set_phase OperationError nil_dereference st) a in
                  Stopped stored st' appOperationMaxRequeueInterval
                else
                  let '(stored, st') := setOperationState (t_set1 e) (Some st) (retry_state st) a in
                  Continues stored st' ""
            end
        | _, _ => Continues a st ""
        end
  | None =>
      let '(stored, st) := setOperationState (t_set1 e) None (NewOperationState (t_started e) op) a in
      Continues stored st ""
  end.

(** The sync: a failure to load the project is an error of the operation. *)
Definition run_sync (e : env) (st : OperationState) : OperationState + string :=
  match projectError e with
  | Some err => inl (set_phase OperationError ("Failed to load application project: " +:+ err) st)
  | None =>
      match SyncAppState e st with
      | SyncDone p m r =>
          inl {| StateOperation := StateOperation st; Phase := p; Message := m; SyncResult := r;
                 StartedAt := StartedAt st; FinishedAt := FinishedAt st; RetryCount := RetryCount st |}
      | SyncPanic m => inr m
      end
  end.

(** The state of an operation that is to be retried at [now] *)
Definition schedule_retry (now retryAt : Z) (st : OperationState) : OperationState :=
  let count := wrap64 (RetryCount st + 1) in
  {| StateOperation := StateOperation st; Phase := OperationRunning;
     Message := Message st +:+ ". Retrying attempt #" +:+ pretty count +:+ " at " +:+ kitchen retryAt +:+ ".";
     SyncResult := SyncResult st; StartedAt := StartedAt st; FinishedAt := Some now; RetryCount := count |}.

Definition may_retry (st : OperationState) : bool :=
  let limit := Limit (OpRetry (StateOperation st)) in
  (RetryCount st <? limit) || (limit <? 0).

(** The last part: what becomes of the phase the sync ended with *)
Definition conclude (e : env) (terminating : bool) (cause : string) (stored : app) (st : OperationState)
    : OperationState :=
  match Phase st with
  | OperationRunning =>
      match freshFails e, AppState stored with
      | false, Some fresh =>
          if bool_decide (Phase fresh = OperationTerminating)
          then set_phase OperationTerminating "operation is terminating" st else st
      | _, _ => st
      end
  | OperationFailed | OperationError =>
      if negb terminating && may_retry st then
        match NextRetryAt (OpRetry (StateOperation st)) (t_failed e) (RetryCount st) with
        | inl err => set_phase OperationError (Message st +:+ " (failed to retry: " +:+ err +:+ ")") st
        | inr retryAt => schedule_retry (t_failed e) retryAt st
        end
      else
        let m := if terminating && negb (String.eqb cause "") then Message st +:+ ", triggered by " +:+ cause
                 else Message st in
        let m := if 0 <? RetryCount st then m +:+ " (retried " +:+ pretty (RetryCount st) +:+ " times)." else m in
        set_phase (Phase st) m st
  | _ => st
  end.

Definition requeue (e : env) (st : OperationState) (after : Z) : Z :=
  if (0 <? syncTimeout e) && negb (bool_decide (Phase st = OperationTerminating)) then
    let remaining := StartedAt st + syncTimeout e - t_requeue e in
    if remaining <? after then remaining else after
  else after.

(** A state without a phase makes [setOperationState] panic, and the recovery
    stores an error. *)
Definition store_final (e : env) (orig : option OperationState) (st : OperationState) (stored : app)
    : app * OperationState :=
  if bool_decide (Phase st = OperationNone)
  then setOperationState (t_set2 e) orig (set_phase OperationError "no phase was set" st) stored
  else setOperationState (t_set2 e) orig st stored.

Definition refresh_after (op : Operation) (st : OperationState) : option CompareWith :=
  match OpSync op with
  | Some s =>
      if Completed (Phase st) && negb (SyncDryRun s) then
        Some (if OpAutomated (StateOperation st) then CompareWithLatest else CompareWithLatestForceResolve)
      else None
  | None => None
  end.

Definition processRequestedAppOperation (e : env) (op : Operation) (a : app) : result :=
  match begin_operation e op a with
  | Stopped stored st after =>
      {| res_app := stored; res_requeue := requeue e st after; res_refresh := None; res_synced := None |}
  | Continues stored st cause =>
      let synced := if projectError e is Some _ then None else Some st in
      match run_sync e st with
      | inr m =>
          let '(stored, st) := setOperationState (t_set2 e) (AppState a) (set_phase OperationError m st) (others e stored) in
          {| res_app := stored; res_requeue := requeue e st appOperationMaxRequeueInterval; res_refresh := None;
             res_synced := synced |}
      | inl st1 =>
          let stored := others e stored in
          let st2 := conclude e (bool_decide (Phase st = OperationTerminating)) cause stored st1 in
          let '(stored, st3) := store_final e (AppState a) st2 stored in
          {| res_app := stored; res_requeue := requeue e st3 appOperationMaxRequeueInterval;
             res_refresh := if bool_decide (Phase st2 = OperationNone) then None else refresh_after op st3;
             res_synced := synced |}
      end
  end.
End controller.

(** ** Requests

    [SetAppOperation], with the update that the API server accepts: the stored
    application afterwards, and the error that is returned.  An operation without
    a sync is an error, but it is stored. *)
Inductive set_error := ErrAnotherOperationInProgress | OperationUnspecified.
Definition SetAppOperation (op : Operation) (a : app) : app * option set_error :=
  match AppOperation a with
  | Some _ => (a, Some ErrAnotherOperationInProgress)
  | None => ({| AppOperation := Some op; AppState := None |},
             if OpSync op is Some _ then None else Some OperationUnspecified)
  end.

(** [TerminateOperation], with the update that the API server accepts; [None] is
    the error that no operation is in progress *)
Definition TerminateOperation (a : app) : option app :=
  match AppOperation a, AppState a with
  | Some _, Some st =>
      Some {| AppOperation := AppOperation a;
              AppState := Some (set_phase OperationTerminating (Message st) st) |}
  | _, _ => None
  end.
