(* ===== verification/AppOperationProofs.v ===== *)
(** * The life of an operation: theorems

    An operation is retried at most as often as its strategy allows, never before
    the time the strategy gives, and a completed operation is cleared; a failing
    operation ends; terminated operations are not retried. *)

From S2P Require Import Prelude GoStd GoTime Kube SyncCommon AppOperation.
Local Open Scope string_scope.
Local Open Scope list_scope.
Local Open Scope Z_scope.

(** ** The invariant *)

Definition retry_of (st : OperationState) : RetryStrategy := OpRetry (StateOperation st).

(** Retries stay within the limit; a negative limit is no limit. *)
Definition count_ok (st : OperationState) : Prop :=
  0 <= Limit (retry_of st) → 0 <= RetryCount st <= Limit (retry_of st).

Definition op_ok (op : Operation) : Prop := Limit (OpRetry op) <= int_max.

(** The operation is there exactly as long as its state is not completed, and
    the state was made for it. *)
Definition inv (a : app) : Prop :=
  (∀ op, AppOperation a = Some op → op_ok op) ∧
  ∀ st, AppState a = Some st → count_ok st ∧
    match AppOperation a with
    | Some op => retry_of st = OpRetry op ∧ Completed (Phase st) = false
    | None => Completed (Phase st) = true ∧ FinishedAt st ≠ None
    end.

(** A state made for operation [op] *)
Definition state_for (op : Operation) (st : OperationState) : Prop := retry_of st = OpRetry op ∧ count_ok st.

Lemma state_for_phase op p m st : state_for op st → state_for op (set_phase p m st).
Proof. done. Qed.

Lemma state_for_finished op t st : state_for op st → state_for op (set_FinishedAt t st).
Proof. done. Qed.

Lemma merge_backoff_same b : merge_backoff b b = b.
Proof.
  destruct b as [[d f m]|]; simpl; [|done]. unfold keep_string.
  destruct f, (String.eqb d ""), (String.eqb m ""); done.
Qed.

Lemma merge_retry op new old clear :
  state_for op new → state_for op old → state_for op (merge_state clear new old).
Proof.
  intros [Hr Hc] [Hr' Hc']. unfold retry_of in *.
  assert (retry_of (merge_state clear new old) = OpRetry op) as Heq.
  { unfold retry_of. simpl. rewrite Hr, Hr', merge_backoff_same, orb_diag. unfold keep_Z.
    destruct (OpRetry op) as [l b r]. simpl. by destruct (l =? 0). }
  split; [done|]. unfold count_ok in *. rewrite Heq. unfold retry_of in *. rewrite Hr in Hc. rewrite Hr' in Hc'.
  simpl. unfold keep_Z. destruct (RetryCount new =? 0); auto.
Qed.

Lemma set_inv now orig st op stored :
  inv stored → AppOperation stored = Some op → state_for op st →
  let '(stored', st') := setOperationState now orig st stored in
  inv stored' ∧ state_for op st' ∧ Phase st' = Phase st ∧
  (Completed (Phase st) = false → AppOperation stored' = Some op).
Proof.
  intros [Hop Hst] Ha Hfor. unfold setOperationState.
  set (st1 := if Completed (Phase st) then set_FinishedAt (Some now) st else st).
  assert (state_for op st1 ∧ Phase st1 = Phase st ∧ (Completed (Phase st) = true → FinishedAt st1 ≠ None))
    as (Hfor1 & Hp & Hfin) by (unfold st1; destruct (Completed (Phase st)); done).
  clearbody st1. destruct (bool_decide (orig = Some st1)); [by split_and!|]. rewrite Hp.
  set (clear := match orig with Some o => _ | None => false end).
  split_and!; [|done|done|intros ->; done]. split; simpl.
  { intros op'. destruct (Completed (Phase st)); [done|apply Hop]. }
  intros st2 [= <-].
  assert (∀ s, AppState stored = Some s → state_for op s) as Hold.
  { intros s Hs. destruct (Hst s Hs) as [? H]. rewrite Ha in H. by destruct H. }
  assert (state_for op (match AppState stored with
    | Some old => merge_state clear st1 old | None => stored_state st1 end)) as [Hr Hc].
  { destruct (AppState stored) as [old|]; [|done]. apply merge_retry; auto. }
  split; [apply Hc|]. destruct (Completed (Phase st)) eqn:E; [|rewrite Ha].
  - destruct (AppState stored); simpl; rewrite Hp; (split; [done|]); specialize (Hfin eq_refl);
      by destruct (FinishedAt st1).
  - split; [apply Hr|]. destruct (AppState stored); simpl; by rewrite Hp.
Qed.

(** ** One call *)
Section processing.
Context (kitchen : Z → string).

Lemma inv_state op a st :
  inv a → AppOperation a = Some op → AppState a = Some st → state_for op st ∧ Completed (Phase st) = false.
Proof. intros [_ H] Ha Hst. destruct (H st Hst) as [? H']. rewrite Ha in H'. by destruct H'. Qed.

Lemma new_state_for now op : state_for op (NewOperationState now op).
Proof. split; [done|]. intros Hl. simpl. lia. Qed.

Lemma retry_state_for op st : state_for op st → state_for op (retry_state st).
Proof. done. Qed.

Definition begun_ok (op : Operation) (b : begun) : Prop :=
  match b with
  | Stopped stored st after => inv stored
  | Continues stored st cause =>
      inv stored ∧ AppOperation stored = Some op ∧ state_for op st ∧ Completed (Phase st) = false
  end.

Lemma begin_continues now orig st op a cause :
  inv a → AppOperation a = Some op → state_for op st → Completed (Phase st) = false →
  begun_ok op (let '(stored, st') := setOperationState now orig st a in Continues stored st' cause).
Proof.
  intros Hinv Ha Hst Hp. pose proof (set_inv now orig st op a Hinv Ha Hst) as H.
  destruct (setOperationState now orig st a) as [stored st']. destruct H as (? & ? & Hp' & ?).
  simpl. rewrite Hp'. split_and!; auto.
Qed.

Lemma begin_stopped now orig st op a after :
  inv a → AppOperation a = Some op → state_for op st →
  begun_ok op (let '(stored, st') := setOperationState now orig st a in Stopped stored st' after).
Proof.
  intros Hinv Ha Hst. pose proof (set_inv now orig st op a Hinv Ha Hst) as H.
  destruct (setOperationState now orig st a) as [stored st']. by destruct H.
Qed.

Lemma begin_ok e op a : inv a → AppOperation a = Some op → begun_ok op (begin_operation e op a).
Proof.
  intros Hinv Ha. unfold begin_operation. destruct (AppState a) as [st|] eqn:Hst.
  - destruct (inv_state op a st Hinv Ha Hst) as [Hfor Hc]. rewrite Hc.
    assert (begun_ok op (Continues a st "")) as Hresume by by split_and!.
    destruct (bool_decide (Phase st = OperationTerminating)); [done|].
    destruct (_ && _); [apply begin_continues; [done|done|by apply state_for_phase|done]|].
    destruct (Phase st) eqn:Hp; try done. destruct (FinishedAt st) as [f|]; [|done].
    destruct (NextRetryAt _ _ _); [by apply begin_stopped|].
    destruct (0 <? _); [done|]. destruct (refresh_panics st); [by apply begin_stopped|].
    apply begin_continues; [done|done|by apply retry_state_for|]. simpl. by rewrite Hp.
  - apply begin_continues; [done|done|apply new_state_for|done].
Qed.

Lemma run_sync_for e op st st1 : run_sync e st = inl st1 → state_for op st → state_for op st1.
Proof.
  unfold run_sync. destruct (projectError e); [by intros [= <-]|].
  destruct (SyncAppState e st); by intros [= <-].
Qed.

Lemma schedule_retry_for op now retryAt st :
  op_ok op → state_for op st → may_retry st = true → state_for op (schedule_retry kitchen now retryAt st).
Proof.
  unfold op_ok, state_for, may_retry, count_ok, retry_of. intros Hop [Hr Hc] Hmay. simpl. rewrite Hr in *.
  split; [done|]. intros Hl. specialize (Hc Hl). apply orb_prop in Hmay as [H%Z.ltb_lt|H%Z.ltb_lt]; [|lia].
  rewrite wrap64_id; [lia|]. unfold in_int64, int_min, int_max in *. lia.
Qed.

Lemma conclude_for e op term cause stored st :
  op_ok op → state_for op st → state_for op (conclude kitchen e term cause stored st).
Proof.
  intros Hop Hst. unfold conclude. destruct (Phase st); try done.
  - destruct (freshFails e); [done|]. destruct (AppState stored); [|done]. by destruct (bool_decide _).
  - destruct (negb term && may_retry st) eqn:Hm; [|done]. apply andb_prop in Hm as [_ Hm].
    destruct (NextRetryAt _ _ _); [done|]. by apply schedule_retry_for.
  - destruct (negb term && may_retry st) eqn:Hm; [|done]. apply andb_prop in Hm as [_ Hm].
    destruct (NextRetryAt _ _ _); [done|]. by apply schedule_retry_for.
Qed.

(** Other clients read the application, or terminate its operation. *)
Definition others_ok (e : env) : Prop := ∀ x, others e x = x ∨ TerminateOperation x = Some (others e x).

Lemma terminate_inv a a' : inv a → TerminateOperation a = Some a' → inv a' ∧ AppOperation a' = AppOperation a.
Proof.
  intros [Hop Hst]. unfold TerminateOperation. destruct (AppOperation a) as [op|] eqn:Ha; [|done].
  destruct (AppState a) as [st|] eqn:Hs; [|done]. intros [= <-]. split; [|done]. split; [done|].
  simpl. intros st' [= <-]. destruct (Hst st eq_refl) as [Hc [Hr _]]. by split_and!.
Qed.

Lemma others_inv e a : others_ok e → inv a → inv (others e a) ∧ AppOperation (others e a) = AppOperation a.
Proof. intros Ho Ha. destruct (Ho a) as [->|H]; [done|]. by eapply terminate_inv. Qed.

Lemma store_final_inv e orig st op stored :
  inv stored → AppOperation stored = Some op → state_for op st → inv (store_final e orig st stored).1.
Proof.
  intros Hinv Ha Hst. unfold store_final. destruct (bool_decide _).
  - pose proof (set_inv (t_set2 e) orig (set_phase OperationError "no phase was set" st) op stored Hinv Ha Hst) as H.
    destruct (setOperationState _ _ _ _). by destruct H.
  - pose proof (set_inv (t_set2 e) orig st op stored Hinv Ha Hst) as H.
    destruct (setOperationState _ _ _ _). by destruct H.
Qed.

Lemma process_inv e op a :
  inv a → AppOperation a = Some op → others_ok e →
  inv (res_app (processRequestedAppOperation kitchen e op a)) ∧
  ∀ st, res_synced (processRequestedAppOperation kitchen e op a) = Some st → state_for op st.
Proof.
  intros Hinv Ha Ho. unfold processRequestedAppOperation.
  pose proof (begin_ok e op a Hinv Ha) as Hb. pose proof (proj1 Hinv op Ha) as Hop.
  destruct (begin_operation e op a) as [stored st after|stored st cause]; [done|].
  destruct Hb as (Hs & Hsop & Hfor & _). destruct (others_inv e stored Ho Hs) as [Hs' Hsop'].
  rewrite Hsop in Hsop'.
  destruct (run_sync e st) as [st1|m] eqn:Hrun.
  - pose proof (store_final_inv e (AppState a) (conclude kitchen e (bool_decide (Phase st = OperationTerminating))
      cause (others e stored) st1) op (others e stored) Hs' Hsop') as H.
    destruct (store_final _ _ _ _) as [stored' st3]. simpl in *. split.
    + apply H, conclude_for; [done|]. by eapply run_sync_for.
    + destruct (projectError e); [done|]. by intros ? [= <-].
  - pose proof (set_inv (t_set2 e) (AppState a) (set_phase OperationError m st) op _ Hs' Hsop' Hfor) as H.
    destruct (setOperationState _ _ _ _) as [stored' st3]. destruct H as [H _]. split; [done|].
    simpl. destruct (projectError e); [done|]. by intros ? [= <-].
Qed.

(** ** Histories *)
Inductive op_step : app → app → Prop :=
  | step_request op a : op_ok op → op_step a (SetAppOperation op a).1
  | step_terminate a a' : TerminateOperation a = Some a' → op_step a a'
  | step_process e op a :
      AppOperation a = Some op → others_ok e →
      op_step a (res_app (processRequestedAppOperation kitchen e op a)).

Definition idle : app := {| AppOperation := None; AppState := None |}.

Lemma reachable_inv a : rtc op_step idle a → inv a.
Proof.
  intros H. refine (rtc_ind_r inv idle _ _ a H); [by split|].
  intros x y _ Hstep Hx. destruct Hstep as [op x Hop|x y Ht|e op x Hx' Ho].
  - unfold SetAppOperation. destruct (AppOperation x); [done|]. split; simpl; [by intros ? [= <-]|done].
  - by eapply terminate_inv.
  - by apply process_inv.
Qed.

(** Retries are bounded and completion is final: whatever requests,
    terminations and passes of the controller happen, an operation with a limit
    has been retried at most that often whenever it is stored or handed to the
    sync, and the stored application has an operation exactly as long as its
    state is not completed, and a completed state has its time. *)
Theorem operation_retries_bounded a :
  rtc op_step idle a →
  (∀ st, AppState a = Some st →
    (0 <= Limit (OpRetry (StateOperation st)) → 0 <= RetryCount st <= Limit (OpRetry (StateOperation st))) ∧
    (AppOperation a = None ↔ Completed (Phase st) = true) ∧
    (Completed (Phase st) = true → FinishedAt st ≠ None)) ∧
  (∀ e op st, AppOperation a = Some op → others_ok e →
    res_synced (processRequestedAppOperation kitchen e op a) = Some st →
    0 <= Limit (OpRetry op) → 0 <= RetryCount st <= Limit (OpRetry op)).
Proof.
  intros Hinv%reachable_inv. split.
  - intros st Hst. destruct (proj2 Hinv st Hst) as [Hc H]. split; [done|].
    destruct (AppOperation a) as [op|]; [|naive_solver]. destruct H as [_ ->]. naive_solver.
  - intros e op st Ha Ho Hs Hl. destruct (process_inv e op a Hinv Ha Ho) as [_ H].
    destruct (H st Hs) as [Hr Hc]. unfold count_ok in Hc. rewrite Hr in Hc. auto.
Qed.

(** ** Waiting for a retry *)
Definition timed_out (e : env) (st : OperationState) : bool :=
  negb (syncTimeout e =? 0) && time_Before (StartedAt st + syncTimeout e) (t_timeout e).

(** A call that finds an operation waiting for its retry *)
Lemma begin_waiting e op a st f :
  AppState a = Some st → Phase st = OperationRunning → FinishedAt st = Some f → timed_out e st = false →
  begin_operation e op a =
    match NextRetryAt (retry_of st) f (RetryCount st) with
    | inl err =>
        let '(stored, st') := setOperationState (t_set1 e) (Some st) (set_phase OperationError err st) a in
        Stopped stored st' appOperationMaxRequeueInterval
    | inr retryAt =>
        if 0 <? retryAt - t_until e then Stopped a st (retryAt - t_until e)
        else if refresh_panics st then
          let '(stored, st') := setOperationState (t_set1 e) (Some st) (set_phase OperationError nil_dereference st) a in
          Stopped stored st' appOperationMaxRequeueInterval
        else
          let '(stored, st') := setOperationState (t_set1 e) (Some st) (retry_state st) a in Continues stored st' ""
    end.
Proof.
  intros Hst Hp Hf Ht. unfold begin_operation. rewrite Hst, Hp. simpl.
  unfold timed_out in Ht. by rewrite Ht, Hf.
Qed.

(** Retries keep their time: an operation that waits for a retry is left
    alone, and looked at again when the retry is due, as long as the time its
    strategy gives has not come; then it is synced anew, without the results of
    the failed attempt; a strategy that does not parse ends the operation. *)
Theorem retry_waits e op a st f :
  AppState a = Some st → Phase st = OperationRunning → FinishedAt st = Some f → timed_out e st = false →
  let r := processRequestedAppOperation kitchen e op a in
  match NextRetryAt (OpRetry (StateOperation st)) f (RetryCount st) with
  | inl err => res_synced r = None ∧ AppOperation (res_app r) = None ∧
      Phase <$> AppState (res_app r) = Some OperationError
  | inr t =>
      (t_until e < t → res_synced r = None ∧ res_app r = a ∧ (syncTimeout e = 0 → res_requeue r = t - t_until e)) ∧
      (t <= t_until e → refresh_panics st = false → projectError e = None →
        ∃ st', res_synced r = Some st' ∧ SyncResult st' = None ∧ FinishedAt st' = None ∧
          RetryCount st' = RetryCount st)
  end.
Proof.
  intros Hst Hp Hf Ht. cbn zeta. unfold processRequestedAppOperation.
  rewrite (begin_waiting e op a st f Hst Hp Hf Ht). unfold retry_of.
  destruct (NextRetryAt _ _ _) as [err|t].
  - unfold setOperationState. simpl. rewrite bool_decide_eq_false_2.
    + simpl. rewrite Hst. done.
    + intros [= H]. apply (f_equal Phase) in H. simpl in H. congruence.
  - split.
    + intros Hlt. rewrite (proj2 (Z.ltb_lt 0 (t - t_until e))) by lia. simpl. split_and!; [done..|].
      intros H0. unfold requeue. by rewrite H0.
    + intros Hle Hrp Hproj. rewrite (proj2 (Z.ltb_ge 0 (t - t_until e))) by lia. rewrite Hrp.
      assert ((setOperationState (t_set1 e) (Some st) (retry_state st) a).2 = retry_state st) as Hset.
      { unfold setOperationState. simpl. rewrite Hp. simpl. by destruct (bool_decide _). }
      destruct (setOperationState _ _ _ _) as [stored st']. simpl in Hset. subst st'.
      exists (retry_state st). rewrite Hproj. destruct (run_sync e (retry_state st)).
      * by destruct (store_final _ _ _ _).
      * by destruct (setOperationState _ _ _ _).
Qed.

(** The wait never exceeds a positive maximum. *)
Lemma NextRetryAt_bound r last n t :
  RetryBackoff r = None → NextRetryAt r last n = inr t → t <= last + DefaultSyncRetryMaxDuration.
Proof. unfold NextRetryAt. intros -> [= <-]. unfold timeToWait. simpl. lia. Qed.

(** ** Terminated operations *)

(** A terminated operation is not retried: once its stored state is
    Terminating, the sync is asked to terminate, and whatever phase other than
    Running it ends with, the stored state afterwards is still Terminating or
    completed, with the same number of retries. *)
Theorem terminated_not_retried e op a st :
  inv a → AppOperation a = Some op → AppState a = Some st → Phase st = OperationTerminating → others_ok e →
  projectError e = None →
  (∀ st' p m r, Phase st' = OperationTerminating → SyncAppState e st' = SyncDone p m r →
     p ≠ OperationRunning ∧ p ≠ OperationNone) →
  let r := processRequestedAppOperation kitchen e op a in
  Phase <$> res_synced r = Some OperationTerminating ∧
  ∃ st', AppState (res_app r) = Some st' ∧ RetryCount st' = RetryCount st ∧
    (Phase st' = OperationTerminating ∨ Completed (Phase st') = true ∧ AppOperation (res_app r) = None).
Proof.
  intros Hinv Ha Hst Hp Ho Hproj Hsync. cbn zeta. unfold processRequestedAppOperation.
  assert (begin_operation e op a = Continues a st "") as ->.
  { unfold begin_operation. by rewrite Hst, Hp. }
  assert (∃ so, AppState (others e a) = Some so ∧ RetryCount so = RetryCount st ∧ Phase so = OperationTerminating)
    as (so & Hso & Hcount & Hpso).
  { destruct (Ho a) as [->|H]; [eauto|]. unfold TerminateOperation in H. rewrite Ha, Hst in H.
    injection H as <-. by eexists. }
  assert (∀ st1, RetryCount st1 = RetryCount st → Phase st1 = OperationTerminating ∨ Completed (Phase st1) = true →
    ∃ st', AppState (setOperationState (t_set2 e) (AppState a) st1 (others e a)).1 = Some st' ∧
      RetryCount st' = RetryCount st ∧
      (Phase st' = OperationTerminating ∨ Completed (Phase st') = true ∧
       AppOperation (setOperationState (t_set2 e) (AppState a) st1 (others e a)).1 = None)) as Hset.
  { intros st1 Hc Hph. unfold setOperationState. rewrite Hst.
    destruct Hph as [Hph|Hph]; rewrite Hph; simpl.
    - destruct (bool_decide _); simpl; [eauto|]. rewrite Hso. eexists. split; [done|]. simpl.
      split; [unfold keep_Z; rewrite Hc, Hcount; by destruct (_ =? 0)|by left].
    - rewrite bool_decide_eq_false_2; [|intros [= H]; apply (f_equal Phase) in H; simpl in H;
        rewrite <-H, Hp in Hph; done].
      simpl. rewrite Hph, Hso. eexists. split; [done|]. simpl.
      split; [unfold keep_Z; rewrite Hc, Hcount; by destruct (_ =? 0)|by right]. }
  unfold run_sync. rewrite Hproj. destruct (SyncAppState e st) as [p m r|m] eqn:Hs.
  - destruct (Hsync st p m r Hp Hs) as [Hnr Hnn]. rewrite (bool_decide_eq_true_2 (Phase st = _)) by done.
    set (st1 := {| Phase := p |}). set (st2 := conclude _ _ _ _ _ _).
    assert (RetryCount st2 = RetryCount st ∧ Phase st2 = p) as [Hc2 Hp2].
    { unfold st2, conclude, st1. simpl. by destruct p. }
    unfold store_final. rewrite bool_decide_eq_false_2 by congruence.
    destruct (Hset st2) as (st' & H1 & H2 & H3); [done|rewrite Hp2; destruct p; auto; done|].
    destruct (setOperationState _ _ _ _) as [stored st3]. simpl in *. split; [by rewrite Hp|]. eauto.
  - destruct (Hset (set_phase OperationError m st)) as (st' & H1 & H2 & H3); [done|by right|].
    destruct (setOperationState _ _ _ _) as [stored st3]. simpl in *. split; [by rewrite Hp|]. eauto.
Qed.

(** ** Failing operations end *)

(** The state of attempt [k] of operation [op] *)
Definition live (op : Operation) (k : Z) (st : OperationState) : Prop :=
  retry_of st = OpRetry op ∧ RetryCount st = k ∧ OpSync (StateOperation st) ≠ None.
Definition waiting (op : Operation) (k : Z) (a : app) : Prop :=
  AppOperation a = Some op ∧ ∃ st, AppState a = Some st ∧ live op k st ∧ Phase st = OperationRunning ∧
    FinishedAt st ≠ None.
Definition ended (k : Z) (a : app) : Prop :=
  AppOperation a = None ∧ ∃ st, AppState a = Some st ∧ RetryCount st = k ∧ Failed (Phase st) || bool_decide (Phase st = OperationError) = true.

Lemma merge_live op k k' new old clear :
  live op k new → live op k' old → (k = 0 → k' = 0) → live op k (merge_state clear new old).
Proof.
  intros (Hr & Hk & Hs) (Hr' & Hk' & Hs') H0. unfold live, retry_of in *. simpl. split_and!.
  - rewrite Hr, Hr', merge_backoff_same, orb_diag. unfold keep_Z.
    destruct (OpRetry op) as [l b r]. simpl. by destruct (l =? 0).
  - unfold keep_Z. destruct (Z.eqb_spec (RetryCount new) 0); [|done]. rewrite Hk', H0 by congruence. congruence.
  - by destruct (OpSync (StateOperation new)), (OpSync (StateOperation old)).
Qed.

(** Storing a state that differs from the original one *)
Lemma set_live now orig st stored op k k' :
  live op k st → (∀ old, AppState stored = Some old → live op k' old) → (k = 0 → k' = 0) →
  orig ≠ Some (if Completed (Phase st) then set_FinishedAt (Some now) st else st) →
  ∃ st', AppState (setOperationState now orig st stored).1 = Some st' ∧ live op k st' ∧ Phase st' = Phase st ∧
    (FinishedAt st ≠ None → FinishedAt st' ≠ None) ∧
    AppOperation (setOperationState now orig st stored).1 =
      if Completed (Phase st) then None else AppOperation stored.
Proof.
  intros Hl Hold H0 Hne. unfold setOperationState.
  set (st1 := if Completed (Phase st) then set_FinishedAt (Some now) st else st) in *.
  assert (live op k st1 ∧ Phase st1 = Phase st ∧ (FinishedAt st ≠ None → FinishedAt st1 ≠ None)) as (Hl1 & Hp1 & Hf1).
  { unfold st1. by destruct (Completed (Phase st)). }
  rewrite bool_decide_eq_false_2 by done. simpl. rewrite Hp1. eexists. split; [done|].
  destruct (AppState stored) as [old|]; split_and!; try done; simpl.
  - eapply merge_live; [done|by apply Hold|done].
  - intros ?%Hf1. by destruct (FinishedAt st1).
  - intros ?%Hf1. by destruct (FinishedAt st1).
Qed.

(** A sync that fails, in a controller without other clients or a timeout *)
Definition fails (e : env) : Prop :=
  projectError e = None ∧ syncTimeout e = 0 ∧ (∀ x, others e x = x) ∧
  ∀ st, ∃ p m r, SyncAppState e st = SyncDone p m r ∧ (p = OperationFailed ∨ p = OperationError).
(** A retry that the application waits for is due. *)
Definition due (e : env) (a : app) : Prop :=
  ∀ st f, AppState a = Some st → FinishedAt st = Some f →
    ∃ t, NextRetryAt (retry_of st) f (RetryCount st) = inr t ∧ t <= t_until e.
Definition parses (r : RetryStrategy) : Prop := ∀ x n, ∃ t, NextRetryAt r x n = inr t.

(** From the start of an attempt to its end *)
Lemma failing_attempt e op a stored st k :
  op_ok op → 0 <= k <= Limit (OpRetry op) → parses (OpRetry op) → fails e →
  begin_operation e op a = Continues stored st "" →
  live op k st → Phase st = OperationRunning → AppOperation stored = Some op →
  (∀ old, AppState stored = Some old → live op k old) →
  (∀ o, AppState a = Some o → RetryCount o <= k ∧ Phase o = OperationRunning) →
  let a' := res_app (processRequestedAppOperation kitchen e op a) in
  if k <? Limit (OpRetry op) then waiting op (k + 1) a' else ended k a'.
Proof.
  intros Hop Hk Hparse (Hproj & Ht & Hid & Hfail) Hb Hlive Hp Ha Hold Horig. cbn zeta.
  unfold processRequestedAppOperation. rewrite Hb. unfold run_sync. rewrite Hproj.
  destruct (Hfail st) as (p & m & r & -> & Hpf). rewrite Hid, (bool_decide_eq_false_2 (Phase st = _)) by congruence.
  set (st1 := {| Phase := p |}). assert (live op k st1) as Hl1 by done.
  destruct Hl1 as (Hr1 & Hk1 & Hs1). unfold retry_of in Hr1.
  unfold conclude. replace (Phase st1) with p by done.
  assert (may_retry st1 = (k <? Limit (OpRetry op))) as Hmay.
  { unfold may_retry. rewrite Hr1, Hk1. rewrite (proj2 (Z.ltb_ge (Limit (OpRetry op)) 0)) by lia. apply orb_false_r. }
  destruct (Hparse (t_failed e) k) as [t Ht']. unfold store_final.
  destruct (Z.ltb_spec k (Limit (OpRetry op))) as [Hlt|Hge].
  - assert (wrap64 (k + 1) = k + 1) as Hw.
    { apply wrap64_id. unfold op_ok, in_int64, int_min, int_max in *. lia. }
    set (st2 := schedule_retry kitchen (t_failed e) t st1).
    assert (RetryCount st2 = k + 1) as Hk2 by (rewrite <-Hw, <-Hk1; done).
    assert (live op (k + 1) st2) as Hl2 by done.
    destruct (set_live (t_set2 e) (AppState a) st2 stored op (k + 1) k) as (st' & H1 & H2 & H3 & H4 & H5);
      [done|done|lia| |].
    { intros Heq. apply Horig in Heq as [Hle _]. change (RetryCount st2 <= k) in Hle. lia. }
    destruct Hpf as [-> | ->]; rewrite Hmay, Hr1, Hk1, Ht'; simpl; fold st2;
      destruct (setOperationState _ _ st2 _) as [stored' st3]; simpl in *;
      (split; [by rewrite H5|]); exists st'; by split_and!; auto.
  - assert (k = Limit (OpRetry op)) as -> by lia.
    destruct Hpf as [-> | ->]; rewrite Hmay; cbn [negb andb];
      match goal with |- context [set_phase ?q ?x st1] => set (st2 := set_phase q x st1) end;
      rewrite (bool_decide_eq_false_2 (Phase st2 = OperationNone)) by done;
      (destruct (set_live (t_set2 e) (AppState a) st2 stored op (Limit (OpRetry op)) (Limit (OpRetry op)))
        as (st' & H1 & H2 & H3 & H4 & H5); [done|done|done|
        intros Heq; apply Horig in Heq as [_ Hq]; done|]);
      destruct (setOperationState _ _ st2 _) as [stored' st3]; simpl in *;
      (split; [done|]); exists st'; (split_and!; [done|by destruct H2 as (_ & ? & _)|by rewrite H3]).
Qed.

(** The first attempt of a requested operation *)
Lemma first_attempt e op a :
  op_ok op → 0 <= Limit (OpRetry op) → parses (OpRetry op) → OpSync op ≠ None → fails e →
  AppOperation a = Some op → AppState a = None →
  let a' := res_app (processRequestedAppOperation kitchen e op a) in
  if 0 <? Limit (OpRetry op) then waiting op 1 a' else ended 0 a'.
Proof.
  intros Hop Hl Hparse Hs Hf Ha Hst.
  set (st := NewOperationState (t_started e) op).
  apply (failing_attempt e op a {| AppOperation := Some op; AppState := Some (stored_state st) |} st 0); try done.
  - unfold begin_operation, setOperationState. rewrite Hst, bool_decide_eq_false_2 by done. simpl. by rewrite Ha.
  - by intros ? [= <-].
  - by rewrite Hst.
Qed.

(** An attempt at a retry that is due *)
Lemma retry_attempt e op a k :
  op_ok op → 0 <= k <= Limit (OpRetry op) → parses (OpRetry op) → fails e → due e a → waiting op k a →
  let a' := res_app (processRequestedAppOperation kitchen e op a) in
  if k <? Limit (OpRetry op) then waiting op (k + 1) a' else ended k a'.
Proof.
  intros Hop Hk Hparse Hf Hdue (Ha & st & Hst & Hlive & Hp & Hfin).
  destruct (FinishedAt st) as [f|] eqn:Hfst; [|done]. destruct (Hdue st f Hst Hfst) as (t & Ht & Hle).
  assert (refresh_panics st = false) as Hrp.
  { unfold refresh_panics. destruct Hlive as (_ & _ & Hs). destruct (OpSync _); [|done]. apply andb_false_r. }
  assert (live op k (retry_state st)) as Hl2.
  { destruct Hlive as (? & ? & Hs). split_and!; [done..|]. simpl. by destruct (OpSync _). }
  assert (Phase (retry_state st) = OperationRunning) as Hp2 by done.
  destruct (set_live (t_set1 e) (Some st) (retry_state st) a op k k) as (st' & H1 & H2 & _ & _ & H5);
    [done|rewrite Hst; by intros ? [= <-]|done| |].
  { rewrite Hp2. simpl. intros [= H]. rewrite H in Hfst. done. }
  assert ((setOperationState (t_set1 e) (Some st) (retry_state st) a).2 = retry_state st) as H6.
  { unfold setOperationState. rewrite Hp2. simpl. by destruct (bool_decide _). }
  rewrite Hp2 in H5. simpl in H5.
  destruct (setOperationState _ _ _ _) as [stored st2] eqn:Hset. simpl in *. subst st2.
  apply (failing_attempt e op a stored (retry_state st) k); try done.
  - rewrite (begin_waiting e op a st f Hst Hp Hfst) by (unfold timed_out; by rewrite (proj1 (proj2 Hf))).
    rewrite Ht, (proj2 (Z.ltb_ge 0 (t - t_until e))) by lia. by rewrite Hrp, Hset.
  - by rewrite H5.
  - rewrite H1. by intros ? [= <-].
  - rewrite Hst. intros o [= <-]. destruct Hlive as (_ & ? & _). by split; [lia|].
Qed.

(** [failing_run op n a b]: [n] passes of the controller from [a] to [b], each
    with its retry due, in which every sync fails *)
Inductive failing_run (op : Operation) : nat → app → app → Prop :=
  | failing_run_start a : failing_run op 0 a a
  | failing_run_pass n e a b :
      failing_run op n a b → AppOperation b = Some op → fails e → due e b →
      failing_run op (S n) a (res_app (processRequestedAppOperation kitchen e op b)).

Lemma requested_sync op :
  (if OpSync op is Some _ then None else Some OperationUnspecified) = None → OpSync op ≠ None.
Proof. by destruct (OpSync op). Qed.

(** C32. A failing operation ends: an operation of limit [l] with a backoff that
    parses, whose syncs all fail and which is neither terminated nor timed out, takes exactly [l + 1] due passes of the controller.  After each of the first
    [l] it waits for its next retry with that many retries counted, after the
    last one it is cleared and its state is failed with [l] retries, and no pass
    follows. *)
Theorem failing_operation_ends op a a0 n b :
  SetAppOperation op a = (a0, None) →
  0 <= Limit (OpRetry op) <= int_max → parses (OpRetry op) → failing_run op n a0 b →
  (Z.of_nat n <= Limit (OpRetry op) → AppOperation b = Some op ∧
    (n ≠ 0%nat → ∃ st, AppState b = Some st ∧ Phase st = OperationRunning ∧ FinishedAt st ≠ None ∧
       RetryCount st = Z.of_nat n)) ∧
  (Limit (OpRetry op) < Z.of_nat n → Z.of_nat n = Limit (OpRetry op) + 1 ∧ AppOperation b = None ∧
    ∃ st, AppState b = Some st ∧ (Phase st = OperationFailed ∨ Phase st = OperationError) ∧
      RetryCount st = Limit (OpRetry op)).
Proof.
  intros Hreq Hl Hparse Hrun. unfold SetAppOperation in Hreq. destruct (AppOperation a); [done|].
  injection Hreq as Ha0 Hs%(requested_sync op).
  assert (if decide (n = 0%nat) then b = a0
    else if Z.of_nat n <=? Limit (OpRetry op) then waiting op (Z.of_nat n) b
    else Z.of_nat n = Limit (OpRetry op) + 1 ∧ ended (Limit (OpRetry op)) b) as Hb.
  { induction Hrun as [|n e a1 b Hrun IH Hop Hf Hdue]; [done|]. specialize (IH Ha0).
    destruct (decide (n = 0%nat)) as [->|Hn].
    - subst. pose proof (first_attempt e op {| AppOperation := Some op; AppState := None |} (proj2 Hl) (proj1 Hl) Hparse Hs Hf eq_refl eq_refl) as H.
      cbn zeta in H. cbn [decide]. revert H.
      destruct (Z.ltb_spec 0 (Limit (OpRetry op))); destruct (Z.leb_spec (Z.of_nat 1) (Limit (OpRetry op))); try lia.
      + done.
      + by replace (Limit (OpRetry op)) with 0 by lia.
    - destruct (Z.leb_spec (Z.of_nat n) (Limit (OpRetry op))); [|destruct IH as (_ & H' & _); congruence].
      pose proof (retry_attempt e op b (Z.of_nat n) (proj2 Hl) ltac:(lia) Hparse Hf Hdue IH) as H'. cbn zeta in H'.
      rewrite decide_False by done. revert H'. rewrite Nat2Z.inj_succ.
      destruct (Z.ltb_spec (Z.of_nat n) (Limit (OpRetry op)));
        destruct (Z.leb_spec (Z.succ (Z.of_nat n)) (Limit (OpRetry op))); try lia; [done|].
      replace (Z.of_nat n) with (Limit (OpRetry op)) by lia. done. }
  destruct (decide (n = 0%nat)) as [->|Hn].
  - subst. split; [done|lia].
  - split.
    + intros Hle%Z.leb_le. rewrite Hle in Hb. destruct Hb as (? & st & ? & (_ & ? & _) & ? & ?). eauto 10.
    + intros Hlt. rewrite (proj2 (Z.leb_gt _ _)) in Hb by lia. destruct Hb as (? & ? & st & ? & ? & Hp).
      split_and!; [done..|]. exists st. split_and!; [done| |done]. destruct (Phase st); simpl in Hp; auto; done.
Qed.
End processing.

(** ** Concrete runs *)

Module OperationSample.
Definition kitchen (t : Z) : string := pretty (t / Second) +:+ "s".

Definition sync : SyncOperation :=
  {| SyncRevision := "abc"; SyncRevisions := []; SyncPrune := true; SyncDryRun := false; SyncSyncOptions := [];
     SyncSource := None; SyncSources := []; SyncResources := []; SelfHealAttemptsCount := 0 |}.
Definition retry : RetryStrategy := {| Limit := 1; RetryBackoff := None; Refresh := false |}.
Definition op : Operation := {| OpSync := Some sync; OpAutomated := false; OpRetry := retry |}.

Definition at_time (t : Z) (outcome : sync_outcome) (f : app → app) : env :=
  {| syncTimeout := 0; t_timeout := t; t_until := t; t_started := t; t_failed := t; t_set1 := t; t_set2 := t;
     t_requeue := t; projectError := None; SyncAppState _ := outcome; others := f; freshFails := false |}.
Definition failing (t : Z) : env := at_time t (SyncDone OperationFailed "one or more tasks failed" None) id.

Definition requested : app := {| AppOperation := Some op; AppState := None |}.
(** After a failed attempt at 100 s *)
Definition waits : app :=
  Eval vm_compute in res_app (processRequestedAppOperation kitchen (failing (100 * Second)) op requested).
(** After the retry, at 110 s *)
Definition over : app :=
  Eval vm_compute in res_app (processRequestedAppOperation kitchen (failing (110 * Second)) op waits).
Definition waiting_state : OperationState :=
  Eval vm_compute in default (NewOperationState 0 op) (AppState waits).

Lemma failing_ok t : others_ok (failing t).
Proof. intros x. by left. Defined.

Lemma waits_eq : res_app (processRequestedAppOperation kitchen (failing (100 * Second)) op requested) = waits.
Proof. vm_compute. reflexivity. Defined.

Lemma over_eq : res_app (processRequestedAppOperation kitchen (failing (110 * Second)) op waits) = over.
Proof. vm_compute. reflexivity. Defined.

Lemma op_fine : op_ok op.
Proof. by vm_compute. Defined.

Lemma waits_reachable : rtc (op_step kitchen) idle waits.
Proof.
  eapply rtc_l; [apply (step_request kitchen op idle op_fine)|].
  apply rtc_once. rewrite <-waits_eq. apply step_process; [done|apply failing_ok].
Defined.

Lemma operation_retries_bounded_witness :
  rtc (op_step kitchen) idle waits ∧
  (∀ st, AppState waits = Some st →
    (0 <= Limit (OpRetry (StateOperation st)) → 0 <= RetryCount st <= Limit (OpRetry (StateOperation st))) ∧
    (AppOperation waits = None ↔ Completed (Phase st) = true) ∧
    (Completed (Phase st) = true → FinishedAt st ≠ None)) ∧
  (∀ e op st, AppOperation waits = Some op → others_ok e →
    res_synced (processRequestedAppOperation kitchen e op waits) = Some st →
    0 <= Limit (OpRetry op) → 0 <= RetryCount st <= Limit (OpRetry op)).
Proof. split; [apply waits_reachable|apply (operation_retries_bounded kitchen waits waits_reachable)]. Defined.

(** At 104 s the retry of 110 s is not due, and the controller comes back in 6 s. *)
Lemma retry_waits_witness :
  AppState waits = Some waiting_state ∧ Phase waiting_state = OperationRunning ∧
  let r := processRequestedAppOperation kitchen (failing (104 * Second)) op waits in
  res_synced r = None ∧ res_app r = waits ∧ res_requeue r = 6 * Second.
Proof.
  split; [reflexivity|]. split; [reflexivity|].
  destruct (retry_waits kitchen (failing (104 * Second)) op waits waiting_state (100 * Second)
    eq_refl eq_refl eq_refl eq_refl) as [H _].
  destruct H as (H1 & H2 & H3); [vm_compute; reflexivity|].
  split; [exact H1|]. split; [exact H2|]. rewrite H3 by reflexivity. vm_compute. reflexivity.
Defined.

(** ** Termination *)
Definition terminated : app := Eval vm_compute in default waits (TerminateOperation waits).
Definition terminated_state : OperationState :=
  Eval vm_compute in default waiting_state (AppState terminated).

Lemma terminated_inv : inv terminated.
Proof.
  apply (terminate_inv waits terminated); [|reflexivity].
  apply (reachable_inv kitchen), waits_reachable.
Defined.

Lemma terminated_not_retried_witness :
  Phase terminated_state = OperationTerminating ∧
  let r := processRequestedAppOperation kitchen (failing (120 * Second)) op terminated in
  Phase <$> res_synced r = Some OperationTerminating ∧
  ∃ st', AppState (res_app r) = Some st' ∧ RetryCount st' = RetryCount terminated_state ∧
    (Phase st' = OperationTerminating ∨ Completed (Phase st') = true ∧ AppOperation (res_app r) = None).
Proof.
  split; [reflexivity|].
  apply (terminated_not_retried kitchen (failing (120 * Second)) op terminated terminated_state);
    [apply terminated_inv|reflexivity..|apply failing_ok|reflexivity|].
  intros st' p m r _ H. injection H as <- _ _. done.
Defined.

(** ** A failing operation *)
Lemma failing_fails t : fails (failing t).
Proof. split_and!; [done..|]. intros st. by exists OperationFailed, "one or more tasks failed", None; split; [|left]. Defined.

Lemma over_run : failing_run kitchen op 2 requested over.
Proof.
  rewrite <-over_eq. apply failing_run_pass; [|reflexivity|apply failing_fails|].
  - rewrite <-waits_eq. apply failing_run_pass; [apply failing_run_start|reflexivity|apply failing_fails|].
    intros st f H. discriminate H.
  - intros st f H Hf. injection H as <-. injection Hf as <-. eexists. split; [reflexivity|]. by vm_compute.
Defined.

Lemma retry_parses : parses (OpRetry op).
Proof. intros x n. eexists. reflexivity. Defined.

Lemma failing_operation_ends_witness :
  failing_run kitchen op 2 requested over ∧ AppOperation over = None ∧
  ∃ st, AppState over = Some st ∧ (Phase st = OperationFailed ∨ Phase st = OperationError) ∧ RetryCount st = 1.
Proof.
  split; [apply over_run|].
  destruct (failing_operation_ends kitchen op idle requested 2 over) as [_ H];
    [reflexivity|by vm_compute|apply retry_parses|apply over_run|].
  destruct H as (_ & H); [by vm_compute|exact H].
Defined.
End OperationSample.

(** ** Edges of the retry logic *)
Module OperationEdges.
Import OperationSample.

(** The message announces the retry for 105 s: its time is computed before the
    retry is counted.  The wait is computed after, and ends at 110 s. *)
Example announced_retry_is_early :
  Message waiting_state = "one or more tasks failed. Retrying attempt #1 at 105s." ∧
  NextRetryAt (OpRetry (StateOperation waiting_state)) (100 * Second) (RetryCount waiting_state) = inr (110 * Second).
Proof. vm_compute. done. Qed.

(** A termination that arrives during a sync that fails is overwritten by the
    retry: the stored state is Running again. *)
Example failing_sync_clobbers_terminate :
  let terminate x := default x (TerminateOperation x) in
  let e := at_time (100 * Second) (SyncDone OperationFailed "failed" None) terminate in
  others_ok e ∧ Phase <$> AppState (res_app (processRequestedAppOperation kitchen e op requested)) = Some OperationRunning.
Proof.
  split; [|vm_compute; done]. intros x. simpl. destruct (TerminateOperation x); [by right|by left].
Qed.

(** During a sync that runs on, it is kept. *)
Example running_sync_keeps_terminate :
  let terminate x := default x (TerminateOperation x) in
  let e := at_time (100 * Second) (SyncDone OperationRunning "waiting" None) terminate in
  Phase <$> AppState (res_app (processRequestedAppOperation kitchen e op requested)) = Some OperationTerminating.
Proof. vm_compute. done. Qed.

(** A retry starts without the results of the failed attempt, but they stay in
    the stored state, which a merge patch does not remove. *)
Example results_stay_stored :
  let res := {| ResultRevision := "abc"; ResultRevisions := []; ResultSource := "git"; ResultSources := [] |} in
  let a := res_app (processRequestedAppOperation kitchen
             (at_time (100 * Second) (SyncDone OperationFailed "failed" (Some res)) id) op requested) in
  let r := processRequestedAppOperation kitchen
             (at_time (110 * Second) (SyncDone OperationRunning "waiting" None) id) op a in
  (SyncResult <$> res_synced r) = Some None ∧ (SyncResult <$> AppState (res_app r)) = Some (Some res).
Proof. vm_compute. done. Qed.

(** A request without a sync returns an error, but is stored and started. *)
Example operation_without_sync_is_stored :
  let op := {| OpSync := None; OpAutomated := false; OpRetry := retry |} in
  SetAppOperation op idle = ({| AppOperation := Some op; AppState := None |}, Some OperationUnspecified).
Proof. reflexivity. Qed.

(** Without a sync, a retry that refreshes revisions ends in an error. *)
Example refresh_without_sync :
  let op := {| OpSync := None; OpAutomated := false;
               OpRetry := {| Limit := 1; RetryBackoff := None; Refresh := true |} |} in
  let a := res_app (processRequestedAppOperation kitchen (failing (100 * Second)) op
             {| AppOperation := Some op; AppState := None |}) in
  Phase <$> AppState (res_app (processRequestedAppOperation kitchen (failing (110 * Second)) op a))
  = Some OperationError.
Proof. vm_compute. done. Qed.
End OperationEdges.
