(* ===== verification/AutoSync.v ===== *)
(** * Automated sync (src/controller/appcontroller.go)

    [autoSync] starts a sync of an application that is out of sync, if its policy
    asks for that: [alreadyAttemptedSync] and [selfHealRemainingBackoff] keep it
    from syncing the same revision for ever, and the project's sync windows gate
    it.  The operation it requests is the one [AppOperation] processes. *)

From S2P Require Import Prelude GoStd GoTime AppTypes Glob Windows Kube SyncCommon AppOperation.
Local Open Scope string_scope.
Local Open Scope list_scope.
Local Open Scope Z_scope.

(** ** The spec (src/pkg/apis/application/v1alpha1/types.go) *)

Record SyncPolicyAutomated := {
  Prune : option bool; SelfHeal : option bool; AllowEmpty : option bool; Enabled : option bool;
}.
Record SyncPolicy := {
  PolicyAutomated : option SyncPolicyAutomated;
  PolicySyncOptions : list string;
  PolicyRetry : option RetryStrategy;
}.

(** [SourceHydrator] is the source that [GetSyncSource] makes of the hydrator. *)
Record ApplicationSpec := {
  Source : option ApplicationSource;
  Sources : list ApplicationSource;
  SourceHydrator : option ApplicationSource;
  SpecSyncPolicy : option SyncPolicy;
}.

Definition IsAutomatedSyncEnabled (p : SyncPolicy) : bool :=
  match PolicyAutomated p with
  | Some a => default true (Enabled a)
  | None => false
  end.
Definition GetPrune (a : option SyncPolicyAutomated) : bool := default false (a ≫= Prune).
Definition GetSelfHeal (a : option SyncPolicyAutomated) : bool := default false (a ≫= SelfHeal).
Definition GetAllowEmpty (a : option SyncPolicyAutomated) : bool := default false (a ≫= AllowEmpty).

Definition HasMultipleSources (spec : ApplicationSpec) : bool :=
  if SourceHydrator spec is Some _ then false else Nat.ltb 0 (length (Sources spec)).

(** The empty source *)
Definition no_source : ApplicationSource := "".
Definition GetSource (spec : ApplicationSpec) : ApplicationSource :=
  match SourceHydrator spec with
  | Some s => s
  | None =>
      if HasMultipleSources spec then default no_source (head (Sources spec))
      else default no_source (Source spec)
  end.

(** ** What a comparison found *)
Inductive SyncStatusCode := SyncStatusUnknown | SyncStatusSynced | SyncStatusOutOfSync.
#[export] Instance SyncStatusCode_eq_dec : EqDecision SyncStatusCode.
Proof. solve_decision. Defined.
Record SyncStatus := { Status : SyncStatusCode; Revision : string; Revisions : list string }.
Record ResourceStatus := {
  RGroup : string; RKind : string; RName : string; RStatus : SyncStatusCode; RequiresPruning : bool;
}.

(** The application as the controller has it: the spec, whether it is being
    deleted, and its operation *)
Record application := { Spec : ApplicationSpec; Deleting : bool; Held : app }.

(** ** Attempts at a revision *)

(** Whether the desired revisions have been attempted, the last attempted ones and
    the phase of that attempt *)
Definition alreadyAttemptedSync (a : application) (desiredRevisions : list string) (newRevisionHasChanges : bool)
    : bool * list string * OperationPhase :=
  match AppState (Held a) with
  | None => (false, [], OperationNone)
  | Some st =>
      match SyncResult st with
      | None => (Completed (Phase st), [], Phase st)
      | Some r =>
          if HasMultipleSources (Spec a) then
            if newRevisionHasChanges && negb (bool_decide (ResultRevisions r = desiredRevisions))
            then (false, ResultRevisions r, Phase st)
            else (bool_decide (Sources (Spec a) = ResultSources r), ResultRevisions r, Phase st)
          else
            if newRevisionHasChanges && negb (bool_decide ([ResultRevision r] = desiredRevisions))
            then (false, [ResultRevision r], Phase st)
            else (bool_decide (GetSource (Spec a) = ResultSource r), [ResultRevision r], Phase st)
      end
  end.

(** ** The controller *)

(** [wait.Backoff] of k8s.io/apimachinery: its number of steps is set, and a step
    gives the next delay. *)
Class Backoffs (B : Type) := { set_Steps : Z → B → B; Step : B → B * Z }.

(** [for range steps] over [Step], the last delay kept *)
Fixpoint last_delay `{Backoffs B} (steps : nat) (b : B) (delay : Z) : Z :=
  match steps with
  | O => delay
  | S n => let '(b, d) := Step b in last_delay n b d
  end.

Record config (B : Type) := { selfHealTimeout : Z; selfHealBackoff : option B }.
Arguments selfHealTimeout {_} _.
Arguments selfHealBackoff {_} _.

Definition selfHealRemainingBackoff `{Backoffs B} (c : config B) (now : Z) (a : application)
    (selfHealAttemptsCount : Z) : Z :=
  match AppState (Held a) with
  | None => 0
  | Some st =>
      let delay := match selfHealBackoff c with
                   | None => selfHealTimeout c
                   | Some b => last_delay (Z.to_nat selfHealAttemptsCount) (set_Steps selfHealAttemptsCount b) 0
                   end in
      match FinishedAt st with
      | None => delay
      | Some finished => wrap64 (delay - (now - finished))
      end
  end.

(** [%s] of a slice of strings *)
Definition fmt_strings (l : list string) : string := "[" +:+ Join l " " +:+ "]".

(** The operation before self heal *)
Definition sync_operation (spec : ApplicationSpec) (p : SyncPolicy) (status : SyncStatus) : SyncOperation :=
  {| SyncRevision := Revision status; SyncRevisions := Revisions status;
     SyncPrune := GetPrune (PolicyAutomated p); SyncDryRun := false; SyncSyncOptions := PolicySyncOptions p;
     SyncSource := if HasMultipleSources spec then None else Some (GetSource spec);
     SyncSources := Sources spec; SyncResources := []; SelfHealAttemptsCount := 0 |}.

Definition heal (count : Z) (resources : list ResourceStatus) (s : SyncOperation) : SyncOperation :=
  {| SyncRevision := SyncRevision s; SyncRevisions := SyncRevisions s; SyncPrune := SyncPrune s;
     SyncDryRun := SyncDryRun s; SyncSyncOptions := SyncSyncOptions s; SyncSource := SyncSource s;
     SyncSources := SyncSources s;
     SyncResources := SyncResources s ++
       ((λ r, {| ResGroup := RGroup r; ResKind := RKind r; ResName := RName r |}) <$>
          filter (λ r, RStatus r ≠ SyncStatusSynced) resources);
     SelfHealAttemptsCount := wrap64 (count + 1) |}.

Definition desired_revisions (spec : ApplicationSpec) (status : SyncStatus) : list string :=
  if HasMultipleSources spec then Revisions status else [Revision status].

Definition only_pruning_left (resources : list ResourceStatus) : bool :=
  forallb (λ r, bool_decide (RStatus r = SyncStatusSynced) || RequiresPruning r) resources.
Definition all_need_prune (resources : list ResourceStatus) : bool := forallb RequiresPruning resources.

(** What [autoSync] decides, before it requests the operation *)
Inductive decision :=
  | Skip
  | SyncError (message : string)
  | RefreshLater (remaining : Z)
  | Start (op : Operation).

Definition check_wipe_out (p : SyncPolicy) (resources : list ResourceStatus) (desiredRevisions : list string)
    (op : Operation) : decision :=
  if GetPrune (PolicyAutomated p) && negb (GetAllowEmpty (PolicyAutomated p)) && all_need_prune resources
  then SyncError ("Skipping sync attempt to " +:+ fmt_strings desiredRevisions +:+
                  ": auto-sync will wipe out all resources")
  else Start op.

Section auto_sync.
Context `{Backoffs B} (c : config B).

Definition decide_attempt (now : Z) (a : application) (p : SyncPolicy) (status : SyncStatus)
    (resources : list ResourceStatus) (shouldCompareRevisions : bool) : decision :=
  let desiredRevisions := desired_revisions (Spec a) status in
  let make s := {| OpSync := Some s; OpAutomated := true;
                   OpRetry := default {| Limit := 5; RetryBackoff := None; Refresh := false |} (PolicyRetry p) |} in
  let s := sync_operation (Spec a) p status in
  let '(alreadyAttempted, lastAttemptedRevisions, lastAttemptedPhase) :=
    alreadyAttemptedSync a desiredRevisions shouldCompareRevisions in
  if alreadyAttempted then
    if negb (Successful lastAttemptedPhase) then
      SyncError ("Failed last sync attempt to " +:+ fmt_strings lastAttemptedRevisions +:+ ": " +:+
                 default "" (Message <$> AppState (Held a)))
    else if negb (GetSelfHeal (PolicyAutomated p)) then Skip
    else
      let count := default 0 (SelfHealAttemptsCount <$> (AppState (Held a) ≫= OpSync ∘ StateOperation)) in
      let remaining := selfHealRemainingBackoff c now a count in
      if 0 <? remaining then RefreshLater remaining
      else check_wipe_out p resources desiredRevisions (make (heal count resources s))
  else check_wipe_out p resources desiredRevisions (make s).

Definition decide_auto_sync (now : Z) (a : application) (status : SyncStatus) (resources : list ResourceStatus)
    (shouldCompareRevisions : bool) : decision :=
  match SpecSyncPolicy (Spec a) with
  | None => Skip
  | Some p =>
      if negb (IsAutomatedSyncEnabled p) then Skip
      else if (if AppOperation (Held a) is Some _ then true else false) then Skip
      else if Deleting a then Skip
      else if negb (bool_decide (Status status = SyncStatusOutOfSync)) then Skip
      else if negb (GetPrune (PolicyAutomated p)) && only_pruning_left resources then Skip
      else decide_attempt now a p status resources shouldCompareRevisions
  end.

(** The stored application, the condition to set, and the refresh that is requested *)
Record outcome := { out_stored : app; out_condition : option string; out_refresh : option Z }.

(** How the API server answers [SetAppOperation], conflicts apart; [stored] is the
    application it has. *)
Inductive api := Answers | GetFails (err : string) | UpdateFails (err : string).

Definition autoSync (now : Z) (server : api) (stored : app) (a : application) (status : SyncStatus)
    (resources : list ResourceStatus) (shouldCompareRevisions : bool) : outcome :=
  let keep := Build_outcome stored in
  match decide_auto_sync now a status resources shouldCompareRevisions with
  | Skip => keep None None
  | SyncError m => keep (Some m) None
  | RefreshLater t => keep None (Some t)
  | Start op =>
      match server, SetAppOperation op stored with
      | GetFails err, _ => keep (Some err) None
      | _, (_, Some ErrAnotherOperationInProgress) => keep None None
      | _, (stored', Some OperationUnspecified) =>
          {| out_stored := if server is UpdateFails _ then stored else stored';
             out_condition := Some "Operation unspecified"; out_refresh := None |}
      | UpdateFails err, _ => keep (Some err) None
      | Answers, (stored', None) => {| out_stored := stored'; out_condition := None; out_refresh := None |}
      end
  end.
End auto_sync.

(** ** The gate in [processAppRefreshQueueItem] *)
Section gate.
Context `{Backoffs B} (c : config B) `{CR : Cron} `{HO : Host} `{GL : GlobLib}.

(** [windowed] is what the project's windows see of the application; the reads of
    the clock are numbered from [i]. *)
Definition window_allows (w : SyncWindows) (windowed : Application) (i : nat) : bool :=
  match (CanSync (Matches w windowed) false None i).1 with
  | inr b => b
  | inl _ => false
  end.

Definition auto_sync_pass (w : SyncWindows) (windowed : Application) (i : nat)
    (now : Z) (server : api) (stored : app) (a : application) (status : SyncStatus)
    (resources : list ResourceStatus) (revisionsMayHaveChanges : bool) : outcome :=
  if window_allows w windowed i then
    autoSync c now server stored a status resources
      (revisionsMayHaveChanges || bool_decide (Status status = SyncStatusOutOfSync))
  else {| out_stored := stored; out_condition := None; out_refresh := None |}.
End gate.

(** [automatedSyncEnabled]: a refresh is forced when the policy turns on. *)
Definition automatedSyncEnabled (oldSpec newSpec : ApplicationSpec) : bool :=
  let flags spec :=
    match SpecSyncPolicy spec with
    | Some p => if IsAutomatedSyncEnabled p then (true, GetSelfHeal (PolicyAutomated p)) else (false, false)
    | None => (false, false)
    end in
  let '(oldEnabled, oldSelfHeal) := flags oldSpec in
  let '(newEnabled, newSelfHeal) := flags newSpec in
  if negb oldEnabled && newEnabled then true
  else negb oldSelfHeal && newSelfHeal.
