(* ===== verification/AutoSyncProofs.v ===== *)
(** * Automated sync: theorems

    An automated sync starts only when policy, windows and status allow it, it
    cannot wipe out the application, and a revision that failed is not synced
    again. *)

From S2P Require Import Prelude GoStd GoTime AppTypes Glob Windows Kube SyncCommon AppOperation AppOperationProofs AutoSync.
Local Open Scope string_scope.
Local Open Scope list_scope.
Local Open Scope Z_scope.

(** The result of a sync to the sources and revisions of [status] *)
Definition attempted (spec : ApplicationSpec) (status : SyncStatus) (r : SyncOperationResult) : Prop :=
  if HasMultipleSources spec then ResultRevisions r = Revisions status ∧ ResultSources r = Sources spec
  else ResultRevision r = Revision status ∧ ResultSource r = GetSource spec.

#[export] Instance attempted_dec spec status r : Decision (attempted spec status r).
Proof. unfold attempted. destruct (HasMultipleSources spec); apply _. Defined.

(** [alreadyAttemptedSync], for the revisions that [autoSync] desires *)
Lemma alreadyAttemptedSync_spec a status :
  (alreadyAttemptedSync a (desired_revisions (Spec a) status) true).1.1 =
    match AppState (Held a) with
    | None => false
    | Some st =>
        match SyncResult st with
        | None => Completed (Phase st)
        | Some r => bool_decide (attempted (Spec a) status r)
        end
    end ∧
  (alreadyAttemptedSync a (desired_revisions (Spec a) status) true).2 =
    default OperationNone (Phase <$> AppState (Held a)).
Proof.
  unfold alreadyAttemptedSync, desired_revisions. destruct (AppState (Held a)) as [st|]; [|done].
  destruct (SyncResult st) as [r|]; [|done]. simpl.
  destruct (HasMultipleSources (Spec a)) eqn:Hm.
  - case_bool_decide as Hr; simpl; (split; [|done]).
    + apply bool_decide_ext. unfold attempted. rewrite Hm. naive_solver.
    + symmetry. apply bool_decide_eq_false_2. unfold attempted. rewrite Hm. naive_solver.
  - case_bool_decide as Hr; simpl; (split; [|done]).
    + apply bool_decide_ext. unfold attempted. rewrite Hm. naive_solver.
    + symmetry. apply bool_decide_eq_false_2. unfold attempted. rewrite Hm. intros [Heq _]. by rewrite Heq in Hr.
Qed.

Lemma forallb_exists_not {A} (f : A → bool) l : forallb f l = false → ∃ x, x ∈ l ∧ f x = false.
Proof.
  induction l as [|x l IH]; [done|]. simpl. intros [H|H]%andb_false_iff; [by exists x; split; [left|]|].
  destruct (IH H) as (y & ? & ?). exists y. by split; [right|].
Qed.

Section auto_sync.
Context `{Backoffs B} (c : config B) `{CR : Cron} `{HO : Host} `{GL : GlobLib}.

(** The facts that let an automated sync start *)
Record may_start (now : Z) (a : application) (p : SyncPolicy) (status : SyncStatus)
    (resources : list ResourceStatus) (s : SyncOperation) : Prop := {
  start_enabled : IsAutomatedSyncEnabled p = true;
  start_free : AppOperation (Held a) = None ∧ Deleting a = false;
  start_status : Status status = SyncStatusOutOfSync;
  start_revisions : SyncRevision s = Revision status ∧ SyncRevisions s = Revisions status;
  start_prune : SyncPrune s = GetPrune (PolicyAutomated p);
  start_pending : GetPrune (PolicyAutomated p) = false →
    ∃ r, r ∈ resources ∧ RStatus r ≠ SyncStatusSynced ∧ RequiresPruning r = false;
  start_not_empty : GetPrune (PolicyAutomated p) = true → GetAllowEmpty (PolicyAutomated p) = false →
    ∃ r, r ∈ resources ∧ RequiresPruning r = false;
  start_attempt : ∀ st, AppState (Held a) = Some st →
    (∀ r, SyncResult st = Some r → attempted (Spec a) status r) →
    Completed (Phase st) = true →
    GetSelfHeal (PolicyAutomated p) = true ∧ Phase st = OperationSucceeded ∧
    let count := default 0 (SelfHealAttemptsCount <$> OpSync (StateOperation st)) in
    selfHealRemainingBackoff c now a count <= 0 ∧ SelfHealAttemptsCount s = wrap64 (count + 1);
}.

Lemma check_wipe_out_start p resources desired op op' :
  check_wipe_out p resources desired op = Start op' →
  op' = op ∧ (GetPrune (PolicyAutomated p) = true → GetAllowEmpty (PolicyAutomated p) = false →
    ∃ r, r ∈ resources ∧ RequiresPruning r = false).
Proof.
  unfold check_wipe_out. destruct (_ && _) eqn:E; [done|]. intros [= <-]. split; [done|].
  intros Hp He. rewrite Hp, He in E. simpl in E. by apply forallb_exists_not.
Qed.

Lemma decide_start now a status resources op :
  decide_auto_sync c now a status resources true = Start op →
  ∃ p s, SpecSyncPolicy (Spec a) = Some p ∧ OpSync op = Some s ∧ OpAutomated op = true ∧
    may_start now a p status resources s.
Proof.
  unfold decide_auto_sync. destruct (SpecSyncPolicy (Spec a)) as [p|]; [|done].
  destruct (IsAutomatedSyncEnabled p) eqn:Hen; [|done]. simpl.
  destruct (AppOperation (Held a)) eqn:Hop; [done|]. destruct (Deleting a) eqn:Hdel; [done|].
  destruct (bool_decide_reflect (Status status = SyncStatusOutOfSync)); [|done]. simpl.
  destruct (negb _ && _) eqn:Hpend; [done|]. intros Hd.
  assert (GetPrune (PolicyAutomated p) = false →
    ∃ r, r ∈ resources ∧ RStatus r ≠ SyncStatusSynced ∧ RequiresPruning r = false) as Hpending.
  { intros E. rewrite E in Hpend. simpl in Hpend. apply forallb_exists_not in Hpend as (r & Hr & Hf).
    apply orb_false_iff in Hf as [Hf%bool_decide_eq_false ?]. eauto. }
  unfold decide_attempt in Hd. pose proof (alreadyAttemptedSync_spec a status) as [Hatt Hph].
  destruct (alreadyAttemptedSync _ _ _) as [[att revs] ph]. simpl in Hatt, Hph. subst att ph.
  destruct (match AppState (Held a) with None => false | Some st => _ end) eqn:Hatt.
  - destruct (AppState (Held a)) as [st|] eqn:Hst; [|done]. simpl in Hd.
    destruct (bool_decide_reflect (Phase st = OperationSucceeded)) as [Hsucc|]; cycle 1.
    { unfold Successful in Hd. rewrite bool_decide_eq_false_2 in Hd by done. done. }
    unfold Successful in Hd. rewrite bool_decide_eq_true_2 in Hd by done. simpl in Hd.
    destruct (GetSelfHeal (PolicyAutomated p)) eqn:Hheal; [|done]. simpl in Hd.
    destruct (Z.ltb_spec 0 (selfHealRemainingBackoff c now a
      (default 0 (SelfHealAttemptsCount <$> OpSync (StateOperation st))))); [done|].
    apply check_wipe_out_start in Hd as [-> Hwipe]. eexists p, _. split_and!; [done..|].
    split; try done. intros st' Hst' _ _. rewrite Hst in Hst'. by injection Hst' as <-.
  - apply check_wipe_out_start in Hd as [-> Hwipe]. eexists p, _. split_and!; [done..|].
    split; try done. intros st' Hst' Hres Hcomp. rewrite Hst' in Hatt.
    destruct (SyncResult st') as [r|]; [|congruence]. apply bool_decide_eq_false in Hatt. by destruct Hatt; auto.
Qed.

Lemma decide_out_of_sync now a status resources b op :
  decide_auto_sync c now a status resources b = Start op → Status status = SyncStatusOutOfSync.
Proof.
  unfold decide_auto_sync. intros Hd. destruct (SpecSyncPolicy _); [|done].
  destruct (negb _); [done|]. destruct (AppOperation _); [done|]. destruct (Deleting a); [done|].
  by destruct (bool_decide_reflect (Status status = SyncStatusOutOfSync)).
Qed.

Lemma autoSync_changes now server stored a status resources b :
  out_stored (autoSync c now server stored a status resources b) ≠ stored →
  ∃ op, decide_auto_sync c now a status resources b = Start op ∧ AppOperation stored = None ∧
    out_stored (autoSync c now server stored a status resources b) = {| AppOperation := Some op; AppState := None |}.
Proof.
  unfold autoSync. destruct (decide_auto_sync _ _ _ _ _ _) as [| | |op]; try done.
  unfold SetAppOperation. destruct (AppOperation stored); [by destruct server|].
  destruct (OpSync op), server; try done; eauto.
Qed.

(** A pass that changes the stored application has decided to start, comparing
    revisions. *)
Lemma auto_sync_guarded_started w windowed i now server stored a status resources changes :
  out_stored (auto_sync_pass c w windowed i now server stored a status resources changes) ≠ stored →
  ∃ op, decide_auto_sync c now a status resources true = Start op.
Proof.
  unfold auto_sync_pass. destruct (window_allows _ _ _); [|done].
  intros (op & Hd & _)%autoSync_changes. exists op.
  assert (Status status = SyncStatusOutOfSync) as Hstatus by by eapply decide_out_of_sync.
  by rewrite (bool_decide_eq_true_2 _ Hstatus), orb_true_r in Hd.
Qed.

(** C33. Automated syncs are guarded: a pass that changes the stored application
    has an open window and an enabled policy, an application that is out of sync,
    not being deleted and without an operation, stored or seen; it requests the
    revisions of the comparison, and prunes only if the policy does.  A policy
    without pruning needs something else to do than pruning, one with pruning
    that does not allow an empty application needs a resource to stay, and the
    revisions of the last completed sync are only synced again to heal it, after
    it succeeded and its backoff passed. *)
Theorem auto_sync_guarded w windowed i now server stored a status resources changes :
  let r := auto_sync_pass c w windowed i now server stored a status resources changes in
  out_stored r ≠ stored →
  window_allows w windowed i = true ∧ AppOperation stored = None ∧
  ∃ p op s, SpecSyncPolicy (Spec a) = Some p ∧ OpSync op = Some s ∧ OpAutomated op = true ∧
    out_stored r = {| AppOperation := Some op; AppState := None |} ∧
    may_start now a p status resources s.
Proof.
  cbn zeta. unfold auto_sync_pass. destruct (window_allows _ _ _); [|done].
  intros (op & Hd & Hfree & Hout)%autoSync_changes. rewrite Hout. split_and!; [done..|].
  assert (Status status = SyncStatusOutOfSync) as Hstatus by by eapply decide_out_of_sync.
  rewrite (bool_decide_eq_true_2 _ Hstatus), orb_true_r in Hd.
  destruct (decide_start _ _ _ _ _ Hd) as (p & s & ? & ? & ? & ?). exists p, op, s. by split_and!.
Qed.

(** ** Failed revisions *)
Context (kitchen : Z → string) (spec : ApplicationSpec) (status : SyncStatus).

(** A state whose result, if there is one, is of the desired revisions *)
Definition recorded (st : OperationState) : Prop := ∀ r, SyncResult st = Some r → attempted spec status r.
Definition recorded_app (x : app) : Prop := ∀ st, AppState x = Some st → recorded st.

Lemma keep_empty_same {A} (l : list A) : keep_empty l l = l.
Proof. by destruct l. Qed.

Lemma merge_recorded clear new old : recorded new → recorded old → recorded (merge_state clear new old).
Proof.
  unfold recorded. intros Hn Ho r. simpl. unfold merge_result.
  destruct (SyncResult new) as [n|]; [|apply Ho]. specialize (Hn n eq_refl).
  destruct (SyncResult old) as [o|]; [|by intros [= <-]]. specialize (Ho o eq_refl). intros [= <-].
  unfold attempted in *. destruct (HasMultipleSources spec); [|done]. simpl.
  destruct Hn as [-> ->], Ho as [-> ->]. by rewrite !keep_empty_same.
Qed.

Lemma set_recorded now orig st x :
  recorded st → recorded_app x →
  recorded_app (setOperationState now orig st x).1 ∧ recorded (setOperationState now orig st x).2.
Proof.
  intros Hst Hx. unfold setOperationState.
  set (st1 := if Completed (Phase st) then _ else _). assert (recorded st1) as Hst1.
  { unfold st1. by destruct (Completed (Phase st)). }
  destruct (bool_decide _); [done|]. split; [|done]. intros st' [= <-].
  destruct (AppState x) as [old|] eqn:Hold; [|done]. by apply merge_recorded, Hx.
Qed.

(** What the syncs of the controller report *)
Definition reports (e : env) : Prop :=
  ∀ st p m r, SyncAppState e st = SyncDone p m (Some r) → attempted spec status r.

Definition begun_recorded (b : begun) : Prop :=
  match b with Stopped x _ _ => recorded_app x | Continues x st _ => recorded_app x ∧ recorded st end.

Lemma begin_recorded e op x : recorded_app x → begun_recorded (begin_operation e op x).
Proof.
  intros Hx. unfold begin_operation.
  assert (∀ orig st, recorded st → begun_recorded
    (let '(y, st') := setOperationState (t_set1 e) orig st x in Continues y st' "") ∧ begun_recorded
    (let '(y, st') := setOperationState (t_set1 e) orig st x in Stopped y st' appOperationMaxRequeueInterval) ∧
    begun_recorded (let '(y, st') := setOperationState (t_set1 e) orig st x in Continues y st' "controller sync timeout"))
    as Hset.
  { intros orig st Hst. pose proof (set_recorded (t_set1 e) orig st x Hst Hx).
    destruct (setOperationState _ _ _ _) as [y st']. naive_solver. }
  destruct (AppState x) as [st|] eqn:Hst; [|by apply Hset].
  pose proof (Hx st Hst) as Hrec. destruct (Completed (Phase st)); [by apply Hset|].
  destruct (bool_decide _); [done|]. destruct (_ && _); [by apply Hset|].
  destruct (Phase st); try done. destruct (FinishedAt st); [|done].
  destruct (NextRetryAt _ _ _); [by apply Hset|]. destruct (0 <? _); [done|].
  destruct (refresh_panics st); by apply Hset.
Qed.

Lemma conclude_result e t cause x st : SyncResult (conclude kitchen e t cause x st) = SyncResult st.
Proof.
  unfold conclude. destruct (Phase st); try done.
  - destruct (freshFails e); [done|]. destruct (AppState x); [|done]. by destruct (bool_decide _).
  - destruct (negb t && may_retry st); [|done]. by destruct (NextRetryAt _ _ _).
  - destruct (negb t && may_retry st); [|done]. by destruct (NextRetryAt _ _ _).
Qed.

Lemma process_recorded e op x :
  others_ok e → reports e → recorded_app x →
  recorded_app (res_app (processRequestedAppOperation kitchen e op x)).
Proof.
  intros Ho Hrep Hx. unfold processRequestedAppOperation. pose proof (begin_recorded e op x Hx) as Hb.
  destruct (begin_operation e op x) as [y st after|y st cause]; [done|]. destruct Hb as [Hy Hst].
  assert (recorded_app (others e y)) as Hy'.
  { destruct (Ho y) as [->|Ht]; [done|]. unfold TerminateOperation in Ht.
    destruct (AppOperation y); [|done]. destruct (AppState y) as [sy|] eqn:Hs; [|done]. injection Ht as Ht.
    intros s. rewrite <-Ht. intros [= <-]. by apply (Hy sy). }
  destruct (run_sync e st) as [st1|m] eqn:Hrun.
  - assert (recorded st1) as Hst1.
    { unfold run_sync in Hrun. destruct (projectError e); [by injection Hrun as <-|].
      destruct (SyncAppState e st) as [p m r|] eqn:Hs; [|done]. injection Hrun as <-.
      intros r'. simpl. intros ->. by eapply Hrep. }
    set (st2 := conclude _ _ _ _ _ _).
    assert (recorded st2) as Hst2 by (intros r; unfold st2; rewrite conclude_result; apply Hst1).
    unfold store_final. destruct (bool_decide (Phase st2 = OperationNone)).
    + destruct (set_recorded (t_set2 e) (AppState x) (set_phase OperationError "no phase was set" st2) (others e y) Hst2 Hy')
        as [H' _]. by destruct (setOperationState _ _ _ _).
    + destruct (set_recorded (t_set2 e) (AppState x) st2 (others e y) Hst2 Hy') as [H' _].
      by destruct (setOperationState _ _ _ _).
  - destruct (set_recorded (t_set2 e) (AppState x) (set_phase OperationError m st) (others e y) Hst Hy') as [H' _].
    by destruct (setOperationState _ _ _ _).
Qed.

(** The controller works on operation [op], whose syncs report results of the
    desired revisions, and clients may terminate it. *)
Inductive attempt_step (op : Operation) : app → app → Prop :=
  | attempt_pass e x :
      AppOperation x = Some op → others_ok e → reports e →
      attempt_step op x (res_app (processRequestedAppOperation kitchen e op x))
  | attempt_terminate x y : TerminateOperation x = Some y → attempt_step op x y.

Lemma attempt_recorded op x y : rtc (attempt_step op) x y → recorded_app x → recorded_app y.
Proof.
  induction 1 as [|x y z Hstep _ IH]; [done|]. intros Hx. apply IH.
  destruct Hstep as [e x _ Ho Hr|x y Ht]; [by apply process_recorded|].
  unfold TerminateOperation in Ht. destruct (AppOperation x); [|done]. destruct (AppState x) as [s|] eqn:Hs; [|done].
  injection Ht as <-. intros s' [= <-]. by apply (Hx s).
Qed.

Lemma failed_not_restarted now a status' resources st :
  AppState (Held a) = Some st → Completed (Phase st) = true → Phase st ≠ OperationSucceeded →
  (∀ r, SyncResult st = Some r → attempted (Spec a) status' r) →
  ∀ op, decide_auto_sync c now a status' resources true ≠ Start op.
Proof.
  intros Hst Hc Hns Hres op (p & s & _ & _ & _ & Hs)%decide_start.
  by destruct (start_attempt _ _ _ _ _ _ Hs st Hst Hres Hc) as (_ & ? & _).
Qed.
End auto_sync.

Section passes.
Context `{Backoffs B} (c : config B) `{CR : Cron} `{HO : Host} `{GL : GlobLib} (kitchen : Z → string).

(** A failed revision is not synced again: when an operation whose syncs
    report the revisions of the comparison has ended without success, after any
    passes of the controller, retries and terminations, no later pass of the
    automated sync changes the application as long as its spec and these
    revisions stay. *)
Theorem auto_sync_gives_up op spec status b st :
  rtc (attempt_step kitchen spec status op) {| AppOperation := Some op; AppState := None |} b →
  AppState b = Some st → Phase st = OperationFailed ∨ Phase st = OperationError →
  ∀ w windowed i now server stored deleting resources changes,
    out_stored (auto_sync_pass c w windowed i now server stored
      {| Spec := spec; Deleting := deleting; Held := b |} status resources changes) = stored.
Proof.
  intros Hrun Hst Hph w windowed i now server stored deleting resources changes. apply dec_stable. intros Hne.
  set (a := {| Spec := spec |}) in *.
  destruct (auto_sync_guarded_started c w windowed i now server stored a status resources changes Hne) as [op' Hd].
  refine (failed_not_restarted c now a status resources st Hst _ _ _ op' Hd).
  - by destruct Hph as [-> | ->].
  - by destruct Hph as [-> | ->].
  - by apply (attempt_recorded kitchen spec status op _ _ Hrun).
Qed.

(** New revisions are synced: when the policy is enabled, the window open, the
    application out of sync, not being deleted and without an operation, and the
    last sync had a result for other revisions or sources, the automated sync
    stores an operation for the revisions of the comparison, unless only pruning
    is left to do without permission, or every resource would be pruned. *)
Theorem auto_sync_new_revision w windowed i now stored a status resources changes p st r :
  window_allows w windowed i = true → SpecSyncPolicy (Spec a) = Some p → IsAutomatedSyncEnabled p = true →
  AppOperation (Held a) = None → AppOperation stored = None → Deleting a = false →
  Status status = SyncStatusOutOfSync →
  AppState (Held a) = Some st → SyncResult st = Some r → ¬ attempted (Spec a) status r →
  (GetPrune (PolicyAutomated p) = false → only_pruning_left resources = false) →
  (GetPrune (PolicyAutomated p) = true → GetAllowEmpty (PolicyAutomated p) || negb (all_need_prune resources) = true) →
  let out := auto_sync_pass c w windowed i now Answers stored a status resources changes in
  out_condition out = None ∧ AppState (out_stored out) = None ∧
  (AppOperation (out_stored out) ≫= OpSync) = Some (sync_operation (Spec a) p status).
Proof.
  intros Hw Hp Hen Hop Hfree Hdel Hstatus Hst Hr Hnew Hpend Hwipe. cbn zeta. unfold auto_sync_pass. rewrite Hw.
  rewrite (bool_decide_eq_true_2 _ Hstatus), orb_true_r. unfold autoSync, decide_auto_sync.
  rewrite Hp, Hen, Hop, Hdel, (bool_decide_eq_true_2 _ Hstatus). cbn [negb].
  replace (negb (GetPrune (PolicyAutomated p)) && only_pruning_left resources) with false; cycle 1.
  { destruct (GetPrune _); [done|]. by rewrite Hpend. }
  unfold decide_attempt. pose proof (alreadyAttemptedSync_spec a status) as [Hatt _].
  rewrite Hst, Hr, bool_decide_eq_false_2 in Hatt by done.
  destruct (alreadyAttemptedSync _ _ _) as [[att revs] ph]. simpl in Hatt. subst att.
  unfold check_wipe_out.
  replace (_ && _ && _) with false; cycle 1.
  { destruct (GetPrune _); [|done]. specialize (Hwipe eq_refl). by destruct (GetAllowEmpty _), (all_need_prune _). }
  unfold SetAppOperation. by rewrite Hfree.
Qed.
End passes.

(** ** Concrete runs *)

Module AutoSyncSample.
Import Windows.Sample.
Import OperationSample.

(** Delays double *)
#[export] Instance doubling : Backoffs Z := {| set_Steps _ b := b; Step b := (2 * b, b) |}.
Definition cfg : config Z := {| selfHealTimeout := 5 * Second; selfHealBackoff := Some (2 * Second) |}.

Definition policy : SyncPolicy :=
  {| PolicyAutomated := Some {| Prune := Some true; SelfHeal := Some true; AllowEmpty := None; Enabled := None |};
     PolicySyncOptions := []; PolicyRetry := Some retry |}.
Definition spec : ApplicationSpec :=
  {| Source := Some "git"; Sources := []; SourceHydrator := None; SpecSyncPolicy := Some policy |}.
Definition out_of_sync (revision : string) : SyncStatus :=
  {| Status := SyncStatusOutOfSync; Revision := revision; Revisions := [] |}.
Definition resource (name : string) (code : SyncStatusCode) (prune : bool) : ResourceStatus :=
  {| RGroup := "apps"; RKind := "Deployment"; RName := name; RStatus := code; RequiresPruning := prune |}.
Definition resources : list ResourceStatus :=
  [resource "web" SyncStatusOutOfSync false; resource "db" SyncStatusSynced false; resource "old" SyncStatusOutOfSync true].

Definition result_abc : SyncOperationResult :=
  {| ResultRevision := "abc"; ResultRevisions := []; ResultSource := "git"; ResultSources := [] |}.
Definition reporting (p : OperationPhase) (t : Z) : env := at_time t (SyncDone p "done" (Some result_abc)) id.

Definition windowed : Application := Windows.Sample.app 0.

(** ** A sync that succeeded at 100 s is healed 10 s later. *)
Definition synced : AppOperation.app :=
  Eval vm_compute in res_app (processRequestedAppOperation kitchen (reporting OperationSucceeded (100 * Second)) op requested).
Definition healthy : application := {| Spec := spec; Deleting := false; Held := synced |}.

Lemma auto_sync_guarded_witness :
  let r := auto_sync_pass cfg None windowed 0 (110 * Second) Answers synced healthy (out_of_sync "abc") resources false in
  out_stored r ≠ synced ∧
  window_allows None windowed 0 = true ∧ AppOperation synced = None ∧
  ∃ p op s, SpecSyncPolicy spec = Some p ∧ OpSync op = Some s ∧ OpAutomated op = true ∧
    out_stored r = {| AppOperation := Some op; AppState := None |} ∧
    may_start cfg (110 * Second) healthy p (out_of_sync "abc") resources s.
Proof.
  assert (out_stored (auto_sync_pass cfg None windowed 0 (110 * Second) Answers synced healthy (out_of_sync "abc")
    resources false) ≠ synced) as Hne by (vm_compute; discriminate).
  split; [exact Hne|].
  exact (auto_sync_guarded cfg None windowed 0 (110 * Second) Answers synced healthy (out_of_sync "abc") resources false Hne).
Defined.

(** Healing syncs the resources that are out of sync, and counts. *)
Example healing_operation :
  let r := auto_sync_pass cfg None windowed 0 (110 * Second) Answers synced healthy (out_of_sync "abc") resources false in
  (AppOperation (out_stored r) ≫= OpSync) =
    Some {| SyncRevision := "abc"; SyncRevisions := []; SyncPrune := true; SyncDryRun := false; SyncSyncOptions := [];
            SyncSource := Some "git"; SyncSources := [];
            SyncResources := [{| ResGroup := "apps"; ResKind := "Deployment"; ResName := "web" |};
                              {| ResGroup := "apps"; ResKind := "Deployment"; ResName := "old" |}];
            SelfHealAttemptsCount := 1 |}.
Proof. vm_compute. reflexivity. Qed.

(** When every resource would be pruned, it reports an error instead. *)
Example no_wipe_out :
  let r := auto_sync_pass cfg None windowed 0 (110 * Second) Answers synced healthy (out_of_sync "abc")
             [resource "old" SyncStatusOutOfSync true] false in
  out_stored r = synced ∧
  out_condition r = Some "Skipping sync attempt to [abc]: auto-sync will wipe out all resources".
Proof. vm_compute. done. Qed.

(** ** A sync that failed *)
Lemma reporting_reports p t : reports spec (out_of_sync "abc") (reporting p t).
Proof. intros st p' m r H. injection H as _ _ <-. by split. Defined.

Lemma reporting_others p t : others_ok (reporting p t).
Proof. intros x. by left. Defined.

Definition failed_once : AppOperation.app :=
  Eval vm_compute in res_app (processRequestedAppOperation kitchen (reporting OperationFailed (100 * Second)) op requested).
Definition failed_twice : AppOperation.app :=
  Eval vm_compute in res_app (processRequestedAppOperation kitchen (reporting OperationFailed (110 * Second)) op failed_once).
Definition failed_state : OperationState :=
  Eval vm_compute in default (NewOperationState 0 op) (AppState failed_twice).

Lemma failed_run : rtc (attempt_step kitchen spec (out_of_sync "abc") op) requested failed_twice.
Proof.
  apply (rtc_l _ _ failed_once).
  - change failed_once with (res_app (processRequestedAppOperation kitchen (reporting OperationFailed (100 * Second)) op requested)).
    apply attempt_pass; [reflexivity|apply reporting_others|apply reporting_reports].
  - apply rtc_once.
    change failed_twice with (res_app (processRequestedAppOperation kitchen (reporting OperationFailed (110 * Second)) op failed_once)).
    apply attempt_pass; [reflexivity|apply reporting_others|apply reporting_reports].
Defined.

Lemma auto_sync_gives_up_witness :
  Phase failed_state = OperationFailed ∧
  out_stored (auto_sync_pass cfg None windowed 0 (900 * Second) Answers failed_twice
    {| Spec := spec; Deleting := false; Held := failed_twice |} (out_of_sync "abc") resources true) = failed_twice.
Proof.
  split; [reflexivity|].
  apply (auto_sync_gives_up cfg kitchen op spec (out_of_sync "abc") failed_twice failed_state failed_run eq_refl).
  left. reflexivity.
Defined.

Example failure_is_reported :
  out_condition (auto_sync_pass cfg None windowed 0 (900 * Second) Answers failed_twice
    {| Spec := spec; Deleting := false; Held := failed_twice |} (out_of_sync "abc") resources true)
  = Some "Failed last sync attempt to [abc]: done (retried 1 times).".
Proof. vm_compute. reflexivity. Qed.

(** The next commit is synced. *)
Lemma auto_sync_new_revision_witness :
  let out := auto_sync_pass cfg None windowed 0 (900 * Second) Answers failed_twice
    {| Spec := spec; Deleting := false; Held := failed_twice |} (out_of_sync "def") resources true in
  out_condition out = None ∧ AppState (out_stored out) = None ∧
  (AppOperation (out_stored out) ≫= OpSync) = Some (sync_operation spec policy (out_of_sync "def")).
Proof.
  apply (auto_sync_new_revision cfg None windowed 0 (900 * Second) failed_twice
    {| Spec := spec; Deleting := false; Held := failed_twice |} (out_of_sync "def") resources true policy failed_state result_abc);
    try reflexivity; try discriminate.
  - intros [H _]. discriminate H.
Defined.

(** In the deny window nothing is started. *)
Example window_denies :
  window_allows (Some [deny]) windowed 0 = false ∧
  out_stored (auto_sync_pass cfg (Some [deny]) windowed 0 (900 * Second) Answers failed_twice
    {| Spec := spec; Deleting := false; Held := failed_twice |} (out_of_sync "def") resources true) = failed_twice.
Proof. vm_compute. done. Qed.
End AutoSyncSample.
