(* ===== verification/Session.v ===== *)
(** * Sessions (src/util/session, src/server/session)

    Logins with a password are throttled: failures are counted per user in a
    bounded cache, and a user with too many failures is rejected for a while.
    Tokens are checked against the account or the project they were made for, and
    against the revoked tokens, which the replicas share through Redis.

    The JWT library, bcrypt, the settings and Redis are parameters. *)

From S2P Require Import Prelude GoStd GoTime Project.
Local Open Scope string_scope.
Local Open Scope list_scope.
Local Open Scope Z_scope.

(** ** Limits *)

(** [env.ParseNumFromEnv] (src/util/env/env.go) of the value of a variable *)
Definition ParseNumFromEnv (str : string) (defaultValue minimum maximum : Z) : Z :=
  if String.eqb str "" then defaultValue
  else
    match Atoi str with
    | None => defaultValue
    | Some num =>
        if num <? minimum then defaultValue else if maximum <? num then defaultValue else num
    end.

Definition MaxInt32 : Z := 2 ^ 31 - 1.
Definition maxUsernameLength : nat := 32.
Definition defaultMaxCacheSize : Z := 10000.
Definition defaultMaxLoginFailures : Z := 5.
Definition defaultFailureWindow : Z := 300.
Definition ArgoCDAdminUsername : string := "admin".

Record LoginAttempts := { LastFailed : Z; FailCount : Z }.
Definition no_attempts : LoginAttempts := {| LastFailed := 0; FailCount := 0 |}.
Notation failures_map := (gmap string LoginAttempts).

(** What happens to a login *)
Inductive login_event :=
  | Rejects (username : string)
  | Starts (username : string)
  | Fails (username : string)
  | Succeeds (username : string)
  | Leaves (username : string).
#[export] Instance login_event_eq_dec : EqDecision login_event.
Proof. solve_decision. Defined.

Section limits.
(** The environment of the process *)
Context (Getenv : string → string).

Definition getMaximumCacheSize : Z :=
  ParseNumFromEnv (Getenv "CD_SESSION_MAX_CACHE_SIZE") defaultMaxCacheSize 1 MaxInt32.
Definition getMaxLoginFailures : Z :=
  ParseNumFromEnv (Getenv "CD_SESSION_FAILURE_MAX_FAIL_COUNT") defaultMaxLoginFailures 1 MaxInt32.
(** In seconds *)
Definition getLoginFailureWindow : Z :=
  ParseNumFromEnv (Getenv "CD_SESSION_FAILURE_WINDOW_SECONDS") defaultFailureWindow 0 MaxInt32.

(** The limit of concurrent logins of [init] in src/server/server.go; [None]: there
    is no limiter *)
Definition maxConcurrentLoginRequests : option nat :=
  let count := ParseNumFromEnv (Getenv "CD_MAX_CONCURRENT_LOGIN_REQUESTS_COUNT") 50 0 MaxInt32 in
  let replicasCount := ParseNumFromEnv (Getenv "CD_API_SERVER_REPLICAS") 1 0 MaxInt32 in
  let count := if 0 <? replicasCount then count / replicasCount else count in
  if 0 <? count then Some (Z.to_nat count) else None.

(** ** Failed logins *)

(** Entry [k] is looked at when the clock shows [clock k]. *)
Definition expireOldFailedAttempts (maxAge : Z) (clock : string → Z) (failures : failures_map) : nat * failures_map :=
  let kept := filter (λ kv, ¬ maxAge * Second < clock kv.1 - LastFailed kv.2) failures in
  (size failures - size kept, kept)%nat.

Inductive picked := Picked (key : string) | IntnPanics | KeepsDrawing.

(** A random index into an iteration of random order draws any key; an admin or
    the user itself is drawn again. *)
Fixpoint draw_loop (draws : list string) (username : string) : picked :=
  match draws with
  | [] => KeepsDrawing
  | key :: draws =>
      if String.eqb key ArgoCDAdminUsername || String.eqb key username then draw_loop draws username
      else Picked key
  end.

(** [rand.Intn] panics unless its argument is positive. *)
Definition pickRandomNonAdminLoginFailure (draws : list string) (failures : failures_map) (username : string) : picked :=
  if Z.of_nat (size failures) - 1 <=? 0 then IntnPanics else draw_loop draws username.

(** The cache after a call, that of a call that panics, or no end of the drawing *)
Inductive updated := Stored (f : failures_map) | Panicked (f : failures_map) | Drawing.

(** [draws] are the keys that are drawn, [now] the time that is recorded. *)
Definition updateFailureCount (clock : string → Z) (now : Z) (draws : list string) (username : string) (failed : bool)
    (failures : failures_map) : updated :=
  let failures := if 0 <? getLoginFailureWindow
                  then (expireOldFailedAttempts getLoginFailureWindow clock failures).2 else failures in
  let store failures :=
    let attempt := default no_attempts (failures !! username) in
    if failed then <[username := {| LastFailed := now; FailCount := wrap64 (FailCount attempt + 1) |}]> failures
    else if 0 <? FailCount attempt then delete username failures
    else failures in
  if failed && (getMaximumCacheSize <=? Z.of_nat (size failures)) then
    match pickRandomNonAdminLoginFailure draws failures username with
    | Picked key => Stored (store (delete key failures))
    | IntnPanics => Panicked failures
    | KeepsDrawing => Drawing
    end
  else Stored (store failures).

Definition getFailureCount (username : string) (failures : failures_map) : LoginAttempts :=
  default no_attempts (failures !! username).

(** The code compares seconds in double precision, which is exact for windows
    below 2^22 seconds. *)
Definition exceededFailedLoginAttempts (now : Z) (attempt : LoginAttempts) : bool :=
  (getMaxLoginFailures <=? FailCount attempt) &&
  ((getLoginFailureWindow =? 0) || (now - LastFailed attempt <=? getLoginFailureWindow * Second)).

(** ** Passwords (src/util/password/password.go) *)
Definition verifyPasswordWithHashers (password hashedPassword : string) (hashers : list (string → string → bool))
    : bool * bool :=
  if String.eqb password "" then (false, false)
  else
    match list_find (λ hasher, hasher password hashedPassword = true) hashers with
    | Some (idx, _) => (true, Nat.ltb 0 idx)
    | None => (false, false)
    end.

Record Account := {
  PasswordHash : string; PasswordMtime : option Z; Enabled : bool; Capabilities : list string; TokenIDs : list string;
}.
Definition AccountCapabilityLogin : string := "login".
Definition AccountCapabilityApiKey : string := "apiKey".
Definition HasCapability (a : Account) (capability : string) : bool := bool_decide (capability ∈ Capabilities a).

Inductive account_answer := AccountFound (a : Account) | AccountNotFound | AccountError (err : string).
Inductive login_error :=
  | BlankPassword | UsernameTooLong | InvalidLogin | LookupFailed (err : string) | AccountDisabled | NoLoginCapability.

(** [VerifyUsernamePassword] up to the lookup of the account: [Some] rejects *)
Definition login_check (now : Z) (username password : string) (failures : failures_map) : option login_error :=
  if String.eqb password "" then Some BlankPassword
  else if Nat.ltb maxUsernameLength (String.length username) then Some UsernameTooLong
  else if exceededFailedLoginAttempts now (getFailureCount username failures) then Some InvalidLogin
  else None.

(** The rest: the argument [failed] of [updateFailureCount] if it is called, and
    the error *)
Definition login_finish (bcrypt : string → string → bool) (password : string) (answer : account_answer)
    : option bool * option login_error :=
  match answer with
  | AccountNotFound => (Some true, Some InvalidLogin)
  | AccountError err => (None, Some (LookupFailed err))
  | AccountFound account =>
      if negb (verifyPasswordWithHashers password (PasswordHash account) [bcrypt]).1 then (Some true, Some InvalidLogin)
      else if negb (Enabled account) then (None, Some AccountDisabled)
      else if negb (HasCapability account AccountCapabilityLogin) then (None, Some NoLoginCapability)
      else (Some false, None)
  end.

(** [VerifyUsernamePassword], with nothing in between *)
Definition VerifyUsernamePassword (bcrypt : string → string → bool) (lookup : string → account_answer)
    (start : Z) (clock : string → Z) (now : Z) (draws : list string) (username password : string)
    (failures : failures_map) : updated * option login_error :=
  match login_check start username password failures with
  | Some err => (Stored failures, Some err)
  | None =>
      match login_finish bcrypt password (lookup username) with
      | (Some failed, err) => (updateFailureCount clock now draws username failed failures, err)
      | (None, err) => (Stored failures, err)
      end
  end.

(** ** Concurrent logins

    The check and the update lock the cache separately, so logins interleave
    between them; [NewLoginRateLimiter] (src/server/session/ratelimiter.go) bounds
    how many are in between. *)
Record login_state := { attempts : failures_map; active : list string; time : Z }.

Definition admits (limit : option nat) (s : login_state) : Prop :=
  match limit with Some n => (length (active s) < n)%nat | None => True end.

Inductive login_step (limit : option nat) : login_state → login_event → login_state → Prop :=
  | login_rejects s u pw now err :
      time s <= now → login_check now u pw (attempts s) = Some err →
      login_step limit s (Rejects u) {| attempts := attempts s; active := active s; time := now |}
  | login_starts s u pw now :
      admits limit s → time s <= now → login_check now u pw (attempts s) = None →
      login_step limit s (Starts u) {| attempts := attempts s; active := u :: active s; time := now |}
  | login_fails s u bcrypt pw answer err rest clock now draws f :
      active s ≡ₚ u :: rest → (∀ k, time s <= clock k <= now) →
      login_finish bcrypt pw answer = (Some true, err) →
      updateFailureCount clock now draws u true (attempts s) = Stored f →
      login_step limit s (Fails u) {| attempts := f; active := rest; time := now |}
  | login_panics s u bcrypt pw answer err rest clock now draws f :
      active s ≡ₚ u :: rest → (∀ k, time s <= clock k <= now) →
      login_finish bcrypt pw answer = (Some true, err) →
      updateFailureCount clock now draws u true (attempts s) = Panicked f →
      login_step limit s (Fails u) {| attempts := f; active := rest; time := now |}
  | login_succeeds s u bcrypt pw answer rest clock now draws f :
      active s ≡ₚ u :: rest → (∀ k, time s <= clock k <= now) →
      login_finish bcrypt pw answer = (Some false, None) →
      updateFailureCount clock now draws u false (attempts s) = Stored f →
      login_step limit s (Succeeds u) {| attempts := f; active := rest; time := now |}
  | login_leaves s u bcrypt pw answer err rest now :
      active s ≡ₚ u :: rest → time s <= now →
      login_finish bcrypt pw answer = (None, err) →
      login_step limit s (Leaves u) {| attempts := attempts s; active := rest; time := now |}.

Inductive login_run (limit : option nat) : login_state → list login_event → login_state → Prop :=
  | login_run_nil s : login_run limit s [] s
  | login_run_cons s ev s1 evs s2 :
      login_step limit s ev s1 → login_run limit s1 evs s2 → login_run limit s (ev :: evs) s2.
End limits.

