(* ===== verification/SessionProofs.v ===== *)
(** * Sessions: theorems about logins

    However logins interleave, the password of the administrator can be tried at
    most a bounded number of times in a failure window. *)

From S2P Require Import Prelude GoStd GoTime Project Session.
Local Open Scope string_scope.
Local Open Scope list_scope.
Local Open Scope Z_scope.

Section logins.
Context (Getenv : string → string).
Notation window := (getLoginFailureWindow Getenv).
Notation maxFails := (getMaxLoginFailures Getenv).

(** What the variables allow *)
Lemma ParseNumFromEnv_range str d lo hi :
  lo <= d <= hi → lo <= ParseNumFromEnv str d lo hi <= hi.
Proof.
  intros Hd. unfold ParseNumFromEnv. destruct (String.eqb str ""); [done|]. destruct (Atoi str) as [n|]; [|done].
  destruct (Z.ltb_spec n lo); [done|]. destruct (Z.ltb_spec hi n); [done|lia].
Qed.

Lemma maxFails_pos : 1 <= maxFails.
Proof. apply ParseNumFromEnv_range. by vm_compute. Qed.

Lemma draw_loop_picked draws u key :
  draw_loop draws u = Picked key → key ≠ ArgoCDAdminUsername ∧ key ≠ u.
Proof.
  induction draws as [|d draws IH]; [done|]. simpl.
  destruct (String.eqb_spec d ArgoCDAdminUsername); [done|]. destruct (String.eqb_spec d u); [done|].
  by intros [= <-].
Qed.

Lemma draw_loop_panics draws u : draw_loop draws u ≠ IntnPanics.
Proof. induction draws as [|d draws IH]; [done|]. simpl. by destruct (_ || _). Qed.

(** The cache when a call has removed old entries *)
Definition unexpired (clock : string → Z) (f : failures_map) : failures_map :=
  if 0 <? window then (expireOldFailedAttempts window clock f).2 else f.

Lemma expired_keeps clock f k e :
  f !! k = Some e → clock k - LastFailed e <= window * Second → unexpired clock f !! k = Some e.
Proof.
  intros Hk Hle. unfold unexpired. destruct (0 <? window); [|done]. simpl.
  apply map_lookup_filter_Some. split; [done|]. simpl. lia.
Qed.

Lemma expired_subset clock f k e : unexpired clock f !! k = Some e → f !! k = Some e.
Proof.
  unfold unexpired. destruct (0 <? window); [|done]. simpl. by intros [? _]%map_lookup_filter_Some.
Qed.

(** A call counts failures in what is left after old entries and one victim, who
    is neither the administrator nor the user, have been removed. *)
Lemma update_victim clock now draws u failed f f' :
  updateFailureCount Getenv clock now draws u failed f = Stored f' →
  ∃ left, (∀ k, k = ArgoCDAdminUsername ∨ k = u → left !! k = unexpired clock f !! k) ∧
    f' = (let attempt := default no_attempts (left !! u) in
          if failed then <[u := {| LastFailed := now; FailCount := wrap64 (FailCount attempt + 1) |}]> left
          else if 0 <? FailCount attempt then delete u left else left).
Proof.
  unfold updateFailureCount. fold (unexpired clock f). destruct (failed && _).
  - unfold pickRandomNonAdminLoginFailure. destruct (_ <=? 0); [done|].
    destruct (draw_loop draws u) as [key| |] eqn:Hd; try done. intros [= <-].
    apply draw_loop_picked in Hd as [H1 H2].
    exists (delete key (unexpired clock f)). split; [|done]. intros k Hk. apply lookup_delete_ne. naive_solver.
  - intros [= <-]. by exists (unexpired clock f).
Qed.

Lemma update_panics clock now draws u failed f f' :
  updateFailureCount Getenv clock now draws u failed f = Panicked f' → getMaximumCacheSize Getenv <= 1.
Proof.
  unfold updateFailureCount. fold (unexpired clock f). destruct failed; [|done]. simpl.
  destruct (Z.leb_spec (getMaximumCacheSize Getenv) (Z.of_nat (size (unexpired clock f)))); [|done].
  unfold pickRandomNonAdminLoginFailure. destruct (Z.leb_spec (Z.of_nat (size (unexpired clock f)) - 1) 0); [lia|].
  pose proof (draw_loop_panics draws u). by destruct (draw_loop draws u).
Qed.

(** The entry of the administrator, in the calls of others *)
Lemma update_other clock now draws u failed f f' :
  u ≠ ArgoCDAdminUsername → updateFailureCount Getenv clock now draws u failed f = Stored f' →
  f' !! ArgoCDAdminUsername = unexpired clock f !! ArgoCDAdminUsername.
Proof.
  intros Hu (left & Hleft & ->)%update_victim. rewrite <-Hleft by auto. cbn zeta.
  destruct failed; [by rewrite lookup_insert_ne|]. destruct (0 <? _); [by rewrite lookup_delete_ne|done].
Qed.

(** And in its own failures *)
Lemma update_admin clock now draws f f' :
  updateFailureCount Getenv clock now draws ArgoCDAdminUsername true f = Stored f' →
  f' !! ArgoCDAdminUsername =
    Some {| LastFailed := now;
            FailCount := wrap64 (FailCount (default no_attempts (unexpired clock f !! ArgoCDAdminUsername)) + 1) |}.
Proof. intros (left & Hleft & ->)%update_victim. cbn zeta. rewrite lookup_insert_eq, Hleft by auto. done. Qed.

(** ** Counting *)

Definition admin_fails (evs : list login_event) : nat :=
  length (filter (λ ev, ev = Fails ArgoCDAdminUsername) evs).
Definition admins (l : list string) : nat := length (filter (.= ArgoCDAdminUsername) l).

(** [k] failures since [t0], and room for [rem] more in the counter *)
Definition counted (t0 : Z) (k rem : Z) (s : login_state) : Prop :=
  0 <= FailCount (getFailureCount ArgoCDAdminUsername (attempts s)) <= int_max - rem ∧
  (0 < k → ∃ e, attempts s !! ArgoCDAdminUsername = Some e ∧ t0 <= LastFailed e ∧ k <= FailCount e).

Lemma counted_same t0 k rem s s' :
  attempts s' = attempts s → counted t0 k (rem + 1) s → counted t0 k rem s'.
Proof. unfold counted. intros -> [Hc Hk]. split; [lia|done]. Qed.

(** Removing old entries leaves the count of the administrator, or zero. *)
Lemma expired_count clock f :
  let before := FailCount (getFailureCount ArgoCDAdminUsername f) in
  let after := FailCount (getFailureCount ArgoCDAdminUsername (unexpired clock f)) in
  after = before ∨ after = 0.
Proof.
  unfold getFailureCount. simpl. destruct (unexpired clock f !! _) as [e|] eqn:He; [|by right].
  left. by rewrite (expired_subset _ _ _ _ He).
Qed.

Lemma counted_expired t0 k rem s s' clock :
  attempts s' !! ArgoCDAdminUsername = unexpired clock (attempts s) !! ArgoCDAdminUsername →
  clock ArgoCDAdminUsername <= t0 + window * Second →
  counted t0 k (rem + 1) s → counted t0 k rem s'.
Proof.
  intros Heq Hle [Hc Hk]. split.
  - unfold getFailureCount at 1 2. rewrite Heq. pose proof (expired_count clock (attempts s)) as H.
    unfold getFailureCount in *. simpl in H. lia.
  - intros (e & He & ? & ?)%Hk. exists e. rewrite Heq. split; [|done]. apply expired_keeps; [done|]. lia.
Qed.

Lemma counted_fails t0 k rem s s' clock now draws :
  0 <= k → 0 <= rem → t0 <= now → clock ArgoCDAdminUsername <= t0 + window * Second →
  updateFailureCount Getenv clock now draws ArgoCDAdminUsername true (attempts s) = Stored (attempts s') →
  counted t0 k (rem + 1) s → counted t0 (k + 1) rem s'.
Proof.
  intros Hk0 Hrem Hnow Hle Hup%update_admin [Hc Hk].
  fold (getFailureCount ArgoCDAdminUsername (unexpired clock (attempts s))) in Hup.
  pose proof (expired_count clock (attempts s)) as Hcase. cbn zeta in Hcase.
  set (c := FailCount (getFailureCount _ (unexpired _ _))) in *.
  assert (k <= c) as Hkc.
  { destruct (decide (0 < k)) as [Hpos|]; [|lia]. destruct (Hk Hpos) as (e & He & ? & ?).
    unfold c, getFailureCount. rewrite (expired_keeps clock _ _ e He) by lia. done. }
  rewrite wrap64_id in Hup by (unfold in_int64, int_min, int_max in *; lia).
  split.
  - unfold getFailureCount at 1 2. rewrite Hup. simpl. lia.
  - intros _. eexists. split; [done|]. simpl. lia.
Qed.

Lemma admins_remove l u rest :
  l ≡ₚ u :: rest → admins l = ((if decide (u = ArgoCDAdminUsername) then 1 else 0) + admins rest)%nat.
Proof. intros Hp. unfold admins. rewrite Hp, filter_cons. by destruct (decide _). Qed.

(** Once the failures are used up, no login of the administrator passes the check. *)
Lemma counted_blocks t0 k rem s pw now :
  counted t0 k rem s → 0 < k → maxFails <= k → now <= t0 + window * Second →
  login_check Getenv now ArgoCDAdminUsername pw (attempts s) ≠ None.
Proof.
  intros [_ Hk] Hpos Hmax Hnow. destruct (Hk Hpos) as (e & He & ? & ?). unfold login_check.
  destruct (String.eqb pw ""); [done|]. simpl. unfold getFailureCount. rewrite He. simpl.
  unfold exceededFailedLoginAttempts.
  rewrite (proj2 (Z.leb_le maxFails (FailCount e))) by lia.
  rewrite (proj2 (Z.leb_le (now - LastFailed e) (window * Second))) by lia. by rewrite orb_true_r.
Qed.

(** A step that is not a failure of the administrator *)
Lemma other_step limit t0 k rem s ev s' :
  2 <= getMaximumCacheSize Getenv → login_step Getenv limit s ev s' →
  ev ≠ Fails ArgoCDAdminUsername → ev ≠ Succeeds ArgoCDAdminUsername → time s' <= t0 + window * Second →
  counted t0 k (rem + 1) s →
  counted t0 k rem s' ∧ (0 < k → maxFails <= k → (admins (active s') <= admins (active s))%nat).
Proof.
  intros Hcache Hstep Hnf Hns Htime Hc. destruct Hstep as
    [s u pw now err Hnow Hchk|s u pw now Hadm Hnow Hchk|s u bc pw ans err rest clock now draws f Hact Hclk Hfin Hup
    |s u bc pw ans err rest clock now draws f Hact Hclk Hfin Hup|s u bc pw ans rest clock now draws f Hact Hclk Hfin Hup
    |s u bc pw ans err rest now Hact Hnow Hfin]; simpl in Htime.
  - split; [by eapply counted_same|done].
  - split; [by eapply counted_same|]. intros Hpos Hmax. unfold admins. simpl. rewrite filter_cons.
    destruct (decide (u = ArgoCDAdminUsername)) as [->|]; [|done].
    by destruct (counted_blocks t0 k (rem + 1) s pw now Hc Hpos Hmax Htime).
  - assert (u ≠ ArgoCDAdminUsername) by congruence. split.
    + eapply counted_expired; [by eapply update_other| |done]. specialize (Hclk ArgoCDAdminUsername). lia.
    + intros _ _. simpl. rewrite (admins_remove _ _ _ Hact). lia.
  - apply update_panics in Hup. lia.
  - assert (u ≠ ArgoCDAdminUsername) by congruence. split.
    + eapply counted_expired; [by eapply update_other| |done]. specialize (Hclk ArgoCDAdminUsername). lia.
    + intros _ _. simpl. rewrite (admins_remove _ _ _ Hact). lia.
  - split; [by eapply counted_same|]. intros _ _. simpl. rewrite (admins_remove _ _ _ Hact). lia.
Qed.

Lemma step_time limit s ev s' : login_step Getenv limit s ev s' → time s <= time s'.
Proof.
  destruct 1 as [| |s u bc pw ans err rest clock now draws f Hact Hclk Hfin Hup
    |s u bc pw ans err rest clock now draws f Hact Hclk Hfin Hup|s u bc pw ans rest clock now draws f Hact Hclk Hfin Hup|];
    simpl; try done; specialize (Hclk ""); lia.
Qed.

Lemma run_time limit s evs s' : login_run Getenv limit s evs s' → time s <= time s'.
Proof. induction 1 as [|s ev s1 evs s2 Hstep%step_time Hrun IH]; [done|lia]. Qed.

Lemma step_active n s ev s' :
  login_step Getenv (Some n) s ev s' → (length (active s) <= n)%nat → (length (active s') <= n)%nat.
Proof.
  intros Hstep Hn. destruct Hstep as
    [s u pw now err Hnow Hchk|s u pw now Hadm Hnow Hchk|s u bc pw ans err rest clock now draws f Hact Hclk Hfin Hup
    |s u bc pw ans err rest clock now draws f Hact Hclk Hfin Hup|s u bc pw ans rest clock now draws f Hact Hclk Hfin Hup
    |s u bc pw ans err rest now Hact Hnow Hfin]; simpl.
  1: done.
  1: simpl in Hadm; lia.
  all: apply Permutation_length in Hact; simpl in Hact; lia.
Qed.

(** The failures left, with [k] used up: the tries that remain and those that
    other logins may have in flight, or only the latter *)
Lemma failures_left n t0 s evs s' :
  2 <= getMaximumCacheSize Getenv → login_run Getenv (Some n) s evs s' →
  ∀ k, 0 <= k → counted t0 k (Z.of_nat (length evs)) s → t0 <= time s → time s' <= t0 + window * Second →
  Succeeds ArgoCDAdminUsername ∉ evs → (length (active s) <= n)%nat →
  Z.of_nat (admin_fails evs) <=
    if k <? maxFails then maxFails - k + Z.of_nat n - 1 else Z.of_nat (admins (active s)).
Proof.
  intros Hcache Hrun. pose proof maxFails_pos as Hmax.
  induction Hrun as [s|s ev s1 evs s2 Hstep Hrun IH]; intros k Hk Hc Ht0 Ht1 Hns Hn.
  { unfold admin_fails. simpl. destruct (Z.ltb_spec k maxFails); lia. }
  pose proof (run_time _ _ _ _ Hrun). pose proof (step_time _ _ _ _ Hstep).
  pose proof (step_active _ _ _ _ Hstep Hn) as Hn1.
  apply not_elem_of_cons in Hns as [Hne Hns]. simpl in Hc. rewrite Nat2Z.inj_succ in Hc.
  replace (Z.succ _) with (Z.of_nat (length evs) + 1) in Hc by lia.
  unfold admin_fails. rewrite filter_cons. destruct (decide (ev = Fails ArgoCDAdminUsername)) as [->|Hev].
  - assert (counted t0 (k + 1) (Z.of_nat (length evs)) s1 ∧
      admins (active s) = S (admins (active s1))) as [Hc1 Hact].
    { inversion Hstep as [| |? ? bc pw ans err rest clock now draws f Hact Hclk Hfin Hup
        |? ? bc pw ans err rest clock now draws f Hact Hclk Hfin Hup| |]; subst; simpl in *.
      - split; [|rewrite (admins_remove _ _ _ Hact); done].
        eapply (counted_fails t0 k _ s _ clock now draws); [lia|lia|lia| |done|done].
        specialize (Hclk ArgoCDAdminUsername). lia.
      - apply update_panics in Hup. lia. }
    assert (admins (active s) <= length (active s))%nat by apply length_filter.
    specialize (IH (k + 1) ltac:(lia) Hc1 ltac:(lia) Ht1 Hns Hn1). unfold admin_fails in IH. simpl.
    destruct (Z.ltb_spec k maxFails); destruct (Z.ltb_spec (k + 1) maxFails); lia.
  - destruct (other_step _ t0 k (Z.of_nat (length evs)) s ev s1 Hcache Hstep Hev) as [Hc1 Hmono]; [congruence|lia|done|].
    specialize (IH k Hk Hc1 ltac:(lia) Ht1 Hns Hn1). unfold admin_fails in IH.
    destruct (Z.ltb_spec k maxFails); [done|]. specialize (Hmono ltac:(lia) ltac:(lia)). lia.
Qed.

(** C34. Passwords cannot be tried at will: with [n] concurrent logins admitted, and
    in any interleaving of logins of any users, at most [getMaxLoginFailures] + n - 1
    logins of the administrator fail within a failure window in which none
    succeeds, whatever entries are pushed out of the cache. *)
Theorem brute_force_bounded n s evs s' :
  2 <= getMaximumCacheSize Getenv → (1 <= n)%nat →
  login_run Getenv (Some n) s evs s' → (length (active s) <= n)%nat →
  time s' <= time s + getLoginFailureWindow Getenv * Second →
  Succeeds ArgoCDAdminUsername ∉ evs →
  0 <= FailCount (getFailureCount ArgoCDAdminUsername (attempts s)) <= int_max - Z.of_nat (length evs) →
  Z.of_nat (length (filter (λ ev, ev = Fails ArgoCDAdminUsername) evs)) <=
    getMaxLoginFailures Getenv + Z.of_nat n - 1.
Proof.
  intros Hcache Hn Hrun Hact Htime Hns Hcount. pose proof maxFails_pos as Hmax.
  pose proof (failures_left n (time s) s evs s' Hcache Hrun 0 ltac:(lia) ltac:(done) ltac:(lia) Htime Hns Hact) as H.
  unfold admin_fails in H. rewrite (proj2 (Z.ltb_lt 0 maxFails)) in H by lia. lia.
Qed.
End logins.
