(* ===== verification/SessionTokens.v ===== *)
(** * Tokens of sessions (src/util/session, src/util/jwt, src/server/rbacpolicy)

    Revoked tokens are kept in Redis and in each replica ([state.go]); [Parse] of
    [sessionmanager.go] accepts a token signed by the program itself. *)

From S2P Require Import Prelude GoStd GoTime Project Session.
From Stdlib Require Import Ascii.
Local Open Scope string_scope.
Local Open Scope list_scope.
Local Open Scope Z_scope.

(** ** Revoked tokens *)

Definition revokedTokenPrefix : string := "revoked-token|".

(** The token of a Redis key; other keys are skipped with a warning. *)
Definition token_of_key (key : string) : option string :=
  match Split key "|"%char with [_; id] => Some id | _ => None end.

(** The sets of one replica, the keys in Redis, and the scan that runs in this
    replica: SCAN returns every key that is there from its start to its end, and
    perhaps others. *)
Record userStateStorage := {
  revokedTokens : gset string;
  recentRevokedTokens : gset string;
  redis : gset string;
  scanning : option (gset string);
}.

Definition IsTokenRevoked (s : userStateStorage) (id : string) : bool := bool_decide (id ∈ revokedTokens s).

(** The first part of [RevokeToken], and a message received by
    [watchRevokedTokens] *)
Definition mark_revoked (id : string) (s : userStateStorage) : userStateStorage :=
  {| revokedTokens := {[id]} ∪ revokedTokens s; recentRevokedTokens := {[id]} ∪ recentRevokedTokens s;
     redis := redis s; scanning := scanning s |}.

Definition set_redis (keys : gset string) (scan : option (gset string)) (s : userStateStorage) : userStateStorage :=
  {| revokedTokens := revokedTokens s; recentRevokedTokens := recentRevokedTokens s; redis := keys; scanning := scan |}.

(** The end of [loadRevokedTokens]; [keys] are the keys that were scanned. *)
Definition replace_revoked (keys : gset string) (s : userStateStorage) : userStateStorage :=
  {| revokedTokens := list_to_set (omap token_of_key (elements keys)) ∪ recentRevokedTokens s;
     recentRevokedTokens := ∅; redis := redis s; scanning := None |}.

(** One replica: the calls of [RevokeToken] (its part in memory and the command
    SET, of this or another replica), messages, expiring keys, and its loader,
    which runs one scan at a time *)
Inductive storage_event :=
  | Marks (id : string) | Sets (id : string) | Receives (id : string) | Expires (id : string)
  | ScanStarts | ScanFails | ScanEnds (keys : gset string).

Inductive storage_step : userStateStorage → storage_event → userStateStorage → Prop :=
  | step_marks s id : storage_step s (Marks id) (mark_revoked id s)
  | step_sets s id :
      storage_step s (Sets id) (set_redis ({[revokedTokenPrefix +:+ id]} ∪ redis s) (scanning s) s)
  | step_receives s id : storage_step s (Receives id) (mark_revoked id s)
  | step_expires s id :
      let key := revokedTokenPrefix +:+ id in
      storage_step s (Expires id) (set_redis (redis s ∖ {[key]}) ((.∖ {[key]}) <$> scanning s) s)
  | step_scan_starts s : scanning s = None → storage_step s ScanStarts (set_redis (redis s) (Some (redis s)) s)
  | step_scan_fails s base : scanning s = Some base → storage_step s ScanFails (set_redis (redis s) None s)
  | step_scan_ends s base keys :
      scanning s = Some base → base ⊆ keys → storage_step s (ScanEnds keys) (replace_revoked keys s).

Inductive storage_run : userStateStorage → list storage_event → userStateStorage → Prop :=
  | storage_run_nil s : storage_run s [] s
  | storage_run_cons s ev s1 evs s2 :
      storage_step s ev s1 → storage_run s1 evs s2 → storage_run s (ev :: evs) s2.

(** ** Claims *)

(** [claim_iat] and [claim_exp]: the numbers in [iat] and [exp], if they are there *)
Record Claims := {
  claim_sub : string; claim_user_id : option string; claim_jti : string; claim_iat : option Z; claim_exp : option Z;
}.

Definition GetUserIdentifier (c : Claims) : string :=
  match claim_user_id c with
  | Some user => if String.eqb user "" then claim_sub c else user
  | None => claim_sub c
  end.

Definition GetSubjectAccountAndCapability (subject : string) : string * string :=
  match Split subject ":"%char with
  | name :: c :: _ =>
      (name, if String.eqb c AccountCapabilityLogin then AccountCapabilityLogin else AccountCapabilityApiKey)
  | _ => (subject, AccountCapabilityApiKey)
  end.

Definition autoRegenerateTokenDuration : Z := 5 * 60 * Second.

Inductive parse_error :=
  | InvalidToken (err : string) | NoIssuedAt | ProjectError (err : string) | TokenNotInProject (err : project_error)
  | AccountUnknown (err : string) | AccountIsDisabled | MissingCapability | NoTokenID | TokenRevoked | TokenUnknown
  | PasswordChanged | RenewalFailed (err : string).

(** The libraries and services that [Parse] uses; [ParseWithClaims] verifies the
    signature, with the method and key of the server, and the validity times. *)
Record services := {
  ParseWithClaims : string → string + Claims;
  project_Get : string → string + AppProject;
  GetAccount : string → string + Account;
  (** [uuid] and signing: the text of the new token *)
  create_token : string → Z → string + string;
}.

Definition with_sub (subject : string) (c : Claims) : Claims :=
  {| claim_sub := subject; claim_user_id := claim_user_id c; claim_jti := claim_jti c;
     claim_iat := claim_iat c; claim_exp := claim_exp c |}.

(** A login token that is about to expire is replaced by one as long. *)
Definition renewal (srv : services) (now iat : Z) (subject capability : string) (c : Claims) : string + string :=
  match claim_exp c with
  | None => inr ""
  | Some exp =>
      if (exp * Second - now <? autoRegenerateTokenDuration) && String.eqb capability AccountCapabilityLogin
      then create_token srv (subject +:+ ":" +:+ AccountCapabilityLogin) (exp - iat)
      else inr ""
  end.

(** [Parse]: the claims, and the new token or the empty string *)
Definition Parse (srv : services) (storage : userStateStorage) (now : Z) (tokenString : string)
    : parse_error + (Claims * string) :=
  match ParseWithClaims srv tokenString with
  | inl err => inl (InvalidToken err)
  | inr c =>
      match claim_iat c with
      | None => inl NoIssuedAt
      | Some iat =>
          let id := claim_jti c in
          match GetProjectRoleFromSubject (GetUserIdentifier c) with
          | Some (projName, role) =>
              match project_Get srv projName with
              | inl err => inl (ProjectError err)
              | inr proj =>
                  match GetJWTToken proj role iat id with
                  | inl err => inl (TokenNotInProject err)
                  | inr _ => inr (c, "")
                  end
              end
          | None =>
              let '(subject, capability) := GetSubjectAccountAndCapability (GetUserIdentifier c) in
              match GetAccount srv subject with
              | inl err => inl (AccountUnknown err)
              | inr account =>
                  if negb (Enabled account) then inl AccountIsDisabled
                  else if negb (HasCapability account capability) then inl MissingCapability
                  else if String.eqb id "" then inl NoTokenID
                  else if IsTokenRevoked storage id then inl TokenRevoked
                  else if String.eqb capability AccountCapabilityApiKey && negb (bool_decide (id ∈ TokenIDs account))
                  then inl TokenUnknown
                  else if (match PasswordMtime account with Some m => iat * Second <? m | None => false end)
                  then inl PasswordChanged
                  else
                    match renewal srv now iat subject capability c with
                    | inl err => inl (RenewalFailed err)
                    | inr newToken => inr (with_sub subject c, newToken)
                    end
              end
          end
      end
  end.
