(* ===== verification/SessionTokensProofs.v ===== *)
(** * Tokens of sessions: theorems

    What [Parse] accepts, that revoked tokens stay revoked, and that deleted
    tokens of projects are rejected. *)

From S2P Require Import Prelude GoStd GoTime Project Session SessionTokens.
Local Open Scope string_scope.
Local Open Scope list_scope.
Local Open Scope Z_scope.

(** ** Accepted tokens *)

Lemma find_token_elem l issuedAt id i t :
  find_token l issuedAt id = Some (i, t) → t ∈ l ∧ (id ≠ "" ∧ ID t = id ∨ IssuedAt t = issuedAt).
Proof.
  unfold find_token. intros H.
  destruct (String.eqb_spec id ""); simpl in H.
  - destruct (negb _); [|done]. apply list_find_Some in H as (?%list_elem_of_lookup_2 & -> & _). auto.
  - destruct (list_find (λ token, id = ID token) l) as [[]|] eqn:E.
    + injection H as <- <-. apply list_find_Some in E as (?%list_elem_of_lookup_2 & ? & _). auto.
    + destruct (negb _); [|done]. apply list_find_Some in H as (?%list_elem_of_lookup_2 & -> & _). auto.
Qed.

(** What makes a token acceptable, apart from its signature and validity *)
Definition acceptable (srv : services) (storage : userStateStorage) (c : Claims) (iat : Z) : Prop :=
  match GetProjectRoleFromSubject (GetUserIdentifier c) with
  | Some (projName, role) =>
      ∃ proj t, project_Get srv projName = inr proj ∧ t ∈ status_tokens proj role ∧
        (claim_jti c ≠ "" ∧ ID t = claim_jti c ∨ IssuedAt t = iat)
  | None =>
      let '(subject, capability) := GetSubjectAccountAndCapability (GetUserIdentifier c) in
      ∃ account, GetAccount srv subject = inr account ∧ Enabled account = true ∧
        capability ∈ Capabilities account ∧ claim_jti c ≠ "" ∧ claim_jti c ∉ revokedTokens storage ∧
        (capability = AccountCapabilityApiKey → claim_jti c ∈ TokenIDs account) ∧
        (∀ m, PasswordMtime account = Some m → m <= iat * Second)
  end.

(** Only valid tokens are accepted: an accepted token passes the verification
    of the library, and belongs to a token listed in its project, or to an enabled
    account that has the capability, with an identifier that is not revoked, that
    the account lists if it is an API key, and issued after the last change of the
    password; a new token is made only for a login that has less than five minutes
    left, and has its duration. *)
Theorem Parse_accepts srv storage now tok c' newToken :
  Parse srv storage now tok = inr (c', newToken) →
  ∃ c iat, ParseWithClaims srv tok = inr c ∧ claim_iat c = Some iat ∧ acceptable srv storage c iat ∧
    (newToken ≠ "" → ∃ exp subject, claim_exp c = Some exp ∧ exp * Second - now < 5 * 60 * Second ∧
       GetSubjectAccountAndCapability (GetUserIdentifier c) = (subject, AccountCapabilityLogin) ∧
       create_token srv (subject +:+ ":" +:+ AccountCapabilityLogin) (exp - iat) = inr newToken).
Proof.
  unfold Parse, acceptable. destruct (ParseWithClaims srv tok) as [err|c]; [done|].
  destruct (claim_iat c) as [iat|] eqn:Hiat; [|done]. intros H. exists c, iat. split; [done|]. split; [done|].
  destruct (GetProjectRoleFromSubject _) as [[projName role]|].
  - destruct (project_Get srv projName) as [err|proj] eqn:Hp; [done|]. unfold GetJWTToken in H.
    destruct (find_token _ _ _) as [[i t]|] eqn:Hf; [|done]. injection H as <- <-.
    apply find_token_elem in Hf as [??]. split; [by exists proj, t|done].
  - destruct (GetSubjectAccountAndCapability _) as [subject capability] eqn:Hsub.
    destruct (GetAccount srv subject) as [err|account]; [done|].
    destruct (Enabled account) eqn:Hen; [|done]. destruct (HasCapability account capability) eqn:Hcap; [|done].
    destruct (String.eqb_spec (claim_jti c) ""); [done|]. simpl in H.
    destruct (IsTokenRevoked storage (claim_jti c)) eqn:Hrev; [done|].
    destruct (_ && _) eqn:Hkey; [done|]. destruct (match PasswordMtime account with Some _ => _ | None => _ end) eqn:Hm;
      [done|].
    destruct (renewal _ _ _ _ _ _) as [err|nt] eqn:Hren; [done|]. injection H as <- <-. split.
    + exists account. split_and!; try done.
      * by apply bool_decide_eq_true in Hcap.
      * by apply bool_decide_eq_false in Hrev.
      * intros ->. simpl in Hkey. destruct (bool_decide_reflect (claim_jti c ∈ TokenIDs account)); done.
      * intros m Hpm. rewrite Hpm in Hm. lia.
    + intros Hnt. unfold renewal in Hren. destruct (claim_exp c) as [exp|]; [|congruence].
      destruct (Z.ltb_spec (exp * Second - now) autoRegenerateTokenDuration) as [Hlt|]; [|simpl in Hren; congruence].
      destruct (String.eqb_spec capability AccountCapabilityLogin) as [->|]; [|simpl in Hren; congruence].
      by exists exp, subject.
Qed.

(** ** Revoked tokens *)

(** Between the two parts of a revocation *)
Definition marked (id : string) (s : userStateStorage) : Prop :=
  id ∈ revokedTokens s ∧ (scanning s = None ∨ id ∈ recentRevokedTokens s).

(** When the key is stored *)
Definition stored (id : string) (s : userStateStorage) : Prop :=
  id ∈ revokedTokens s ∧ revokedTokenPrefix +:+ id ∈ redis s ∧
  ∀ base, scanning s = Some base → revokedTokenPrefix +:+ id ∈ base ∨ id ∈ recentRevokedTokens s.

Lemma marked_step id s ev s' : storage_step s ev s' → ev ≠ ScanStarts → marked id s → marked id s'.
Proof.
  unfold marked. destruct 1; simpl; intros Hev [Hr Hs]; try done.
  - set_solver.
  - set_solver.
  - split; [done|]. destruct Hs as [->|?]; auto.
  - auto.
  - destruct Hs as [?|?]; [congruence|]. set_solver.
Qed.

Lemma prefix_inj id id' : revokedTokenPrefix +:+ id = revokedTokenPrefix +:+ id' → id = id'.
Proof. by intros ?%(inj (String.app revokedTokenPrefix)). Qed.

Lemma scanned_token id (keys : gset string) :
  token_of_key (revokedTokenPrefix +:+ id) = Some id → revokedTokenPrefix +:+ id ∈ keys →
  id ∈ (list_to_set (omap token_of_key (elements keys)) : gset string).
Proof.
  intros Hid Hk. apply elem_of_list_to_set, list_elem_of_omap. eexists. split; [|done].
  by apply elem_of_elements.
Qed.

Lemma stored_step id s ev s' :
  token_of_key (revokedTokenPrefix +:+ id) = Some id →
  storage_step s ev s' → ev ≠ Expires id → stored id s → stored id s'.
Proof.
  intros Hid. unfold stored. destruct 1 as [s x|s x|s x|s x|s Hnone|s base Hb|s base keys Hb Hsub];
    simpl; intros Hev (Hr & Hk & Hs).
  - split; [set_solver|]. split; [done|]. intros base Hb. destruct (Hs base Hb); [by left|right; set_solver].
  - split; [done|]. split; [set_solver|done].
  - split; [set_solver|]. split; [done|]. intros base Hb. destruct (Hs base Hb); [by left|right; set_solver].
  - assert (revokedTokenPrefix +:+ id ≠ revokedTokenPrefix +:+ x) by (intros ?%prefix_inj; congruence).
    split; [done|]. split; [set_solver|]. intros base (b & Hb & ->)%fmap_Some.
    destruct (Hs b Hb); [left; set_solver|by right].
  - split_and!; [done|done|]. intros base [= <-]. by left.
  - split_and!; [done|done|]. by intros ? [=].
  - split; [|split; [done|by intros ? [=]]]. apply elem_of_union.
    destruct (Hs base Hb) as [Hin|Hin]; [left|by right]. apply scanned_token; [done|by apply Hsub].
Qed.

Lemma run_app s evs1 evs2 s' :
  storage_run s (evs1 ++ evs2) s' → ∃ s1, storage_run s evs1 s1 ∧ storage_run s1 evs2 s'.
Proof.
  revert s. induction evs1 as [|ev evs1 IH]; intros s; simpl; [by exists s; split; [constructor|]|].
  inversion 1 as [|? ? s1 ? ? Hstep Hrun]; subst. destruct (IH s1 Hrun) as (s2 & ? & ?).
  exists s2. split; [by econstructor|done].
Qed.

Lemma run_marked id s evs s' :
  storage_run s evs s' → ScanStarts ∉ evs → marked id s → marked id s'.
Proof.
  induction 1 as [|s ev s1 evs s2 Hstep Hrun IH]; [done|]. intros [Hne Hns]%not_elem_of_cons Hm.
  apply IH; [done|]. by eapply marked_step.
Qed.

Lemma run_stored id s evs s' :
  token_of_key (revokedTokenPrefix +:+ id) = Some id →
  storage_run s evs s' → Expires id ∉ evs → stored id s → stored id s'.
Proof.
  intros Hid. induction 1 as [|s ev s1 evs s2 Hstep Hrun IH]; [done|]. intros [Hne Hns]%not_elem_of_cons Hm.
  apply IH; [done|]. by eapply stored_step.
Qed.

(** The revocation of a token and of other replicas that hear of it *)
Lemma received_stored id s :
  revokedTokenPrefix +:+ id ∈ redis s → stored id (mark_revoked id s).
Proof. intros Hk. split_and!; simpl; [set_solver|done|]. intros base _. right. set_solver. Qed.

Lemma revoked_rejected srv s now tok c id :
  id ∈ revokedTokens s → ParseWithClaims srv tok = inr c → claim_jti c = id →
  GetProjectRoleFromSubject (GetUserIdentifier c) = None → ∃ err, Parse srv s now tok = inl err.
Proof.
  intros Hid Hc Hjti Hsub. destruct (Parse srv s now tok) as [err|[c' nt]] eqn:H; [by exists err|].
  exfalso. revert H. unfold Parse. rewrite Hc, Hsub. destruct (claim_iat c); [|done].
  destruct (GetSubjectAccountAndCapability _). destruct (GetAccount _ _); [done|].
  destruct (Enabled _); [|done]. destruct (HasCapability _ _); [|done]. simpl.
  destruct (String.eqb _ _); [done|]. unfold IsTokenRevoked. rewrite Hjti, bool_decide_eq_true_2 by done. done.
Qed.

(** C35. Revoked tokens stay revoked: when the key of a revoked token, whose id has
    no bar, is stored before the loader starts its next scan, the token is revoked from
    then on until its key expires, in whatever way revocations, messages and scans
    interleave, and [Parse] rejects it unless it belongs to a role of a project, whose
    tokens are looked up in the project instead; and so it is in a replica that hears of the
    revocation after the key is stored. *)
Theorem revocation_sticks id s evs1 evs2 s' :
  token_of_key (revokedTokenPrefix +:+ id) = Some id → Expires id ∉ evs2 →
  (storage_run s (Marks id :: evs1 ++ Sets id :: evs2) s' ∧ ScanStarts ∉ evs1) ∨
  (storage_run s (Receives id :: evs2) s' ∧ revokedTokenPrefix +:+ id ∈ redis s) →
  IsTokenRevoked s' id = true ∧
  ∀ srv now tok c, ParseWithClaims srv tok = inr c → claim_jti c = id →
    GetProjectRoleFromSubject (GetUserIdentifier c) = None → ∃ err, Parse srv s' now tok = inl err.
Proof.
  intros Hid Hexp Hcase. assert (stored id s') as (Hr & _ & _).
  { destruct Hcase as [[Hrun Hscan]|[Hrun Hkey]].
    - inversion Hrun as [|? ? s1 ? ? Hmark Hrest]; subst. inversion Hmark; subst.
      apply run_app in Hrest as (s2 & Hrun1 & Hrest). inversion Hrest as [|? ? s3 ? ? Hset Hrun2]; subst.
      apply (run_marked id) in Hrun1; [|done|split; simpl; [|right]; set_solver].
      destruct Hrun1 as [Hr Hs]. apply (run_stored id _ _ _ Hid Hrun2 Hexp).
      inversion Hset; subst. split_and!; simpl; [done|set_solver|]. intros base Hb.
      destruct Hs as [Hs|Hs]; [congruence|by right].
    - inversion Hrun as [|? ? s1 ? ? Hrecv Hrest]; subst. inversion Hrecv; subst.
      apply (run_stored id _ _ _ Hid Hrest Hexp). by apply received_stored. }
  split; [by apply bool_decide_eq_true|]. intros srv now tok c. by apply revoked_rejected.
Qed.

(** ** Deleted tokens of projects *)

(** Deleted tokens of a project are rejected: when the tokens of a role have
    different identifiers and times of issue, a token that [RemoveJWTToken] has
    removed is not accepted any more. *)
Theorem deleted_project_token_rejected proj k role t proj' err srv storage now tok c :
  NoDup (RoleName <$> Roles proj) → Roles proj !! k = Some role →
  NoDup (ID <$> status_tokens proj (RoleName role)) → NoDup (IssuedAt <$> status_tokens proj (RoleName role)) →
  t ∈ status_tokens proj (RoleName role) → ID t ≠ "" →
  RemoveJWTToken proj k (IssuedAt t) (ID t) = Some (proj', err) →
  ParseWithClaims srv tok = inr c → claim_jti c = ID t → claim_iat c = Some (IssuedAt t) →
  GetProjectRoleFromSubject (GetUserIdentifier c) = Some (ProjName proj, RoleName role) →
  project_Get srv (ProjName proj) = inr proj' →
  Parse srv storage now tok = inl (TokenNotInProject (ErrTokenNotFound (RoleName role) (IssuedAt t))).
Proof.
  intros Hnd Hk Hids Hiats Ht Hne Hrm Hc Hjti Hiat Hsub Hproj.
  pose proof (RemoveJWTToken_status _ _ _ _ _ _ _ Hnd Hk Hrm) as Hperm.
  destruct (find_token_self _ t Hids Ht Hne) as [i Hi]. rewrite Hi in Hperm. simpl in Hperm.
  unfold Parse. rewrite Hc, Hiat, Hsub, Hproj. unfold GetJWTToken. rewrite Hjti, find_token_none; [done|].
  intros u Hu. rewrite Hperm in Hids, Hiats. simpl in Hids, Hiats.
  apply NoDup_cons in Hids as [Hids _]. apply NoDup_cons in Hiats as [Hiats _].
  split; intros Heq; [apply Hids|apply Hiats]; rewrite <-Heq; by apply list_elem_of_fmap_2.
Qed.
