(* ===== verification/SessionExamples.v ===== *)
(** * Sessions: concrete runs

    Logins and tokens as instances of the theorems, and behaviours at the edges:
    small caches, many replicas, slow revocations, tokens of the same second. *)

From S2P Require Import Prelude GoStd GoTime Project Session SessionProofs SessionTokens SessionTokensProofs.
Local Open Scope string_scope.
Local Open Scope list_scope.
Local Open Scope Z_scope.

Module LoginSample.
(** One failure locks a user out. *)
Definition strict (name : string) : string :=
  if String.eqb name "CD_SESSION_FAILURE_MAX_FAIL_COUNT" then "1" else "".
Definition wrong (_ _ : string) : bool := false.
Definition admin_account : Account :=
  {| PasswordHash := "hash"; PasswordMtime := None; Enabled := true; Capabilities := ["login"]; TokenIDs := [] |}.
Definition answer : account_answer := AccountFound admin_account.

Definition quiet : login_state := {| attempts := ∅; active := []; time := 0 |}.
Definition one : failures_map := {["admin" := {| LastFailed := 3 * Second; FailCount := 1 |}]}.
Definition two : failures_map := {["admin" := {| LastFailed := 4 * Second; FailCount := 2 |}]}.
Definition locked : login_state := {| attempts := two; active := []; time := 5 * Second |}.
Definition events : list login_event := [Starts "admin"; Starts "admin"; Fails "admin"; Fails "admin"; Rejects "admin"].

Lemma two_logins : login_run strict (Some 2%nat) quiet events locked.
Proof.
  eapply login_run_cons.
  { apply (login_starts strict (Some 2%nat) quiet "admin" "a" Second); [simpl; lia|vm_compute; discriminate|reflexivity]. }
  eapply login_run_cons.
  { apply (login_starts strict (Some 2%nat) {| attempts := ∅; active := ["admin"]; time := Second |} "admin" "b" (2 * Second));
      [simpl; lia|vm_compute; discriminate|reflexivity]. }
  eapply login_run_cons.
  { apply (login_fails strict (Some 2%nat) {| attempts := ∅; active := ["admin"; "admin"]; time := 2 * Second |}
      "admin" wrong "a" answer (Some InvalidLogin) ["admin"] (λ _, 2 * Second) (3 * Second) [] one);
      [reflexivity|intros k; vm_compute; split; discriminate|reflexivity|vm_compute; reflexivity]. }
  eapply login_run_cons.
  { apply (login_fails strict (Some 2%nat) {| attempts := one; active := ["admin"]; time := 3 * Second |}
      "admin" wrong "b" answer (Some InvalidLogin) [] (λ _, 3 * Second) (4 * Second) [] two);
      [reflexivity|intros k; vm_compute; split; discriminate|reflexivity|vm_compute; reflexivity]. }
  eapply login_run_cons; [|apply login_run_nil].
  apply (login_rejects strict (Some 2%nat) {| attempts := two; active := []; time := 4 * Second |} "admin" "c" (5 * Second)
    InvalidLogin); [vm_compute; discriminate|vm_compute; reflexivity].
Defined.

(** Both logins in flight fail: the bound 1 + 2 - 1 is reached. *)
Lemma brute_force_bounded_witness :
  login_run strict (Some 2%nat) quiet events locked ∧
  Z.of_nat (length (filter (λ ev, ev = Fails ArgoCDAdminUsername) events)) = 2 ∧
  Z.of_nat (length (filter (λ ev, ev = Fails ArgoCDAdminUsername) events)) <= getMaxLoginFailures strict + Z.of_nat 2 - 1.
Proof.
  split; [apply two_logins|]. split; [reflexivity|].
  apply (brute_force_bounded strict 2 quiet events locked);
    [vm_compute; discriminate|lia|apply two_logins|simpl; lia|vm_compute; discriminate| |vm_compute; split; discriminate].
  unfold events. rewrite !not_elem_of_cons. split_and!; try discriminate. apply not_elem_of_nil.
Defined.
End LoginSample.

(** ** Edges of the throttling *)
Module LoginEdges.
Definition cache_of (n : string) (name : string) : string :=
  if String.eqb name "CD_SESSION_MAX_CACHE_SIZE" then n else "".
Definition failed_once (user : string) : LoginAttempts := {| LastFailed := 0; FailCount := 1 |}.

(** With a cache of one entry the second failure of a user panics and is not
    counted: nobody is ever locked out. *)
Example cache_of_one_never_counts clock now draws user f :
  (∀ k, clock k <= 0) → f = {[user := failed_once user]} →
  updateFailureCount (cache_of "1") clock now draws user true f = Panicked f.
Proof.
  intros Hclock ->. unfold updateFailureCount, expireOldFailedAttempts. simpl.
  assert (filter (λ kv : string * LoginAttempts,
    ¬ getLoginFailureWindow (cache_of "1") * Second < clock kv.1 - LastFailed kv.2)
    ({[user := failed_once user]} : failures_map) = {[user := failed_once user]}) as Hkeep.
  { rewrite map_filter_singleton_True; [done|]. simpl. specialize (Hclock user).
    change (getLoginFailureWindow (cache_of "1") * Second) with (300 * Second). unfold Second. lia. }
  unfold pickRandomNonAdminLoginFailure. rewrite Hkeep, map_size_singleton. reflexivity.
Qed.

(** With a cache of two entries, of the administrator and the user, there is no
    entry to remove, and the search for one does not end. *)
Example cache_of_two_draws_for_ever draws :
  Forall (λ key, key = "admin" ∨ key = "alice") draws →
  pickRandomNonAdminLoginFailure draws
    {["admin" := failed_once "admin"; "alice" := failed_once "alice"]} "alice" = KeepsDrawing.
Proof.
  intros H. unfold pickRandomNonAdminLoginFailure. change (_ <=? 0) with false. simpl.
  induction H as [|d draws [->| ->] _ IH]; [done|simpl; done|simpl; done].
Qed.

(** Fifty logins are shared between the replicas; with more than fifty replicas
    there is no limit. *)
Example many_replicas_no_limit :
  let replicas n name := if String.eqb name "CD_API_SERVER_REPLICAS" then n else "" in
  maxConcurrentLoginRequests (replicas "50") = Some 1%nat ∧ maxConcurrentLoginRequests (replicas "51") = None.
Proof. vm_compute. done. Qed.
End LoginEdges.

(** ** Tokens *)
Module TokenSample.
Definition role (ts : list JWTToken) : ProjectRole :=
  {| RoleName := "ci"; RoleDescription := ""; Policies := []; JWTTokens := ts; Groups := [] |}.
Definition project (ts : list JWTToken) : AppProject :=
  {| ProjName := "team"; Destinations := []; PermitOnlyProjectScopedClusters := false; SourceNamespaces := [];
     SourceRepos := []; ClusterResourceWhitelist := []; ClusterResourceBlacklist := [];
     NamespaceResourceWhitelist := None; NamespaceResourceBlacklist := []; ProjSyncWindows := None;
     DestinationServiceAccounts := [];
     Roles := [role ts]; JWTTokensByRole := {["ci" := ts]} |}.
Definition token (id : string) (iat : Z) : JWTToken := {| IssuedAt := iat; ExpiresAt := 0; ID := id |}.

Definition account : Account :=
  {| PasswordHash := "hash"; PasswordMtime := Some (90 * Second); Enabled := true; Capabilities := ["login"; "apiKey"];
     TokenIDs := ["key"] |}.
Definition claims (sub jti : string) (iat : Z) (exp : option Z) : Claims :=
  {| claim_sub := sub; claim_user_id := None; claim_jti := jti; claim_iat := Some iat; claim_exp := exp |}.

(** Tokens are written as their claims. *)
Definition verify (tok : string) : string + Claims :=
  if String.eqb tok "login" then inr (claims "alice:login" "l1" 100 (Some 1000))
  else if String.eqb tok "ci-a" then inr (claims "proj:team:ci" "a" 7 None)
  else inl "signature is invalid".
Definition srv (proj : AppProject) : services :=
  {| ParseWithClaims := verify;
     project_Get name := if String.eqb name (ProjName proj) then inr proj else inl "not found";
     GetAccount name := if String.eqb name "alice" then inr account else inl "not found";
     create_token sub seconds := inr (sub +:+ "/" +:+ pretty seconds) |}.
Definition fresh : userStateStorage :=
  {| revokedTokens := ∅; recentRevokedTokens := ∅; redis := ∅; scanning := None |}.

(** A login that has four minutes left is renewed. *)
Lemma Parse_accepts_witness :
  let p := srv (project []) in
  Parse p fresh (760 * Second) "login" = inr (with_sub "alice" (claims "alice:login" "l1" 100 (Some 1000)), "alice:login/900") ∧
  ∃ c iat, ParseWithClaims p "login" = inr c ∧ claim_iat c = Some iat ∧ acceptable p fresh c iat ∧
    ("alice:login/900" ≠ "" → ∃ exp subject, claim_exp c = Some exp ∧ exp * Second - 760 * Second < 5 * 60 * Second ∧
       GetSubjectAccountAndCapability (GetUserIdentifier c) = (subject, AccountCapabilityLogin) ∧
       create_token p (subject +:+ ":" +:+ AccountCapabilityLogin) (exp - iat) = inr "alice:login/900").
Proof.
  intros p. assert (Parse p fresh (760 * Second) "login" =
    inr (with_sub "alice" (claims "alice:login" "l1" 100 (Some 1000)), "alice:login/900")) as H by (vm_compute; reflexivity).
  split; [exact H|].
  exact (Parse_accepts p fresh (760 * Second) "login" (with_sub "alice" (claims "alice:login" "l1" 100 (Some 1000)))
    "alice:login/900" H).
Defined.

(** ** Revocation *)
Definition revoked : userStateStorage :=
  {| revokedTokens := {["l1"]}; recentRevokedTokens := ∅; redis := {["revoked-token|l1"]}; scanning := None |}.

Lemma revocation_run : storage_run fresh (Marks "l1" :: [] ++ Sets "l1" :: [ScanStarts; ScanEnds {["revoked-token|l1"]}]) revoked.
Proof.
  eapply storage_run_cons; [apply step_marks|]. simpl. eapply storage_run_cons; [apply step_sets|].
  eapply storage_run_cons; [apply step_scan_starts; reflexivity|].
  eapply storage_run_cons; [eapply (step_scan_ends _ _ {["revoked-token|l1"]}); [reflexivity|set_solver]|].
  match goal with |- storage_run ?a [] ?b => replace a with b by (vm_compute; reflexivity) end.
  apply storage_run_nil.
Defined.

Lemma revocation_sticks_witness :
  IsTokenRevoked revoked "l1" = true ∧
  ∃ err, Parse (srv (project [])) revoked (200 * Second) "login" = inl err.
Proof.
  destruct (revocation_sticks "l1" fresh [] [ScanStarts; ScanEnds {["revoked-token|l1"]}] revoked) as [H1 H2].
  - reflexivity.
  - rewrite !not_elem_of_cons. split_and!; try discriminate. apply not_elem_of_nil.
  - left. split; [apply revocation_run|apply not_elem_of_nil].
  - split; [exact H1|].
    exact (H2 (srv (project [])) (200 * Second) "login" (claims "alice:login" "l1" 100 (Some 1000)) eq_refl eq_refl eq_refl).
Defined.

(** ** Deletion *)
Definition tokens : list JWTToken := [token "a" 7; token "b" 8].
Definition deleted : AppProject := project [token "b" 8].

Lemma deleted_project_token_rejected_witness :
  RemoveJWTToken (project tokens) 0 7 "a" = Some (deleted, None) ∧
  Parse (srv deleted) fresh 0 "ci-a" = inl (TokenNotInProject (ErrTokenNotFound "ci" 7)).
Proof.
  assert (RemoveJWTToken (project tokens) 0 7 "a" = Some (deleted, None)) as Hrm by (vm_compute; reflexivity).
  split; [exact Hrm|].
  apply (deleted_project_token_rejected (project tokens) 0 (role tokens) (token "a" 7) deleted None (srv deleted) fresh 0
    "ci-a" (claims "proj:team:ci" "a" 7 None)).
  1: apply NoDup_singleton.
  2-3: change (status_tokens _ _) with tokens; apply (bool_decide_unpack _); vm_compute; exact I.
  2: change (status_tokens _ _) with tokens; left.
  2: discriminate.
  2: exact Hrm.
  all: reflexivity.
Defined.
End TokenSample.

(** ** Edges of tokens *)
Module TokenEdges.
Import TokenSample.

(** A deleted token is still accepted while its role has another token that was
    issued in the same second. *)
Example deleted_token_of_the_same_second :
  RemoveJWTToken (project [token "a" 7; token "b" 7]) 0 7 "a" = Some (project [token "b" 7], None) ∧
  Parse (srv (project [token "b" 7])) fresh 0 "ci-a" = inr (claims "proj:team:ci" "a" 7 None, "").
Proof. vm_compute. done. Qed.

(** A revocation whose key is stored late is lost for a while: a scan that ends
    forgets the mark, and the next one starts before the key is there. *)
Definition lost : userStateStorage :=
  {| revokedTokens := ∅; recentRevokedTokens := ∅; redis := {["revoked-token|l1"]}; scanning := None |}.
Example slow_revocation_is_lost :
  storage_run fresh [ScanStarts; Marks "l1"; ScanEnds ∅; ScanStarts; Sets "l1"; ScanEnds ∅] lost ∧
  IsTokenRevoked lost "l1" = false.
Proof.
  split; [|vm_compute; done].
  eapply storage_run_cons; [apply step_scan_starts; reflexivity|].
  eapply storage_run_cons; [apply step_marks|].
  eapply storage_run_cons; [eapply (step_scan_ends _ _ ∅); [reflexivity|set_solver]|].
  eapply storage_run_cons; [apply step_scan_starts; reflexivity|].
  eapply storage_run_cons; [apply step_sets|].
  eapply storage_run_cons; [eapply (step_scan_ends _ _ ∅); [reflexivity|set_solver]|].
  match goal with |- storage_run ?a [] ?b => replace a with b by (vm_compute; reflexivity) end.
  apply storage_run_nil.
Qed.

(** An identifier with a bar is never loaded from Redis. *)
Example token_with_bar_is_forgotten :
  token_of_key (revokedTokenPrefix +:+ "a|b") = None ∧
  IsTokenRevoked (replace_revoked {[revokedTokenPrefix +:+ "a|b"]} fresh) "a|b" = false.
Proof. vm_compute. done. Qed.
End TokenEdges.
