(* ===== verification/Rbac.v ===== *)
(** * Role-based access control (src/util/rbac, src/server/rbacpolicy, src/util/jwt)

    Policies are texts: a built-in one, one of the administrator, and one of each project.
    The enforcer loads them, line by line, into the casbin library and keeps the loaded
    forms in a cache, each with its own copy of the model; a request asks it as the default
    role, as the user, as the groups of the user, and as nobody.  The library is the class
    [Casbin]; the model it evaluates is written in src/assets/model.conf. *)

From S2P Require Import Prelude GoStd GoMatch GoTime AppTypes Glob Windows Project ProjectRules.
From Stdlib Require Import Ascii.
Local Open Scope string_scope.
Local Open Scope list_scope.

(** ** Reading a line of a policy

    [encoding/csv] on one line, with [TrimLeadingSpace] and without lazy quotes; [None] is an
    error. *)

Definition quote_char : ascii := byte 34.
Definition comma : ascii := ",".
Definition newline : ascii := byte 10.

(** What is before the first [c], and after it if there is one *)
Fixpoint cut_char (c : ascii) (s : string) : string * option string :=
  match s with
  | "" => ("", None)
  | String d r => if Ascii.eqb d c then ("", Some r) else let '(a, b) := cut_char c r in (String d a, b)
  end.

(** A field after its opening quote, and the rest of the line after a comma, if any *)
Fixpoint quoted_field (s : string) : option (string * option string) :=
  match s with
  | "" => None
  | String c r =>
      if Ascii.eqb c quote_char then
        match r with
        | "" => Some ("", None)
        | String d r' =>
            if Ascii.eqb d quote_char then '(a, b) ← quoted_field r'; Some (String quote_char a, b)
            else if Ascii.eqb d comma then Some ("", Some r') else None
        end
      else '(a, b) ← quoted_field r; Some (String c a, b)
  end.

(** The first field of a line without leading spaces *)
Definition first_field (line : string) : option (string * option string) :=
  match line with
  | String c r =>
      if Ascii.eqb c quote_char then quoted_field r
      else let '(field, rest) := cut_char comma line in if has_char quote_char field then None else Some (field, rest)
  | "" => Some ("", None)
  end.

Fixpoint read_fields (fuel : nat) (line : string) : option (list string) :=
  match fuel with
  | 0 => None
  | S n =>
      '(field, rest) ← first_field (trim_left space_encodings line);
      match rest with
      | None => Some [field]
      | Some rest => cons field <$> read_fields n rest
      end
  end.

(** Each field is followed by a comma, so the length of the line is enough fuel. *)
Definition csv_Read (line : string) : option (list string) := read_fields (S (String.length line)) line.

(** ** Loading policies *)

(** The rules of the sections [p] and [g] of a casbin model *)
Record policies := { p_rules : list (list string); g_rules : list (list string) }.
Definition no_policies : policies := {| p_rules := []; g_rules := [] |}.

(** A rule by its tokens.  The sections [r], [e] and [m] of the model take one too, and have
    no rules. *)
Definition load_rule (tokens : list string) (m : policies) : option policies :=
  match tokens with
  | [] => None
  | key :: rest =>
      if String.eqb key "" || (String.eqb key "g" && negb (Nat.eqb (length tokens) 3)) ||
         (String.eqb key "p" && negb (Nat.eqb (length tokens) 6)) then None
      else if String.eqb key "p" then Some {| p_rules := p_rules m ++ [rest]; g_rules := g_rules m |}
      else if String.eqb key "g" then Some {| p_rules := p_rules m; g_rules := g_rules m ++ [rest] |}
      else if existsb (String.eqb key) ["r"; "e"; "m"] then Some m else None
  end.

Definition loadPolicyLine (line : string) (m : policies) : option policies :=
  if String.eqb line "" || HasPrefix line "#" then Some m
  else tokens ← csv_Read line; load_rule tokens m.

Fixpoint load_lines (lines : list string) (m : policies) : option policies :=
  match lines with
  | [] => Some m
  | line :: rest => m ← loadPolicyLine (TrimSpace line) m; load_lines rest m
  end.

Definition load_text (policy : string) (m : policies) : option policies := load_lines (Split policy newline) m.

Record cdAdapter := { builtinPolicy : string; userDefinedPolicy : string; runtimePolicy : string }.

Definition LoadPolicy (a : cdAdapter) : option policies :=
  m ← load_text (builtinPolicy a) no_policies; m ← load_text (userDefinedPolicy a) m; load_text (runtimePolicy a) m.

(** *** The policy of a config map *)

Definition ConfigMapPolicyCSVKey : string := "policy.csv".
Definition ConfigMapPolicyDefaultKey : string := "policy.default".
Definition ConfigMapScopesKey : string := "scopes".
Definition ConfigMapMatchModeKey : string := "policy.matchMode".
Definition GlobMatchMode : string := "glob".
Definition RegexMatchMode : string := "regex".

Definition is_overlay (key : string) : bool :=
  HasPrefix key "policy." && HasSuffix key ".csv" && negb (String.eqb key ConfigMapPolicyCSVKey).

Definition PolicyCSV (data : gmap string string) : string :=
  foldl (λ csv key, if is_overlay key then csv +:+ bytes [10] +:+ default "" (data !! key) else csv)
    (default "" (data !! ConfigMapPolicyCSVKey)) (sort_Strings (map_to_list data).*1).

(** ** Claims (src/util/jwt/jwt.go) *)

Inductive jvalue := JText (s : string) | JArray (l : list jvalue) | JTexts (l : list string) | JMap (m : list (string * jvalue)) | JElse.
Notation claim_map := (gmap string jvalue).
(** [None]: claims that cannot be converted by [MapClaims] *)
Notation jwt_claims := (option claim_map).

Definition StringField (c : claim_map) (fieldName : string) : string :=
  match c !! fieldName with Some (JText s) => s | _ => "" end.

Definition GetScopeValues (c : claim_map) (scopes : list string) : list string :=
  scope ← scopes;
  match c !! scope with
  | Some (JArray l) => omap (λ v, match v with JText s => Some s | _ => None end) l
  | Some (JTexts l) => l
  | Some (JText s) => [s]
  | _ => []
  end.

Definition GetUserIdentifier (c : claim_map) : string :=
  let fallback := StringField c "sub" in
  match c !! "federated_claims" with
  | Some (JMap m) =>
      match snd <$> List.find (λ kv, String.eqb kv.1 "user_id") m with
      | Some (JText userId) => if String.eqb userId "" then fallback else userId
      | _ => fallback
      end
  | _ => fallback
  end.

(** ** Requests and the casbin library *)

Inductive rval := VText (s : string) | VClaims (c : jwt_claims) | VOther.

Inductive match_mode := MatchGlob | MatchRegex.

Record casbin_enforcer := { rules : policies; mode : match_mode; checking : bool }.

(** The link of roles: through at most [n] grouping rules *)
Fixpoint reaches (n : nat) (g : list (list string)) (a b : string) : bool :=
  if String.eqb a b then true
  else
    match n with
    | 0 => false
    | S n => existsb (λ rule, match rule with [x; y] => if String.eqb x a then reaches n g y b else false | _ => false end) g
    end.

Class Casbin : Type := {
  (** An enforcer can be made of these policies. *)
  accepts : policies → bool;
  casbin_Enforce : casbin_enforcer → list rval → option bool;
  GetGroupingPolicy : casbin_enforcer → option (list (list string));
  (** [util.RegexMatchFunc]; [None] for a pattern that does not compile *)
  RegexMatchFunc : string → string → option bool;
  max_hierarchy : nat;
}.

Section enforcement.
Context {GL : GlobLib} {CB : Casbin}.

(** *** The model (src/assets/model.conf) *)

Definition globMatchFunc (val pattern : string) : option bool := Some (glob_Match pattern val "").

Definition globOrRegexMatch (mode : match_mode) : string → string → option bool :=
  match mode with MatchGlob => globMatchFunc | MatchRegex => RegexMatchFunc end.

Definition matched (mode : match_mode) (val pattern : string) : bool := default false (globOrRegexMatch mode val pattern).

(** The matcher, and the effect of a rule that matches *)
Definition rule_matches (e : casbin_enforcer) (sub res act obj : string) (rule : list string) : bool :=
  match rule with
  | [psub; pres; pact; pobj; _] =>
      reaches max_hierarchy (g_rules (rules e)) sub psub &&
      matched (mode e) res pres && matched (mode e) act pact && matched (mode e) obj pobj
  | _ => false
  end.
Definition rule_effect (rule : list string) : string := default "" (last rule).

Definition some_rule (e : casbin_enforcer) (sub res act obj eft : string) : bool :=
  existsb (λ rule, rule_matches e sub res act obj rule && String.eqb (rule_effect rule) eft) (p_rules (rules e)).

Definition model_Enforce (e : casbin_enforcer) (sub res act obj : string) : bool :=
  some_rule e sub res act obj "allow" && negb (some_rule e sub res act obj "deny").

(** All patterns can be compared with the request. *)
Definition patterns_compile (e : casbin_enforcer) (res act obj : string) : Prop :=
  ∀ psub pres pact pobj eft, [psub; pres; pact; pobj; eft] ∈ p_rules (rules e) →
    is_Some (globOrRegexMatch (mode e) res pres) ∧ is_Some (globOrRegexMatch (mode e) act pact) ∧
    is_Some (globOrRegexMatch (mode e) obj pobj).

(** What casbin documents *)
Class CasbinLaws : Prop := {
  Enforce_disabled e vals : checking e = false → casbin_Enforce e vals = Some true;
  Enforce_model e sub res act obj : checking e = true → patterns_compile e res act obj →
    casbin_Enforce e [VText sub; VText res; VText act; VText obj] = Some (model_Enforce e sub res act obj);
  GetGroupingPolicy_rules e : GetGroupingPolicy e = Some (g_rules (rules e));
}.

(** ** The enforcer

    [scopes] is a field of the [RBACPolicyEnforcer] that the API server installs. *)

Record Enforcer := {
  enforcerCache : gmap string (casbin_enforcer * string);
  adapter : cdAdapter;
  enabled : bool;
  defaultRole : string;
  matchMode : string;
  scopes : option (list string);
}.

Definition NewEnforcer : Enforcer :=
  {| enforcerCache := ∅; adapter := {| builtinPolicy := ""; userDefinedPolicy := ""; runtimePolicy := "" |};
     enabled := true; defaultRole := ""; matchMode := ""; scopes := None |}.

Definition set_cache (c : gmap string (casbin_enforcer * string)) (s : Enforcer) : Enforcer :=
  {| enforcerCache := c; adapter := adapter s; enabled := enabled s; defaultRole := defaultRole s; matchMode := matchMode s;
     scopes := scopes s |}.
Definition set_adapter (a : cdAdapter) (s : Enforcer) : Enforcer :=
  {| enforcerCache := enforcerCache s; adapter := a; enabled := enabled s; defaultRole := defaultRole s;
     matchMode := matchMode s; scopes := scopes s |}.
Definition set_enabled (b : bool) (s : Enforcer) : Enforcer :=
  {| enforcerCache := enforcerCache s; adapter := adapter s; enabled := b; defaultRole := defaultRole s;
     matchMode := matchMode s; scopes := scopes s |}.
Definition set_role (r : string) (s : Enforcer) : Enforcer :=
  {| enforcerCache := enforcerCache s; adapter := adapter s; enabled := enabled s; defaultRole := r;
     matchMode := matchMode s; scopes := scopes s |}.
Definition set_mode (m : string) (s : Enforcer) : Enforcer :=
  {| enforcerCache := enforcerCache s; adapter := adapter s; enabled := enabled s; defaultRole := defaultRole s;
     matchMode := m; scopes := scopes s |}.
Definition SetScopes (l : option (list string)) (s : Enforcer) : Enforcer :=
  {| enforcerCache := enforcerCache s; adapter := adapter s; enabled := enabled s; defaultRole := defaultRole s;
     matchMode := matchMode s; scopes := l |}.

(** *** Loaded enforcers and their cache *)

Definition newEnforcerSafe (mode : match_mode) (a : cdAdapter) : option casbin_enforcer :=
  m ← LoadPolicy a; if accepts m then Some {| rules := m; mode := mode; checking := true |} else None.

Definition with_runtime (a : cdAdapter) (policy : string) : cdAdapter :=
  {| builtinPolicy := builtinPolicy a; userDefinedPolicy := userDefinedPolicy a; runtimePolicy := policy |}.

(** The enforcer for a policy, without the cache: a policy that cannot be loaded counts as
    none. *)
Definition fresh (s : Enforcer) (policy : string) : option casbin_enforcer :=
  let mode := if String.eqb (matchMode s) RegexMatchMode then MatchRegex else MatchGlob in
  let made :=
    if String.eqb policy "" then newEnforcerSafe mode (adapter s)
    else match newEnforcerSafe mode (with_runtime (adapter s) policy) with
         | Some e => Some e
         | None => newEnforcerSafe mode (adapter s)
         end in
  (λ e, {| rules := rules e; mode := Rbac.mode e; checking := enabled s |}) <$> made.

Definition tryGetCasbinEnforcer (project policy : string) : ST Enforcer (option casbin_enforcer) := λ s,
  let cached := match enforcerCache s !! project with
                | Some (e, p) => if String.eqb p policy then Some e else None
                | None => None
                end in
  match cached with
  | Some e => (Some e, s)
  | None =>
      match fresh s policy with
      | Some e => (Some e, set_cache (<[project := (e, policy)]> (enforcerCache s)) s)
      | None => (None, s)
      end
  end.

(** Computations that may panic: [None] *)
Definition M (A : Type) : Type := ST Enforcer (option A).
Definition ret {A} (a : A) : M A := λ s, (Some a, s).
Definition panic {A} : M A := λ s, (None, s).
Definition bind {A B} (m : M A) (f : A → M B) : M B := λ s,
  match m s with (Some a, s) => f a s | (None, s) => (None, s) end.
Local Notation "x <- m ;; k" := (bind m (λ x, k)) (at level 100, m at next level, right associativity).

Definition getCasbinEnforcer (project policy : string) : M casbin_enforcer := tryGetCasbinEnforcer project policy.

Definition invalidateCache (action : Enforcer → Enforcer) : ST Enforcer unit := st_modify (λ s, set_cache ∅ (action s)).

Definition EnableEnforce (b : bool) : ST Enforcer unit := invalidateCache (set_enabled b).
Definition SetMatchMode (m : string) : ST Enforcer unit :=
  invalidateCache (set_mode (if String.eqb m RegexMatchMode then RegexMatchMode else GlobMatchMode)).
Definition SetDefaultRole (roleName : string) : ST Enforcer unit := st_modify (set_role roleName).

(** The result is whether there is no error. *)
Definition Enforcer_LoadPolicy : ST Enforcer bool := e ← tryGetCasbinEnforcer "" ""; mret (bool_decide (is_Some e)).

Definition SetBuiltinPolicy (policy : string) : ST Enforcer bool :=
  invalidateCache (λ s, set_adapter {| builtinPolicy := policy; userDefinedPolicy := userDefinedPolicy (adapter s);
                                       runtimePolicy := runtimePolicy (adapter s) |} s) ;;
  Enforcer_LoadPolicy.

Definition SetUserPolicy (policy : string) : ST Enforcer bool :=
  invalidateCache (λ s, set_adapter {| builtinPolicy := builtinPolicy (adapter s); userDefinedPolicy := policy;
                                       runtimePolicy := runtimePolicy (adapter s) |} s) ;;
  Enforcer_LoadPolicy.

(** The callback of the API server ([rbacPolicyLoader]); [unmarshal] reads a list of texts. *)
Definition on_updated (unmarshal : string → option (list string)) (cm : gmap string string) : ST Enforcer bool :=
  match default "" (cm !! ConfigMapScopesKey) with
  | "" => st_modify (SetScopes None) ;; mret true
  | text => match unmarshal text with
            | Some l => st_modify (SetScopes (Some l)) ;; mret true
            | None => mret false
            end
  end.

Definition syncUpdate (unmarshal : string → option (list string)) (cm : gmap string string) : ST Enforcer bool :=
  SetDefaultRole (default "" (cm !! ConfigMapPolicyDefaultKey)) ;;
  SetMatchMode (default "" (cm !! ConfigMapMatchModeKey)) ;;
  ok ← on_updated unmarshal cm;
  if ok : bool then SetUserPolicy (PolicyCSV cm) else mret false.

Definition ValidatePolicy (policy : string) : bool :=
  bool_decide (is_Some (newEnforcerSafe MatchGlob {| builtinPolicy := ""; userDefinedPolicy := ""; runtimePolicy := policy |})).

(** *** Enforcement *)

Definition granted (e : casbin_enforcer) (rvals : list rval) : bool := bool_decide (casbin_Enforce e rvals = Some true).

Notation claims_func := (jwt_claims → list rval → M bool).

Definition enforce (enf : casbin_enforcer) (defaultRole : string) (claimsEnforcerFunc : option claims_func) (rvals : list rval) : M bool :=
  if negb (String.eqb defaultRole "") && Nat.leb 2 (length rvals) && granted enf (VText defaultRole :: drop 1 rvals) then ret true
  else
    match rvals with
    | [] => ret false
    | VText _ :: _ => ret (granted enf rvals)
    | sub :: rest =>
        ok <- match sub, claimsEnforcerFunc with VClaims c, Some f => f c rvals | _, _ => ret false end ;;
        if ok : bool then ret true else ret (granted enf (VText "" :: rest))
    end.

Definition EnforceWithCustomEnforcer (f : option claims_func) (enf : casbin_enforcer) (rvals : list rval) : M bool :=
  λ s, enforce enf (defaultRole s) f rvals s.

Definition Enforce (f : option claims_func) (rvals : list rval) : M bool :=
  enf <- getCasbinEnforcer "" "" ;; EnforceWithCustomEnforcer f enf rvals.

Definition EnforceRuntimePolicy (f : option claims_func) (project policy : string) (rvals : list rval) : M bool :=
  enf <- getCasbinEnforcer project policy ;; EnforceWithCustomEnforcer f enf rvals.

(** ** Claims of users, tokens and groups (rbacpolicy.go) *)

Definition DefaultScopes : list string := ["groups"].
Definition GetScopes (s : Enforcer) : list string := default DefaultScopes (scopes s).

Definition IsProjectSubject (subject : string) : bool := bool_decide (is_Some (GetProjectRoleFromSubject subject)).

(** The projects that the informer has, by name *)
Context (projects : gmap string AppProject).

Definition project_objects : list string := ["applicationsets"; "applications"; "repositories"; "clusters"; "logs"; "exec"].

Definition getProjectFromRequest (rvals : list rval) : option AppProject :=
  match rvals with
  | [_; VText res; _; VText obj] =>
      if existsb (String.eqb res) project_objects then
        match Split obj "/" with name :: _ :: _ => projects !! name | _ => None end
      else if String.eqb res "projects" then projects !! obj else None
  | _ => None
  end.

Section claims.
(** The function that the enforcer calls for claims; the subjects that are passed on here are
    texts, for which it is not called. *)
Context (self : option claims_func).

Definition enforceProjectToken (subject : string) (proj : AppProject) (rvals : list rval) : M bool :=
  match Split subject ":" with
  | [_; projName; _] =>
      if String.eqb projName (ProjName proj)
      then EnforceRuntimePolicy self (ProjName proj) (ProjectPoliciesString proj) (VText subject :: drop 1 rvals)
      else ret false
  | _ => ret false
  end.

Fixpoint enforce_groups (enforcer : casbin_enforcer) (groupingPolicies : list (list string)) (groups : list string) (rest : list rval) : M bool :=
  match groups with
  | [] => ret false
  | group :: groups =>
      if existsb (λ rule, bool_decide (head rule = Some group)) groupingPolicies then
        ok <- EnforceWithCustomEnforcer self enforcer (VText group :: rest) ;;
        if ok : bool then ret true else enforce_groups enforcer groupingPolicies groups rest
      else enforce_groups enforcer groupingPolicies groups rest
  end.

(** The user and the groups, with the policy of a project (or none) *)
Definition enforce_user (subject projName policy : string) (c : claim_map) (rvals : list rval) : M bool :=
  enforcer <- getCasbinEnforcer projName policy ;;
  ok <- EnforceWithCustomEnforcer self enforcer (VText subject :: drop 1 rvals) ;;
  if ok : bool then ret true
  else λ s,
    match GetGroupingPolicy enforcer with
    | None => ret false s
    | Some groupingPolicies => enforce_groups enforcer groupingPolicies (GetScopeValues c (GetScopes s)) (drop 1 rvals) s
    end.

Definition EnforceClaims : claims_func := λ claims rvals,
  match claims with
  | None => ret false
  | Some c =>
      let subject := GetUserIdentifier c in
      match getProjectFromRequest rvals with
      | Some proj =>
          if IsProjectSubject subject then enforceProjectToken subject proj rvals
          else enforce_user subject (ProjName proj) (ProjectPoliciesString proj) c rvals
      | None => enforce_user subject "" "" c rvals
      end
  end.
End claims.

(** What the API server asks *)
Definition server_Enforce (rvals : list rval) : M bool := Enforce (Some (EnforceClaims None)) rvals.
End enforcement.

(** ** Names of applications in requests (src/util/security/rbac.go) *)

Definition RBACName (defaultNS project namespace name : string) : string :=
  if negb (String.eqb defaultNS "") && negb (String.eqb namespace defaultNS) && negb (String.eqb namespace "")
  then project +:+ "/" +:+ namespace +:+ "/" +:+ name else project +:+ "/" +:+ name.
