(* ===== verification/RbacPolicies.v ===== *)
(** * Role-based access control: what policies say once they are loaded

    The policy of a valid project is read back as the rules that the project states: no
    name, object or group makes another rule of it. *)

From S2P Require Import Prelude GoStd GoMatch GoTime AppTypes Glob Windows Project ProjectRules Rbac.
From Stdlib Require Import Ascii.
Local Open Scope string_scope.
Local Open Scope list_scope.
Local Open Scope nat_scope.

(** ** Characters that are no part of a space *)

Definition visible (c : ascii) : bool := forallb (λ e, negb (has_char c e)) space_encodings.

Lemma visible_has_char c e : visible c = true → e ∈ space_encodings → has_char c e = false.
Proof.
  intros Hc He. unfold visible in Hc. rewrite forallb_forall in Hc. apply negb_true_iff, Hc.
  by apply list_elem_of_In.
Qed.

(** The characters of names, patterns and of the syntax *)
Definition name_char (c : ascii) : bool :=
  alnum c || existsb (Ascii.eqb c) ["-"; "_"; "."; "*"; "/"; ":"]%char.

Lemma all_ascii (P : ascii → bool) :
  forallb P (ascii_of_nat <$> seq 0 256) = true → ∀ c, P c = true.
Proof.
  intros H c. rewrite forallb_forall in H. apply H, list_elem_of_In, list_elem_of_fmap.
  exists (nat_of_ascii c). split; [by rewrite ascii_nat_embedding|]. apply elem_of_seq.
  pose proof (nat_ascii_bounded c). lia.
Qed.

Lemma name_char_plain c : name_char c = true → visible c = true ∧ c ≠ comma ∧ c ≠ quote_char ∧ c ≠ newline.
Proof.
  assert (implb (name_char c) (visible c && negb (Ascii.eqb c comma) && negb (Ascii.eqb c quote_char) &&
    negb (Ascii.eqb c newline)) = true) as H.
  { revert c. apply all_ascii. vm_compute. reflexivity. }
  intros Hc. rewrite Hc in H. simpl in H. rewrite !andb_true_iff, !negb_true_iff, !Ascii.eqb_neq in H. tauto.
Qed.

(** Without a character *)
Lemma forall_chars_has_char (f : ascii → bool) s c : forall_chars f s = true → f c = false → has_char c s = false.
Proof.
  intros Hs Hc. induction s as [|d s IH]; [done|]. cbn in *. apply andb_true_iff in Hs as [Hd Hs].
  rewrite IH by done. rewrite orb_false_r. apply Ascii.eqb_neq. intros ->. congruence.
Qed.

Lemma name_no_char s c : forall_chars name_char s = true → c = comma ∨ c = quote_char ∨ c = newline → has_char c s = false.
Proof. intros Hs Hc. apply (forall_chars_has_char name_char); [exact Hs|]. by destruct Hc as [->|[->| ->]]; vm_compute. Qed.

(** ** Trimming *)

Section trim.
Context (encs : list string) (c : ascii) (Hc : ∀ e, e ∈ encs → has_char c e = false).

Lemma CutPrefix_visible e x y : has_char c e = false → CutPrefix e (x +:+ String c y) = (λ t, t +:+ String c y) <$> CutPrefix e x.
Proof.
  revert x. induction e as [|d e IH]; intros x; [done|]. intros [Hd He]%orb_false_iff. destruct x as [|a x].
  - change ("" +:+ String c y) with (String c y). cbn. by rewrite Hd.
  - change (String a x +:+ String c y) with (String a (x +:+ String c y)). cbn. destruct (Ascii.eqb d a); [|done]. by apply IH.
Qed.

Lemma cut_any_visible x y : cut_any encs (x +:+ String c y) = (λ t, t +:+ String c y) <$> cut_any encs x.
Proof.
  clear -Hc. induction encs as [|e l IH]; [done|]. cbn.
  rewrite CutPrefix_visible by (apply Hc; left). destruct (CutPrefix e x); [done|]. apply IH.
  intros e' He'. apply Hc. by right.
Qed.

Lemma trim_left_fuel_visible n x y :
  trim_left_fuel n encs (x +:+ String c y) = trim_left_fuel n encs x +:+ String c y.
Proof.
  revert x. induction n as [|n IH]; intros x; [done|]. cbn [trim_left_fuel]. rewrite cut_any_visible.
  destruct (cut_any encs x) as [t|]; cbn; [apply IH|done].
Qed.

End trim.

Lemma CutPrefix_app e s t : CutPrefix e s = Some t → s = e +:+ t.
Proof.
  revert s. induction e as [|a e IH]; intros s; [by intros [= ->]|]. destruct s as [|b s]; [done|]. cbn.
  destruct (Ascii.eqb_spec a b) as [->|]; [|done]. by intros ->%IH.
Qed.

(** More fuel than characters changes nothing, if no encoding is empty. *)
Lemma CutPrefix_shorter e s t : e ≠ "" → CutPrefix e s = Some t → String.length t < String.length s.
Proof. intros He ->%CutPrefix_app. rewrite string_length_app. destruct e; [done|]. cbn. lia. Qed.

Lemma cut_any_shorter encs s t : Forall (λ e, e ≠ "") encs → cut_any encs s = Some t → String.length t < String.length s.
Proof.
  induction 1 as [|e l He _ IH]; [done|]. cbn. destruct (CutPrefix e s) eqn:E; [|done]. intros [= ->]. by eapply CutPrefix_shorter.
Qed.

Lemma trim_left_fuel_more encs (s : string) (n m : nat) :
  Forall (λ e, e ≠ "") encs → String.length s ≤ n → String.length s ≤ m → trim_left_fuel n encs s = trim_left_fuel m encs s.
Proof.
  intros He. revert s m. induction n as [|n IH]; intros s m Hn Hm.
  - destruct s; [|cbn in Hn; lia]. destruct m; [done|]. cbn. destruct (cut_any encs "") eqn:E; [|done].
    apply cut_any_shorter in E; [|done]. cbn in E. lia.
  - destruct m as [|m].
    { destruct s; [|cbn in Hm; lia]. cbn. destruct (cut_any encs "") eqn:E; [|done].
      apply cut_any_shorter in E; [|done]. cbn in E. lia. }
    cbn. destruct (cut_any encs s) as [t|] eqn:E; [|done]. apply cut_any_shorter in E; [|done]. apply IH; lia.
Qed.

Lemma trim_left_visible encs c x y :
  Forall (λ e, e ≠ "") encs → (∀ e, e ∈ encs → has_char c e = false) →
  trim_left encs (x +:+ String c y) = trim_left encs x +:+ String c y.
Proof.
  intros He Hc. unfold trim_left. rewrite trim_left_fuel_visible by done. f_equal.
  apply trim_left_fuel_more; [done| |done]. rewrite string_length_app. lia.
Qed.

Lemma spaces_not_empty : Forall (λ e, e ≠ "") space_encodings.
Proof. rewrite Forall_forall. intros e He ->. revert He. by apply (bool_decide_unpack _). Qed.

Lemma string_rev_app_dist a b : string_rev (a +:+ b) = string_rev b +:+ string_rev a.
Proof.
  induction a as [|c a IH]; [by rewrite string_app_empty_r|].
  change (String c a +:+ b) with (String c (a +:+ b)). by rewrite !string_rev_cons, IH, string_app_assoc.
Qed.

Lemma string_rev_involutive s : string_rev (string_rev s) = s.
Proof. induction s as [|c s IH]; [done|]. rewrite string_rev_cons, string_rev_app_dist, IH. done. Qed.

Lemma has_char_rev c s : has_char c (string_rev s) = has_char c s.
Proof.
  induction s as [|d s IH]; [done|]. rewrite string_rev_cons, has_char_app, IH. cbn. rewrite orb_false_r. apply orb_comm.
Qed.

(** [TrimSpace] in two steps *)
Definition trim_lead (s : string) : string := trim_left space_encodings s.
Definition trim_trail (s : string) : string := string_rev (trim_left (string_rev <$> space_encodings) (string_rev s)).

Lemma TrimSpace_trim s : TrimSpace s = trim_trail (trim_lead s).
Proof. done. Qed.

Lemma trim_lead_visible c x y : visible c = true → trim_lead (x +:+ String c y) = trim_lead x +:+ String c y.
Proof. intros Hc. apply trim_left_visible; [apply spaces_not_empty|]. intros e. by apply visible_has_char. Qed.

Lemma trim_trail_visible c x y : visible c = true → trim_trail (x +:+ String c y) = x +:+ String c (trim_trail y).
Proof.
  intros Hc. unfold trim_trail. rewrite string_rev_app_dist, string_rev_cons, <-string_app_assoc.
  change (String c "" +:+ string_rev x) with (String c (string_rev x)).
  rewrite trim_left_visible.
  - rewrite string_rev_app_dist, string_rev_cons, string_rev_involutive. by rewrite <-string_app_assoc.
  - apply Forall_fmap, Forall_forall. intros e He. cbn. intros Hr. pose proof spaces_not_empty as Hs. rewrite Forall_forall in Hs.
    apply (Hs e He). by rewrite <-(string_rev_involutive e), Hr.
  - intros e (e' & -> & He')%list_elem_of_fmap. rewrite has_char_rev. by apply visible_has_char.
Qed.

(** Names and what starts or ends with one *)
Lemma trim_lead_name x y : x ≠ "" → forall_chars name_char x = true → trim_lead (x +:+ y) = x +:+ y.
Proof.
  destruct x as [|c x]; [done|]. intros _ [Hc _]%andb_true_iff.
  change (String c x +:+ y) with ("" +:+ String c (x +:+ y)). rewrite trim_lead_visible; [done|]. by apply name_char_plain.
Qed.

Lemma name_last x : x ≠ "" → forall_chars name_char x = true → ∃ y c, x = y +:+ String c "" ∧ name_char c = true.
Proof.
  induction x as [|c x IH]; [done|]. intros _ [Hc Hx]%andb_true_iff. destruct x as [|d x]; [by exists "", c|].
  destruct IH as (y & e & -> & He); [done..|]. by exists (String c y), e.
Qed.

Lemma trim_trail_name x y : y ≠ "" → forall_chars name_char y = true → trim_trail (x +:+ y) = x +:+ y.
Proof.
  intros Hy Hn. destruct (name_last y) as (z & c & -> & Hc); [done..|].
  rewrite string_app_assoc, trim_trail_visible; [done|]. by apply name_char_plain.
Qed.

(** A space is dropped. *)
Lemma trim_lead_space s : trim_lead (" " +:+ s) = trim_lead s.
Proof.
  unfold trim_lead, trim_left. change (String.length (" " +:+ s)) with (S (String.length s)). cbn [trim_left_fuel].
  change (cut_any space_encodings (" " +:+ s)) with (Some s). done.
Qed.

(** ** Fields of a line *)

Lemma cut_char_plain c a : has_char c a = false → cut_char c a = (a, None).
Proof. induction a as [|d a IH]; [done|]. cbn. intros [Hd Ha]%orb_false_iff. by rewrite Hd, IH. Qed.

Lemma cut_char_app c a b : has_char c a = false → cut_char c (a +:+ String c b) = (a, Some b).
Proof.
  induction a as [|d a IH]; intros Ha.
  - change ("" +:+ String c b) with (String c b). cbn. by rewrite Ascii.eqb_refl.
  - apply orb_false_iff in Ha as [Hd Ha]. change (String d a +:+ String c b) with (String d (a +:+ String c b)).
    cbn. by rewrite Hd, IH.
Qed.

Lemma cut_char_shorter c s a b : cut_char c s = (a, Some b) → String.length b < String.length s.
Proof.
  revert a. induction s as [|d s IH]; intros a; [done|]. cbn. destruct (Ascii.eqb d c); [intros [= _ ->]; lia|].
  destruct (cut_char c s) as [x y]. intros [= <- ->]. specialize (IH x eq_refl). lia.
Qed.

Lemma quoted_field_shorter n s a b :
  String.length s ≤ n → quoted_field s = Some (a, Some b) → String.length b < String.length s.
Proof.
  revert s a. induction n as [|n IH]; intros s a Hn; (destruct s as [|c s]; [done|]); cbn in Hn; [lia|]. cbn [quoted_field].
  destruct (Ascii.eqb c quote_char).
  - destruct s as [|d s]; [done|]. cbn in Hn. destruct (Ascii.eqb d quote_char).
    + destruct (quoted_field s) as [[x y]|] eqn:E; [|done]. cbn. intros [= <- ->]. apply IH in E; cbn; lia.
    + destruct (Ascii.eqb d comma); [|done]. intros [= _ ->]. cbn. lia.
  - destruct (quoted_field s) as [[x y]|] eqn:E; [|done]. cbn. intros [= <- ->]. apply IH in E; lia.
Qed.

Lemma first_field_shorter s a b : first_field s = Some (a, Some b) → String.length b < String.length s.
Proof.
  unfold first_field. destruct s as [|c s]; [done|]. destruct (Ascii.eqb c quote_char).
  - intros H. apply (quoted_field_shorter (String.length s)) in H; [cbn; lia|done].
  - destruct (cut_char comma (String c s)) as [x y] eqn:E. destruct (has_char quote_char x); [done|].
    intros [= -> ->]. by eapply cut_char_shorter.
Qed.

Lemma trim_left_length encs s : Forall (λ e, e ≠ "") encs → String.length (trim_left encs s) ≤ String.length s.
Proof.
  intros He. unfold trim_left. generalize (String.length s) at 1. intros n. revert s. induction n as [|n IH]; intros s; [done|]. cbn.
  destruct (cut_any encs s) as [t|] eqn:E; [|done]. apply cut_any_shorter in E; [|done]. specialize (IH t). lia.
Qed.

Lemma read_fields_more n m s : String.length s < n → String.length s < m → read_fields n s = read_fields m s.
Proof.
  revert m s. induction n as [|n IH]; intros m s Hn Hm; [lia|]. destruct m as [|m]; [lia|]. cbn [read_fields].
  destruct (first_field _) as [[f [rest|]]|] eqn:E; cbn; [|done..]. f_equal. apply first_field_shorter in E.
  pose proof (trim_left_length space_encodings s spaces_not_empty). apply IH; lia.
Qed.

(** A line is its first field and the rest. *)
Lemma csv_Read_step line :
  csv_Read line =
  match first_field (trim_lead line) with
  | None => None
  | Some (field, None) => Some [field]
  | Some (field, Some rest) => cons field <$> csv_Read rest
  end.
Proof.
  change (csv_Read line) with (read_fields (S (String.length line)) line). cbn [read_fields].
  change (trim_left space_encodings line) with (trim_lead line).
  destruct (first_field (trim_lead line)) as [[f [rest|]]|] eqn:E; [|done..]. apply first_field_shorter in E.
  pose proof (trim_left_length space_encodings line spaces_not_empty) as H. unfold trim_lead in E.
  change (cons f <$> read_fields (String.length line) rest = cons f <$> read_fields (S (String.length rest)) rest).
  f_equal. apply read_fields_more; lia.
Qed.

Lemma first_field_plain s : has_char quote_char s = false →
  first_field s = let '(field, rest) := cut_char comma s in if has_char quote_char field then None else Some (field, rest).
Proof.
  destruct s as [|c s]; [done|]. intros [Hc _]%orb_false_iff. cbn [first_field]. by rewrite Hc.
Qed.

Lemma comma_visible : visible comma = true.
Proof. vm_compute. reflexivity. Qed.

Lemma cut_any_suffix encs s t : cut_any encs s = Some t → ∃ e, s = e +:+ t.
Proof.
  induction encs as [|e l IH]; [done|]. cbn. destruct (CutPrefix e s) as [u|] eqn:E; [|apply IH].
  intros [= ->]. exists e. by apply CutPrefix_app.
Qed.

Lemma has_char_trim_left encs c s : has_char c s = false → has_char c (trim_left encs s) = false.
Proof.
  unfold trim_left. generalize (String.length s). intros n. revert s. induction n as [|n IH]; intros s Hs; [done|].
  cbn [trim_left_fuel]. destruct (cut_any encs s) as [t|] eqn:E; [|done]. apply IH.
  apply cut_any_suffix in E as [e ->]. rewrite has_char_app in Hs. by apply orb_false_iff in Hs as [_ ?].
Qed.

Lemma has_char_trim_lead c s : has_char c s = false → has_char c (trim_lead s) = false.
Proof. apply has_char_trim_left. Qed.

Lemma has_char_trim_trail c s : has_char c s = false → has_char c (trim_trail s) = false.
Proof. intros Hs. unfold trim_trail. rewrite has_char_rev. apply has_char_trim_left. by rewrite has_char_rev. Qed.

(** A field without quotes before a comma *)
Lemma csv_Read_cons a b :
  has_char comma a = false → has_char quote_char (trim_lead a) = false →
  csv_Read (a +:+ String comma b) = cons (trim_lead a) <$> csv_Read b.
Proof.
  intros Ha Hq. rewrite csv_Read_step, trim_lead_visible by apply comma_visible.
  assert (first_field (trim_lead a +:+ String comma b) = Some (trim_lead a, Some b)) as ->; [|done].
  apply has_char_trim_lead in Ha. destruct (trim_lead a) as [|c t] eqn:E; [done|].
  change (String c t +:+ String comma b) with (String c (t +:+ String comma b)). cbn [first_field].
  cbn [has_char] in Hq. apply orb_false_iff in Hq as [Hc Hq]. rewrite Hc.
  change (String c (t +:+ String comma b)) with (String c t +:+ String comma b). rewrite cut_char_app by done.
  cbn [has_char]. by rewrite Hc, Hq.
Qed.

(** The last field *)
Lemma csv_Read_last a :
  has_char comma a = false → has_char quote_char (trim_lead a) = false → csv_Read a = Some [trim_lead a].
Proof.
  intros Ha Hq. rewrite csv_Read_step, first_field_plain, cut_char_plain by (done || by apply has_char_trim_lead). by rewrite Hq.
Qed.

Lemma quoted_field_no_comma s a rest : has_char comma s = false → quoted_field s = Some (a, rest) → rest = None.
Proof.
  assert (∀ n s a rest, String.length s ≤ n → has_char comma s = false → quoted_field s = Some (a, rest) → rest = None) as H.
  { clear. intros n; induction n as [|n IH]; intros s a rest Hn; (destruct s as [|c s]; [done|]); cbn in Hn; [lia|].
    cbn [has_char quoted_field]. intros [_ Hs]%orb_false_iff. destruct (Ascii.eqb c quote_char).
    - destruct s as [|d s]; [by intros [= _ <-]|]. cbn in Hn. cbn [has_char] in Hs. apply orb_false_iff in Hs as [Hd Hs].
      destruct (Ascii.eqb d quote_char).
      + destruct (quoted_field s) as [[x y]|] eqn:E; [|done]. cbn. intros [= _ <-]. eapply IH; [|done|exact E]. lia.
      + by rewrite Hd.
    - destruct (quoted_field s) as [[x y]|] eqn:E; [|done]. cbn. intros [= _ <-]. eapply IH; [|done|exact E]. lia. }
  by eapply H.
Qed.

Lemma csv_Read_one a l : has_char comma a = false → csv_Read a = Some l → length l = 1.
Proof.
  intros Ha%has_char_trim_lead. rewrite csv_Read_step. destruct (first_field (trim_lead a)) as [[f rest]|] eqn:E; [|done].
  assert (rest = None) as ->; [|by intros [= <-]].
  unfold first_field in E. destruct (trim_lead a) as [|c t] eqn:Et; [by simplify_eq|].
  destruct (Ascii.eqb c quote_char).
  - cbn [has_char] in Ha. apply orb_false_iff in Ha as [_ Ha]. by eapply quoted_field_no_comma.
  - rewrite cut_char_plain in E by done. by destruct (has_char quote_char (String c t)); simplify_eq.
Qed.

(** A quoted text that does not close is an error. *)
Lemma quoted_field_unclosed s : has_char quote_char s = false → quoted_field s = None.
Proof. induction s as [|c s IH]; [done|]. cbn [has_char quoted_field]. intros [Hc Hs]%orb_false_iff. by rewrite Hc, IH. Qed.

Lemma quoted_field_any a b x rest :
  has_char comma a = false → has_char quote_char b = false →
  quoted_field (a +:+ String comma b) = Some (x, rest) → rest = Some b.
Proof.
  intros Ha Hb. assert (∀ n a x, String.length a ≤ n → has_char comma a = false →
    quoted_field (a +:+ String comma b) = Some (x, rest) → rest = Some b) as H; [|by eapply H].
  clear a x Ha. intros n. induction n as [|n IH]; intros a x Hn Ha.
  - destruct a; [|cbn in Hn; lia]. change ("" +:+ String comma b) with (String comma b).
    rewrite quoted_field_unclosed; [done|]. cbn. exact Hb.
  - destruct a as [|c a]; [apply IH; [cbn; lia|done]|]. cbn in Hn. cbn [has_char] in Ha. apply orb_false_iff in Ha as [_ Ha].
    change (String c a +:+ String comma b) with (String c (a +:+ String comma b)). cbn [quoted_field].
    destruct (Ascii.eqb c quote_char).
    + destruct a as [|d a].
      { change ("" +:+ String comma b) with (String comma b). cbn. by intros [= _ <-]. }
      cbn [has_char] in Ha. apply orb_false_iff in Ha as [Hd Ha]. cbn in Hn.
      change (String d a +:+ String comma b) with (String d (a +:+ String comma b)). cbv iota beta.
      destruct (Ascii.eqb d quote_char); [|by rewrite Hd].
      destruct (quoted_field (a +:+ String comma b)) as [[y z]|] eqn:E; [|done]. cbn. intros [= _ <-]. eapply IH; [|done|exact E]. lia.
    + destruct (quoted_field (a +:+ String comma b)) as [[y z]|] eqn:E; [|done]. cbn. intros [= _ <-]. eapply IH; [|done|exact E]. lia.
Qed.

(** A field before a text without quotes *)
Lemma csv_Read_any a b l :
  has_char comma a = false → has_char quote_char b = false → csv_Read (a +:+ String comma b) = Some l →
  ∃ x rest, l = x :: rest ∧ csv_Read b = Some rest ∧ (has_char quote_char a = false → x = trim_lead a).
Proof.
  intros Ha Hb. destruct (has_char quote_char (trim_lead a)) eqn:Hq.
  - rewrite csv_Read_step, trim_lead_visible by apply comma_visible. apply has_char_trim_lead in Ha.
    destruct (trim_lead a) as [|c t] eqn:Et; [done|]. change (String c t +:+ String comma b) with (String c (t +:+ String comma b)).
    cbn [first_field]. destruct (Ascii.eqb c quote_char) eqn:Hc.
    + destruct (quoted_field (t +:+ String comma b)) as [[x rest]|] eqn:E; [|done].
      cbn [has_char] in Ha. apply orb_false_iff in Ha as [_ Ha]. apply quoted_field_any in E as ->; [|done..].
      destruct (csv_Read b) as [r|]; [|done]. intros [= <-]. exists x, r. split_and!; [done..|]. intros Hq'.
      apply has_char_trim_lead in Hq'. congruence.
    + change (String c (t +:+ String comma b)) with (String c t +:+ String comma b). rewrite cut_char_app by done. by rewrite Hq.
  - rewrite csv_Read_cons by done. destruct (csv_Read b) as [r|]; [|done]. intros [= <-]. by exists (trim_lead a), r.
Qed.

(** A quoted field *)
Lemma csv_Read_quoted a b :
  has_char quote_char a = false →
  csv_Read (" " +:+ String quote_char (a +:+ String quote_char (String comma b))) = cons a <$> csv_Read b.
Proof.
  intros Ha. rewrite csv_Read_step, trim_lead_space.
  change (String quote_char ?s) with ("" +:+ String quote_char s). rewrite trim_lead_visible by (vm_compute; reflexivity).
  change (trim_lead "" +:+ String quote_char ?s) with (String quote_char s). cbn [first_field]. rewrite Ascii.eqb_refl.
  assert (quoted_field (a +:+ String quote_char (String comma b)) = Some (a, Some b)) as ->; [|done].
  induction a as [|c a IH]; [done|]. cbn [has_char] in Ha. apply orb_false_iff in Ha as [Hc Ha].
  change (String c a +:+ ?s) with (String c (a +:+ s)). cbn [quoted_field]. by rewrite Hc, IH.
Qed.

(** ** Texts of several lines *)

Lemma Split_aux_app c a b cur : Split_aux c (a +:+ String c b) cur = Split_aux c a cur ++ Split_aux c b "".
Proof.
  revert cur. induction a as [|d a IH]; intros cur.
  - change ("" +:+ String c b) with (String c b). cbn [Split_aux]. by rewrite Ascii.eqb_refl.
  - change (String d a +:+ String c b) with (String d (a +:+ String c b)). cbn [Split_aux].
    destruct (Ascii.eqb d c); [|apply IH]. cbn [app]. f_equal. apply IH.
Qed.

Lemma load_lines_app l1 l2 m : load_lines (l1 ++ l2) m = load_lines l1 m ≫= load_lines l2.
Proof.
  revert m. induction l1 as [|x l1 IH]; intros m; [done|]. cbn [app load_lines].
  destruct (loadPolicyLine (TrimSpace x) m); [apply IH|done].
Qed.

Lemma load_text_app a b m : load_text (a +:+ String newline b) m = load_text a m ≫= load_text b.
Proof. unfold load_text at 1, Split. by rewrite Split_aux_app, load_lines_app. Qed.

Lemma load_text_line s m : has_char newline s = false → load_text s m = loadPolicyLine (TrimSpace s) m.
Proof.
  intros Hs. unfold load_text, Split. rewrite Split_aux_plain by done. cbn [load_lines].
  change (string_rev "" +:+ s) with s. by destruct (loadPolicyLine _ m).
Qed.

Fixpoint load_texts (l : list string) (m : policies) : option policies :=
  match l with [] => Some m | x :: r => load_text x m ≫= load_texts r end.

Lemma load_texts_app l1 l2 m : load_texts (l1 ++ l2) m = load_texts l1 m ≫= load_texts l2.
Proof.
  revert m. induction l1 as [|x l1 IH]; intros m; [done|]. cbn [app load_texts]. destruct (load_text x m); [apply IH|done].
Qed.

Lemma load_text_Join l m : load_text (Join l (bytes [10])) m = load_texts l m.
Proof.
  revert m. induction l as [|x l IH]; intros m; [done|]. destruct l as [|y l].
  - cbn [Join load_texts]. by destruct (load_text x m).
  - change (Join (x :: y :: l) (bytes [10])) with (x +:+ String newline (Join (y :: l) (bytes [10]))).
    rewrite load_text_app. change (load_texts (x :: y :: l) m) with (load_text x m ≫= load_texts (y :: l)).
    destruct (load_text x m) as [m'|]; [|done]. apply IH.
Qed.

(** A list of texts that each add something *)
Lemma load_texts_adds {A} (add : policies → A → policies) (stated : string → A → Prop) l :
  (∀ x m m', x ∈ l → load_text x m = Some m' → ∃ a, stated x a ∧ m' = add m a) →
  ∀ m m', load_texts l m = Some m' → ∃ r, Forall2 stated l r ∧ m' = foldl add m r.
Proof.
  induction l as [|x l IH]; intros Hl m m'; cbn [load_texts].
  { intros [= <-]. exists []. split; [constructor|done]. }
  destruct (load_text x m) as [m1|] eqn:E; [|done]. apply Hl in E as (a & Ha & ->); [|by left].
  intros Hm. apply IH in Hm as (r & Hr & ->); [|intros y ? ? ?; apply Hl; by right]. exists (a :: r). split; [by constructor|done].
Qed.

(** ** Spaces *)

Fixpoint blanks (n : nat) : string := match n with 0 => "" | S n => String " " (blanks n) end.

Lemma blanks_cons n t : String " " (blanks n +:+ t) = blanks (S n) +:+ t.
Proof. done. Qed.

Lemma blanks_snoc n : blanks n +:+ " " = blanks (S n).
Proof. induction n as [|n IH]; [done|]. change (blanks (S n) +:+ " ") with (String " " (blanks n +:+ " ")). by rewrite IH. Qed.

Lemma string_rev_blanks n : string_rev (blanks n) = blanks n.
Proof. induction n as [|n IH]; [done|]. cbn [blanks]. rewrite string_rev_cons, IH. apply blanks_snoc. Qed.

Lemma has_char_blanks c n : c ≠ " "%char → has_char c (blanks n) = false.
Proof. intros Hc. induction n as [|n IH]; [done|]. cbn [blanks has_char]. rewrite IH, orb_false_r. by apply Ascii.eqb_neq. Qed.

Lemma trim_left_blank s : ∃ n, s = blanks n +:+ trim_left [" "] s.
Proof.
  unfold trim_left. generalize (String.length s). intros f. revert s. induction f as [|f IH]; intros s; [by exists 0|].
  cbn [trim_left_fuel]. destruct (cut_any [" "] s) as [t|] eqn:E; [|by exists 0].
  assert (s = String " " t) as ->.
  { destruct s as [|c s]; [done|]. cbn [cut_any CutPrefix] in E. destruct (Ascii.eqb_spec " " c) as [<-|]; [|done]. by simplify_eq. }
  destruct (IH t) as [n Hn]. exists (S n). rewrite Hn at 1. done.
Qed.

Lemma Trim_spaces_spec s : ∃ n k, s = blanks n +:+ (Trim_spaces s +:+ blanks k).
Proof.
  unfold Trim_spaces. destruct (trim_left_blank s) as [n Hn]. destruct (trim_left_blank (string_rev (trim_left [" "] s))) as [k Hk].
  exists n, k. rewrite Hn at 1. f_equal. rewrite <-(string_rev_involutive (trim_left [" "] s)) at 1. rewrite Hk at 1.
  by rewrite string_rev_app_dist, string_rev_blanks.
Qed.

Lemma has_char_Trim_spaces c s : has_char c s = false → has_char c (Trim_spaces s) = false.
Proof.
  destruct (Trim_spaces_spec s) as (n & k & Hs). rewrite Hs at 1. rewrite !has_char_app. by intros [_ [? _]%orb_false_iff]%orb_false_iff.
Qed.

Lemma trim_lead_blanks n s : trim_lead (blanks n +:+ s) = trim_lead s.
Proof.
  induction n as [|n IH]; [done|]. change (blanks (S n) +:+ s) with (" " +:+ (blanks n +:+ s)). by rewrite trim_lead_space.
Qed.

(** ** The lines of a project *)

Definition add_p (m : policies) (rule : list string) : policies := {| p_rules := p_rules m ++ [rule]; g_rules := g_rules m |}.
Definition add_g (m : policies) (rule : list string) : policies := {| p_rules := p_rules m; g_rules := g_rules m ++ [rule] |}.

Definition plain_name (s : string) : Prop := s ≠ "" ∧ forall_chars name_char s = true.

Lemma plain_no_char s c : plain_name s → c = comma ∨ c = quote_char ∨ c = newline → has_char c s = false.
Proof. intros [_ Hs]. by apply name_no_char. Qed.

Lemma forall_chars_app f a b : forall_chars f (a +:+ b) = forall_chars f a && forall_chars f b.
Proof. induction a as [|c a IH]; [done|]. change (String c a +:+ b) with (String c (a +:+ b)). cbn. by rewrite IH, andb_assoc. Qed.

Lemma forall_chars_weaken (f g : ascii → bool) s :
  (∀ c, f c = true → g c = true) → forall_chars f s = true → forall_chars g s = true.
Proof. intros Hfg. induction s as [|c s IH]; [done|]. cbn. rewrite !andb_true_iff. naive_solver. Qed.

Lemma plain_app a b : plain_name a → forall_chars name_char b = true → plain_name (a +:+ b).
Proof.
  intros [Hn Ha] Hb. split; [by destruct a|]. by rewrite forall_chars_app, Ha, Hb.
Qed.

Lemma role_name_plain role : role_name_match role = true → plain_name role.
Proof.
  destruct role as [|c r]; [done|]. cbn [role_name_match]. rewrite !andb_true_iff. intros [[Hc Hr] _]. split; [done|].
  cbn [forall_chars]. apply andb_true_iff. split; [unfold name_char; by rewrite Hc|].
  revert Hr. apply forall_chars_weaken. intros d. unfold role_char, name_char. cbn [existsb].
  destruct (alnum d), (Ascii.eqb d "-"), (Ascii.eqb d "_"); done.
Qed.

Lemma role_subject_plain proj role : plain_name proj → plain_name role → plain_name (role_subject proj role).
Proof.
  intros Hp [_ Hr]. unfold role_subject. split; [done|]. rewrite !forall_chars_app, Hr. destruct Hp as [_ ->]. done.
Qed.

(** A name between commas, and at the end *)
Lemma trim_lead_plain x : plain_name x → trim_lead (" " +:+ x) = x.
Proof.
  intros [Hn Hx]. rewrite trim_lead_space. rewrite <-(string_app_empty_r x) at 1. rewrite trim_lead_name by done. apply string_app_empty_r.
Qed.

Lemma csv_Read_name x b : plain_name x → csv_Read (" " +:+ (x +:+ String comma b)) = cons x <$> csv_Read b.
Proof.
  intros Hx. rewrite (string_app_assoc " " x), csv_Read_cons; rewrite ?trim_lead_plain by done; [done| |].
  - rewrite has_char_app. by rewrite (plain_no_char x comma); [|done|left].
  - apply plain_no_char; [done|]. by right; left.
Qed.

Lemma csv_Read_name_last x : plain_name x → csv_Read (" " +:+ x) = Some [x].
Proof.
  intros Hx. rewrite csv_Read_last; rewrite ?trim_lead_plain by done; [done| |].
  - rewrite has_char_app. by rewrite (plain_no_char x comma); [|done|left].
  - apply plain_no_char; [done|]. by right; left.
Qed.

Lemma trim_trail_comma x y : trim_trail (x +:+ String comma y) = x +:+ String comma (trim_trail y).
Proof. apply trim_trail_visible, comma_visible. Qed.

Lemma trim_trail_last x y : plain_name y → trim_trail (x +:+ y) = x +:+ y.
Proof. intros [Hn Hy]. by apply trim_trail_name. Qed.

(** A line that starts with a component *)
Lemma loadPolicyLine_key x t m :
  loadPolicyLine (String "p" x +:+ t) m = csv_Read (String "p" x +:+ t) ≫= λ tokens, load_rule tokens m.
Proof. done. Qed.

Lemma load_rule_blank n rest m : n ≠ 0 → load_rule (("p" +:+ blanks n) :: rest) m = None.
Proof. destruct n; [done|]. done. Qed.

Lemma load_rule_p rest m : load_rule ("p" :: rest) m = if Nat.eqb (length rest) 5 then Some (add_p m rest) else None.
Proof. unfold load_rule. cbn [length]. do 6 (destruct rest as [|? rest]; [done|]). done. Qed.

Lemma load_rule_g rest m : load_rule ("g" :: rest) m = if Nat.eqb (length rest) 2 then Some (add_g m rest) else None.
Proof. unfold load_rule. cbn [length]. do 3 (destruct rest as [|? rest]; [done|]). done. Qed.

(** ** Policies *)

Lemma normalize_from a l : a ≠ "" →
  foldl (λ normalizedPolicy component,
    if String.eqb normalizedPolicy "" then component else normalizedPolicy +:+ ", " +:+ Trim_spaces component) a l =
  a +:+ foldr (λ component rest, String comma (" " +:+ (Trim_spaces component +:+ rest))) "" l.
Proof.
  revert a. induction l as [|c l IH]; intros a Ha; cbn [foldl foldr]; [by rewrite string_app_empty_r|].
  apply String.eqb_neq in Ha as Ha'. rewrite Ha', IH by by destruct a. by rewrite <-string_app_assoc.
Qed.

Lemma Split_no_char s c x : x ∈ Split s c → has_char c x = false.
Proof.
  unfold Split. assert (∀ s cur, has_char c (string_rev cur) = false → ∀ x, x ∈ Split_aux c s cur → has_char c x = false) as H; [|by apply H].
  clear s x. intros s. induction s as [|d s IH]; intros cur Hc x; cbn [Split_aux]; [by intros ->%list_elem_of_singleton|].
  destruct (Ascii.eqb d c) eqn:E.
  - intros [->|Hx]%elem_of_cons; [done|]. by eapply IH; [|exact Hx].
  - apply IH. rewrite string_rev_cons, has_char_app, Hc. cbn. by rewrite E.
Qed.

Definition policy_fields (policy : string) : list string := Trim_spaces <$> Split policy ",".

(** The text of a normalized policy of a role *)
Definition policy_text (key sub res act obj eff : string) : string :=
  key +:+ String comma (" " +:+ (sub +:+ String comma (" " +:+ (res +:+ String comma (" " +:+ (act +:+
    String comma (" " +:+ (obj +:+ String comma (" " +:+ eff))))))))).

Lemma object_part_plain s : object_part s = true → forall_chars name_char s = true.
Proof.
  intros [_ Hs]%andb_true_iff. revert Hs. apply forall_chars_weaken. intros c. unfold object_char, word_char, name_char.
  cbn [existsb]. destruct (alnum c), (Ascii.eqb c "-"), (Ascii.eqb c "_"), (Ascii.eqb c "*"), (Ascii.eqb c "."); done.
Qed.

Lemma Split_join2 s c a l : Split s c = a :: l → l ≠ [] → ∃ r, s = a +:+ String c r ∧ Split r c = l.
Proof.
  intros [[? _]|(r & Hr & Hx)]%Split_aux_join Hl; [done|]. by exists r.
Qed.

Lemma Split_join1 s c a : Split s c = [a] → s = a.
Proof. intros [[_ Ha]|(r & Hr & _)]%Split_aux_join; [done|]. by apply Split_aux_ne in Hr. Qed.

Lemma valid_object_plain proj obj : plain_name proj → isValidObject proj obj = true → plain_name obj.
Proof.
  unfold isValidObject. intros Hp. destruct (CutPrefix proj obj) as [rest|] eqn:E; [|done]. apply CutPrefix_app in E as ->.
  intros Hv. apply plain_app; [done|].
  destruct (Split rest "/") as [|[|? ?] [|a l]] eqn:El; try done. apply Split_join2 in El as (r & -> & Hr); [|done].
  change ("" +:+ String "/" r) with (String "/" r). cbn [forall_chars]. apply andb_true_iff. split; [done|].
  destruct l as [|b [|? ?]]; [| |done].
  - apply Split_join1 in Hr as ->. by apply object_part_plain.
  - apply andb_true_iff in Hv as [Ha Hb]. apply Split_join2 in Hr as (r' & -> & Hr); [|done]. apply Split_join1 in Hr as ->.
    rewrite forall_chars_app. cbn [forall_chars]. rewrite !andb_true_iff. split_and!; [|done|]; by apply object_part_plain.
Qed.

Lemma ProjectScoped_plain res : existsb (String.eqb res) ProjectScoped = true → plain_name res.
Proof.
  rewrite existsb_exists. intros (x & Hx & ->%String.eqb_eq). unfold ProjectScoped in Hx. cbn in Hx.
  repeat destruct Hx as [<-|Hx]; done.
Qed.

(** A valid policy in normal form *)
Lemma policy_valid_text proj role policy :
  plain_name proj → policy_valid proj role policy = true → normalizePolicy policy = policy →
  ∃ n k res act obj eff, policy_fields policy = ["p"; role_subject proj role; res; act; obj; eff] ∧
    policy = policy_text (blanks n +:+ ("p" +:+ blanks k)) (role_subject proj role) res act obj eff ∧
    has_char comma act = false ∧ plain_name res ∧ plain_name obj ∧ plain_name eff.
Proof.
  intros Hp Hv Hn. unfold policy_valid, policy_fields in *. unfold normalizePolicy in Hn.
  pose proof (Split_no_char policy ",") as Hc. destruct (Split policy ",") as [|c0 [|c1 [|c2 [|c3 [|c4 [|c5 [|? ?]]]]]]]; try done.
  cbn [fmap list_fmap] in *. rewrite !andb_true_iff, orb_true_iff, !String.eqb_eq in Hv.
  destruct Hv as [[[[[H0 H1] H2] H3] H4] H5].
  destruct (Trim_spaces_spec c0) as (n & k & Hc0). rewrite H0 in Hc0.
  cbn [foldl] in Hn. change (if String.eqb "" "" then c0 else _) with c0 in Hn.
  exists n, k, (Trim_spaces c2), (Trim_spaces c3), (Trim_spaces c4), (Trim_spaces c5). split_and!.
  - by rewrite H0, H1.
  - assert (c0 ≠ "") as Hne by (intros ->; by vm_compute in H0).
    pose proof (normalize_from c0 [c1; c2; c3; c4; c5] Hne) as Hf. cbn [foldl] in Hf. rewrite Hn in Hf. rewrite Hf.
    cbn [foldr]. rewrite string_app_empty_r, H1, Hc0. done.
  - apply has_char_Trim_spaces, Hc. by do 3 right; left.
  - by apply ProjectScoped_plain.
  - by eapply valid_object_plain.
  - by destruct H5 as [-> | ->].
Qed.

(** *** Reading a policy *)

Local Ltac chars := repeat first [rewrite has_char_app | progress (cbn [has_char])].

Lemma string_cons_app c a b : String c a +:+ b = String c (a +:+ b).
Proof. done. Qed.

Lemma no_newline_name s : plain_name s → has_char newline s = false.
Proof. intros Hs. apply plain_no_char; [done|]. by right; right. Qed.

Lemma no_quote_name s : plain_name s → has_char quote_char s = false.
Proof. intros Hs. apply plain_no_char; [done|]. by right; left. Qed.

Lemma load_key_line n k t m :
  loadPolicyLine (TrimSpace ((blanks n +:+ ("p" +:+ blanks k)) +:+ String comma t)) m =
  csv_Read (trim_trail t) ≫= λ l, load_rule (("p" +:+ blanks k) :: l) m.
Proof.
  rewrite TrimSpace_trim, <-string_app_assoc, trim_lead_blanks, <-string_app_assoc.
  rewrite (trim_lead_name "p") by done. rewrite string_app_assoc, trim_trail_comma.
  change ("p" +:+ blanks k) with (String "p" (blanks k)). rewrite loadPolicyLine_key.
  assert (trim_lead (String "p" (blanks k)) = String "p" (blanks k)) as Ht by by apply (trim_lead_name "p" (blanks k)).
  rewrite csv_Read_cons; rewrite ?Ht; cbn [has_char]; rewrite ?has_char_blanks by done; [|done..].
  by destruct (csv_Read (trim_trail t)).
Qed.

Lemma csv_Read_field sub t : plain_name sub →
  csv_Read (trim_trail (" " +:+ (sub +:+ String comma t))) = cons sub <$> csv_Read (trim_trail t).
Proof. intros Hs. by rewrite (string_app_assoc " " sub), trim_trail_comma, <-string_app_assoc, csv_Read_name. Qed.

(** A newline cuts a policy off after its action, and the line is refused. *)
Lemma has_char_cut c s : has_char c s = true → ∃ a b, s = a +:+ String c b ∧ has_char c a = false.
Proof.
  induction s as [|d s IH]; [done|]. cbn [has_char]. destruct (Ascii.eqb_spec d c) as [->|Hd]; [by exists "", s|].
  intros (a & b & -> & Ha)%IH. exists (String d a), b. split; [done|]. cbn. rewrite Ha, orb_false_r. by apply Ascii.eqb_neq.
Qed.

Lemma load_cut_policy n k sub res a m :
  plain_name sub → plain_name res → has_char comma a = false →
  loadPolicyLine (TrimSpace ((blanks n +:+ ("p" +:+ blanks k)) +:+ String comma (" " +:+ (sub +:+ String comma (" " +:+
    (res +:+ String comma a)))))) m = None.
Proof.
  intros Hs Hr Ha. rewrite load_key_line, !csv_Read_field by done.
  destruct (csv_Read (trim_trail a)) as [l|] eqn:E; [|done]. apply csv_Read_one in E; [|by apply has_char_trim_trail].
  destruct l as [|x [|? ?]]; try done. cbn [fmap option_fmap option_map mbind option_bind].
  destruct k as [|k]; [by rewrite load_rule_p|by rewrite load_rule_blank].
Qed.

Lemma load_policy_text n k sub res act obj eff m m' :
  plain_name sub → plain_name res → plain_name obj → plain_name eff → has_char comma act = false →
  load_text (policy_text (blanks n +:+ ("p" +:+ blanks k)) sub res act obj eff) m = Some m' →
  ∃ act', m' = add_p m [sub; res; act'; obj; eff] ∧ (has_char quote_char act = false → act' = trim_lead act).
Proof.
  intros Hs Hr Ho He Ha. unfold policy_text. destruct (has_char newline act) eqn:Hnl.
  - apply has_char_cut in Hnl as (a & b & -> & Hnl). rewrite has_char_app in Ha. apply orb_false_iff in Ha as [Ha _].
    set (tail := String comma (" " +:+ (obj +:+ String comma (" " +:+ eff)))).
    assert ((blanks n +:+ ("p" +:+ blanks k)) +:+ String comma (" " +:+ (sub +:+ String comma (" " +:+ (res +:+ String comma (" " +:+
        ((a +:+ String newline b) +:+ tail)))))) =
      ((blanks n +:+ ("p" +:+ blanks k)) +:+ String comma (" " +:+ (sub +:+ String comma (" " +:+ (res +:+ String comma (" " +:+ a)))))) +:+
        String newline (b +:+ tail)) as ->.
    { by repeat rewrite <-?string_app_assoc, ?string_cons_app. }
    rewrite load_text_app, load_text_line, load_cut_policy; [done|done|done|..].
    + by rewrite has_char_app, Ha.
    + chars. by rewrite !has_char_blanks, !(no_newline_name _ Hs), !(no_newline_name _ Hr), ?(no_newline_name _ Ho), ?(no_newline_name _ He), Hnl.
  - rewrite load_text_line, load_key_line, (csv_Read_field sub), (csv_Read_field res).
    + rewrite (string_app_assoc " " act), trim_trail_comma. rewrite (string_app_assoc " " obj), trim_trail_comma, (trim_trail_last " " eff) by done.
      destruct (csv_Read ((" " +:+ act) +:+ _)) as [l|] eqn:E; [|done]. apply csv_Read_any in E as (x & rest & -> & Hrest & Hx).
      * rewrite <-string_app_assoc, csv_Read_name, csv_Read_name_last in Hrest by done. injection Hrest as <-.
        cbn [fmap option_fmap option_map mbind option_bind]. destruct k as [|k]; [|by rewrite load_rule_blank].
        change ("p" +:+ blanks 0) with "p". rewrite load_rule_p. cbn [length Nat.eqb]. intros [= <-]. exists x. split; [done|].
        intros Hq. rewrite Hx by by rewrite has_char_app, Hq. apply trim_lead_space.
      * by rewrite has_char_app, Ha.
      * chars. by rewrite !no_quote_name by done.
    + done.
    + done.
    + chars. by rewrite !has_char_blanks, !(no_newline_name _ Hs), !(no_newline_name _ Hr), ?(no_newline_name _ Ho), ?(no_newline_name _ He), Hnl.
Qed.

Lemma load_policy_ok n sub res act obj eff m :
  plain_name sub → plain_name res → plain_name obj → plain_name eff → has_char comma act = false →
  has_char newline act = false → has_char quote_char act = false →
  load_text (policy_text (blanks n +:+ ("p" +:+ blanks 0)) sub res act obj eff) m = Some (add_p m [sub; res; trim_lead act; obj; eff]).
Proof.
  intros Hs Hr Ho He Ha Hnl Hq. unfold policy_text. rewrite load_text_line.
  - rewrite load_key_line, (csv_Read_field sub), (csv_Read_field res) by done.
    rewrite (string_app_assoc " " act), trim_trail_comma. rewrite (string_app_assoc " " obj), trim_trail_comma, (trim_trail_last " " eff) by done.
    rewrite csv_Read_cons.
    + rewrite <-string_app_assoc, csv_Read_name, csv_Read_name_last, trim_lead_space by done. done.
    + by rewrite has_char_app, Ha.
    + rewrite trim_lead_space. by apply has_char_trim_lead.
  - chars. by rewrite !has_char_blanks, !(no_newline_name _ Hs), !(no_newline_name _ Hr), ?(no_newline_name _ Ho), ?(no_newline_name _ He), Hnl.
Qed.

(** *** Reading groups and whole projects *)

(** The name of a group without its quotes *)
Definition group_name (group : string) : string := default group (unquote_group group).

Lemma ContainsAny_char s chars c : ContainsAny s chars = false → has_char c chars = true → has_char c s = false.
Proof.
  unfold ContainsAny. rewrite negb_false_iff. intros H Hc. apply (forall_chars_has_char _ _ _ H).
  clear s H. induction chars as [|d chars IH]; [done|]. cbn [has_char] in Hc. cbn [forall_chars].
  destruct (Ascii.eqb_spec d c) as [->|]; [by rewrite Ascii.eqb_refl|]. by rewrite IH, andb_false_r.
Qed.

Lemma substring_app y z : String.substring 0 (String.length y) (y +:+ z) = y.
Proof.
  induction y as [|c y IH]; [by destruct z|]. rewrite string_cons_app. cbn [String.length String.substring]. by rewrite IH.
Qed.

Lemma quoted_text g : 1 < String.length g → HasPrefix g double_quote = true → HasSuffix g double_quote = true →
  g = String quote_char (String.substring 1 (String.length g - 2) g +:+ String quote_char "").
Proof.
  unfold HasSuffix, HasPrefix. intros Hl Hp Hs. destruct (CutPrefix double_quote g) as [t|] eqn:E; [|done].
  destruct (CutPrefix (string_rev double_quote) (string_rev g)) as [u|] eqn:E'; [|done].
  apply CutPrefix_app in E. apply CutPrefix_app in E'. change (string_rev double_quote) with (String quote_char "") in E'.
  change double_quote with (String quote_char "") in E. rewrite string_cons_app in E, E'.
  assert (g = string_rev u +:+ String quote_char "") as Hg.
  { transitivity (string_rev (string_rev g)); [by rewrite string_rev_involutive|]. rewrite E'. apply string_rev_cons. }
  destruct (string_rev u) as [|c y]; [rewrite Hg in Hl; change (1 < 1) in Hl; lia|]. rewrite Hg in E. rewrite string_cons_app in E. injection E as -> _.
  rewrite Hg. f_equal. rewrite string_cons_app. cbn [String.length String.substring].
  rewrite string_length_app. cbn [String.length]. replace (S (String.length y + 1) - 2) with (String.length y) by lia.
  by rewrite substring_app.
Qed.

(** A valid group is a name, or a name in quotes. *)
Lemma group_valid_text group : group_valid group = true → TrimSpace group = group →
  has_char newline (group_name group) = false ∧ has_char quote_char (group_name group) = false ∧
  (group = group_name group ∧ has_char comma group = false ∨
   group = String quote_char (group_name group +:+ String quote_char "")).
Proof.
  intros Hv Ht. unfold group_valid, group_name in *. rewrite Ht in Hv. destruct (unquote_group group) as [name|] eqn:E; [|done].
  rewrite !andb_true_iff in Hv. destruct Hv as [[[_ Hc%negb_true_iff] _] _]. split_and!; [by eapply ContainsAny_char..|].
  cbn [default from_option id]. unfold unquote_group in E. destruct (_ && _) eqn:Eq; [|destruct (Contains group ",") eqn:E'; [done|]].
  - right. injection E as <-. rewrite !andb_true_iff in Eq. destruct Eq as [[Hl Hp] Hs]. apply Nat.ltb_lt in Hl.
    by apply quoted_text.
  - left. injection E as ->. split; [done|]. by rewrite <-Contains_char.
Qed.

Definition no_outer_space (group : string) : Prop := starts_with_space group = false ∧ ends_with_space group = false.

Lemma trim_left_none encs s : cut_any encs s = None → trim_left encs s = s.
Proof. intros H. unfold trim_left. destruct (String.length s); [done|]. cbn [trim_left_fuel]. by rewrite H. Qed.

Lemma no_outer_space_trim g : no_outer_space g → trim_lead g = g ∧ trim_trail g = g.
Proof.
  unfold no_outer_space, starts_with_space, ends_with_space, trim_lead, trim_trail. intros [Hs He]. split.
  - apply trim_left_none. by destruct (cut_any space_encodings g).
  - rewrite trim_left_none; [apply string_rev_involutive|]. by destruct (cut_any _ (string_rev g)).
Qed.

Definition group_rule (proj role group : string) : list string := [group_name group; role_subject proj role].

Lemma loadPolicyLine_g t m : loadPolicyLine ("g" +:+ t) m = csv_Read ("g" +:+ t) ≫= λ tokens, load_rule tokens m.
Proof. done. Qed.

Lemma load_group proj role group m :
  plain_name proj → plain_name role → group_valid group = true → no_outer_space group →
  load_text ("g, " +:+ group +:+ ", proj:" +:+ proj +:+ ":" +:+ role) m = Some (add_g m (group_rule proj role group)).
Proof.
  intros Hp Hr Hg Hs. pose proof (role_subject_plain proj role Hp Hr) as Hsub. unfold group_rule.
  apply no_outer_space_trim in Hs as [Hl Ht]. apply group_valid_text in Hg as (Hnl & Hq & Hg); [|by rewrite TrimSpace_trim, Hl].
  assert ("g, " +:+ group +:+ ", proj:" +:+ proj +:+ ":" +:+ role =
    String "g" (String comma (" " +:+ (group +:+ String comma (" " +:+ role_subject proj role))))) as ->.
  { unfold role_subject. by repeat rewrite <-?string_app_assoc, ?string_cons_app. }
  assert (has_char newline group = false) as Hgn.
  { destruct Hg as [[-> _]| ->]; [done|]. chars. by rewrite Hnl. }
  rewrite load_text_line; [|chars; by rewrite Hgn, (no_newline_name _ Hsub)].
  rewrite TrimSpace_trim. change (String "g" (String comma ?s)) with ("g" +:+ String comma s). rewrite trim_lead_name by done.
  rewrite trim_trail_comma, (string_app_assoc " " group), trim_trail_comma, (trim_trail_last " ") by done. rewrite <-string_app_assoc.
  rewrite loadPolicyLine_g.
  assert (csv_Read (" " +:+ (group +:+ String comma (" " +:+ role_subject proj role))) = Some [group_name group; role_subject proj role]) as Hcsv.
  { destruct Hg as [[Hg Hc]|Hg].
    - rewrite string_app_assoc, csv_Read_cons, trim_lead_space, Hl.
      + rewrite csv_Read_name_last by done. cbn. by rewrite <-Hg.
      + by rewrite has_char_app, Hc.
      + rewrite trim_lead_space, Hl, Hg. done.
    - rewrite Hg at 1. rewrite (string_cons_app quote_char), <-(string_app_assoc (group_name group)), (string_cons_app quote_char "").
      change ("" +:+ ?s) with s. rewrite csv_Read_quoted by done. by rewrite csv_Read_name_last. }
  rewrite csv_Read_cons, Hcsv by done. cbn [fmap option_fmap option_map mbind option_bind].
  change (trim_lead "g") with "g". by rewrite load_rule_g.
Qed.

(** What a policy of a role states; its action may be written in quotes. *)
Definition policy_states (proj role policy : string) (rule : list string) : Prop :=
  ∃ res act obj eff act', policy_fields policy = ["p"; role_subject proj role; res; act; obj; eff] ∧
    rule = [role_subject proj role; res; act'; obj; eff] ∧ (has_char quote_char act = false → act' = trim_lead act).

Lemma load_policy proj role policy m m' :
  plain_name proj → plain_name role → policy_valid proj role policy = true → normalizePolicy policy = policy →
  load_text policy m = Some m' → ∃ rule, policy_states proj role policy rule ∧ m' = add_p m rule.
Proof.
  intros Hp Hr Hv Hn Hm. destruct (policy_valid_text _ _ _ Hp Hv Hn) as (n & k & res & act & obj & eff & Hf & Ht & Ha & Hres & Hobj & Heff).
  rewrite Ht in Hm. apply load_policy_text in Hm as (act' & -> & Hact'); [|by (try apply role_subject_plain)..].
  eexists. split; [|done]. by exists res, act, obj, eff, act'.
Qed.

(** *** A role *)

Definition own_rule (proj role : string) : list string := [role_subject proj role; "projects"; "get"; proj; "allow"].

Definition role_states (proj : string) (r : ProjectRole) (rules : list (list string)) : Prop :=
  ∃ l, Forall2 (policy_states proj (RoleName r)) (Policies r) l ∧ rules = own_rule proj (RoleName r) :: l.

Definition role_lines (proj : string) (r : ProjectRole) : list string :=
  ("p, proj:" +:+ proj +:+ ":" +:+ RoleName r +:+ ", projects, get, " +:+ proj +:+ ", allow")
  :: Policies r ++ ((λ group, "g, " +:+ group +:+ ", proj:" +:+ proj +:+ ":" +:+ RoleName r) <$> Groups r).

Definition role_groups (proj : string) (r : ProjectRole) : list (list string) := group_rule proj (RoleName r) <$> Groups r.

Definition add_rules (m : policies) (ps gs : list (list string)) : policies :=
  {| p_rules := p_rules m ++ ps; g_rules := g_rules m ++ gs |}.

Lemma add_rules_app m p1 g1 p2 g2 : add_rules (add_rules m p1 g1) p2 g2 = add_rules m (p1 ++ p2) (g1 ++ g2).
Proof. unfold add_rules. cbn. by rewrite !app_assoc. Qed.

Lemma foldl_add_p m l : foldl add_p m l = add_rules m l [].
Proof.
  revert m. induction l as [|x l IH]; intros m; cbn [foldl]; [destruct m; unfold add_rules; cbn; by rewrite !app_nil_r|].
  rewrite IH. change (add_p m x) with ({| p_rules := p_rules m ++ [x]; g_rules := g_rules m |}). unfold add_rules. cbn. by rewrite <-app_assoc.
Qed.

Lemma load_own proj role m : plain_name proj → plain_name role →
  load_text ("p, proj:" +:+ proj +:+ ":" +:+ role +:+ ", projects, get, " +:+ proj +:+ ", allow") m =
  Some (add_rules m [own_rule proj role] []).
Proof.
  intros Hp Hr. pose proof (load_policy_ok 0 (role_subject proj role) "projects" "get" proj "allow" m) as H.
  assert ("p, proj:" +:+ proj +:+ ":" +:+ role +:+ ", projects, get, " +:+ proj +:+ ", allow" =
    policy_text (blanks 0 +:+ ("p" +:+ blanks 0)) (role_subject proj role) "projects" "get" proj "allow") as ->.
  { unfold policy_text, role_subject. by repeat rewrite <-?string_app_assoc, ?string_cons_app. }
  rewrite H; [|by (try apply role_subject_plain)..]. f_equal. unfold add_p, add_rules, own_rule. by rewrite app_nil_r.
Qed.

Definition groups_trimmed (r : ProjectRole) : Prop := ∀ g, g ∈ Groups r → no_outer_space g.

Lemma load_groups proj role gs m :
  plain_name proj → plain_name role → (∀ g, g ∈ gs → group_valid g = true ∧ no_outer_space g) →
  load_texts ((λ group, "g, " +:+ group +:+ ", proj:" +:+ proj +:+ ":" +:+ role) <$> gs) m =
  Some (add_rules m [] (group_rule proj role <$> gs)).
Proof.
  intros Hp Hr. revert m. induction gs as [|g gs IH]; intros m Hg.
  { cbn. destruct m. unfold add_rules. cbn. by rewrite !app_nil_r. }
  rewrite !fmap_cons. cbn [load_texts]. destruct (Hg g) as [Hv Hs]; [by left|]. rewrite load_group by done.
  cbn [mbind option_bind]. rewrite IH by (intros; apply Hg; by right). f_equal. unfold add_rules, add_g. cbn. by rewrite <-app_assoc.
Qed.

Lemma normal_policy (l : list string) p : normalizePolicy <$> l = l → p ∈ l → normalizePolicy p = p.
Proof.
  intros Hn Hin. induction l as [|q qs IH]; [by apply elem_of_nil in Hin|]. cbn in Hn. injection Hn as Hq Hqs.
  apply elem_of_cons in Hin as [->|Hin]; [done|by apply IH].
Qed.

Lemma load_role proj r m m' :
  plain_name proj → role_valid proj r → normalizePolicy <$> Policies r = Policies r → groups_trimmed r →
  load_texts (role_lines proj r) m = Some m' →
  ∃ rules, role_states proj r rules ∧ m' = add_rules m rules (role_groups proj r).
Proof.
  intros Hp Hr Hn Hg. pose proof (role_name_plain _ (rv_name _ _ Hr)) as Hrole. unfold role_lines. cbn [load_texts].
  rewrite load_own by done. cbn [mbind option_bind]. rewrite load_texts_app.
  destruct (load_texts (Policies r) _) as [m1|] eqn:E; [|done]. cbn [mbind option_bind].
  assert (∀ g, g ∈ Groups r → group_valid g = true ∧ no_outer_space g) as Hgs.
  { intros g H. split; [exact (rv_groups _ _ Hr g H)|exact (Hg g H)]. }
  rewrite load_groups by done. intros [= <-].
  apply (load_texts_adds add_p (policy_states proj (RoleName r))) in E as (l & Hl & ->).
  - exists (own_rule proj (RoleName r) :: l). split; [by exists l|]. rewrite foldl_add_p, !add_rules_app. cbn. by rewrite app_nil_r.
  - intros p m0 m2 Hin. apply load_policy; [done|done|by eapply rv_policies|by eapply normal_policy].
Qed.
