(* ===== verification/RbacProofs.v ===== *)
(** * Role-based access control: what is allowed

    Every request is answered as the policies say that are in force at that time, whatever
    was loaded and cached before; and the policy of a project gives rights to nobody but
    those who hold one of its roles. *)

From S2P Require Import Prelude GoStd GoMatch GoTime AppTypes Glob Windows Project ProjectRules Rbac RbacPolicies.
From Stdlib Require Import Ascii.
Local Open Scope string_scope.
Local Open Scope list_scope.
Local Open Scope nat_scope.

(** ** The policy of a project is read back *)

Lemma normal_policies proj r : NormalizePolicies proj = proj → r ∈ Roles proj → normalizePolicy <$> Policies r = Policies r.
Proof.
  intros Hn Hr. assert (Roles (NormalizePolicies proj) = Roles proj) as H by by rewrite Hn.
  unfold NormalizePolicies in H. destruct proj; cbn in *. clear Hn. induction Roles as [|q l IH]; [by apply elem_of_nil in Hr|].
  cbn in H. injection H as Hq Hl. apply elem_of_cons in Hr as [->|Hr]; [|by apply IH]. by destruct q; cbn in *; simplify_eq/=.
Qed.

(** Policies that are taken as they are *)
Definition plain_policy (policy : string) : Prop :=
  HasPrefix policy "p," = true ∧ has_char newline policy = false ∧ has_char quote_char policy = false.

Lemma load_plain_policy proj role policy m :
  plain_name proj → plain_name role → policy_valid proj role policy = true → normalizePolicy policy = policy →
  plain_policy policy → is_Some (load_text policy m).
Proof.
  intros Hp Hr Hv Hn (Hpre & Hnl & Hq).
  destruct (policy_valid_text _ _ _ Hp Hv Hn) as (n & k & res & act & obj & eff & Hf & Ht & Ha & Hres & Hobj & Heff).
  assert (k = 0) as ->.
  { rewrite Ht in Hpre. destruct n; [|done]. by destruct k. }
  rewrite Ht in Hnl, Hq. unfold policy_text in Hnl, Hq. rewrite !has_char_app in Hnl, Hq. cbn [has_char] in Hnl, Hq.
  rewrite !has_char_app in Hnl, Hq. cbn [has_char] in Hnl, Hq. rewrite !has_char_app in Hnl, Hq. cbn [has_char] in Hnl, Hq.
  rewrite !has_char_app in Hnl, Hq. rewrite !orb_false_iff in Hnl, Hq.
  rewrite Ht, load_policy_ok; [by eexists|by apply role_subject_plain|done|done|done|done|tauto|tauto].
Qed.

Lemma load_plain_policies proj role ps m :
  plain_name proj → plain_name role →
  (∀ p, p ∈ ps → policy_valid proj role p = true ∧ normalizePolicy p = p ∧ plain_policy p) → is_Some (load_texts ps m).
Proof.
  intros Hp Hr. revert m. induction ps as [|p ps IH]; intros m Hps; [by eexists|]. cbn [load_texts].
  destruct (Hps p) as (Hv & Hn & Hpl); [by left|].
  destruct (load_plain_policy _ _ _ m Hp Hr Hv Hn Hpl) as [m1 ->]. apply IH. intros q Hq. apply Hps. by right.
Qed.

Lemma load_plain_role proj r m :
  plain_name proj → role_valid proj r → normalizePolicy <$> Policies r = Policies r → groups_trimmed r →
  (∀ p, p ∈ Policies r → plain_policy p) → is_Some (load_texts (role_lines proj r) m).
Proof.
  intros Hp Hr Hn Hg Hpl. pose proof (role_name_plain _ (rv_name _ _ Hr)) as Hrole. unfold role_lines. cbn [load_texts].
  rewrite load_own by done. cbn [mbind option_bind]. rewrite load_texts_app.
  destruct (load_plain_policies proj (RoleName r) (Policies r) (add_rules m [own_rule proj (RoleName r)] [])) as [m1 ->]; [done..| |].
  - intros p Hin. split_and!; [by apply (rv_policies _ _ Hr)| |by apply Hpl].
    by eapply normal_policy.
  - cbn [mbind option_bind]. rewrite load_groups; [by eexists|done|done|].
    intros g H. split; [exact (rv_groups _ _ Hr g H)|exact (Hg g H)].
Qed.

Record loadable_project (proj : AppProject) : Prop := {
  lp_name : plain_name (ProjName proj);
  lp_roles : ∀ r, r ∈ Roles proj → role_valid (ProjName proj) r;
  lp_groups : ∀ r, r ∈ Roles proj → groups_trimmed r;
  lp_normal : NormalizePolicies proj = proj;
}.

Lemma load_roles proj roles m m' :
  plain_name proj →
  (∀ r, r ∈ roles → role_valid proj r ∧ groups_trimmed r ∧ normalizePolicy <$> Policies r = Policies r) →
  load_texts (roles ≫= role_lines proj) m = Some m' →
  ∃ rules, Forall2 (role_states proj) roles rules ∧ m' = add_rules m (mjoin rules) (roles ≫= role_groups proj).
Proof.
  intros Hp. revert m. induction roles as [|r roles IH]; intros m Hr.
  { intros [= <-]. exists []. split; [constructor|]. destruct m. unfold add_rules. cbn. by rewrite !app_nil_r. }
  rewrite !bind_cons, load_texts_app. destruct (load_texts (role_lines proj r) m) as [m1|] eqn:E; [|done]. cbn [mbind option_bind].
  intros H. destruct (Hr r) as (Hv & Hg & Hn); [by left|]. apply load_role in E as (rules1 & Hst & ->); [|done..].
  apply IH in H as (rules & Hrs & ->); [|intros; apply Hr; by right].
  exists (rules1 :: rules). split; [by constructor|]. by rewrite add_rules_app.
Qed.

Lemma load_project proj m :
  load_text (ProjectPoliciesString proj) m = load_texts (Roles proj ≫= role_lines (ProjName proj)) m.
Proof. apply load_text_Join. Qed.

(** C12. The policy text that the code makes of a project is read back as the project states
    it: if it is accepted, it adds one rule for each role that shows the project, one rule for
    each policy with the components of the policy, and one grouping rule for each group with
    the name of the group, without its quotes if it has some; nothing in a name, an action, an
    object or a group makes a line that adds another rule.  And it is accepted if the policies
    start with p and have no newlines and no quotes. *)
Theorem project_policies_loaded proj m :
  loadable_project proj →
  (∀ m', load_text (ProjectPoliciesString proj) m = Some m' →
    ∃ rules, Forall2 (role_states (ProjName proj)) (Roles proj) rules ∧
      m' = add_rules m (mjoin rules) (Roles proj ≫= role_groups (ProjName proj))) ∧
  ((∀ r p, r ∈ Roles proj → p ∈ Policies r → plain_policy p) → is_Some (load_text (ProjectPoliciesString proj) m)).
Proof.
  intros [Hp Hr Hg Hn].
  pose proof (load_project proj) as Ht.
  split.
  - intros m'. rewrite Ht. apply load_roles; [done|]. intros r Hin. split_and!; [by apply Hr|by apply Hg|by apply normal_policies with proj].
  - intros Hpl. rewrite Ht. assert (∀ r, r ∈ Roles proj → normalizePolicy <$> Policies r = Policies r) as Hn'.
    { intros r Hin. by apply normal_policies with proj. }
    clear Ht Hn. revert m. induction (Roles proj) as [|r roles IH]; intros m; [by eexists|].
    rewrite bind_cons, load_texts_app.
    destruct (load_plain_role (ProjName proj) r m) as [m1 ->]; [done|by apply Hr; left|by apply Hn'; left|by apply Hg; left|
      intros p; apply Hpl; by left|]. apply IH; intros; [apply Hr|apply Hg|eapply Hpl|apply Hn']; try by right. done.
Qed.

(** ** Requests and the cache *)

Section requests.
Context {GL : GlobLib} {CB : Casbin}.

(** The configuration of an enforcer: everything but its cache *)
Definition same (s s' : Enforcer) : Prop := s' = set_cache (enforcerCache s') s.

(** Every loaded enforcer is the one that loading its policy now gives. *)
Definition cache_current (s : Enforcer) : Prop := ∀ project e policy, enforcerCache s !! project = Some (e, policy) → fresh s policy = Some e.

Lemma same_refl s : same s s.
Proof. by destruct s. Qed.

Lemma same_trans s1 s2 s3 : same s1 s2 → same s2 s3 → same s1 s3.
Proof. unfold same. intros -> ->. done. Qed.

Lemma same_fresh s s' policy : same s s' → fresh s' policy = fresh s policy.
Proof. by intros ->. Qed.

(** A computation has a result in every state with this configuration, and keeps both. *)
Definition returns {A} (s : Enforcer) (m : M A) (r : option A) : Prop :=
  ∀ s', same s s' → cache_current s' → ∃ s'', m s' = (r, s'') ∧ same s s'' ∧ cache_current s''.

Lemma returns_ret {A} s (a : A) : returns s (ret a) (Some a).
Proof. intros s' Hs Hc. by exists s'. Qed.

Lemma returns_bind {A B} s (m : M A) (f : A → M B) a r : returns s m (Some a) → returns s (f a) r → returns s (bind m f) r.
Proof.
  intros Hm Hf s' Hs Hc. destruct (Hm s' Hs Hc) as (s1 & E & Hs1 & Hc1). unfold bind. rewrite E. by apply Hf.
Qed.

Lemma returns_panic {A B} s (m : M A) (f : A → M B) : returns s m None → returns s (bind m f) None.
Proof.
  intros Hm s' Hs Hc. destruct (Hm s' Hs Hc) as (s1 & E & Hs1 & Hc1). unfold bind. rewrite E. by exists s1.
Qed.

(** Choosing by a result, as in [if ok { return true }] *)
Lemma returns_or s (m k : M bool) a b : returns s m (Some a) → returns s k (Some b) →
  returns s (bind m (λ ok, if ok : bool then ret true else k)) (Some (a || b)).
Proof. intros Hm Hk. apply returns_bind with a; [done|]. destruct a; [apply returns_ret|done]. Qed.

Lemma returns_getCasbinEnforcer s project policy : returns s (getCasbinEnforcer project policy) (fresh s policy).
Proof.
  intros s' Hs Hc. unfold getCasbinEnforcer, tryGetCasbinEnforcer. rewrite (same_fresh s s') by done.
  assert (∀ e, fresh s policy = Some e →
    same s (set_cache (<[project:=(e, policy)]> (enforcerCache s')) s') ∧
    cache_current (set_cache (<[project:=(e, policy)]> (enforcerCache s')) s')) as Hadd.
  { intros e He. split; [by apply same_trans with s'|]. intros k e' p. cbn. change (fresh (set_cache _ s') p) with (fresh s' p).
    destruct (decide (k = project)) as [->|Hk].
    - rewrite lookup_insert_eq. intros [= <- <-]. by rewrite (same_fresh s s').
    - rewrite lookup_insert_ne by done. apply Hc. }
  destruct (enforcerCache s' !! project) as [[e p]|] eqn:E; [destruct (String.eqb_spec p policy) as [->|]|].
  - apply Hc in E. rewrite (same_fresh s s') in E by done. rewrite E. by exists s'.
  - destruct (fresh s policy) as [e'|]; [|by exists s']. destruct (Hadd e'); [done|]. by eexists.
  - destruct (fresh s policy) as [e'|]; [|by exists s']. destruct (Hadd e'); [done|]. by eexists.
Qed.

(** *** What the policies answer *)

(** The answer for a subject, and for the default role *)
Definition answer (s : Enforcer) (e : casbin_enforcer) (subject : string) (rest : list rval) : bool :=
  (negb (String.eqb (defaultRole s) "") && granted e (VText (defaultRole s) :: rest)) || granted e (VText subject :: rest).

Definition heads_rule (e : casbin_enforcer) (group : string) : bool :=
  match GetGroupingPolicy e with Some l => existsb (λ rule, bool_decide (head rule = Some group)) l | None => false end.

Lemma returns_custom s f e subject rest :
  rest ≠ [] → returns s (EnforceWithCustomEnforcer f e (VText subject :: rest)) (Some (answer s e subject rest)).
Proof.
  intros Hr s' Hs Hc. exists s'. split; [|done]. unfold EnforceWithCustomEnforcer, enforce, answer.
  assert (defaultRole s' = defaultRole s) as -> by by rewrite Hs.
  assert (Nat.leb 2 (length (VText subject :: rest)) = true) as -> by by destruct rest.
  cbn [drop]. rewrite andb_true_r. destruct (negb _ && granted e _); done.
Qed.

Lemma returns_groups s self e l groups rest :
  rest ≠ [] → GetGroupingPolicy e = Some l →
  returns s (enforce_groups self e l groups rest) (Some (existsb (λ g, heads_rule e g && answer s e g rest) groups)).
Proof.
  intros Hr Hl. induction groups as [|g groups IH]; [apply returns_ret|]. cbn [enforce_groups existsb].
  unfold heads_rule at 1. rewrite Hl. destruct (existsb _ l); [|done]. apply returns_or; [by apply returns_custom|done].
Qed.

Definition user_answer (s : Enforcer) (e : casbin_enforcer) (subject : string) (c : claim_map) (rest : list rval) : bool :=
  answer s e subject rest || existsb (λ g, heads_rule e g && answer s e g rest) (GetScopeValues c (GetScopes s)).

Lemma returns_user s self subject project policy c sub rest e :
  rest ≠ [] → fresh s policy = Some e →
  returns s (enforce_user self subject project policy c (sub :: rest)) (Some (user_answer s e subject c rest)).
Proof.
  intros Hr He. unfold enforce_user. apply returns_bind with e; [rewrite <-He; apply returns_getCasbinEnforcer|].
  cbn [drop]. apply returns_or; [by apply returns_custom|].
  destruct (GetGroupingPolicy e) as [l|] eqn:E.
  - intros s' Hs Hc. assert (GetScopes s' = GetScopes s) as -> by by rewrite Hs. by apply (returns_groups s self e l).
  - intros s' Hs Hc. exists s'. split; [|done].
    assert (existsb (λ g, heads_rule e g && answer s e g rest) (GetScopeValues c (GetScopes s)) = false) as ->; [|done].
    apply not_true_is_false. rewrite existsb_exists. intros (g & _ & Hg). unfold heads_rule in Hg. by rewrite E in Hg.
Qed.

(** A policy of a project never makes a request panic: the others stay in force. *)
Lemma fresh_some s policy : is_Some (fresh s "") → is_Some (fresh s policy).
Proof.
  unfold fresh. rewrite String.eqb_refl. rewrite !fmap_is_Some. intros H. destruct (String.eqb policy ""); [done|].
  destruct (newEnforcerSafe _ (with_runtime _ _)); [by eexists|done].
Qed.

Definition request (sub : rval) (res act obj : string) : list rval := [sub; VText res; VText act; VText obj].

(** Whether a request of these claims is granted, as one pure function of the configuration *)
Definition claims_answer (projects : gmap string AppProject) (s : Enforcer) (c : claim_map) (rvals : list rval) : bool :=
  let subject := GetUserIdentifier c in
  let asked (policy : string) (f : casbin_enforcer → bool) := match fresh s policy with Some e => f e | None => false end in
  match getProjectFromRequest projects rvals with
  | Some p =>
      if IsProjectSubject subject then
        match GetProjectRoleFromSubject subject with
        | Some (name, _) =>
            String.eqb name (ProjName p) && asked (ProjectPoliciesString p) (λ e, answer s e subject (drop 1 rvals))
        | None => false
        end
      else asked (ProjectPoliciesString p) (λ e, user_answer s e subject c (drop 1 rvals))
  | None => asked "" (λ e, user_answer s e subject c (drop 1 rvals))
  end.

Lemma returns_claims projects self s c sub rest :
  rest ≠ [] → is_Some (fresh s "") →
  returns s (EnforceClaims projects self (Some c) (sub :: rest)) (Some (claims_answer projects s c (sub :: rest))).
Proof.
  intros Hr Hf. unfold EnforceClaims, claims_answer. cbn [drop].
  destruct (getProjectFromRequest projects (sub :: rest)) as [p|] eqn:Ep.
  - destruct (fresh_some s (ProjectPoliciesString p) Hf) as [e He].
    destruct (IsProjectSubject (GetUserIdentifier c)) eqn:Ei; [|rewrite He; by apply returns_user].
    unfold IsProjectSubject, GetProjectRoleFromSubject in *. unfold enforceProjectToken.
    destruct (Split (GetUserIdentifier c) ":") as [|a [|name [|role [|? ?]]]]; try done.
    destruct (String.eqb a "proj"); [|done]. destruct (String.eqb name (ProjName p)); [|apply returns_ret].
    rewrite He. cbn [andb]. unfold EnforceRuntimePolicy. apply returns_bind with e; [rewrite <-He; apply returns_getCasbinEnforcer|].
    by apply returns_custom.
  - destruct Hf as [e He]. rewrite He. by apply returns_user.
Qed.

Definition server_answer (projects : gmap string AppProject) (s : Enforcer) (e : casbin_enforcer) (claims : jwt_claims) (rvals : list rval) : bool :=
  (negb (String.eqb (defaultRole s) "") && granted e (VText (defaultRole s) :: drop 1 rvals)) ||
  (match claims with Some c => claims_answer projects s c rvals | None => false end || granted e (VText "" :: drop 1 rvals)).

Lemma returns_server projects s claims rest :
  rest ≠ [] →
  returns s (server_Enforce projects (VClaims claims :: rest))
    ((λ e, server_answer projects s e claims (VClaims claims :: rest)) <$> fresh s "").
Proof.
  intros Hr. unfold server_Enforce, Enforce. destruct (fresh s "") as [e|] eqn:E.
  - apply returns_bind with e; [rewrite <-E; apply returns_getCasbinEnforcer|]. cbn [fmap option_fmap option_map].
    intros s' Hs Hc. unfold EnforceWithCustomEnforcer, enforce, server_answer. cbn [drop].
    assert (defaultRole s' = defaultRole s) as -> by by rewrite Hs.
    assert (Nat.leb 2 (length (VClaims claims :: rest)) = true) as -> by by destruct rest.
    rewrite andb_true_r. destruct (negb _ && granted e _); [by exists s'|]. cbn [orb]. revert s' Hs Hc.
    change (returns s (bind (EnforceClaims projects None claims (VClaims claims :: rest))
      (λ ok : bool, if ok then ret true else ret (granted e (VText "" :: rest))))
      (Some (match claims with Some c => claims_answer projects s c (VClaims claims :: rest) | None => false end
             || granted e (VText "" :: rest)))).
    destruct claims as [c|]; (apply returns_or; [|apply returns_ret]).
    + by apply returns_claims.
    + apply returns_ret.
  - apply returns_panic. rewrite <-E. apply returns_getCasbinEnforcer.
Qed.
End requests.

(** ** What the enforcer goes through *)

Section runs.
Context {GL : GlobLib} {CB : Casbin} (unmarshal : string → option (list string)).

(** A new version of the config map, the calls at the start of the server, entries that
    leave the cache, requests *)
Inductive rbac_op :=
  | OpSync (cm : gmap string string)
  | OpBuiltinPolicy (policy : string)
  | OpUserPolicy (policy : string)
  | OpEnable (b : bool)
  | OpExpire (keys : gset string)
  | OpRequest (projects : gmap string AppProject) (claims : jwt_claims) (res act obj : string).

Definition rbac_step (s : Enforcer) (op : rbac_op) : Enforcer :=
  match op with
  | OpSync cm => (syncUpdate unmarshal cm s).2
  | OpBuiltinPolicy policy => (SetBuiltinPolicy policy s).2
  | OpUserPolicy policy => (SetUserPolicy policy s).2
  | OpEnable b => (EnableEnforce b s).2
  | OpExpire keys => set_cache (filter (λ entry, entry.1 ∉ keys) (enforcerCache s)) s
  | OpRequest projects claims res act obj => (server_Enforce projects (request (VClaims claims) res act obj) s).2
  end.

Definition rbac_run (ops : list rbac_op) : Enforcer := foldl rbac_step NewEnforcer ops.

Definition enforcer_ok (s : Enforcer) : Prop := cache_current s ∧ runtimePolicy (adapter s) = "".

Lemma returns_ok {A} s (m : M A) r : returns s m r → enforcer_ok s → enforcer_ok (m s).2.
Proof.
  intros Hm [Hc Hr]. destruct (Hm s (same_refl s) Hc) as (s' & E & Hs & Hc'). rewrite E. split; [done|]. by rewrite Hs.
Qed.

Lemma flushed_ok s : runtimePolicy (adapter s) = "" → enforcer_ok (set_cache ∅ s).
Proof. intros Hr. split; [|done]. intros k e p. cbn. by rewrite lookup_empty. Qed.

Lemma load_ok s : enforcer_ok s → enforcer_ok (Enforcer_LoadPolicy s).2.
Proof.
  intros Hs. unfold Enforcer_LoadPolicy. pose proof (returns_ok s _ _ (returns_getCasbinEnforcer s "" "") Hs) as H.
  unfold getCasbinEnforcer in H. unfold mbind, st_bind. by destruct (tryGetCasbinEnforcer "" "" s).
Qed.

Lemma SetUserPolicy_ok policy s : enforcer_ok s → enforcer_ok (SetUserPolicy policy s).2.
Proof. intros [_ Hr]. unfold SetUserPolicy. by apply load_ok, flushed_ok. Qed.

Lemma SetBuiltinPolicy_ok policy s : enforcer_ok s → enforcer_ok (SetBuiltinPolicy policy s).2.
Proof. intros [_ Hr]. unfold SetBuiltinPolicy. by apply load_ok, flushed_ok. Qed.

Lemma syncUpdate_ok cm s : enforcer_ok s → enforcer_ok (syncUpdate unmarshal cm s).2.
Proof.
  intros [_ Hr]. set (role := default "" (cm !! ConfigMapPolicyDefaultKey)). set (m := default "" (cm !! ConfigMapMatchModeKey)).
  assert (∃ s1 ok, enforcer_ok s1 ∧ syncUpdate unmarshal cm s = (if ok : bool then SetUserPolicy (PolicyCSV cm) s1 else (false, s1)))
    as (s1 & ok & Hok & ->).
  { pose (s0 := (SetMatchMode m (SetDefaultRole role s).2).2). assert (enforcer_ok s0) as H0 by by apply flushed_ok.
    assert (∀ l, enforcer_ok (SetScopes l s0)) as Hl by by intros l; apply flushed_ok.
    unfold syncUpdate, on_updated. fold role m.
    destruct (default "" (cm !! ConfigMapScopesKey)) as [|c t]; [by exists (SetScopes None s0), true|].
    cbv beta iota. destruct (unmarshal (String c t)) as [l|] eqn:E.
    - exists (SetScopes (Some l) s0), true. split; [done|]. done.
    - exists s0, false. split; [done|]. done. }
  destruct ok; [by apply SetUserPolicy_ok|done].
Qed.

Lemma rbac_step_ok s op : enforcer_ok s → enforcer_ok (rbac_step s op).
Proof.
  intros Hs. destruct op; cbn [rbac_step].
  - by apply syncUpdate_ok.
  - by apply SetBuiltinPolicy_ok.
  - by apply SetUserPolicy_ok.
  - destruct Hs as [_ Hr]. by apply flushed_ok.
  - destruct Hs as [Hc Hr]. split; [|done]. intros k e p. cbn. intros [H _]%map_lookup_filter_Some. by apply Hc in H.
  - unfold request. eapply returns_ok; [by apply returns_server|done].
Qed.

Lemma rbac_run_ok ops : enforcer_ok (rbac_run ops).
Proof.
  unfold rbac_run. assert (enforcer_ok NewEnforcer) as H.
  { split; [|done]. intros k e p. cbn. by rewrite lookup_empty. }
  revert H. generalize NewEnforcer. induction ops as [|op ops IH]; intros s Hs; [done|]. cbn [foldl]. by apply IH, rbac_step_ok.
Qed.

(** *** What the policies say *)

Section says.
Context (projects : gmap string AppProject) (s : Enforcer).

(** The policies in force with a policy of a project (or none) give the right to a subject. *)
Definition may (policy subject : string) (rest : list rval) : Prop :=
  ∃ e, fresh s policy = Some e ∧ granted e (VText subject :: rest) = true.

Definition may_default (policy : string) (rest : list rval) : Prop := defaultRole s ≠ "" ∧ may policy (defaultRole s) rest.

(** Groups count only if a grouping rule starts with them. *)
Definition may_group (policy : string) (c : claim_map) (rest : list rval) : Prop :=
  ∃ group e, group ∈ GetScopeValues c (GetScopes s) ∧ fresh s policy = Some e ∧ heads_rule e group = true ∧ may policy group rest.

(** The policy of the project of the request counts; tokens of a project only in their
    project, and without groups. *)
Definition claims_may (c : claim_map) (rvals : list rval) : Prop :=
  let subject := GetUserIdentifier c in
  let rest := drop 1 rvals in
  match getProjectFromRequest projects rvals with
  | None => may_default "" rest ∨ may "" subject rest ∨ may_group "" c rest
  | Some p =>
      let policy := ProjectPoliciesString p in
      match GetProjectRoleFromSubject subject with
      | Some (name, _) => name = ProjName p ∧ (may_default policy rest ∨ may policy subject rest)
      | None => may_default policy rest ∨ may policy subject rest ∨ may_group policy c rest
      end
  end.

Definition allowed (claims : jwt_claims) (rvals : list rval) : Prop :=
  may_default "" (drop 1 rvals) ∨ may "" "" (drop 1 rvals) ∨ ∃ c, claims = Some c ∧ claims_may c rvals.

Lemma may_iff policy subject rest e : fresh s policy = Some e → may policy subject rest ↔ granted e (VText subject :: rest) = true.
Proof. intros He. unfold may. rewrite He. split; [by intros (? & [= <-] & ?)|by exists e]. Qed.

Lemma answer_iff policy e subject rest : fresh s policy = Some e →
  answer s e subject rest = true ↔ may_default policy rest ∨ may policy subject rest.
Proof.
  intros He. unfold answer, may_default. rewrite !(may_iff policy _ rest e) by done.
  by rewrite orb_true_iff, andb_true_iff, negb_true_iff, String.eqb_neq.
Qed.

Lemma user_answer_iff policy e subject c rest : fresh s policy = Some e →
  user_answer s e subject c rest = true ↔ may_default policy rest ∨ may policy subject rest ∨ may_group policy c rest.
Proof.
  intros He. unfold user_answer. rewrite orb_true_iff, (answer_iff policy) by done. rewrite existsb_exists. split.
  - intros [[?|?]|(g & Hin & [Hh Ha]%andb_true_iff)]; [auto..|]. apply (answer_iff policy) in Ha as [?|Ha]; [auto| |done].
    right; right. exists g, e. split_and!; [by apply list_elem_of_In|done..].
  - intros [?|[?|(g & e' & Hin & He' & Hh & Hm)]]; [auto..|]. simplify_eq. right. exists g. split; [by apply list_elem_of_In|].
    apply andb_true_iff. split; [done|]. apply (answer_iff policy); auto.
Qed.

Lemma claims_answer_iff c rvals : is_Some (fresh s "") → claims_answer projects s c rvals = true ↔ claims_may c rvals.
Proof.
  intros Hf. unfold claims_answer, claims_may. destruct (getProjectFromRequest projects rvals) as [p|].
  - destruct (fresh_some s (ProjectPoliciesString p) Hf) as [e He]. rewrite He. unfold IsProjectSubject.
    destruct (GetProjectRoleFromSubject (GetUserIdentifier c)) as [[name role]|].
    + cbn. by rewrite andb_true_iff, String.eqb_eq, (answer_iff (ProjectPoliciesString p)).
    + cbn. by apply user_answer_iff.
  - destruct Hf as [e He]. rewrite He. by apply user_answer_iff.
Qed.
End says.

(** C10. In every state that the enforcer of the API server goes through - new config maps,
    policies, requests for any projects, and loaded policies that expire - a request is
    answered by the policies in force now: it panics exactly if the built-in and the user
    policy cannot be loaded, and otherwise it is granted exactly if these policies give the
    right to the default role or to nobody in particular, or if the claims can be read and the
    policies together with that of the project of the request give it to the default role, to
    the user, or to a group of the user that starts a grouping rule; a token of a project has
    rights in its own project only, and none by groups.  The answer keeps the configuration. *)
Theorem Enforce_correct ops projects claims res act obj :
  let s := rbac_run ops in
  let rvals := request (VClaims claims) res act obj in
  let result := server_Enforce projects rvals s in
  (result.1 = None ↔ fresh s "" = None) ∧
  (is_Some (fresh s "") → ∃ b, result.1 = Some b ∧ (b = true ↔ allowed projects s claims rvals)) ∧
  same s result.2.
Proof.
  intros s rvals result. destruct (rbac_run_ok ops) as [Hc _].
  assert ([VText res; VText act; VText obj] ≠ []) as Hr by done.
  destruct (returns_server projects s claims [VText res; VText act; VText obj] Hr s (same_refl s) Hc) as (s' & E & Hs & _).
  unfold result, rvals, request. rewrite E. cbn [fst snd]. split_and!; [by destruct (fresh s "")| |done].
  intros [e He]. rewrite He. eexists. split; [done|]. unfold server_answer, allowed. cbn [drop].
  rewrite !orb_true_iff, andb_true_iff, negb_true_iff, String.eqb_neq. unfold may_default. rewrite !(may_iff s "" _ _ e) by done.
  destruct claims as [c|].
  - rewrite claims_answer_iff by by rewrite He. naive_solver.
  - naive_solver.
Qed.
End runs.

(** ** Rights by the policy of a project *)

Lemma reaches_0 g a b : reaches 0 g a b = String.eqb a b.
Proof. cbn. by destruct (String.eqb a b). Qed.

Lemma reaches_S n g a b :
  reaches (S n) g a b =
  String.eqb a b || existsb (λ rule, match rule with [x; y] => String.eqb x a && reaches n g y b | _ => false end) g.
Proof. done. Qed.

Lemma reaches_more n g gs a b : reaches n g a b = true → reaches n (g ++ gs) a b = true.
Proof.
  revert a. induction n as [|n IH]; intros a; [by rewrite !reaches_0|]. rewrite !reaches_S, !orb_true_iff. intros [?|H]; [by left|]. right.
  apply existsb_exists in H as (rule & Hin & H). apply existsb_exists. exists rule. split; [by apply in_or_app; left|].
  destruct rule as [|x [|y [|? ?]]]; try done. apply andb_true_iff in H as [Hx H]. by rewrite Hx, IH.
Qed.

(** A path through new grouping rules goes through what they lead to. *)
Lemma reaches_through n g gs a b (T : string → Prop) :
  (∀ rule, rule ∈ gs → ∃ x y, rule = [x; y] ∧ T y) → reaches n (g ++ gs) a b = true →
  reaches n g a b = true ∨ ∃ t, T t ∧ reaches n (g ++ gs) a t = true.
Proof.
  intros Hgs. revert a. induction n as [|n IH]; intros a; [rewrite !reaches_0; by left|].
  setoid_rewrite reaches_S. rewrite !orb_true_iff. intros [?|H]; [by left; left|].
  apply existsb_exists in H as (rule & Hin & H). destruct rule as [|x [|y [|? ?]]]; try done.
  apply andb_true_iff in H as [Hx H]. assert (∀ t, reaches n (g ++ gs) y t = true → reaches (S n) (g ++ gs) a t = true) as Hstep.
  { intros t Ht. rewrite reaches_S. apply orb_true_iff. right. apply existsb_exists. exists [x; y]. split; [done|]. by rewrite Hx, Ht. }
  apply in_app_or in Hin as [Hin|Hin].
  - apply IH in H as [H|(t & HT & H)]; [left; right|right; exists t; split; [done|]; exact (Hstep t H)].
    apply existsb_exists. exists [x; y]. split; [done|]. by rewrite Hx, H.
  - right. exists y. apply list_elem_of_In, Hgs in Hin as (x' & y' & [= <- <-] & HT). split; [done|]. apply Hstep. destruct n; cbn; by rewrite String.eqb_refl.
Qed.

(** The rules of a project: what its roles may do with its objects *)
Definition project_rule (proj : AppProject) (rule : list string) : Prop :=
  ∃ r, r ∈ Roles proj ∧
    (rule = own_rule (ProjName proj) (RoleName r) ∨
     ∃ res act obj eff, rule = [role_subject (ProjName proj) (RoleName r); res; act; obj; eff] ∧
       existsb (String.eqb res) ProjectScoped = true ∧ isValidObject (ProjName proj) obj = true).

Lemma policy_states_scoped proj role policy rule :
  policy_valid proj role policy = true → policy_states proj role policy rule →
  ∃ res act obj eff, rule = [role_subject proj role; res; act; obj; eff] ∧
    existsb (String.eqb res) ProjectScoped = true ∧ isValidObject proj obj = true.
Proof.
  intros Hv (res & act & obj & eff & act' & Hf & -> & _). unfold policy_valid in Hv. unfold policy_fields in Hf. rewrite Hf in Hv.
  rewrite !andb_true_iff in Hv. exists res, act', obj, eff. tauto.
Qed.

Lemma role_states_rules proj rules rule :
  loadable_project proj → Forall2 (role_states (ProjName proj)) (Roles proj) rules → rule ∈ mjoin rules → project_rule proj rule.
Proof.
  intros Hp Hst (rs & Hin & Hrs)%list_elem_of_join. apply list_elem_of_lookup in Hrs as [i Hi].
  destruct (Forall2_lookup_r _ _ _ _ _ Hst Hi) as (r & Hr & (l & Hl & ->)). apply list_elem_of_lookup_2 in Hr.
  exists r. split; [done|]. apply elem_of_cons in Hin as [->|Hin]; [by left|]. right.
  apply list_elem_of_lookup in Hin as [j Hj]. destruct (Forall2_lookup_r _ _ _ _ _ Hl Hj) as (p & Hpj & Hps).
  apply list_elem_of_lookup_2 in Hpj. eapply policy_states_scoped; [|done]. by eapply rv_policies; [apply (lp_roles _ Hp)|].
Qed.

Section rights.
Context {GL : GlobLib} {CB : Casbin}.

(** An enforcer with the rules of a project *)
Definition with_rules (e : casbin_enforcer) (ps gs : list (list string)) : casbin_enforcer :=
  {| rules := add_rules (rules e) ps gs; mode := mode e; checking := checking e |}.

Lemma fresh_rules s policy e e' :
  runtimePolicy (adapter s) = "" → fresh s "" = Some e → fresh s policy = Some e' →
  checking e = enabled s ∧ mode e = (if String.eqb (matchMode s) RegexMatchMode then MatchRegex else MatchGlob) ∧
  (e' = e ∨ ∃ m, load_text policy (rules e) = Some m ∧ e' = {| rules := m; mode := mode e; checking := checking e |}).
Proof.
  intros Hr. unfold fresh. rewrite String.eqb_refl. set (md := if String.eqb (matchMode s) _ then _ else _).
  destruct (newEnforcerSafe md (adapter s)) as [b|] eqn:E; [|done]. intros [= <-] He'. cbn [rules mode checking].
  unfold newEnforcerSafe in E. destruct (LoadPolicy (adapter s)) as [mb|] eqn:Em; [|done]. cbn [mbind option_bind] in E.
  destruct (accepts mb); [|done]. injection E as <-. cbn [rules mode] in *. split; [done|]. split; [done|].
  destruct (String.eqb policy ""); [left; by injection He' as <-|].
  unfold newEnforcerSafe, LoadPolicy, with_runtime in He'. cbn [builtinPolicy userDefinedPolicy runtimePolicy] in He'.
  unfold LoadPolicy in Em. rewrite Hr in Em. destruct (load_text (builtinPolicy (adapter s)) no_policies) as [m1|]; [|done].
  cbn [mbind option_bind] in *. destruct (load_text (userDefinedPolicy (adapter s)) m1) as [m2|]; [|done]. cbn [mbind option_bind] in *.
  injection Em as ->. destruct (load_text policy mb) as [m'|] eqn:El; [|left; by injection He' as <-]. cbn [mbind option_bind] in He'.
  destruct (accepts m'); [|left; by injection He' as <-]. right. exists m'. split; [done|]. by injection He' as <-.
Qed.

Definition grants (e : casbin_enforcer) (sub res act obj : string) : bool := granted e [VText sub; VText res; VText act; VText obj].

Lemma grants_model {CL : CasbinLaws} e sub res act obj :
  checking e = true → mode e = MatchGlob → grants e sub res act obj = model_Enforce e sub res act obj.
Proof.
  intros Hc Hm. unfold grants, granted. rewrite Enforce_model; [|done|].
  - apply eq_bool_prop_intro. rewrite bool_decide_spec. destruct (model_Enforce e sub res act obj); naive_solver.
  - intros ? ? ? ? ? _. unfold globOrRegexMatch. rewrite Hm. done.
Qed.

Definition reaches_in (e : casbin_enforcer) (a b : string) : bool := reaches max_hierarchy (g_rules (rules e)) a b.

(** Who holds a role of the project *)
Definition holds_role (e : casbin_enforcer) (proj : AppProject) (sub : string) : Prop :=
  ∃ r, r ∈ Roles proj ∧ reaches_in e sub (role_subject (ProjName proj) (RoleName r)) = true.

Section added.
Context (e : casbin_enforcer) (proj : AppProject) (ps gs : list (list string)) (sub res act obj : string)
  (Hps : ∀ rule, rule ∈ ps → project_rule proj rule)
  (Hgs : ∀ rule, rule ∈ gs → ∃ x r, r ∈ Roles proj ∧ rule = [x; role_subject (ProjName proj) (RoleName r)]).

Lemma reaches_base b : reaches_in (with_rules e ps gs) sub b = true → reaches_in e sub b = true ∨ holds_role (with_rules e ps gs) proj sub.
Proof.
  intros H. apply (reaches_through _ _ _ _ _ (λ t, ∃ r, r ∈ Roles proj ∧ t = role_subject (ProjName proj) (RoleName r))) in H.
  - destruct H as [H|(t & (r & Hr & ->) & H)]; [by left|right; by exists r].
  - intros rule Hin. apply Hgs in Hin as (x & r & Hr & ->). exists x, (role_subject (ProjName proj) (RoleName r)). split; [done|by exists r].
Qed.

Lemma project_rule_holds e' rule : project_rule proj rule → rule_matches e' sub res act obj rule = true → holds_role e' proj sub.
Proof.
  intros (r & Hr & [->|(res' & act' & obj' & eff & -> & _)]); unfold rule_matches, own_rule; rewrite !andb_true_iff;
    intros [[[H _] _] _]; by exists r.
Qed.

(** A rule of the others applies as before, or to one who holds a role. *)
Lemma rule_matches_base rule :
  rule_matches (with_rules e ps gs) sub res act obj rule = true →
  rule_matches e sub res act obj rule = true ∨ holds_role (with_rules e ps gs) proj sub.
Proof.
  destruct rule as [|psub [|pres [|pact [|pobj [|eff [|? ?]]]]]]; try done. unfold rule_matches at 1. rewrite !andb_true_iff.
  intros [[[H H1] H2] H3]. apply reaches_base in H as [H|H]; [left|by right].
  unfold rule_matches. unfold reaches_in in H. cbn [mode with_rules] in *. by rewrite H, H1, H2, H3.
Qed.

Lemma some_rule_more eft : some_rule e sub res act obj eft = true → some_rule (with_rules e ps gs) sub res act obj eft = true.
Proof.
  unfold some_rule. rewrite !existsb_exists. intros (rule & Hin & [H Heft]%andb_true_iff). exists rule.
  split; [by apply in_or_app; left|]. apply andb_true_iff. split; [|done].
  destruct rule as [|psub [|pres [|pact [|pobj [|eff [|? ?]]]]]]; try done. unfold rule_matches in *. rewrite !andb_true_iff in *.
  destruct H as [[[H H1] H2] H3]. split_and!; [by apply reaches_more|done..].
Qed.

Lemma some_rule_base eft : ¬ holds_role (with_rules e ps gs) proj sub →
  some_rule (with_rules e ps gs) sub res act obj eft = some_rule e sub res act obj eft.
Proof.
  intros Hno. apply eq_bool_prop_intro. rewrite !Is_true_true. split; [|apply some_rule_more].
  unfold some_rule. rewrite !existsb_exists. intros (rule & Hin & [H Heft]%andb_true_iff).
  apply in_app_or in Hin as [Hin|Hin]; [|by apply list_elem_of_In, Hps, project_rule_holds with (e' := with_rules e ps gs) in Hin].
  exists rule. split; [done|]. apply andb_true_iff. split; [|done]. by apply rule_matches_base in H as [H|H].
Qed.

Lemma model_unchanged : ¬ holds_role (with_rules e ps gs) proj sub →
  model_Enforce (with_rules e ps gs) sub res act obj = model_Enforce e sub res act obj.
Proof. intros Hno. unfold model_Enforce. by rewrite !some_rule_base. Qed.

Lemma model_gained : model_Enforce (with_rules e ps gs) sub res act obj = true → model_Enforce e sub res act obj = false →
  holds_role (with_rules e ps gs) proj sub ∧
  ∃ rule, rule_matches (with_rules e ps gs) sub res act obj rule = true ∧ rule_effect rule = "allow" ∧
    (rule ∈ p_rules (rules e) ∨ project_rule proj rule).
Proof.
  unfold model_Enforce. intros [Ha Hd%negb_true_iff]%andb_true_iff He.
  assert (some_rule e sub res act obj "deny" = false) as Hd'.
  { destruct (some_rule e sub res act obj "deny") eqn:E; [|done]. apply some_rule_more in E. congruence. }
  rewrite Hd', andb_true_r in He. assert (holds_role (with_rules e ps gs) proj sub) as Hh.
  { unfold some_rule in Ha. apply existsb_exists in Ha as (rule & Hin & [H Heft]%andb_true_iff).
    apply in_app_or in Hin as [Hin|Hin]; [|by eapply project_rule_holds; [apply Hps, list_elem_of_In|]].
    apply rule_matches_base in H as [H|H]; [|done]. apply not_true_iff_false in He. contradict He.
    unfold some_rule. apply existsb_exists. exists rule. split; [done|]. by rewrite H, Heft. }
  split; [done|]. unfold some_rule in Ha. apply existsb_exists in Ha as (rule & Hin & [H Heft%String.eqb_eq]%andb_true_iff).
  exists rule. split_and!; [done..|]. apply list_elem_of_In, elem_of_app in Hin as [Hin|Hin]; [by left|right; by apply Hps].
Qed.
End added.

(** C11. While enforcement is on and rules are matched as globs, with the policy of a valid
    project, whoever holds no role of that project - directly or by grouping rules - may do exactly what they may do without it, denials included; and
    whoever gains a right holds a role, and the right comes from a rule of the built-in or user
    policy, or from one of the project, which is about the project itself or about objects of
    the project.  A policy that cannot be loaded gives no rights. *)
Theorem project_rights_confined {CL : CasbinLaws} unmarshal ops proj e e' sub res act obj :
  let s := rbac_run unmarshal ops in
  loadable_project proj → enabled s = true → matchMode s ≠ RegexMatchMode →
  fresh s "" = Some e → fresh s (ProjectPoliciesString proj) = Some e' →
  (¬ holds_role e' proj sub → grants e' sub res act obj = grants e sub res act obj) ∧
  (grants e' sub res act obj = true → grants e sub res act obj = false →
    holds_role e' proj sub ∧
    ∃ rule, rule_matches e' sub res act obj rule = true ∧ rule_effect rule = "allow" ∧
      (rule ∈ p_rules (rules e) ∨ project_rule proj rule)).
Proof.
  intros s Hp Hen Hmode He He'. destruct (rbac_run_ok unmarshal ops) as [_ Hr].
  destruct (fresh_rules _ _ _ _ Hr He He') as (Hc & Hm & [->|(m & Hl & ->)]); [by split; [|intros ->]|].
  apply String.eqb_neq in Hmode. fold s in Hc, Hm. rewrite Hmode in Hm. rewrite Hen in Hc.
  assert (∃ rules', Forall2 (role_states (ProjName proj)) (Roles proj) rules' ∧
    m = add_rules (rules e) (mjoin rules') (Roles proj ≫= role_groups (ProjName proj))) as (rules' & Hst & ->).
  { rewrite load_project in Hl by done. apply load_roles in Hl; [done|apply Hp|]. intros r Hin.
    split_and!; [by apply Hp|by apply Hp|by apply normal_policies with proj; [apply Hp|]]. }
  change {| rules := add_rules ?m ?p ?g; mode := _; checking := _ |} with (with_rules e p g).
  rewrite !grants_model by done.
  assert (∀ rule, rule ∈ mjoin rules' → project_rule proj rule) as Hps by by intros rule; apply role_states_rules.
  assert (∀ rule, rule ∈ (Roles proj ≫= role_groups (ProjName proj)) →
    ∃ x r, r ∈ Roles proj ∧ rule = [x; role_subject (ProjName proj) (RoleName r)]) as Hgs.
  { intros rule (r & (g & -> & Hg)%list_elem_of_fmap & Hin)%list_elem_of_bind. by exists (group_name g), r. }
  split; [by apply model_unchanged|by apply model_gained].
Qed.
End rights.

(** ** On a configuration *)

Module RbacChecks.

(** Patterns with a star at the end *)
Fixpoint star_match (pattern text : string) : bool :=
  match pattern, text with
  | "", "" => true
  | String c p, String d t => if Ascii.eqb c "*" && String.eqb p "" then true else Ascii.eqb c d && star_match p t
  | String c p, "" => Ascii.eqb c "*" && String.eqb p ""
  | "", _ => false
  end.

#[local] Instance prefixes : GlobLib :=
  {| glob_t := string; glob_compile p _ := Some p; glob_match := star_match;
     regex_t := string; regex_compile p := Some p; regex_matchString p s := Some (star_match p s) |}.

Definition casbin_base : Casbin :=
  {| accepts _ := true; casbin_Enforce _ _ := None; GetGroupingPolicy e := Some (g_rules (rules e));
     RegexMatchFunc s p := Some (String.eqb s p); max_hierarchy := 10 |}.

#[local] Instance casbin : Casbin :=
  {| accepts _ := true;
     casbin_Enforce e vals :=
       if checking e then
         match vals with
         | [VText sub; VText res; VText act; VText obj] => Some (@model_Enforce prefixes casbin_base e sub res act obj)
         | _ => None
         end
       else Some true;
     GetGroupingPolicy e := Some (g_rules (rules e)); RegexMatchFunc s p := Some (String.eqb s p); max_hierarchy := 10 |}.

Lemma casbin_laws : CasbinLaws.
Proof.
  split.
  - intros e vals Hc. cbn. by rewrite Hc.
  - intros e sub res act obj Hc _. cbn. by rewrite Hc.
  - done.
Qed.

Definition dev : ProjectRole :=
  {| RoleName := "dev"; RoleDescription := "";
     Policies := ["p, proj:shop:dev, applications, sync, shop/*, allow"; "p, proj:shop:dev, applications, delete, shop/prod, deny"];
     JWTTokens := []; Groups := ["shop-team"; double_quote +:+ "Doe, Jane" +:+ double_quote] |}.

Definition shop : AppProject :=
  {| ProjName := "shop"; Destinations := []; PermitOnlyProjectScopedClusters := false; SourceNamespaces := [];
     SourceRepos := ["*"]; ClusterResourceWhitelist := []; ClusterResourceBlacklist := [];
     NamespaceResourceWhitelist := None; NamespaceResourceBlacklist := []; ProjSyncWindows := None;
     DestinationServiceAccounts := []; Roles := [dev]; JWTTokensByRole := ∅ |}.

Lemma dev_valid : role_valid "shop" dev.
Proof.
  split; [reflexivity| | | |].
  - apply (bool_decide_unpack _). vm_compute. exact I.
  - intros p Hp. repeat (apply elem_of_cons in Hp as [->|Hp]; [reflexivity|]). by apply elem_of_nil in Hp.
  - apply (bool_decide_unpack _). vm_compute. exact I.
  - intros g Hg. repeat (apply elem_of_cons in Hg as [->|Hg]; [vm_compute; reflexivity|]). by apply elem_of_nil in Hg.
Qed.

Lemma shop_loadable : loadable_project shop.
Proof.
  split; [done| | |vm_compute; reflexivity].
  - intros r ->%list_elem_of_singleton. apply dev_valid.
  - intros r ->%list_elem_of_singleton g Hg. repeat (apply elem_of_cons in Hg as [->|Hg]; [split; vm_compute; reflexivity|]).
    by apply elem_of_nil in Hg.
Qed.

Lemma project_policies_loaded_witness :
  ∃ m', load_text (ProjectPoliciesString shop) no_policies = Some m' ∧ g_rules m' = [["shop-team"; "proj:shop:dev"]; ["Doe, Jane"; "proj:shop:dev"]] ∧
    ∃ rules, Forall2 (role_states "shop") [dev] rules ∧ m' = add_rules no_policies (mjoin rules) (role_groups "shop" dev).
Proof.
  eexists. split; [vm_compute; reflexivity|]. split; [reflexivity|].
  apply (project_policies_loaded shop no_policies shop_loadable). vm_compute. reflexivity.
Defined.

(** *** Requests *)

Definition lines (l : list string) : string := Join l (bytes [10]).

Definition builtin : string := lines ["p, role:admin, *, *, *, allow"; "p, role:readonly, applications, get, *, allow"; "g, admin, role:admin"].

Definition config (csv : list string) (role scopes : string) : gmap string string :=
  {[ ConfigMapPolicyCSVKey := lines csv; ConfigMapPolicyDefaultKey := role; ConfigMapScopesKey := scopes ]}.

(** Lists of scopes: the name of one *)
Definition unmarshal (text : string) : option (list string) := if Contains text "[" then None else Some [text].

Definition user (name : string) (groups : list string) : claim_map := {[ "sub" := JText name; "groups" := JArray (JText <$> groups) ]}.

Definition ask (ops : list rbac_op) (c : claim_map) (act obj : string) : option bool :=
  (server_Enforce {["shop" := shop]} (request (VClaims (Some c)) "applications" act obj) (rbac_run unmarshal ops)).1.

Definition start : list rbac_op := [OpEnable true; OpBuiltinPolicy builtin; OpSync (config ["p, ann, applications, sync, shop/test, deny"] "" "")].

Example shop_team_syncs :
  ask start (user "joe" ["shop-team"]) "sync" "shop/test" = Some true ∧ ask start (user "joe" ["shop-team"]) "sync" "other/test" = Some false ∧
  ask start (user "joe" ["Doe, Jane"]) "sync" "shop/test" = Some true ∧ ask start (user "joe" []) "sync" "shop/test" = Some false ∧
  ask start (user "admin" []) "delete" "shop/prod" = Some true ∧ ask start (user "proj:shop:dev" []) "sync" "shop/x" = Some true ∧
  ask start (user "proj:other:dev" ["shop-team"]) "sync" "shop/x" = Some false.
Proof. vm_compute. done. Qed.

(** What a rule denies to a user, a group of the user may still allow. *)
Example group_undoes_denial :
  ask start (user "ann" []) "sync" "shop/test" = Some false ∧ ask start (user "ann" ["shop-team"]) "sync" "shop/test" = Some true.
Proof. vm_compute. done. Qed.

(** What the default role is denied, the user may still be allowed. *)
Example default_denial_not_final :
  let ops := start ++ [OpSync (config ["p, all, applications, delete, *, deny"; "p, ann, applications, delete, *, allow"] "all" "")] in
  ask ops (user "ann" []) "delete" "shop/test" = Some true ∧ ask ops (user "joe" []) "delete" "shop/test" = Some false.
Proof. vm_compute. done. Qed.

(** A user policy that cannot be read makes every request panic, the cached forms being gone. *)
Example unreadable_policy_panics :
  ask (start ++ [OpSync (config ["p, ann, applications, get, *"] "" "")]) (user "admin" []) "get" "shop/test" = None.
Proof. vm_compute. done. Qed.

(** Scopes that cannot be read keep the policy, but not the default role. *)
Example unreadable_scopes :
  let ops := start ++ [OpSync (config ["p, joe, applications, delete, *, allow"] "role:readonly" "[")] in
  ask ops (user "joe" []) "delete" "shop/test" = Some false ∧ ask ops (user "joe" []) "get" "shop/test" = Some true.
Proof. vm_compute. done. Qed.

Lemma Enforce_correct_witness :
  let rvals := request (VClaims (Some (user "joe" ["shop-team"]))) "applications" "sync" "shop/test" in
  (server_Enforce {["shop" := shop]} rvals (rbac_run unmarshal start)).1 = Some true ∧
  allowed {["shop" := shop]} (rbac_run unmarshal start) (Some (user "joe" ["shop-team"])) rvals.
Proof.
  intros rvals.
  destruct (Enforce_correct unmarshal start {["shop" := shop]} (Some (user "joe" ["shop-team"])) "applications" "sync" "shop/test")
    as (_ & H & _).
  assert ((server_Enforce {["shop" := shop]} rvals (rbac_run unmarshal start)).1 = Some true) as Hr by (vm_compute; reflexivity).
  split; [exact Hr|]. destruct H as (b & Hb & Hiff); [vm_compute; eexists; reflexivity|].
  fold rvals in Hb, Hiff. rewrite Hr in Hb. injection Hb as <-. apply Hiff. reflexivity.
Defined.

Lemma project_rights_confined_witness :
  ∃ e e', fresh (rbac_run unmarshal start) "" = Some e ∧ fresh (rbac_run unmarshal start) (ProjectPoliciesString shop) = Some e' ∧
    grants e' "shop-team" "applications" "sync" "shop/test" = true ∧ grants e "shop-team" "applications" "sync" "shop/test" = false ∧
    holds_role e' shop "shop-team".
Proof.
  eexists _, _. split; [vm_compute; reflexivity|]. split; [vm_compute; reflexivity|].
  split; [vm_compute; reflexivity|]. split; [vm_compute; reflexivity|].
  refine (proj1 (proj2 (project_rights_confined (CL := casbin_laws) unmarshal start shop _ _ "shop-team" "applications" "sync" "shop/test"
    shop_loadable _ _ _ _) _ _)).
  - vm_compute. reflexivity.
  - vm_compute. discriminate.
  - vm_compute. reflexivity.
  - vm_compute. reflexivity.
  - vm_compute. reflexivity.
  - vm_compute. reflexivity.
Defined.

End RbacChecks.
