(* ===== verification/RepoLock.v ===== *)
(** * The lock of a checked-out repository (src/reposerver/repository/lock.go)

    Requests of the repository server share the directory a repository is checked out in.
    [Lock] gives a request the directory at its revision: alone, or together with requests
    for the same revision that allow it.  The requests are the threads of a system that takes
    the atomic parts of [Lock] and of its closer as steps, in any order. *)

From S2P Require Import Prelude.
Local Open Scope string_scope.
Local Open Scope list_scope.
Local Open Scope Z_scope.

(** ** The code

    [initCloser] is the number of the call of [init] that made it. *)

Record repositoryState := { revision : string; initCloser : nat; processCount : Z; allowConcurrent : bool }.

Definition new_state : repositoryState := {| revision := ""; initCloser := 0; processCount := 0; allowConcurrent := false |}.

(** One round of the loop, while [cond.L] is held.  [id] is the number of the call of [init],
    if there is one, and [ok] says whether it succeeds; it is given [clean]. *)
Inductive round := Entered (clean : bool) | InitFailed (clean : bool) | Joined | Waits.

Definition lock_round (rev : string) (allow : bool) (id : nat) (ok : bool) (st : repositoryState) : round * repositoryState :=
  if String.eqb (revision st) "" then
    let clean := negb (allowConcurrent st) in
    if ok then (Entered clean, {| revision := rev; initCloser := id; processCount := 1; allowConcurrent := allow |})
    else (InitFailed clean, st)
  else if String.eqb (revision st) rev && allowConcurrent st && allow then
    (Joined, {| revision := revision st; initCloser := initCloser st; processCount := processCount st + 1;
                allowConcurrent := allowConcurrent st |})
  else (Waits, st).

(** The closer that [Lock] returns, while [cond.L] is held: whether it calls [initCloser] and
    then wakes the others *)
Definition lock_close (st : repositoryState) : bool * repositoryState :=
  let count := processCount st - 1 in
  if Z.eqb count 0 then
    (true, {| revision := ""; initCloser := initCloser st; processCount := count; allowConcurrent := allowConcurrent st |})
  else (false, {| revision := revision st; initCloser := initCloser st; processCount := count; allowConcurrent := allowConcurrent st |}).

(** ** Requests as threads

    A thread is in the loop, asleep in [cond.Wait], working between [Lock] and the closer, or
    in the closer before [Broadcast]; afterwards it is gone. *)

Inductive thread :=
  | Trying (path rev : string) (allow : bool)
  | Sleeping (path rev : string) (allow : bool)
  | Working (path rev : string) (allow : bool)
  | Waking (path : string).

(** What happens to a directory *)
Inductive event :=
  | EInit (path : string) (id : nat) (clean ok : bool) (rev : string) (allow : bool)
  | EJoin (path rev : string)
  | ELeave (path : string)
  | EClose (path : string) (id : nat).

Record system := { stateByKey : gmap string repositoryState; threads : gmap nat thread; log : list event }.

Definition NewRepositoryLock : system := {| stateByKey := ∅; threads := ∅; log := [] |}.

Definition state_of (s : system) (path : string) : repositoryState := default new_state (stateByKey s !! path).

(** A call of [Lock]: the state of the path is there from now on. *)
Definition sys_call (i : nat) (path rev : string) (allow : bool) (s : system) : system :=
  {| stateByKey := <[path := state_of s path]> (stateByKey s); threads := <[i := Trying path rev allow]> (threads s); log := log s |}.

(** A round of the loop *)
Definition sys_round (i : nat) (path rev : string) (allow : bool) (ok : bool) (s : system) : system :=
  let id := length (log s) in
  let '(r, st) := lock_round rev allow id ok (state_of s path) in
  {| stateByKey := <[path := st]> (stateByKey s);
     threads := match r with
                | Entered _ | Joined => <[i := Working path rev allow]> (threads s)
                | InitFailed _ => delete i (threads s)
                | Waits => <[i := Sleeping path rev allow]> (threads s)
                end;
     log := log s ++ match r with
                     | Entered clean => [EInit path id clean true rev allow]
                     | InitFailed clean => [EInit path id clean false rev allow]
                     | Joined => [EJoin path rev]
                     | Waits => []
                     end |}.

(** The closer up to its [Unlock] *)
Definition sys_close (i : nat) (path : string) (s : system) : system :=
  let st := state_of s path in
  let '(notify, st') := lock_close st in
  {| stateByKey := <[path := st']> (stateByKey s);
     threads := if notify : bool then <[i := Waking path]> (threads s) else delete i (threads s);
     log := log s ++ [if notify : bool then EClose path (initCloser st) else ELeave path] |}.

(** [Broadcast] *)
Definition wake (path : string) (t : thread) : thread :=
  match t with Sleeping p rev allow => if String.eqb p path then Trying p rev allow else t | _ => t end.

Definition sys_broadcast (i : nat) (path : string) (s : system) : system :=
  {| stateByKey := stateByKey s; threads := wake path <$> delete i (threads s); log := log s |}.

(** The steps of requests that were made *)
Inductive lock_step (s : system) : system → Prop :=
  | step_round i path rev allow ok : threads s !! i = Some (Trying path rev allow) → lock_step s (sys_round i path rev allow ok s)
  | step_close i path rev allow : threads s !! i = Some (Working path rev allow) → lock_step s (sys_close i path s)
  | step_broadcast i path : threads s !! i = Some (Waking path) → lock_step s (sys_broadcast i path s).

(** Requests have a revision: a commit, which the server resolves before. *)
Inductive lock_reachable : system → Prop :=
  | reach_new : lock_reachable NewRepositoryLock
  | reach_call s i path rev allow :
      lock_reachable s → threads s !! i = None → rev ≠ "" → lock_reachable (sys_call i path rev allow s)
  | reach_step s s' : lock_reachable s → lock_step s s' → lock_reachable s'.

(** ** What a directory goes through

    The contract of the lock for one path: it is free, or in use by requests for one
    revision; [last] is whether the last requests that used it allowed others. *)

Inductive usage := Free (last : bool) | Used (id : nat) (rev : string) (allow : bool) (users : nat).

(** The path of an event, and what it makes of the use of the path; [None] breaks the
    contract. *)
Definition event_path (e : event) : string := match e with EInit p _ _ _ _ _ | EJoin p _ | ELeave p | EClose p _ => p end.

Definition use_step (u : usage) (e : event) : option usage :=
  match u, e with
  | Free last, EInit _ id clean ok rev allow =>
      if Bool.eqb clean (negb last) then Some (if ok then Used id rev allow 1 else Free last) else None
  | Used id rev true n, EJoin _ rev' => if String.eqb rev rev' then Some (Used id rev true (S n)) else None
  | Used id rev allow (S (S n)), ELeave _ => Some (Used id rev allow (S n))
  | Used id rev allow 1, EClose _ id' => if Nat.eqb id id' then Some (Free allow) else None
  | _, _ => None
  end.

Definition spec_step (path : string) (u : usage) (e : event) : option usage :=
  if String.eqb (event_path e) path then use_step u e else Some u.

Definition spec_run (path : string) (l : list event) : option usage := foldl (λ u e, u ≫= λ u, spec_step path u e) (Some (Free false)) l.

(** ** Counting threads *)

Section total.
Context (w : thread → nat).

Definition total (ts : gmap nat thread) : nat := map_fold (λ _ t n, (w t + n)%nat) 0%nat ts.

Lemma total_new i t ts : ts !! i = None → total (<[i := t]> ts) = (w t + total ts)%nat.
Proof. intros Hi. unfold total. rewrite map_fold_insert_L; [done|lia|done]. Qed.

Lemma total_delete i t ts : ts !! i = Some t → total ts = (w t + total (delete i ts))%nat.
Proof. intros Hi. rewrite <-(insert_delete_id ts i t Hi) at 1. apply total_new, lookup_delete_eq. Qed.

Lemma total_insert i t t' ts : ts !! i = Some t → (total (<[i := t']> ts) + w t = total ts + w t')%nat.
Proof.
  intros Hi. rewrite (total_delete i t ts Hi). rewrite <-(insert_delete_eq ts i t'), total_new by apply lookup_delete_eq. lia.
Qed.

Lemma total_fmap (f : thread → thread) ts : (∀ t, w (f t) = w t) → total (f <$> ts) = total ts.
Proof.
  intros Hf. induction ts as [|i t ts Hi IH] using map_ind; [by rewrite fmap_empty|].
  rewrite fmap_insert, !total_new, IH, Hf; [done|done|]. by rewrite lookup_fmap, Hi.
Qed.

Lemma total_zero ts i t : total ts = 0%nat → ts !! i = Some t → w t = 0%nat.
Proof. intros Ht Hi. rewrite (total_delete i t ts Hi) in Ht. lia. Qed.
End total.

(** ** The invariant *)

Definition thread_path (t : thread) : string :=
  match t with Trying p _ _ | Sleeping p _ _ | Working p _ _ | Waking p => p end.

Definition works (path : string) (t : thread) : nat :=
  match t with Working p _ _ => if String.eqb p path then 1 else 0 | _ => 0 end.

Definition workers (s : system) (path : string) : nat := total (works path) (threads s).

Definition use_of (st : repositoryState) : usage :=
  if String.eqb (revision st) "" then Free (allowConcurrent st)
  else Used (initCloser st) (revision st) (allowConcurrent st) (Z.to_nat (processCount st)).

Record path_ok (s : system) (path : string) : Prop := {
  po_use : spec_run path (log s) = Some (use_of (state_of s path));
  po_count : processCount (state_of s path) = Z.of_nat (workers s path);
  po_free : revision (state_of s path) = "" ↔ processCount (state_of s path) = 0;
  po_several : 2 ≤ processCount (state_of s path) → allowConcurrent (state_of s path) = true;
  po_working : ∀ i rev allow, threads s !! i = Some (Working path rev allow) →
    rev = revision (state_of s path) ∧ allow = allowConcurrent (state_of s path);
  po_sleeping : ∀ i rev allow, threads s !! i = Some (Sleeping path rev allow) →
    revision (state_of s path) ≠ "" ∨ ∃ j, threads s !! j = Some (Waking path);
}.

Definition has_revision (t : thread) : Prop :=
  match t with Trying _ rev _ | Sleeping _ rev _ | Working _ rev _ => rev ≠ "" | Waking _ => True end.

Record lock_inv (s : system) : Prop := {
  li_paths : ∀ path, path_ok s path;
  li_revisions : ∀ i t, threads s !! i = Some t → has_revision t;
}.

Lemma works_other path t : thread_path t ≠ path → works path t = 0%nat.
Proof. destruct t; cbn; try done. intros Hp. by apply String.eqb_neq in Hp as ->. Qed.

Lemma spec_run_snoc path l e : spec_run path (l ++ [e]) = spec_run path l ≫= λ u, spec_step path u e.
Proof. unfold spec_run. by rewrite foldl_app. Qed.

Lemma spec_run_other path l e : event_path e ≠ path → spec_run path (l ++ [e]) = spec_run path l.
Proof.
  intros He. rewrite spec_run_snoc. unfold spec_step. apply String.eqb_neq in He as ->. by destruct (spec_run path l).
Qed.

(** A step on one path leaves the others as they are. *)
Record elsewhere (path : string) (s s' : system) : Prop := {
  el_state q : q ≠ path → state_of s' q = state_of s q;
  el_log q : q ≠ path → spec_run q (log s') = spec_run q (log s);
  el_threads q i t : q ≠ path → thread_path t = q → threads s' !! i = Some t ↔ threads s !! i = Some t;
  el_workers q : q ≠ path → workers s' q = workers s q;
}.

Lemma path_ok_elsewhere path s s' q : elsewhere path s s' → q ≠ path → path_ok s q → path_ok s' q.
Proof.
  intros [Hst Hlog Hth Hw] Hq [H1 H2 H3 H4 H5 H6]. split; rewrite ?Hst, ?Hlog, ?Hw by done; [done..| |].
  - intros i rev allow Hi. apply (Hth q) in Hi; [|done|done]. by eapply H5.
  - intros i rev allow Hi. apply (Hth q) in Hi; [|done|done]. apply H6 in Hi as [?|[j Hj]]; [by left|].
    right. exists j. by apply (Hth q).
Qed.

(** The threads of a step: [i] changes and works on [path] before and after. *)
Definition thread_change (path : string) (i : nat) (ts ts' : gmap nat thread) : Prop :=
  (∃ t, ts !! i = Some t ∧ thread_path t = path) ∧
  ((∃ t', thread_path t' = path ∧ ts' = <[i := t']> ts) ∨ ts' = delete i ts).

Lemma thread_change_elsewhere path i ts ts' q :
  thread_change path i ts ts' → q ≠ path →
  (∀ j t, thread_path t = q → ts' !! j = Some t ↔ ts !! j = Some t) ∧ total (works q) ts' = total (works q) ts.
Proof.
  intros [(t & Hi & Ht) Hc] Hq. assert (works q t = 0%nat) as Hw by by apply works_other; congruence.
  destruct Hc as [(t' & Ht' & ->)| ->].
  - split; [|assert (works q t' = 0%nat) by (by apply works_other; congruence); pose proof (total_insert (works q) i t t' ts Hi); lia].
    intros j u Hu. destruct (decide (j = i)) as [->|Hj]; [|by rewrite lookup_insert_ne].
    rewrite lookup_insert_eq, Hi. split; intros [= <-]; congruence.
  - split; [|pose proof (total_delete (works q) i t ts Hi); lia].
    intros j u Hu. destruct (decide (j = i)) as [->|Hj]; [|by rewrite lookup_delete_ne].
    rewrite lookup_delete_eq, Hi. split; [done|]. intros [= <-]; congruence.
Qed.

Lemma elsewhere_intro path i s s' evs st :
  thread_change path i (threads s) (threads s') → stateByKey s' = <[path := st]> (stateByKey s) →
  log s' = log s ++ evs → (evs = [] ∨ ∃ e, evs = [e] ∧ event_path e = path) → elsewhere path s s'.
Proof.
  intros Hth Hst Hlog Hev. split.
  - intros q Hq. unfold state_of. by rewrite Hst, lookup_insert_ne.
  - intros q Hq. rewrite Hlog. destruct Hev as [->|(e & -> & He)]; [by rewrite app_nil_r|]. apply spec_run_other. congruence.
  - intros q j t Hq. by apply (thread_change_elsewhere path i _ _ q Hth Hq).
  - intros q Hq. by apply (thread_change_elsewhere path i _ _ q Hth Hq).
Qed.

Lemma state_of_set path st m ts l : state_of {| stateByKey := <[path := st]> m; threads := ts; log := l |} path = st.
Proof. unfold state_of. cbn [stateByKey]. by rewrite lookup_insert_eq. Qed.

(** *** A round of the loop *)

Local Ltac fields := cbn [stateByKey threads log revision processCount allowConcurrent initCloser].

Lemma lookup_change (i j : nat) (ts : gmap nat thread) t t' :
  <[i := t']> ts !! j = Some t → (j = i ∧ t = t') ∨ (j ≠ i ∧ ts !! j = Some t).
Proof. rewrite lookup_insert_Some. naive_solver. Qed.

Lemma trying_total s i path rev allow t :
  threads s !! i = Some (Trying path rev allow) → total (works path) (<[i := t]> (threads s)) = (workers s path + works path t)%nat.
Proof. intros Hi. pose proof (total_insert (works path) i _ t _ Hi) as H. cbn in H. unfold workers. lia. Qed.

(** Going to sleep *)
Lemma sleep_ok s i path rev allow :
  path_ok s path → threads s !! i = Some (Trying path rev allow) → revision (state_of s path) ≠ "" →
  path_ok {| stateByKey := <[path := state_of s path]> (stateByKey s); threads := <[i := Sleeping path rev allow]> (threads s);
             log := log s ++ [] |} path.
Proof.
  intros [H1 H2 H3 H4 H5 H6] Hi Hused. split; rewrite ?state_of_set; fields; rewrite ?app_nil_r; try done.
  - unfold workers. fields. by rewrite (trying_total _ _ _ _ _ _ Hi), Nat.add_0_r.
  - intros j rev' allow' [[_ ?]|[Hj Hl]]%lookup_change; [done|]. by eapply H5.
  - by left.
Qed.

Lemma round_ok s i path rev allow ok :
  path_ok s path → rev ≠ "" → threads s !! i = Some (Trying path rev allow) → path_ok (sys_round i path rev allow ok s) path.
Proof.
  intros Hok Hrev Hi. pose proof Hok as [H1 H2 H3 H4 H5 H6]. unfold sys_round.
  pose proof (λ t, trying_total s i path rev allow t Hi) as Hins.
  assert (total (works path) (delete i (threads s)) = workers s path) as Hdel by (symmetry; apply (total_delete (works path) i _ _ Hi)).
  unfold lock_round. unfold use_of in H1. destruct (String.eqb_spec (revision (state_of s path)) "") as [Hfree|Hused].
  - assert (workers s path = 0%nat) as Hw by (apply H3 in Hfree; lia). destruct ok.
    + split; rewrite ?state_of_set; fields.
      * rewrite spec_run_snoc, H1. cbn. unfold spec_step. cbn. rewrite String.eqb_refl, eqb_reflx. unfold use_of. cbn.
        by apply String.eqb_neq in Hrev as ->.
      * unfold workers. fields. rewrite Hins, Hw. cbn. by rewrite String.eqb_refl.
      * split; [by intros ?|lia].
      * lia.
      * intros j rev' allow' [[-> [= <- <-]]|[Hj Hl]]%lookup_change; [done|]. pose proof (total_zero _ _ _ _ Hw Hl) as H. cbn in H.
        by rewrite String.eqb_refl in H.
      * by left.
    + split; rewrite ?state_of_set; fields.
      * rewrite spec_run_snoc, H1. cbn. unfold spec_step. cbn. rewrite String.eqb_refl, eqb_reflx. unfold use_of.
        by rewrite Hfree.
      * unfold workers. fields. by rewrite Hdel.
      * done.
      * done.
      * intros j rev' allow' [_ Hl]%lookup_delete_Some. by apply (H5 j).
      * intros j rev' allow' [_ Hl]%lookup_delete_Some. apply H6 in Hl as [?|[k Hk]]; [by left|]. right. exists k.
        rewrite lookup_delete_ne; [done|]. intros ->. congruence.
  - destruct (String.eqb (revision (state_of s path)) rev && allowConcurrent (state_of s path) && allow) eqn:E; [|by apply sleep_ok].
    apply andb_true_iff in E as [[Hr%String.eqb_eq Ha]%andb_true_iff ->].
    assert (0 < processCount (state_of s path)) as Hpos by (assert (processCount (state_of s path) ≠ 0) by (by intros H%H3); lia).
    split; rewrite ?state_of_set; fields.
    + rewrite spec_run_snoc, H1. cbn. unfold spec_step. cbn. rewrite String.eqb_refl. unfold use_of. cbn. rewrite Hr, String.eqb_refl, Ha.
      apply String.eqb_neq in Hrev as ->.
      replace (Z.to_nat (processCount (state_of s path) + 1)) with (S (Z.to_nat (processCount (state_of s path)))) by lia.
      by destruct (Z.to_nat (processCount (state_of s path))) as [|[|?]].
    + unfold workers. fields. rewrite Hins, H2. cbn. rewrite String.eqb_refl. lia.
    + split; [done|lia].
    + done.
    + intros j rev' allow' [[-> [= -> ->]]|[Hj Hl]]%lookup_change; [by rewrite Hr, Ha|]. by apply (H5 j).
    + by left.
Qed.

Lemma round_elsewhere s i path rev allow ok :
  threads s !! i = Some (Trying path rev allow) → elsewhere path s (sys_round i path rev allow ok s).
Proof.
  intros Hi. unfold sys_round. destruct (lock_round rev allow (length (log s)) ok (state_of s path)) as [r st].
  eapply (elsewhere_intro path i); [|done|done|].
  - split; [by eexists|]. destruct r; fields; [left|by right|left|left]; (eexists; split; [|reflexivity]; done).
  - destruct r; [right|right|right|by left]; by eexists.
Qed.

(** *** The closer *)

Lemma close_ok s i path rev allow :
  path_ok s path → threads s !! i = Some (Working path rev allow) → path_ok (sys_close i path s) path.
Proof.
  intros [H1 H2 H3 H4 H5 H6] Hi. unfold sys_close, lock_close.
  assert (∀ t, (total (works path) (<[i := t]> (threads s)) + 1 = workers s path + works path t)%nat) as Hins.
  { intros t. pose proof (total_insert (works path) i _ t _ Hi) as H. cbn [works] in H. rewrite String.eqb_refl in H. unfold workers. lia. }
  assert ((total (works path) (delete i (threads s)) + 1 = workers s path)%nat) as Hdel.
  { pose proof (total_delete (works path) i _ _ Hi) as H. cbn [works] in H. rewrite String.eqb_refl in H. unfold workers. lia. }
  assert (revision (state_of s path) ≠ "") as Hused by (intros H%H3; lia).
  apply String.eqb_neq in Hused as Hu. unfold use_of in H1. rewrite Hu in H1.
  destruct (Z.eqb_spec (processCount (state_of s path) - 1) 0) as [Hc|Hc]; split; rewrite ?state_of_set; fields.
  - rewrite spec_run_snoc, H1. cbn [mbind option_bind]. unfold spec_step. cbn [event_path]. rewrite String.eqb_refl. unfold use_of. fields.
    replace (Z.to_nat (processCount (state_of s path))) with 1%nat by lia. cbn. rewrite Nat.eqb_refl. by destruct (allowConcurrent (state_of s path)).
  - unfold workers. fields. specialize (Hins (Waking path)). cbn [works] in Hins. lia.
  - split; [by intros ?|done].
  - lia.
  - assert (total (works path) (<[i := Waking path]> (threads s)) = 0%nat) as Hz by (specialize (Hins (Waking path)); cbn [works] in Hins; lia).
    intros j rev' allow' Hj. pose proof (total_zero _ _ _ _ Hz Hj) as H. cbn [works] in H. by rewrite String.eqb_refl in H.
  - intros j rev' allow' _. right. exists i. apply lookup_insert_eq.
  - rewrite spec_run_snoc, H1. cbn [mbind option_bind]. unfold spec_step. cbn [event_path]. rewrite String.eqb_refl. unfold use_of. fields.
    rewrite Hu. destruct (Z.to_nat (processCount (state_of s path))) as [|[|n]] eqn:E; [lia..|]. cbn.
    replace (Z.to_nat (processCount (state_of s path) - 1)) with (S n) by lia. by destruct (allowConcurrent (state_of s path)).
  - unfold workers. fields. lia.
  - split; [by intros ?|lia].
  - intros. apply H4. lia.
  - intros j rev' allow' [_ Hl]%lookup_delete_Some. by apply (H5 j).
  - intros j rev' allow' _. by left.
Qed.

Lemma close_elsewhere s i path rev allow :
  threads s !! i = Some (Working path rev allow) → elsewhere path s (sys_close i path s).
Proof.
  intros Hi. unfold sys_close, lock_close.
  destruct (Z.eqb _ 0); eapply (elsewhere_intro path i); try done; try (by right; eexists); (split; [by eexists|]); fields;
    [left|by right]; (eexists; split; [|reflexivity]; done).
Qed.

(** *** Waking the others *)

Lemma lookup_wake path i (ts : gmap nat thread) j t :
  (wake path <$> delete i ts) !! j = Some t ↔ j ≠ i ∧ ∃ t', ts !! j = Some t' ∧ t = wake path t'.
Proof. rewrite lookup_fmap, fmap_Some. setoid_rewrite lookup_delete_Some. naive_solver. Qed.

Lemma works_wake q path t : works q (wake path t) = works q t.
Proof. destruct t; cbn; try done. by destruct (String.eqb path0 path). Qed.

Lemma wake_working path t q rev allow : wake path t = Working q rev allow → t = Working q rev allow.
Proof. destruct t; cbn; try done. by destruct (String.eqb path0 path). Qed.

Lemma wake_sleeping path t q rev allow : wake path t = Sleeping q rev allow → t = Sleeping q rev allow ∧ q ≠ path.
Proof. destruct t; cbn; try done. destruct (String.eqb_spec path0 path); [done|]. by intros [= -> -> ->]. Qed.

Lemma thread_path_wake path t : thread_path (wake path t) = thread_path t.
Proof. destruct t; cbn; try done. by destruct (String.eqb path0 path). Qed.

Lemma wake_other path t : thread_path t ≠ path → wake path t = t.
Proof. destruct t; cbn; try done. by intros ->%String.eqb_neq. Qed.

Lemma broadcast_workers s i path q : threads s !! i = Some (Waking path) → workers (sys_broadcast i path s) q = workers s q.
Proof.
  intros Hi. unfold workers, sys_broadcast. fields. rewrite (total_fmap (works q) (wake path)) by (intros; apply works_wake).
  symmetry. apply (total_delete (works q) i _ _ Hi).
Qed.

Lemma broadcast_ok s i path : path_ok s path → threads s !! i = Some (Waking path) → path_ok (sys_broadcast i path s) path.
Proof.
  intros [H1 H2 H3 H4 H5 H6] Hi. pose proof (broadcast_workers s i path path Hi) as Hw.
  split; [exact H1|by rewrite Hw|exact H3|exact H4| |].
  - intros j rev allow (_ & t & Hj & Ht)%lookup_wake. symmetry in Ht. apply wake_working in Ht as ->. by apply (H5 j).
  - intros j rev allow (_ & t & Hj & Ht)%lookup_wake. symmetry in Ht. by apply wake_sleeping in Ht as [_ ?].
Qed.

Lemma broadcast_elsewhere s i path : threads s !! i = Some (Waking path) → elsewhere path s (sys_broadcast i path s).
Proof.
  intros Hi. split; [done|done| |by intros; apply broadcast_workers].
  intros q j t Hq Ht. unfold sys_broadcast. fields. rewrite lookup_wake. split.
  - intros (_ & t' & Hj & ->). rewrite thread_path_wake in Ht. by rewrite wake_other by congruence.
  - intros Hj. split; [intros ->; rewrite Hi in Hj; injection Hj as <-; by subst q|].
    exists t. by rewrite wake_other by congruence.
Qed.

(** *** All steps *)

Lemma lock_step_inv s s' : lock_inv s → lock_step s s' → lock_inv s'.
Proof.
  intros [Hp Hr] Hst. inversion Hst as [i path rev allow ok Hi|i path rev allow Hi|i path Hi]; subst; split.
  - intros q. destruct (decide (q = path)) as [->|Hq].
    + apply round_ok; [done|exact (Hr _ _ Hi)|done].
    + eapply path_ok_elsewhere; [by apply round_elsewhere|done|done].
  - intros j t. unfold sys_round. destruct (lock_round _ _ _ _ _) as [r st]. fields. pose proof (Hr _ _ Hi) as H.
    destruct r; fields; [|intros [_ ?]%lookup_delete_Some; by eapply Hr|..];
      intros [[-> ->]|[_ ?]]%lookup_change; [done|by eapply Hr|done|by eapply Hr|done|by eapply Hr].
  - intros q. destruct (decide (q = path)) as [->|Hq]; [by eapply close_ok|].
    eapply path_ok_elsewhere; [by eapply close_elsewhere|done|done].
  - intros j t. unfold sys_close, lock_close. destruct (Z.eqb _ 0); fields.
    + intros [[-> ->]|[_ ?]]%lookup_change; [done|by eapply Hr].
    + intros [_ ?]%lookup_delete_Some. by eapply Hr.
  - intros q. destruct (decide (q = path)) as [->|Hq]; [by apply broadcast_ok|].
    eapply path_ok_elsewhere; [by apply broadcast_elsewhere|done|done].
  - intros j t. unfold sys_broadcast. fields. intros (_ & t' & Hj & ->)%lookup_wake. apply Hr in Hj.
    destruct t'; cbn; try done. by destruct (String.eqb path0 path).
Qed.

Lemma call_inv s i path rev allow : lock_inv s → threads s !! i = None → rev ≠ "" → lock_inv (sys_call i path rev allow s).
Proof.
  intros [Hp Hr] Hi Hrev. assert (∀ q, state_of (sys_call i path rev allow s) q = state_of s q) as Hst.
  { intros q. unfold state_of, sys_call. fields. destruct (decide (q = path)) as [->|Hq]; [by rewrite lookup_insert_eq|by rewrite lookup_insert_ne]. }
  assert (∀ j t, threads (sys_call i path rev allow s) !! j = Some t → t = Trying path rev allow ∨ threads s !! j = Some t) as Hth.
  { intros j t [[_ ?]|[_ ?]]%lookup_change; auto. }
  split.
  - intros q. destruct (Hp q) as [H1 H2 H3 H4 H5 H6]. split; rewrite ?Hst; [done| |done|done| |].
    + unfold workers, sys_call in *. fields. rewrite (total_new (works q)) by done. done.
    + intros j rev' allow' [?|?]%Hth; [done|]. by eapply H5.
    + intros j rev' allow' [?|Hj]%Hth; [done|]. apply H6 in Hj as [?|[k Hk]]; [by left|right]. exists k. unfold sys_call. fields.
      rewrite lookup_insert_ne; [done|]. intros ->. congruence.
  - intros j t [->|?]%Hth; [done|]. by eapply Hr.
Qed.

Lemma lock_reachable_inv s : lock_reachable s → lock_inv s.
Proof.
  induction 1 as [|s i path rev allow _ IH Hi Hrev|s s' _ IH Hst]; [|by apply call_inv|by eapply lock_step_inv].
  split; [|intros i t Hi; cbn in Hi; by rewrite lookup_empty in Hi].
  intros path. split; try done; try (intros i rev allow Hi; cbn in Hi; by rewrite lookup_empty in Hi).
Qed.

(** ** What the lock promises *)

(** C13. Whatever requests run, each directory goes through uses that follow each other: [init]
    is only called when nobody uses the directory, and is told to clean it unless the last
    requests that used it allowed others; a request joins others only at the same revision and
    if all allow it; the closer of [init] is called once, by the last to leave.  While the
    directory is in use, all that work in it have its revision and agree about others, and they
    are alone if they do not allow others. *)
Theorem uses_are_exclusive s path :
  lock_reachable s →
  ∃ u, spec_run path (log s) = Some u ∧
    match u with
    | Free _ => ∀ i rev allow, threads s !! i ≠ Some (Working path rev allow)
    | Used _ rev allow n =>
        workers s path = n ∧ (n > 0)%nat ∧ (allow = false → n = 1%nat) ∧
        ∀ i rev' allow', threads s !! i = Some (Working path rev' allow') → rev' = rev ∧ allow' = allow
    end.
Proof.
  intros [Hp _]%lock_reachable_inv. destruct (Hp path) as [H1 H2 H3 H4 H5 _]. eexists. split; [done|].
  unfold use_of. destruct (String.eqb_spec (revision (state_of s path)) "") as [Hf|Hu].
  - intros i rev allow Hi. assert (workers s path = 0%nat) as Hw by (apply H3 in Hf; lia).
    pose proof (total_zero _ _ _ _ Hw Hi) as H. cbn in H. by rewrite String.eqb_refl in H.
  - assert (processCount (state_of s path) ≠ 0) as Hc by by intros H%H3. split_and!; [lia|lia| |done].
    intros Ha. destruct (decide (2 ≤ processCount (state_of s path))) as [H|H]; [|lia]. apply H4 in H. congruence.
Qed.

(** *** Every call returns *)

Definition lives (t : thread) : nat := match t with Trying _ _ _ | Sleeping _ _ _ => 3 | Working _ _ _ => 2 | Waking _ => 1 end.
Definition tries (t : thread) : nat := match t with Trying _ _ _ => 1 | _ => 0 end.

Lemma lock_step_less s s' : lock_step s s' →
  (total lives (threads s') < total lives (threads s))%nat ∨
  total lives (threads s') = total lives (threads s) ∧ (total tries (threads s') < total tries (threads s))%nat.
Proof.
  intros Hst. inversion Hst as [i path rev allow ok Hi|i path rev allow Hi|i path Hi]; subst.
  - unfold sys_round. destruct (lock_round _ _ _ _ _) as [r st]. destruct r; fields.
    + left. pose proof (total_insert lives i _ (Working path rev allow) _ Hi) as H. cbn [lives] in H. lia.
    + left. pose proof (total_delete lives i _ _ Hi) as H. cbn [lives] in H. lia.
    + left. pose proof (total_insert lives i _ (Working path rev allow) _ Hi) as H. cbn [lives] in H. lia.
    + right. pose proof (total_insert lives i _ (Sleeping path rev allow) _ Hi) as H.
      pose proof (total_insert tries i _ (Sleeping path rev allow) _ Hi) as H'. cbn [lives tries] in H, H'. lia.
  - left. unfold sys_close, lock_close. destruct (Z.eqb _ 0); fields.
    + pose proof (total_insert lives i _ (Waking path) _ Hi) as H. cbn [lives] in H. lia.
    + pose proof (total_delete lives i _ _ Hi) as H. cbn [lives] in H. lia.
  - left. unfold sys_broadcast. fields. rewrite total_fmap; [|by intros []; cbn; try done; destruct (String.eqb _ path)].
    pose proof (total_delete lives i _ _ Hi) as H. cbn [lives] in H. lia.
Qed.

Lemma lock_steps_end s : Acc (flip lock_step) s.
Proof.
  remember (total lives (threads s)) as n eqn:Hn. revert s Hn. induction (lt_wf n) as [n _ IHn]. intros s Hn.
  remember (total tries (threads s)) as k eqn:Hk. revert s Hn Hk. induction (lt_wf k) as [k _ IHk]. intros s Hn Hk.
  constructor. intros s' Hst. apply lock_step_less in Hst as [H|[H H']].
  - eapply IHn; [|reflexivity]. lia.
  - eapply IHk; [|congruence|reflexivity]. lia.
Qed.

Lemma total_positive w ts : total w ts ≠ 0%nat → ∃ i t, ts !! i = Some t ∧ w t ≠ 0%nat.
Proof.
  induction ts as [|i t ts Hi IH] using map_ind; [done|]. rewrite total_new by done. intros H.
  destruct (decide (w t = 0%nat)) as [Hz|Hz]; [|exists i, t; by rewrite lookup_insert_eq].
  destruct IH as (j & u & Hj & Hu); [lia|]. exists j, u. split; [|done]. rewrite lookup_insert_ne; [done|]. intros ->. congruence.
Qed.

(** A request that sleeps is not forgotten: somebody works in the directory, or is about to wake
    it. *)
Lemma lock_not_stuck s : lock_inv s → threads s ≠ ∅ → ∃ s', lock_step s s'.
Proof.
  intros [Hp _] Hne. apply map_choose in Hne as (i & t & Hi).
  destruct t as [path rev allow|path rev allow|path rev allow|path].
  - eexists. by apply (step_round s i path rev allow true).
  - destruct (Hp path) as [_ H2 H3 _ _ H6]. apply H6 in Hi as [Hu|[j Hj]]; [|eexists; by eapply step_broadcast].
    assert (processCount (state_of s path) ≠ 0) as Hc by by intros H%H3.
    destruct (total_positive (works path) (threads s)) as (j & t & Hj & Ht); [unfold workers in H2; lia|].
    destruct t as [| |p rev' allow'|]; try done. eexists. by eapply step_close.
  - eexists. by eapply step_close.
  - eexists. by eapply step_broadcast.
Qed.

Lemma rtc_lock_inv s s' : lock_inv s → rtc lock_step s s' → lock_inv s'.
Proof. intros Hs Hst. induction Hst; [done|]. by eauto using lock_step_inv. Qed.

(** C14. Every call returns: from any state, if each call that gets the directory releases it
    without waiting for another call, and no others come, then whatever the order of the steps they come to an end, and at the
    end no call is left, neither working nor asleep.  ([references_deadlock] has calls that wait
    for others.) *)
Theorem every_call_returns s :
  lock_reachable s → Acc (flip lock_step) s ∧ ∀ s', rtc lock_step s s' → (∀ s'', ¬ lock_step s' s'') → threads s' = ∅.
Proof.
  intros Hs%lock_reachable_inv. split; [apply lock_steps_end|]. intros s' Hst Hend.
  destruct (decide (threads s' = ∅)) as [|Hne]; [done|]. apply lock_not_stuck in Hne as [s'' H]; [by apply Hend in H|].
  by eapply rtc_lock_inv.
Qed.

(** ** Concrete requests *)

Module LockSample.

(** Two requests for one commit share the directory, a third for another commit waits. *)
Definition three : system :=
  sys_round 3 "repo" "c2" true true (sys_call 3 "repo" "c2" true
    (sys_round 2 "repo" "c1" true true (sys_call 2 "repo" "c1" true
      (sys_round 1 "repo" "c1" true true (sys_call 1 "repo" "c1" true NewRepositoryLock))))).

Lemma enter_reachable s i path rev allow ok :
  lock_reachable s → threads s !! i = None → rev ≠ "" → lock_reachable (sys_round i path rev allow ok (sys_call i path rev allow s)).
Proof.
  intros Hs Hi Hrev. eapply reach_step; [by apply reach_call|]. apply step_round. unfold sys_call. fields. apply lookup_insert_eq.
Qed.

Lemma three_reachable : lock_reachable three.
Proof.
  unfold three. do 3 (apply enter_reachable; [|vm_compute; reflexivity|done]). apply reach_new.
Qed.

Example three_log : log three = [EInit "repo" 0 true true "c1" true; EJoin "repo" "c1"] ∧
  threads three !! 3%nat = Some (Sleeping "repo" "c2" true).
Proof. vm_compute. done. Qed.

(** After they left, the third is woken and the directory is not cleaned for it. *)
Example third_enters :
  log (sys_round 3 "repo" "c2" true true (sys_broadcast 2 "repo" (sys_close 2 "repo" (sys_close 1 "repo" three)))) =
  [EInit "repo" 0 true true "c1" true; EJoin "repo" "c1"; ELeave "repo"; EClose "repo" 0; EInit "repo" 4 false true "c2" true].
Proof. vm_compute. done. Qed.

Lemma uses_are_exclusive_witness :
  lock_reachable three ∧ ∃ u, spec_run "repo" (log three) = Some u ∧ u = Used 0 "c1" true 2.
Proof.
  split; [exact three_reachable|]. destruct (uses_are_exclusive three "repo" three_reachable) as (u & Hu & _).
  exists u. split; [exact Hu|]. assert (spec_run "repo" (log three) = Some (Used 0 "c1" true 2)) as H by (vm_compute; reflexivity).
  rewrite H in Hu. injection Hu as <-. reflexivity.
Defined.

Lemma every_call_returns_witness : Acc (flip lock_step) three.
Proof. exact (proj1 (every_call_returns three three_reachable)). Defined.

(** A request may hold one directory while it asks for another: the manifests of a chart in one
    repository with a values file of another.  The first request here works in the directory of
    "a" and, as call 3, asks for "b"; the second works in that of "b" and, as call 4, asks for
    "a"; both ask for other commits than those checked out. *)
Definition crossed : system :=
  sys_round 4 "a" "a2" true true (sys_call 4 "a" "a2" true
    (sys_round 3 "b" "b2" true true (sys_call 3 "b" "b2" true
      (sys_round 2 "b" "b1" true true (sys_call 2 "b" "b1" true
        (sys_round 1 "a" "a1" true true (sys_call 1 "a" "a1" true NewRepositoryLock))))))).

Definition holds_only (held : list (nat * string)) (i : nat) (t : thread) : bool :=
  match t with
  | Working p _ _ => existsb (λ x, Nat.eqb x.1 i && String.eqb x.2 p) held
  | Sleeping _ _ _ => true
  | _ => false
  end.

Lemma only_closes held s s' : map_Forall (λ i t, holds_only held i t = true) (threads s) → lock_step s s' →
  ∃ i path, In (i, path) held ∧ s' = sys_close i path s.
Proof.
  intros Hs Hst. inversion Hst as [i path rev allow ok Hi|i path rev allow Hi|i path Hi]; subst; apply Hs in Hi; cbn in Hi; [done| |done].
  apply existsb_exists in Hi as ([j q] & Hin & [H1%Nat.eqb_eq H2%String.eqb_eq]%andb_prop). cbn in H1, H2. subst. eauto.
Qed.

(** The only steps left are those with which the two requests release the directories they hold,
    which they do when the calls 3 and 4 have returned: both wait for ever. *)
Example references_deadlock : lock_reachable crossed ∧ ∀ s', lock_step crossed s' → s' = sys_close 1 "a" crossed ∨ s' = sys_close 2 "b" crossed.
Proof.
  split.
  - unfold crossed. do 4 (apply enter_reachable; [|vm_compute; reflexivity|done]). apply reach_new.
  - intros s' Hst. apply (only_closes [(1%nat, "a"); (2%nat, "b")]) in Hst as (i & path & Hin & ->).
    + destruct Hin as [[= <- <-]|[[= <- <-]|[]]]; [by left|by right].
    + apply (bool_decide_unpack _). vm_compute. exact I.
Qed.

(** Requests without a revision would not see each other: a directory that is in use at no
    revision counts as free, and the second closer is never called. *)
Example no_revision :
  let s := sys_round 2 "repo" "c1" true true (sys_call 2 "repo" "c1" true (sys_round 1 "repo" "" false true (sys_call 1 "repo" "" false NewRepositoryLock))) in
  log s = [EInit "repo" 0 true true "" false; EInit "repo" 1 true true "c1" true].
Proof. vm_compute. done. Qed.

(** A checkout that fails leaves the directory as it is, and the next one does not clean it either. *)
Example failed_checkout_is_not_cleaned :
  let s := sys_broadcast 1 "repo" (sys_close 1 "repo" (sys_round 1 "repo" "c1" true true (sys_call 1 "repo" "c1" true NewRepositoryLock))) in
  let s := sys_round 3 "repo" "c2" true true (sys_call 3 "repo" "c2" true (sys_round 2 "repo" "c3" true false (sys_call 2 "repo" "c3" true s))) in
  drop 2 (log s) = [EInit "repo" 2 false false "c3" true; EInit "repo" 3 false true "c2" true].
Proof. vm_compute. done. Qed.

End LockSample.
