(* ===== verification/HideSecrets.v ===== *)
(** * Hiding the values of secrets (src/gitops-engine/pkg/diff/diff.go)

    Before a secret is shown or logged its values are replaced by pluses, in the desired and
    the live object and in the last applied configuration that the live object carries.  What
    stays visible is which of the three agree. *)

From S2P Require Import Prelude GoStd.
Local Open Scope string_scope.
Local Open Scope list_scope.

(** ** Objects

    An object is the part of it that is read or written here; JSON values that are neither
    null nor texts, and all the rest of an object, are given. *)

Class SecretValues : Type := {
  other : Type;
  (** [fmt.Sprintf] with %s *)
  sprint : other → string;
  rest_t : Type;
}.

Inductive val `{SV : SecretValues} := VNull | VText (s : string) | VOther (o : other).

(** A field that should be a map; [Bad] is anything else, or a parent that is no map. *)
Inductive field `{SV : SecretValues} := Absent | Null | Bad | Fields (m : gmap string val).

Record object `{SV : SecretValues} := { isCoreSecret : bool; data : field; stringData : field; annotations : field; rest : rest_t }.

(** Conversions of libraries: base64, the data of the typed secret that an object can be
    converted to (if it has some), and JSON *)
Class SecretCodec `{SV : SecretValues} : Type := {
  (** The text of an annotation in [unstructured.GetAnnotations] *)
  annotation_text : val → option string;
  annotation_text_text s : annotation_text (VText s) = Some s;
  EncodeToString : string → string;
  typed_data : object → option field;
  unmarshal_object : string → option object;
  marshal_object : object → option string;
}.

Section hiding.
Context {SV : SecretValues} {SC : SecretCodec}.

Definition set_data (f : field) (o : object) : object :=
  {| isCoreSecret := isCoreSecret o; data := f; stringData := stringData o; annotations := annotations o; rest := rest o |}.
Definition set_annotations (f : field) (o : object) : object :=
  {| isCoreSecret := isCoreSecret o; data := data o; stringData := stringData o; annotations := f; rest := rest o |}.
Definition drop_stringData (o : object) : object :=
  {| isCoreSecret := isCoreSecret o; data := data o; stringData := Absent; annotations := annotations o; rest := rest o |}.

(** [unstructured.GetAnnotations]: nil unless all values have texts *)
Definition GetAnnotations (o : object) : option (gmap string string) :=
  match annotations o with
  | Fields m => if bool_decide (map_Forall (λ _ v, is_Some (annotation_text v)) m) then Some (omap annotation_text m) else None
  | _ => None
  end.

(** [unstructured.SetAnnotations] of a map that is not empty *)
Definition SetAnnotations (m : gmap string string) (o : object) : object := set_annotations (Fields (VText <$> m)) o.

(** ** The code *)

Definition replacement : string := "++++++++".
Definition LastAppliedConfigAnnotation : string := "kubectl.kubernetes.io/last-applied-configuration".

Definition toString (v : val) : string := match v with VNull => "" | VText s => s | VOther o => sprint o end.

(** Errors of the JSON are ignored by the caller. *)
Definition GetLastAppliedConfigAnnotation (live : object) : option object :=
  annotations ← GetAnnotations live; text ← annotations !! LastAppliedConfigAnnotation; unmarshal_object text.

Definition encode (v : val) : val := match v with VText s => VText (EncodeToString s) | _ => v end.

(** [stringData] moved to [data] *)
Definition move_stringData (o : object) : object :=
  match stringData o with
  | Fields sd => drop_stringData (set_data (Fields ((encode <$> sd) ∪ match data o with Fields d => d | _ => ∅ end)) o)
  | _ => o
  end.

Definition NormalizeSecret (o : object) : object :=
  if isCoreSecret o then
    let o := move_stringData o in
    match typed_data o with Some d => set_data d o | None => o end
  else o.

Section hide.
Context (get : object → field) (set : field → object → object).

(** One key in the objects, of which some may be missing; [None] is the error for a field that
    is no map. *)
Fixpoint hide_key (k : string) (nextReplacement : string) (valToReplacement : gmap string string) (objs : list (option object))
    : option (list (option object)) :=
  match objs with
  | [] => Some []
  | None :: r => cons None <$> hide_key k nextReplacement valToReplacement r
  | Some x :: r =>
      match get x with
      | Bad => None
      | Null | Absent => cons (Some x) <$> hide_key k nextReplacement valToReplacement r
      | Fields m =>
          match m !! k with
          | None => cons (Some x) <$> hide_key k nextReplacement valToReplacement r
          | Some valData =>
              let val := toString valData in
              match valToReplacement !! val with
              | Some replacement =>
                  cons (Some (set (Fields (<[k := VText replacement]> m)) x)) <$> hide_key k nextReplacement valToReplacement r
              | None =>
                  cons (Some (set (Fields (<[k := VText nextReplacement]> m)) x)) <$>
                    hide_key k (nextReplacement +:+ "++++") (<[val := nextReplacement]> valToReplacement) r
              end
          end
      end
  end.

(** The keys come in the order in which their map is walked. *)
Fixpoint hide (keys : list string) (objs : list (option object)) : option (list (option object)) :=
  match keys with
  | [] => Some objs
  | k :: keys => objs ← hide_key k replacement ∅ objs; hide keys objs
  end.
End hide.

Definition data_keys (o : option object) : gset string :=
  match o with Some x => match data x with Fields m => dom m | _ => ∅ end | None => ∅ end.

(** The end of [HideSecretData]: the hidden configuration goes back into the live object. *)
Definition store_last_applied (hideAnnotations : gset string) (live last : option object) : option (option object) :=
  match live, last with
  | Some live, Some last =>
      text ← (if bool_decide (LastAppliedConfigAnnotation ∈ hideAnnotations) then Some replacement else marshal_object last);
      Some (Some (SetAnnotations (<[LastAppliedConfigAnnotation := text]> (default ∅ (GetAnnotations live))) live))
  | _, _ => Some live
  end.

(** The order of the keys is that of [walk]. *)
Definition HideSecretData (walk : gset string → list string) (target live : option object) (hideAnnotations : gset string)
    : option (option object * option object) :=
  let last := live ≫= GetLastAppliedConfigAnnotation in
  let objs := [NormalizeSecret <$> target; NormalizeSecret <$> live; NormalizeSecret <$> last] in
  objs ← hide data set_data (walk (⋃ (data_keys <$> objs))) objs;
  objs ← hide annotations set_annotations (walk hideAnnotations) objs;
  match objs with
  | [target; live; last] => live ← store_last_applied hideAnnotations live last; Some (target, live)
  | _ => None
  end.
End hiding.

(** ** What a key becomes *)

Section facts.
Context {SV : SecretValues} {SC : SecretCodec}.

(** The replacements that a key has been given after some values *)
Fixpoint seen_after (next : string) (seen : gmap string string) (l : list string) : gmap string string :=
  match l with
  | [] => seen
  | v :: l => match seen !! v with Some _ => seen_after next seen l | None => seen_after (next +:+ "++++") (<[v := next]> seen) l end
  end.

Lemma seen_after_keeps next seen l v r : seen !! v = Some r → seen_after next seen l !! v = Some r.
Proof.
  revert next seen. induction l as [|w l IH]; intros next seen Hv; [done|]. cbn [seen_after].
  destruct (seen !! w) eqn:E; apply IH; [done|]. rewrite lookup_insert_ne; [done|]. intros ->. congruence.
Qed.

Lemma seen_after_elem next seen l v : v ∈ l → is_Some (seen_after next seen l !! v).
Proof.
  revert next seen. induction l as [|w l IH]; intros next seen Hv; [by apply elem_of_nil in Hv|]. cbn [seen_after].
  apply elem_of_cons in Hv as [->|Hv]; [|destruct (seen !! w); by apply IH].
  destruct (seen !! w) as [r|] eqn:E; eexists; apply seen_after_keeps; [done|apply lookup_insert_eq].
Qed.

(** The texts that replace values, by number *)
Fixpoint pluses (n : nat) : string := match n with 0 => replacement | S n => pluses n +:+ "++++" end.

Lemma length_pluses n : String.length (pluses n) = 8 + 4 * n.
Proof. induction n as [|n IH]; [done|]. cbn [pluses]. rewrite string_length_app, IH. cbn. lia. Qed.

Lemma pluses_inj n m : pluses n = pluses m → n = m.
Proof. intros H. apply (f_equal String.length) in H. rewrite !length_pluses in H. lia. Qed.

(** What was given out so far are the first [n] replacements, each for one value. *)
Definition given (n : nat) (seen : gmap string string) : Prop :=
  (∀ v r, seen !! v = Some r → ∃ i, i < n ∧ r = pluses i) ∧ (∀ v w r, seen !! v = Some r → seen !! w = Some r → v = w).

Lemma given_insert n seen v : given n seen → given (S n) (<[v := pluses n]> seen).
Proof.
  intros [H1 H2]. split.
  - intros w r [[_ <-]|[_ H]]%lookup_insert_Some; [exists n; split; [lia|done]|]. apply H1 in H as (i & Hi & ->). exists i. split; [lia|done].
  - intros w u r [[<- <-]|[Hw Hr]]%lookup_insert_Some [[<- Hr']|[Hu Hr']]%lookup_insert_Some; [done| | |by eapply H2].
    + apply H1 in Hr' as (i & Hi & ->%pluses_inj). lia.
    + subst r. apply H1 in Hr as (i & Hi & ->%pluses_inj). lia.
Qed.

Lemma seen_after_given n seen l : given n seen → ∃ m, (m ≤ n + length l)%nat ∧ given m (seen_after (pluses n) seen l).
Proof.
  revert n seen. induction l as [|v l IH]; intros n seen Hg; [exists n; split; [cbn; lia|done]|]. cbn [seen_after length].
  destruct (seen !! v); [destruct (IH n seen Hg) as (m & Hm & H)|destruct (IH (S n) _ (given_insert _ _ v Hg)) as (m & Hm & H)];
    exists m; (split; [lia|done]).
Qed.

Definition replaced (l : list string) : gmap string string := seen_after replacement ∅ l.

Lemma replaced_given l : ∃ m, (m ≤ length l)%nat ∧ given m (replaced l).
Proof. apply (seen_after_given 0). split; intros ? ?; by rewrite lookup_empty. Qed.

(** A value gets one of the texts, and another than other values. *)
Lemma replaced_pluses l v : v ∈ l → ∃ n, (n < length l)%nat ∧ replaced l !! v = Some (pluses n).
Proof.
  intros Hv. destruct (replaced_given l) as (m & Hm & [Hg _]). destruct (seen_after_elem replacement ∅ l v Hv) as [r Hr].
  fold (replaced l) in Hr. destruct (Hg _ _ Hr) as (n & Hn & ->). exists n. split; [lia|done].
Qed.

Lemma replaced_inj l v w : v ∈ l → w ∈ l → replaced l !! v = replaced l !! w → v = w.
Proof.
  intros Hv Hw Heq. destruct (replaced_given l) as (m & _ & [_ Hg]). destruct (replaced_pluses l v Hv) as (n & _ & Hr).
  apply (Hg _ _ (pluses n)); congruence.
Qed.

(** *** Values that agree in the same places are replaced by the same texts *)

Lemma seen_after_related (R : string → string → Prop) next seen1 seen2 l1 l2 :
  (∀ a b a' b', R a b → R a' b' → a = a' ↔ b = b') →
  (∀ a b, R a b → seen1 !! a = seen2 !! b) → Forall2 R l1 l2 →
  ∀ a b, R a b → seen_after next seen1 l1 !! a = seen_after next seen2 l2 !! b.
Proof.
  intros HR Hs Hl. revert next seen1 seen2 Hs. induction Hl as [|v w l1 l2 Hvw _ IH]; intros next seen1 seen2 Hs; [done|].
  cbn [seen_after]. pose proof (Hs v w Hvw) as E. destruct (seen1 !! v) as [r|], (seen2 !! w) as [r'|]; try done; apply IH; [done|].
  intros a b Hab. destruct (HR _ _ _ _ Hab Hvw) as [H1 H2]. destruct (decide (a = v)) as [->|Ha].
  - rewrite H1 by done. by rewrite !lookup_insert_eq.
  - rewrite !lookup_insert_ne; [by apply Hs|intros <-; by apply Ha, H2|done].
Qed.

(** Present in the same places, and equal in the same places *)
Definition same_pattern (l1 l2 : list (option string)) : Prop :=
  Forall2 (λ a b, is_Some a ↔ is_Some b) l1 l2 ∧ ∀ i j, l1 !! i = l1 !! j ↔ l2 !! i = l2 !! j.

Definition present (l : list (option string)) : list string := omap id l.

Lemma omap_related (R : string → string → Prop) (l1 l2 : list (option string)) :
  Forall2 (λ a b, is_Some a ↔ is_Some b) l1 l2 → (∀ j x y, l1 !! j = Some (Some x) → l2 !! j = Some (Some y) → R x y) →
  Forall2 R (present l1) (present l2).
Proof.
  induction 1 as [|x y l1 l2 Hxy _ IH]; intros H; [constructor|].
  assert (Forall2 R (present l1) (present l2)) as Hr by (apply IH; intros j; apply (H (S j))).
  destruct x as [x|], y as [y|]; cbn; [constructor; [by apply (H 0)|done]| | |done]; exfalso; destruct Hxy as [H1 H2];
    [destruct H1|destruct H2]; eauto; done.
Qed.

Lemma same_pattern_replaced l1 l2 i a b :
  same_pattern l1 l2 → l1 !! i = Some (Some a) → l2 !! i = Some (Some b) →
  replaced (present l1) !! a = replaced (present l2) !! b.
Proof.
  intros [Hp Heq] Ha Hb. apply (seen_after_related (λ a b, ∃ i, l1 !! i = Some (Some a) ∧ l2 !! i = Some (Some b))).
  - intros x y x' y' (j & Hx & Hy) (j' & Hx' & Hy'). specialize (Heq j j'). rewrite Hx, Hx', Hy, Hy' in Heq. naive_solver.
  - intros. by rewrite !lookup_empty.
  - apply omap_related; [done|]. intros j x y Hx Hy. by exists j.
  - by exists i.
Qed.
End facts.

(** ** What an object becomes *)

Section objects.
Context {SV : SecretValues} {SC : SecretCodec}.
Context (get : object → field) (set : field → object → object).
Context (get_set : ∀ f x, get (set f x) = f) (set_get : ∀ x, set (get x) x = x) (set_set : ∀ f g x, set f (set g x) = set f x).

Definition key_text (k : string) (x : object) : option string := match get x with Fields m => toString <$> m !! k | _ => None end.

(** The values of a key in the objects *)
Definition key_texts (k : string) (objs : list (option object)) : list (option string) := (λ o, o ≫= key_text k) <$> objs.

Definition in_objects (f : object → object) (objs : list (option object)) : list (option object) := option_map f <$> objs.

Definition mask_key (k : string) (seen : gmap string string) (x : object) : object :=
  match get x with
  | Fields m => match m !! k with Some v => set (Fields (<[k := VText (default "" (seen !! toString v))]> m)) x | None => x end
  | _ => x
  end.

Definition bad (o : option object) : Prop := match o with Some x => get x = Bad | None => False end.

#[local] Instance bad_dec o : Decision (bad o).
Proof. destruct o as [x|]; [|right; tauto]. cbn. destruct (get x); [right|right|left|right]; done. Defined.

Lemma hide_key_spec k next seen objs : Forall (λ o, ¬ bad o) objs →
  hide_key get set k next seen objs = Some (in_objects (mask_key k (seen_after next seen (present (key_texts k objs)))) objs).
Proof.
  intros Hb. revert next seen. induction Hb as [|o objs Ho _ IH]; intros next seen; [done|]. destruct o as [x|]; cbn [hide_key].
  2: { rewrite IH. done. }
  cbn [bad] in Ho. unfold key_texts. rewrite fmap_cons. cbn [mbind option_bind]. unfold key_text at 1, mask_key at 1.
  destruct (get x) as [| | |m] eqn:Eg; [by rewrite IH; cbn; rewrite Eg|by rewrite IH; cbn; rewrite Eg|done|].
  destruct (m !! k) as [v|] eqn:Ek; cbn; [|by rewrite IH; cbn; rewrite Eg, Ek]. destruct (seen !! toString v) as [r|] eqn:Es.
  - rewrite IH. cbn. rewrite Eg, Ek, (seen_after_keeps _ _ _ _ r) by done. done.
  - rewrite IH. cbn. rewrite Eg, Ek, (seen_after_keeps _ _ _ _ next) by apply lookup_insert_eq. done.
Qed.

Lemma hide_key_bad k next seen objs : Exists bad objs → hide_key get set k next seen objs = None.
Proof.
  intros Hb. revert next seen. induction Hb as [o objs Ho|o objs _ IH]; intros next seen.
  - destruct o as [x|]; [|done]. cbn in *. by rewrite Ho.
  - destruct o as [x|]; cbn [hide_key]; [|by rewrite IH]. destruct (get x) as [| | |m]; [by rewrite IH|by rewrite IH|done|].
    destruct (m !! k); [|by rewrite IH]. cbv zeta. destruct (seen !! _); by rewrite IH.
Qed.

(** The replacement of a value *)
Definition new_value (objs : list (option object)) (k : string) (v : val) : val :=
  VText (default "" (replaced (present (key_texts k objs)) !! toString v)).

Definition mask (keys : list string) (objs : list (option object)) (x : object) : object :=
  match get x with
  | Fields m => set (Fields (map_imap (λ k v, Some (if bool_decide (k ∈ keys) then new_value objs k v else v)) m)) x
  | _ => x
  end.

Lemma mask_nil objs x : mask [] objs x = x.
Proof.
  unfold mask. destruct (get x) as [| | |m] eqn:Eg; [done..|]. rewrite <-(set_get x) at 2. rewrite Eg. do 2 f_equal.
  apply map_eq. intros k. rewrite map_lookup_imap. by destruct (m !! k).
Qed.

Lemma mask_key_get k seen x : get (mask_key k seen x) = match get x with
  | Fields m => Fields (match m !! k with Some v => <[k := VText (default "" (seen !! toString v))]> m | None => m end)
  | f => f end.
Proof. unfold mask_key. destruct (get x) as [| | |m] eqn:E; [done..|]. destruct (m !! k); [by rewrite get_set|done]. Qed.

Lemma mask_key_bad k seen o : bad (option_map (mask_key k seen) o) ↔ bad o.
Proof. destruct o as [x|]; [|done]. cbn. rewrite mask_key_get. by destruct (get x). Qed.

Lemma key_text_mask_key k k' seen x : k' ≠ k → key_text k' (mask_key k seen x) = key_text k' x.
Proof.
  intros Hk. unfold key_text. rewrite mask_key_get. destruct (get x) as [| | |m]; [done..|].
  destruct (m !! k); [|done]. by rewrite lookup_insert_ne.
Qed.

Lemma key_texts_mask_key k k' seen objs : k' ≠ k → key_texts k' (in_objects (mask_key k seen) objs) = key_texts k' objs.
Proof.
  intros Hk. unfold key_texts, in_objects. rewrite <-list_fmap_compose. apply list_fmap_ext. intros i o _. destruct o as [x|]; [|done].
  cbn. by apply key_text_mask_key.
Qed.

Lemma mask_cons k keys objs x : k ∉ keys →
  mask keys (in_objects (mask_key k (replaced (present (key_texts k objs)))) objs) (mask_key k (replaced (present (key_texts k objs))) x) =
  mask (k :: keys) objs x.
Proof.
  intros Hk. set (seen := replaced _). unfold mask. rewrite mask_key_get. destruct (get x) as [| | |m] eqn:Eg.
  1-3: unfold mask_key; by rewrite Eg.
  assert (∀ f, set f (mask_key k seen x) = set f x) as ->.
  { intros f. unfold mask_key. rewrite Eg. destruct (m !! k); [apply set_set|done]. }
  do 2 f_equal. apply map_eq. intros k'. rewrite !map_lookup_imap.
  destruct (decide (k' = k)) as [->|Hne].
  - rewrite (bool_decide_eq_false_2 (k ∈ keys)) by done. rewrite (bool_decide_eq_true_2 (k ∈ k :: keys)) by by left.
    destruct (m !! k) as [v|] eqn:Ev; [by rewrite lookup_insert_eq|by rewrite Ev].
  - assert (match m !! k with Some v => <[k:=VText (default "" (seen !! toString v))]> m | None => m end !! k' = m !! k') as ->.
    { destruct (m !! k); [by rewrite lookup_insert_ne|done]. }
    destruct (m !! k') as [v|]; [|done]. cbn. f_equal. unfold new_value. rewrite key_texts_mask_key by done.
    assert (bool_decide (k' ∈ k :: keys) = bool_decide (k' ∈ keys)) as ->; [|done].
    apply bool_decide_ext. rewrite elem_of_cons. naive_solver.
Qed.

Lemma in_objects_id f objs : (∀ x, f x = x) → in_objects f objs = objs.
Proof.
  intros Hf. induction objs as [|o objs IH]; [done|]. change (in_objects f (o :: objs)) with (option_map f o :: in_objects f objs).
  rewrite IH. destruct o as [x|]; cbn; by rewrite ?Hf.
Qed.

Lemma hide_spec keys objs : NoDup keys → Forall (λ o, ¬ bad o) objs → hide get set keys objs = Some (in_objects (mask keys objs) objs).
Proof.
  intros Hk. revert objs. induction Hk as [|k keys Hk _ IH]; intros objs Hb; cbn [hide].
  - by rewrite in_objects_id by apply mask_nil.
  - rewrite hide_key_spec by done. cbn [mbind option_bind]. fold (replaced (present (key_texts k objs))). rewrite IH.
    + unfold in_objects at 1 3. f_equal. rewrite <-list_fmap_compose. apply list_fmap_ext. intros i [x|] _; [|done]. cbn. f_equal. by apply mask_cons.
    + unfold in_objects. apply Forall_fmap. eapply Forall_impl; [exact Hb|]. intros o Ho. cbn. by rewrite mask_key_bad.
Qed.

Lemma hide_bad keys objs : Exists bad objs → hide get set keys objs = match keys with [] => Some objs | _ => None end.
Proof. intros Hb. destruct keys as [|k keys]; [done|]. cbn [hide]. by rewrite hide_key_bad. Qed.

Definition any_bad (objs : list (option object)) : bool := bool_decide (Exists bad objs).

Lemma hide_cases keys objs : NoDup keys →
  hide get set keys objs = if any_bad objs && negb (bool_decide (keys = [])) then None else Some (in_objects (mask keys objs) objs).
Proof.
  intros Hk. unfold any_bad. destruct (decide (Exists bad objs)) as [Hb|Hb].
  - rewrite (bool_decide_eq_true_2 _ Hb), hide_bad by done. destruct keys as [|k keys]; [|done]. cbn. f_equal. symmetry.
    apply in_objects_id, mask_nil.
  - rewrite (bool_decide_eq_false_2 _ Hb), hide_spec; [done|done|]. by apply not_Exists_Forall in Hb; [|apply _].
Qed.
End objects.

(** ** What can be seen of a secret *)

Section seen.
Context {SV : SecretValues} {SC : SecretCodec}.

(** The same keys, and the same values except for some keys *)
Definition same_but (ex : gset string) (f g : field) : Prop :=
  match f, g with Fields m1, Fields m2 => dom m1 = dom m2 ∧ ∀ k, k ∉ ex → m1 !! k = m2 !! k | _, _ => f = g end.

Definition same_keys (f g : field) : Prop := match f, g with Fields m1, Fields m2 => dom m1 = dom m2 | _, _ => f = g end.

Lemma same_but_empty f g : same_but ∅ f g → f = g.
Proof. destruct f, g; try done. cbn. intros [_ H]. f_equal. apply map_eq. intros k. apply H. set_solver. Qed.

Lemma dom_mask (f : string → val → val) (m : gmap string val) : dom (map_imap (λ k v, Some (f k v)) m) = dom m.
Proof. apply set_eq. intros k. rewrite !elem_of_dom, map_lookup_imap. destruct (m !! k); naive_solver. Qed.

Section field.
Context (get : object → field) (set : field → object → object) (get_set : ∀ f x, get (set f x) = f).

Lemma get_mask keys objs x : get (mask get set keys objs x) =
  match get x with
  | Fields m => Fields (map_imap (λ k v, Some (if bool_decide (k ∈ keys) then new_value get objs k v else v)) m)
  | f => f
  end.
Proof. unfold mask. destruct (get x) eqn:E; [done..|]. apply get_set. Qed.

Lemma new_value_same objs1 objs2 i x y k v w m1 m2 :
  objs1 !! i = Some (Some x) → objs2 !! i = Some (Some y) → get x = Fields m1 → get y = Fields m2 → m1 !! k = Some v → m2 !! k = Some w →
  same_pattern (key_texts get k objs1) (key_texts get k objs2) → new_value get objs1 k v = new_value get objs2 k w.
Proof.
  intros Hx Hy Hgx Hgy Hv Hw Hp. unfold new_value. do 2 f_equal. apply (same_pattern_replaced _ _ i); [done|..];
    unfold key_texts; rewrite list_lookup_fmap, ?Hx, ?Hy; cbn; unfold key_text; by rewrite ?Hgx, ?Hgy, ?Hv, ?Hw.
Qed.

Lemma mask_alike keys1 keys2 (keys ex : gset string) objs1 objs2 i x y :
  (∀ k, k ∈ keys1 ↔ k ∈ keys) → (∀ k, k ∈ keys2 ↔ k ∈ keys) →
  objs1 !! i = Some (Some x) → objs2 !! i = Some (Some y) →
  (∀ k, k ∈ keys → same_pattern (key_texts get k objs1) (key_texts get k objs2)) →
  same_but (keys ∪ ex) (get x) (get y) → same_but ex (get (mask get set keys1 objs1 x)) (get (mask get set keys2 objs2 y)).
Proof.
  intros H1 H2 Hx Hy Hp Hs. rewrite !get_mask. destruct (get x) as [| | |m1] eqn:E1, (get y) as [| | |m2] eqn:E2; try done.
  cbn in Hs |- *. destruct Hs as [Hd Hs]. rewrite !dom_mask. split; [done|]. intros k Hk. rewrite !map_lookup_imap.
  destruct (decide (k ∈ keys)) as [Hin|Hin].
  - rewrite !bool_decide_eq_true_2 by naive_solver. assert (is_Some (m1 !! k) ↔ is_Some (m2 !! k)) as Hd' by by rewrite <-!elem_of_dom, Hd.
    destruct (m1 !! k) as [v|] eqn:Ev, (m2 !! k) as [w|] eqn:Ew; [|by exfalso; destruct Hd' as [H _]; destruct H; eauto|
      by exfalso; destruct Hd' as [_ H]; destruct H; eauto|done].
    cbn. f_equal. eapply new_value_same; try done. by apply Hp.
  - rewrite !bool_decide_eq_false_2 by naive_solver. rewrite Hs by set_solver. done.
Qed.
End field.

Definition last_applied (live : option object) : option object := live ≫= GetLastAppliedConfigAnnotation.

(** The objects that are hidden together *)
Definition parts (target live : option object) : list (option object) :=
  [NormalizeSecret <$> target; NormalizeSecret <$> live; NormalizeSecret <$> last_applied live].

(** Two objects that differ in the values of secrets only: [hidden] are the annotations that
    count as secret, [ex] another that is written anew *)
Record alike (hidden ex : gset string) (x y : object) : Prop := {
  al_secret : isCoreSecret x = isCoreSecret y;
  al_stringData : stringData x = stringData y;
  al_rest : rest x = rest y;
  al_data : same_keys (data x) (data y);
  al_annotations : same_but (hidden ∪ ex) (annotations x) (annotations y);
}.

(** The annotation of the last applied configuration is written anew if it can be read. *)
Definition rewritten (live : option object) : gset string := if last_applied live is Some _ then {[LastAppliedConfigAnnotation]} else ∅.

(** Inputs that differ in secrets only, and where the same of them agree *)
Record alike_inputs (hidden : gset string) (t1 l1 t2 l2 : option object) : Prop := {
  ai_target : option_Forall2 (alike hidden ∅) (NormalizeSecret <$> t1) (NormalizeSecret <$> t2);
  ai_last : option_Forall2 (alike hidden ∅) (NormalizeSecret <$> last_applied l1)
              (NormalizeSecret <$> last_applied l2);
  ai_live : option_Forall2 (alike hidden (rewritten l1))
              (NormalizeSecret <$> l1) (NormalizeSecret <$> l2);
  ai_data k : same_pattern (key_texts data k (parts t1 l1)) (key_texts data k (parts t2 l2));
  ai_annotations k : k ∈ hidden → same_pattern (key_texts annotations k (parts t1 l1)) (key_texts annotations k (parts t2 l2));
}.

(** After the data was hidden, and after the annotations were *)
Record alike1 (hidden ex : gset string) (x y : object) : Prop := {
  a1_secret : isCoreSecret x = isCoreSecret y;
  a1_stringData : stringData x = stringData y;
  a1_rest : rest x = rest y;
  a1_data : data x = data y;
  a1_annotations : same_but (hidden ∪ ex) (annotations x) (annotations y);
}.

Lemma alike1_eq x y : alike1 ∅ ∅ x y → x = y.
Proof.
  intros [H1 H2 H3 H4 H5]. assert (annotations x = annotations y) by (apply same_but_empty; eapply eq_ind; [exact H5|f_equal; set_solver]).
  destruct x, y; cbn in *; congruence.
Qed.

(** *** The steps of both runs *)

Definition walks (walk : gset string → list string) : Prop := ∀ X, walk X ≡ₚ elements X.

Lemma walks_elem walk X k : walks walk → k ∈ walk X ↔ k ∈ X.
Proof. intros Hw. by rewrite (Hw X), elem_of_elements. Qed.

Lemma walks_NoDup walk X : walks walk → NoDup (walk X).
Proof. intros Hw. rewrite (Hw X). apply NoDup_elements. Qed.

Lemma walks_nil walk1 walk2 X : walks walk1 → walks walk2 → bool_decide (walk1 X = []) = bool_decide (walk2 X = []).
Proof.
  intros H1 H2. assert (walk1 X ≡ₚ walk2 X) as Hp by by rewrite (H1 X), (H2 X).
  apply bool_decide_ext. split; intros H.
  - apply Permutation_nil. by rewrite <-Hp, H.
  - apply Permutation_nil. by rewrite Hp, H.
Qed.

Lemma mask_set_data keys objs x : ∃ f, mask data set_data keys objs x = set_data f x.
Proof. unfold mask. exists (data (mask data set_data keys objs x)). unfold mask. destruct x as [s d sd a r]; cbn. by destruct d. Qed.

Lemma mask_set_annotations keys objs x : ∃ f, mask annotations set_annotations keys objs x = set_annotations f x.
Proof. exists (annotations (mask annotations set_annotations keys objs x)). unfold mask. destruct x as [s d sd a r]; cbn. by destruct a. Qed.

Lemma data_step keys1 keys2 K hidden ex objs1 objs2 i x y :
  (∀ k, k ∈ keys1 ↔ k ∈ K) → (∀ k, k ∈ keys2 ↔ k ∈ K) → (∀ m, data x = Fields m → dom m ⊆ K) →
  objs1 !! i = Some (Some x) → objs2 !! i = Some (Some y) → (∀ k, same_pattern (key_texts data k objs1) (key_texts data k objs2)) →
  alike hidden ex x y → alike1 hidden ex (mask data set_data keys1 objs1 x) (mask data set_data keys2 objs2 y).
Proof.
  intros H1 H2 HK Hx Hy Hp [Ha Hb Hc Hd He].
  assert (data (mask data set_data keys1 objs1 x) = data (mask data set_data keys2 objs2 y)) as Hdata.
  { apply same_but_empty. apply (mask_alike data set_data (λ _ _, eq_refl) keys1 keys2 K ∅ objs1 objs2 i); [done..|].
    destruct (data x) as [| | |m1] eqn:E1, (data y) as [| | |m2] eqn:E2; try done. cbn in Hd |- *. split; [done|].
    intros k Hk. specialize (HK m1 eq_refl). assert (k ∉ dom m1 ∧ k ∉ dom m2) as [Hn1 Hn2] by (rewrite <-Hd; set_solver).
    apply not_elem_of_dom in Hn1, Hn2. by rewrite Hn1, Hn2. }
  destruct (mask_set_data keys1 objs1 x) as [f1 E1], (mask_set_data keys2 objs2 y) as [f2 E2].
  rewrite E1, E2 in *. by split.
Qed.

Lemma annotations_step keys1 keys2 hidden ex objs1 objs2 i x y :
  (∀ k, k ∈ keys1 ↔ k ∈ hidden) → (∀ k, k ∈ keys2 ↔ k ∈ hidden) →
  objs1 !! i = Some (Some x) → objs2 !! i = Some (Some y) →
  (∀ k, k ∈ hidden → same_pattern (key_texts annotations k objs1) (key_texts annotations k objs2)) →
  alike1 hidden ex x y → alike1 ∅ ex (mask annotations set_annotations keys1 objs1 x) (mask annotations set_annotations keys2 objs2 y).
Proof.
  intros H1 H2 Hx Hy Hp [Ha Hb Hc Hd He].
  pose proof (mask_alike annotations set_annotations (λ _ _, eq_refl) keys1 keys2 hidden ex objs1 objs2 i x y H1 H2 Hx Hy Hp He) as Hann.
  destruct (mask_set_annotations keys1 objs1 x) as [f1 E1], (mask_set_annotations keys2 objs2 y) as [f2 E2].
  rewrite E1, E2 in *. split; try done. cbn in Hann |- *. by replace (∅ ∪ ex) with ex by set_solver.
Qed.

(** *** The objects of two runs *)

Definition lists_alike (R : nat → object → object → Prop) (objs1 objs2 : list (option object)) : Prop :=
  length objs1 = length objs2 ∧ ∀ i o1 o2, objs1 !! i = Some o1 → objs2 !! i = Some o2 → option_Forall2 (R i) o1 o2.

Lemma lists_alike_masked R R' f1 f2 objs1 objs2 :
  lists_alike R objs1 objs2 →
  (∀ i x y, objs1 !! i = Some (Some x) → objs2 !! i = Some (Some y) → R i x y → R' i (f1 x) (f2 y)) →
  lists_alike R' (in_objects f1 objs1) (in_objects f2 objs2).
Proof.
  intros [Hl HR] Hf. unfold in_objects. split; [by rewrite !length_fmap|]. intros i o1 o2.
  rewrite !list_lookup_fmap_Some. intros (x & -> & Hx) (y & -> & Hy). pose proof (HR _ _ _ Hx Hy) as H.
  destruct H as [x y H|]; constructor. by apply (Hf i).
Qed.

Lemma any_bad_alike get R objs1 objs2 :
  lists_alike R objs1 objs2 → (∀ i x y, R i x y → get x = Bad ↔ get y = Bad) → any_bad get objs1 = any_bad get objs2.
Proof.
  intros [Hl HR] Hg. unfold any_bad. apply bool_decide_ext. rewrite !Exists_exists.
  split; intros (o & [i Hi]%list_elem_of_lookup & Ho); destruct o as [x|]; try done.
  - destruct (lookup_lt_is_Some_2 objs2 i) as [o' Ho']; [rewrite <-Hl; by eapply lookup_lt_Some|].
    exists o'. split; [by apply list_elem_of_lookup; exists i|]. pose proof (HR _ _ _ Hi Ho') as H. inversion H as [? ? Hxy|]; subst. cbn in *. by apply (Hg i _ _ Hxy).
  - destruct (lookup_lt_is_Some_2 objs1 i) as [o' Ho']; [rewrite Hl; by eapply lookup_lt_Some|].
    exists o'. split; [by apply list_elem_of_lookup; exists i|]. pose proof (HR _ _ _ Ho' Hi) as H. inversion H as [? ? Hxy|]; subst. cbn in *. by apply (Hg i _ _ Hxy).
Qed.

Lemma same_but_bad ex f g : same_but ex f g → f = Bad ↔ g = Bad.
Proof. destruct f, g; naive_solver. Qed.

(** One field hidden in both runs *)
Lemma hide_alike get set (get_set : ∀ f x, get (set f x) = f) (set_get : ∀ x, set (get x) x = x)
    (set_set : ∀ f g x, set f (set g x) = set f x) R R' (walk1 walk2 : gset string → list string) K objs1 objs2 :
  walks walk1 → walks walk2 → lists_alike R objs1 objs2 → (∀ i x y, R i x y → get x = Bad ↔ get y = Bad) →
  (∀ i x y, objs1 !! i = Some (Some x) → objs2 !! i = Some (Some y) → R i x y →
    R' i (mask get set (walk1 K) objs1 x) (mask get set (walk2 K) objs2 y)) →
  option_Forall2 (λ r1 r2, lists_alike R' r1 r2 ∧ r1 = in_objects (mask get set (walk1 K) objs1) objs1 ∧
      r2 = in_objects (mask get set (walk2 K) objs2) objs2)
    (hide get set (walk1 K) objs1) (hide get set (walk2 K) objs2).
Proof.
  intros W1 W2 HR Hbad Hstep. rewrite !hide_cases by (done || by apply walks_NoDup).
  rewrite (any_bad_alike get R objs1 objs2), (walks_nil walk1 walk2) by done.
  destruct (_ && _); constructor. split_and!; [|done..]. by apply (lists_alike_masked R).
Qed.

Lemma data_keys_alike hidden ex objs1 objs2 :
  lists_alike (λ i, alike hidden (ex i)) objs1 objs2 → data_keys <$> objs1 = data_keys <$> objs2.
Proof.
  intros [Hl HR]. apply list_eq_same_length with (length objs1); [by rewrite length_fmap|by rewrite length_fmap|].
  intros i k1 k2 _. rewrite !list_lookup_fmap_Some. intros (o1 & -> & H1) (o2 & -> & H2).
  destruct (HR _ _ _ H1 H2) as [x y [_ _ _ Hd _]|]; [|done]. cbn. unfold same_keys in Hd. destruct (data x), (data y); by simplify_eq.
Qed.

Lemma data_keys_sub objs i x m : objs !! i = Some (Some x) → data x = Fields m → dom m ⊆ ⋃ (data_keys <$> objs).
Proof.
  intros Hi Hm k Hk. apply elem_of_union_list. exists (data_keys (Some x)). split; [|by cbn; rewrite Hm].
  apply list_elem_of_fmap. exists (Some x). split; [done|]. by eapply list_elem_of_lookup_2.
Qed.

(** Hiding the data does not touch annotations. *)
Lemma key_texts_data keys objs' k objs :
  key_texts annotations k (in_objects (mask data set_data keys objs') objs) = key_texts annotations k objs.
Proof.
  unfold key_texts, in_objects. rewrite <-list_fmap_compose. apply list_fmap_ext. intros i [x|] _; [|done].
  cbn. destruct (mask_set_data keys objs' x) as [f ->]. done.
Qed.

(** *** The last applied configuration *)

Lemma GetAnnotations_mask keys objs x m :
  GetAnnotations x = Some m → is_Some (GetAnnotations (mask annotations set_annotations keys objs x)).
Proof.
  unfold GetAnnotations, mask. destruct (annotations x) as [| | |a] eqn:Ea; try done. cbn [annotations set_annotations].
  case_bool_decide as Ht; [|done]. intros _. rewrite bool_decide_eq_true_2; [by eexists|].
  intros k v Hv. rewrite map_lookup_imap in Hv. destruct (a !! k) as [w|] eqn:Ew; [|done]. cbn in Hv. injection Hv as <-.
  case_bool_decide; [unfold new_value; rewrite annotation_text_text; eauto|by apply (Ht k w)].
Qed.

Lemma GetAnnotations_data f x : GetAnnotations (set_data f x) = GetAnnotations x.
Proof. done. Qed.

Lemma NormalizeSecret_keeps x : annotations (NormalizeSecret x) = annotations x ∧ rest (NormalizeSecret x) = rest x.
Proof.
  unfold NormalizeSecret, move_stringData. destruct (isCoreSecret x); [|done].
  destruct (stringData x); cbv zeta; by destruct (typed_data _).
Qed.

Lemma GetAnnotations_normal x : GetAnnotations (NormalizeSecret x) = GetAnnotations x.
Proof. unfold GetAnnotations. by rewrite (proj1 (NormalizeSecret_keeps x)). Qed.

(** Annotations that are the same but for one key become the same when it is written. *)
Lemma annotations_written k text x y m1 m2 :
  same_but {[k]} (annotations x) (annotations y) → GetAnnotations x = Some m1 → GetAnnotations y = Some m2 →
  <[k := text]> m1 = <[k := text]> m2.
Proof.
  unfold GetAnnotations. destruct (annotations x) as [| | |a]; try done. destruct (annotations y) as [| | |b]; try done.
  intros [_ Hs]. do 2 (case_bool_decide; [|done]). intros [= <-] [= <-]. apply map_eq. intros k'.
  destruct (decide (k' = k)) as [->|Hk]; [by rewrite !lookup_insert_eq|].
  rewrite !lookup_insert_ne, !lookup_omap, Hs by done || set_solver. done.
Qed.

Lemma store_alike hidden x1 x2 last m1 m2 :
  alike1 ∅ {[LastAppliedConfigAnnotation]} x1 x2 → GetAnnotations x1 = Some m1 → GetAnnotations x2 = Some m2 →
  store_last_applied hidden (Some x1) (Some last) = store_last_applied hidden (Some x2) (Some last).
Proof.
  intros [H1 H2 H3 H4 H5] Hm1 Hm2. unfold store_last_applied. destruct (if bool_decide _ then _ else _) as [text|]; [|done].
  cbn [mbind option_bind]. rewrite Hm1, Hm2. cbn [default from_option]. unfold default, id.
  rewrite (annotations_written _ text x1 x2 m1 m2); [|by rewrite (left_id_L ∅ (∪)) in H5|done|done].
  unfold SetAnnotations, set_annotations. by rewrite H1, H2, H3, H4.
Qed.

(** The two passes over the parts *)
Definition hide_both (walk : gset string → list string) (hideAnnotations : gset string) (objs : list (option object)) : option (list (option object)) :=
  objs ← hide data set_data (walk (⋃ (data_keys <$> objs))) objs; hide annotations set_annotations (walk hideAnnotations) objs.

Lemma HideSecretData_parts walk target live h :
  HideSecretData walk target live h = objs ← hide_both walk h (parts target live);
    match objs with
    | [target; live; last] => live ← store_last_applied h live last; Some (target, live)
    | _ => None
    end.
Proof. unfold HideSecretData, hide_both. cbv zeta. fold (last_applied live). fold (parts target live). by destruct (hide data _ _ _). Qed.

Lemma parts_alike h t1 l1 t2 l2 :
  alike_inputs h t1 l1 t2 l2 → lists_alike (λ i, alike h (if i is 1 then rewritten l1 else ∅)) (parts t1 l1) (parts t2 l2).
Proof. intros [Ht Hla Hli _ _]. split; [done|]. intros [|[|[|i]]] o1 o2; by intros [= <-] [= <-]. Qed.

(** What a run makes of an object: the data hidden, then the annotations *)
Definition masked (keys1 keys2 : list string) (objs : list (option object)) (x : object) : object :=
  mask annotations set_annotations keys2 (in_objects (mask data set_data keys1 objs) objs) (mask data set_data keys1 objs x).

Lemma hide_both_alike h walk1 walk2 t1 l1 t2 l2 :
  walks walk1 → walks walk2 → alike_inputs h t1 l1 t2 l2 →
  option_Forall2 (λ r1 r2, lists_alike (λ i, alike1 ∅ (if i is 1 then rewritten l1 else ∅)) r1 r2 ∧
      (∃ k1 k2, r1 = in_objects (masked k1 k2 (parts t1 l1)) (parts t1 l1)) ∧
      ∃ k1 k2, r2 = in_objects (masked k1 k2 (parts t2 l2)) (parts t2 l2))
    (hide_both walk1 h (parts t1 l1)) (hide_both walk2 h (parts t2 l2)).
Proof.
  intros W1 W2 Hin. pose proof (parts_alike _ _ _ _ _ Hin) as Hp. destruct Hin as [_ _ _ Hd Ha]. unfold hide_both.
  pose proof (data_keys_alike _ _ _ _ Hp) as HK. rewrite <-HK. set (K := ⋃ (data_keys <$> parts t1 l1)).
  destruct (hide_alike data set_data (λ _ _, eq_refl) (λ x, ltac:(by destruct x)) (λ _ _ _, eq_refl) _
    (λ i, alike1 h (if i is 1 then rewritten l1 else ∅)) walk1 walk2 K (parts t1 l1) (parts t2 l2) W1 W2 Hp)
    as [r1 r2 (HR & -> & ->)|]; [| |cbn [mbind option_bind]|constructor].
  - intros i x y [_ _ _ H _]. destruct (data x), (data y); naive_solver.
  - intros i x y Hx Hy Hxy. eapply data_step with (K := K); [by intros; apply walks_elem..| |done|done|done|done].
    intros m Hm. by eapply data_keys_sub.
  - destruct (hide_alike annotations set_annotations (λ _ _, eq_refl) (λ x, ltac:(by destruct x)) (λ _ _ _, eq_refl) _
      (λ i, alike1 ∅ (if i is 1 then rewritten l1 else ∅)) walk1 walk2 h _ _ W1 W2 HR) as [r1 r2 (HR' & -> & ->)|]; [| | |constructor].
    + intros i x y [_ _ _ _ H]. by eapply same_but_bad.
    + intros i x y Hx Hy Hxy. eapply annotations_step; [by intros; apply walks_elem..|done|done| |done].
      intros k Hk. rewrite !key_texts_data. by apply Ha.
    + constructor. split; [done|]. unfold in_objects. rewrite <-!list_fmap_compose. unfold masked, in_objects.
      split; do 2 eexists; apply list_fmap_ext; by intros i [x|] _.
Qed.

Lemma masked_annotations k1 k2 objs x a : last_applied (Some x) = Some a → is_Some (GetAnnotations (masked k1 k2 objs (NormalizeSecret x))).
Proof.
  cbn. unfold GetLastAppliedConfigAnnotation. rewrite <-GetAnnotations_normal. destruct (GetAnnotations _) as [m|] eqn:E; [|done]. intros _.
  unfold masked. destruct (mask_set_data k1 objs (NormalizeSecret x)) as [f ->]. by eapply (GetAnnotations_mask _ _ (set_data f _)).
Qed.

(** C15. What is shown of secrets tells nothing about their values, except which of the desired, the
    live and the last applied ones agree: two inputs that differ in the values of data and of
    hidden annotations only, and where the same of them agree, give the same result or the same
    error, in whatever order maps are walked. *)
Theorem secrets_not_seen walk1 walk2 h t1 l1 t2 l2 :
  walks walk1 → walks walk2 → alike_inputs h t1 l1 t2 l2 → HideSecretData walk1 t1 l1 h = HideSecretData walk2 t2 l2 h.
Proof.
  intros W1 W2 Hin. rewrite !HideSecretData_parts.
  destruct (hide_both_alike _ _ _ _ _ _ _ W1 W2 Hin) as [r1 r2 ([_ HR] & (k1 & k2 & ->) & (k3 & k4 & ->))|]; [|done].
  pose proof (HR 0 _ _ eq_refl eq_refl) as Ht. pose proof (HR 1 _ _ eq_refl eq_refl) as Hl. pose proof (HR 2 _ _ eq_refl eq_refl) as Hla.
  cbn [mbind option_bind in_objects parts fmap list_fmap] in *.
  assert (∀ o1 o2 : option object, option_Forall2 (alike1 ∅ ∅) o1 o2 → o1 = o2) as Heq.
  { intros o1 o2 [x y H|]; [f_equal; by apply alike1_eq|done]. }
  apply Heq in Ht as ->, Hla as Hla'. rewrite <-Hla'. f_equal. unfold rewritten in Hl.
  destruct (last_applied l1) as [a|] eqn:E1; cbn [option_map fmap option_fmap] in Hla' |- *; [|by rewrite (Heq _ _ Hl)].
  destruct (last_applied l2) as [b|] eqn:E2; [|done]. destruct l1 as [x|]; [|done]. destruct l2 as [y|]; [|done].
  cbn [option_map fmap option_fmap] in Hl |- *. inversion Hl as [? ? Hxy|]; subst.
  destruct (masked_annotations k1 k2 (parts t1 (Some x)) x a E1) as [m1 Hm1], (masked_annotations k3 k4 (parts t2 (Some y)) y b E2) as [m2 Hm2].
  by rewrite (store_alike h _ _ _ m1 m2 Hxy Hm1 Hm2).
Qed.

(** ** What is shown of a secret *)

Definition value (get : object → field) (k : string) (x : object) : option val := match get x with Fields m => m !! k | _ => None end.

(** Each value of the data and each hidden annotation is replaced by pluses, and nothing else. *)
Definition blotted (get : object → field) (k : string) (x x' : object) : Prop :=
  match value get k x with Some _ => ∃ n, (n < 3)%nat ∧ value get k x' = Some (VText (pluses n)) | None => value get k x' = None end.

Record hides (h : gset string) (x x' : object) : Prop := {
  hd_secret : isCoreSecret x' = isCoreSecret x;
  hd_stringData : stringData x' = stringData x;
  hd_rest : rest x' = rest x;
  hd_data k : blotted data k x x';
  hd_annotations k : k ∈ h → blotted annotations k x x';
  hd_others k : k ∉ h → value annotations k x' = value annotations k x;
}.

(** Equal values are shown equal, and others different. *)
Definition agreement (get : object → field) (k : string) (x x' y y' : object) : Prop :=
  ∀ v w, value get k x = Some v → value get k y = Some w → value get k x' = value get k y' ↔ toString v = toString w.

Record agrees (h : gset string) (x x' y y' : object) : Prop := {
  ag_data k : agreement data k x x' y y';
  ag_annotations k : k ∈ h → agreement annotations k x x' y y';
}.

Lemma key_texts_present get k objs i x v :
  objs !! i = Some (Some x) → value get k x = Some v → toString v ∈ present (key_texts get k objs).
Proof.
  intros Hi Hv. unfold present. apply list_elem_of_omap. exists (Some (toString v)). split; [|done].
  unfold key_texts. apply list_elem_of_fmap. exists (Some x). split; [|by eapply list_elem_of_lookup_2].
  cbn. unfold key_text. unfold value in Hv. destruct (get x); try done. by rewrite Hv.
Qed.

Lemma length_present (l : list (option string)) : (length (present l) ≤ length l)%nat.
Proof. induction l as [|[s|] l IH]; cbn; [lia|unfold present in IH; lia|unfold present in IH; lia]. Qed.

Lemma new_value_pluses get objs i x k v :
  length objs = 3 → objs !! i = Some (Some x) → value get k x = Some v → ∃ n, (n < 3)%nat ∧ new_value get objs k v = VText (pluses n).
Proof.
  intros Hl Hi Hv. destruct (replaced_pluses _ _ (key_texts_present _ _ _ _ _ _ Hi Hv)) as (n & Hn & Hr). exists n.
  pose proof (length_present (key_texts get k objs)) as H. unfold key_texts in H. rewrite length_fmap in H.
  split; [unfold key_texts in Hn; lia|]. unfold new_value. by rewrite Hr.
Qed.

Lemma new_value_inj get objs i j x y k v w :
  objs !! i = Some (Some x) → value get k x = Some v → objs !! j = Some (Some y) → value get k y = Some w →
  new_value get objs k v = new_value get objs k w ↔ toString v = toString w.
Proof.
  intros Hi Hv Hj Hw. unfold new_value. split; [|by intros ->]. pose proof (key_texts_present _ _ _ _ _ _ Hi Hv) as H1.
  pose proof (key_texts_present _ _ _ _ _ _ Hj Hw) as H2. destruct (replaced_pluses _ _ H1) as (n & _ & E1), (replaced_pluses _ _ H2) as (m & _ & E2).
  rewrite E1, E2. cbn. intros [= Heq]. apply (replaced_inj _ _ _ H1 H2). congruence.
Qed.

Lemma value_mask get set (get_set : ∀ f x, get (set f x) = f) keys objs x k :
  value get k (mask get set keys objs x) = (λ v, if bool_decide (k ∈ keys) then new_value get objs k v else v) <$> value get k x.
Proof.
  unfold value. rewrite (get_mask get set) by done. destruct (get x) as [| | |m]; [done..|]. rewrite map_lookup_imap. by destruct (m !! k).
Qed.

(** *** The values of an object that was masked *)

Lemma value_data_masked k1 k2 objs x k :
  value data k (masked k1 k2 objs x) = (λ v, if bool_decide (k ∈ k1) then new_value data objs k v else v) <$> value data k x.
Proof.
  unfold masked. destruct (mask_set_annotations k2 (in_objects (mask data set_data k1 objs) objs) (mask data set_data k1 objs x)) as [f ->].
  by rewrite <-(value_mask data set_data).
Qed.

Lemma value_annotations_masked k1 k2 objs x k :
  value annotations k (masked k1 k2 objs x) =
  (λ v, if bool_decide (k ∈ k2) then new_value annotations objs k v else v) <$> value annotations k x.
Proof.
  unfold masked. rewrite (value_mask annotations set_annotations) by done. destruct (mask_set_data k1 objs x) as [f ->].
  unfold new_value. by rewrite key_texts_data.
Qed.

Lemma masked_rest k1 k2 objs x :
  isCoreSecret (masked k1 k2 objs x) = isCoreSecret x ∧ stringData (masked k1 k2 objs x) = stringData x ∧ rest (masked k1 k2 objs x) = rest x.
Proof.
  unfold masked. destruct (mask_set_annotations k2 (in_objects (mask data set_data k1 objs) objs) (mask data set_data k1 objs x)) as [f ->].
  by destruct (mask_set_data k1 objs x) as [g ->].
Qed.

Section masked.
Context (h : gset string) (objs : list (option object)) (k1 k2 : list string).
Context (H1 : ∀ k, k ∈ k1 ↔ k ∈ ⋃ (data_keys <$> objs)) (H2 : ∀ k, k ∈ k2 ↔ k ∈ h) (H3 : length objs = 3).

Lemma data_key_masked i x k v : objs !! i = Some (Some x) → value data k x = Some v → k ∈ k1.
Proof.
  intros Hi Hv. apply H1. unfold value in Hv. destruct (data x) as [| | |m] eqn:Hm; try done.
  apply (data_keys_sub objs i x m); [done..|]. by apply elem_of_dom_2 in Hv.
Qed.

Lemma value_data_shown i x k : objs !! i = Some (Some x) → value data k (masked k1 k2 objs x) = new_value data objs k <$> value data k x.
Proof.
  intros Hi. rewrite value_data_masked. destruct (value data k x) as [v|] eqn:Hv; [|done]. cbn.
  by rewrite bool_decide_eq_true_2 by by eapply data_key_masked.
Qed.

Lemma value_annotations_shown x k : k ∈ h → value annotations k (masked k1 k2 objs x) = new_value annotations objs k <$> value annotations k x.
Proof. intros Hk. rewrite value_annotations_masked. by rewrite bool_decide_eq_true_2 by by apply H2. Qed.

Lemma masked_hides i x : objs !! i = Some (Some x) → hides h x (masked k1 k2 objs x).
Proof.
  intros Hi. destruct (masked_rest k1 k2 objs x) as (? & ? & ?). split; [done..| | |].
  - intros k. unfold blotted. rewrite (value_data_shown i) by done. destruct (value data k x) as [v|] eqn:Hv; [|done]. cbn.
    destruct (new_value_pluses data objs i x k v) as (n & Hn & Hr); [done..|]. exists n. split; [done|by f_equal].
  - intros k Hk. unfold blotted. rewrite value_annotations_shown by done. destruct (value annotations k x) as [v|] eqn:Hv; [|done]. cbn.
    destruct (new_value_pluses annotations objs i x k v) as (n & Hn & Hr); [done..|]. exists n. split; [done|by f_equal].
  - intros k Hk. rewrite value_annotations_masked. rewrite bool_decide_eq_false_2 by by rewrite H2.
    by destruct (value annotations k x).
Qed.

Lemma masked_agrees i j x y : objs !! i = Some (Some x) → objs !! j = Some (Some y) →
  agrees h x (masked k1 k2 objs x) y (masked k1 k2 objs y).
Proof.
  intros Hi Hj. split.
  - intros k v w Hv Hw. rewrite (value_data_shown i x), (value_data_shown j y), Hv, Hw by done. cbn.
    rewrite <-(new_value_inj data objs i j x y k v w) by done. split; [apply (inj Some)|by intros ->].
  - intros k Hk v w Hv Hw. rewrite !value_annotations_shown, Hv, Hw by done. cbn.
    rewrite <-(new_value_inj annotations objs i j x y k v w) by done. split; [apply (inj Some)|by intros ->].
Qed.
End masked.

(** The annotation of the last applied configuration in the live object that is shown: it is
    hidden, or the configuration as it is shown. *)
Definition annotated (h : gset string) (live last shown : option object) : Prop :=
  match live, last with
  | Some x, Some a => ∃ m text,
      GetAnnotations x = Some m ∧ (if bool_decide (LastAppliedConfigAnnotation ∈ h) then text = replacement else marshal_object a = Some text) ∧
      shown = Some (SetAnnotations (<[LastAppliedConfigAnnotation := text]> m) x)
  | _, _ => shown = live
  end.

Lemma hide_some get set (get_set : ∀ f x, get (set f x) = f) (set_get : ∀ x, set (get x) x = x)
    (set_set : ∀ f g x, set f (set g x) = set f x) keys objs r : NoDup keys →
  hide get set keys objs = Some r → r = in_objects (mask get set keys objs) objs.
Proof. intros Hk. rewrite hide_cases by done. destruct (_ && _); [done|]. by intros [= <-]. Qed.

Lemma hide_both_some walk h objs r : walks walk → hide_both walk h objs = Some r →
  ∃ k1 k2, (∀ k, k ∈ k1 ↔ k ∈ ⋃ (data_keys <$> objs)) ∧ (∀ k, k ∈ k2 ↔ k ∈ h) ∧ r = in_objects (masked k1 k2 objs) objs.
Proof.
  intros Hw. unfold hide_both. destruct (hide data _ _ _) as [r1|] eqn:E1; [|done]. cbn. intros E2.
  apply hide_some in E1 as ->; [|done|by intros []|done|by apply walks_NoDup].
  apply hide_some in E2 as ->; [|done|by intros []|done|by apply walks_NoDup].
  exists (walk (⋃ (data_keys <$> objs))), (walk h). split_and!; [by intros; apply walks_elem..|].
  unfold in_objects. rewrite <-list_fmap_compose. apply list_fmap_ext. by intros i [x|] _.
Qed.

(** C16. A result hides every value: each value of the data, of the hidden annotations and of
    those in the last applied configuration is replaced by a text of pluses, and nothing else
    changes; among the desired, the live and the last applied object, values of a key are shown
    equal exactly if they are equal; and the live object carries the hidden configuration. *)
Theorem values_hidden walk h target live target' live' :
  walks walk → HideSecretData walk target live h = Some (target', live') →
  ∃ shown last, Forall2 (option_Forall2 (hides h)) (parts target live) [target'; shown; last] ∧
    (∀ i j x y x' y', parts target live !! i = Some (Some x) → parts target live !! j = Some (Some y) →
      [target'; shown; last] !! i = Some (Some x') → [target'; shown; last] !! j = Some (Some y') → agrees h x x' y y') ∧
    annotated h shown last live'.
Proof.
  intros Hw. rewrite HideSecretData_parts. destruct (hide_both _ _ _) as [r|] eqn:Hr; [|done].
  apply hide_both_some in Hr as (k1 & k2 & H1 & H2 & ->); [|done]. set (objs := parts target live) in *. cbn.
  set (f := masked k1 k2 objs). destruct (store_last_applied _ _ _) as [o|] eqn:Hs; [|done]. intros [= <- <-].
  exists (option_map f (NormalizeSecret <$> live)), (option_map f (NormalizeSecret <$> last_applied live)). split_and!.
  - change (Forall2 (option_Forall2 (hides h)) objs (in_objects f objs)). apply Forall2_fmap_r, Forall_Forall2_diag, Forall_lookup.
    intros i [x|] Hi; constructor. by apply (masked_hides h objs k1 k2 H1 H2 eq_refl i).
  - intros i j x y x' y' Hi Hj. change [_; _; _] with (in_objects f objs). unfold in_objects. rewrite !list_lookup_fmap, Hi, Hj.
    intros [= <-] [= <-]. by apply (masked_agrees h objs k1 k2 H1 H2 i j).
  - destruct live as [x|]; cbn in Hs |- *; [|by injection Hs as <-].
    destruct (GetLastAppliedConfigAnnotation x) as [a|] eqn:Ea; [|by injection Hs as <-]. cbn in Hs |- *.
    destruct (masked_annotations k1 k2 objs x a Ea) as [m Hm]. fold f in Hm. rewrite Hm in Hs.
    case_bool_decide; [|destruct (marshal_object _) as [text|]; [|done]]; injection Hs as <-; by eauto.
Qed.

Lemma walks_empty walk (X : gset string) : walks walk → walk X = [] ↔ X = ∅.
Proof.
  intros Hw. specialize (Hw X). split; intros H.
  - apply leibniz_equiv, elements_empty_iff, Permutation_nil. by rewrite <-Hw, H.
  - apply Permutation_nil. by rewrite Hw, H, elements_empty.
Qed.

Lemma hide_fails get set (get_set : ∀ f x, get (set f x) = f) (set_get : ∀ x, set (get x) x = x)
    (set_set : ∀ f g x, set f (set g x) = set f x) walk (K : gset string) objs : walks walk →
  hide get set (walk K) objs = None ↔ Exists (bad get) objs ∧ K ≠ ∅.
Proof.
  intros Hw. rewrite hide_cases by (done || by apply walks_NoDup). unfold any_bad. rewrite <-(walks_empty walk K) by done.
  case_bool_decide; case_bool_decide; cbn; naive_solver.
Qed.

(** It fails exactly for a field that should be a map and is none, when there is something to
    hide, if the configuration can be written. *)
Lemma HideSecretData_fails walk h target live : walks walk → (∀ a, is_Some (marshal_object a)) →
  HideSecretData walk target live h = None ↔
    (Exists (bad data) (parts target live) ∧ ⋃ (data_keys <$> parts target live) ≠ ∅) ∨ (Exists (bad annotations) (parts target live) ∧ h ≠ ∅).
Proof.
  intros Hw Hm. rewrite HideSecretData_parts. unfold hide_both. set (objs := parts target live).
  rewrite <-(hide_fails data set_data (λ _ _, eq_refl) (λ x, ltac:(by destruct x)) (λ _ _ _, eq_refl) walk) by done.
  destruct (hide data _ _ _) as [r1|] eqn:E1; [|cbn; split; [by left|done]].
  apply hide_some in E1 as ->; [|done|by intros []|done|by apply walks_NoDup].
  pose proof (hide_fails annotations set_annotations (λ _ _, eq_refl) (λ x, ltac:(by destruct x)) (λ _ _ _, eq_refl) walk h
    (in_objects (mask data set_data (walk (⋃ (data_keys <$> objs))) objs) objs) Hw) as E2.
  assert (Exists (bad annotations) (in_objects (mask data set_data (walk (⋃ (data_keys <$> objs))) objs) objs) ↔ Exists (bad annotations) objs) as <-.
  { unfold in_objects. rewrite Exists_fmap. apply Exists_proper; [|done]. intros [x|]; [|done]. unfold compose. cbn [option_map bad].
    by destruct (mask_set_data (walk (⋃ (data_keys <$> objs))) objs x) as [f ->]. }
  rewrite <-E2. cbn [mbind option_bind]. destruct (hide annotations _ _ _) as [r2|] eqn:E3; [|cbn; split; [by right|done]].
  apply hide_some in E3 as ->; [|done|by intros []|done|by apply walks_NoDup].
  split; [|by intros []]. unfold objs. cbn. unfold store_last_applied. destruct live as [x|]; cbn; [|done].
  destruct (GetLastAppliedConfigAnnotation x); cbn; [|done]. case_bool_decide; [done|].
  match goal with |- context [marshal_object ?a] => destruct (Hm a) as [text ->] end. done.
Qed.
End seen.

(** ** A concrete secret *)

Module HideSample.

#[local] Instance sample_values : SecretValues := {| other := nat; sprint n := "number"; rest_t := string |}.

Definition secret (d a : field) : object := {| isCoreSecret := true; data := d; stringData := Absent; annotations := a; rest := "db" |}.

(** The configuration of a secret with a password is its text, here. *)
Definition password (v : val) : field := Fields {["password" := v]}.

#[local] Instance sample_codec : SecretCodec := {|
  annotation_text v := match v with VText s => Some s | _ => None end;
  annotation_text_text s := eq_refl;
  EncodeToString s := "base64 of " +:+ s;
  typed_data o := match data o with Fields _ => Some (data o) | _ => None end;
  unmarshal_object s := if String.prefix "password " s then Some (secret (password (VText (String.substring 9 (String.length s) s))) Absent) else None;
  marshal_object o := match data o with
    | Fields m => match m !! "password" with Some (VText s) => Some ("password " +:+ s) | _ => Some "" end
    | _ => Some "" end |}.

Definition target (new : string) : option object := Some (secret (password (VText new)) Absent).

(** The live object has another password than its last configuration. *)
Definition live (old changed : string) : option object :=
  Some (secret (password (VText changed)) (Fields {["owner" := VText "me"; LastAppliedConfigAnnotation := VText ("password " +:+ old)]})).

Example password_hidden :
  HideSecretData elements (target "new") (live "old" "changed") ∅ =
  Some (target "++++++++",
    Some (secret (password (VText "++++++++++++")) (Fields {["owner" := VText "me"; LastAppliedConfigAnnotation := VText "password ++++++++++++++++"]}))).
Proof. vm_compute. reflexivity. Qed.

(** Equal passwords are shown equal, and [owner] can be hidden too. *)
Example equal_password_hidden :
  HideSecretData elements (target "new") (live "new" "new") {["owner"]} =
  Some (target "++++++++",
    Some (secret (password (VText "++++++++")) (Fields {["owner" := VText "++++++++"; LastAppliedConfigAnnotation := VText "password ++++++++"]}))).
Proof. vm_compute. reflexivity. Qed.

Lemma elements_walks : walks elements.
Proof. intros X. done. Qed.

Lemma reverse_walks : walks (λ X, reverse (elements X)).
Proof. intros X. apply reverse_Permutation. Qed.

Definition live_parts (new old changed : string) : list (option object) :=
  [target new; live old changed; Some (secret (password (VText old)) Absent)].

Lemma same_three (a b c a' b' c' : option string) :
  is_Some a ↔ is_Some a' → is_Some b ↔ is_Some b' → is_Some c ↔ is_Some c' → a = b ↔ a' = b' → a = c ↔ a' = c' → b = c ↔ b' = c' →
  same_pattern [a; b; c] [a'; b'; c'].
Proof.
  intros Ha Hb Hc Hab Hac Hbc. split; [do 3 (constructor; [done|]); constructor|].
  assert (∀ x y x' y' : option string, x = y ↔ x' = y' → Some x = Some y ↔ Some x' = Some y') as Hs by (intros x y x' y' H; split; intros [= E]; f_equal; by apply H).
  intros [|[|[|i]]] [|[|[|j]]]; cbn; try done; apply Hs; first [done|tauto|by split; intros E; symmetry; [apply Hab|apply Hab]|by split; intros E; symmetry; [apply Hac|apply Hac]|by split; intros E; symmetry; [apply Hbc|apply Hbc]].
Qed.

Lemma password_pattern k new old changed new' old' changed' :
  new = changed ↔ new' = changed' → new = old ↔ new' = old' → changed = old ↔ changed' = old' →
  same_pattern (key_texts data k (live_parts new old changed)) (key_texts data k (live_parts new' old' changed')).
Proof.
  intros H1 H2 H3. unfold live_parts, target, live, key_texts. cbn [fmap list_fmap mbind option_bind secret key_text data password].
  unfold key_text. cbn [data secret password]. destruct (decide (k = "password")) as [->|Hk].
  - rewrite !lookup_singleton_eq. cbn [fmap option_fmap option_map toString]. apply same_three; first [done|naive_solver].
  - rewrite !lookup_singleton_ne by congruence. by apply same_three.
Qed.

Lemma target_alike v w : option_Forall2 (alike ∅ ∅) (target v) (target w).
Proof. constructor. by split. Qed.

Lemma live_alike a b a' b' : option_Forall2 (alike ∅ {[LastAppliedConfigAnnotation]}) (live a b) (live a' b').
Proof.
  constructor. split; try done. cbn. split; [set_solver|].
  intros k Hk. destruct (decide (k = LastAppliedConfigAnnotation)) as [->|Hn]; [set_solver|].
  destruct (decide (k = "owner")) as [->|Ho]; [by rewrite !lookup_insert_eq|]. by rewrite !lookup_insert_ne by done.
Qed.

Lemma parts_one : parts (target "one") (live "one" "two") = live_parts "one" "one" "two".
Proof. vm_compute. reflexivity. Qed.

Lemma parts_three : parts (target "three") (live "three" "four") = live_parts "three" "three" "four".
Proof. vm_compute. reflexivity. Qed.

(** Secrets with other passwords, of which only the live ones differ from the others *)
Lemma secrets_alike : alike_inputs ∅ (target "one") (live "one" "two") (target "three") (live "three" "four").
Proof.
  split.
  - apply (target_alike "one" "three").
  - change (option_Forall2 (alike ∅ ∅) (parts (target "one") (live "one" "two") !!! 2) (parts (target "three") (live "three" "four") !!! 2)).
    rewrite parts_one, parts_three. apply target_alike.
  - assert (rewritten (live "one" "two") = {[LastAppliedConfigAnnotation]}) as -> by (vm_compute; reflexivity).
    apply (live_alike "one" "two" "three" "four").
  - intros k. rewrite parts_one, parts_three. by apply password_pattern.
  - intros k Hk. set_solver.
Qed.

Lemma secrets_not_seen_witness :
  HideSecretData elements (target "one") (live "one" "two") ∅ = HideSecretData (λ X, reverse (elements X)) (target "three") (live "three" "four") ∅.
Proof. apply (secrets_not_seen elements (λ X, reverse (elements X)) ∅); [exact elements_walks|exact reverse_walks|exact secrets_alike]. Defined.

Lemma values_hidden_witness :
  ∃ target' live' shown last, HideSecretData elements (target "one") (live "one" "two") ∅ = Some (target', live') ∧
    Forall2 (option_Forall2 (hides ∅)) (parts (target "one") (live "one" "two")) [target'; shown; last].
Proof.
  destruct (HideSecretData elements (target "one") (live "one" "two") ∅) as [[t l]|] eqn:E; [|vm_compute in E; discriminate].
  destruct (values_hidden _ _ _ _ _ _ elements_walks E) as (s & a & H & _). exists t, l, s, a. split; [reflexivity|exact H].
Defined.

(** A configuration that cannot be read stays in the live object as it is. *)
Example unreadable_configuration_shown :
  let live := Some (secret (password (VText "p")) (Fields {[LastAppliedConfigAnnotation := VText "broken p"]})) in
  HideSecretData elements None live ∅ = Some (None, Some (secret (password (VText "++++++++")) (Fields {[LastAppliedConfigAnnotation := VText "broken p"]}))).
Proof. vm_compute. reflexivity. Qed.

(** That of the desired object is not looked at, readable or not. *)
Example desired_configuration_shown :
  let target := Some (secret (password (VText "p")) (Fields {[LastAppliedConfigAnnotation := VText "password p"]})) in
  HideSecretData elements target None ∅ = Some (Some (secret (password (VText "++++++++")) (Fields {[LastAppliedConfigAnnotation := VText "password p"]})), None).
Proof. vm_compute. reflexivity. Qed.

(** A field that is no map is refused, but only if another object has something to hide. *)
Example bad_data : HideSecretData elements (Some (secret Bad Absent)) (live "one" "two") ∅ = None ∧
  HideSecretData elements (Some (secret Bad Absent)) None ∅ = Some (Some (secret Bad Absent), None).
Proof. vm_compute. done. Qed.

End HideSample.
